(* ===== verification/_CoqProject ===== *)
-Q . S2P
Prelude.v
PyStr.v
PyJson.v
PyDumps.v
PyMonad.v
PyKeyed.v
PyBytes.v
PySha.v
PyRegex.v
PyUrl.v
PyPath.v
PyFs.v
PyThreads.v
Host.v
TkParser.v
SessionParser.v
SessionWatcher.v
ActivityState.v
EventQueues.v
WsBroadcaster.v
LayoutOps.v
LayoutServer.v
TranscriptServer.v
SubagentCards.v
Proxy.v
ServiceDispatcher.v
LayoutCli.v
LayoutPipeline.v
LayoutNeighbors.v
AppRegistry.v
Github.v
GithubTree.v
AgentStream.v
Ask.v
PrepareText.v
Prepare.v
PrepareFacts.v
JsTree.v
JsIntel.v
TsIntel.v
PyIntel.v
Runner.v
BackupConfig.v
BackupEvents.v
BackupRestic.v
BackupSnapshot.v
BackupRunner.v
BackupCli.v
Bootstrap.v
BootstrapFacts.v
TaskFiles.v
AgentManager.v
AgentServer.v
ManagerFacts.v
CreationFacts.v
ClientFacts.v
EndpointFacts.v
ManagerDemo.v
Worker.v
WorkerFacts.v
Reveal.v
RevealFacts.v
PreviewFacts.v
RevealDemo.v
