(* ===== verification/Prelude.v ===== *)
(** * Code-aware PR review: a verification development

    The repository is a workspace for coding agents.  A container runs a web
    interface ([apps/system_interface]) in which the user sees the chats of the
    agents and a grid of panels; small services keep backups, register
    applications and review pull requests; scripts and hooks are called by the
    agents themselves.  This development models the Python code of these parts
    and proves what makes it correct.  Paths below are relative to [src/];
    [SI] stands for [apps/system_interface/imbue/system_interface].

    ** The parts, and the files that model them

    Shared foundations
    - [Prelude]: notations, tactics, hint databases, generic list lemmas, sorting.
    - [PyStr], [PyJson], [PyDumps], [PyKeyed], [PyBytes], [PySha], [PyRegex],
      [PyUrl], [PyPath]: what the program uses of Python's standard library, as
      executable definitions: [str] methods on lists of code points, dynamic
      values, [json.loads], [json.dumps], equality of hashable values, UTF-8/16/32
      and base64 decoding, SHA-256, regular expressions, [urllib.parse],
      [pathlib].  [PyDumps.loads_dumps_indent] is the JSON round trip the stored
      files rely on.
    - [PyMonad]: exceptions ([outcome]), exceptions with state ([M]), [try],
      [finally], loops, and two small program logics ([triple], [stepwise]).
    - [PyThreads]: threads that share a state, as trees of atomic critical
      sections and questions to the world; pools of them, why every schedule
      ends, and a rely-guarantee logic with ghost debts.
    - [Host]: clocks, files, child processes, as an interface with its laws.
    - [PyFs]: a concrete file system with symbolic links, for the parts whose
      correctness is about paths and links: resolving, walking, moving, copying.

    The commands of the agents
    - [TkParser]: [libs/tk_command_parsing/.../parser.py] and the gate
      [scripts/claude_tk_standalone_check.py].
    - [TaskFiles]: [.agents/shared/scripts/parse_task_frontmatter.py], the fields
      of a task file and the lines a shell evaluates.
    - [Worker], [WorkerFacts]: [.agents/skills/launch-task/scripts/create_worker.py],
      launching workers and waiting for their reports.
    - [Reveal]: [.agents/skills/update-system-interface/scripts/reveal_system_interface.py],
      putting a merged change of the interface into service, taking it back, and
      previewing one; the machine is a parameter ([Box]) whose actions are logged.
      [RevealFacts] and [PreviewFacts] read the log as the history of the
      interface and of its previews, [RevealDemo] is a concrete machine.

    The chat of an agent
    - [SessionParser]: [SI/session_parser.py], transcript lines to events.
    - [SessionWatcher]: [SI/session_watcher.py], tailing, paging and emitting
      the events of the session files; calls [SessionParser].
    - [SubagentCards]: the rest of [SI/session_watcher.py], the cards of subagents
      attached to the calls that started them, over a heap of shared event
      objects, with [on_events] of [SI/app_context.py].
    - [TranscriptServer]: the routes of [SI/server.py] that page through a
      transcript, and its event streams; over [SessionWatcher].
    - [ActivityState]: [SI/activity_state.py] and the part of
      [SI/agent_manager.py] that keeps the indicator.
    - [EventQueues]: [SI/event_queues.py], the queues of the event streams.
    - [WsBroadcaster]: [SI/ws_broadcaster.py], the queues of the WebSocket
      clients with the eviction of stalled ones.

    The agents
    - [AgentManager]: [SI/agent_manager.py] and [SI/agent_discovery.py], the
      registry of agents that the stream of [mngr observe], creations and
      requests change together; uses [ActivityState] and [WsBroadcaster].
    - [AgentServer]: the endpoints of [SI/server.py] that message, interrupt,
      create, destroy and start agents, and its two WebSockets.
    - [ManagerFacts], [CreationFacts], [ClientFacts]: whatever the schedule of the
      threads, no change is left untold, creations complete, clients that join
      miss nothing.  [EndpointFacts]: each endpoint, branch by branch.
      [ManagerDemo]: a concrete server with its threads at work.

    The grid of panels
    - [LayoutOps]: [SI/layout_ops.py], the queries over the saved layout and the
      advisory mutex.
    - [LayoutServer]: the layout endpoints of [SI/server.py]; composes [LayoutOps]
      with [WsBroadcaster].
    - [LayoutCli]: [scripts/layout.py], the agents' client, from the parsed
      arguments on.
    - [LayoutPipeline]: what the client may rely on of the server.
    - [LayoutNeighbors]: a reference definition of neighbourhood and its
      agreement with the client's search.

    The services behind the interface
    - [Proxy]: [SI/proxy.py], the generated pages, and the rewriting of cookies
      and of the absolute paths in HTML; its two expressions are run by [PyRegex].
    - [ServiceDispatcher]: [SI/service_dispatcher.py], what a request or a WebSocket
      under a service's prefix comes to; [httpx] and the sockets are arguments.

    The registry of applications
    - [AppRegistry]: [scripts/forward_port.py] writes it,
      [libs/app_watcher/.../watcher.py] turns its changes into events.

    Pull request review
    - [Github], [GithubTree]: [libs/pr_review/.../github.py], the API client
      over a transport that is a parameter, the cached source trees, usages.
    - [AgentStream]: [libs/pr_review/.../agent_stream.py], the headless agent and
      its log.
    - [Ask]: [libs/pr_review/.../ask.py], the stored questions and the threads
      that answer them, interleaved with the request handlers.
    - [PrepareText], [Prepare], [PrepareFacts]: [libs/pr_review/.../prepare.py],
      the prepared checkouts and the store they share, over [PyFs].
    - [JsTree], [JsIntel]: [libs/pr_review/.../jsintel.py], from a position to a
      declaration through patterns, scopes and imports; a syntax tree is data, the
      parser that returns it a parameter.
    - [TsIntel]: [libs/pr_review/.../tsintel.py], the registry of language services
      and the threads that share it.
    - [PyIntel]: [libs/pr_review/.../pyintel.py], around Jedi, which is a parameter.
    - [Runner]: [libs/pr_review/.../runner.py], the handlers that compose all of the
      above; each component works on its part of one state.

    The boot of the container
    - [Bootstrap], [BootstrapFacts]: [libs/bootstrap/.../manager.py], over [PyFs]
      and programs that may change it; writes what [BackupConfig] reads.

    Backups
    - [BackupConfig], [BackupEvents], [BackupRestic], [BackupSnapshot],
      [BackupRunner], [BackupCli]: [libs/host_backup/.../*.py]: configuration, the
      event log, restic, snapshots and their cleanup, the tick loop, and the
      [host-backup-now] command that waits on the log of the loop.

    ** How the code is rendered

    A [str] is the list of its code points, a [dict] read from JSON an
    association list in insertion order, [bytes] a list of numbers below 256, a
    float the rational it denotes.  A function that may raise returns an
    [outcome]; one that also reads or writes state is an [M S].  Parts that run
    concurrently are sequences of steps: [EventQueues] and [SessionWatcher] take
    a step per critical section, [Ask] has a step relation for handlers and
    threads, and the agent manager is made of [prog]s: a [with self._lock] block is
    one atomic section, and a pool of threads takes sections in any order.
    Third-party code (tomlkit, pydantic, restic, ripgrep, curl, tarfile, claude) and the operating system are type-class parameters; what a theorem
    needs of them is a named law or hypothesis with a concrete instance in the
    witness.

    ** What is shown

    - Equivalence with a reference: parsing in parts is parsing at once, tailing
      in steps is reading once, the neighbour search, the names of a destructuring
      pattern (where its defaults and rests are on identifiers), the enrichment of events with the cards of subagents.
    - Resolution and containment: a name leads to what the file imports under it,
      else to the declaration of the innermost scope that has one; what is found is
      a file of the tree, links followed.
    - Refinement: the pages a client reads are slices of one timeline; the events
      of a tick follow a grammar; the broadcaster is a family of independent
      clients; the registry's event log replays to the registry.
    - Exactly-once and ordering: event queues, emitted session events, source
      order of usages, the log lines of an agent run.
    - Commands and their order: what a blocking launch of a worker runs and
      reports for each way it can end, and the fields a shell gets; the exit code
      of a reveal is true of the interface it leaves, a rollback restores the
      known-good tree, a preview that returns is up entirely or has run the commands
      that take it down.
    - Safety and invariants: fresh event ids, the mutex window, at most one
      operation per client run, questions that never share a file and are never
      left running without a thread, parents kept until their cards are there,
      no language service started and lost, a well-formed backup log, installs that never
      write through links into the shared store, staged files that are not lost.
    - Threads: for every schedule, the latest state of the agents is broadcast, a
      client that joins in between has been sent it, an announced creation is
      completed exactly once.
    - Round trips: scrolling back page by page reads the whole transcript; quoted
      commands, saved layouts, refs shown and typed back, questions stored and
      read back, previews set up and taken down.
    - Staying in a service: a request reaches the service once or is answered by
      the interface, and its failures are answered or raised by a table; the paths
      of its pages get its prefix, its cookies get it or start with it already, and
      rewriting a page twice is rewriting it once.
    - Termination and bounds: ticks, [host-backup-now], the layout client, the
      wait for a report.
    - Error behaviour: statuses of the API, failed cleanups, errors of GitHub that
      are answered with their own text, requests that are refused before anything is
      asked, engines that fall back.
    Lemmas marked as findings in the manifest show where the code does not do what
    it means to; each is proved of the definitions that model it.

    ** Fuel and bounds

    [json.loads] takes twice the length of its text ([LoadsFacts.parse_ok] proves
    it never runs out); UTF-8 decoding and the decimal printer take the length of
    their input.  The polling loops of the client take 22 turns, more than
    their deadlines allow ([client_terminates] proves they end before); the
    loops of a backup tick take as many turns as fit their timeouts
    ([tick_terminates]), as does the wait for a report ([await_ends]).  Patterns are
    expanded to the height of their tree; more changes nothing ([pattern_ids_fuel]).
    Every other recursion is structural, the polls of [Reveal.wait_healthy] included.

    ** Not modelled

    - The watchdog observers and the threads of [session_watcher.py]: they only
      decide when the modelled operations run.
    - [SI/server.py] beyond the layout, agent and transcript endpoints: pages,
      assets and plugins.
    - Third-party engines (Jedi, tree-sitter, tsserver), Flask's routing and the static
      pages of the review tool; [libs/runtime_backup]; the sign-in modules of [SI];
      the other scripts of the skills; the Telegram bot.
    - Command line parsing (argparse), logging, file modes and fsync. *)

From Stdlib Require Import ZArith NArith QArith Qround Lqa Lia String.
From stdpp Require Export base decidable option list gmap sets sorting strings.
From stdpp Require Import options.

#[global] Open Scope Z_scope.
#[global] Open Scope nat_scope.

(** ** Strings

    A Python [str] is the list of its code points.  String literals of the
    development are decoded by the coercion [u]. *)
Abbreviation pystr := (list N).

Fixpoint u (s : String.string) : pystr :=
  match s with
  | String.EmptyString => []
  | String.String c s' => Ascii.N_of_ascii c :: u s'
  end.
(** Literals stay folded in goals; [vm_compute] and conversion still see
    through them. *)
#[global] Opaque u.

Declare Scope py_scope.
Delimit Scope py_scope with py.

(** [a =? b] on any type with decidable equality: Python's [==] on values whose
    equality is structural. *)
Notation "a =? b" := (bool_decide (a = b)) (at level 70, no associativity) : py_scope.
Notation "a <>? b" := (negb (bool_decide (a = b))) (at level 70, no associativity) : py_scope.
Notation "x '∈?' l" := (bool_decide (x ∈ l)) (at level 70, no associativity) : py_scope.
Notation "x '∉?' l" := (negb (bool_decide (x ∈ l))) (at level 70, no associativity) : py_scope.

(** ** Tactics *)

(** Case analysis on the first [match] scrutinee of the goal or a hypothesis. *)
Ltac py_match :=
  match goal with
  | |- context [match ?e with _ => _ end] =>
      lazymatch e with
      | context [match _ with _ => _ end] => fail
      | _ => let E := fresh "E" in destruct e eqn:E
      end
  end.

Ltac py_match_in H :=
  match type of H with
  | context [match ?e with _ => _ end] =>
      lazymatch e with
      | context [match _ with _ => _ end] => fail
      | _ => let E := fresh "E" in destruct e eqn:E
      end
  end.

(** Turn boolean tests of the context into propositions. *)
Ltac py_bool :=
  repeat match goal with
  | H : _ && _ = true |- _ => apply andb_true_iff in H; destruct H
  | H : _ || _ = false |- _ => apply orb_false_iff in H; destruct H
  | H : negb _ = true |- _ => apply negb_true_iff in H
  | H : negb _ = false |- _ => apply negb_false_iff in H
  | H : bool_decide _ = true |- _ => apply bool_decide_eq_true in H
  | H : bool_decide _ = false |- _ => apply bool_decide_eq_false in H
  | H : (_ <? _)%nat = true |- _ => apply Nat.ltb_lt in H
  | H : (_ <? _)%nat = false |- _ => apply Nat.ltb_ge in H
  | H : (_ <=? _)%nat = true |- _ => apply Nat.leb_le in H
  | H : (_ <=? _)%nat = false |- _ => apply Nat.leb_gt in H
  | H : (_ <? _)%Z = true |- _ => apply Z.ltb_lt in H
  | H : (_ <? _)%Z = false |- _ => apply Z.ltb_ge in H
  | H : (_ <=? _)%Z = true |- _ => apply Z.leb_le in H
  | H : (_ <=? _)%Z = false |- _ => apply Z.leb_gt in H
  end.

(** The rewrite base of the development: equations every component uses. *)
Create HintDb py.
Create Rewrite HintDb py.

(** ** Generic list lemmas *)

Lemma filter_app_bool {A} (f : A → bool) l1 l2 :
  List.filter f (l1 ++ l2) = List.filter f l1 ++ List.filter f l2.
Proof. induction l1 as [|a l1 IH]; simpl; [done|]. destruct (f a); simpl; by rewrite IH. Qed.

Lemma existsb_elem {A} (f : A → bool) l :
  existsb f l = true ↔ ∃ x, x ∈ l ∧ f x = true.
Proof.
  rewrite existsb_exists. split; intros (x & Hx & Hf); exists x; split; auto;
    by apply list_elem_of_In.
Qed.

Lemma existsb_none {A} (f : A → bool) l :
  existsb f l = false ↔ ∀ x, x ∈ l → f x = false.
Proof.
  induction l as [|a l IH]; simpl.
  - split; [intros _ x Hx; inv Hx | done].
  - rewrite orb_false_iff, IH. split.
    + intros [Ha Hl] x Hx. apply elem_of_cons in Hx as [->|Hx]; auto.
    + intros H. split; [apply H; left | intros x Hx; apply H; by right].
Qed.

Lemma existsb_perm {A} (f : A → bool) l1 l2 :
  l1 ≡ₚ l2 → existsb f l1 = existsb f l2.
Proof.
  induction 1; simpl; try congruence. by rewrite !orb_assoc, (orb_comm (f y)).
Qed.

Lemma list_find_app {A} (f : A → bool) l1 l2 :
  List.find f (l1 ++ l2) = match List.find f l1 with Some x => Some x | None => List.find f l2 end.
Proof. induction l1 as [|a l1 IH]; simpl; [done|]. by destruct (f a). Qed.

(** The last [n] elements, Python's [l[-n:]] for [n > 0] ([l[-0:]] is the
    whole list, as in Python). *)
Definition last_n {A} (n : nat) (l : list A) : list A :=
  if (n =? 0)%nat then l else drop (length l - n) l.

Lemma last_n_length {A} n (l : list A) : 0 < n → length (last_n n l) = min n (length l).
Proof.
  intros Hn. unfold last_n. destruct (Nat.eqb_spec n 0); [lia|].
  rewrite length_drop. lia.
Qed.

Lemma last_n_suffix {A} n (l : list A) : ∃ k, l = k ++ last_n n l.
Proof.
  unfold last_n. destruct (n =? 0)%nat; [by exists []|].
  exists (take (length l - n) l). by rewrite take_drop.
Qed.

(** [l.remove(x)] where it finds [x]: the first occurrence goes. *)
Fixpoint remove1 {A} `{EqDecision A} (x : A) (l : list A) : list A :=
  match l with
  | [] => []
  | y :: l' => if decide (y = x) then l' else y :: remove1 x l'
  end.

Lemma remove1_other {A} `{EqDecision A} (x y : A) l : y ≠ x → y ∈ remove1 x l ↔ y ∈ l.
Proof.
  intros Hne. induction l as [|z l IH]; simpl; [done|].
  case_decide as E; rewrite elem_of_cons, ?IH; [|by rewrite elem_of_cons].
  rewrite E. naive_solver.
Qed.

Lemma remove1_sublist {A} `{EqDecision A} (x : A) l : remove1 x l `sublist_of` l.
Proof.
  induction l as [|z l IH]; simpl; [constructor|].
  case_decide; [by constructor | by apply sublist_skip].
Qed.

Lemma remove1_notin {A} `{EqDecision A} (x : A) l : x ∉ l → remove1 x l = l.
Proof.
  induction l as [|z l IH]; simpl; [done|]. intros Hn.
  rewrite decide_False by (intros ->; apply Hn; left). f_equal. apply IH. intros H. apply Hn. by right.
Qed.

(** ** Stable sort, Python's [list.sort] / [sorted]: [leb] compares the keys. *)
Section sort.
Context {A : Type} (leb : A → A → bool).

Fixpoint insert_by (x : A) (l : list A) : list A :=
  match l with
  | [] => [x]
  | y :: l' => if leb x y then x :: y :: l' else y :: insert_by x l'
  end.

Definition sort_by (l : list A) : list A := foldr insert_by [] l.

Lemma insert_by_perm x l : insert_by x l ≡ₚ x :: l.
Proof.
  induction l as [|y l IH]; simpl; [done|].
  destruct (leb x y); [done|]. rewrite IH. apply Permutation_swap.
Qed.

Lemma sort_by_perm l : sort_by l ≡ₚ l.
Proof. induction l as [|x l IH]; simpl; [done|]. by rewrite insert_by_perm, IH. Qed.

Lemma sort_by_elem x l : x ∈ sort_by l ↔ x ∈ l.
Proof. by rewrite sort_by_perm. Qed.

Lemma sort_by_length l : length (sort_by l) = length l.
Proof. by rewrite sort_by_perm. Qed.

Definition sorted_by (l : list A) : Prop := StronglySorted (λ a b, leb a b = true) l.

Context (leb_total : ∀ a b, leb a b = true ∨ leb b a = true).
Context (leb_trans : ∀ a b c, leb a b = true → leb b c = true → leb a c = true).

Lemma insert_by_sorted x l : sorted_by l → sorted_by (insert_by x l).
Proof using leb_total leb_trans.
  unfold sorted_by. induction 1 as [|y l Hl IH Hy]; simpl.
  - repeat constructor.
  - destruct (leb x y) eqn:Exy.
    + constructor; [by constructor|]. constructor; [done|].
      eapply Forall_impl; [exact Hy|]. simpl. eauto.
    + constructor; [done|]. rewrite insert_by_perm. constructor; [|done].
      destruct (leb_total x y); congruence.
Qed.

Lemma sort_by_sorted l : sorted_by (sort_by l).
Proof using leb_total leb_trans.
  induction l as [|x l IH]; simpl; [constructor|]. by apply insert_by_sorted.
Qed.

(** A list already in order is left as it is: the sort is stable. *)
Lemma sort_by_id l : sorted_by l → sort_by l = l.
Proof.
  induction 1 as [|x l Hl IH Hx]; simpl; [done|]. rewrite IH.
  destruct l as [|y l]; simpl; [done|]. inv Hx. by rewrite H1.
Qed.
End sort.

(** ** Rationals: Python floats are modelled by the rationals they denote. *)
Definition Qltb (a b : Q) : bool := negb (Qle_bool b a).

Lemma Qltb_lt a b : Qltb a b = true ↔ (a < b)%Q.
Proof.
  unfold Qltb. rewrite negb_true_iff. split.
  - intros H. apply Qnot_le_lt. intros Hle. apply Qle_bool_iff in Hle. congruence.
  - intros H. destruct (Qle_bool b a) eqn:E; [|done].
    apply Qle_bool_iff in E. exfalso. by apply (Qlt_not_le _ _ H).
Qed.

Lemma Qltb_ge a b : Qltb a b = false ↔ (b <= a)%Q.
Proof.
  unfold Qltb. rewrite negb_false_iff. apply Qle_bool_iff.
Qed.

#[global] Instance Q_eq_dec : EqDecision Q.
Proof. solve_decision. Defined.
