(* ===== verification/PyStr.v ===== *)
(** * Python string operations

    The [str] methods the program uses ([strip], [splitlines], [split],
    [partition], [find], [rfind], [replace], [join], [startswith], [in],
    [len], slicing by [take]/[drop]) on lists of code points, decimal printing
    and parsing of integers, and the lemmas the components share. *)

From Stdlib Require Import NArith ZArith QArith Lia.
From S2P Require Import Prelude.
From stdpp Require Import options.

#[global] Open Scope nat_scope.
#[local] Open Scope py_scope.

Coercion u : String.string >-> list.

(** A literal whose back quotes stand for double quotes. *)
Definition bq (s : String.string) : pystr := map (λ c, if (c =? 96)%N then 34%N else c) (u s).

(** ** Characters *)

(** Code points for which [str.isspace] holds. *)
Definition is_space (c : N) : bool :=
  (((9 <=? c) && (c <=? 13)) || ((28 <=? c) && (c <=? 32)) || (c =? 133)
  || (c =? 160) || (c =? 5760) || ((8192 <=? c) && (c <=? 8202))
  || (c =? 8232) || (c =? 8233) || (c =? 8239) || (c =? 8287) || (c =? 12288))%N.

(** Line boundaries of [str.splitlines]. *)
Definition is_linebreak (c : N) : bool :=
  (((10 <=? c) && (c <=? 13)) || ((28 <=? c) && (c <=? 30)) || (c =? 133)
  || (c =? 8232) || (c =? 8233))%N.

Definition nl : N := 10.
Definition is_digit (c : N) : bool := (48 <=? c)%N && (c <=? 57)%N.
Definition is_lower (c : N) : bool := (97 <=? c)%N && (c <=? 122)%N.
Definition is_upper (c : N) : bool := (65 <=? c)%N && (c <=? 90)%N.
Definition is_letter (c : N) : bool := is_lower c || is_upper c.

(** The Unicode database is consulted only beyond ASCII; the development is
    parametric in it. *)
Class UnicodeDB := { wide_alnum : N → bool }.

(** One character of [str.isalnum], and of the regular expression [\w]. *)
Definition is_alnum `{UnicodeDB} (c : N) : bool :=
  is_digit c || is_letter c || ((128 <=? c)%N && wide_alnum c).
Definition is_word `{UnicodeDB} (c : N) : bool := is_alnum c || (c =? 95)%N.

(** [repr] of a string (which also consults the Unicode database) and of a
    float, used in diagnostics. *)
Class PyRepr := { str_repr : pystr → pystr; float_repr : Q → pystr }.

(** ** Stripping *)

Fixpoint lstrip (s : pystr) : pystr :=
  match s with
  | c :: s' => if is_space c then lstrip s' else s
  | [] => []
  end.

Definition rstrip (s : pystr) : pystr := reverse (lstrip (reverse s)).
Definition strip (s : pystr) : pystr := rstrip (lstrip s).

(** [s.rstrip("\n")] *)
Fixpoint lstrip_char (ch : N) (s : pystr) : pystr :=
  match s with
  | c :: s' => if (c =? ch)%N then lstrip_char ch s' else s
  | [] => []
  end.
Definition rstrip_char (ch : N) (s : pystr) : pystr := reverse (lstrip_char ch (reverse s)).

(** ** Prefixes and searching *)

Fixpoint startswith (p s : pystr) : bool :=
  match p, s with
  | [], _ => true
  | a :: p', b :: s' => (a =? b)%N && startswith p' s'
  | _ :: _, [] => false
  end.

Definition endswith (p s : pystr) : bool := startswith (reverse p) (reverse s).

(** [s.find(p)]: the least index, [None] for Python's -1. *)
Fixpoint find (p s : pystr) : option nat :=
  if startswith p s then Some 0
  else match s with [] => None | _ :: s' => S <$> find p s' end.

(** [s.rfind(p)]: the greatest index. *)
Fixpoint rfind (p s : pystr) : option nat :=
  match s with
  | [] => if startswith p [] then Some 0 else None
  | _ :: s' =>
      match rfind p s' with
      | Some i => Some (S i)
      | None => if startswith p s then Some 0 else None
      end
  end.

(** [p in s] *)
Definition contains (p s : pystr) : bool := match find p s with Some _ => true | None => false end.

(** ** Splitting and joining *)

Fixpoint join (sep : pystr) (l : list pystr) : pystr :=
  match l with
  | [] => []
  | [x] => x
  | x :: l' => x ++ sep ++ join sep l'
  end.

(** [s.split(c)] for a one-character separator. *)
Fixpoint split_char (c : N) (s : pystr) : list pystr :=
  match s with
  | [] => [[]]
  | d :: s' =>
      if (d =? c)%N then [] :: split_char c s'
      else match split_char c s' with
           | w :: ws => (d :: w) :: ws
           | [] => [[d]]
           end
  end.

(** [s.split(c, 1)]: two pieces when [c] occurs. *)
Definition split_once (c : N) (s : pystr) : option (pystr * pystr) :=
  match find [c] s with
  | Some i => Some (take i s, drop (S i) s)
  | None => None
  end.

(** [s.rsplit(c, 1)[-1]]: what follows the last occurrence of [c]. *)
Definition rsplit_last (c : N) (s : pystr) : pystr :=
  match rfind [c] s with Some i => drop (S i) s | None => s end.

(** [s.partition(sep)] for a one-character separator. *)
Definition partition_char (c : N) (s : pystr) : pystr * pystr * pystr :=
  match find [c] s with
  | Some i => (take i s, [c], drop (S i) s)
  | None => (s, [], [])
  end.

(** [s.splitlines()]: [\r\n] is one boundary, and no empty last line. *)
Fixpoint splitlines_go (cur : pystr) (pending_cr : bool) (s : pystr) : list pystr :=
  match s with
  | [] => match cur with [] => [] | _ => [reverse cur] end
  | c :: s' =>
      if pending_cr && (c =? 10)%N then splitlines_go cur false s'
      else if is_linebreak c then reverse cur :: splitlines_go [] (c =? 13)%N s'
      else splitlines_go (c :: cur) false s'
  end.
Definition splitlines (s : pystr) : list pystr := splitlines_go [] false s.

(** [path.read_text()]: strict UTF-8, newlines translated *)
Fixpoint universal_newlines (s : pystr) : pystr :=
  match s with
  | [] => []
  | c :: s' =>
      if (c =? 13)%N then match s' with 10%N :: _ => universal_newlines s' | _ => 10%N :: universal_newlines s' end
      else c :: universal_newlines s'
  end.

(** [s.replace(a, b)] for a one-character [a]. *)
Definition replace_char (a : N) (b : pystr) (s : pystr) : pystr :=
  concat (map (λ c, if (c =? a)%N then b else [c]) s).

(** ** Integers *)

Fixpoint dec_digits (fuel : nat) (n : N) (acc : pystr) : pystr :=
  match fuel with
  | O => acc
  | S f =>
      let acc' := (48 + n mod 10)%N :: acc in
      if (n <? 10)%N then acc' else dec_digits f (n / 10)%N acc'
  end.

(** [str(n)] for an [int]. *)
Definition str_of_N (n : N) : pystr := dec_digits (S (N.to_nat (N.log2 n))) n [].
Definition str_of_Z (z : Z) : pystr :=
  match z with
  | Zneg p => 45%N :: str_of_N (Npos p)
  | _ => str_of_N (Z.to_N z)
  end.

Definition digits_to_N (s : pystr) : N := fold_left (λ a c, a * 10 + (c - 48))%N s 0%N.

(** [int(s)] on ASCII text: surrounding white space, an optional sign and
    decimal digits (Python also accepts single underscores between digits and
    other scripts' digits, which none of the program's callers produces). *)
Definition int_of_str (s : pystr) : option Z :=
  let t := strip s in
  let '(neg, ds) := match t with
    | 45%N :: r => (true, r)
    | 43%N :: r => (false, r)
    | r => (false, r)
    end in
  match ds with
  | [] => None
  | _ => if forallb is_digit ds
         then Some (let n := Z.of_N (digits_to_N ds) in if neg then Z.opp n else n)
         else None
  end.

(** ** Order: [<=] on [str] compares code points lexicographically. *)
Fixpoint str_leb (a b : pystr) : bool :=
  match a, b with
  | [], _ => true
  | _ :: _, [] => false
  | x :: a', y :: b' => (x <? y)%N || ((x =? y)%N && str_leb a' b')
  end.

(** [str.upper] on ASCII letters. *)
Definition upper_ascii (s : pystr) : pystr :=
  map (λ c, if is_lower c then (c - 32)%N else c) s.
(** [str.lower], likewise *)
Definition lower_ascii (s : pystr) : pystr := map (λ c, if is_upper c then (c + 32)%N else c) s.

(** ** Lemmas *)

Lemma startswith_prefix p s : startswith p s = true ↔ p `prefix_of` s.
Proof.
  revert s. induction p as [|a p IH]; intros [|b s]; simpl.
  - split; [intros _; by exists [] | done].
  - split; [intros _; by exists (b :: s) | done].
  - split; [done|]. intros [k Hk]. discriminate.
  - rewrite andb_true_iff, N.eqb_eq, IH. split.
    + intros [-> H]. by apply prefix_cons.
    + intros H. split; [by eapply prefix_cons_inv_1 | by eapply prefix_cons_inv_2].
Qed.

Lemma startswith_app p s : startswith p (p ++ s) = true.
Proof. apply startswith_prefix. by exists s. Qed.

Lemma startswith_refl p : startswith p p = true.
Proof. by apply startswith_prefix. Qed.

Lemma find_Some p s i :
  find p s = Some i → take i s ++ p ++ drop (i + length p) s = s.
Proof.
  revert i. induction s as [|c s IH]; intros i; simpl.
  - destruct (startswith p []) eqn:E; [|done]. intros [= <-].
    apply startswith_prefix, prefix_nil_inv in E. by subst.
  - destruct (startswith p (c :: s)) eqn:E.
    + intros [= <-]. apply startswith_prefix in E as [k ->]. simpl.
      by rewrite drop_app_length.
    + destruct (find p s) as [j|] eqn:Ej; simpl; [|done]. intros [= <-]. simpl.
      by rewrite IH.
Qed.

Lemma find_char_split c s i :
  find [c] s = Some i → s = take i s ++ c :: drop (S i) s.
Proof.
  intros H. apply find_Some in H as Hs. simpl in Hs.
  rewrite Nat.add_1_r in Hs. by rewrite Hs.
Qed.

Lemma find_char_None c s : find [c] s = None ↔ c ∉ s.
Proof.
  induction s as [|d s IH]; simpl; [split; [intros _ H; inv H | done]|].
  rewrite andb_true_r. destruct (N.eqb_spec c d) as [->|Hne].
  - split; [done|]. intros []. left.
  - rewrite not_elem_of_cons, <- IH.
    destruct (find [c] s); simpl.
    + split; [done | by intros [_ ?]].
    + split; [auto | done].
Qed.

Lemma find_0 p s : startswith p s = true → find p s = Some 0.
Proof. intros H. destruct s; simpl; by rewrite H. Qed.

Lemma contains_true p s : contains p s = true ↔ ∃ a b, s = a ++ p ++ b.
Proof.
  unfold contains. split.
  - destruct (find p s) as [i|] eqn:E; [|done]. intros _.
    apply find_Some in E. eauto.
  - intros (a & b & ->). induction a as [|c a IH]; simpl.
    + by rewrite find_0 by apply startswith_app.
    + destruct (startswith p _); [done|]. by destruct (find p (a ++ p ++ b)).
Qed.

Lemma split_char_nonempty c s : split_char c s ≠ [].
Proof.
  destruct s as [|d s]; simpl; [done|]. destruct (d =? c)%N; [done|].
  by destruct (split_char c s).
Qed.

(** Splitting and joining on the same character are inverse. *)
Lemma join_split_char c s : join [c] (split_char c s) = s.
Proof.
  induction s as [|d s IH]; simpl; [done|].
  destruct (N.eqb_spec d c) as [->|Hne]; simpl.
  - destruct (split_char c s) eqn:E; [by apply split_char_nonempty in E|].
    simpl in *. by rewrite IH.
  - destruct (split_char c s) as [|w ws] eqn:E; [by apply split_char_nonempty in E|].
    simpl in *. destruct ws; simpl in *; by rewrite <- IH.
Qed.

Lemma split_char_one c s : c ∉ s → split_char c s = [s].
Proof.
  induction s as [|d s IH]; simpl; [done|]. intros [Hne Hs]%not_elem_of_cons.
  destruct (N.eqb_spec d c) as [->|_]; [done|]. by rewrite IH.
Qed.
Lemma split_char_app c a b : c ∉ a → split_char c (a ++ c :: b) = a :: split_char c b.
Proof.
  induction a as [|d a IH]; intros Hc; cbn [app split_char]; [by rewrite N.eqb_refl|].
  destruct (N.eqb_spec d c) as [->|]; [set_solver|]. rewrite IH by set_solver. done.
Qed.
Lemma split_char_no_sep c s w : w ∈ split_char c s → c ∉ w.
Proof.
  revert w. induction s as [|d s IH]; simpl; intros w.
  - intros ->%list_elem_of_singleton H. inv H.
  - destruct (N.eqb_spec d c) as [->|Hne].
    + intros [->|H]%elem_of_cons; [intros H; inv H | eauto].
    + destruct (split_char c s) as [|w' ws] eqn:E.
      { intros ->%list_elem_of_singleton. set_solver. }
      intros [->|H]%elem_of_cons.
      * intros [|Hin]%elem_of_cons; [congruence|]. eapply (IH w'); [left|done].
      * apply (IH w). by right.
Qed.

Lemma lstrip_suffix s : ∃ k, s = k ++ lstrip s ∧ Forall (λ c, is_space c = true) k.
Proof.
  induction s as [|c s (k & Hk & Hs)]; simpl; [by exists []|].
  destruct (is_space c) eqn:E; [|by exists []].
  exists (c :: k). simpl. rewrite <- Hk. auto.
Qed.

Lemma lstrip_sub s c : c ∈ lstrip s → c ∈ s.
Proof. destruct (lstrip_suffix s) as (k & Hk & _). intros Hc. rewrite Hk. apply elem_of_app. by right. Qed.
Lemma rstrip_sub s c : c ∈ rstrip s → c ∈ s.
Proof. unfold rstrip. rewrite elem_of_reverse. intros Hc%lstrip_sub. by apply elem_of_reverse. Qed.

Lemma str_leb_refl a : str_leb a a = true.
Proof. induction a as [|x a IH]; simpl; [done|]. by rewrite N.eqb_refl, IH, orb_true_r. Qed.

Lemma str_leb_total a b : str_leb a b = true ∨ str_leb b a = true.
Proof.
  revert b. induction a as [|x a IH]; intros [|y b]; simpl; auto.
  destruct (N.lt_trichotomy x y) as [H|[->|H]].
  - left. by rewrite (proj2 (N.ltb_lt _ _) H).
  - rewrite N.eqb_refl. destruct (IH b) as [H|H]; rewrite H; [left|right]; by rewrite orb_true_r.
  - right. by rewrite (proj2 (N.ltb_lt _ _) H).
Qed.

Lemma str_leb_trans a b c : str_leb a b = true → str_leb b c = true → str_leb a c = true.
Proof.
  revert b c. induction a as [|x a IH]; intros [|y b] [|z c]; simpl; try done.
  rewrite !orb_true_iff, !andb_true_iff, !N.ltb_lt, !N.eqb_eq.
  intros [H1|[-> H1]] [H2|[-> H2]]; auto.
  - left. by etrans.
  - right. eauto.
Qed.

Lemma str_leb_antisym a b : str_leb a b = true → str_leb b a = true → a = b.
Proof.
  revert b. induction a as [|x a IH]; intros [|y b]; simpl; try done.
  rewrite !orb_true_iff, !andb_true_iff, !N.ltb_lt, !N.eqb_eq.
  intros [H1|[-> H1]] [H2|[H2 H3]]; try lia. f_equal. auto.
Qed.

Lemma universal_newlines_id t : 13%N ∉ t → universal_newlines t = t.
Proof.
  induction t as [|c t IH]; [done|]. intros Hn. cbn [universal_newlines].
  destruct (c =? 13)%N eqn:E; [apply N.eqb_eq in E; set_solver|]. rewrite IH; set_solver.
Qed.

#[export] Hint Resolve str_leb_refl str_leb_total str_leb_trans startswith_refl startswith_app : py.

Example splitlines_ex : splitlines (u "a" ++ [13; 10; 10]%N ++ u "b") = [u "a"; []; u "b"].
Proof. reflexivity. Qed.
Example str_of_Z_ex : str_of_Z (-1203) = u "-1203".
Proof. reflexivity. Qed.
Example int_of_str_ex : int_of_str " -12 " = Some (-12)%Z.
Proof. reflexivity. Qed.

(** ** Lines *)

Definition one_line (s : pystr) : bool := forallb (λ c, negb (is_linebreak c)) s.
Definition entry_lines (entries : list pystr) : pystr := concat (map (λ e, e ++ [nl]) entries).

Lemma one_line_app s t : one_line (s ++ t) = one_line s && one_line t.
Proof. apply forallb_app. Qed.
Lemma one_line_sub s t : (∀ c, c ∈ s → c ∈ t) → one_line t = true → one_line s = true.
Proof.
  intros Hsub. unfold one_line. rewrite !forallb_forall. intros Ht c Hc.
  apply Ht, list_elem_of_In, Hsub. by apply list_elem_of_In.
Qed.
Lemma splitlines_one_line s : Forall (λ l, one_line l = true) (splitlines s).
Proof.
  unfold splitlines. assert (∀ cur b, one_line cur = true → Forall (λ l, one_line l = true) (splitlines_go cur b s)) as Hgo;
    [|by apply Hgo].
  induction s as [|c s IH]; intros cur b Hcur; cbn [splitlines_go].
  - destruct cur; constructor; [|done]. eapply one_line_sub; [|exact Hcur]. intros x. by rewrite elem_of_reverse.
  - destruct (_ && _); [by apply IH|]. destruct (is_linebreak c) eqn:E.
    + constructor; [|by apply IH]. eapply one_line_sub; [|exact Hcur]. intros x. by rewrite elem_of_reverse.
    + apply IH. unfold one_line in *. cbn [forallb]. by rewrite E.
Qed.

Lemma splitlines_go_line e cur t :
  one_line e = true → splitlines_go cur false (e ++ nl :: t) = (reverse cur ++ e) :: splitlines t.
Proof.
  revert cur. induction e as [|c e IH]; intros cur He; cbn [app splitlines_go].
  - by rewrite app_nil_r.
  - unfold one_line in He. cbn [forallb] in He. apply andb_true_iff in He as [Hc He]. apply negb_true_iff in Hc as ->.
    cbn [andb]. rewrite IH by done. by rewrite reverse_cons, <- app_assoc.
Qed.

Lemma splitlines_entries es t :
  Forall (λ e, one_line e = true) es → splitlines (entry_lines es ++ t) = es ++ splitlines t.
Proof.
  induction 1 as [|e es He _ IH]; [done|]. unfold entry_lines in *. cbn [map concat]. rewrite <- !app_assoc. cbn [app].
  unfold splitlines at 1. rewrite splitlines_go_line by done. cbn [reverse app]. f_equal. exact IH.
Qed.

Lemma join_entry_lines l : l ≠ [] → join [nl] l ++ [nl] = entry_lines l.
Proof.
  intros Hl. unfold entry_lines. destruct l as [|w l]; [done|]. clear Hl. revert w. induction l as [|w2 l IH]; intros w; [by cbn; rewrite app_nil_r|].
  change (join [nl] (w :: w2 :: l)) with (w ++ [nl] ++ join [nl] (w2 :: l)). rewrite <- !app_assoc, IH. cbn [map concat]. by rewrite <- !app_assoc.
Qed.
Lemma strip_ends s a r b l :
  s = a :: r → s = l ++ [b] → is_space a = false → is_space b = false → strip s = s.
Proof.
  intros E1 E2 Ha Hb. unfold strip, rstrip.
  assert (lstrip s = s) as -> by (rewrite E1; simpl; by rewrite Ha).
  rewrite E2. rewrite reverse_app. simpl. rewrite Hb. simpl.
  change (b :: reverse l) with (reverse [b] ++ reverse l). by rewrite <- reverse_app, reverse_involutive.
Qed.
