(* ===== verification/PyJson.v ===== *)
(** * Dynamic values: JSON, dictionaries, truth values

    The values the program passes around as [dict]/[list]/[str]/...: the type
    [json], the dictionary operations on insertion-ordered association lists
    ([d.get(k)], [d[k] = v], [del]), Python's truth value, [json.loads] as an
    executable parser and [json.dumps] with its separators. *)

From Stdlib Require Import NArith ZArith QArith Lia.
From S2P Require Import Prelude PyStr.
From stdpp Require Import options.
#[global] Open Scope nat_scope.
#[local] Open Scope py_scope.

(** A float is the rational its literal denotes; [NaN] and the infinities keep
    their spelling. *)
Inductive json :=
  | JNull
  | JBool (b : bool)
  | JInt (z : Z)
  | JFloat (q : Q)
  | JNonFinite (name : pystr)
  | JStr (s : pystr)
  | JList (l : list json)
  | JObj (d : list (pystr * json)).

Abbreviation dict := (list (pystr * json)).

(** ** Dictionaries *)

(** [d.get(k)]; [None] when the key is absent. *)
Fixpoint dget {V} (k : pystr) (d : list (pystr * V)) : option V :=
  match d with
  | [] => None
  | (k', v) :: d' => if k =? k' then Some v else dget k d'
  end.

(** [d[k] = v]: a key already present keeps its position. *)
Fixpoint dset {V} (k : pystr) (v : V) (d : list (pystr * V)) : list (pystr * V) :=
  match d with
  | [] => [(k, v)]
  | (k', v') :: d' => if k =? k' then (k', v) :: d' else (k', v') :: dset k v d'
  end.

Definition ddel {V} (k : pystr) (d : list (pystr * V)) : list (pystr * V) :=
  List.filter (λ kv, k <>? kv.1) d.

Definition dict_of_pairs {V} (l : list (pystr * V)) : list (pystr * V) :=
  fold_left (λ d kv, dset kv.1 kv.2 d) l [].

Definition dkeys {V} (d : list (pystr * V)) : list pystr := map fst d.

(** [d.get(k)] on a value already known to be a dictionary, [None] as JSON
    null. *)
Definition jget (k : pystr) (d : dict) : json := default JNull (dget k d).
(** [d.get(k, dflt)] *)
Definition jget_or (k : pystr) (dflt : json) (d : dict) : json := default dflt (dget k d).

(** ** Truth values and tests *)

Definition truthy (v : json) : bool :=
  match v with
  | JNull => false
  | JBool b => b
  | JInt z => negb (z =? 0)%Z
  | JFloat q => negb (Qeq_bool q 0)
  | JNonFinite _ => true
  | JStr s => s <>? []
  | JList l => match l with [] => false | _ => true end
  | JObj d => match d with [] => false | _ => true end
  end.

(** [v == "..."] *)
Definition jeqs (v : json) (s : pystr) : bool :=
  match v with JStr t => t =? s | _ => false end.

(** [v or w] *)
Definition jor (v w : json) : json := if truthy v then v else w.

Definition as_str (v : json) : option pystr := match v with JStr s => Some s | _ => None end.
Definition as_dict (v : json) : option dict := match v with JObj d => Some d | _ => None end.
Definition as_list (v : json) : option (list json) := match v with JList l => Some l | _ => None end.
(** [(v or {}).get(...)]-style access: the dictionary a falsy value defaults to. *)
Definition dict_or_empty (v : json) : dict := match v with JObj d => d | _ => [] end.
Definition list_or_empty (v : json) : list json := match v with JList l => l | _ => [] end.

(** ** [json.loads] *)
Module Loads.
Inductive pres (A : Type) := POk (a : A) (rest : pystr) | PErr | PFuel.
Arguments POk {A}. Arguments PErr {A}. Arguments PFuel {A}.

Definition is_ws (c : N) : bool := ((c =? 32) || (c =? 9) || (c =? 10) || (c =? 13))%N.
Fixpoint skip_ws (s : pystr) : pystr :=
  match s with c :: s' => if is_ws c then skip_ws s' else s | [] => [] end.

(** The next character, when it is [c]. *)
Definition eat (c : N) (s : pystr) : option pystr :=
  match s with d :: r => if (d =? c)%N then Some r else None | [] => None end.

Definition hex_val (c : N) : option N :=
  if is_digit c then Some (c - 48)%N
  else if ((97 <=? c) && (c <=? 102))%N then Some (c - 87)%N
  else if ((65 <=? c) && (c <=? 70))%N then Some (c - 55)%N
  else None.

Definition hex4 (s : pystr) : option (N * pystr) :=
  match s with
  | a :: b :: c :: d :: s' =>
      match hex_val a, hex_val b, hex_val c, hex_val d with
      | Some a, Some b, Some c, Some d => Some ((((a * 16 + b) * 16 + c) * 16 + d)%N, s')
      | _, _, _, _ => None
      end
  | _ => None
  end.

Definition simple_escape (c : N) : option N :=
  if (c =? 34)%N then Some 34%N else if (c =? 92)%N then Some 92%N
  else if (c =? 47)%N then Some 47%N else if (c =? 98)%N then Some 8%N
  else if (c =? 102)%N then Some 12%N else if (c =? 110)%N then Some 10%N
  else if (c =? 114)%N then Some 13%N else if (c =? 116)%N then Some 9%N
  else None.

(** A [\u] escape after its [u]; a high surrogate takes the low one that
    follows it. *)
Definition unicode_escape (s : pystr) : option (N * pystr) :=
  match hex4 s with
  | None => None
  | Some (hi, s1) =>
      if ((55296 <=? hi) && (hi <=? 56319))%N then
        match eat 92 s1 ≫= eat 117 with
        | Some s2 =>
            match hex4 s2 with
            | Some (lo, s3) =>
                if ((56320 <=? lo) && (lo <=? 57343))%N
                then Some ((65536 + (hi - 55296) * 1024 + (lo - 56320))%N, s3)
                else Some (hi, s1)
            | None => Some (hi, s1)
            end
        | None => Some (hi, s1)
        end
      else Some (hi, s1)
  end.

(** The characters after an opening quote. *)
Fixpoint str_body (fuel : nat) (acc s : pystr) : pres pystr :=
  match fuel with
  | O => PFuel
  | S f =>
      match s with
      | [] => PErr
      | c :: s' =>
          if (c =? 34)%N then POk (reverse acc) s'
          else if (c =? 92)%N then
            match s' with
            | [] => PErr
            | e :: s'' =>
                if (e =? 117)%N then
                  match unicode_escape s'' with
                  | Some (n, rest) => str_body f (n :: acc) rest
                  | None => PErr
                  end
                else match simple_escape e with
                     | Some n => str_body f (n :: acc) s''
                     | None => PErr
                     end
            end
          else if (c <? 32)%N then PErr
          else str_body f (c :: acc) s'
      end
  end.

Fixpoint span_digits (s : pystr) : pystr * pystr :=
  match s with
  | c :: s' => if is_digit c then let '(d, r) := span_digits s' in (c :: d, r) else ([], s)
  | [] => ([], [])
  end.

(** [mantissa * 10^exp] *)
Definition decimal (m : Z) (e : Z) : Q :=
  Qred (if (0 <=? e)%Z then inject_Z (m * 10 ^ e) else Qmake m (Z.to_pos (10 ^ (- e)))).

(** An optional sign. *)
Definition sign (plus : bool) (s : pystr) : Z * pystr :=
  match eat 45 s with
  | Some r => ((-1)%Z, r)
  | None => match eat 43 s with
            | Some r => (1%Z, if plus then r else s)
            | None => (1%Z, s)
            end
  end.

Definition int_part (s : pystr) : pystr * pystr :=
  match eat 48 s with Some r => ([48%N], r) | None => span_digits s end.

(** [(\.\d+)?]: nothing is read unless a digit follows the point. *)
Definition frac_part (s : pystr) : pystr * pystr :=
  match eat 46 s with
  | Some r => match span_digits r with ([], _) => ([], s) | p => p end
  | None => ([], s)
  end.

(** [([eE][-+]?\d+)?] *)
Definition exp_part (s : pystr) : option Z * pystr :=
  match (match eat 101 s with Some r => Some r | None => eat 69 s end) with
  | Some r =>
      let '(sg, r1) := sign true r in
      match span_digits r1 with
      | ([], _) => (None, s)
      | (d, r2) => (Some (sg * Z.of_N (digits_to_N d))%Z, r2)
      end
  | None => (None, s)
  end.

(** A number: integer part, optional fraction, optional exponent. *)
Definition number (s : pystr) : option (json * pystr) :=
  let '(sg, s1) := sign false s in
  let '(ip, s2) := int_part s1 in
  match ip with
  | [] => None
  | _ =>
      let '(fp, s3) := frac_part s2 in
      let '(ex, s4) := exp_part s3 in
      match fp, ex with
      | [], None => Some (JInt (sg * Z.of_N (digits_to_N ip))%Z, s4)
      | _, _ => Some (JFloat (decimal (sg * Z.of_N (digits_to_N (ip ++ fp)))
                        (default 0%Z ex - Z.of_nat (length fp))), s4)
      end
  end.

Definition literals : list (pystr * json) :=
  [(u "null", JNull); (u "true", JBool true); (u "false", JBool false);
   (u "NaN", JNonFinite "NaN"); (u "Infinity", JNonFinite "Infinity");
   (u "-Infinity", JNonFinite "-Infinity")].

Fixpoint literal (ls : list (pystr * json)) (s : pystr) : option (json * pystr) :=
  match ls with
  | [] => None
  | (w, v) :: ls' => if startswith w s then Some (v, drop (length w) s) else literal ls' s
  end.

(** [scan_once], and its loops over the members of an object and the
    elements of an array. *)
Fixpoint value (fuel : nat) (s : pystr) {struct fuel} : pres json :=
  match fuel with
  | O => PFuel
  | S f =>
      match eat 34 s with
      | Some s' =>
          match str_body (S (length s')) [] s' with
          | POk t r => POk (JStr t) r | PErr => PErr | PFuel => PFuel end
      | None =>
      match eat 123 s with
      | Some s' =>
          match eat 125 (skip_ws s') with
          | Some r => POk (JObj []) r
          | None => members f [] (skip_ws s')
          end
      | None =>
      match eat 91 s with
      | Some s' =>
          match eat 93 (skip_ws s') with
          | Some r => POk (JList []) r
          | None => elements f [] (skip_ws s')
          end
      | None =>
          match literal literals s with
          | Some (v, r) => POk v r
          | None => match number s with Some (v, r) => POk v r | None => PErr end
          end
      end end end
  end
with members (fuel : nat) (acc : dict) (s : pystr) {struct fuel} : pres json :=
  match fuel with
  | O => PFuel
  | S f =>
      match eat 34 s with
      | Some s' =>
          match str_body (S (length s')) [] s' with
          | POk k r =>
              match eat 58 (skip_ws r) with
              | Some r1 =>
                  match value f (skip_ws r1) with
                  | POk v r2 =>
                      match eat 44 (skip_ws r2) with
                      | Some r3 => members f (dset k v acc) (skip_ws r3)
                      | None =>
                          match eat 125 (skip_ws r2) with
                          | Some r3 => POk (JObj (dset k v acc)) r3
                          | None => PErr
                          end
                      end
                  | PErr => PErr | PFuel => PFuel
                  end
              | None => PErr
              end
          | PErr => PErr | PFuel => PFuel
          end
      | None => PErr
      end
  end
with elements (fuel : nat) (acc : list json) (s : pystr) {struct fuel} : pres json :=
  match fuel with
  | O => PFuel
  | S f =>
      match value f s with
      | POk v r =>
          match eat 44 (skip_ws r) with
          | Some r1 => elements f (acc ++ [v]) (skip_ws r1)
          | None =>
              match eat 93 (skip_ws r) with
              | Some r1 => POk (JList (acc ++ [v])) r1
              | None => PErr
              end
          end
      | PErr => PErr | PFuel => PFuel
      end
  end.

Definition run (s : pystr) : pres json :=
  match value (S (2 * length s)) (skip_ws s) with
  | POk v r => match skip_ws r with [] => POk v [] | _ => PErr end
  | r => r
  end.
End Loads.

(** [json.loads(s)]; [None] is [json.JSONDecodeError]. *)
Definition loads (s : pystr) : option json :=
  match Loads.run s with Loads.POk v _ => Some v | _ => None end.

(** ** [json.dumps] with [ensure_ascii] *)
Section dumps.
(** [float.__repr__], the shortest decimal that rounds to the float. *)
Context (float_repr : Q → pystr).
Context (item_sep key_sep : pystr).

Definition hex_digit (n : N) : N := if (n <? 10)%N then (48 + n)%N else (87 + n)%N.
Definition hex4_of (n : N) : pystr :=
  [hex_digit (n / 4096 mod 16); hex_digit (n / 256 mod 16);
   hex_digit (n / 16 mod 16); hex_digit (n mod 16)]%N.

Definition escape_char (c : N) : pystr :=
  if (c =? 34)%N then [92; 34]%N else if (c =? 92)%N then [92; 92]%N
  else if (c =? 10)%N then [92; 110]%N else if (c =? 13)%N then [92; 114]%N
  else if (c =? 9)%N then [92; 116]%N else if (c =? 12)%N then [92; 102]%N
  else if (c =? 8)%N then [92; 98]%N
  else if ((32 <=? c) && (c <=? 126))%N then [c]
  else if (c <? 65536)%N then [92; 117]%N ++ hex4_of c
  else let n := (c - 65536)%N in
       [92; 117]%N ++ hex4_of (55296 + n / 1024)%N ++ [92; 117]%N ++ hex4_of (56320 + n mod 1024)%N.

Definition dump_str (s : pystr) : pystr := [34%N] ++ concat (map escape_char s) ++ [34%N].

Fixpoint dumps (v : json) : pystr :=
  match v with
  | JNull => "null"
  | JBool true => "true"
  | JBool false => "false"
  | JInt z => str_of_Z z
  | JFloat q => float_repr q
  | JNonFinite s => s
  | JStr s => dump_str s
  | JList l => [91%N] ++ join item_sep (map dumps l) ++ [93%N]
  | JObj d => [123%N] ++ join item_sep (map (λ kv, dump_str kv.1 ++ key_sep ++ dumps kv.2) d) ++ [125%N]
  end.
End dumps.

(** ** Dictionary lemmas *)
Section dict_lemmas.
Context {V : Type}.
Implicit Types (d : list (pystr * V)) (k : pystr) (v : V).

Lemma dget_dset_eq k v d : dget k (dset k v d) = Some v.
Proof.
  induction d as [|[k' v'] d IH]; simpl; [by rewrite bool_decide_eq_true_2|].
  destruct (decide (k = k')) as [<-|Hne].
  - rewrite bool_decide_eq_true_2 by done. simpl. by rewrite bool_decide_eq_true_2.
  - rewrite bool_decide_eq_false_2 by done. simpl. by rewrite bool_decide_eq_false_2.
Qed.

Lemma dget_dset_ne k k' v d : k ≠ k' → dget k (dset k' v d) = dget k d.
Proof.
  intros Hne. induction d as [|[k2 v2] d IH]; simpl; [by rewrite bool_decide_eq_false_2|].
  destruct (decide (k' = k2)) as [<-|Hne2].
  - rewrite (bool_decide_eq_true_2 (k' = k')) by done. simpl. by rewrite !bool_decide_eq_false_2.
  - rewrite (bool_decide_eq_false_2 (k' = k2)) by done. simpl. by rewrite IH.
Qed.

Lemma dget_dset k k' v d :
  dget k (dset k' v d) = if k =? k' then Some v else dget k d.
Proof.
  case_bool_decide as E; [subst; apply dget_dset_eq | by apply dget_dset_ne].
Qed.

Lemma dget_None k d : dget k d = None ↔ k ∉ dkeys d.
Proof.
  induction d as [|[k' v] d IH]; simpl; [set_solver|].
  case_bool_decide; set_solver.
Qed.

Lemma dget_elem k v d : dget k d = Some v → (k, v) ∈ d.
Proof.
  induction d as [|[k' v'] d IH]; simpl; [done|].
  case_bool_decide; intros; simplify_eq; [left | right; auto].
Qed.

Lemma dget_NoDup k v d : NoDup (dkeys d) → (k, v) ∈ d → dget k d = Some v.
Proof.
  induction d as [|[k' v'] d IH]; simpl; intros Hnd Hin; [by inv Hin|].
  apply NoDup_cons in Hnd as [Hk Hnd].
  apply elem_of_cons in Hin as [[= -> ->]|Hin]; [by rewrite bool_decide_eq_true_2|].
  rewrite bool_decide_eq_false_2; [auto|]. intros ->. apply Hk.
  apply list_elem_of_fmap. by exists (k', v).
Qed.

Lemma dkeys_dset k v d : k ∈ dkeys d → dkeys (dset k v d) = dkeys d.
Proof.
  induction d as [|[k' v'] d IH]; simpl; [intros H; inv H|].
  case_bool_decide as E; simpl; [done|]. intros [|Hin]%elem_of_cons; [done|]. by rewrite IH.
Qed.

Lemma dkeys_dset_new k v d : k ∉ dkeys d → dkeys (dset k v d) = dkeys d ++ [k].
Proof.
  induction d as [|[k' v'] d IH]; simpl; [done|]. intros [Hne Hin]%not_elem_of_cons.
  rewrite bool_decide_eq_false_2 by done. simpl. by rewrite IH.
Qed.

Lemma dset_NoDup k v d : NoDup (dkeys d) → NoDup (dkeys (dset k v d)).
Proof.
  intros Hnd. destruct (decide (k ∈ dkeys d)); [by rewrite dkeys_dset|].
  rewrite dkeys_dset_new by done. apply NoDup_app. split; [done|]. split; [set_solver|].
  apply NoDup_singleton.
Qed.

Lemma dget_ddel_eq k d : dget k (ddel k d) = None.
Proof.
  apply dget_None. unfold ddel, dkeys. intros (kv & -> & Hin)%list_elem_of_fmap.
  apply list_elem_of_In, filter_In in Hin as [_ Hf]. py_bool. done.
Qed.

Lemma dget_ddel_ne k k' d : k ≠ k' → dget k (ddel k' d) = dget k d.
Proof.
  intros Hne. induction d as [|[k2 v2] d IH]; simpl; [done|].
  destruct (decide (k' = k2)) as [<-|H2].
  - rewrite (bool_decide_eq_true_2 (k' = k')) by done. simpl.
    rewrite (bool_decide_eq_false_2 (k = k')) by done. done.
  - rewrite (bool_decide_eq_false_2 (k' = k2)) by done. simpl. by rewrite IH.
Qed.
End dict_lemmas.

#[export] Hint Rewrite @dget_dset_eq : py.

(** ** The parser terminates *)
Module LoadsFacts.
Import Loads.

Lemma eat_length c s r : eat c s = Some r → S (length r) = length s.
Proof. destruct s as [|d s]; simpl; [done|]. case_match; intros; by simplify_eq. Qed.

Lemma skip_ws_length s : length (skip_ws s) <= length s.
Proof. induction s as [|c s IH]; simpl; [lia|]. case_match; simpl; lia. Qed.

Lemma hex4_length s n r : hex4 s = Some (n, r) → length r <= length s.
Proof.
  destruct s as [|a [|b [|c [|d s]]]]; simpl; try done.
  repeat case_match; intros; simplify_eq; lia.
Qed.

Lemma unicode_escape_length s n r : unicode_escape s = Some (n, r) → length r <= length s.
Proof.
  unfold unicode_escape. destruct (hex4 s) as [[hi s1]|] eqn:E1; [|done].
  apply hex4_length in E1.
  case_match; [|by intros [= <- <-]].
  destruct (eat 92 s1 ≫= eat 117) as [s2|] eqn:E2; [|by intros [= <- <-]].
  apply bind_Some in E2 as (s1' & H1%eat_length & H2%eat_length).
  destruct (hex4 s2) as [[lo s3]|] eqn:E3; [|by intros [= <- <-]].
  apply hex4_length in E3. case_match; intros [= <- <-]; lia.
Qed.

Lemma str_body_ok fuel acc s :
  length s < fuel →
  match str_body fuel acc s with POk _ r => length r < length s | PErr => True | PFuel => False end.
Proof.
  revert acc s. induction fuel as [|f IH]; intros acc s Hf; [lia|]. simpl.
  destruct s as [|c s]; [done|]. simpl in Hf.
  destruct (c =? 34)%N; [simpl; lia|]. destruct (c =? 92)%N.
  - destruct s as [|e s]; [done|]. simpl in Hf. destruct (e =? 117)%N.
    + destruct (unicode_escape s) as [[n r]|] eqn:E; [|done].
      apply unicode_escape_length in E. specialize (IH (n :: acc) r ltac:(lia)).
      destruct (str_body f _ r); simpl in *; lia.
    + destruct (simple_escape e) as [n|]; [|done]. specialize (IH (n :: acc) s ltac:(lia)).
      destruct (str_body f _ s); simpl in *; lia.
  - destruct (c <? 32)%N; [done|]. specialize (IH (c :: acc) s ltac:(lia)).
    destruct (str_body f _ s); simpl in *; lia.
Qed.

Lemma span_digits_length s : length (span_digits s).2 <= length s.
Proof.
  induction s as [|c s IH]; simpl; [lia|]. destruct (is_digit c); [|simpl; lia].
  destruct (span_digits s); simpl in *; lia.
Qed.

Lemma span_digits_pair s d r : span_digits s = (d, r) → length r <= length s.
Proof. intros E. pose proof (span_digits_length s). by rewrite E in *. Qed.

Lemma sign_length plus s z r : sign plus s = (z, r) → length r <= length s.
Proof.
  unfold sign. destruct (eat 45 s) eqn:E1; [apply eat_length in E1; intros [= <- <-]; lia|].
  destruct (eat 43 s) eqn:E2; [apply eat_length in E2|]; intros [= <- <-]; [|lia].
  destruct plus; lia.
Qed.

Lemma int_part_length s d r : int_part s = (d, r) → length r <= length s.
Proof.
  unfold int_part. destruct (eat 48 s) eqn:E; [|apply span_digits_pair].
  apply eat_length in E. intros [= <- <-]. lia.
Qed.

Lemma frac_part_length s d r : frac_part s = (d, r) → length r <= length s.
Proof.
  unfold frac_part. destruct (eat 46 s) as [s'|] eqn:E; [|by intros [= <- <-]].
  apply eat_length in E. destruct (span_digits s') as [[|x l] r'] eqn:E2; intros [= <- <-]; [lia|].
  apply span_digits_pair in E2. lia.
Qed.

Lemma exp_part_length s d r : exp_part s = (d, r) → length r <= length s.
Proof.
  unfold exp_part.
  destruct (match eat 101 s with Some r => Some r | None => eat 69 s end) as [s'|] eqn:E;
    [|by intros [= <- <-]].
  assert (length s' <= length s).
  { destruct (eat 101 s) eqn:E1; simplify_eq; [apply eat_length in E1|apply eat_length in E]; lia. }
  destruct (sign true s') as [sg r1] eqn:E2. apply sign_length in E2.
  destruct (span_digits r1) as [[|x l] r2] eqn:E3; intros [= <- <-]; [lia|].
  apply span_digits_pair in E3. lia.
Qed.

Lemma number_length s v r : number s = Some (v, r) → length r <= length s.
Proof.
  unfold number. destruct (sign false s) as [sg s1] eqn:E1.
  destruct (int_part s1) as [[|x l] s2] eqn:E2; [done|].
  destruct (frac_part s2) as [fp s3] eqn:E3. destruct (exp_part s3) as [ex s4] eqn:E4.
  apply sign_length in E1. apply int_part_length in E2.
  apply frac_part_length in E3. apply exp_part_length in E4.
  destruct fp, ex; intros [= <- <-]; lia.
Qed.

Lemma literal_length ls s v r : literal ls s = Some (v, r) → length r <= length s.
Proof.
  induction ls as [|[w v'] ls IH]; simpl; [done|]. case_match; intros; simplify_eq; auto.
  rewrite length_drop. lia.
Qed.

Lemma eat_ws_length c s r : eat c (skip_ws s) = Some r → length r < length s.
Proof. intros E%eat_length. pose proof (skip_ws_length s). lia. Qed.

Definition pres_ok {A} (n : nat) (r : pres A) : Prop :=
  match r with POk _ rest => length rest <= n | PErr => True | PFuel => False end.

Lemma pres_ok_le {A} n m (r : pres A) : pres_ok n r → n <= m → pres_ok m r.
Proof. destruct r; simpl; auto. lia. Qed.

Lemma str_body_pres s : pres_ok (length s) (str_body (S (length s)) [] s).
Proof.
  pose proof (str_body_ok (S (length s)) [] s ltac:(lia)) as H.
  destruct (str_body _ _ _); simpl in *; try done. lia.
Qed.

#[local] Arguments str_body : simpl never.
#[local] Arguments eat : simpl never.
#[local] Arguments number : simpl never.
#[local] Arguments literal : simpl never.

(** Fuel twice the input is enough, and what is left is no longer. *)
Lemma parse_ok fuel :
  (∀ s, 2 * length s < fuel → pres_ok (length s) (value fuel s))
  ∧ (∀ acc s, 2 * length s < fuel → pres_ok (length s) (members fuel acc s))
  ∧ (∀ acc s, 2 * length s + 1 < fuel → pres_ok (length s) (elements fuel acc s)).
Proof.
  induction fuel as [|f (IHv & IHm & IHe)]; [repeat split; intros; lia|].
  repeat split.
  - intros s Hf. simpl.
    destruct (eat 34 s) as [s'|] eqn:E1.
    { apply eat_length in E1. pose proof (str_body_pres s') as Hb.
      destruct (str_body _ _ _); simpl in *; try done. lia. }
    destruct (eat 123 s) as [s'|] eqn:E2.
    { apply eat_length in E2. pose proof (skip_ws_length s').
      destruct (eat 125 (skip_ws s')) as [r|] eqn:E; [apply eat_ws_length in E; simpl; lia|].
      eapply pres_ok_le; [apply IHm|]; lia. }
    destruct (eat 91 s) as [s'|] eqn:E3.
    { apply eat_length in E3. pose proof (skip_ws_length s').
      destruct (eat 93 (skip_ws s')) as [r|] eqn:E; [apply eat_ws_length in E; simpl; lia|].
      eapply pres_ok_le; [apply IHe|]; lia. }
    destruct (literal literals s) as [[v r]|] eqn:E;
      [apply literal_length in E; simpl; lia|].
    destruct (number s) as [[v r]|] eqn:E';
      [apply number_length in E'; simpl; lia|done].
  - intros acc s Hf. simpl.
    destruct (eat 34 s) as [s'|] eqn:E1; [|done].
    apply eat_length in E1. pose proof (str_body_pres s') as Hb.
    destruct (str_body _ _ _) as [k r| |]; simpl in Hb; try done.
    destruct (eat 58 (skip_ws r)) as [r1|] eqn:E2; [|done]. apply eat_ws_length in E2.
    pose proof (skip_ws_length r1).
    pose proof (IHv (skip_ws r1) ltac:(lia)) as Hv.
    destruct (value f _) as [v r2| |]; simpl in Hv; try done.
    destruct (eat 44 (skip_ws r2)) as [r3|] eqn:E3.
    + apply eat_ws_length in E3. pose proof (skip_ws_length r3).
      eapply pres_ok_le; [apply IHm|]; lia.
    + destruct (eat 125 (skip_ws r2)) as [r3|] eqn:E4; [|done].
      apply eat_ws_length in E4. simpl. lia.
  - intros acc s Hf. simpl.
    pose proof (IHv s ltac:(lia)) as Hv.
    destruct (value f s) as [v r| |]; simpl in Hv; try done.
    destruct (eat 44 (skip_ws r)) as [r1|] eqn:E3.
    + apply eat_ws_length in E3. pose proof (skip_ws_length r1).
      eapply pres_ok_le; [apply IHe|]; lia.
    + destruct (eat 93 (skip_ws r)) as [r1|] eqn:E4; [|done].
      apply eat_ws_length in E4. simpl. lia.
Qed.

(** [loads] never stops for lack of fuel. *)
Lemma run_total s : run s ≠ PFuel.
Proof.
  unfold run. pose proof (skip_ws_length s).
  pose proof (proj1 (parse_ok (S (2 * length s))) (skip_ws s) ltac:(lia)) as Hv.
  destruct (value _ _); simpl in Hv; try done. by case_match.
Qed.
End LoadsFacts.

(** ** Induction through the values of a dictionary *)
Fixpoint jsize (v : json) : nat :=
  match v with
  | JList l => S (sum_list (map jsize l))
  | JObj d => S (sum_list (map (λ kv, jsize kv.2) d))
  | _ => 1
  end.

Lemma sum_list_elem {A} (f : A → nat) a l : a ∈ l → f a <= sum_list (map f l).
Proof. induction 1 as [a l|a b l _ IH]; simpl; lia. Qed.

(** [P] holds of a value when it holds of the elements of the lists it maps
    keys to. *)
Lemma json_children_ind (P : json → Prop) :
  (∀ v, (∀ d k l c, v = JObj d → dget k d = Some (JList l) → c ∈ l → P c) → P v) → ∀ v, P v.
Proof.
  intros IH v. remember (jsize v) as n eqn:Hn. revert v Hn.
  induction (lt_wf n) as [n _ IHn]. intros v ->. apply IH. intros d k l c -> Hg Hc.
  eapply IHn; [|done]. apply dget_elem in Hg.
  apply (sum_list_elem jsize) in Hc. apply (sum_list_elem (λ kv, jsize kv.2)) in Hg.
  cbn [jsize snd] in *. lia.
Qed.
