(* ===== verification/PyDumps.v ===== *)
(** * [json.dumps(v, indent=2)] and its round trip

    What the program saves with [json.dumps(v, indent=2)] and reads back with
    [json.loads] is the same value, when the value is one JSON can hold:
    finite keys without repetition, texts without a split surrogate pair, and
    floats whose [repr] reads back. *)

From Stdlib Require Import NArith ZArith QArith Lia.
From S2P Require Import Prelude PyStr PyJson.
From stdpp Require Import options.
#[global] Open Scope nat_scope.
#[local] Open Scope py_scope.

Section indented.
Context `{PyRepr}.
Definition newline_indent (n : nat) : pystr := nl :: concat (repeat (u "  ") n).
Fixpoint dumps_indent (n : nat) (v : json) : pystr :=
  match v with
  | JList ((_ :: _) as l) =>
      u "[" ++ newline_indent (S n) ++ join (u "," ++ newline_indent (S n)) (map (dumps_indent (S n)) l)
        ++ newline_indent n ++ u "]"
  | JObj ((_ :: _) as d) =>
      u "{" ++ newline_indent (S n)
        ++ join (u "," ++ newline_indent (S n)) (map (λ kv, dump_str kv.1 ++ u ": " ++ dumps_indent (S n) kv.2) d)
        ++ newline_indent n ++ u "}"
  | v => dumps float_repr ", " ": " v
  end.
End indented.

(** Induction on a value, with the hypothesis for every element. *)
Section json_induction.
Context (P : json → Prop) (Hnull : P JNull) (Hbool : ∀ b, P (JBool b)) (Hint : ∀ z, P (JInt z))
  (Hfloat : ∀ q, P (JFloat q)) (Hnon : ∀ s, P (JNonFinite s)) (Hstr : ∀ s, P (JStr s))
  (Hlist : ∀ l, Forall P l → P (JList l)) (Hobj : ∀ d, Forall (λ kv, P kv.2) d → P (JObj d)).
Fixpoint json_nested_ind (v : json) : P v :=
  match v with
  | JNull => Hnull
  | JBool b => Hbool b
  | JInt z => Hint z
  | JFloat q => Hfloat q
  | JNonFinite s => Hnon s
  | JStr s => Hstr s
  | JList l => Hlist l ((fix go l := match l return Forall P l with
                         | [] => Forall_nil_2 _
                         | a :: l' => Forall_cons_2 _ _ _ (json_nested_ind a) (go l')
                         end) l)
  | JObj d => Hobj d ((fix go d := match d return Forall (λ kv, P kv.2) d with
                       | [] => Forall_nil_2 _
                       | kv :: d' => Forall_cons_2 _ _ _ (json_nested_ind kv.2) (go d')
                       end) d)
  end.
End json_induction.

(** ** Strings *)

Definition high_surrogate (c : N) : bool := ((55296 <=? c) && (c <=? 56319))%N.
Definition low_surrogate (c : N) : bool := ((56320 <=? c) && (c <=? 57343))%N.

(** Code points, without a high surrogate right before a low one. *)
Fixpoint storable (s : pystr) : bool :=
  match s with
  | [] => true
  | c :: s' => (c <? 1114112)%N && negb (high_surrogate c && match s' with d :: _ => low_surrogate d | [] => false end)
               && storable s'
  end.

Section string_roundtrip.
Import Loads.
#[local] Open Scope N_scope.

Lemma hex_val_digit n : n < 16 → hex_val (hex_digit n) = Some n.
Proof.
  intros Hn. unfold hex_val, hex_digit, is_digit. destruct (n <? 10) eqn:E.
  - apply N.ltb_lt in E. replace ((48 <=? 48 + n) && (48 + n <=? 57)) with true.
    + f_equal. lia.
    + symmetry. apply andb_true_iff. rewrite !N.leb_le. lia.
  - apply N.ltb_ge in E. replace ((48 <=? 87 + n) && (87 + n <=? 57)) with false.
    + replace ((97 <=? 87 + n) && (87 + n <=? 102)) with true.
      * f_equal. lia.
      * symmetry. apply andb_true_iff. rewrite !N.leb_le. lia.
    + symmetry. apply andb_false_iff. rewrite !N.leb_gt. lia.
Qed.

Lemma hex4_of_read n s : n < 65536 → hex4 (hex4_of n ++ s) = Some (n, s).
Proof.
  intros Hn. unfold hex4_of. cbn [app hex4].
  rewrite !hex_val_digit by (apply N.mod_lt; lia). do 2 f_equal.
  zify. Z.to_euclidean_division_equations. lia.
Qed.

(** What follows an escape is not the escape of a low surrogate. *)
Definition no_low (s : pystr) : Prop :=
  match eat 92 s ≫= eat 117 with
  | Some r => match hex4 r with Some (lo, _) => low_surrogate lo = false | None => True end
  | None => True
  end.

Lemma unicode_escape_bmp c s :
  c < 65536 → (high_surrogate c = true → no_low s) → unicode_escape (hex4_of c ++ s) = Some (c, s).
Proof.
  intros Hc Hlow. unfold unicode_escape. rewrite hex4_of_read by done. fold (high_surrogate c).
  destruct (high_surrogate c); [|done]. specialize (Hlow eq_refl). unfold no_low in Hlow.
  destruct (eat 92 s ≫= eat 117) as [r|]; [|done]. destruct (hex4 r) as [[lo r']|]; [|done].
  unfold low_surrogate in Hlow. by rewrite Hlow.
Qed.

Lemma unicode_escape_pair c s :
  65536 <= c → c < 1114112 →
  unicode_escape (hex4_of (55296 + (c - 65536) / 1024) ++ 92 :: 117 :: hex4_of (56320 + (c - 65536) mod 1024) ++ s)
  = Some (c, s).
Proof.
  intros H1 H2. set (h := (c - 65536) / 1024). set (l := (c - 65536) mod 1024).
  assert (h < 1024 ∧ l < 1024 ∧ 65536 + h * 1024 + l = c) as (Hh & Hl & Hc).
  { subst h l. zify. Z.to_euclidean_division_equations. lia. }
  clearbody h l. unfold unicode_escape. rewrite hex4_of_read by lia.
  replace (_ && _) with true by (symmetry; apply andb_true_iff; rewrite !N.leb_le; lia).
  cbn [app eat mbind option_bind]. change (92 =? 92) with true. cbn [app eat mbind option_bind].
  change (117 =? 117) with true. cbv iota. rewrite hex4_of_read by lia.
  replace (_ && _) with true by (symmetry; apply andb_true_iff; rewrite !N.leb_le; lia).
  do 2 f_equal. lia.
Qed.

(** The five ways a character is written. *)
Lemma escape_char_cases c :
  c < 1114112 →
  (∃ e, escape_char c = [92; e] ∧ e ≠ 117 ∧ simple_escape e = Some c)
  ∨ (escape_char c = [c] ∧ c ≠ 34 ∧ c ≠ 92 ∧ 32 <= c)
  ∨ (escape_char c = [92; 117] ++ hex4_of c ∧ c < 65536)
  ∨ (escape_char c = [92; 117] ++ hex4_of (55296 + (c - 65536) / 1024) ++ [92; 117]
                     ++ hex4_of (56320 + (c - 65536) mod 1024) ∧ 65536 <= c).
Proof.
  intros Hc. unfold escape_char.
  destruct (N.eqb_spec c 34) as [->|H1]; [left; by exists 34|].
  destruct (N.eqb_spec c 92) as [->|H2]; [left; by exists 92|].
  destruct (N.eqb_spec c 10) as [->|_]; [left; by exists 110|].
  destruct (N.eqb_spec c 13) as [->|_]; [left; by exists 114|].
  destruct (N.eqb_spec c 9) as [->|_]; [left; by exists 116|].
  destruct (N.eqb_spec c 12) as [->|_]; [left; by exists 102|].
  destruct (N.eqb_spec c 8) as [->|_]; [left; by exists 98|].
  right. destruct (_ && _) eqn:E.
  - left. apply andb_true_iff in E as [E _]. by apply N.leb_le in E.
  - right. destruct (c <? 65536) eqn:E2; [left|right]; (split; [done|]); [by apply N.ltb_lt|by apply N.ltb_ge].
Qed.

Lemma no_low_hex c s : c < 65536 → low_surrogate c = false → no_low ([92; 117] ++ hex4_of c ++ s).
Proof. intros Hc Hl. unfold no_low. cbn -[hex4_of hex4]. by rewrite hex4_of_read. Qed.

Lemma no_low_escaped s rest :
  storable s = true → match s with c :: _ => low_surrogate c = false | [] => True end →
  no_low (concat (map escape_char s) ++ 34 :: rest).
Proof.
  destruct s as [|c s]; [done|]. cbn [storable map concat]. rewrite !andb_true_iff. intros [[Hc _] _] Hl.
  apply N.ltb_lt in Hc. rewrite <- app_assoc.
  destruct (escape_char_cases c Hc) as [(e & -> & He & _)|[(-> & H1 & H2 & _)|[(-> & H1)|(-> & H1)]]].
  - unfold no_low. cbn. by apply N.eqb_neq in He as ->.
  - unfold no_low. cbn. by apply N.eqb_neq in H2 as ->.
  - rewrite <- app_assoc. by apply no_low_hex.
  - rewrite <- !app_assoc. apply no_low_hex.
    + zify. Z.to_euclidean_division_equations. lia.
    + apply andb_false_iff. left. apply N.leb_gt. zify. Z.to_euclidean_division_equations. lia.
Qed.

Lemma str_body_escaped s fuel acc rest :
  (length s < fuel)%nat → storable s = true →
  str_body fuel acc (concat (map escape_char s) ++ 34 :: rest) = POk (reverse acc ++ s) rest.
Proof.
  revert fuel acc. induction s as [|c s IH]; intros fuel acc Hf Hs; (destruct fuel as [|f]; [simpl in Hf; lia|]).
  { cbn. by rewrite app_nil_r. }
  cbn [storable] in Hs. rewrite !andb_true_iff in Hs. destruct Hs as [[Hc Hlow] Hs]. apply N.ltb_lt in Hc.
  specialize (IH f (c :: acc) ltac:(simpl in Hf; lia) Hs). rewrite reverse_cons, <- app_assoc in IH.
  cbn [map concat]. rewrite <- app_assoc.
  destruct (escape_char_cases c Hc) as [(e & -> & He & Hsim)|[(-> & H1 & H2 & H3)|[(-> & H1)|(-> & H1)]]].
  - cbn [app str_body]. change (92 =? 34) with false. change (92 =? 92) with true. cbv iota.
    apply N.eqb_neq in He as ->. by rewrite Hsim.
  - cbn [app str_body]. apply N.eqb_neq in H1 as ->. apply N.eqb_neq in H2 as ->.
    apply N.ltb_ge in H3 as ->. exact IH.
  - rewrite <- app_assoc. cbn [app str_body]. change (92 =? 34) with false. change (92 =? 92) with true.
    change (117 =? 117) with true. cbv iota. rewrite unicode_escape_bmp; [exact IH|done|].
    intros Hh. apply no_low_escaped; [done|]. rewrite Hh in Hlow. apply negb_true_iff in Hlow. by destruct s.
  - rewrite <- !app_assoc. cbn [app str_body]. change (92 =? 34) with false. change (92 =? 92) with true.
    change (117 =? 117) with true. cbv iota. rewrite unicode_escape_pair by done. exact IH.
Qed.

Lemma escaped_length s : (length s ≤ length (concat (map escape_char s)))%nat.
Proof.
  induction s as [|c s IH]; [done|]. cbn [map concat length]. rewrite length_app.
  enough (1 ≤ length (escape_char c))%nat by lia. unfold escape_char, hex4_of. repeat case_match; cbn; lia.
Qed.
End string_roundtrip.

(** ** Integers *)

(** The end of a value inside the text: nothing, a separator, a closing
    bracket or the line break before it. *)
Definition stops (s : pystr) : bool :=
  match s with [] => true | c :: _ => ((c =? 44) || (c =? 93) || (c =? 125) || (c =? 10))%N end.

Section int_roundtrip.
Import Loads.
#[local] Open Scope N_scope.

Lemma stops_not c s : stops s = true → (c =? 44) || (c =? 93) || (c =? 125) || (c =? 10) = false → eat c s = None.
Proof.
  destruct s as [|d s]; [done|]. cbn [stops eat]. intros Hs Hc. destruct (N.eqb_spec d c) as [->|]; [|done].
  by rewrite Hs in Hc.
Qed.

Lemma digits_snoc ds d : digits_to_N (ds ++ [d]) = digits_to_N ds * 10 + (d - 48).
Proof. unfold digits_to_N. by rewrite fold_left_app. Qed.

Lemma dec_digits_spec fuel n acc :
  n < 2 ^ N.of_nat fuel →
  ∃ c ds, dec_digits fuel n acc = c :: ds ++ acc ∧ forallb is_digit (c :: ds) = true ∧ digits_to_N (c :: ds) = n ∧
    (c = 48 → ds = []) ∨ fuel = O.
Proof.
  revert n acc. induction fuel as [|f IH]; intros n acc Hn; [exists 0, []; by right|].
  cbn [dec_digits]. assert (is_digit (48 + n mod 10) = true) as Hd.
  { unfold is_digit. apply andb_true_iff. rewrite !N.leb_le. zify. Z.to_euclidean_division_equations. lia. }
  destruct (n <? 10) eqn:E.
  - apply N.ltb_lt in E. exists (48 + n mod 10), []. left. cbn [app forallb]. rewrite Hd.
    split_and!; [done|done| |done]. rewrite N.mod_small by done. unfold digits_to_N. cbn. lia.
  - apply N.ltb_ge in E. rewrite Nat2N.inj_succ, N.pow_succ_r' in Hn.
    destruct (IH (n / 10) ((48 + n mod 10) :: acc)) as (c & ds & [(-> & Hds & Hn10 & Hz)| ->]).
    + zify. Z.to_euclidean_division_equations. lia.
    + exists c, (ds ++ [48 + n mod 10]). left. split_and!.
      * by rewrite <- app_assoc.
      * change (c :: ds ++ [48 + n mod 10]) with ((c :: ds) ++ [48 + n mod 10]). rewrite forallb_app, Hds.
        cbn. by rewrite Hd.
      * change (c :: ds ++ [48 + n mod 10]) with ((c :: ds) ++ [48 + n mod 10]). rewrite digits_snoc, Hn10.
        zify. Z.to_euclidean_division_equations. lia.
      * intros ->. rewrite (Hz eq_refl) in Hn10. unfold digits_to_N in Hn10. cbn in Hn10.
        zify. Z.to_euclidean_division_equations. lia.
    + cbn in Hn. lia.
Qed.

Lemma str_of_N_spec n :
  ∃ c ds, str_of_N n = c :: ds ∧ forallb is_digit (c :: ds) = true ∧ digits_to_N (c :: ds) = n ∧ (c = 48 → ds = []).
Proof.
  unfold str_of_N. destruct (dec_digits_spec (S (N.to_nat (N.log2 n))) n []) as (c & ds & [H|]); [|exists c, ds|done].
  - rewrite Nat2N.inj_succ, N2Nat.id. destruct (N.eq_decidable n 0) as [->|]; [done|]. apply N.log2_spec. lia.
  - by rewrite app_nil_r in H.
Qed.

Lemma span_digits_app ds s :
  forallb is_digit ds = true → match s with c :: _ => is_digit c = false | [] => True end →
  span_digits (ds ++ s) = (ds, s).
Proof.
  intros Hds Hs. induction ds as [|d ds IH]; cbn [app span_digits].
  - destruct s as [|c s]; [done|]. cbn. by rewrite Hs.
  - cbn [forallb] in Hds. apply andb_true_iff in Hds as [-> Hds]. by rewrite IH.
Qed.

Lemma stops_not_digit s : stops s = true → match s with c :: _ => is_digit c = false | [] => True end.
Proof.
  destruct s as [|c s]; [done|]. cbn [stops]. rewrite !orb_true_iff, !N.eqb_eq. by intros [[[-> | ->] | ->] | ->].
Qed.

Lemma int_part_digits c ds s :
  forallb is_digit (c :: ds) = true → (c = 48 → ds = []) → stops s = true → int_part ((c :: ds) ++ s) = (c :: ds, s).
Proof.
  intros Hds Hz Hs. unfold int_part. cbn [app eat]. destruct (N.eqb_spec c 48) as [->|_].
  - by rewrite (Hz eq_refl).
  - apply (span_digits_app (c :: ds)); [done|by apply stops_not_digit].
Qed.

Lemma digit_not c k : is_digit c = true → is_digit k = false → (c =? k) = false.
Proof. intros H1 H2. apply N.eqb_neq. intros ->. by rewrite H1 in H2. Qed.

(** The integer part of a number, its sign read. *)
Lemma number_digits sg c ds s t :
  sign false t = (sg, (c :: ds) ++ s) → forallb is_digit (c :: ds) = true → (c = 48 → ds = []) → stops s = true →
  number t = Some (JInt (sg * Z.of_N (digits_to_N (c :: ds))), s).
Proof.
  intros Ht Hds Hz Hs. unfold number. rewrite Ht, int_part_digits by done.
  unfold frac_part. rewrite stops_not by done. unfold exp_part. by rewrite !stops_not by done.
Qed.

Lemma number_int z s : stops s = true → number (str_of_Z z ++ s) = Some (JInt z, s).
Proof.
  intros Hs. destruct (str_of_N_spec (Z.to_N (Z.abs z))) as (c & ds & E & Hds & Hn & Hz).
  assert (is_digit c = true) as Hc by (by cbn [forallb] in Hds; apply andb_true_iff in Hds as [-> _]).
  assert (∀ p, str_of_Z (Zneg p) = 45 :: str_of_N (Z.to_N (Z.abs (Zneg p)))) as Hneg by done.
  destruct z as [|p|p]; [change (str_of_Z 0) with (str_of_N (Z.to_N (Z.abs 0)))
                        |change (str_of_Z (Zpos p)) with (str_of_N (Z.to_N (Z.abs (Zpos p))))|rewrite Hneg]; rewrite E.
  1-2: rewrite (number_digits 1 c ds s); [rewrite Hn; do 2 f_equal; lia| |done..];
    unfold sign; cbn [app eat]; by rewrite !(digit_not c) by done.
  rewrite (number_digits (-1) c ds s); [rewrite Hn; do 2 f_equal; lia| |done..]. done.
Qed.

Lemma literal_none c s :
  c ∉ [110; 116; 102; 78; 73; 45] ∨ c = 45 ∧ match s with d :: _ => d ≠ 73 | [] => True end →
  literal literals (c :: s) = None.
Proof.
  intros Hc. change literals with
    [([110; 117; 108; 108], JNull); ([116; 114; 117; 101], JBool true); ([102; 97; 108; 115; 101], JBool false);
     ([78; 97; 78], JNonFinite "NaN"); ([73; 110; 102; 105; 110; 105; 116; 121], JNonFinite "Infinity");
     ([45; 73; 110; 102; 105; 110; 105; 116; 121], JNonFinite "-Infinity")].
  cbn [literal startswith].
  destruct Hc as [Hc|[-> Hs]].
  - rewrite !(proj2 (N.eqb_neq _ c)) by set_solver. done.
  - rewrite !(proj2 (N.eqb_neq _ 45)) by done. cbn [andb]. destruct s as [|d s]; [done|].
    cbn [startswith]. by rewrite (proj2 (N.eqb_neq 73 d)) by congruence.
Qed.
End int_roundtrip.

(** ** Values *)
Section value_roundtrip.
Context `{PyRepr}.
Import Loads.

(** A text that the parser reads as [v], whatever follows it. *)
Definition readable (t : pystr) (v : json) : Prop :=
  (∃ c t', t = c :: t' ∧ is_ws c = false ∧ c ≠ 93%N) ∧
  ∀ rest f, stops rest = true → 2 * length (t ++ rest) < f → value f (t ++ rest) = POk v rest.

(** Printable ASCII and the newline, all that [json.dumps] writes. *)
Definition text_char (c : N) : bool := ((c =? 10) || ((32 <=? c) && (c <? 127)))%N.

Fixpoint storable_json (v : json) : Prop :=
  match v with
  | JFloat q => readable (float_repr q) (JFloat q) ∧ forallb text_char (float_repr q) = true
  | JNonFinite s => s = u "NaN" ∨ s = u "Infinity" ∨ s = u "-Infinity"
  | JStr s => storable s = true
  | JList l => foldr (λ v P, storable_json v ∧ P) True l
  | JObj d => NoDup (dkeys d) ∧ foldr (λ kv P, (storable kv.1 = true ∧ storable_json kv.2) ∧ P) True d
  | _ => True
  end.

Lemma skip_ws_id c t : is_ws c = false → skip_ws (c :: t) = c :: t.
Proof. intros Hc. cbn [skip_ws]. by rewrite Hc. Qed.

Lemma skip_newline n c t : is_ws c = false → skip_ws (newline_indent n ++ c :: t) = c :: t.
Proof.
  intros Hc. unfold newline_indent. cbn [app skip_ws]. change (is_ws nl) with true. cbv iota.
  induction n as [|n IH]; [by apply skip_ws_id|]. cbn [repeat concat]. rewrite <- app_assoc.
  change (u "  ") with [32; 32]%N. cbn [app skip_ws]. change (is_ws 32) with true. by cbv iota.
Qed.

Lemma readable_skip t v rest : readable t v → skip_ws (t ++ rest) = t ++ rest.
Proof. intros [(c & t' & -> & Hc & _) _]. by apply skip_ws_id. Qed.

(** A value that is neither a string nor a container. *)
Lemma readable_scalar c t v :
  is_ws c = false → c ≠ 93%N → c ≠ 34%N → c ≠ 123%N → c ≠ 91%N →
  (∀ rest, stops rest = true →
     literal literals ((c :: t) ++ rest) = Some (v, rest) ∨
     literal literals ((c :: t) ++ rest) = None ∧ number ((c :: t) ++ rest) = Some (v, rest)) →
  readable (c :: t) v.
Proof.
  intros Hws H93 H34 H123 H91 Hv. split; [by exists c, t|]. intros rest f Hs Hf.
  destruct f as [|f]; [lia|]. cbn [value app eat].
  apply N.eqb_neq in H34 as ->. apply N.eqb_neq in H123 as ->. apply N.eqb_neq in H91 as ->.
  destruct (Hv rest Hs) as [Hl|[Hl Hn]]; cbn [app] in Hl; rewrite Hl; [done|]. cbn [app] in Hn. by rewrite Hn.
Qed.

Lemma readable_int z : readable (str_of_Z z) (JInt z).
Proof.
  assert (∃ c t, str_of_Z z = c :: t ∧ (is_digit c = true ∨ c = 45%N ∧ ∃ d t', t = d :: t' ∧ is_digit d = true))
    as (c & t & E & Hc).
  { destruct (str_of_N_spec (Z.to_N (Z.abs z))) as (c & ds & E & Hds & _).
    cbn [forallb] in Hds. apply andb_true_iff in Hds as [Hc _].
    destruct z as [|p|p]; [exists c, ds; by eauto..|]. exists 45%N, (c :: ds).
    change (str_of_Z (Zneg p)) with (45%N :: str_of_N (Z.to_N (Z.abs (Zneg p)))). rewrite E. eauto 10. }
  rewrite E. assert (∀ k, is_digit k = false → k ≠ 45%N → c ≠ k) as Hne.
  { intros k Hk Hk' ->. destruct Hc as [Hc|[-> _]]; congruence. }
  apply readable_scalar; [|by apply Hne..|].
  - unfold is_ws. rewrite !orb_false_iff, !N.eqb_neq. by split_and!; apply Hne.
  - intros rest Hs. right. split; [|rewrite <- E; by apply number_int].
    apply literal_none. destruct Hc as [Hc|(-> & d & t' & -> & Hd)].
    + left. intros Hin. rewrite !elem_of_cons in Hin.
      destruct Hin as [-> |[-> |[-> |[-> |[-> |[-> |Hin]]]]]]; try done. by apply elem_of_nil in Hin.
    + right. split; [done|]. by intros ->.
Qed.

Lemma readable_str s : storable s = true → readable (dump_str s) (JStr s).
Proof.
  intros Hs. split; [by eexists _, _|]. intros rest f Hst Hf. destruct f as [|f]; [lia|].
  unfold dump_str. cbn [value app eat]. change (34 =? 34)%N with true. cbv iota.
  rewrite <- app_assoc. cbn [app]. rewrite str_body_escaped; [done| |done].
  rewrite length_app. pose proof (escaped_length s). cbn. lia.
Qed.

Lemma readable_literal w v :
  (w, v) ∈ literals → readable w v.
Proof.
  change literals with
    [([110; 117; 108; 108]%N, JNull); ([116; 114; 117; 101]%N, JBool true); ([102; 97; 108; 115; 101]%N, JBool false);
     ([78; 97; 78]%N, JNonFinite "NaN"); ([73; 110; 102; 105; 110; 105; 116; 121]%N, JNonFinite "Infinity");
     ([45; 73; 110; 102; 105; 110; 105; 116; 121]%N, JNonFinite "-Infinity")].
  rewrite !elem_of_cons. intros Hin.
  destruct Hin as [[= -> ->]|[[= -> ->]|[[= -> ->]|[[= -> ->]|[[= -> ->]|[[= -> ->]|Hin]]]]]];
    try (by apply elem_of_nil in Hin); apply readable_scalar; try done; intros rest _; by left.
Qed.

(** *** Containers *)
Context (n : nat).
Abbreviation sep := (u "," ++ newline_indent (S n)).

Lemma elements_text l : ∀ acc rest f,
  Forall (λ v, readable (dumps_indent (S n) v) v) l → l ≠ [] →
  2 * length (join sep (map (dumps_indent (S n)) l) ++ newline_indent n ++ 93%N :: rest) + 1 < f →
  elements f acc (join sep (map (dumps_indent (S n)) l) ++ newline_indent n ++ 93%N :: rest)
  = POk (JList (acc ++ l)) rest.
Proof.
  induction l as [|v l IH]; intros acc rest f Hl Hne Hf; [done|]. apply Forall_cons in Hl as [Hv Hl].
  destruct f as [|f]; [lia|]. cbn [elements]. destruct l as [|w l].
  - cbn [map join] in *. rewrite (proj2 Hv) by (done || lia).
    rewrite skip_newline by done. cbn [eat]. done.
  - change (join sep (map (dumps_indent (S n)) (v :: w :: l))) with
      (dumps_indent (S n) v ++ sep ++ join sep (map (dumps_indent (S n)) (w :: l))) in *.
    rewrite <- !app_assoc in *. rewrite (proj2 Hv) by (done || lia).
    change (u "," ++ ?x) with (44%N :: x). rewrite skip_ws_id by done. cbn [eat].
    change (44 =? 44)%N with true. cbv iota.
    assert (∀ t, skip_ws (newline_indent (S n) ++ join sep (map (dumps_indent (S n)) (w :: l)) ++ t) =
              join sep (map (dumps_indent (S n)) (w :: l)) ++ t) as Hskip.
    { intros t. apply Forall_cons in Hl as [[(c & t' & Ec & Hc & _) _] _].
      destruct l; cbn [map join]; rewrite Ec; cbn [app]; by apply skip_newline. }
    rewrite Hskip, IH; [by rewrite <- app_assoc|done|done|].
    rewrite !length_app in *. cbn [length] in *. change (length (u ",")) with 1 in Hf. lia.
Qed.

Definition member_text (kv : pystr * json) : pystr := dump_str kv.1 ++ u ": " ++ dumps_indent (S n) kv.2.

(** One member: its key, the colon and its value. *)
Lemma member_read k v acc rest f :
  storable k = true → readable (dumps_indent (S n) v) v → stops rest = true →
  2 * length (member_text (k, v) ++ rest) < S f →
  members (S f) acc (member_text (k, v) ++ rest) =
  match eat 44 (skip_ws rest) with
  | Some r3 => members f (dset k v acc) (skip_ws r3)
  | None => match eat 125 (skip_ws rest) with
            | Some r3 => POk (JObj (dset k v acc)) r3
            | None => PErr
            end
  end.
Proof.
  intros Hk Hv Hs Hf. unfold member_text, dump_str in *. cbn [fst snd] in *. rewrite <- !app_assoc in *.
  cbn [app members eat]. change (34 =? 34)%N with true. cbv iota. cbn [app] in Hf.
  rewrite str_body_escaped; [| |done].
  2: { rewrite length_app. pose proof (escaped_length k). cbn. lia. }
  cbn [reverse app]. change (u ": " ++ ?x) with (58%N :: 32%N :: x). rewrite skip_ws_id by done. cbn [eat].
  change (58 =? 58)%N with true. cbv iota. cbn [skip_ws]. change (is_ws 32) with true. cbv iota.
  rewrite (readable_skip _ v) by done. rewrite (proj2 Hv); [done|done|].
  change (u ": " ++ ?x) with (58%N :: 32%N :: x) in Hf. cbn [length] in Hf. rewrite !length_app in *.
  cbn [length] in Hf. rewrite length_app in Hf. lia.
Qed.

Lemma members_text d : ∀ acc rest f,
  Forall (λ kv, storable kv.1 = true ∧ readable (dumps_indent (S n) kv.2) kv.2) d → d ≠ [] →
  2 * length (join sep (map member_text d) ++ newline_indent n ++ 125%N :: rest) < f →
  members f acc (join sep (map member_text d) ++ newline_indent n ++ 125%N :: rest)
  = POk (JObj (fold_left (λ a kv, dset kv.1 kv.2 a) d acc)) rest.
Proof.
  induction d as [|[k v] d IH]; intros acc rest f Hd Hne Hf; [done|]. apply Forall_cons in Hd as [[Hk Hv] Hd].
  destruct f as [|f]; [lia|]. destruct d as [|kv d].
  - cbn [map join] in *. rewrite member_read by done. rewrite skip_newline by done. done.
  - change (join sep (map member_text ((k, v) :: kv :: d))) with
      (member_text (k, v) ++ sep ++ join sep (map member_text (kv :: d))) in *.
    rewrite <- !app_assoc in *. rewrite member_read by done.
    change (u "," ++ ?x) with (44%N :: x). rewrite skip_ws_id by done. cbn [eat].
    change (44 =? 44)%N with true. cbv iota.
    assert (∀ t, ∃ t', join sep (map member_text (kv :: d)) ++ t = 34%N :: t') as Hhead.
    { intros t. destruct d; eexists; cbn [map join]; unfold member_text, dump_str; rewrite <- !app_assoc; done. }
    destruct (Hhead (newline_indent n ++ 125%N :: rest)) as [t' Et]. rewrite Et, skip_newline, <- Et by done.
    rewrite IH; [done|done|done|]. rewrite !length_app in *. cbn [length] in *. change (length (u ",")) with 1 in Hf. lia.
Qed.
End value_roundtrip.

Section roundtrip.
Context `{PyRepr}.
Import Loads.

Lemma dset_new {V} k (v : V) d : k ∉ dkeys d → dset k v d = d ++ [(k, v)].
Proof.
  induction d as [|[k' v'] d IH]; [done|]. cbn. intros [Hne Hd]%not_elem_of_cons.
  by rewrite bool_decide_eq_false_2, IH.
Qed.

Lemma set_all_new {V} (d acc : list (pystr * V)) :
  NoDup (dkeys (acc ++ d)) → fold_left (λ a kv, dset kv.1 kv.2 a) d acc = acc ++ d.
Proof.
  revert acc. induction d as [|[k v] d IH]; intros acc Hd; cbn; [by rewrite app_nil_r|].
  unfold dkeys in Hd. rewrite map_app in Hd. cbn in Hd. pose proof Hd as (_ & Hk & _)%NoDup_app.
  rewrite dset_new, IH.
  - by rewrite <- app_assoc.
  - unfold dkeys. rewrite !map_app. cbn. by rewrite <- app_assoc.
  - intros Hin. apply (Hk k) in Hin. set_solver.
Qed.

Lemma dumps_readable v : ∀ n, storable_json v → readable (dumps_indent n v) v.
Proof.
  induction v as [|b|z|q|s|s|l IH|d IH] using json_nested_ind; intros n Hv.
  - apply readable_literal. change (JNull, @nil N) with (JNull, @nil N). left.
  - apply readable_literal. destruct b; [right; left|right; right; left].
  - apply readable_int.
  - apply Hv.
  - apply readable_literal. cbn in Hv |- *.
    destruct Hv as [-> |[-> | ->]]; unfold literals; rewrite !elem_of_cons; auto 10.
  - by apply readable_str.
  - destruct l as [|v l].
    { split; [by eexists _, _|]. intros rest [|f] Hs Hf; [lia|]. done. }
    assert (Forall (λ v, readable (dumps_indent (S n) v) v) (v :: l)) as Hl.
    { clear -IH Hv. induction IH as [|w m Hw _ IHm]; [constructor|]. destruct Hv as [H1 H2].
      constructor; [by apply Hw|by apply IHm]. }
    split; [by eexists _, _|]. intros rest f Hs Hf. destruct f as [|f]; [lia|].
    change (dumps_indent n (JList (v :: l))) with
      (91%N :: newline_indent (S n) ++ join (u "," ++ newline_indent (S n)) (map (dumps_indent (S n)) (v :: l))
        ++ newline_indent n ++ [93%N]) in *.
    cbn [app] in *. rewrite <- !app_assoc in *. cbn [app value eat] in *.
    change (91 =? 34)%N with false. change (91 =? 123)%N with false. change (91 =? 91)%N with true. cbv iota.
    assert (∀ t, ∃ c t', join (u "," ++ newline_indent (S n)) (map (dumps_indent (S n)) (v :: l)) ++ t = c :: t' ∧
              is_ws c = false ∧ c ≠ 93%N) as Hhead.
    { intros t. apply Forall_cons in Hl as [[(c & t' & Ec & Hc & H93) _] _].
      destruct l; cbn [map join]; rewrite Ec; cbn [app]; by eexists _, _. }
    destruct (Hhead (newline_indent n ++ 93%N :: rest)) as (c & t' & Et & Hc & H93). rewrite Et, skip_newline by done.
    cbn [eat]. apply N.eqb_neq in H93 as ->. rewrite <- Et. rewrite elements_text; [done|done|done|].
    cbn [length] in Hf. rewrite (length_app (newline_indent (S n))) in Hf. cbn [length newline_indent] in Hf. lia.
  - destruct d as [|kv d].
    { split; [by eexists _, _|]. intros rest [|f] Hs Hf; [lia|]. done. }
    destruct Hv as [Hnd Hv].
    assert (Forall (λ kv, storable kv.1 = true ∧ readable (dumps_indent (S n) kv.2) kv.2) (kv :: d)) as Hl.
    { clear -IH Hv. induction IH as [|w m Hw _ IHm]; [constructor|]. destruct Hv as [[H1 H2] H3].
      constructor; [split; [done|by apply Hw]|by apply IHm]. }
    split; [by eexists _, _|]. intros rest f Hs Hf. destruct f as [|f]; [lia|].
    change (dumps_indent n (JObj (kv :: d))) with
      (123%N :: newline_indent (S n) ++ join (u "," ++ newline_indent (S n)) (map (member_text n) (kv :: d))
        ++ newline_indent n ++ [125%N]) in *.
    cbn [app] in *. rewrite <- !app_assoc in *. cbn [app value eat] in *.
    change (123 =? 34)%N with false. change (123 =? 123)%N with true. cbv iota.
    assert (∀ t, ∃ t', join (u "," ++ newline_indent (S n)) (map (member_text n) (kv :: d)) ++ t = 34%N :: t') as Hhead.
    { intros t. destruct d; eexists; cbn [map join]; unfold member_text, dump_str; rewrite <- !app_assoc; done. }
    destruct (Hhead (newline_indent n ++ 125%N :: rest)) as [t' Et]. rewrite Et, skip_newline by done.
    cbn [eat]. change (34 =? 125)%N with false. cbv iota. rewrite <- Et. rewrite members_text; [|done|done|].
    + by rewrite set_all_new.
    + cbn [length] in Hf. rewrite (length_app (newline_indent (S n))) in Hf. lia.
Qed.

(** The text is printable ASCII, so that it is the same when it is written and
    read in text mode. *)
Lemma text_char_range c : (32 <= c)%N → (c < 127)%N → text_char c = true.
Proof. intros H1%N.leb_le H2%N.ltb_lt. unfold text_char. rewrite H1, H2. apply orb_true_r. Qed.
Lemma text_escape c : forallb text_char (escape_char c) = true.
Proof.
  assert (∀ n, (n < 16)%N → text_char (hex_digit n) = true) as Hd.
  { intros n Hn. unfold hex_digit. destruct (N.ltb_spec n 10); apply text_char_range; lia. }
  assert (∀ n, forallb text_char (hex4_of n) = true) as H4.
  { intros n. unfold hex4_of. cbn [forallb]. rewrite !Hd by by apply N.mod_lt. done. }
  unfold escape_char. repeat case_match; rewrite ?forallb_app, ?H4; try done. cbn [forallb].
  rewrite text_char_range; [done|..]; match goal with H : (_ && _)%bool = true |- _ => apply andb_true_iff in H as [?%N.leb_le ?%N.leb_le] end; lia.
Qed.
Lemma text_concat (l : list pystr) : Forall (λ x, forallb text_char x = true) l → forallb text_char (concat l) = true.
Proof. induction 1 as [|x l Hx _ IH]; [done|]. cbn [concat]. by rewrite forallb_app, Hx, IH. Qed.
Lemma text_dump_str s : forallb text_char (dump_str s) = true.
Proof.
  unfold dump_str. rewrite !forallb_app, text_concat; [done|]. apply Forall_map, Forall_true. intros c. apply text_escape.
Qed.
Lemma text_str_of_Z z : forallb text_char (str_of_Z z) = true.
Proof.
  assert (∀ n, forallb text_char (str_of_N n) = true) as HN.
  { intros n. destruct (str_of_N_spec n) as (c & ds & -> & Hds & _). rewrite forallb_forall in Hds |- *. intros d Hin.
    specialize (Hds d Hin). unfold is_digit in Hds. apply andb_true_iff in Hds as [?%N.leb_le ?%N.leb_le]. apply text_char_range; lia. }
  destruct z as [|p|p]; [apply (HN 0%N)|apply (HN (Npos p))|].
  change (str_of_Z (Zneg p)) with (45%N :: str_of_N (Npos p)). cbn [forallb]. by rewrite HN.
Qed.
Lemma text_newline n : forallb text_char (newline_indent n) = true.
Proof. unfold newline_indent. cbn [forallb]. rewrite text_concat; [done|]. apply Forall_forall. intros x Hx. by apply list_elem_of_In, repeat_spec in Hx as ->. Qed.
Lemma text_join sep (l : list pystr) :
  forallb text_char sep = true → Forall (λ x, forallb text_char x = true) l → forallb text_char (join sep l) = true.
Proof.
  intros Hs. induction 1 as [|x l Hx Hl IH]; [done|]. destruct l; [done|]. cbn [join] in *. by rewrite !forallb_app, Hx, Hs, IH.
Qed.
Lemma join_no_cr sep (l : list pystr) : 13%N ∉ sep → Forall (λ x, 13%N ∉ x) l → 13%N ∉ join sep l.
Proof.
  intros Hs. induction 1 as [|x l Hx Hl IH]; [by intros ?%elem_of_nil|].
  destruct l; [done|]. cbn [join] in *. rewrite !elem_of_app. naive_solver.
Qed.

Lemma text_dumps_indent v : ∀ n, storable_json v → forallb text_char (dumps_indent n v) = true.
Proof.
  assert (∀ n (l : list pystr), Forall (λ x, forallb text_char x = true) l → forallb text_char (join (u "," ++ newline_indent n) l) = true) as Hj.
  { intros n l. apply text_join. by rewrite forallb_app, text_newline. }
  induction v as [|b|z|q|s|s|l IH|d IH] using json_nested_ind; intros n Hv.
  - done.
  - by destruct b.
  - apply text_str_of_Z.
  - apply Hv.
  - by destruct Hv as [-> |[-> | ->]].
  - apply text_dump_str.
  - destruct l as [|v l]; [done|].
    change (dumps_indent n (JList (v :: l))) with
      (91%N :: newline_indent (S n) ++ join (u "," ++ newline_indent (S n)) (map (dumps_indent (S n)) (v :: l))
        ++ newline_indent n ++ [93%N]).
    cbn [forallb]. rewrite !forallb_app, !text_newline, Hj; [done|].
    clear -IH Hv. induction IH as [|w m Hw _ IHm]; [constructor|]. destruct Hv as [H1 H2].
    constructor; [by apply Hw|by apply IHm].
  - destruct d as [|kv d]; [done|]. destruct Hv as [_ Hv].
    change (dumps_indent n (JObj (kv :: d))) with
      (123%N :: newline_indent (S n) ++ join (u "," ++ newline_indent (S n)) (map (member_text n) (kv :: d))
        ++ newline_indent n ++ [125%N]).
    cbn [forallb]. rewrite !forallb_app, !text_newline, Hj; [done|].
    clear -IH Hv. induction IH as [|w m Hw _ IHm]; [constructor|]. destruct Hv as [[H1 H2] H3].
    constructor; [|by apply IHm]. unfold member_text. by rewrite !forallb_app, text_dump_str, (Hw (S n) H2).
Qed.
Lemma text_no_cr t : forallb text_char t = true → 13%N ∉ t.
Proof. intros Ht Hin. rewrite forallb_forall in Ht. by specialize (Ht 13%N ltac:(by apply list_elem_of_In)). Qed.
Lemma dumps_indent_no_cr v n : storable_json v → 13%N ∉ dumps_indent n v.
Proof. intros Hv. by apply text_no_cr, text_dumps_indent. Qed.

(** What is saved is read back. *)
Lemma loads_dumps_indent v : storable_json v → loads (dumps_indent 0 v) = Some v.
Proof.
  intros Hv. destruct (dumps_readable v 0 Hv) as [(c & t & Ec & Hc & _) Hr]. unfold loads, run.
  assert (skip_ws (dumps_indent 0 v) = dumps_indent 0 v ++ []) as ->.
  { rewrite app_nil_r, Ec. by apply skip_ws_id. }
  rewrite Hr by (rewrite ?app_nil_r; done || lia). done.
Qed.
End roundtrip.

Example dumps_indent_ex `{PyRepr} :
  dumps_indent 0 (JObj [(u "a", JList [JInt 1; JNull]); (u "b", JObj [])])
  = bq "{" ++ [nl] ++ bq "  `a`: [" ++ [nl] ++ u "    1," ++ [nl] ++ u "    null" ++ [nl] ++ u "  ]," ++ [nl]
    ++ bq "  `b`: {}" ++ [nl] ++ u "}".
Proof. vm_compute. reflexivity. Qed.
