(* ===== verification/PyMonad.v ===== *)
(** * Effects: exceptions and state

    A fallible Python function is an [outcome]; a function that also reads or
    writes state is a [M S].  [try_except] and [try_finally] follow Python's
    statements.  The second half is a small Hoare logic: [triple] covers both
    ways a computation can end, and [stepwise] lifts a reflexive, transitive
    relation on states through the combinators. *)

From Stdlib Require Import NArith Lia.
From S2P Require Import Prelude PyStr PyJson.
From stdpp Require Import options.

(** The exceptions the modelled code raises or catches. *)
Inductive exn :=
  | AssertionError
  | AttributeError
  | KeyError (key : pystr)
  | TypeError
  | StopIteration
  | KeyboardInterrupt
  | ValueError (msg : pystr)
  | OSError (msg : pystr)
  | FileNotFoundError
  | TimeoutExpired
  | OtherError (type_name msg : pystr) (** raised by a library *)
  | SystemExit (code : Z)
  | OutOfFuel (** of the model only: a bounded loop was cut short *)
  | GitHubError (msg : pystr)
  | AgentError (msg : pystr)
  | BackupConfigError (msg : pystr)
  | SnapshotError (msg : pystr)
  | SnapshotCleanupError (msg : pystr) (deleted : list pystr) (failed_target : pystr)
  | RevealFailed (msg : pystr) (live_service_restarted : bool).

#[export] Instance exn_eq_dec : EqDecision exn.
Proof. solve_decision. Defined.

(** [str(exc)] *)
Definition exn_str (e : exn) : pystr :=
  match e with
  | ValueError m | OSError m | OtherError _ m | GitHubError m | AgentError m | BackupConfigError m
  | SnapshotError m | SnapshotCleanupError m _ _ | RevealFailed m _ | KeyError m => m
  | _ => []
  end.

(** [type(e).__name__] *)
Definition exn_type_name (e : exn) : pystr :=
  match e with
  | AssertionError => u "AssertionError" | AttributeError => u "AttributeError"
  | KeyError _ => u "KeyError" | TypeError => u "TypeError" | StopIteration => u "StopIteration"
  | KeyboardInterrupt => u "KeyboardInterrupt" | ValueError _ => u "ValueError"
  | OtherError n _ => n | OSError _ => u "OSError" | FileNotFoundError => u "FileNotFoundError"
  | TimeoutExpired => u "TimeoutExpired" | SystemExit _ => u "SystemExit" | OutOfFuel => u "OutOfFuel"
  | GitHubError _ => u "GitHubError" | AgentError _ => u "AgentError"
  | BackupConfigError _ => u "BackupConfigError" | SnapshotError _ => u "SnapshotError"
  | SnapshotCleanupError _ _ _ => u "SnapshotCleanupError" | RevealFailed _ _ => u "RevealFailed"
  end.

(** [except OSError]; a [TimeoutExpired] is not one. *)
Definition is_OSError (e : exn) : bool := match e with OSError _ | FileNotFoundError => true | _ => false end.
(** [except Exception]: everything but the interpreter-exit exceptions. *)
Definition is_Exception (e : exn) : bool := match e with KeyboardInterrupt | SystemExit _ => false | _ => true end.

Inductive outcome (A : Type) := Ret (a : A) | Raise (e : exn).
Arguments Ret {A}. Arguments Raise {A}.

#[export] Instance outcome_ret : MRet outcome := λ A a, Ret a.
#[export] Instance outcome_bind : MBind outcome := λ A B f r,
  match r with Ret a => f a | Raise e => Raise e end.

Definition is_Ret {A} (r : outcome A) : bool := match r with Ret _ => true | Raise _ => false end.
Definition assert_ (b : bool) : outcome unit := if b then Ret tt else Raise AssertionError.
(** [d[k]] *)
Definition getitem (k : pystr) (d : dict) : outcome json :=
  match dget k d with Some v => Ret v | None => Raise (KeyError k) end.
(** A method call that only a [dict] (or only a [str], a [list]) accepts. *)
Definition need_dict (v : json) : outcome dict :=
  match v with JObj d => Ret d | _ => Raise AttributeError end.
Definition need_str (v : json) : outcome pystr :=
  match v with JStr s => Ret s | _ => Raise TypeError end.
Definition need_list (v : json) : outcome (list json) :=
  match v with JList l => Ret l | _ => Raise TypeError end.

(** [v[k]], [v.get(k)], [v.get(k, dflt)] on a value of any type. *)
Definition sub (k : pystr) (v : json) : outcome json :=
  match v with JObj d => getitem k d | _ => Raise TypeError end.
Definition get_default (k : pystr) (dflt v : json) : outcome json :=
  match v with JObj d => Ret (jget_or k dflt d) | _ => Raise AttributeError end.
Definition get (k : pystr) (v : json) : outcome json := get_default k JNull v.
(** [for x in v] *)
Definition iter_json (v : json) : outcome (list json) :=
  match v with
  | JList l => Ret l
  | JObj d => Ret (map (λ kv, JStr kv.1) d)
  | JStr s => Ret (map (λ c, JStr [c]) s)
  | _ => Raise TypeError
  end.
(** [v or {}] *)
Definition or_empty (v : json) : json := jor v (JObj []).

Fixpoint mapO {A B} (f : A → outcome B) (l : list A) : outcome (list B) :=
  match l with
  | [] => Ret []
  | a :: l' => b ← f a; bs ← mapO f l'; Ret (b :: bs)
  end.

Lemma bind_Ret {A B} (r : outcome A) (f : A → outcome B) b :
  (r ≫= f) = Ret b ↔ ∃ a, r = Ret a ∧ f a = Ret b.
Proof. destruct r as [a|e]; unfold mbind, outcome_bind; naive_solver. Qed.

Lemma mapO_Ret {A B} (f : A → outcome B) l bs :
  mapO f l = Ret bs ↔ Forall2 (λ a b, f a = Ret b) l bs.
Proof.
  revert bs. induction l as [|a l IH]; intros bs; simpl.
  - split; [intros [= <-]; constructor | by inv 1].
  - rewrite bind_Ret. split.
    + intros (b & Hb & (bs' & Hbs%IH & [= <-])%bind_Ret). by constructor.
    + inv 1 as [|? b ? bs' Hb Hbs]. exists b. split; [done|].
      apply bind_Ret. exists bs'. by rewrite IH.
Qed.

(** Opens a successful sequence of fallible steps. *)
Ltac inv_Ret H :=
  repeat match type of H with
  | (_ ≫= _) = Ret _ =>
      let a := fresh "a" in let E := fresh "E" in
      apply bind_Ret in H as (a & E & H)
  end.

(** ** State and exceptions *)
Definition M (S A : Type) : Type := S → outcome A * S.

#[export] Instance M_ret S : MRet (M S) := λ A a s, (Ret a, s).
#[export] Instance M_bind S : MBind (M S) := λ A B f m s,
  match m s with (Ret a, s') => f a s' | (Raise e, s') => (Raise e, s') end.

Definition raise {S A} (e : exn) : M S A := λ s, (Raise e, s).
Definition gets {S A} (f : S → A) : M S A := λ s, (Ret (f s), s).
Definition modify {S} (f : S → S) : M S unit := λ s, (Ret tt, f s).
Definition lift {S A} (r : outcome A) : M S A := λ s, (r, s).

(** [try: m  except ...: h e]; [h e = None] lets the exception through. *)
Definition try_except {S A} (m : M S A) (h : exn → option (M S A)) : M S A := λ s,
  match m s with
  | (Ret a, s') => (Ret a, s')
  | (Raise e, s') => match h e with Some k => k s' | None => (Raise e, s') end
  end.

(** [try: m  finally: f] *)
Definition try_finally {S A} (m : M S A) (f : M S unit) : M S A := λ s,
  let '(r, s') := m s in
  match f s' with
  | (Ret _, s'') => (r, s'')
  | (Raise e, s'') => (Raise e, s'')
  end.

Fixpoint for_each {S A} (l : list A) (f : A → M S unit) : M S unit :=
  match l with
  | [] => mret tt
  | a :: l' => f a ;; for_each l' f
  end.

Definition when {S} (b : bool) (m : M S unit) : M S unit := if b then m else mret tt.

(** ** Hoare logic *)
Section hoare.
Context {S : Type}.
Implicit Types (P : S → Prop).

Definition triple {A} (P : S → Prop) (m : M S A) (Q : outcome A → S → Prop) : Prop :=
  ∀ s, P s → Q (m s).1 (m s).2.

Lemma triple_ret {A} P (a : A) (Q : outcome A → S → Prop) :
  (∀ s, P s → Q (Ret a) s) → triple P (mret a) Q.
Proof. intros HQ s HP. by apply HQ. Qed.

Lemma triple_raise {A} P e (Q : outcome A → S → Prop) :
  (∀ s, P s → Q (Raise e) s) → triple P (raise e) Q.
Proof. intros HQ s HP. by apply HQ. Qed.

Lemma triple_bind {A B} P R (m : M S A) (f : A → M S B) (Q : outcome B → S → Prop) :
  triple P m (λ r s, match r with Ret a => R a s | Raise e => Q (Raise e) s end) →
  (∀ a, triple (R a) (f a) Q) → triple P (m ≫= f) Q.
Proof.
  intros Hm Hf s HP. specialize (Hm s HP). unfold mbind, M_bind.
  destruct (m s) as [[a|e] s']; simpl in *; [by apply Hf | done].
Qed.

Lemma triple_conseq {A} (P P' : S → Prop) (m : M S A) (Q Q' : outcome A → S → Prop) :
  triple P' m Q' → (∀ s, P s → P' s) → (∀ r s, Q' r s → Q r s) → triple P m Q.
Proof. intros Hm HP HQ s Hs. apply HQ, Hm, HP, Hs. Qed.

Lemma triple_try {A} P (m : M S A) h R (Q : outcome A → S → Prop) :
  triple P m R →
  (∀ a s, R (Ret a) s → Q (Ret a) s) →
  (∀ e, h e = None → ∀ s, R (Raise e) s → Q (Raise e) s) →
  (∀ e k, h e = Some k → triple (R (Raise e)) k Q) →
  triple P (try_except m h) Q.
Proof.
  intros Hm Hret Hno Hsome s HP. specialize (Hm s HP). unfold try_except.
  destruct (m s) as [[a|e] s']; simpl in *; [by apply Hret|].
  destruct (h e) as [k|] eqn:E; simpl; [by eapply Hsome | by apply Hno].
Qed.

Lemma triple_finally {A} P (m : M S A) f R (Q : outcome A → S → Prop) :
  triple P m R →
  (∀ r, triple (R r) f (λ r' s, match r' with Ret _ => Q r s | Raise e => Q (Raise e) s end)) →
  triple P (try_finally m f) Q.
Proof.
  intros Hm Hf s HP. specialize (Hm s HP). unfold try_finally.
  destruct (m s) as [r s']; simpl in *. specialize (Hf r s' Hm).
  destruct (f s') as [[?|?] s'']; simpl in *; done.
Qed.

(** A relation that every run of [m] stays within, however it ends. *)
Definition stepwise {A} (R : S → S → Prop) (m : M S A) : Prop := ∀ s, R s (m s).2.

Context (R : S → S → Prop) `{!PreOrder R}.

Lemma stepwise_ret {A} (a : A) : stepwise R (mret a : M S A).
Proof using Type*. intros s. simpl. reflexivity. Qed.
Lemma stepwise_raise {A} e : stepwise R (raise e : M S A).
Proof using Type*. intros s. simpl. reflexivity. Qed.
Lemma stepwise_lift {A} (r : outcome A) : stepwise R (lift r).
Proof using Type*. intros s. simpl. reflexivity. Qed.
Lemma stepwise_gets {A} (f : S → A) : stepwise R (gets f).
Proof using Type*. intros s. simpl. reflexivity. Qed.

Lemma stepwise_bind {A B} (m : M S A) (f : A → M S B) :
  stepwise R m → (∀ a, stepwise R (f a)) → stepwise R (m ≫= f).
Proof using Type*.
  intros Hm Hf s. specialize (Hm s). unfold mbind, M_bind.
  destruct (m s) as [[a|e] s']; simpl in *; [|done]. etrans; [done | apply Hf].
Qed.

Lemma stepwise_try {A} (m : M S A) h :
  stepwise R m → (∀ e k, h e = Some k → stepwise R k) → stepwise R (try_except m h).
Proof using Type*.
  intros Hm Hh s. specialize (Hm s). unfold try_except.
  destruct (m s) as [[a|e] s']; simpl in *; [done|].
  destruct (h e) as [k|] eqn:E; [|done]. etrans; [done | by eapply Hh].
Qed.

Lemma stepwise_finally {A} (m : M S A) f :
  stepwise R m → stepwise R f → stepwise R (try_finally m f).
Proof using Type*.
  intros Hm Hf s. specialize (Hm s). unfold try_finally.
  destruct (m s) as [r s']. specialize (Hf s'). simpl in *.
  destruct (f s') as [[?|?] s'']; simpl in *; by etrans.
Qed.

Lemma stepwise_for {A} (l : list A) f :
  (∀ a, stepwise R (f a)) → stepwise R (for_each l f).
Proof using Type*.
  intros Hf. induction l as [|a l IH]; simpl; [apply stepwise_ret|].
  apply stepwise_bind; auto.
Qed.

Lemma stepwise_when b m : stepwise R m → stepwise R (when b m).
Proof using Type*. destruct b; simpl; [done | intros; apply stepwise_ret]. Qed.
End hoare.

(** Follows the structure of a computation; [base] is for what has none. *)
Ltac stepwise_go base :=
  lazymatch goal with
  | |- stepwise _ (_ ≫= _) => apply stepwise_bind; [apply _|stepwise_go base|intros ?; stepwise_go base]
  | |- stepwise _ (when _ _) => apply stepwise_when; [apply _|stepwise_go base]
  | |- stepwise _ (if ?b then _ else _) => destruct b; stepwise_go base
  | |- stepwise _ (mret _) => apply stepwise_ret, _
  | |- stepwise _ (raise _) => apply stepwise_raise, _
  | |- stepwise _ (lift _) => apply stepwise_lift, _
  | |- stepwise _ (gets _) => apply stepwise_gets, _
  | |- stepwise _ (try_finally _ _) => apply stepwise_finally; [apply _|stepwise_go base|stepwise_go base]
  | |- stepwise _ (try_except _ _) =>
      apply stepwise_try; [apply _|stepwise_go base|intros e k He; destruct e; try discriminate He; injection He as <-; stepwise_go base]
  | |- stepwise _ (match ?x with _ => _ end) => destruct x; stepwise_go base
  | _ => first [solve [base]|auto]
  end.

(** ** Bounded loops that are never cut short *)

Definition in_bounds {A} (r : outcome A) : Prop := r ≠ Raise OutOfFuel.

Lemma in_bounds_bind {A B} (r : outcome A) (f : A → outcome B) :
  in_bounds r → (∀ a, in_bounds (f a)) → in_bounds (r ≫= f).
Proof. intros Hr Hf. destruct r as [a|e]; [apply Hf|]. intros [= ->]. by apply Hr. Qed.
Lemma in_bounds_mapO {A B} (f : A → outcome B) l : (∀ a, in_bounds (f a)) → in_bounds (mapO f l).
Proof.
  intros Hf. induction l as [|a l IH]; [done|]. simpl.
  apply in_bounds_bind; [done|]. intros b. by apply in_bounds_bind.
Qed.
Lemma in_bounds_ret {A} (a : A) : in_bounds (Ret a). Proof. done. Qed.
Lemma in_bounds_need_dict v : in_bounds (need_dict v). Proof. by destruct v. Qed.
Lemma in_bounds_iter v : in_bounds (iter_json v). Proof. by destruct v. Qed.

Definition halts {S A} (m : M S A) : Prop := ∀ s, (m s).1 ≠ Raise OutOfFuel.

Section halts.
Context {S : Type}.
Lemma halts_bind {A B} (m : M S A) (f : A → M S B) : halts m → (∀ a, halts (f a)) → halts (m ≫= f).
Proof.
  intros Hm Hf s. unfold mbind, M_bind. specialize (Hm s).
  destruct (m s) as [[a|e] s']; simpl in *; [apply Hf | by intros [= ->]].
Qed.
Lemma halts_try {A} (m : M S A) h :
  halts m → (∀ e k, h e = Some k → halts k) → halts (try_except m h).
Proof.
  intros Hm Hh s. unfold try_except. specialize (Hm s).
  destruct (m s) as [[a|e] s']; simpl in *; [done|].
  destruct (h e) as [k|] eqn:E; [by eapply Hh | by intros [= ->]].
Qed.
Lemma halts_finally {A} (m : M S A) f : halts m → halts f → halts (try_finally m f).
Proof.
  intros Hm Hf s. unfold try_finally. specialize (Hm s). destruct (m s) as [r s'].
  specialize (Hf s'). destruct (f s') as [[|e] s'']; simpl in *; [done | by intros [= ->]].
Qed.
Lemma halts_for {A} (l : list A) (f : A → M S unit) : (∀ a, halts (f a)) → halts (for_each l f).
Proof. intros Hf. induction l; simpl; [done|]. by apply halts_bind. Qed.
Lemma halts_ret {A} (a : A) : halts (mret a : M S A).
Proof. by intros s. Qed.
Lemma halts_raise {A} e : e ≠ OutOfFuel → halts (raise e : M S A).
Proof. intros He s [=]. done. Qed.
Lemma halts_gets {A} (f : S → A) : halts (gets f).
Proof. by intros s. Qed.
Lemma halts_modify f : halts (modify f : M S unit).
Proof. by intros s. Qed.
Lemma halts_lift {A} (r : outcome A) : in_bounds r → halts (lift r : M S A).
Proof. by intros Hr s. Qed.
Lemma halts_when b (m : M S unit) : halts m → halts (when b m).
Proof. by destruct b. Qed.
End halts.

#[export] Hint Resolve in_bounds_ret in_bounds_need_dict in_bounds_iter : py.

(** Evaluation of monadic code on a concrete state. *)
Lemma M_bind_ret {S A B} (m : M S A) (f : A → M S B) s a s' :
  m s = (Ret a, s') → (m ≫= f) s = f a s'.
Proof. intros E. unfold mbind, M_bind. by rewrite E. Qed.

Lemma M_bind_raise {S A B} (m : M S A) (f : A → M S B) s e s' :
  m s = (Raise e, s') → (m ≫= f) s = (Raise e, s').
Proof. intros E. unfold mbind, M_bind. by rewrite E. Qed.

#[export] Hint Resolve stepwise_ret stepwise_raise stepwise_lift stepwise_gets
  stepwise_bind stepwise_try stepwise_finally stepwise_for stepwise_when : py.

Lemma M_bind_Ret {S A B} (m : M S A) (f : A → M S B) s b s' :
  (m ≫= f) s = (Ret b, s') ↔ ∃ a h, m s = (Ret a, h) ∧ f a h = (Ret b, s').
Proof.
  unfold mbind, M_bind. destruct (m s) as [[a|e] h]; split.
  - intros E. by exists a, h.
  - by intros (? & ? & [= <- <-] & E).
  - intros [=].
  - by intros (? & ? & [=] & _).
Qed.

(** ** What a computation adds to a log *)
Section writes.
Context {S E : Type} (log : S → list E).

(** [m] only adds to the log, in a way that [P] tells of what it added and how
    it ended. *)
Definition writes {A} (m : M S A) (P : list E → outcome A → Prop) : Prop :=
  ∀ s r s', m s = (r, s') → ∃ l, log s' = log s ++ l ∧ P l r.

Lemma writes_conseq {A} (m : M S A) P Q : writes m P → (∀ l r, P l r → Q l r) → writes m Q.
Proof. intros Hm HPQ s r s' E'. destruct (Hm s r s' E') as (l & H1 & H2). exists l. auto. Qed.
Lemma writes_ret {A} (a : A) (P : list E → outcome A → Prop) : P [] (Ret a) → writes (mret a) P.
Proof. intros HP s r s' [= <- <-]. exists []. by rewrite app_nil_r. Qed.
Lemma writes_raise {A} e (P : list E → outcome A → Prop) : P [] (Raise e) → writes (raise e) P.
Proof. intros HP s r s' [= <- <-]. exists []. by rewrite app_nil_r. Qed.
Lemma writes_gets {A} (f : S → A) (P : list E → outcome A → Prop) : (∀ a, P [] (Ret a)) → writes (gets f) P.
Proof. intros HP s r s' [= <- <-]. exists []. by rewrite app_nil_r. Qed.
(** The log so far is in front of what follows. *)
Lemma writes_bind {A B} (m : M S A) (k : A → M S B) P Q :
  writes m P → (∀ l e, P l (Raise e) → Q l (Raise e)) →
  (∀ l a, P l (Ret a) → writes (k a) (λ l', Q (l ++ l'))) → writes (m ≫= k) Q.
Proof.
  intros Hm He Hk s r s' E'. unfold mbind, M_bind in E'. destruct (m s) as [[a|e] s1] eqn:E1.
  - destruct (Hm _ _ _ E1) as (l1 & H1 & H2). destruct (Hk l1 a H2 _ _ _ E') as (l2 & H3 & H4).
    exists (l1 ++ l2). by rewrite H3, H1, app_assoc.
  - injection E' as <- <-. destruct (Hm _ _ _ E1) as (l1 & H1 & H2). exists l1. auto.
Qed.
Lemma writes_gets_bind {A B} (f : S → A) (k : A → M S B) Q : (∀ a, writes (k a) Q) → writes (gets f ≫= k) Q.
Proof. intros Hk. apply writes_bind with (λ l r, l = [] ∧ is_Ret r = true); [by apply writes_gets|by intros ? ? []|]. by intros l a [-> _]. Qed.
Lemma writes_try {A} (m : M S A) h P Q :
  writes m P → (∀ l a, P l (Ret a) → Q l (Ret a)) → (∀ l e, P l (Raise e) → h e = None → Q l (Raise e)) →
  (∀ l e k, P l (Raise e) → h e = Some k → writes k (λ l', Q (l ++ l'))) → writes (try_except m h) Q.
Proof.
  intros Hm Hr Hn Hk s r s' E'. unfold try_except in E'. destruct (m s) as [[a|e] s1] eqn:E1; destruct (Hm _ _ _ E1) as (l1 & H1 & H2).
  - injection E' as <- <-. exists l1. auto.
  - destruct (h e) as [k|] eqn:Eh; [|injection E' as <- <-; exists l1; auto].
    destruct (Hk l1 e k H2 Eh _ _ _ E') as (l2 & H3 & H4). exists (l1 ++ l2). by rewrite H3, H1, app_assoc.
Qed.
Lemma writes_finally {A} (m : M S A) f P Q :
  writes m P → (∀ l r, P l r → writes f (λ l' r', Q (l ++ l') match r' with Ret _ => r | Raise e => Raise e end)) →
  writes (try_finally m f) Q.
Proof.
  intros Hm Hf s r s' E'. unfold try_finally in E'. destruct (m s) as [r1 s1] eqn:E1. destruct (Hm _ _ _ E1) as (l1 & H1 & H2).
  destruct (f s1) as [r2 s2] eqn:E2. destruct (Hf l1 r1 H2 _ _ _ E2) as (l2 & H3 & H4).
  exists (l1 ++ l2). rewrite app_assoc, <- H1. by destruct r2; injection E' as <- <-.
Qed.
End writes.
