(* ===== verification/PyKeyed.v ===== *)
(** * Dictionaries keyed by JSON values

    Python dictionaries and sets whose keys are values read from JSON: equality
    of hashable values (numbers compare by value), [d.get(k)], [d[k] = v], and
    folds over fallible steps. *)

From Stdlib Require Import NArith ZArith QArith Lia.
From S2P Require Import Prelude PyStr PyJson PyMonad.
From stdpp Require Import options.
#[global] Open Scope nat_scope.
#[local] Open Scope py_scope.

Definition num_of (v : json) : option Q :=
  match v with
  | JBool b => Some (if b then 1 else 0)%Q
  | JInt z => Some (inject_Z z)
  | JFloat q => Some q
  | _ => None
  end.

(** [v == w] for hashable values *)
Definition key_eqb (v w : json) : bool :=
  match v, w with
  | JNull, JNull => true
  | JStr s, JStr t => s =? t
  | JNonFinite s, JNonFinite t => s =? t
  | _, _ => match num_of v, num_of w with Some a, Some b => Qeq_bool a b | _, _ => false end
  end.

(** [v == w] on any two values; dictionaries compare without order. *)
Fixpoint py_eqb (v w : json) {struct v} : bool :=
  match v, w with
  | JList l, JList m =>
      (fix go l m := match l, m with
        | [], [] => true
        | a :: l', b :: m' => py_eqb a b && go l' m'
        | _, _ => false
        end) l m
  | JObj d, JObj e =>
      (length d =? length e)%nat &&
      (fix all d := match d with
        | [] => true
        | (k, x) :: d' => match dget k e with Some y => py_eqb x y | None => false end && all d'
        end) d
  | _, _ => key_eqb v w
  end.

(** [hash(v)]: lists and dictionaries have none. *)
Definition hashable (v : json) : outcome json :=
  match v with JList _ | JObj _ => Raise TypeError | _ => Ret v end.

Fixpoint kget {V} (k : json) (d : list (json * V)) : option V :=
  match d with
  | [] => None
  | (k', v) :: d' => if key_eqb k k' then Some v else kget k d'
  end.

Fixpoint kset {V} (k : json) (v : V) (d : list (json * V)) : list (json * V) :=
  match d with
  | [] => [(k, v)]
  | (k', v') :: d' => if key_eqb k k' then (k', v) :: d' else (k', v') :: kset k v d'
  end.

Fixpoint foldO {A B} (f : B → A → outcome B) (b : B) (l : list A) : outcome B :=
  match l with
  | [] => Ret b
  | a :: l' => b' ← f b a; foldO f b' l'
  end.

(** ** Facts *)

Lemma foldO_app {A B} (f : B → A → outcome B) b l1 l2 :
  foldO f b (l1 ++ l2) = (b' ← foldO f b l1; foldO f b' l2).
Proof.
  revert b. induction l1 as [|a l1 IH]; intros b; simpl; [done|].
  unfold mbind, outcome_bind. destruct (f b a) as [b'|e]; [apply IH | done].
Qed.

Lemma key_eqb_sym v w : key_eqb v w = key_eqb w v.
Proof.
  destruct v, w; simpl; try done; try (apply bool_decide_ext; split; congruence);
    apply eq_true_iff_eq; rewrite !Qeq_bool_iff; split; intros E; by symmetry.
Qed.

Lemma key_eqb_trans a b c : key_eqb a b = true → key_eqb a c = key_eqb b c.
Proof.
  destruct a, b; simpl; try done; intros E;
    try (apply bool_decide_eq_true in E as ->; done);
    apply Qeq_bool_iff in E; destruct c; simpl; try done;
    apply eq_true_iff_eq; rewrite !Qeq_bool_iff; by rewrite E.
Qed.

Lemma kget_kset {V} k k' (v : V) d :
  kget k (kset k' v d) = if key_eqb k k' then Some v else kget k d.
Proof.
  induction d as [|[k0 v0] d IH]; simpl; [done|].
  destruct (key_eqb k' k0) eqn:E0; simpl.
  - rewrite (key_eqb_sym k k'), (key_eqb_trans _ _ _ E0), (key_eqb_sym k0 k).
    by destruct (key_eqb k k0).
  - rewrite IH. destruct (key_eqb k k0) eqn:E1; [|done].
    rewrite (key_eqb_sym k k'). destruct (key_eqb k' k) eqn:E2; [|done].
    rewrite (key_eqb_trans _ _ k0 E2) in E0. congruence.
Qed.

Lemma hashable_Ret k : is_Ret (hashable k) = true → hashable k = Ret k.
Proof. by destruct k. Qed.

