(* ===== verification/PyBytes.v ===== *)
(** * Bytes

    [bytes] as lists of numbers below 256: [decode] of UTF-8 (strict with
    surrogates, and with the replacement character), UTF-16 and UTF-32,
    [json.loads] of bytes with its encoding detection, and
    [base64.b64decode]. *)

From Stdlib Require Import NArith ZArith Lia.
From S2P Require Import Prelude PyStr PyJson PyDumps PyMonad.
From stdpp Require Import options.
#[global] Open Scope nat_scope.
#[local] Open Scope py_scope.

Abbreviation bytes := (list N).

(** Python's [repr] of JSON values and of bytes. *)
Class JsonRepr := {
  json_repr : json → pystr;
  bytes_repr : bytes → pystr }.

(** [str(v)], as in an f-string *)
Definition json_str `{JsonRepr} (v : json) : pystr := match v with JStr s => s | _ => json_repr v end.

(** ** UTF-8 *)

Definition cont (lo hi b : N) : bool := ((lo <=? b) && (b <=? hi))%N.

(** The range of the second byte and the number of continuation bytes;
    [surr] admits encoded surrogates. *)
Definition lead (surr : bool) (b : N) : option (N * N * nat) :=
  (if cont 194 223 b then Some (128, 191, 1%nat)
   else if b =? 224 then Some (160, 191, 2%nat)
   else if (b =? 237) && negb surr then Some (128, 159, 2%nat)
   else if cont 225 239 b then Some (128, 191, 2%nat)
   else if b =? 240 then Some (144, 191, 3%nat)
   else if cont 241 243 b then Some (128, 191, 3%nat)
   else if b =? 244 then Some (128, 143, 3%nat)
   else None)%N.

(** [k] more continuation bytes of the code point with bits [acc]: the code
    point, [None] when a byte is missing, and the bytes left. *)
Fixpoint continue_ (k : nat) (lo hi acc : N) (s : bytes) : option N * bytes :=
  match k with
  | O => (Some acc, s)
  | S k => match s with
           | b :: s' => if cont lo hi b then continue_ k 128 191 (acc * 64 + (b - 128))%N s'
                        else (None, s)
           | [] => (None, [])
           end
  end.

(** [on_error] is the replacement of an ill-formed prefix; [None] stops. *)
Fixpoint decode_utf8 (surr : bool) (on_error : option N) (fuel : nat) (s : bytes) : option pystr :=
  match fuel, s with
  | S f, b :: s' =>
      if (b <? 128)%N then r ← decode_utf8 surr on_error f s'; Some (b :: r)
      else match lead surr b with
           | None => e ← on_error; r ← decode_utf8 surr on_error f s'; Some (e :: r)
           | Some (lo, hi, k) =>
               let mask := match k with 1 => 32%N | 2 => 16%N | _ => 8%N end in
               let '(c, rest) := continue_ k lo hi (b mod mask)%N s' in
               e ← match c with Some c => Some c | None => on_error end;
               r ← decode_utf8 surr on_error f rest;
               Some (e :: r)
           end
  | _, _ => Some []
  end.

(** [b.decode("utf-8", errors="replace")] *)
Definition decode_replace (s : bytes) : pystr :=
  default [] (decode_utf8 false (Some 65533%N) (length s) s).

(** ** UTF-16 and UTF-32, lone surrogates passed *)

Definition word_of (be : bool) (l : bytes) : N :=
  fold_left (λ a b, a * 256 + b)%N (if be then l else reverse l) 0%N.

Fixpoint units (fuel n : nat) (be : bool) (s : bytes) : option (list N) :=
  match fuel, s with
  | _, [] => Some []
  | S f, _ => if (length s <? n)%nat then None
              else r ← units f n be (drop n s); Some (word_of be (take n s) :: r)
  | O, _ => None
  end.

Definition high (c : N) : bool := cont 55296 56319 c.
Definition low (c : N) : bool := cont 56320 57343 c.

Fixpoint utf16_units (l : list N) : pystr :=
  match l with
  | a :: ((b :: l') as r) =>
      if high a && low b then (65536 + (a - 55296) * 1024 + (b - 56320))%N :: utf16_units l'
      else a :: utf16_units r
  | l => l
  end.

Definition decode_utf16 (be : bool) (s : bytes) : option pystr :=
  utf16_units <$> units (length s) 2 be s.

Definition decode_utf32 (be : bool) (s : bytes) : option pystr :=
  l ← units (length s) 4 be s;
  if forallb (λ c, c <? 1114112)%N l then Some l else None.

(** ** [json.loads] of bytes *)

Definition nth0 (i : nat) (s : bytes) : bool := (nth i s 0 =? 0)%N.

(** [json.detect_encoding] and [decode(..., 'surrogatepass')]; [None] is
    [UnicodeDecodeError]. *)
Definition decode_detected (b : bytes) : option pystr :=
  let utf8 s := decode_utf8 true None (length s) s in
  if startswith [0; 0; 254; 255]%N b then decode_utf32 true (drop 4 b)
  else if startswith [255; 254; 0; 0]%N b then decode_utf32 false (drop 4 b)
  else if startswith [254; 255]%N b then decode_utf16 true (drop 2 b)
  else if startswith [255; 254]%N b then decode_utf16 false (drop 2 b)
  else if startswith [239; 187; 191]%N b then utf8 (drop 3 b)
  else if (4 <=? length b)%nat then
    if nth0 0 b then (if nth0 1 b then decode_utf32 true b else decode_utf16 true b)
    else if nth0 1 b then
      (if nth0 2 b && nth0 3 b then decode_utf32 false b else decode_utf16 false b)
    else utf8 b
  else if (length b =? 2)%nat && nth0 0 b then decode_utf16 true b
  else if (length b =? 2)%nat && nth0 1 b then decode_utf16 false b
  else utf8 b.

(** [json.loads(raw)]: the value, [JSONDecodeError] or [UnicodeDecodeError]
    (both [ValueError]s). *)
Inductive loaded := Loaded (v : json) | BadJson | BadUnicode.
Definition loads_bytes (b : bytes) : loaded :=
  match decode_detected b with
  | None => BadUnicode
  | Some s => match loads s with Some v => Loaded v | None => BadJson end
  end.

(** ** [base64.b64decode]: characters outside the alphabet are skipped, a
    complete padding ends the text; [None] is [binascii.Error]. *)

Definition b64_value (c : N) : option N :=
  (if cont 65 90 c then Some (c - 65) else if cont 97 122 c then Some (c - 71)
   else if cont 48 57 c then Some (c + 4) else if c =? 43 then Some 62
   else if c =? 47 then Some 63 else None)%N.

Fixpoint b64_go (quad pads : nat) (left : N) (s : pystr) : option bytes :=
  match s with
  | [] => if (quad =? 0)%nat then Some [] else None
  | c :: s' =>
      if (c =? 61)%N then
        if (2 <=? quad)%nat && (4 <=? quad + S pads)%nat then Some [] else b64_go quad (S pads) left s'
      else match b64_value c with
           | None => b64_go quad pads left s'
           | Some v =>
               match quad with
               | O => b64_go 1 0 v s'
               | 1 => r ← b64_go 2 0 (v mod 16) s'; Some ((left * 4 + v / 16)%N :: r)
               | 2 => r ← b64_go 3 0 (v mod 4) s'; Some ((left * 16 + v / 4)%N :: r)
               | _ => r ← b64_go 0 0 0 s'; Some ((left * 64 + v)%N :: r)
               end
           end
  end.

(** The text is encoded in ASCII first; [None] also stands for its failure. *)
Definition b64decode (s : pystr) : option bytes :=
  if forallb (λ c, c <? 128)%N s then b64_go 0 0 0 s else None.

(** ** Encoding *)

(** [s.encode("utf-8")]; a surrogate raises [UnicodeEncodeError]. *)
Definition encode_char (c : N) : outcome bytes :=
  (if c <? 128 then Ret [c]
   else if c <? 2048 then Ret [192 + c / 64; 128 + c mod 64]
   else if (55296 <=? c) && (c <=? 57343) then Raise (ValueError (u "surrogates not allowed"))
   else if c <? 65536 then Ret [224 + c / 4096; 128 + c / 64 mod 64; 128 + c mod 64]
   else Ret [240 + c / 262144; 128 + c / 4096 mod 64; 128 + c / 64 mod 64; 128 + c mod 64])%N.
Definition encode_utf8 (s : pystr) : outcome bytes := bs ← mapO encode_char s; Ret (concat bs).

(** [path.read_text()]: strict UTF-8, newlines translated *)
Definition decode_text (b : bytes) : outcome pystr :=
  match decode_utf8 false None (length b) b with
  | Some t => Ret (universal_newlines t)
  | None => Raise (ValueError (u "UnicodeDecodeError"))
  end.

(** ** UTF-8 round trip *)

#[local] Ltac div_lia := zify; Z.to_euclidean_division_equations; lia.

Lemma cont_true lo hi b : (lo <= b)%N → (b <= hi)%N → cont lo hi b = true.
Proof. intros. unfold cont. apply andb_true_iff. by rewrite !N.leb_le. Qed.
Lemma cont_false lo hi b : (b < lo)%N ∨ (hi < b)%N → cont lo hi b = false.
Proof. intros [?|?]; unfold cont; apply andb_false_iff; [left|right]; apply N.leb_gt; lia. Qed.

(** [k] continuation bytes give the bits of the code point back. *)
Lemma continue_next k lo hi acc x s :
  (x < 64)%N → (lo <= 128 + x)%N → (128 + x <= hi)%N →
  continue_ (S k) lo hi acc ((128 + x)%N :: s) = continue_ k 128 191 (acc * 64 + x)%N s.
Proof. intros Hx Hlo Hhi. cbn [continue_]. rewrite cont_true by lia. f_equal. lia. Qed.

Definition is_text (s : pystr) : Prop := Forall (λ c, c < 1114112)%N s.

Lemma decode_step c bs f rest :
  encode_char c = Ret bs → (c < 1114112)%N →
  decode_utf8 false None (S f) (bs ++ rest) = (r ← decode_utf8 false None f rest; Some (c :: r)).
Proof.
  unfold encode_char. intros Hc Hmax.
  destruct (c <? 128)%N eqn:E1; [|destruct (c <? 2048)%N eqn:E2; [|destruct (_ && _) eqn:E3; [done|
    destruct (c <? 65536)%N eqn:E4]]]; injection Hc as <-; cbn [app decode_utf8].
  - by rewrite E1.
  - apply N.ltb_ge in E1. apply N.ltb_lt in E2.
    assert ((192 + c / 64 <? 128)%N = false) as -> by (apply N.ltb_ge; div_lia).
    unfold lead. rewrite cont_true by div_lia. cbv beta iota zeta.
    rewrite continue_next by div_lia. cbn [continue_ mbind option_bind].
    replace ((192 + c / 64) mod 32 * 64 + c mod 64)%N with c by div_lia. done.
  - apply N.ltb_ge in E2. apply N.ltb_lt in E4. apply andb_false_iff in E3. rewrite !N.leb_gt in E3.
    assert ((224 + c / 4096 <? 128)%N = false) as -> by (apply N.ltb_ge; div_lia).
    assert (∃ lo hi, lead false (224 + c / 4096) = Some (lo, hi, 2) ∧
              (lo <= 128 + c / 64 mod 64)%N ∧ (128 + c / 64 mod 64 <= hi)%N) as (lo & hi & -> & Hlo & Hhi).
    { unfold lead. rewrite cont_false by div_lia.
      destruct (224 + c / 4096 =? 224)%N eqn:Ea; [apply N.eqb_eq in Ea; eexists _, _; split; [done|]; div_lia|].
      destruct (224 + c / 4096 =? 237)%N eqn:Eb; cbn [andb negb].
      + apply N.eqb_eq in Eb. eexists _, _. split; [done|]. div_lia.
      + apply N.eqb_neq in Ea, Eb. rewrite cont_true by div_lia. eexists _, _. split; [done|]. div_lia. }
    cbv beta iota zeta. rewrite continue_next by div_lia. rewrite continue_next by div_lia.
    cbn [continue_ mbind option_bind].
    replace (((224 + c / 4096) mod 16 * 64 + c / 64 mod 64) * 64 + c mod 64)%N with c by div_lia. done.
  - apply N.ltb_ge in E4.
    assert ((240 + c / 262144 <? 128)%N = false) as -> by (apply N.ltb_ge; div_lia).
    assert (∃ lo hi, lead false (240 + c / 262144) = Some (lo, hi, 3) ∧
              (lo <= 128 + c / 4096 mod 64)%N ∧ (128 + c / 4096 mod 64 <= hi)%N) as (lo & hi & -> & Hlo & Hhi).
    { assert (c / 262144 = 0 ∨ c / 262144 = 1 ∨ c / 262144 = 2 ∨ c / 262144 = 3 ∨ c / 262144 = 4)%N as Hq by div_lia.
      destruct Hq as [Hq|[Hq|[Hq|[Hq|Hq]]]]; rewrite Hq; eexists _, _; (split; [reflexivity|]); div_lia. }
    cbv beta iota zeta. rewrite continue_next by div_lia. do 2 (rewrite continue_next by div_lia).
    cbn [continue_ mbind option_bind].
    replace ((((240 + c / 262144) mod 8 * 64 + c / 4096 mod 64) * 64 + c / 64 mod 64) * 64 + c mod 64)%N
      with c by div_lia. done.
Qed.

Lemma encode_cons c t b :
  encode_utf8 (c :: t) = Ret b ↔ ∃ b1 b2, encode_char c = Ret b1 ∧ encode_utf8 t = Ret b2 ∧ b = b1 ++ b2.
Proof.
  unfold encode_utf8. cbn [mapO]. split.
  - intros Hb. inv_Ret Hb. inv_Ret E. injection E as <-. injection Hb as <-.
    exists a0, (concat a1). rewrite E1. done.
  - intros (b1 & b2 & -> & Hb & ->). inv_Ret Hb. injection Hb as <-. cbn [mbind outcome_bind]. by rewrite E.
Qed.

Lemma decode_encode t b f :
  encode_utf8 t = Ret b → is_text t → length b <= f → decode_utf8 false None f b = Some t.
Proof.
  intros Hb Ht. revert b f Hb. induction Ht as [|c t Hc _ IH]; intros b f Hb Hf.
  { injection Hb as <-. by destruct f. }
  apply encode_cons in Hb as (b1 & b2 & H1 & H2 & ->). rewrite length_app in Hf.
  assert (1 <= length b1) by (unfold encode_char in H1; repeat case_match; simplify_eq; simpl; lia).
  destruct f as [|f]; [lia|]. rewrite (decode_step c) by done. by rewrite (IH b2) by (done || lia).
Qed.

Lemma decode_text_encoded t b : encode_utf8 t = Ret b → is_text t → 13%N ∉ t → decode_text b = Ret t.
Proof.
  intros Hb Ht Hn. unfold decode_text. rewrite (decode_encode t) by done. by rewrite universal_newlines_id.
Qed.

(** Encoded surrogates only add to what decodes. *)
Lemma continue_wider k acc s c r :
  continue_ k 128 159 acc s = (Some c, r) → continue_ k 128 191 acc s = (Some c, r).
Proof.
  destruct k as [|k]; [done|]. destruct s as [|b s]; [done|]. cbn [continue_].
  destruct (cont 128 159 b) eqn:E; [|done]. unfold cont in E. apply andb_true_iff in E as [E1 E2].
  rewrite !N.leb_le in *. by rewrite cont_true by lia.
Qed.

Lemma decode_surrogatepass f s t : decode_utf8 false None f s = Some t → decode_utf8 true None f s = Some t.
Proof.
  revert s t. induction f as [|f IH]; intros s t; [done|]. destruct s as [|b s]; [done|]. cbn [decode_utf8].
  destruct (b <? 128)%N.
  { destruct (decode_utf8 false None f s) as [r|] eqn:Er; [|done]. by rewrite (IH _ _ Er). }
  assert (∀ lo hi k, lead false b = Some (lo, hi, k) →
            lead true b = Some (lo, hi, k) ∨ lo = 128%N ∧ hi = 159%N ∧ lead true b = Some (128, 191, k)%N) as Hlead.
  { intros lo hi k. unfold lead. destruct (cont 194 223 b); [naive_solver|].
    destruct (b =? 224)%N; [naive_solver|]. destruct (b =? 237)%N eqn:E; cbn [andb negb]; [|naive_solver].
    apply N.eqb_eq in E as ->. intros [= <- <- <-]. right. done. }
  destruct (lead false b) as [[[lo hi] k]|]; [|done]. specialize (Hlead lo hi k eq_refl).
  intros Hd. cbv zeta in *.
  destruct (continue_ k lo hi _ s) as [[c|] rest] eqn:Ec; [|done].
  cbn [mbind option_bind] in Hd. destruct (decode_utf8 false None f rest) as [r|] eqn:Er; [|done].
  destruct Hlead as [->|(-> & -> & ->)].
  - rewrite Ec. cbn [mbind option_bind]. by rewrite (IH _ _ Er).
  - apply continue_wider in Ec. rewrite Ec. cbn [mbind option_bind]. by rewrite (IH _ _ Er).
Qed.

Lemma encode_bytes t b :
  encode_utf8 t = Ret b → is_text t → 0%N ∉ t → Forall (λ x, 0 < x ∧ x < 245)%N b.
Proof.
  intros Hb Ht. revert b Hb. induction Ht as [|c t Hc _ IH]; intros b Hb H0; [injection Hb as <-; constructor|].
  apply encode_cons in Hb as (b1 & b2 & H1 & H2 & ->). apply Forall_app. split; [|apply IH; set_solver].
  assert (c ≠ 0%N) by set_solver. unfold encode_char in H1.
  repeat case_match; simplify_eq; py_bool; repeat constructor;
    try rewrite N.ltb_lt in *; try rewrite N.ltb_ge in *; div_lia.
Qed.

Lemma startswith_cons c p s : startswith (c :: p) s = true → ∃ s', s = c :: s' ∧ startswith p s' = true.
Proof.
  destruct s as [|d s']; [done|]. cbn [startswith]. intros [Hd Hs]%andb_true_iff.
  apply N.eqb_eq in Hd as ->. by exists s'.
Qed.

Lemma startswith_bad c p b : Forall (λ x, 0 < x ∧ x < 245)%N b → (c = 0 ∨ 245 <= c)%N → startswith (c :: p) b = false.
Proof.
  intros Hb Hc. apply not_true_iff_false. intros (s' & -> & _)%startswith_cons. inv Hb. lia.
Qed.

(** [json.loads] of a text sent as UTF-8 reads that text. *)
Lemma loads_bytes_encoded t b :
  encode_utf8 t = Ret b → is_text t → 0%N ∉ t → startswith [65279%N] t = false →
  loads_bytes b = match loads t with Some v => Loaded v | None => BadJson end.
Proof.
  intros Hb Ht H0 Hbom. pose proof (encode_bytes _ _ Hb Ht H0) as Hbytes.
  pose proof (decode_encode _ _ (length b) Hb Ht (le_n _)) as Hd.
  unfold loads_bytes. assert (decode_detected b = Some t) as ->; [|done].
  unfold decode_detected. rewrite !startswith_bad by (done || lia).
  assert (startswith [239; 187; 191]%N b = false) as ->.
  { apply not_true_iff_false. intros (b1 & -> & (b2 & -> & (b3 & -> & _)%startswith_cons)%startswith_cons)%startswith_cons.
    change (239 :: 187 :: 191 :: b3)%N with ([239; 187; 191]%N ++ b3) in Hd.
    cbn [length app] in Hd. rewrite (decode_step 65279 [239; 187; 191]%N _ b3) in Hd by done.
    destruct (decode_utf8 _ _ _ b3); [|done]. injection Hd as <-. by vm_compute in Hbom. }
  assert (∀ i, i < length b → nth0 i b = false) as Hn.
  { intros i Hi. unfold nth0. apply N.eqb_neq. intros Hz.
    rewrite Forall_forall in Hbytes. specialize (Hbytes (nth i b 0%N)).
    rewrite Hz in Hbytes. assert (0%N ∈ b) by (rewrite <- Hz; apply list_elem_of_In, nth_In; done).
    specialize (Hbytes ltac:(done)). lia. }
  apply decode_surrogatepass in Hd.
  destruct (4 <=? length b)%nat eqn:E4; py_bool.
  - by rewrite !Hn by lia.
  - destruct (length b =? 2)%nat eqn:E2; [apply Nat.eqb_eq in E2; by rewrite !Hn by lia|done].
Qed.

(** What UTF-8 can encode: no surrogates. *)
Definition encodable (s : pystr) : bool :=
  forallb (λ c, (c <? 1114112) && negb ((55296 <=? c) && (c <=? 57343)))%N s.
Lemma encodable_encodes s : encodable s = true → is_text s ∧ ∃ b, encode_utf8 s = Ret b.
Proof.
  induction s as [|c s IH]; [by split; [constructor|exists []]|]. unfold encodable. cbn [forallb].
  intros [[Hc Hs]%andb_true_iff Ht]%andb_true_iff. destruct (IH Ht) as [H1 [b Hb]].
  split; [constructor; [by apply N.ltb_lt|done]|]. apply negb_true_iff in Hs.
  assert (∃ b1, encode_char c = Ret b1) as [b1 Hb1] by (unfold encode_char; rewrite Hs; repeat case_match; by eexists).
  exists (b1 ++ b). apply encode_cons. by exists b1, b.
Qed.

(** What [json.dumps] writes is read back as it is. *)
Lemma text_encodes t : forallb text_char t = true → ∃ b, encode_utf8 t = Ret b ∧ decode_text b = Ret t.
Proof.
  intros Ht. assert (∀ c, c ∈ t → (c < 127)%N) as Hc.
  { intros c Hin. rewrite forallb_forall in Ht. specialize (Ht c ltac:(by apply list_elem_of_In)). unfold text_char in Ht.
    apply orb_true_iff in Ht as [->%N.eqb_eq|[_ ?%N.ltb_lt]%andb_true_iff]; [done|done]. }
  destruct (encodable_encodes t) as [Hx [b Hb]].
  { unfold encodable. apply forallb_forall. intros c Hin%list_elem_of_In. specialize (Hc c Hin).
    rewrite !andb_true_iff, ?negb_true_iff, ?andb_false_iff, ?N.ltb_lt, ?N.leb_gt. lia. }
  exists b. split; [done|]. apply decode_text_encoded; [done..|by apply text_no_cr].
Qed.

(** ** Text and its lines, encoded *)

(** [bytes.decode()] *)
Definition decode_strict (b : bytes) : outcome pystr :=
  match decode_utf8 false None (length b) b with Some t => Ret t | None => Raise (ValueError (u "UnicodeDecodeError")) end.

Lemma decode_lenient e f s t : decode_utf8 false None f s = Some t → decode_utf8 false (Some e) f s = Some t.
Proof.
  revert s t. induction f as [|f IH]; intros s t; [by destruct s|]. destruct s as [|b s]; [done|]. cbn [decode_utf8].
  destruct (b <? 128)%N.
  - destruct (decode_utf8 false None f s) as [r|] eqn:E; [|done]. by rewrite (IH _ _ E).
  - destruct (lead false b) as [[[lo hi] k]|]; [|done]. cbv zeta. destruct (continue_ _ _ _ _ _) as [[c|] rest]; [|done].
    cbn [mbind option_bind]. destruct (decode_utf8 false None f rest) as [r|] eqn:E; [|done]. by rewrite (IH _ _ E).
Qed.
Lemma decode_replace_encoded t b : encode_utf8 t = Ret b → is_text t → decode_replace b = t.
Proof. intros Hb Ht. unfold decode_replace. by rewrite (decode_lenient _ _ _ t) by by apply decode_encode. Qed.

Lemma encode_app a b x : encode_utf8 (a ++ b) = Ret x ↔ ∃ xa xb, encode_utf8 a = Ret xa ∧ encode_utf8 b = Ret xb ∧ x = xa ++ xb.
Proof.
  revert x. induction a as [|c a IH]; intros x; cbn [app].
  - split; [intros Hx; by exists [], x|]. by intros (xa & xb & [= <-] & Hb & ->).
  - rewrite encode_cons. split.
    + intros (b1 & b2 & H1 & (xa & xb & Ha & Hb & ->)%IH & ->). exists (b1 ++ xa), xb. rewrite <- app_assoc. split; [|done].
      apply encode_cons. by exists b1, xa.
    + intros (xa & xb & (b1 & b2 & H1 & H2 & ->)%encode_cons & Hb & ->). exists b1, (b2 ++ xb). rewrite <- app_assoc.
      split; [done|]. split; [|done]. apply IH. by exists b2, xb.
Qed.
Lemma encode_char_newline c b : encode_char c = Ret b → 10%N ∈ b → c = 10%N ∧ b = [10%N].
Proof.
  unfold encode_char. intros Hb. repeat case_match; simplify_eq; rewrite ?elem_of_cons, ?elem_of_nil; intros Hin; py_bool;
    destruct_or?; try done; try lia; subst; try (by split); exfalso;
    repeat match goal with H : (_ <? _)%N = _ |- _ => apply N.ltb_ge in H || apply N.ltb_lt in H end; div_lia.
Qed.
Lemma encode_newline t b : encode_utf8 t = Ret b → 10%N ∈ b → 10%N ∈ t.
Proof.
  revert b. induction t as [|c t IH]; intros b Hb; [by injection Hb as <-; intros Hn%elem_of_nil|].
  apply encode_cons in Hb as (x & y & Hx & Hy & ->). rewrite elem_of_app, elem_of_cons. intros [Hi|Hi]; [|right; by eapply IH].
  left. by destruct (encode_char_newline _ _ Hx Hi).
Qed.
Lemma encode_lines t b : encode_utf8 t = Ret b → Forall2 (λ l bl, encode_utf8 l = Ret bl) (split_char 10 t) (split_char 10 b).
Proof.
  remember (length t) as n eqn:En. revert t b En. induction (lt_wf n) as [n _ IH]. intros t b -> Hb.
  destruct (decide (10%N ∈ t)) as [Hin|Hin].
  - apply list_elem_of_split_l in Hin as (t1 & t2 & -> & Hn).
    apply encode_app in Hb as (b1 & b' & H1 & (b0 & b2 & [= <-] & H2 & ->)%encode_cons & ->).
    assert (10%N ∉ b1) as Hn1 by (intros Hi; by apply Hn, (encode_newline _ _ H1)).
    cbn [app]. rewrite !split_char_app by done. constructor; [done|]. apply (IH (length t2)); [rewrite length_app; simpl; lia|done..].
  - assert (10%N ∉ b) as Hn1 by (intros Hi; by apply Hin, (encode_newline _ _ Hb)).
    rewrite !split_char_one by done. by repeat constructor.
Qed.
