(* ===== verification/PySha.v ===== *)
(** * SHA-256

    [hashlib.sha256(b).hexdigest()].  The round constants and the initial state
    are the leading fractional bits of the cube and square roots of the first
    primes, computed here.  [hexdigest_shape] is what the callers rely on. *)

From Stdlib Require Import NArith Lia.
From S2P Require Import Prelude PyStr PyJson PyMonad PyBytes.
From stdpp Require Import options.
#[global] Open Scope nat_scope.
#[local] Open Scope py_scope.

Abbreviation word := N.
Definition w32 (x : N) : word := (x mod 2 ^ 32)%N.
Definition add32 (x y : word) : word := w32 (x + y).
Definition rotr (n : N) (x : word) : word :=
  N.lor (N.shiftr x n) (w32 (N.shiftl x (32 - n))).
Definition not32 (x : word) : word := N.lxor x (2 ^ 32 - 1).

(** ** Constants *)

Definition is_prime (n : N) : bool :=
  forallb (λ d, negb (n mod (N.of_nat d) =? 0)%N) (seq 2 (N.to_nat n - 2)).
Definition primes : list N := List.filter is_prime (map N.of_nat (seq 2 310)).

(** The largest [r] with [r ^ 3 <= n], one bit at a time. *)
Fixpoint cbrt_bits (k : nat) (r n : N) : N :=
  match k with
  | O => r
  | S k => let r' := (r + 2 ^ N.of_nat k)%N in cbrt_bits k (if (r' ^ 3 <=? n)%N then r' else r) n
  end.
Definition round_constants : list word :=
  Eval vm_compute in map (λ p, w32 (cbrt_bits 36 0 (p * 2 ^ 96)%N)) primes.
Definition initial_state : list word :=
  Eval vm_compute in map (λ p, w32 (N.sqrt (p * 2 ^ 64)%N)) (take 8 primes).

(** ** One block *)

Definition sig (a b c : N) (shift_last : bool) (x : word) : word :=
  N.lxor (rotr a x) (N.lxor (rotr b x) (if shift_last then N.shiftr x c else rotr c x)).

(** The schedule, latest word first. *)
Fixpoint expand (k : nat) (ws : list word) : list word :=
  match k with
  | O => ws
  | S k =>
      let at_ i := nth i ws 0%N in
      expand k (add32 (add32 (sig 17 19 10 true (at_ 1)) (at_ 6))
                      (add32 (sig 7 18 3 true (at_ 14)) (at_ 15)) :: ws)
  end.
Definition schedule (block : list word) : list word := reverse (expand 48 (reverse block)).

Record regs := Regs { ra : word; rb : word; rc : word; rd : word; re : word; rf : word; rg : word; rh : word }.

Definition round (s : regs) (kw : word * word) : regs :=
  let ch := N.lxor (N.land (re s) (rf s)) (N.land (not32 (re s)) (rg s)) in
  let maj := N.lxor (N.land (ra s) (rb s)) (N.lxor (N.land (ra s) (rc s)) (N.land (rb s) (rc s))) in
  let t1 := add32 (add32 (rh s) (sig 6 11 25 false (re s))) (add32 ch (add32 kw.1 kw.2)) in
  let t2 := add32 (sig 2 13 22 false (ra s)) maj in
  Regs (add32 t1 t2) (ra s) (rb s) (rc s) (add32 (rd s) t1) (re s) (rf s) (rg s).

Definition regs_of (l : list word) : regs :=
  let at_ i := nth i l 0%N in Regs (at_ 0) (at_ 1) (at_ 2) (at_ 3) (at_ 4) (at_ 5) (at_ 6) (at_ 7).
Definition words (s : regs) : list word := [ra s; rb s; rc s; rd s; re s; rf s; rg s; rh s].

Definition compress (h : list word) (block : list word) : list word :=
  let s := foldl round (regs_of h) (zip round_constants (schedule block)) in
  zip_with add32 h (words s).

(** ** The message *)

Definition be_bytes (n : nat) (x : N) : bytes :=
  reverse (map (λ i, (x / 2 ^ (8 * N.of_nat i) mod 256)%N) (seq 0 n)).
Definition pad (m : bytes) : bytes :=
  m ++ [128%N] ++ repeat 0%N ((119 - length m mod 64) mod 64) ++ be_bytes 8 (N.of_nat (8 * length m)).

Fixpoint chunks {A} (fuel n : nat) (l : list A) : list (list A) :=
  match fuel, l with
  | S f, _ :: _ => take n l :: chunks f n (drop n l)
  | _, _ => []
  end.
Definition be_word (l : bytes) : word := fold_left (λ a b, a * 256 + b)%N l 0%N.
Definition blocks (m : bytes) : list (list word) :=
  map (λ b, map be_word (chunks (length b) 4 b)) (chunks (length m) 64 m).

Definition sha256 (m : bytes) : list word := foldl compress initial_state (blocks (pad m)).

Definition hex_word (x : word) : pystr :=
  map (λ i, hex_digit (x / 16 ^ (7 - N.of_nat i) mod 16)%N) (seq 0 8).
Definition hexdigest (m : bytes) : pystr := concat (map hex_word (sha256 m)).

Example sha256_abc :
  hexdigest (u "abc") = u "ba7816bf8f01cfea414140de5dae2223b00361a396177a9cb410ff61f20015ad".
Proof. by vm_compute. Qed.
Example sha256_empty :
  hexdigest [] = u "e3b0c44298fc1c149afbf4c8996fb92427ae41e4649b934ca495991b7852b855".
Proof. by vm_compute. Qed.

(** ** Shape of the digest *)

Definition is_hex (c : N) : bool := is_digit c || (97 <=? c)%N && (c <=? 102)%N.

Lemma compress_length h b : length h = 8 → length (compress h b) = 8.
Proof. intros Hh. unfold compress. by rewrite length_zip_with, Hh. Qed.

Lemma sha256_length m : length (sha256 m) = 8.
Proof.
  unfold sha256. assert (length initial_state = 8) as Hi by done. revert Hi.
  generalize initial_state. induction (blocks (pad m)) as [|b bs IH]; intros h Hh; [done|].
  cbn [foldl]. by apply IH, compress_length.
Qed.

Lemma hex_digit_hex n : (n < 16)%N → is_hex (hex_digit n) = true.
Proof.
  intros Hn. unfold is_hex, hex_digit, is_digit.
  destruct (n <? 10)%N eqn:E; [apply N.ltb_lt in E|apply N.ltb_ge in E];
    [apply orb_true_intro; left|apply orb_true_intro; right]; apply andb_true_intro; split; apply N.leb_le; lia.
Qed.

Lemma hex_word_hex x : Forall (λ c, is_hex c = true) (hex_word x).
Proof.
  apply Forall_forall. intros c Hc. unfold hex_word in Hc.
  apply list_elem_of_In, in_map_iff in Hc as (i & <- & _).
  apply hex_digit_hex, N.mod_lt. lia.
Qed.

Lemma hexdigest_shape m : length (hexdigest m) = 64 ∧ Forall (λ c, is_hex c = true) (hexdigest m).
Proof.
  unfold hexdigest. pose proof (sha256_length m) as Hl. revert Hl. generalize (sha256 m) as ws.
  intros ws Hl. split.
  - assert (∀ l, length (concat (map hex_word l)) = 8 * length l) as ->; [|by rewrite Hl].
    induction l as [|w l IH]; [done|]. cbn [map concat]. rewrite length_app, IH.
    unfold hex_word. rewrite length_map, length_seq. cbn [length]. lia.
  - clear Hl. induction ws as [|w ws IH]; cbn [map concat]; [constructor|].
    apply Forall_app. split; [apply hex_word_hex|done].
Qed.
