(* ===== verification/PyRegex.v ===== *)
(** * Regular expressions

    The part of [re] the program's patterns use: literals, character classes,
    sequences, alternatives, greedy repetition of a class and the word
    boundary.  A match is the list of ways to consume a prefix, in the order in
    which the backtracking matcher tries them; [ignore_case] is the engine's
    IGNORECASE. *)

From Stdlib Require Import NArith Lia.
From S2P Require Import Prelude PyStr.
From stdpp Require Import options.
#[global] Open Scope nat_scope.
#[local] Open Scope py_scope.

(** Case folding of [re.IGNORECASE] onto the letters the patterns use: ASCII
    capitals, and the non-ASCII characters equivalent to [i], [k] and [s]. *)
Definition fold_char (c : N) : N :=
  (if is_upper c then c + 32
   else if (c =? 304) || (c =? 305) then 105
   else if c =? 8490 then 107 else if c =? 383 then 115 else c)%N.

Inductive re :=
  | RLit (s : pystr)
  | RClass (p : N → bool)
  | RStar (p : N → bool)  (** greedy *)
  | RBoundary
  | RSeq (a b : re)
  | RAlt (a b : re).

(** A position: the character before it and the text after it. *)
Definition position : Type := option N * pystr.

Section matching.
Context `{UnicodeDB} (ignore_case : bool).

Definition same (c d : N) : bool := if ignore_case then (fold_char c =? fold_char d)%N else (c =? d)%N.

Fixpoint lit (s : pystr) (p : position) : option position :=
  match s with
  | [] => Some p
  | c :: s' => match p.2 with
               | d :: t => if same c d then lit s' (Some d, t) else None
               | [] => None
               end
  end.

Fixpoint star (p : N → bool) (prev : option N) (s : pystr) : list position :=
  match s with
  | c :: s' => if p c then star p (Some c) s' ++ [(prev, s)] else [(prev, s)]
  | [] => [(prev, [])]
  end.

Definition at_word (c : option N) : bool := match c with Some c => is_word c | None => false end.

Fixpoint match_re (r : re) (p : position) : list position :=
  match r with
  | RLit s => match lit s p with Some q => [q] | None => [] end
  | RClass f => match p.2 with c :: t => if f c then [(Some c, t)] else [] | [] => [] end
  | RStar f => star f p.1 p.2
  | RBoundary => if xorb (at_word p.1) (at_word (head p.2)) then [p] else []
  | RSeq a b => concat (map (match_re b) (match_re a p))
  | RAlt a b => match_re a p ++ match_re b p
  end.

(** [re.search] finds a match. *)
Fixpoint search (r : re) (prev : option N) (s : pystr) : bool :=
  (match match_re r (prev, s) with [] => false | _ => true end)
  || match s with c :: s' => search r (Some c) s' | [] => false end.

(** [re.finditer]: the matched texts and the offsets where they end. *)
Fixpoint finditer (fuel : nat) (r : re) (prev : option N) (offset : nat) (s : pystr)
    : list (pystr * nat) :=
  match fuel, s with
  | S f, c :: s' =>
      match match_re r (prev, s) with
      | (prev', rest) :: _ =>
          let n := length s - length rest in
          if (n =? 0)%nat then finditer f r (Some c) (S offset) s'
          else (take n s, offset + n) :: finditer f r prev' (offset + n) rest
      | [] => finditer f r (Some c) (S offset) s'
      end
  | _, _ => []
  end.
End matching.

Definition any_space : N → bool := is_space.
Definition non_space (c : N) : bool := negb (is_space c).
(** [.] *)
Definition dot (c : N) : bool := (c <>? nl).
Definition RPlus (p : N → bool) : re := RSeq (RClass p) (RStar p).

Fixpoint RSeqs (l : list re) : re :=
  match l with
  | [] => RLit []
  | [r] => r
  | r :: l' => RSeq r (RSeqs l')
  end.
Fixpoint RAlts (l : list re) : re :=
  match l with
  | [] => RClass (λ _, false)
  | [r] => r
  | r :: l' => RAlt r (RAlts l')
  end.

(** ** Facts *)
Section facts.
Context `{UnicodeDB} (ic : bool).

Lemma lit_suffix s p q : lit ic s p = Some q → ∃ k, p.2 = k ++ q.2.
Proof.
  revert p. induction s as [|c s IH]; intros p; simpl; [intros [= <-]; by exists []|].
  destruct (p.2) as [|d t] eqn:E; [done|]. destruct (same ic c d); [|done].
  intros [k Hk]%IH. simpl in Hk. exists (d :: k). by rewrite Hk.
Qed.

Lemma star_suffix f prev s q : q ∈ star f prev s → ∃ k, s = k ++ q.2.
Proof.
  revert prev. induction s as [|c s IH]; intros prev; simpl.
  - intros ->%list_elem_of_singleton. by exists [].
  - destruct (f c).
    + intros [Hin| ->%list_elem_of_singleton]%elem_of_app; [|by exists []].
      destruct (IH _ Hin) as [k Hk]. exists (c :: k). by rewrite Hk at 1.
    + intros ->%list_elem_of_singleton. by exists [].
Qed.

(** A match consumes a prefix of the text. *)
Lemma match_re_suffix r p q : q ∈ match_re ic r p → ∃ k, p.2 = k ++ q.2.
Proof.
  revert p q. induction r as [s|f|f| |a IHa b IHb|a IHa b IHb]; intros p q; simpl.
  - destruct (lit ic s p) as [q'|] eqn:E; [|by intros ?%elem_of_nil].
    intros ->%list_elem_of_singleton. by eapply lit_suffix.
  - destruct (p.2) as [|c t]; [by intros ?%elem_of_nil|]. destruct (f c); [|by intros ?%elem_of_nil].
    intros ->%list_elem_of_singleton. by exists [c].
  - apply star_suffix.
  - case_match; [|by intros ?%elem_of_nil]. intros ->%list_elem_of_singleton. by exists [].
  - intros Hin. apply list_elem_of_In, in_concat in Hin as (l & Hl & Hin).
    apply in_map_iff in Hl as (m & <- & Hm). apply list_elem_of_In in Hm, Hin.
    destruct (IHa _ _ Hm) as [k1 E1]. destruct (IHb _ _ Hin) as [k2 E2].
    exists (k1 ++ k2). by rewrite E1, E2, app_assoc.
  - intros [Hin|Hin]%elem_of_app; [by eapply IHa | by eapply IHb].
Qed.

(** A match found stands in the text, ending where it says. *)
Lemma finditer_spec fuel r prev off s m :
  m ∈ finditer ic fuel r prev off s →
  ∃ a b, s = a ++ m.1 ++ b ∧ m.2 = off + length a + length m.1.
Proof.
  revert prev off s. induction fuel as [|f IH]; intros prev off s; simpl; [by intros ?%elem_of_nil|].
  destruct s as [|c s]; [by intros ?%elem_of_nil|].
  assert (∀ prev off, m ∈ finditer ic f r prev (S off) s →
    ∃ a b, c :: s = a ++ m.1 ++ b ∧ m.2 = off + length a + length m.1) as Hskip.
  { intros prev' off' Hin. destruct (IH _ _ _ Hin) as (a & b & -> & ->).
    exists (c :: a), b. split; [done|]. simpl. lia. }
  destruct (match_re ic r (prev, c :: s)) as [|[prev' rest] l] eqn:Em; [apply Hskip|].
  destruct (match_re_suffix r (prev, c :: s) (prev', rest)) as [k Hk]; [rewrite Em; left|].
  cbn [fst snd] in Hk. rewrite Hk. rewrite length_app.
  replace (length k + length rest - length rest) with (length k) by lia.
  rewrite take_app_length.
  destruct (length k =? 0)%nat eqn:En; [rewrite <- Hk; apply Hskip|].
  intros [->|Hin]%elem_of_cons.
  - exists [], rest. split; [done|]. simpl. lia.
  - destruct (IH _ _ _ Hin) as (a & b & -> & ->). exists (k ++ a), b.
    rewrite !app_assoc, length_app. split; [done|]. lia.
Qed.
End facts.

(** ** Matching up to a character *)
Section texts.
Context `{UnicodeDB}.

(** An expression that looks at what it consumes only. *)
Fixpoint plain (r : re) : bool :=
  match r with RBoundary => false | RSeq a b | RAlt a b => plain a && plain b | _ => true end.
(** An expression that never consumes [d]. *)
Fixpoint avoids (ic : bool) (d : N) (r : re) : bool :=
  match r with
  | RLit s => forallb (λ c, negb (same ic c d)) s
  | RClass f | RStar f => negb (f d)
  | RBoundary => false
  | RSeq a b | RAlt a b => avoids ic d a && avoids ic d b
  end.
Definition texts (ic : bool) (r : re) (s : pystr) : list pystr := map snd (match_re ic r (None, s)).

Lemma lit_text ic l : ∀ p p' s, option_map snd (lit ic l (p, s)) = option_map snd (lit ic l (p', s)).
Proof. induction l as [|c l IH]; intros p p' s; [done|]. simpl. destruct s as [|d s]; [done|]. by destruct (same ic c d). Qed.
Lemma star_text f s : ∀ p p', map snd (star f p s) = map snd (star f p' s).
Proof. induction s as [|c s IH]; intros p p'; simpl; [done|]. destruct (f c); [by rewrite !map_app|done]. Qed.
Lemma match_text ic r : plain r = true → ∀ p p' s, map snd (match_re ic r (p, s)) = map snd (match_re ic r (p', s)).
Proof.
  induction r as [l|f|f| |a IHa b IHb|a IHa b IHb]; intros Hp p p' s; cbn [match_re plain fst snd] in *; try done.
  - pose proof (lit_text ic l p p' s). destruct (lit ic l (p, s)), (lit ic l (p', s)); simpl in *; congruence.
  - apply star_text.
  - apply andb_true_iff in Hp as [Ha Hb]. specialize (IHa Ha p p' s). revert IHa. generalize (match_re ic a (p', s)) as l'.
    generalize (match_re ic a (p, s)) as l. induction l as [|[q t] l IH]; intros [|[q' t'] l'] E; simpl in *; try done.
    injection E as -> E. rewrite !map_app. f_equal; [by apply IHb|by apply IH].
  - apply andb_true_iff in Hp as [Ha Hb]. rewrite !map_app. f_equal; [by apply IHa|by apply IHb].
Qed.
Lemma texts_prev ic r p s : plain r = true → map snd (match_re ic r (p, s)) = texts ic r s.
Proof. intros Hp. by apply match_text. Qed.
Lemma texts_seq ic a b s : plain b = true → texts ic (RSeq a b) s = concat (map (texts ic b) (texts ic a s)).
Proof.
  intros Hb. unfold texts at 1 3. cbn [match_re]. rewrite concat_map, !map_map. f_equal. apply map_ext. intros [p t]. by apply texts_prev.
Qed.

(** What such an expression consumes stops before the first [d]. *)
Lemma lit_stop ic d l b : forallb (λ c, negb (same ic c d)) l = true →
  ∀ p s, option_map snd (lit ic l (p, s ++ d :: b)) = option_map (λ q, q.2 ++ d :: b) (lit ic l (p, s)).
Proof.
  induction l as [|c l IH]; intros Ha p s; [done|]. simpl in *. apply andb_true_iff in Ha as [Hc Ha]. destruct s as [|e s]; simpl.
  - by destruct (same ic c d).
  - destruct (same ic c e); [by apply IH|done].
Qed.
Lemma texts_stop ic d r : avoids ic d r = true → plain r = true →
  ∀ s b, texts ic r (s ++ d :: b) = map (λ t, t ++ d :: b) (texts ic r s).
Proof.
  induction r as [l|f|f| |r1 IH1 r2 IH2|r1 IH1 r2 IH2]; intros Ha Hp s b; cbn [avoids plain] in *; try done.
  - unfold texts. cbn [match_re]. pose proof (lit_stop ic d l b Ha None s) as E.
    destruct (lit ic l (None, s ++ d :: b)), (lit ic l (None, s)); simpl in *; congruence.
  - unfold texts. cbn [match_re snd]. destruct s as [|c s]; simpl; [by destruct (f d)|]. by destruct (f c).
  - unfold texts. cbn [match_re fst snd]. generalize (@None N) as p. induction s as [|c s IH]; intros p; simpl.
    + by destruct (f d).
    + destruct (f c); [|done]. rewrite !map_app. simpl. rewrite IH. done.
  - apply andb_true_iff in Ha as [Ha1 Ha2], Hp as [Hp1 Hp2]. rewrite !texts_seq by done. rewrite IH1 by done.
    rewrite map_map, concat_map, map_map. f_equal. apply map_ext. intros t. by apply IH2.
  - apply andb_true_iff in Ha as [Ha1 Ha2], Hp as [Hp1 Hp2]. specialize (IH1 Ha1 Hp1 s b). specialize (IH2 Ha2 Hp2 s b).
    unfold texts in *. cbn [match_re]. rewrite !map_app. by f_equal.
Qed.
End texts.
