(* ===== verification/PyUrl.v ===== *)
(** * URLs

    [urllib.parse]: the path and query of [urlparse], [unquote] and [parse_qs]
    with [keep_blank_values=True].  The validation of a network location that
    is bracketed or not ASCII consults Unicode and IP address tables:
    [NetlocCheck]. *)

From Stdlib Require Import NArith ZArith Lia.
From S2P Require Import Prelude PyStr PyJson PyMonad PyBytes.
From stdpp Require Import options.
#[global] Open Scope nat_scope.
#[local] Open Scope py_scope.

(** Raises [ValueError] on an invalid network location. *)
Class NetlocCheck := { check_netloc : pystr → outcome unit }.

(** ** unquote *)

(** [unquote_to_bytes] of an ASCII string *)
Fixpoint unquote_to_bytes (s : pystr) : bytes :=
  match s with
  | [] => []
  | c :: s' =>
      match (c =? 37)%N, s' with
      | true, a :: b :: s'' =>
          match Loads.hex_val a, Loads.hex_val b with
          | Some x, Some y => (16 * x + y)%N :: unquote_to_bytes s''
          | _, _ => c :: unquote_to_bytes s'
          end
      | _, _ => c :: unquote_to_bytes s'
      end
  end.

(** Maximal runs of ASCII characters are decoded, the rest is kept. *)
Fixpoint unquote_runs (run s : pystr) : pystr :=
  match s with
  | [] => decode_replace (unquote_to_bytes (reverse run))
  | c :: s' =>
      if (c <? 128)%N then unquote_runs (c :: run) s'
      else decode_replace (unquote_to_bytes (reverse run)) ++ c :: unquote_runs [] s'
  end.
Definition unquote (s : pystr) : pystr := if 37%N ∈? s then unquote_runs [] s else s.

(** ** parse_qs *)

Definition qs_text (s : pystr) : pystr := unquote (replace_char 43 (u " ") s).
Definition qs_pair (name_value : pystr) : option (pystr * pystr) :=
  if name_value =? [] then None
  else let '(n, _, v) := partition_char 61 name_value in Some (qs_text n, qs_text v).
Definition parse_qsl (qs : pystr) : list (pystr * pystr) := omap qs_pair (split_char 38 qs).
(** [parse_qs(qs, keep_blank_values=True).get(key, [])] *)
Definition qs_values (key qs : pystr) : list pystr :=
  map snd (List.filter (λ p, p.1 =? key) (parse_qsl qs)).

(** ** urlparse *)

Definition is_scheme_char (c : N) : bool := is_letter c || is_digit c || (c ∈? u "+-.").
(** Control characters and spaces are stripped from the left, tabs and
    newlines are removed. *)
Fixpoint strip_control (s : pystr) : pystr :=
  match s with c :: s' => if (c <=? 32)%N then strip_control s' else s | [] => [] end.
Definition clean_url (s : pystr) : pystr :=
  List.filter (λ c, negb (c ∈? [9; 10; 13]%N)) (strip_control s).

Definition split_scheme (url : pystr) : pystr * pystr :=
  match split_once 58 url with
  | Some (s, rest) =>
      match s with
      | c :: _ => if is_letter c && forallb is_scheme_char s then (s, rest) else ([], url)
      | [] => ([], url)
      end
  | None => ([], url)
  end.

(** Splits before the first of the characters [cs]. *)
Fixpoint span_until (cs s : pystr) : pystr * pystr :=
  match s with
  | [] => ([], [])
  | c :: s' => if c ∈? cs then ([], s) else let '(a, b) := span_until cs s' in (c :: a, b)
  end.
Definition cut (c : N) (s : pystr) : pystr * pystr := default (s, []) (split_once c s).

Definition uses_params : list pystr :=
  map u [""; "ftp"; "hdl"; "prospero"; "http"; "https"; "shttp"; "rtsp"; "rtsps"; "rtspu"; "sip"; "sips"; "mms"; "sftp"; "tel"]%string.
(** [_splitparams]: the last segment is cut at its first [;]. *)
Definition drop_params (path : pystr) : pystr :=
  let start := default 0 (rfind [47%N] path) in
  take start path ++ (cut 59 (drop start path)).1.

Definition url_path_query `{NetlocCheck} (s : pystr) : outcome (pystr * pystr) :=
  let '(scheme, url) := split_scheme (clean_url s) in
  let '(netloc, rest) :=
    if startswith (u "//") url then span_until (u "/?#") (drop 2 url) else ([], url) in
  if negb (Bool.eqb (91%N ∈? netloc) (93%N ∈? netloc)) then Raise (ValueError (u "Invalid IPv6 URL"))
  else
    (if (91%N ∈? netloc) || existsb (λ c, (128 <=? c)%N) netloc then check_netloc netloc else Ret tt);;
    let '(no_fragment, _) := cut 35 rest in
    let '(path, query) := cut 63 no_fragment in
    Ret (if lower_ascii scheme ∈? uses_params then drop_params path else path, query).

#[local] Instance any_netloc : NetlocCheck := {| check_netloc _ := Ret tt |}.
Example agent_terminal :
  url_path_query (u "/service/terminal/?arg=_&arg=agent&arg=al%20ice+b")
  = Ret (u "/service/terminal/", u "arg=_&arg=agent&arg=al%20ice+b").
Proof. by vm_compute. Qed.
Example agent_terminal_args :
  qs_values (u "arg") (u "arg=_&x&arg=agent&&arg=al%20ice+b&arg") = map u ["_"; "agent"; "al ice b"; ""]%string.
Proof. by vm_compute. Qed.
