(* ===== verification/PyPath.v ===== *)
(** * [pathlib.PurePosixPath]

    Paths as [pathlib] holds them: the root (empty, [/] or the special [//])
    and the parts, without empty and [.] components; [..] is kept. *)

From Stdlib Require Import NArith Lia.
From S2P Require Import Prelude PyStr.
From stdpp Require Import options.
#[local] Open Scope py_scope.

Record path := Path { root : pystr; parts : list pystr }.

#[export] Instance path_eq_dec : EqDecision path.
Proof. solve_decision. Defined.

#[export] Instance path_countable : Countable path.
Proof.
  apply (inj_countable' (λ p, (root p, parts p)) (λ t, Path t.1 t.2)). by intros [].
Defined.

Definition slash : N := 47.

(** [Path(s)] *)
Definition path_of (s : pystr) : path :=
  let r := if startswith "///" s then u "/" else if startswith "//" s then u "//"
           else if startswith "/" s then u "/" else [] in
  Path r (List.filter (λ p, (p <>? []) && (p <>? u ".")) (split_char slash s)).

(** [str(p)] *)
Definition path_str (p : path) : pystr :=
  match root p, parts p with
  | [], [] => "."
  | r, ps => r ++ join [slash] ps
  end.

(** [p / q]: an absolute [q] replaces [p]. *)
Definition joinpath (p q : path) : path :=
  match root q with
  | [] => Path (root p) (parts p ++ parts q)
  | _ => q
  end.

(** [p / name] for a [str]. *)
Definition child (p : path) (name : pystr) : path := joinpath p (path_of name).

(** [p.parent] *)
Definition parent (p : path) : path := Path (root p) (removelast (parts p)).

(** [p.name] *)
Definition name (p : path) : pystr := List.last (parts p) [].

(** [p.is_relative_to(q)] *)
Definition is_relative_to (p q : path) : bool :=
  bool_decide (root p = root q) && bool_decide (parts q `prefix_of` parts p).

(** A file name: one component that [pathlib] keeps as it is. *)
Definition plain_name (n : pystr) : Prop := n ≠ [] ∧ n ≠ u "." ∧ slash ∉ n.

Lemma startswith_slash_notin s p : slash ∉ s → startswith (slash :: p) s = false.
Proof.
  destruct s as [|c s]; [done|]. intros [Hne%N.eqb_neq _]%not_elem_of_cons.
  unfold startswith. by rewrite Hne.
Qed.

Lemma path_of_name n : plain_name n → path_of n = Path [] [n].
Proof.
  intros (H1 & H2 & H3). unfold path_of.
  change (u "///") with (slash :: u "//"). change (u "//") with (slash :: u "/").
  change (u "/") with (slash :: []) at 5.
  rewrite !startswith_slash_notin, split_char_one by done. simpl.
  by rewrite !bool_decide_eq_false_2.
Qed.

Lemma child_plain p n : plain_name n → child p n = Path (root p) (parts p ++ [n]).
Proof. intros Hn. unfold child. by rewrite path_of_name. Qed.

Lemma parent_child p n : plain_name n → parent (child p n) = p.
Proof.
  intros Hn. rewrite child_plain by done. destruct p. unfold parent. simpl.
  by rewrite removelast_last.
Qed.

Lemma name_child p n : plain_name n → name (child p n) = n.
Proof. intros Hn. rewrite child_plain by done. unfold name. simpl. by rewrite last_last. Qed.

Lemma child_inj p n1 n2 : plain_name n1 → plain_name n2 → child p n1 = child p n2 → n1 = n2.
Proof. intros H1 H2 E. apply (f_equal name) in E. by rewrite !name_child in E. Qed.

Example path_ex : path_str (child (path_of "/mngr//x/./") "a/../b") = u "/mngr/x/a/../b".
Proof. reflexivity. Qed.
