(* ===== verification/PyFs.v ===== *)
(** * A file system with symbolic links

    The file system as the [pathlib], [os] and [shutil] calls of the program see
    it: a tree of files, directories with their modification times, and symbolic
    links, held flat by location.  Paths are resolved component by component,
    through at most forty links as on Linux.  Permissions, hard links and special
    files are not modelled. *)

From Stdlib Require Import NArith ZArith QArith Lia.
From S2P Require Import Prelude PyStr PyJson PyDumps PyMonad PyBytes PyPath.
From stdpp Require Import options.
#[global] Open Scope nat_scope.
#[local] Open Scope py_scope.

(** Where something is: the names from the root. *)
Abbreviation loc := (list pystr).
Inductive node := NFile (data : bytes) | NDir (mtime : Q) | NLink (target : path).
Record fs := Fs { nodes : gmap loc node; now : Q }.

Definition is_dir_node (n : option node) : bool := match n with Some (NDir _) => true | _ => false end.

(** ** Resolving *)
Section resolve.
Context (cwd : loc).

(** [strict]: every component but the last is a directory, as for the system
    calls; otherwise what is missing is kept, as [Path.resolve()] does. *)
Fixpoint resolve_from (links : nat) (strict : bool) (f : fs) : loc → list pystr → option loc :=
  fix go here todo :=
    match todo with
    | [] => Some here
    | c :: todo' =>
        if c =? u ".." then go (removelast here) todo'
        else
          match nodes f !! (here ++ [c]) with
          | Some (NLink t) =>
              match links with
              | O => None
              | S links' => resolve_from links' strict f (match root t with [] => here | _ => [] end) (parts t ++ todo')
              end
          | Some (NDir _) => go (here ++ [c]) todo'
          | _ => if strict && match todo' with [] => false | _ => true end then None else go (here ++ [c]) todo'
          end
    end.

Definition base (p : path) : loc := match root p with [] => cwd | _ => [] end.
Definition max_links : nat := 40.
(** [p.resolve()]; [None] is a loop of links, where it raises [symlink_loop]. *)
Definition realpath (f : fs) (p : path) : option loc := resolve_from max_links false f (base p) (parts p).
Definition locate (f : fs) (p : path) : option loc := resolve_from max_links true f (base p) (parts p).

(** [p.stat()], with the location found. *)
Definition stat (f : fs) (p : path) : option (loc * node) := l ← locate f p; n ← nodes f !! l; Some (l, n).

(** Where the entry [p] itself is: its last component is not followed. *)
Definition entry_loc (f : fs) (p : path) : option loc :=
  match parts p with
  | [] => Some (base p)
  | _ =>
      if name p =? u ".." then locate f p
      else d ← locate f (parent p); if is_dir_node (nodes f !! d) then Some (d ++ [name p]) else None
  end.
Definition lstat (f : fs) (p : path) : option (loc * node) := l ← entry_loc f p; n ← nodes f !! l; Some (l, n).

Definition exists_ (p : path) (f : fs) : bool := match stat f p with Some _ => true | None => false end.
Definition is_dir (p : path) (f : fs) : bool := match stat f p with Some (_, NDir _) => true | _ => false end.
Definition is_symlink (p : path) (f : fs) : bool := match lstat f p with Some (_, NLink _) => true | _ => false end.
Definition st_mtime (p : path) (f : fs) : option Q := match stat f p with Some (_, NDir t) => Some t | _ => None end.
Definition read_file (p : path) (f : fs) : outcome bytes :=
  match stat f p with Some (_, NFile b) => Ret b | Some _ => Raise (OSError []) | None => Raise FileNotFoundError end.
Definition read_text_of (p : path) (f : fs) : outcome pystr := b ← read_file p f; decode_text b.

(** [p / a / b]: a path below [p] by names. *)
Definition under (p : path) (rel : loc) : path := Path (root p) (parts p ++ rel).
(** Where the directory [p] is. *)
Definition top_of (p : path) (f : fs) : option loc := match stat f p with Some (l, NDir _) => Some l | _ => None end.

(** ** Changing *)

(** A directory's time changes when an entry of it comes or goes. *)
Definition touch (l : loc) (f : fs) : fs :=
  {| nodes := alter (λ n, match n with NDir _ => NDir (now f) | n => n end) l (nodes f); now := now f |}.
Definition put (l : loc) (n : node) (f : fs) : fs := {| nodes := <[l := n]> (nodes f); now := now f |}.
Definition add_entry (l : loc) (n : node) (f : fs) : fs := touch (removelast l) (put l n f).
Definition remove_tree (l : loc) (f : fs) : fs :=
  touch (removelast l) {| nodes := filter (λ kn, ¬ l `prefix_of` kn.1) (nodes f); now := now f |}.

Definition os_error {A} : M fs A := raise (OSError []).
Definition symlink_loop : exn := OtherError (u "RuntimeError") (u "Symlink loop").

(** [p.write_bytes(b)]: through a link at the end, to a new file if need be. *)
Definition write_file (p : path) (b : bytes) : M fs unit := λ f,
  match locate f p with
  | Some l =>
      match nodes f !! l with
      | Some (NFile _) => (Ret tt, put l (NFile b) f)
      | Some _ => (Raise (OSError []), f)
      | None => if is_dir_node (nodes f !! removelast l) then (Ret tt, add_entry l (NFile b) f) else (Raise FileNotFoundError, f)
      end
  | None => (Raise FileNotFoundError, f)
  end.
Definition write_text_to (p : path) (t : pystr) : M fs unit := b ← lift (encode_utf8 t); write_file p b.

(** [p.mkdir()] *)
Definition mkdir (p : path) : M fs unit := λ f,
  match entry_loc f p with
  | Some l => match nodes f !! l with
              | Some _ => (Raise (OSError (u "exists")), f)
              | None => (Ret tt, add_entry l (NDir (now f)) f)
              end
  | None => (Raise FileNotFoundError, f)
  end.
(** [p.mkdir(parents=True, exist_ok=True)]: the missing ancestors first. *)
Fixpoint mkdirs_go (todo : list path) : M fs unit :=
  match todo with
  | [] => mret tt
  | p :: todo' =>
      there ← gets (is_dir p);
      (if there : bool then mret tt else mkdir p);;
      mkdirs_go todo'
  end.
Definition mkdirs (p : path) : M fs unit :=
  mkdirs_go (map (λ i, Path (root p) (take (S i) (parts p))) (seq 0 (length (parts p)))).

(** [p.unlink(missing_ok=True)] *)
Definition unlink (p : path) : M fs unit := λ f,
  match lstat f p with
  | Some (_, NDir _) => (Raise (OSError []), f)
  | Some (l, _) => (Ret tt, remove_tree l f)
  | None => (Ret tt, f)
  end.

(** [p.symlink_to(target)] *)
Definition symlink_to (p target : path) : M fs unit := λ f,
  match entry_loc f p with
  | Some l => match nodes f !! l with
              | Some _ => (Raise (OSError (u "exists")), f)
              | None => (Ret tt, add_entry l (NLink target) f)
              end
  | None => (Raise FileNotFoundError, f)
  end.

(** [shutil.rmtree(p, ignore_errors=True)]: a link is left alone. *)
Definition rmtree (p : path) : M fs unit := λ f,
  match lstat f p with Some (l, NDir _) => (Ret tt, remove_tree l f) | _ => (Ret tt, f) end.

(** [os.utime(p, None)] *)
Definition utime (p : path) : M fs unit := λ f,
  match stat f p with
  | Some (l, NDir _) => (Ret tt, put l (NDir (now f)) f)
  | Some _ => (Ret tt, f)
  | None => (Raise FileNotFoundError, f)
  end.

(** [os.replace(src, dst)] of a directory: [dst] is absent or an empty
    directory. *)
Definition below (l : loc) (f : fs) : list (loc * node) :=
  List.filter (λ kn, bool_decide (l `prefix_of` kn.1)) (map_to_list (nodes f)).
Definition move_to (l d : loc) (f : fs) : fs :=
  {| nodes := list_to_map (map (λ kn, (d ++ drop (length l) kn.1, kn.2)) (below l f)) ∪ nodes (remove_tree l f);
     now := now f |}.
Definition replace_dir (src dst : path) : M fs unit := λ f,
  match lstat f src, entry_loc f dst with
  | Some (l, NDir _), Some d =>
      match nodes f !! d with
      | None => (Ret tt, touch (removelast d) (move_to l d f))
      | Some (NDir _) => if (length (below d f) =? 1)%nat then (Ret tt, touch (removelast d) (move_to l d f))
                         else (Raise (OSError []), f)
      | Some _ => (Raise (OSError []), f)
      end
  | _, _ => (Raise FileNotFoundError, f)
  end.

(** [shutil.copytree(src, dst, symlinks=True)]: entry by entry, parents first; an
    entry that fails does not stop the others, and the errors are raised at the
    end.  [skip] tells which names are ignored. *)
Definition copy_entry (d : path) (rel : loc) (n : node) : M fs bool :=
  let p := Path (root d) (parts d ++ rel) in
  try_except
    (match n with
     | NDir _ => mkdirs p
     | NLink t => symlink_to p t
     | NFile b => write_file p b
     end;; mret false)
    (λ e, match e with OSError _ | FileNotFoundError => Some (mret true) | _ => None end).
Fixpoint copy_entries (d : path) (todo : list (loc * node)) : M fs bool :=
  match todo with
  | [] => mret false
  | (rel, n) :: todo' => bad ← copy_entry d rel n; more ← copy_entries d todo'; mret (bad || more)
  end.
(** Copied in the order of the names, so that parents come first. *)
Fixpoint loc_leb (a b : loc) : bool :=
  match a, b with
  | [], _ => true
  | _ :: _, [] => false
  | x :: a', y :: b' => if x =? y then loc_leb a' b' else str_leb x y
  end.
Definition copytree (skip : pystr → bool) (exist_ok : bool) (src dst : path) : M fs unit := λ f,
  match stat f src with
  | Some (l, NDir _) =>
      if exists_ dst f && negb exist_ok then (Raise (OSError (u "exists")), f)
      else
        let rels := sort_by (λ a b, loc_leb a.1 b.1)
          (List.filter (λ kn, forallb (λ c, negb (skip c)) kn.1) (map (λ kn, (drop (length l) kn.1, kn.2)) (below l f))) in
        (bad ← copy_entries dst rels; if bad : bool then os_error else mret tt) f
  | Some _ => (Raise (OSError []), f)
  | None => (Raise FileNotFoundError, f)
  end.
End resolve.

(** ** Moving *)
Section moving.
Context (cwd : loc).

(** [os.rename(p, q)] *)
Definition rename_to (p q : path) : M fs unit := λ f,
  match lstat cwd f p, entry_loc cwd f q with
  | Some (l, n), Some d =>
      if bool_decide (l `prefix_of` d) then (Raise (OSError []), f)
      else
        match nodes f !! d, n with
        | None, _ => (Ret tt, touch (removelast d) (move_to l d f))
        | Some (NFile _ | NLink _), (NFile _ | NLink _) => (Ret tt, touch (removelast d) (move_to l d (remove_tree d f)))
        | Some _, _ => (Raise (OSError []), f)
        end
  | None, _ => (Raise FileNotFoundError, f)
  | _, None => (Raise (OSError []), f)
  end.
(** [shutil.move(p, q)] within one file system: into [q] when it is a
    directory. *)
Definition move (p q : path) : M fs unit := λ f,
  if is_dir cwd q f then
    let dst := under q [name p] in
    if exists_ cwd dst f then (Raise (OSError (u "already exists")), f) else rename_to p dst f
  else rename_to p q f.
(** [shutil.rmtree(p)] and [p.rmdir()] *)
Definition rmtree_strict (p : path) : M fs unit := λ f,
  match lstat cwd f p with
  | Some (l, NDir _) => (Ret tt, remove_tree l f)
  | Some _ => (Raise (OSError []), f)
  | None => (Raise FileNotFoundError, f)
  end.
Definition rmdir (p : path) : M fs unit := λ f,
  match lstat cwd f p with
  | Some (l, NDir _) => if (length (below l f) =? 1)%nat then (Ret tt, remove_tree l f) else (Raise (OSError []), f)
  | Some _ => (Raise (OSError []), f)
  | None => (Raise FileNotFoundError, f)
  end.
End moving.

(** ** Listing and walking *)

(** The order in which a directory lists its entries. *)
Class DirOrder := { scandir : list pystr → list pystr }.
Class DirOrderLaws `(DirOrder) := scandir_perm l : scandir l ≡ₚ l.

(** The entries of a location. *)
Definition child_name (l k : loc) : option pystr :=
  match drop (length l) k with [c] => if bool_decide (l `prefix_of` k) then Some c else None | _ => None end.
Definition entries `{DirOrder} (l : loc) (f : fs) : list pystr :=
  scandir (omap (child_name l) (map fst (map_to_list (nodes f)))).

(** [p.iterdir()] of a directory *)
Definition iterdir `{DirOrder} (cwd : loc) (p : path) (f : fs) : list path :=
  match top_of cwd p f with Some l => map (λ c, under p [c]) (entries l f) | None => [] end.

Definition depth (f : fs) : nat := S (list_max (map (λ kn, length kn.1) (map_to_list (nodes f)))).

(** The directories [os.walk(top)] visits, as names below [top]: links are not
    followed and the names [prune] holds for are not descended into. *)
Fixpoint walk_below `{DirOrder} (fuel : nat) (prune : pystr → bool) (f : fs) (top rel : loc) : list loc :=
  match fuel with
  | O => []
  | S fuel =>
      rel :: flat_map (λ c, if negb (prune c) && is_dir_node (nodes f !! (top ++ rel ++ [c]))
                            then walk_below fuel prune f top (rel ++ [c]) else [])
                      (entries (top ++ rel) f)
  end.
Definition walk `{DirOrder} (prune : pystr → bool) (f : fs) (top : loc) : list loc := walk_below (depth f) prune f top [].

(** ** Solid paths

    A path is solid when every directory on it is a real directory: it denotes
    its own location. *)
Section solid.
Context (cwd : loc).

Definition solid (f : fs) (l : loc) : Prop := ∀ k c, k ++ [c] `prefix_of` l → is_dir_node (nodes f !! (k ++ [c])) = true.
Definition loc_of (p : path) : loc := base cwd p ++ parts p.

Lemma solid_prefix f k l : k `prefix_of` l → solid f l → solid f k.
Proof. intros Hk Hl k' c Hp. apply Hl. by etrans. Qed.
Lemma solid_snoc f l c : solid f l → is_dir_node (nodes f !! (l ++ [c])) = true → solid f (l ++ [c]).
Proof.
  intros Hl Hc k d Hp.
  destruct Hp as [r Hr]. destruct r as [|x r _] using rev_ind.
  - rewrite app_nil_r in Hr. by rewrite <- Hr.
  - rewrite app_assoc in Hr. apply app_inj_tail in Hr as [Hr _]. apply Hl. by exists r.
Qed.

Lemma resolve_solid links strict f here todo :
  u ".." ∉ todo → (∀ k c, k ++ [c] `prefix_of` todo → is_dir_node (nodes f !! (here ++ k ++ [c])) = true) →
  resolve_from links strict f here todo = Some (here ++ todo).
Proof.
  revert here. induction todo as [|c todo IH]; intros here Hup Hd.
  - destruct links; cbn; by rewrite app_nil_r.
  - apply not_elem_of_cons in Hup as [Hc Hup].
    pose proof (Hd [] c ltac:(by exists todo)) as Hn. cbn [app] in Hn.
    assert (resolve_from links strict f here (c :: todo) = resolve_from links strict f (here ++ [c]) todo) as ->.
    { destruct links; cbn [resolve_from]; (rewrite bool_decide_eq_false_2 by congruence);
        destruct (nodes f !! (here ++ [c])) as [[]|]; done. }
    rewrite IH; [by rewrite <- app_assoc|done|]. intros k d Hk. rewrite <- app_assoc.
    apply (Hd (c :: k) d). by apply prefix_cons.
Qed.

Lemma locate_solid f p : solid f (loc_of p) → u ".." ∉ parts p → locate cwd f p = Some (loc_of p).
Proof.
  intros Hs Hup. apply resolve_solid; [done|]. intros k c Hk. rewrite app_assoc. apply Hs.
  rewrite <- app_assoc. by apply prefix_app.
Qed.

(** A path whose directory is solid. *)
Lemma locate_entry f p c :
  solid f (loc_of p) → u ".." ∉ parts p → c ≠ u ".." →
  (∀ t, nodes f !! (loc_of p ++ [c]) ≠ Some (NLink t)) →
  locate cwd f (Path (root p) (parts p ++ [c])) = Some (loc_of p ++ [c]).
Proof.
  intros Hs Hup Hc Hn. unfold locate. cbn [parts].
  assert (∀ links here todo, u ".." ∉ todo →
            (∀ k d, k ++ [d] `prefix_of` todo → is_dir_node (nodes f !! (here ++ k ++ [d])) = true) →
            (∀ t, nodes f !! (here ++ todo ++ [c]) ≠ Some (NLink t)) →
            resolve_from links true f here (todo ++ [c]) = Some (here ++ todo ++ [c])) as Hgo.
  { intros links here todo. revert here. induction todo as [|d todo IH]; intros here Hup' Hd Hl.
    - cbn [app] in *. destruct links; cbn [resolve_from]; (rewrite bool_decide_eq_false_2 by done);
        destruct (nodes f !! (here ++ [c])) as [[]|] eqn:E; try done; by destruct (Hl target).
    - apply not_elem_of_cons in Hup' as [Hd' Hup'].
      pose proof (Hd [] d ltac:(by exists todo)) as Hnd. cbn [app] in Hnd.
      change ((d :: todo) ++ [c]) with (d :: (todo ++ [c])).
      assert (resolve_from links true f here (d :: (todo ++ [c])) = resolve_from links true f (here ++ [d]) (todo ++ [c])) as ->.
      { destruct links; cbn [resolve_from]; (rewrite bool_decide_eq_false_2 by congruence);
          destruct (nodes f !! (here ++ [d])) as [[]|]; done. }
      rewrite IH; [by rewrite <- app_assoc|done| |].
      + intros k e Hk. rewrite <- app_assoc. apply (Hd (d :: k) e). by apply prefix_cons.
      + intros t. rewrite <- app_assoc. apply Hl. }
  assert (loc_of p ++ [c] = base cwd p ++ parts p ++ [c]) as -> by (unfold loc_of; by rewrite app_assoc).
  apply Hgo; [done| |].
  - intros k d Hk. rewrite app_assoc. apply Hs. rewrite <- app_assoc. by apply prefix_app.
  - intros t. rewrite app_assoc. apply Hn.
Qed.

Lemma parent_snoc r ps c : parent (Path r (ps ++ [c])) = Path r ps.
Proof. unfold parent. cbn. by rewrite removelast_last. Qed.
Lemma name_snoc r ps c : name (Path r (ps ++ [c])) = c.
Proof. unfold name. cbn. by rewrite last_last. Qed.

Lemma entry_loc_solid f p c :
  solid f (loc_of p) → is_dir_node (nodes f !! loc_of p) = true → u ".." ∉ parts p → c ≠ u ".." →
  entry_loc cwd f (Path (root p) (parts p ++ [c])) = Some (loc_of p ++ [c]).
Proof.
  intros Hs Hd Hup Hc. unfold entry_loc. cbn [parts]. destruct (parts p ++ [c]) as [|x l] eqn:E; [by destruct (parts p)|].
  rewrite <- E, name_snoc, parent_snoc. rewrite bool_decide_eq_false_2 by done.
  assert (Path (root p) (parts p) = p) as -> by by destruct p. rewrite locate_solid by done. cbn [mbind option_bind].
  by rewrite Hd.
Qed.
End solid.

(** ** What a walk visits *)
Section walking.
Context `{DirOrderLaws}.

Lemma child_name_spec l k c : child_name l k = Some c ↔ k = l ++ [c].
Proof.
  unfold child_name. split.
  - destruct (drop (length l) k) as [|x [|y r]] eqn:E; try done. case_bool_decide as Hp; [|done].
    intros [= ->]. destruct Hp as [r ->]. rewrite drop_app_length in E. by rewrite E.
  - intros ->. rewrite drop_app_length, bool_decide_eq_true_2; [done|]. by eexists.
Qed.

Lemma elem_entries l f c : c ∈ entries l f ↔ is_Some (nodes f !! (l ++ [c])).
Proof using Type*.
  unfold entries. rewrite scandir_perm, list_elem_of_omap. split.
  - intros (k & Hk & Hc). apply child_name_spec in Hc as ->. apply list_elem_of_In, in_map_iff in Hk as ([k n] & Hk & Hin).
    cbn in Hk. subst. apply list_elem_of_In, elem_of_map_to_list in Hin. by eexists.
  - intros [n Hn]. exists (l ++ [c]). split; [|by apply child_name_spec].
    apply list_elem_of_In, in_map_iff. exists (l ++ [c], n). split; [done|]. by apply list_elem_of_In, elem_of_map_to_list.
Qed.

Lemma NoDup_entries l f : NoDup (entries l f).
Proof using Type*.
  unfold entries. rewrite scandir_perm.
  assert (NoDup (map fst (map_to_list (nodes f)))) as Hnd by apply NoDup_fst_map_to_list.
  induction Hnd as [|k ks Hk _ IH]; [constructor|]. cbn [omap list_omap].
  destruct (child_name l k) as [c|] eqn:E; [|done]. constructor; [|done].
  rewrite list_elem_of_omap. intros (k' & Hk' & E'). apply child_name_spec in E, E'. by subst.
Qed.

(** Every step down goes to a real directory with a name that is not pruned. *)
Definition walkable (prune : pystr → bool) (f : fs) (top rel : loc) : Prop :=
  ∀ ds c, ds ++ [c] `prefix_of` rel → prune c = false ∧ is_dir_node (nodes f !! (top ++ ds ++ [c])) = true.

Lemma elem_walk_below prune f top fuel rel x :
  x ∈ walk_below fuel prune f top rel ↔
  ∃ ext, x = rel ++ ext ∧ length ext < fuel ∧ walkable prune f (top ++ rel) ext.
Proof using Type*.
  revert rel x. induction fuel as [|fuel IH]; intros rel x; cbn [walk_below].
  { rewrite elem_of_nil. split; [done|]. intros (ext & _ & Hl & _). lia. }
  rewrite elem_of_cons, list_elem_of_In, in_flat_map. split.
  - intros [->|(c & Hc & Hx)].
    + exists []. rewrite app_nil_r. split_and!; [done|simpl; lia|]. intros ds d [r Hr]. by destruct ds.
    + destruct (negb (prune c) && _) eqn:E; [|done]. apply andb_true_iff in E as [E1 E2]. apply negb_true_iff in E1.
      apply list_elem_of_In, IH in Hx as (ext & -> & Hl & Hw). exists (c :: ext). rewrite <- app_assoc.
      split_and!; [done|simpl; lia|]. intros ds d [r Hr]. destruct ds as [|e ds].
      * injection Hr as -> _. cbn. by rewrite <- app_assoc.
      * injection Hr as -> Hr. destruct (Hw ds d ltac:(by exists r)) as [H1 H2]. split; [done|].
        rewrite <- !app_assoc in H2. rewrite <- app_assoc. exact H2.
  - intros (ext & -> & Hl & Hw). destruct ext as [|c ext]; [left; by rewrite app_nil_r|right].
    destruct (Hw [] c ltac:(by exists ext)) as [H1 H2]. cbn [app] in H2. rewrite <- app_assoc in H2.
    exists c. split.
    + apply list_elem_of_In, elem_entries. rewrite <- app_assoc. destruct (nodes f !! _); [by eexists|done].
    + rewrite H1, H2. cbn [negb andb]. apply list_elem_of_In, IH. exists ext. rewrite <- app_assoc.
      split_and!; [done|simpl in Hl; lia|]. intros ds d [r Hr].
      destruct (Hw (c :: ds) d) as [H3 H4]; [exists r; by rewrite Hr|]. split; [done|].
      rewrite <- !app_assoc. rewrite <- app_assoc in H4. exact H4.
Qed.

Lemma depth_bound f l n : nodes f !! l = Some n → length l < depth f.
Proof.
  intros Hl. unfold depth. enough (length l <= list_max (map (λ kn, length kn.1) (map_to_list (nodes f)))) by lia.
  apply elem_of_map_to_list, list_elem_of_In in Hl.
  pose proof (proj1 (list_max_le (map (λ kn, length kn.1) (map_to_list (nodes f))) _) (le_n _)) as Hm.
  rewrite Forall_forall in Hm. apply (Hm (length l)). apply list_elem_of_In, in_map_iff. by exists (l, n).
Qed.

Lemma elem_walk prune f top rel :
  rel ∈ walk prune f top ↔ walkable prune f top rel.
Proof using Type*.
  unfold walk. rewrite elem_walk_below. rewrite app_nil_r. split.
  - intros (ext & -> & _ & Hw). exact Hw.
  - intros Hw. exists rel. split_and!; [done| |done]. destruct rel as [|c rel _] using rev_ind; [unfold depth; simpl; lia|].
    destruct (Hw rel c ltac:(by exists []; rewrite app_nil_r)) as [_ Hd].
    destruct (nodes f !! (top ++ rel ++ [c])) as [n|] eqn:E; [|done]. apply depth_bound in E.
    rewrite length_app in E. lia.
Qed.

Lemma walk_prefix prune f top fuel rel x : x ∈ walk_below fuel prune f top rel → rel `prefix_of` x.
Proof using Type*. rewrite elem_walk_below. intros (ext & -> & _). by eexists. Qed.

Lemma NoDup_walk prune f top : NoDup (walk prune f top).
Proof using Type*.
  unfold walk. generalize (depth f) as fuel. intros fuel. generalize (@nil pystr) as rel.
  induction fuel as [|fuel IH]; intros rel; cbn [walk_below]; constructor.
  - rewrite list_elem_of_In, in_flat_map. intros (c & _ & Hx). destruct (_ && _); [|done].
    apply list_elem_of_In, walk_prefix in Hx. apply prefix_length in Hx. rewrite length_app in Hx. simpl in Hx. lia.
  - assert (∀ cs, NoDup cs → NoDup (flat_map (λ c, if negb (prune c) && is_dir_node (nodes f !! (top ++ rel ++ [c]))
                then walk_below fuel prune f top (rel ++ [c]) else []) cs)) as Hcs; [|apply Hcs, NoDup_entries].
    induction 1 as [|c cs Hc _ IHcs]; [constructor|]. cbn [flat_map]. apply NoDup_app. split_and!; [| |done].
    + destruct (_ && _); [apply IH|constructor].
    + intros x Hx Hin. destruct (_ && _); [|by apply elem_of_nil in Hx]. apply walk_prefix in Hx as [r1 ->].
      apply list_elem_of_In, in_flat_map in Hin as (d & Hd & Hin). destruct (_ && _); [|done].
      apply list_elem_of_In, walk_prefix in Hin as [r2 E]. rewrite <- !app_assoc in E. apply app_inv_head in E.
      injection E as -> _. by apply Hc, list_elem_of_In.
Qed.
End walking.

(** ** What a change leaves alone *)

Lemma lookup_touch l f k : k ≠ l → nodes (touch l f) !! k = nodes f !! k.
Proof. intros Hne. cbn. by apply lookup_alter_ne. Qed.
Lemma dir_touch l f k : is_dir_node (nodes (touch l f) !! k) = is_dir_node (nodes f !! k).
Proof.
  destruct (decide (k = l)) as [->|Hne]; [|by rewrite lookup_touch]. cbn. rewrite lookup_alter_eq.
  by destruct (nodes f !! l) as [[]|].
Qed.
Lemma link_touch l f k t : nodes (touch l f) !! k = Some (NLink t) ↔ nodes f !! k = Some (NLink t).
Proof.
  destruct (decide (k = l)) as [->|Hne]; [|by rewrite lookup_touch]. cbn. rewrite lookup_alter_eq.
  by destruct (nodes f !! l) as [[]|].
Qed.

Lemma lookup_remove l f k :
  k ≠ removelast l → nodes (remove_tree l f) !! k = if bool_decide (l `prefix_of` k) then None else nodes f !! k.
Proof.
  intros Hne. unfold remove_tree. rewrite lookup_touch by done. cbn. rewrite map_lookup_filter.
  destruct (nodes f !! k); cbn; [|by case_bool_decide].
  case_guard; case_bool_decide; cbn in *; done.
Qed.
Lemma dir_remove l f k :
  ¬ l `prefix_of` k → is_dir_node (nodes (remove_tree l f) !! k) = is_dir_node (nodes f !! k).
Proof.
  intros Hp. unfold remove_tree. rewrite dir_touch. cbn. rewrite map_lookup_filter.
  destruct (nodes f !! k); cbn; [|done]. by case_guard.
Qed.
Lemma link_remove l f k t :
  ¬ l `prefix_of` k → nodes (remove_tree l f) !! k = Some (NLink t) ↔ nodes f !! k = Some (NLink t).
Proof.
  intros Hp. unfold remove_tree. rewrite link_touch. cbn. rewrite map_lookup_filter.
  destruct (nodes f !! k); cbn; [|done]. by case_guard.
Qed.

Lemma solid_remove l f k : ¬ l `prefix_of` k → solid f k → solid (remove_tree l f) k.
Proof.
  intros Hp Hs k' c Hk. rewrite dir_remove; [by apply Hs|]. intros Hl. apply Hp. by etrans.
Qed.

Lemma prefix_snoc_inv {A} (k l : list A) c : k `prefix_of` l ++ [c] → k `prefix_of` l ∨ k = l ++ [c].
Proof.
  intros [r Hr]. destruct r as [|x r _] using rev_ind; [right; by rewrite app_nil_r in Hr|left].
  rewrite app_assoc in Hr. apply app_inj_tail in Hr as [-> _]. by eexists.
Qed.
Lemma not_prefix_snoc {A} (l : list A) c : ¬ l ++ [c] `prefix_of` l.
Proof. intros Hp%prefix_length. rewrite length_app in Hp. simpl in Hp. lia. Qed.

Section entry_ops.
Context (cwd : loc).
(** The entries of a solid directory [p]. *)
Context (f : fs) (p : path) (c : pystr).
Context (Hs : solid f (loc_of cwd p)) (Hd : is_dir_node (nodes f !! loc_of cwd p) = true).
Context (Hup : u ".." ∉ parts p) (Hc : c ≠ u "..").
Abbreviation q := (Path (root p) (parts p ++ [c])).
Abbreviation l := (loc_of cwd p ++ [c]).

Lemma lstat_entry : lstat cwd f q = (λ n, (l, n)) <$> nodes f !! l.
Proof using Hs Hd Hup Hc.
  unfold lstat. rewrite entry_loc_solid by done. cbn [mbind option_bind]. by destruct (nodes f !! l).
Qed.

Lemma rmtree_entry t : nodes f !! l = Some (NDir t) → rmtree cwd q f = (Ret tt, remove_tree l f).
Proof using Hs Hd Hup Hc. intros Hl. unfold rmtree. by rewrite lstat_entry, Hl. Qed.

Lemma unlink_entry t : nodes f !! l = Some (NLink t) → unlink cwd q f = (Ret tt, remove_tree l f).
Proof using Hs Hd Hup Hc. intros Hl. unfold unlink. by rewrite lstat_entry, Hl. Qed.

Lemma symlink_entry : is_symlink cwd q f = match nodes f !! l with Some (NLink _) => true | _ => false end.
Proof using Hs Hd Hup Hc. unfold is_symlink. rewrite lstat_entry. by destruct (nodes f !! l). Qed.

Lemma stat_entry :
  (∀ t, nodes f !! l ≠ Some (NLink t)) → stat cwd f q = (λ n, (l, n)) <$> nodes f !! l.
Proof using Hs Hd Hup Hc.
  intros Hl. unfold stat. rewrite locate_entry by done. cbn [mbind option_bind]. by destruct (nodes f !! l).
Qed.

Lemma is_dir_entry : (∀ t, nodes f !! l ≠ Some (NLink t)) → is_dir cwd q f = is_dir_node (nodes f !! l).
Proof using Hs Hd Hup Hc. intros Hl. unfold is_dir. rewrite stat_entry by done. by destruct (nodes f !! l) as [[]|]. Qed.
End entry_ops.

Lemma stat_solid cwd f p : solid f (loc_of cwd p) → u ".." ∉ parts p →
  stat cwd f p = (λ n, (loc_of cwd p, n)) <$> nodes f !! loc_of cwd p.
Proof.
  intros Hs Hup. unfold stat. rewrite locate_solid by done. cbn [mbind option_bind]. by destruct (nodes f !! _).
Qed.

(** ** Fewer entries, fewer resolutions *)

Definition same_kind (n n' : node) : Prop := match n, n' with NDir _, NDir _ => True | _, _ => n = n' end.
(** Everything in [g] is in [f], up to the times of directories. *)
Definition within (g f : fs) : Prop :=
  ∀ k n, nodes g !! k = Some n → ∃ n', nodes f !! k = Some n' ∧ same_kind n n'.

Lemma within_refl f : within f f.
Proof. intros k n Hk. exists n. split; [done|]. by destruct n. Qed.
Lemma within_trans f g h : within f g → within g h → within f h.
Proof.
  intros H1 H2 k n Hk. destruct (H1 k n Hk) as (n' & Hk' & S1). destruct (H2 k n' Hk') as (n'' & Hk'' & S2).
  exists n''. split; [done|]. destruct n, n', n''; simpl in *; congruence || done.
Qed.
Lemma within_touch l f : within (touch l f) f.
Proof.
  intros k n. destruct (decide (k = l)) as [->|Hne]; [|rewrite lookup_touch by done; apply within_refl].
  cbn. rewrite lookup_alter_eq. destruct (nodes f !! l) as [m|]; [|done]. intros [= <-]. exists m. split; [done|]. by destruct m.
Qed.
Lemma within_remove l f : within (remove_tree l f) f.
Proof.
  eapply within_trans; [apply within_touch|]. intros k n Hk. cbn in Hk. apply map_lookup_filter_Some in Hk as [Hk _].
  by apply within_refl.
Qed.

Lemma resolve_within links g f here todo l n :
  within g f → resolve_from links true g here todo = Some l → nodes g !! l = Some n →
  resolve_from links true f here todo = Some l.
Proof.
  intros Hw. revert here todo. induction links as [|links IHl]; intros here todo; revert here;
    induction todo as [|c todo IH]; intros here; cbn [resolve_from]; try done.
  all: case_bool_decide; [by apply IH|].
  all: intros Hr Hl; destruct (nodes g !! (here ++ [c])) as [m|] eqn:Em.
  all: try (destruct (Hw _ _ Em) as (m' & -> & Hk); destruct m as [| |t]; [|destruct m' as [| |]; try done; by apply IH|]).
  all: try (simpl in Hk; subst m').
  - destruct todo; [|done]. exact Hr.
  - done.
  - destruct todo; [|done]. injection Hr as <-. by rewrite Em in Hl.
  - destruct todo; [|done]. exact Hr.
  - by apply IHl.
  - destruct todo; [|done]. injection Hr as <-. by rewrite Em in Hl.
Qed.

Lemma is_dir_within cwd g f p : within g f → is_dir cwd p g = true → is_dir cwd p f = true.
Proof.
  intros Hw. unfold is_dir, stat, locate.
  destruct (resolve_from max_links true g (base cwd p) (parts p)) as [l|] eqn:E; [|done]. cbn [mbind option_bind].
  destruct (nodes g !! l) as [[|t|]|] eqn:El; try done. intros _.
  rewrite (resolve_within _ g f _ _ l _ Hw E El). cbn [mbind option_bind].
  destruct (Hw _ _ El) as (n' & -> & Hk). by destruct n'.
Qed.

(** ** Trees *)

(** A tree of entries: what has an entry below it is a directory. *)
Definition tree_ok (f : fs) : Prop := ∀ l c, is_Some (nodes f !! (l ++ [c])) → is_dir_node (nodes f !! l) = true.
(** No entry is called "..". *)
Definition no_dotdot (f : fs) : Prop := ∀ k n, nodes f !! k = Some n → u ".." ∉ k.

(** There is nothing below what is no directory. *)
Lemma below_missing f l r : tree_ok f → is_dir_node (nodes f !! l) = false → r ≠ [] → nodes f !! (l ++ r) = None.
Proof.
  intros Hok Hl Hr. induction r as [|c r IH] using rev_ind; [done|]. rewrite app_assoc.
  destruct (nodes f !! ((l ++ r) ++ [c])) as [n|] eqn:E; [|done].
  pose proof (Hok (l ++ r) c ltac:(by eexists)) as Hd. destruct r as [|x r].
  - rewrite app_nil_r in Hd. congruence.
  - by rewrite IH in Hd.
Qed.

Lemma map_Forall_by {A} (m : gmap loc A) (P : loc → A → bool) :
  forallb (λ kn, P kn.1 kn.2) (map_to_list m) = true → ∀ k n, m !! k = Some n → P k n = true.
Proof.
  intros Hm k n Hk. rewrite forallb_forall in Hm. apply (Hm (k, n)). by apply list_elem_of_In, elem_of_map_to_list.
Qed.
Lemma tree_ok_by f :
  forallb (λ kn, match kn.1 with [] => true | _ => is_dir_node (nodes f !! removelast kn.1) end) (map_to_list (nodes f)) = true →
  tree_ok f.
Proof.
  intros Hf l c [n Hn]. pose proof (map_Forall_by (nodes f) (λ k _, match k with [] => true | _ => is_dir_node (nodes f !! removelast k) end) Hf _ _ Hn) as Hd.
  cbn in Hd. destruct (l ++ [c]) eqn:E; [by destruct l|]. by rewrite <- E, removelast_last in Hd.
Qed.
Lemma no_dotdot_by f : forallb (λ kn, bool_decide (u ".." ∉ kn.1)) (map_to_list (nodes f)) = true → no_dotdot f.
Proof. intros Hf k n Hn. pose proof (map_Forall_by (nodes f) (λ k _, bool_decide (u ".." ∉ k)) Hf _ _ Hn) as Hd. by apply bool_decide_eq_true in Hd. Qed.
Lemma no_links_by f l :
  forallb (λ kn, negb (bool_decide (removelast kn.1 = l) && match kn.2 with NLink _ => true | _ => false end)) (map_to_list (nodes f)) = true →
  ∀ c t, nodes f !! (l ++ [c]) ≠ Some (NLink t).
Proof.
  intros Hf c t Hn.
  pose proof (map_Forall_by (nodes f) (λ k n, negb (bool_decide (removelast k = l) && match n with NLink _ => true | _ => false end)) Hf _ _ Hn) as Hd.
  cbn in Hd. by rewrite removelast_last, bool_decide_eq_true_2 in Hd.
Qed.

(** ** What moving does *)

Lemma elem_below l f k n : (k, n) ∈ below l f ↔ l `prefix_of` k ∧ nodes f !! k = Some n.
Proof.
  unfold below. rewrite list_elem_of_In, filter_In, <- list_elem_of_In, elem_of_map_to_list. cbn. rewrite bool_decide_eq_true. tauto.
Qed.

Lemma lookup_move l d f k :
  (∀ r, nodes f !! (d ++ r) = None) → k ≠ removelast l → k ≠ removelast d →
  nodes (touch (removelast d) (move_to l d f)) !! k =
    if bool_decide (d `prefix_of` k) then nodes f !! (l ++ drop (length d) k)
    else if bool_decide (l `prefix_of` k) then None else nodes f !! k.
Proof.
  intros Hfresh Hl Hd. rewrite lookup_touch by done. unfold move_to. cbn [nodes].
  set (m := map (λ kn : loc * node, (d ++ drop (length l) kn.1, kn.2)) (below l f)).
  assert (∀ x n, (x, n) ∈ m ↔ ∃ r, x = d ++ r ∧ nodes f !! (l ++ r) = Some n) as Hm.
  { intros x n. unfold m. rewrite list_elem_of_In, in_map_iff. split.
    - intros ([y n'] & E & Hy). apply list_elem_of_In, elem_below in Hy as [[r ->] Hy]. cbn in E. injection E as <- <-.
      exists r. by rewrite drop_app_length.
    - intros (r & -> & Hr). exists (l ++ r, n). cbn. rewrite drop_app_length. split; [done|].
      apply list_elem_of_In, elem_below. split; [by eexists|done]. }
  assert (NoDup m.*1) as Hnd.
  { unfold m. change (map ?f ?x) with (f <$> x). rewrite <- list_fmap_compose.
    assert (NoDup (below l f).*1) as Hb.
    { unfold below. pose proof (NoDup_fst_map_to_list (nodes f)) as Hnd. revert Hnd. generalize (map_to_list (nodes f)).
      induction l0 as [|[k' n'] l0 IH]; [done|]. cbn [fmap list_fmap List.filter]. intros [Hk Hnd]%NoDup_cons.
      cbn. case_bool_decide; [|by apply IH]. cbn. constructor; [|by apply IH]. intros Hin. apply Hk.
      apply list_elem_of_fmap in Hin as ([k2 n2] & E & Hin). apply list_elem_of_fmap. exists (k2, n2). split; [done|].
      apply list_elem_of_In, filter_In in Hin as [Hin _]. by apply list_elem_of_In. }
    assert (∀ kn, kn ∈ below l f → l `prefix_of` kn.1) as Hp by (intros [k' n'] [Hk' _]%elem_below; done).
    revert Hb Hp. generalize (below l f). induction l0 as [|[k' n'] l0 IH]; intros Hb Hp; [constructor|].
    cbn [fmap list_fmap] in *. apply NoDup_cons in Hb as [Hk Hb]. constructor; [|apply IH; [done|intros kn Hin; apply Hp; by right]].
    intros Hin. apply Hk. apply list_elem_of_fmap in Hin as ([k2 n2] & E & Hin). cbn in E. apply app_inv_head in E.
    apply list_elem_of_fmap. exists (k2, n2). split; [|done]. cbn.
    destruct (Hp (k', n') ltac:(left)) as [r1 E1]. destruct (Hp (k2, n2) ltac:(by right)) as [r2 E2]. cbn in *. subst.
    rewrite !drop_app_length in E. by rewrite E. }
  destruct (decide (d `prefix_of` k)) as [Hdk|Hdk]; [rewrite bool_decide_eq_true_2 by done|rewrite bool_decide_eq_false_2 by done].
  - destruct Hdk as [r ->]. rewrite drop_app_length. destruct (nodes f !! (l ++ r)) as [n|] eqn:E.
    + apply lookup_union_Some_l. apply elem_of_list_to_map_1; [done|]. apply Hm. by exists r.
    + apply lookup_union_None_2.
      * apply not_elem_of_list_to_map_1. intros Hin. apply list_elem_of_fmap in Hin as ([x n] & E1 & Hin). apply Hm in Hin as (r' & E' & Hr').
        cbn in E1. rewrite E' in E1. apply app_inv_head in E1 as ->. congruence.
      * destruct (nodes (remove_tree l f) !! (d ++ r)) as [n|] eqn:E'; [|done].
        destruct (within_remove _ _ _ _ E') as (n' & Hn' & _). by rewrite Hfresh in Hn'.
  - rewrite lookup_union_r.
    + by apply lookup_remove.
    + apply not_elem_of_list_to_map_1. intros Hin. apply list_elem_of_fmap in Hin as ([x n] & E1 & Hin). apply Hm in Hin as (r' & E' & _).
      cbn in E1. apply Hdk. rewrite E1, E'. by eexists.
Qed.
Lemma dir_move l d f k :
  ¬ d `prefix_of` k → ¬ l `prefix_of` k →
  is_dir_node (nodes (touch (removelast d) (move_to l d f)) !! k) = is_dir_node (nodes f !! k).
Proof.
  intros Hd Hl. rewrite dir_touch. unfold move_to. cbn [nodes]. rewrite lookup_union_r; [by apply dir_remove|].
  apply not_elem_of_list_to_map_1. intros Hin. apply list_elem_of_fmap in Hin as ([x n] & E1 & Hin).
  apply list_elem_of_In, in_map_iff in Hin as ([y n'] & E & _). injection E as <- _. cbn in E1. apply Hd. rewrite E1. by eexists.
Qed.

(** ** Files in solid directories *)
Section solid_files.
Context (cwd : loc).

Lemma is_dir_solid f p :
  solid f (loc_of cwd p) → u ".." ∉ parts p → is_dir cwd p f = is_dir_node (nodes f !! loc_of cwd p).
Proof. intros Hs Hup. unfold is_dir. rewrite stat_solid by done. by destruct (nodes f !! _) as [[]|]. Qed.

Lemma mkdirs_go_there f todo : Forall (λ p, is_dir cwd p f = true) todo → mkdirs_go cwd todo f = (Ret tt, f).
Proof.
  induction 1 as [|p todo Hp _ IH]; [done|]. cbn [mkdirs_go]. erewrite M_bind_ret by reflexivity. rewrite Hp.
  erewrite M_bind_ret by reflexivity. exact IH.
Qed.

Lemma mkdirs_there f p : solid f (loc_of cwd p) → u ".." ∉ parts p → mkdirs cwd p f = (Ret tt, f).
Proof.
  intros Hs Hup. unfold mkdirs. apply mkdirs_go_there. apply Forall_forall. intros q Hq.
  apply list_elem_of_In, in_map_iff in Hq as (i & <- & Hi%in_seq).
  assert (loc_of cwd (Path (root p) (take (S i) (parts p))) `prefix_of` loc_of cwd p) as Hpre.
  { unfold loc_of, base. cbn. apply prefix_app. exists (drop (S i) (parts p)). by rewrite take_drop. }
  rewrite is_dir_solid.
  - assert (length (take (S i) (parts p)) ≠ 0) as Ht by (rewrite length_take; cbn [length] in *; lia).
    destruct (take (S i) (parts p)) as [|y l _] eqn:E using rev_ind; [done|].
    unfold loc_of in Hpre |- *. cbn [parts] in *. rewrite app_assoc in *. by apply Hs.
  - by eapply solid_prefix.
  - cbn. intros Hin. apply Hup. rewrite <- (take_drop (S i) (parts p)), elem_of_app. by left.
Qed.

(** Overwriting a file. *)
Lemma overwrite f p c b0 b :
  solid f (loc_of cwd p) → u ".." ∉ parts p → c ≠ u ".." →
  nodes f !! (loc_of cwd p ++ [c]) = Some (NFile b0) →
  write_file cwd (under p [c]) b f = (Ret tt, put (loc_of cwd p ++ [c]) (NFile b) f) ∧
  read_file cwd (under p [c]) f = Ret b0 ∧ exists_ cwd (under p [c]) f = true.
Proof.
  intros Hs Hup Hc Hn.
  assert (locate cwd f (under p [c]) = Some (loc_of cwd p ++ [c])) as Hl.
  { apply locate_entry; [done..|]. intros t. by rewrite Hn. }
  unfold write_file, read_file, exists_, stat. rewrite Hl. cbn [mbind option_bind]. by rewrite Hn.
Qed.
End solid_files.

(** ** Writing and reading *)

(** Resolving depends on where the links and the directories are. *)
Definition kind_of (n : option node) : option (option path) :=
  match n with Some (NLink t) => Some (Some t) | Some (NDir _) => Some None | _ => None end.
Lemma resolve_same f g links strict : ∀ here todo,
  (∀ k, kind_of (nodes g !! k) = kind_of (nodes f !! k)) → resolve_from links strict g here todo = resolve_from links strict f here todo.
Proof.
  intros here todo Hk. revert here todo. induction links as [|links IH]; intros here todo; revert here;
    (induction todo as [|c todo IHt]; intros here; [done|]; cbn [resolve_from]; case_bool_decide; [apply IHt|]);
    specialize (Hk (here ++ [c]));
    destruct (nodes g !! (here ++ [c])) as [[]|], (nodes f !! (here ++ [c])) as [[]|]; cbn in Hk; try done; simplify_eq; rewrite ?IHt, ?IH; done.
Qed.
Lemma kind_touch l f k : kind_of (nodes (touch l f) !! k) = kind_of (nodes f !! k).
Proof.
  destruct (decide (k = l)) as [->|Hne]; [|by rewrite lookup_touch]. cbn. rewrite lookup_alter_eq.
  by destruct (nodes f !! l) as [[]|].
Qed.
Lemma kind_put_file l b f k : kind_of (nodes f !! l) = None → kind_of (nodes (put l (NFile b) f) !! k) = kind_of (nodes f !! k).
Proof.
  intros Hl. destruct (decide (k = l)) as [->|Hne]; cbn; [by rewrite lookup_insert_eq|by rewrite lookup_insert_ne].
Qed.

(** What was written is what is read. *)
Lemma write_read cwd p b f f' : write_file cwd p b f = (Ret tt, f') → ∃ l, stat cwd f' p = Some (l, NFile b).
Proof.
  unfold write_file. destruct (locate cwd f p) as [l|] eqn:El; [|done]. intros E. exists l.
  assert ((∀ k, kind_of (nodes f' !! k) = kind_of (nodes f !! k)) ∧ nodes f' !! l = Some (NFile b)) as [Hk Hl].
  { destruct (nodes f !! l) as [[]|] eqn:En; try done.
    - injection E as <-. split; [intros k; apply kind_put_file; by rewrite En|]. cbn. by rewrite lookup_insert_eq.
    - destruct (is_dir_node (nodes f !! removelast l)) eqn:Ed; [|done]. injection E as <-. unfold add_entry. split.
      + intros k. rewrite kind_touch. apply kind_put_file. by rewrite En.
      + rewrite lookup_touch; [cbn; by rewrite lookup_insert_eq|]. intros Er. rewrite <- Er, En in Ed. done. }
  unfold stat, locate. rewrite (resolve_same f f') by done. fold (locate cwd f p). rewrite El. cbn [mbind option_bind]. by rewrite Hl.
Qed.
Lemma write_text_read cwd p t f f' : forallb text_char t = true → write_text_to cwd p t f = (Ret tt, f') →
  read_text_of cwd p f' = Ret t ∧ exists_ cwd p f' = true.
Proof.
  intros Ht (b & f1 & Eb & Ew)%M_bind_Ret. destruct (text_encodes t Ht) as (b' & Eb' & Ed). unfold lift in Eb.
  rewrite Eb' in Eb. injection Eb as -> <-. destruct (write_read _ _ _ _ _ Ew) as [l Hl].
  unfold read_text_of, read_file, exists_. by rewrite Hl.
Qed.

(** ** Resolved locations *)

(** A location without links on the way is what it resolves to. *)
Definition linkless (f : fs) (l : loc) : Prop :=
  u ".." ∉ l ∧ ∀ k c t, k ++ [c] `prefix_of` l → nodes f !! (k ++ [c]) ≠ Some (NLink t).
Lemma linkless_nil f : linkless f [].
Proof. split; [apply not_elem_of_nil|]. intros k c t [r Hr]. by destruct k. Qed.
Lemma linkless_prefix f k l : k `prefix_of` l → linkless f l → linkless f k.
Proof.
  intros Hk [Hup Hl]. split.
  - intros Hin. apply Hup. destruct Hk as [r ->]. apply elem_of_app. by left.
  - intros k' c t Hp. apply Hl. by etrans.
Qed.
Lemma linkless_snoc f l c : linkless f l → c ≠ u ".." → (∀ t, nodes f !! (l ++ [c]) ≠ Some (NLink t)) → linkless f (l ++ [c]).
Proof.
  intros [Hup Hl] Hc Hn. split.
  - rewrite elem_of_app, list_elem_of_singleton. naive_solver.
  - intros k d t [Hp|Hp]%prefix_snoc_inv; [by apply Hl|]. apply app_inj_tail in Hp as [-> ->]. apply Hn.
Qed.
Lemma removelast_prefix {A} (l : list A) : removelast l `prefix_of` l.
Proof. destruct l as [|x l _] using rev_ind; [done|]. rewrite removelast_last. by eexists. Qed.
Lemma resolve_linkless links strict f here todo l :
  linkless f here → resolve_from links strict f here todo = Some l → linkless f l.
Proof.
  revert here todo. induction links as [|links IHl]; intros here todo; revert here;
    induction todo as [|c todo IH]; intros here Hh; cbn [resolve_from]; try by intros [= <-].
  all: case_bool_decide as Hc; [apply IH; by eapply linkless_prefix; [apply removelast_prefix|]|].
  all: assert (∀ n, nodes f !! (here ++ [c]) = n → (∀ t, n ≠ Some (NLink t)) → linkless f (here ++ [c])) as Hs
    by (intros n <-; by apply linkless_snoc).
  all: destruct (nodes f !! (here ++ [c])) as [[]|] eqn:E; try (destruct (strict && _); [done|]); try done;
    try (apply IH; exact (Hs _ eq_refl ltac:(done))).
  apply IHl. by destruct (root target); [|apply linkless_nil].
Qed.
Lemma realpath_linkless cwd f p l : linkless f cwd → realpath cwd f p = Some l → linkless f l.
Proof. intros Hc. apply resolve_linkless. unfold base. by destruct (root p); [|apply linkless_nil]. Qed.
Lemma resolve_own links strict f here todo l : linkless f (here ++ todo) → resolve_from links strict f here todo = Some l → l = here ++ todo.
Proof.
  revert here. induction todo as [|c todo IH]; intros here Hh Hr.
  { destruct links; cbn in Hr; injection Hr as <-; by rewrite app_nil_r. }
  assert (c ≠ u "..") as Hc by (intros ->; apply Hh; rewrite elem_of_app, elem_of_cons; naive_solver).
  assert (resolve_from links strict f (here ++ [c]) todo = Some l) as Hr'.
  { assert (∀ t, nodes f !! (here ++ [c]) ≠ Some (NLink t)) as Hn.
    { intros t. apply Hh. exists todo. by rewrite <- app_assoc. }
    destruct links; cbn [resolve_from] in Hr; (rewrite bool_decide_eq_false_2 in Hr by done);
      destruct (nodes f !! (here ++ [c])) as [[| |t]|]; try done; try (by destruct (Hn t)); destruct (strict && _); done. }
  apply IH in Hr' as ->; by rewrite <- app_assoc.
Qed.
(** A file at a resolved location is there. *)
Lemma stat_own cwd f l l' n : linkless f l → stat cwd f (Path (u "/") l) = Some (l', n) → l' = l ∧ nodes f !! l = Some n.
Proof.
  intros Hl. unfold stat, locate. change (base cwd (Path (u "/") l)) with ([] : loc). cbn [parts].
  destruct (resolve_from max_links true f [] l) as [k|] eqn:E; [|done]. cbn [mbind option_bind].
  apply resolve_own in E as ->; [|done]. cbn [app]. destruct (nodes f !! l) as [m|] eqn:Em; [|done]. by intros [= <- <-].
Qed.
