(* ===== verification/PyThreads.v ===== *)
(** * Threads that share a state

    A thread is a tree of atomic steps: a critical section ([Locked]), a
    question to the world ([Asked]: a file, a child process, a fresh name), the
    start of another thread ([Forked]).  A pool of threads takes these steps in
    any order.  The second half proves that every schedule ends, and a
    rely-guarantee rule: what each thread owes is a ghost value it carries, the
    critical sections pass it on, and the pool keeps the account. *)

From Stdlib Require Import NArith Lia.
From S2P Require Import Prelude PyStr PyJson PyMonad.
From stdpp Require Import relations options.
#[global] Open Scope nat_scope.

(** [k] of [Locked] is given the state the section found. *)
Inductive prog {S Q : Type} {A : Q → Type} (R : Type) : Type :=
  | Done (r : outcome R)
  | Locked (f : S → S) (k : S → prog R)
  | Asked (q : Q) (k : outcome (A q) → prog R)
  | Forked (t : prog unit) (k : prog R).
Arguments prog : clear implicits.
Arguments Done {S Q A R}. Arguments Locked {S Q A R}. Arguments Asked {S Q A R}. Arguments Forked {S Q A R}.

Section threads.
Context {S Q : Type} {A : Q → Type}.
Abbreviation prog := (prog S Q A).

Fixpoint after {R R' : Type} (p : prog R) (k : outcome R → prog R') : prog R' :=
  match p with
  | Done r => k r
  | Locked f k' => Locked f (λ s, after (k' s) k)
  | Asked q k' => Asked q (λ a, after (k' a) k)
  | Forked t p' => Forked t (after p' k)
  end.

#[export] Instance prog_ret : MRet prog := λ R x, Done (Ret x).
#[export] Instance prog_bind : MBind prog := λ R R' k p,
  after p (λ r, match r with Ret x => k x | Raise e => Done (Raise e) end).

(** [with self._lock: m] *)
Definition locked {R : Type} (m : M S R) : prog R := Locked (λ s, (m s).2) (λ s, Done (m s).1).
Definition ask (q : Q) : prog (A q) := Asked q Done.
Definition raises {R : Type} (e : exn) : prog R := Done (Raise e).
Definition start_thread (t : prog unit) : prog unit := Forked t (mret tt).
(** [try: p  except ...: h e] *)
Definition catching {R : Type} (p : prog R) (h : exn → option (prog R)) : prog R :=
  after p (λ r, match r with Ret x => mret x | Raise e => default (Done (Raise e)) (h e) end).
Fixpoint each {X} (l : list X) (f : X → prog unit) : prog unit :=
  match l with [] => mret tt | x :: l' => f x ;; each l' f end.
Definition whenp (b : bool) (p : prog unit) : prog unit := if b then p else mret tt.

(** ** A thread on its own: [o] answers, a thread it starts runs at once. *)
Fixpoint alone (o : S → ∀ q, outcome (A q)) {R : Type} (p : prog R) (s : S) : outcome R * S :=
  match p with
  | Done r => (r, s)
  | Locked f k => alone o (k s) (f s)
  | Asked q k => alone o (k (o s q)) s
  | Forked t p' => alone o p' (alone o t s).2
  end.

Lemma alone_after o {R R' : Type} (p : prog R) (k : outcome R → prog R') s :
  alone o (after p k) s = alone o (k (alone o p s).1) (alone o p s).2.
Proof. revert s. induction p; intros s; simpl; auto. Qed.

Lemma alone_bind o {R R' : Type} (p : prog R) (k : R → prog R') s :
  alone o (p ≫= k) s = match alone o p s with (Ret x, s') => alone o (k x) s' | (Raise e, s') => (Raise e, s') end.
Proof. unfold mbind, prog_bind. rewrite alone_after. by destruct (alone o p s) as [[]]. Qed.

Lemma alone_locked o {R : Type} (m : M S R) s : alone o (locked m) s = m s.
Proof. simpl. by destruct (m s). Qed.

(** What it asks on the way. *)
Fixpoint asked (o : S → ∀ q, outcome (A q)) {R : Type} (p : prog R) (s : S) : list Q :=
  match p with
  | Done _ => []
  | Locked f k => asked o (k s) (f s)
  | Asked q k => q :: asked o (k (o s q)) s
  | Forked t p' => asked o t s ++ asked o p' (alone o t s).2
  end.
Lemma asked_after o {R R' : Type} (p : prog R) (k : outcome R → prog R') s :
  asked o (after p k) s = asked o p s ++ asked o (k (alone o p s).1) (alone o p s).2.
Proof.
  revert s. induction p; intros s; simpl; auto; [by f_equal|]. rewrite <- (assoc app). by f_equal.
Qed.
Lemma asked_bind o {R R' : Type} (p : prog R) (k : R → prog R') s :
  asked o (p ≫= k) s = asked o p s ++ match alone o p s with (Ret x, s') => asked o (k x) s' | (Raise _, _) => [] end.
Proof. unfold mbind, prog_bind. rewrite asked_after. by destruct (alone o p s) as [[]]. Qed.

(** Whatever the answers, it asks only such questions. *)
Fixpoint asking {R : Type} (f : Q → Prop) (p : prog R) : Prop :=
  match p with
  | Done _ => True
  | Locked _ k => ∀ s, asking f (k s)
  | Asked q k => f q ∧ ∀ a, asking f (k a)
  | Forked t p' => asking f t ∧ asking f p'
  end.
Lemma asking_asked o {R : Type} f (p : prog R) : asking f p → ∀ s, Forall f (asked o p s).
Proof.
  induction p; simpl; intros Hp s; [done|auto|destruct Hp; constructor; auto|]. destruct Hp. apply Forall_app. auto.
Qed.
Lemma asking_after {R R' : Type} f (p : prog R) (k : outcome R → prog R') :
  asking f p → (∀ r, asking f (k r)) → asking f (after p k).
Proof. induction p; simpl; intros Hp Hk; intuition. Qed.
Lemma asking_bind {R R' : Type} f (p : prog R) (k : R → prog R') : asking f p → (∀ x, asking f (k x)) → asking f (p ≫= k).
Proof. intros Hp Hk. apply asking_after; [done|]. by intros []. Qed.

(** ** Sections that all stay within a relation, in a thread that starts no other *)
Fixpoint within {R : Type} (rel : S → S → Prop) (p : prog R) : Prop :=
  match p with
  | Done _ => True
  | Locked f k => ∀ s, rel s (f s) ∧ within rel (k s)
  | Asked q k => ∀ a, within rel (k a)
  | Forked _ _ => False
  end.

Lemma within_after {R R' : Type} rel (p : prog R) (k : outcome R → prog R') :
  within rel p → (∀ r, within rel (k r)) → within rel (after p k).
Proof.
  intros Hp Hk. induction p as [R r|R f k0 IH|R q k0 IH|]; cbn [within after] in *; [done|..].
  - intros s. split; [apply Hp|]. apply IH; [apply Hp|done].
  - intros a. apply IH; [apply Hp|done].
  - done.
Qed.
Lemma within_bind {R R' : Type} rel (p : prog R) (k : R → prog R') :
  within rel p → (∀ x, within rel (k x)) → within rel (p ≫= k).
Proof. intros Hp Hk. apply within_after; [done|]. by intros []. Qed.
Lemma within_catching {R : Type} rel (p : prog R) h :
  within rel p → (∀ e k, h e = Some k → within rel k) → within rel (catching p h).
Proof. intros Hp Hh. apply within_after; [done|]. intros [x|e]; [done|]. destruct (h e) eqn:E; [by eapply Hh|done]. Qed.
Lemma within_locked {R : Type} rel (m : M S R) : (∀ s, rel s (m s).2) → within rel (locked m).
Proof. by intros Hm s. Qed.
Lemma within_ask rel q : within rel (ask q).
Proof. done. Qed.
Lemma within_each {X} rel (l : list X) f : (∀ x, within rel (f x)) → within rel (each l f).
Proof. intros Hf. induction l as [|x l IH]; [done|]. by apply within_bind. Qed.
Lemma within_alone o {R : Type} rel (p : prog R) `{!PreOrder rel} : within rel p → ∀ s, rel s (alone o p s).2.
Proof. induction p; simpl; intros Hp s0; [done| |auto|done]. destruct (Hp s0). etrans; eauto. Qed.
Lemma within_mono {R : Type} (rel rel' : S → S → Prop) (p : prog R) : (∀ s s', rel s s' → rel' s s') → within rel p → within rel' p.
Proof.
  intros H. induction p as [R r|R f k0 IH|R q k0 IH|]; cbn [within]; [done|..|done].
  - intros Hp s. split; [apply H, Hp|apply IH, Hp].
  - intros Hp a. apply IH, Hp.
Qed.

(** ** Pools *)
Context (allowed : S → ∀ q, outcome (A q) → Prop).

(** A step of one thread, with the threads it starts. *)
Definition own (s : S) (p : prog unit) (s' : S) (p' : prog unit) (new : list (prog unit)) : Prop :=
  match p with
  | Done _ => False
  | Locked f k => s' = f s ∧ p' = k s ∧ new = []
  | Asked q k => s' = s ∧ new = [] ∧ ∃ a, allowed s q a ∧ p' = k a
  | Forked t k => s' = s ∧ p' = k ∧ new = [t]
  end.

Inductive pstep : S * list (prog unit) → S * list (prog unit) → Prop :=
  pool_step s l p r s' p' new : own s p s' p' new → pstep (s, l ++ p :: r) (s', l ++ p' :: r ++ new).

Definition finished (ts : list (prog unit)) : Prop := Forall (λ p, ∃ r, p = Done r) ts.

(** A schedule: whose turn it is; [o] answers. *)
Definition turn (o : S → ∀ q, outcome (A q)) (i : nat) (c : S * list (prog unit)) : S * list (prog unit) :=
  match c.2 !! i with
  | Some (Locked f k) => (f c.1, <[i := k c.1]> c.2)
  | Some (Asked q k) => (c.1, <[i := k (o c.1 q)]> c.2)
  | Some (Forked t k) => (c.1, <[i := k]> c.2 ++ [t])
  | Some (Done _) | None => c
  end.
Definition play (o : S → ∀ q, outcome (A q)) (turns : list nat) (c : S * list (prog unit)) := foldl (λ c i, turn o i c) c turns.

Lemma turn_steps o i c : (∀ s q, allowed s q (o s q)) → rtc pstep c (turn o i c).
Proof.
  intros Ho. destruct c as [s ts]. unfold turn. cbn [fst snd].
  destruct (ts !! i) as [p|] eqn:E; [|done].
  apply list_elem_of_split_length in E as (l & r & -> & ->).
  assert (∀ s' p' new, own s p s' p' new → rtc pstep (s, l ++ p :: r) (s', <[length l := p']> (l ++ p :: r) ++ new)) as H.
  { intros s' p' new Ho'. rewrite insert_app_r_alt, Nat.sub_diag by done. cbn [insert list_insert].
    rewrite <- app_assoc. apply rtc_once. by constructor. }
  destruct p as [|f k|q k|t k]; [done|..].
  - specialize (H (f s) (k s) [] ltac:(done)). by rewrite app_nil_r in H.
  - specialize (H s (k (o s q)) [] ltac:(simpl; eauto)). by rewrite app_nil_r in H.
  - by apply (H s k [t]).
Qed.

Lemma play_steps o turns c : (∀ s q, allowed s q (o s q)) → rtc pstep c (play o turns c).
Proof.
  intros Ho. revert c. induction turns as [|i turns IH]; intros c; [done|].
  simpl. etrans; [by apply turn_steps|apply IH].
Qed.

(** *** Every schedule ends *)
Definition tstep (ts ts' : list (prog unit)) : Prop := ∃ s s', pstep (s, ts) (s', ts').

Lemma app_split_at {X} (l1 l2 l r : list X) (x p : X) :
  l1 ++ p :: l2 = l ++ x :: r →
  (l1 = l ∧ p = x ∧ l2 = r) ∨ (∃ m, l = l1 ++ p :: m ∧ l2 = m ++ x :: r) ∨ (∃ m, l1 = l ++ x :: m ∧ r = m ++ p :: l2).
Proof.
  revert l. induction l1 as [|y l1 IH]; intros [|z l] E; simpl in *; injection E as -> E; subst; eauto 10.
  apply IH in E as [(-> & -> & ->)|[(m & -> & ->)|(m & -> & ->)]]; eauto 10.
Qed.

Lemma pstep_inv s ts c' :
  pstep (s, ts) c' → ∃ l p r s' p' new, ts = l ++ p :: r ∧ c' = (s', l ++ p' :: r ++ new) ∧ own s p s' p' new.
Proof. intros Hs. inv Hs. eauto 10. Qed.

(** A step of a pool is one of [p] or one the others could take without it. *)
Lemma tstep_split l1 p l2 ts' :
  tstep (l1 ++ p :: l2) ts' →
  (∃ s s' p' new, own s p s' p' new ∧ ts' = l1 ++ p' :: l2 ++ new) ∨
  (∃ l1' l2', ts' = l1' ++ p :: l2' ∧ tstep (l1 ++ l2) (l1' ++ l2')).
Proof.
  intros (s & s' & (l & x & r & s1 & x' & new & E1 & [= <- ->] & Ho)%pstep_inv).
  apply app_split_at in E1 as [(-> & -> & ->)|[(m & -> & ->)|(m & -> & ->)]].
  - left. by exists s, s', x', new.
  - right. exists l1, (m ++ x' :: r ++ new). split; [by rewrite <- app_assoc|]. exists s, s'.
    rewrite !app_assoc. by constructor.
  - right. exists (l ++ x' :: m), (l2 ++ new). split; [by rewrite <- !app_assoc|]. exists s, s'.
    rewrite <- !app_assoc. simpl. rewrite (app_assoc m). by constructor.
Qed.

Lemma Acc_insert (p : prog unit) l1 l2 : Acc (flip tstep) (l1 ++ l2) → Acc (flip tstep) (l1 ++ p :: l2).
Proof.
  assert (∀ R (p : prog R) (E : R = unit), ∀ l1 l2, Acc (flip tstep) (l1 ++ l2) →
    Acc (flip tstep) (l1 ++ eq_rect R prog p unit E :: l2)) as H; [clear|by apply (H unit p eq_refl)].
  induction p as [R r|R f k IH|R q k IH|R t IHt k IHk]; intros E; subst R; cbn [eq_rect];
    intros l1 l2 Ha; remember (l1 ++ l2) as l12 eqn:E12; revert l1 l2 E12;
    induction Ha as [l12 Ha IHa]; intros l1 l2 ->; constructor;
    intros ts' [(s & s' & p' & new & Ho & ->)|(l1' & l2' & -> & Ht)]%tstep_split;
    try (eapply IHa; [exact Ht|reflexivity]); simpl in Ho.
  - destruct Ho.
  - destruct Ho as (-> & -> & ->). apply (IH _ eq_refl). rewrite app_nil_r. exact (Acc_intro _ Ha).
  - destruct Ho as (-> & -> & a & _ & ->). apply (IH _ eq_refl). rewrite app_nil_r. exact (Acc_intro _ Ha).
  - destruct Ho as (-> & -> & ->). apply (IHk eq_refl). rewrite app_assoc. apply (IHt eq_refl). rewrite app_nil_r. exact (Acc_intro _ Ha).
Qed.

(** No schedule of any pool goes on for ever. *)
Lemma pools_end ts : Acc (flip tstep) ts.
Proof.
  induction ts as [|p ts IH].
  - constructor. intros ts' (s & s' & (l & p & r & _ & _ & _ & E & _)%pstep_inv). by destruct l.
  - by apply (Acc_insert p [] ts).
Qed.

Lemma done_or_steps s ts :
  (∀ q, ∃ a, allowed s q a) → finished ts ∨ ∃ c', pstep (s, ts) c'.
Proof.
  intros Hw. assert (∀ p : prog unit, (∃ r, p = Done r) ∨ ∃ s' p' new, own s p s' p' new) as Hp.
  { intros [r|f k|q k|t k]; [by left; exists r|right..].
    - by exists (f s), (k s), [].
    - destruct (Hw q) as [a Ha]. exists s, (k a), []. simpl. eauto.
    - by exists s, k, [t]. }
  induction ts as [|p ts [IH|([s' ts'] & IH)]]; [by left; constructor|..].
  - destruct (Hp p) as [Hd|(s' & p' & new & Ho)]; [by left; constructor|].
    right. eexists. by apply (pool_step s [] p ts).
  - right. apply pstep_inv in IH as (l & p0 & r & s1 & p' & new & -> & [= -> ->] & Ho). eexists.
    by apply (pool_step s (p :: l) p0 r).
Qed.

(** When the world always answers, every schedule can be brought to its end. *)
Lemma pool_finishes s ts :
  (∀ s q, ∃ a, allowed s q a) → ∃ s' ts', rtc pstep (s, ts) (s', ts') ∧ finished ts'.
Proof.
  intros Hw. revert s. induction (pools_end ts) as [ts _ IH]; intros s.
  destruct (done_or_steps s ts (Hw s)) as [Hf|([s' ts'] & Hs)]; [by exists s, ts|].
  destruct (IH ts' ltac:(by exists s, s') s') as (s'' & ts'' & H1 & H2).
  exists s'', ts''. split; [by eapply rtc_l|done].
Qed.

(** ** What threads owe *)
Context {G : Type}.
Context (inv : S → Prop) (ok : S → G → Prop) (pass : S → G → S → G → Prop) (paid : G → Prop) (share : G → G → G → Prop).

(** [p], owing [g], keeps [inv] and passes what it owes from section to section;
    a thread it starts pays its share. *)
Fixpoint safe {R : Type} (g : G) (p : prog R) (Φ : outcome R → G → Prop) : Prop :=
  match p with
  | Done r => Φ r g
  | Locked f k => ∀ s, inv s → ok s g → ∃ g', pass s g (f s) g' ∧ inv (f s) ∧ ok (f s) g' ∧ safe g' (k s) Φ
  | Asked q k => ∀ s a, inv s → ok s g → allowed s q a → safe g (k a) Φ
  | Forked t p' => ∃ g1 g2, share g g1 g2 ∧ (∀ s, ok s g → ok s g1 ∧ ok s g2) ∧ safe g1 t (λ _, paid) ∧ safe g2 p' Φ
  end.

Lemma safe_mono {R : Type} (p : prog R) : ∀ g (Φ Ψ : outcome R → G → Prop),
  safe g p Φ → (∀ r g', Φ r g' → Ψ r g') → safe g p Ψ.
Proof.
  induction p as [R r|R f k IH|R q k IH|R t IHt k IHk]; intros g Φ Ψ H HΨ; cbn [safe] in *.
  - by apply HΨ.
  - intros s Hi Ho. destruct (H s Hi Ho) as (g' & Hp & Hi' & Ho' & Hs). exists g'. eauto 10.
  - intros s a Hi Ho Ha. eauto.
  - destruct H as (g1 & g2 & Hsp & Hok & Ht & Hk). exists g1, g2. eauto 10.
Qed.

Lemma safe_after {R R' : Type} (p : prog R) (k : outcome R → prog R') : ∀ g Φ,
  safe g p (λ r g', safe g' (k r) Φ) → safe g (after p k) Φ.
Proof.
  induction p as [R r|R f k0 IH|R q k0 IH|R t IHt k0 IHk]; intros g Φ H; cbn [safe after] in *; [done|..].
  - intros s Hi Ho. destruct (H s Hi Ho) as (g' & Hp & Hi' & Ho' & Hs). exists g'. eauto 10.
  - intros s a Hi Ho Ha. eauto.
  - destruct H as (g1 & g2 & Hsp & Hok & Ht & Hk). exists g1, g2. eauto 10.
Qed.

Lemma safe_bind {R R' : Type} (p : prog R) (k : R → prog R') g Φ :
  safe g p (λ r g', match r with Ret x => safe g' (k x) Φ | Raise e => Φ (Raise e) g' end) → safe g (p ≫= k) Φ.
Proof. intros H. apply safe_after. eapply safe_mono; [done|]. by intros []. Qed.

Lemma safe_catching {R : Type} (p : prog R) h g Φ :
  safe g p (λ r g', match r with
    | Ret x => Φ (Ret x) g'
    | Raise e => match h e with Some k => safe g' k Φ | None => Φ (Raise e) g' end end) →
  safe g (catching p h) Φ.
Proof. intros H. apply safe_after. eapply safe_mono; [done|]. intros [x|e] g'; [done|]. by destruct (h e). Qed.

Lemma safe_locked {R : Type} (m : M S R) g Φ :
  (∀ s, inv s → ok s g → ∃ g', pass s g (m s).2 g' ∧ inv (m s).2 ∧ ok (m s).2 g' ∧ Φ (m s).1 g') → safe g (locked m) Φ.
Proof. done. Qed.

Lemma safe_ask q g Φ : (∀ s a, inv s → ok s g → allowed s q a → Φ a g) → safe g (ask q) Φ.
Proof. done. Qed.

Lemma safe_each {X} (l : list X) (f : X → prog unit) g Φ :
  (∀ x, safe g (f x) (λ r g', match r with Ret _ => g' = g | Raise e => Φ (Raise e) g' end)) →
  Φ (Ret tt) g → safe g (each l f) Φ.
Proof.
  intros Hf HΦ. induction l as [|x l IH]; [done|]. apply safe_bind. eapply safe_mono; [apply Hf|].
  intros [[]|e] g'; [by intros ->|done].
Qed.

(** A thread whose sections owe nothing keeps what it owes. *)
Lemma safe_within {R : Type} (rel : S → S → Prop) (p : prog R) g :
  (∀ s s', inv s → ok s g → rel s s' → pass s g s' g ∧ inv s' ∧ ok s' g) →
  within rel p → safe g p (λ _ g', g' = g).
Proof.
  intros Hrel. induction p as [R r|R f k IH|R q k IH|]; cbn [within safe]; [done|..|done].
  - intros Hp s Hi Ho. destruct (Hrel s (f s) Hi Ho (proj1 (Hp s))) as (H1 & H2 & H3). exists g. split_and!; [done..|]. apply IH, Hp.
  - intros Hp s a _ _ _. apply IH, Hp.
Qed.

(** How a thread can end, whatever the others do to the state. *)
Fixpoint ends {R : Type} (p : prog R) (Φ : outcome R → Prop) : Prop :=
  match p with
  | Done r => Φ r
  | Locked f k => ∀ s, ends (k s) Φ
  | Asked q k => ∀ s a, allowed s q a → ends (k a) Φ
  | Forked _ p' => ends p' Φ
  end.
Lemma ends_after {R R' : Type} (p : prog R) (k : outcome R → prog R') Φ :
  ends p (λ r, ends (k r) Φ) → ends (after p k) Φ.
Proof. induction p; cbn [ends after]; eauto. Qed.
Lemma ends_mono {R : Type} (p : prog R) (Φ Ψ : outcome R → Prop) : ends p Φ → (∀ r, Φ r → Ψ r) → ends p Ψ.
Proof. induction p; cbn [ends]; eauto. Qed.
Lemma ends_bind {R R' : Type} (p : prog R) (k : R → prog R') Φ :
  ends p (λ r, match r with Ret x => ends (k x) Φ | Raise e => Φ (Raise e) end) → ends (p ≫= k) Φ.
Proof. intros Hp. apply ends_after. eapply ends_mono; [exact Hp|]. by intros []. Qed.
Lemma ends_next {R : Type} (p : prog unit) (k : prog R) Φ :
  ends p (λ r, is_Ret r = true) → ends k Φ → ends (p ;; k) Φ.
Proof. intros Hp Hk. apply ends_bind. eapply ends_mono; [exact Hp|]. by intros []. Qed.

Lemma safe_within_ends {R : Type} (rel : S → S → Prop) (p : prog R) g Φ :
  (∀ s s', inv s → ok s g → rel s s' → pass s g s' g ∧ inv s' ∧ ok s' g) →
  within rel p → ends p Φ → safe g p (λ r g', g' = g ∧ Φ r).
Proof.
  intros Hrel. induction p as [R r|R f k IH|R q k IH|]; cbn [within safe ends]; [done|..|done].
  - intros Hp He s Hi Ho. destruct (Hrel s (f s) Hi Ho (proj1 (Hp s))) as (H1 & H2 & H3). exists g. split_and!; [done..|]. apply IH; [apply Hp|apply He].
  - intros Hp He s a _ _ Ha. apply IH; [apply Hp|by eapply He].
Qed.

(** *** The account of the pool *)
Context (account : S → list G → Prop).
Context (account_pass : ∀ s l g r s' g', inv s → Forall (ok s) (l ++ g :: r) → account s (l ++ g :: r) →
  pass s g s' g' → account s' (l ++ g' :: r)).
Context (account_share : ∀ s l g r g1 g2, account s (l ++ g :: r) → share g g1 g2 → account s (l ++ g2 :: r ++ [g1])).
Context (ok_stable : ∀ s l g r s' g', inv s → Forall (ok s) (l ++ g :: r) → account s (l ++ g :: r) →
  pass s g s' g' → Forall (ok s') (l ++ r)).

Definition balanced (c : S * list (prog unit)) : Prop :=
  inv c.1 ∧ ∃ gs, Forall2 (λ g p, safe g p (λ _, paid)) gs c.2 ∧ Forall (ok c.1) gs ∧ account c.1 gs.

Lemma balanced_step c c' : pstep c c' → balanced c → balanced c'.
Proof using All.
  destruct c as [s ts]. intros (l & p & r & s' & p' & new & -> & -> & Ho)%pstep_inv (Hi & gs & H2 & Hok & Ha). simpl in *.
  apply Forall2_app_inv_r in H2 as (gl & g0 & H2l & (g & gr & Hsafe & H2r & ->)%Forall2_cons_inv_r & ->).
  pose proof Hok as Hok0. apply Forall_app in Hok as [Hokl [Hokg Hokr]%Forall_cons].
  destruct p as [|f k|q k|t k]; cbn [safe own] in *; [done|destruct Ho as (-> & -> & ->)|destruct Ho as (-> & -> & a & Hall & ->)|destruct Ho as (-> & -> & ->)].
  - destruct (Hsafe s Hi Hokg) as (g' & Hp & Hi' & Hg' & Hk). split; [done|]. exists (gl ++ g' :: gr).
    rewrite app_nil_r. split; [apply Forall2_app; [exact H2l|constructor; [exact Hk|exact H2r]]|]. split; [|exact (account_pass _ _ _ _ _ _ Hi Hok0 Ha Hp)].
    pose proof (ok_stable _ _ _ _ _ _ Hi Hok0 Ha Hp) as [? ?]%Forall_app. apply Forall_app. split; [done|by constructor].
  - split; [done|]. exists (gl ++ g :: gr). rewrite app_nil_r. split; [|done].
    apply Forall2_app; [done|]. constructor; [exact (Hsafe s a Hi Hokg Hall)|done].
  - destruct Hsafe as (g1 & g2 & Hsh & Hok' & Ht & Hk). split; [done|]. exists (gl ++ g2 :: gr ++ [g1]).
    destruct (Hok' _ Hokg). split; [|split; [|exact (account_share _ _ _ _ _ _ Ha Hsh)]].
    + apply Forall2_app; [done|]. constructor; [done|]. apply Forall2_app; [done|by repeat constructor].
    + apply Forall_app. split; [done|]. constructor; [done|]. apply Forall_app. split; [done|by constructor].
Qed.

Lemma balanced_run c c' : rtc pstep c c' → balanced c → balanced c'.
Proof using All. intros Hr Hb. induction Hr as [c|c c1 c2 Hs _ IH]; [done|]. apply IH. by eapply balanced_step. Qed.

Lemma balanced_start s ts g :
  inv s → ok s g → Forall (λ p, safe g p (λ _, paid)) ts → account s (replicate (length ts) g) → balanced (s, ts).
Proof.
  intros Hi Ho Hs Ha. split; [done|]. exists (replicate (length ts) g). split; [|split; [by apply Forall_replicate|done]].
  clear -Hs. induction Hs; constructor; auto.
Qed.

Lemma balanced_finished s ts : balanced (s, ts) → finished ts → inv s ∧ ∃ gs, Forall paid gs ∧ Forall (ok s) gs ∧ account s gs.
Proof.
  intros (Hi & gs & H2 & Hok & Ha) Hf. simpl in *. split; [done|]. exists gs. split; [|done]. clear -H2 Hf.
  induction H2 as [|g p gs ts Hg _ IH]; [constructor|].
  apply Forall_cons in Hf as [(r & ->) Hf]. constructor; [done|]. by apply IH.
Qed.
End threads.

(** Follows the structure of a thread; [base] is for its sections. *)
Ltac within_go base :=
  lazymatch goal with
  | |- within _ (mret _) => exact I
  | |- within _ (raises _) => exact I
  | |- within _ (Done _) => exact I
  | |- within _ (ask _) => apply within_ask
  | |- within _ (_ ≫= _) => apply within_bind; [within_go base|intros ?; within_go base]
  | |- within _ (after _ _) => apply within_after; [within_go base|intros ?; within_go base]
  | |- within _ (catching _ _) =>
      apply within_catching; [within_go base|let e := fresh in let k := fresh in let E := fresh in
        intros e k E; repeat case_match; simplify_eq; within_go base]
  | |- within _ (each _ _) => apply within_each; intros ?; within_go base
  | |- within _ (whenp true _) => cbn [whenp]; within_go base
  | |- within _ (whenp ?b _) => destruct b; [cbn [whenp]; within_go base|exact I]
  | |- within _ (locked _) => apply within_locked; base
  | |- within _ (if ?b then _ else _) => destruct b; within_go base
  | |- within _ (match ?x with _ => _ end) => destruct x; within_go base
  | |- within _ (let _ := _ in _) => cbv zeta; within_go base
  | _ => base
  end.
