(* ===== verification/Host.v ===== *)
(** * The operating system

    The services take clocks, files, child processes and fresh identifiers
    from the operating system.  [Host] is the interface they are modelled
    against: an abstract state and what each call observes or changes; nothing
    about the calls' results is assumed here.  [HostLaws] states the documented
    behaviour of the clock that termination arguments rely on. *)

From Stdlib Require Import NArith ZArith QArith Lqa Lia.
From S2P Require Import Prelude PyStr PyJson PyPath PyMonad.
From stdpp Require Import options.
#[global] Open Scope nat_scope.

(** [subprocess.CompletedProcess] *)
Record CompletedProcess := {
  returncode : Z;
  stdout : pystr;
  stderr : pystr }.

Class Host := {
  host : Type;
  (** [time.monotonic()], [time.time()] *)
  monotonic : host → Q;
  wall_time : host → Q;
  (** [datetime.now(timezone.utc).strftime(fmt)] and [.isoformat()] *)
  utc_strftime : pystr → host → pystr;
  utc_isoformat : host → pystr;
  (** [time.sleep(d)] *)
  sleep : Q → host → host;
  (** [uuid4().hex] *)
  uuid4 : host → pystr * host;
  (** [os.environ.get(k)] *)
  getenv : pystr → host → option pystr;
  (** [path.stat().st_mtime]; [None] is [OSError] *)
  stat_mtime : path → host → option Q;
  path_exists : path → host → bool;
  (** [path.read_text()]; [None] is [OSError].  The files read are written by
      these programs: bytes that are no text are left out. *)
  read_text : path → host → option pystr;
  (** [path.write_text(s)], [path.mkdir(parents=True, exist_ok=True)],
      [src.replace(dst)], [path.unlink()], [path.touch()], [os.utime(path)]:
      [false] is [OSError] *)
  write_text : path → pystr → host → bool * host;
  mkdir_p : path → host → bool * host;
  rename : path → path → host → bool * host;
  unlink : path → host → bool * host;
  touch : path → host → bool * host;
  (** names of [path.iterdir()]; [None] is [OSError] *)
  listdir : path → host → option (list pystr);
  (** opening a file for appending succeeds *)
  append_ok : path → host → bool;
  (** [subprocess.run(argv, env=..., timeout=...)]: environment overlay and
      timeout as given; [inl true] is [TimeoutExpired], [inl false] is
      [FileNotFoundError] *)
  run_cmd : list pystr → list (pystr * pystr) → option Q → host →
            (bool + CompletedProcess) * host }.

Class HostLaws `(Host) := {
  sleep_monotonic : ∀ d h, (monotonic h + d <= monotonic (sleep d h))%Q }.

Section ops.
Context `{Host} {S : Type} (get_host : S → host) (set_host : host → S → S).

(** [subprocess.run] as an effect. *)
Definition sub_run (argv : list pystr) (env : list (pystr * pystr)) (timeout : option Q)
    : M S CompletedProcess := λ s,
  match run_cmd argv env timeout (get_host s) with
  | (inr p, h) => (Ret p, set_host h s)
  | (inl true, h) => (Raise TimeoutExpired, set_host h s)
  | (inl false, h) => (Raise FileNotFoundError, set_host h s)
  end.

(** A file-system call that raises [OSError] on failure. *)
Definition os_call (f : host → bool * host) : M S unit := λ s,
  match f (get_host s) with
  | (true, h) => (Ret tt, set_host h s)
  | (false, h) => (Raise (OSError []), set_host h s)
  end.

Definition host_step (f : host → host) : M S unit := modify (λ s, set_host (f (get_host s)) s).
Definition observe {A} (f : host → A) : M S A := gets (λ s, f (get_host s)).
Definition fresh_uuid : M S pystr := λ s,
  let '(x, h) := uuid4 (get_host s) in (Ret x, set_host h s).
End ops.

(** ** A quiet host for the witnesses: nothing on disk, a clock that only
    sleeping advances, programs that succeed silently. *)
Definition quiet_host : Host := {|
  host := Q;
  monotonic h := h;
  wall_time h := h;
  utc_strftime f _ := f;
  utc_isoformat _ := [];
  sleep d h := (h + d)%Q;
  uuid4 h := (u "0", h);
  getenv _ _ := None;
  stat_mtime _ _ := None;
  path_exists _ _ := false;
  read_text _ _ := None;
  write_text _ _ h := (true, h);
  mkdir_p _ h := (true, h);
  rename _ _ h := (true, h);
  unlink _ h := (true, h);
  touch _ h := (true, h);
  listdir _ _ := Some [];
  append_ok _ _ := true;
  run_cmd _ _ _ h := (inr {| returncode := 0; stdout := []; stderr := [] |}, h) |}.

Lemma quiet_laws : HostLaws quiet_host.
Proof. constructor. intros d h. simpl. lra. Qed.
