(* ===== verification/TkParser.v ===== *)
(** * Shell-aware parsing of [tk] commands

    [libs/tk_command_parsing/src/tk_command_parsing/parser.py] and the
    PreToolUse gate [scripts/claude_tk_standalone_check.py] that uses it.  The
    lexer is the standard library's [shlex.shlex] in the configuration the
    source builds ([posix=True], [punctuation_chars=True],
    [whitespace_split=True]), written out as its state machine. *)

From Stdlib Require Import NArith Lia.
From S2P Require Import Prelude PyStr.
From stdpp Require Import options.
#[local] Open Scope py_scope.

(** ** [shlex.shlex] *)
Module Shlex.
Definition whitespace : pystr := [32; 9; 13; 10]%N.
Definition commenter : N := 35.   (* # *)
Definition escape : N := 92.      (* \ *)
Definition squote : N := 39.
Definition dquote : N := 34.
Definition quotes : pystr := [squote; dquote].
Definition punct : pystr := "();<>|&".

(** [self.state] *)
Inductive mode := MSpace | MQuote (q : N) | MEscape | MWord | MPunct | MEof.

#[export] Instance mode_eq_dec : EqDecision mode.
Proof. solve_decision. Defined.

Inductive lex_result :=
  | Tok (t : option pystr) (m : mode) (rest : pystr)
  | NoClosingQuotation
  | NoEscapedCharacter
  | OutOfFuel.

(** The tail of [read_token]: an unquoted empty token is end of file. *)
Definition emit (quoted : bool) (tok : pystr) (m : mode) (rest : pystr) : lex_result :=
  Tok (if negb quoted && (tok =? []) then None else Some tok) m rest.

(** [instream.readline()] *)
Fixpoint skip_line (s : pystr) : pystr :=
  match s with
  | [] => []
  | c :: s' => if (c =? nl)%N then s' else skip_line s'
  end.

(** The loop of [read_token]; a character pushed back is put back in front
    of the input. *)
Fixpoint read_token (fuel : nat) (m esc : mode) (quoted : bool) (tok : pystr)
    (s : pystr) : lex_result :=
  match fuel with
  | O => OutOfFuel
  | S f =>
    match m with
    | MEof => emit quoted [] MEof s
    | MSpace =>
        match s with
        | [] => emit quoted tok MEof []
        | c :: s' =>
            if c ∈? whitespace then
              if (tok <>? []) || quoted then emit quoted tok MSpace s'
              else read_token f MSpace esc quoted tok s'
            else if (c =? commenter)%N then read_token f MSpace esc quoted tok (skip_line s')
            else if (c =? escape)%N then read_token f MEscape MWord quoted tok s'
            else if c ∈? punct then read_token f MPunct esc quoted [c] s'
            else if c ∈? quotes then read_token f (MQuote c) esc quoted tok s'
            else read_token f MWord esc quoted [c] s'
        end
    | MQuote q =>
        match s with
        | [] => NoClosingQuotation
        | c :: s' =>
            if (c =? q)%N then read_token f MWord esc true tok s'
            else if (c =? escape)%N && (q =? dquote)%N then read_token f MEscape (MQuote q) true tok s'
            else read_token f (MQuote q) esc true (tok ++ [c]) s'
        end
    | MEscape =>
        match s with
        | [] => NoEscapedCharacter
        | c :: s' =>
            let keep_backslash := match esc with
                                  | MQuote q => negb (c =? escape)%N && negb (c =? q)%N
                                  | _ => false
                                  end in
            read_token f esc esc quoted
              ((if keep_backslash then tok ++ [escape] else tok) ++ [c]) s'
        end
    | MWord | MPunct =>
        match s with
        | [] => emit quoted tok MEof []
        | c :: s' =>
            if c ∈? whitespace then
              if (tok <>? []) || quoted then emit quoted tok MSpace s'
              else read_token f MSpace esc quoted tok s'
            else if (c =? commenter)%N then
              if (tok <>? []) || quoted then emit quoted tok MSpace (skip_line s')
              else read_token f MSpace esc quoted tok (skip_line s')
            else if m =? MPunct then
              if c ∈? punct then read_token f MPunct esc quoted (tok ++ [c]) s'
              else emit quoted tok MSpace s
            else if c ∈? quotes then read_token f (MQuote c) esc quoted tok s'
            else if (c =? escape)%N then read_token f MEscape MWord quoted tok s'
            else if c ∉? punct then read_token f MWord esc quoted (tok ++ [c]) s'
            else if (tok <>? []) || quoted then emit quoted tok MSpace s
            else read_token f MSpace esc quoted tok s
        end
    end
  end.

Definition read_fuel (s : pystr) : nat := S (S (2 * length s)).

(** [list(lexer)]: [LexError] is the [ValueError] of an unbalanced quote or
    a trailing backslash. *)
Inductive lexed := Lexed (l : list pystr) | LexError | LexOutOfFuel.

Fixpoint tokens_go (fuel : nat) (m : mode) (s : pystr) : lexed :=
  match fuel with
  | O => LexOutOfFuel
  | S f =>
      match read_token (read_fuel s) m MSpace false [] s with
      | Tok None _ _ => Lexed []
      | Tok (Some t) m' rest =>
          match tokens_go f m' rest with Lexed ts => Lexed (t :: ts) | r => r end
      | NoClosingQuotation | NoEscapedCharacter => LexError
      | OutOfFuel => LexOutOfFuel
      end
  end.
Definition tokens (s : pystr) : lexed := tokens_go (S (length s)) MSpace s.
End Shlex.

Definition _PUNCT : pystr := Shlex.punct.
Definition _TK_BASENAMES : list pystr := [u "tk"; u "ticket"].

Record CommandSegment := {
  words : list pystr;
  has_redirect : bool;
  tk_verb : option pystr;
  tk_args : list pystr }.

Record ParsedCommand := { segments : list CommandSegment }.

#[export] Instance CommandSegment_eq_dec : EqDecision CommandSegment.
Proof. solve_decision. Defined.

(** ** [_newlines_to_semicolons] *)

Definition word_boundary : list N := [32; 9; 10]%N ++ _PUNCT.

Fixpoint n2s_loop (quote : option N) (escaped in_comment : bool) (prev : option N)
    (cmd : pystr) : pystr :=
  match cmd with
  | [] => []
  | ch :: cmd' =>
      if in_comment then
        if (ch =? nl)%N then 59%N :: n2s_loop quote escaped false (Some nl) cmd'
        else n2s_loop quote escaped true prev cmd'
      else if escaped then ch :: n2s_loop quote false false (Some ch) cmd'
      else if (quote <>? Some 39%N) && (ch =? 92)%N then
        ch :: n2s_loop quote true false (Some ch) cmd'
      else match quote with
      | Some q =>
          ch :: n2s_loop (if (ch =? q)%N then None else quote) false false (Some ch) cmd'
      | None =>
          if (ch =? 39)%N || (ch =? 34)%N then
            ch :: n2s_loop (Some ch) false false (Some ch) cmd'
          else if (ch =? 35)%N && match prev with None => true | Some p => p ∈? word_boundary end then
            n2s_loop quote false true prev cmd'
          else (if (ch =? nl)%N then 59%N else ch) :: n2s_loop quote false false (Some ch) cmd'
      end
  end.

Definition _newlines_to_semicolons (cmd : pystr) : pystr := n2s_loop None false false None cmd.

(** ** [_tokenize] and the operator tests *)

Definition _tokenize (cmd : pystr) : option (list pystr) :=
  match Shlex.tokens cmd with Shlex.Lexed ts => Some ts | _ => None end.

Definition _is_punct (tok : pystr) : bool := (tok <>? []) && forallb (λ ch, ch ∈? _PUNCT) tok.
Definition _is_redirect (tok : pystr) : bool := _is_punct tok && (contains "<" tok || contains ">" tok).
Definition _is_control (tok : pystr) : bool := _is_punct tok && negb (_is_redirect tok).

Section parser.
Context `{UnicodeDB}.

(** [_ENV_ASSIGN.match]: [^[A-Za-z_]\w*=] *)
Fixpoint word_then_eq (s : pystr) : bool :=
  match s with
  | [] => false
  | c :: s' => (c =? 61)%N || (is_word c && word_then_eq s')
  end.
Definition env_assign (w : pystr) : bool :=
  match w with
  | [] => false
  | c :: w' => (is_letter c || (c =? 95)%N) && word_then_eq w'
  end.

Fixpoint skip_env (ws : list pystr) : list pystr :=
  match ws with
  | w :: ws' => if env_assign w then skip_env ws' else ws
  | [] => []
  end.

Definition _classify_segment (ws : list pystr) (redirect : bool) : CommandSegment :=
  let tk := match skip_env ws with
    | w :: after =>
        if rsplit_last 47 w ∈? _TK_BASENAMES then
          match (match after with
                 | a :: after' => if a =? "super" then after' else after
                 | [] => []
                 end) with
          | verb :: args => (Some verb, args)
          | [] => (None, [])
          end
        else (None, [])
    | [] => (None, [])
    end in
  {| words := ws; has_redirect := redirect; tk_verb := tk.1; tk_args := tk.2 |}.

(** ** [parse_command] *)

Fixpoint segment_tokens (toks : list pystr) (ws : list pystr) (redirect : bool)
    : list CommandSegment :=
  match toks with
  | [] => [_classify_segment ws redirect]
  | tok :: toks' =>
      if _is_control tok then _classify_segment ws redirect :: segment_tokens toks' [] false
      else if _is_redirect tok then segment_tokens toks' ws true
      else segment_tokens toks' (ws ++ [tok]) redirect
  end.

Definition parse_command (command : pystr) : option ParsedCommand :=
  match _tokenize (_newlines_to_semicolons (strip command)) with
  | None => None
  | Some toks => Some {| segments := segment_tokens toks [] false |}
  end.

(** ** [flag_values], [extract_create_titles] *)

Fixpoint flag_values (args : list pystr) (flag : pystr) : list pystr :=
  match args with
  | [] => []
  | tok :: rest =>
      if tok =? flag then
        match rest with
        | v :: rest' => v :: flag_values rest' flag
        | [] => flag_values rest flag
        end
      else if startswith (flag ++ "=") tok then
        drop (length (flag ++ "=")) tok :: flag_values rest flag
      else flag_values rest flag
  end.

Definition extract_create_titles (command : pystr) : list pystr :=
  if negb (contains "--step" command) then []
  else match parse_command command with
       | None => []
       | Some parsed =>
           concat (map (λ seg, if tk_verb seg =? Some (u "create")
                               then flag_values (tk_args seg) "--step" else [])
                       (segments parsed))
       end.

(** ** The standalone gate: [classify] and [main]'s exit status *)

Definition _LIFECYCLE_VERBS : list pystr := [u "start"; u "close"].
Inductive violation := BEFORE | REDIRECT | CHAIN.

#[export] Instance violation_eq_dec : EqDecision violation.
Proof. solve_decision. Defined.

Definition is_lifecycle (seg : CommandSegment) : bool :=
  match tk_verb seg with Some v => v ∈? _LIFECYCLE_VERBS | None => false end.

Definition classify (cmd : pystr) : option violation :=
  match parse_command cmd with
  | None => None
  | Some parsed =>
      if negb (existsb is_lifecycle (segments parsed)) then None
      else match segments parsed with
           | [] => None
           | first :: _ =>
               if negb (is_lifecycle first) then Some BEFORE
               else if has_redirect first then Some REDIRECT
               else if (1 <? length (segments parsed))%nat then Some CHAIN
               else None
           end
  end.

(** [main]: the exit status, 0 to allow and 2 to block. *)
Definition gate_main (argv : list pystr) : Z :=
  let command := match argv with _ :: c :: _ => c | _ => [] end in
  match classify command with None => 0%Z | Some _ => 2%Z end.

End parser.

(** ** The lexer terminates *)
Module ShlexFacts.
Import Shlex.

Definition meas (m : mode) (s : pystr) : nat :=
  2 * length s + (if m =? MSpace then 0 else 1).

Lemma skip_line_length s : length (skip_line s) <= length s.
Proof. induction s as [|c s IH]; simpl; [lia|]. destruct (c =? nl)%N; lia. Qed.

Lemma read_token_fuel fuel m esc quoted tok s :
  meas m s < fuel → read_token fuel m esc quoted tok s ≠ OutOfFuel.
Proof.
  revert m esc quoted tok s. induction fuel as [|f IH]; intros m esc quoted tok s Hf; [lia|].
  pose proof (skip_line_length (tail s)).
  assert (∀ m' : mode, meas m' s <= 2 * length s + 1) by (intros m'; unfold meas; case_match; lia).
  destruct m, s as [|c s]; simpl; unfold emit; try done;
    repeat case_match; try done; apply IH;
    unfold meas in *; simpl in *; repeat case_match; lia.
Qed.

(** A token consumes at least one character. *)
Lemma read_token_consumes fuel L m esc quoted tok s t m' rest :
  length s <= L →
  (m ≠ MSpace ∨ tok ≠ [] ∨ quoted = true → length s < L) →
  read_token fuel m esc quoted tok s = Tok (Some t) m' rest → length rest < L.
Proof.
  revert m esc quoted tok s. induction fuel as [|f IH]; intros m esc quoted tok s HL Hlt; [done|].
  pose proof (skip_line_length (tail s)) as Hsk.
  assert (tok = [] ∨ tok ≠ []) as Htok by (destruct tok; auto).
  destruct m, s as [|c s]; simpl in *; unfold emit;
    repeat (let E := fresh "E" in case_match eqn:E); intros Hr; simplify_eq; py_bool;
    try (eapply IH in Hr; [done | simpl; lia | intros _; simpl; lia]);
    try (eapply IH in Hr; [done | simpl; lia | naive_solver lia]);
    simpl in *; try lia; try (assert (length (c :: s) < L); simpl in *; [|lia]);
    destruct quoted; simpl in *; py_bool; try congruence; naive_solver lia.
Qed.

(** Between two tokens the lexer is in the white-space state or at the end. *)
Lemma read_token_mode fuel m esc quoted tok s t m' rest :
  read_token fuel m esc quoted tok s = Tok t m' rest → m' = MSpace ∨ m' = MEof.
Proof.
  revert m esc quoted tok s. induction fuel as [|f IH]; intros m esc quoted tok s; [done|].
  destruct m, s as [|c s]; simpl; unfold emit; repeat case_match; intros Hr; simplify_eq; eauto.
Qed.

Lemma read_token_eof s : read_token (read_fuel s) MEof MSpace false [] s = Tok None MEof s.
Proof. done. Qed.

#[local] Arguments read_token : simpl never.
#[local] Arguments read_fuel : simpl never.

Lemma tokens_go_fuel fuel m s :
  m = MSpace ∨ m = MEof → length s < fuel → tokens_go fuel m s ≠ LexOutOfFuel.
Proof.
  revert m s. induction fuel as [|f IH]; intros m s Hm Hf; [lia|]. simpl.
  destruct (read_token _ _ _ _ _ _) as [[t|] m' rest| | |] eqn:E; try done.
  - assert (tokens_go f m' rest ≠ LexOutOfFuel) as Hne; [|by destruct (tokens_go f m' rest)].
    destruct Hm as [->| ->]; [|by rewrite read_token_eof in E].
    apply IH; [by eapply read_token_mode|].
    destruct s as [|c s]; [done|].
    eapply (read_token_consumes _ (length (c :: s))) in E; simpl in *; [lia|lia|].
    intros [?|[?|?]]; done.
  - exfalso. revert E. apply read_token_fuel. unfold meas, read_fuel. case_match; lia.
Qed.
End ShlexFacts.

(** ** Facts about the parser *)

(** Every newline of the text is quoted or escaped: the scan a shell makes of
    it meets no command separator that is a newline. *)
Fixpoint exposed_newline (quote : option N) (escaped : bool) (s : pystr) : bool :=
  match s with
  | [] => false
  | ch :: s' =>
      if escaped then exposed_newline quote false s'
      else if (quote <>? Some 39%N) && (ch =? 92)%N then exposed_newline quote true s'
      else match quote with
      | Some q => exposed_newline (if (ch =? q)%N then None else quote) false s'
      | None =>
          if (ch =? 39)%N || (ch =? 34)%N then exposed_newline (Some ch) false s'
          else (ch =? nl)%N || exposed_newline None false s'
      end
  end.

(** No quote, no escape, no comment: the part of the language on which the
    normalisation is a plain replacement. *)
Definition plain_char (c : N) : bool :=
  negb ((c =? 39) || (c =? 34) || (c =? 92) || (c =? 35))%N.

Section facts.
Context `{UnicodeDB}.

Lemma n2s_loop_no_exposed quote escaped in_comment prev cmd :
  (in_comment = true → quote = None ∧ escaped = false) →
  exposed_newline quote escaped (n2s_loop quote escaped in_comment prev cmd) = false.
Proof.
  revert quote escaped in_comment prev.
  induction cmd as [|ch cmd IH]; intros quote escaped in_comment prev Hc; simpl; [done|].
  destruct in_comment.
  { destruct Hc as [-> ->]; [done|]. destruct (ch =? nl)%N; simpl; apply IH; naive_solver. }
  destruct escaped; simpl; [by apply IH|].
  destruct ((quote <>? Some 39%N) && (ch =? 92)%N) eqn:Eb; simpl.
  { rewrite Eb. by apply IH. }
  destruct quote as [q|]; simpl in *.
  { rewrite Eb. by apply IH. }
  destruct ((ch =? 39)%N || (ch =? 34)%N) eqn:Eq; simpl.
  { rewrite Eb, Eq. by apply IH. }
  case_match; [by apply IH|]. simpl.
  destruct (ch =? nl)%N eqn:En; simpl; [by apply IH|]. rewrite Eb, Eq, En. by apply IH.
Qed.

Lemma n2s_loop_plain prev cmd :
  forallb plain_char cmd = true →
  n2s_loop None false false prev cmd = map (λ c, if (c =? nl)%N then 59%N else c) cmd.
Proof.
  revert prev. induction cmd as [|c cmd IH]; intros prev; simpl; [done|].
  unfold plain_char at 1. rewrite andb_true_iff, negb_true_iff, !orb_false_iff.
  intros [[[[-> ->] ->] ->] Hcmd]. simpl. by rewrite IH.
Qed.

Lemma segment_tokens_app t1 ctl t2 ws r :
  _is_control ctl = true →
  segment_tokens (t1 ++ ctl :: t2) ws r = segment_tokens t1 ws r ++ segment_tokens t2 [] false.
Proof.
  intros Hctl. revert ws r. induction t1 as [|t t1 IH]; intros ws r; simpl; [by rewrite Hctl|].
  repeat case_match; simpl; by rewrite IH.
Qed.

Lemma segment_tokens_words toks ws r :
  concat (map words (segment_tokens toks ws r)) =
  ws ++ List.filter (λ t, negb (_is_control t) && negb (_is_redirect t)) toks.
Proof.
  revert ws r. induction toks as [|t toks IH]; intros ws r; simpl.
  - by rewrite !app_nil_r.
  - destruct (_is_control t) eqn:Ec; simpl; [by rewrite IH|].
    destruct (_is_redirect t); simpl; rewrite IH; [done|]. by rewrite <- app_assoc.
Qed.

Lemma segment_tokens_length toks ws r :
  length (segment_tokens toks ws r) = S (length (List.filter _is_control toks)).
Proof.
  revert ws r. induction toks as [|t toks IH]; intros ws r; simpl; [done|].
  destruct (_is_control t); simpl; [by rewrite IH|]. case_match; by rewrite IH.
Qed.

Lemma flag_values_cons_sep flag v rest :
  flag_values (flag :: v :: rest) flag = v :: flag_values rest flag.
Proof. simpl. by rewrite bool_decide_eq_true_2. Qed.

Lemma flag_values_cons_joined flag v rest :
  flag_values ((flag ++ u "=" ++ v) :: rest) flag = v :: flag_values rest flag.
Proof.
  simpl. rewrite bool_decide_eq_false_2.
  2:{ intros E. apply (f_equal length) in E. rewrite !length_app in E. change (length (u "=")) with 1 in E. lia. }
  rewrite app_assoc, startswith_app, drop_app_length. done.
Qed.

(** How a caller may write one [flag] argument. *)
Inductive spelling := Separated | Joined.
Definition spell (flag : pystr) (s : spelling) (v : pystr) : list pystr :=
  match s with Separated => [flag; v] | Joined => [flag ++ u "=" ++ v] end.

(** ** Commands as a caller spells them *)

(** A word written bare or between single quotes. *)
Inductive word_spelling := Bare (w : pystr) | Quoted (w : pystr).

Definition word_value (x : word_spelling) : pystr := match x with Bare w | Quoted w => w end.
Definition word_text (x : word_spelling) : pystr :=
  match x with Bare w => w | Quoted w => 39%N :: w ++ [39%N] end.

(** No character the shell gives a meaning to. *)
Definition bare_char (c : N) : bool :=
  negb (is_space c) && negb ((c =? 35) || (c =? 92) || (c =? 39) || (c =? 34))%N
  && (c ∉? _PUNCT).

Definition word_ok (x : word_spelling) : bool :=
  match x with
  | Bare w => (w <>? []) && forallb bare_char w
  | Quoted w => 39%N ∉? w
  end.

Definition command_text (ws : list word_spelling) : pystr := join (u " ") (map word_text ws).

Lemma bare_char_spec c :
  bare_char c = true →
  is_space c = false ∧ (c =? 35)%N = false ∧ (c =? 92)%N = false ∧ (c =? 39)%N = false
  ∧ (c =? 34)%N = false ∧ (c =? nl)%N = false ∧ c ∉ _PUNCT ∧ c ∉ Shlex.whitespace ∧ c ∉ Shlex.quotes.
Proof.
  unfold bare_char. rewrite !andb_true_iff, !negb_true_iff, !orb_false_iff.
  intros [[Hs [[[H1 H2] H3] H4]] Hp]. apply bool_decide_eq_false in Hp. split_and!; auto.
  - destruct (N.eqb_spec c nl) as [->|]; [by vm_compute in Hs | done].
  - unfold Shlex.whitespace. intros Hin. repeat (apply elem_of_cons in Hin as [->|Hin]; [by vm_compute in Hs|]).
    by apply not_elem_of_nil in Hin.
  - unfold Shlex.quotes, Shlex.squote, Shlex.dquote. intros Hin.
    apply elem_of_cons in Hin as [->|Hin]; [done|]. apply list_elem_of_singleton in Hin as ->. done.
Qed.

Lemma n2s_quoted w prev rest :
  39%N ∉ w →
  n2s_loop (Some 39%N) false false prev (w ++ 39%N :: rest)
  = w ++ 39%N :: n2s_loop None false false (Some 39%N) rest.
Proof.
  revert prev. induction w as [|c w IH]; intros prev Hw; simpl; [done|].
  apply not_elem_of_cons in Hw as [Hc Hw].
  destruct (N.eqb_spec c 39); [congruence|]. by rewrite IH.
Qed.

Lemma n2s_bare w prev rest :
  forallb bare_char w = true →
  ∃ prev', n2s_loop None false false prev (w ++ rest) = w ++ n2s_loop None false false prev' rest.
Proof.
  revert prev. induction w as [|c w IH]; intros prev; simpl; [by eexists|].
  intros [(_ & H35 & H92 & H39 & H34 & Hnl & _)%bare_char_spec Hw]%andb_true_iff.
  destruct (IH (Some c) Hw) as [p' E]. exists p'. rewrite H92, H39, H34, H35, Hnl. simpl. by rewrite E.
Qed.

Lemma n2s_command ws prev :
  forallb word_ok ws = true → n2s_loop None false false prev (command_text ws) = command_text ws.
Proof.
  unfold command_text. revert prev. induction ws as [|x ws IH]; intros prev; [done|].
  simpl forallb. intros [Hx Hws]%andb_true_iff.
  assert (∀ prev rest, ∃ prev', n2s_loop None false false prev (word_text x ++ rest)
     = word_text x ++ n2s_loop None false false prev' rest) as Hw.
  { intros prev0 rest. destruct x as [w|w]; simpl in Hx |- *.
    - apply andb_true_iff in Hx as [_ Hx]. by apply n2s_bare.
    - apply negb_true_iff, bool_decide_eq_false in Hx.
      eexists. rewrite <- app_assoc. simpl. by rewrite n2s_quoted, <- app_assoc. }
  destruct ws as [|y ws].
  - simpl. destruct (Hw prev []) as [p' E]. rewrite !app_nil_r in E. by rewrite E.
  - change (join (u " ") (map word_text (x :: y :: ws)))
      with (word_text x ++ u " " ++ join (u " ") (map word_text (y :: ws))).
    destruct (Hw prev (u " " ++ join (u " ") (map word_text (y :: ws)))) as [p' ->].
    f_equal. change (u " " ++ join (u " ") (map word_text (y :: ws)))
      with (32%N :: join (u " ") (map word_text (y :: ws))).
    cbn [n2s_loop]. simpl. by rewrite IH.
Qed.

Import Shlex.

Lemma read_quoted w k tok q rest :
  39%N ∉ w →
  read_token (length w + S k) (MQuote 39) MSpace q tok (w ++ 39%N :: rest)
  = read_token k MWord MSpace true (tok ++ w) rest.
Proof.
  revert q tok. induction w as [|c w IH]; intros q tok Hw; simpl; [by rewrite app_nil_r|].
  apply not_elem_of_cons in Hw as [Hc Hw]. destruct (N.eqb_spec c 39); [congruence|].
  rewrite andb_false_r. rewrite IH by done. by rewrite <- app_assoc.
Qed.

Lemma read_bare w k tok q rest :
  forallb bare_char w = true →
  read_token (length w + k) MWord MSpace q tok (w ++ rest)
  = read_token k MWord MSpace q (tok ++ w) rest.
Proof.
  revert tok. induction w as [|c w IH]; intros tok; simpl; [by rewrite app_nil_r|].
  intros [(_ & H35 & H92 & _ & _ & _ & Hp & Hws & Hq)%bare_char_spec Hw]%andb_true_iff.
  rewrite (bool_decide_eq_false_2 (c ∈ whitespace)) by done. unfold commenter, escape.
  rewrite H35, H92. rewrite (bool_decide_eq_false_2 (c ∈ quotes)) by done.
  change (bool_decide (c ∈ Shlex.punct)) with (bool_decide (c ∈ _PUNCT)).
  rewrite (bool_decide_eq_false_2 (c ∈ _PUNCT)) by done. simpl.
  rewrite IH by done. by rewrite <- app_assoc.
Qed.

Lemma read_first_bare f c s :
  bare_char c = true →
  read_token (S f) MSpace MSpace false [] (c :: s) = read_token f MWord MSpace false [c] s.
Proof.
  intros (_ & H35 & H92 & _ & _ & _ & Hp & Hws & Hq)%bare_char_spec. simpl.
  rewrite (bool_decide_eq_false_2 (c ∈ whitespace)) by done. unfold commenter, escape.
  rewrite H35, H92. rewrite (bool_decide_eq_false_2 (c ∈ quotes)) by done.
  change (bool_decide (c ∈ Shlex.punct)) with (bool_decide (c ∈ _PUNCT)).
  by rewrite (bool_decide_eq_false_2 (c ∈ _PUNCT)) by done.
Qed.

Lemma read_first_quote f s :
  read_token (S f) MSpace MSpace false [] (39%N :: s) = read_token f (MQuote 39) MSpace false [] s.
Proof. done. Qed.

(** After a word: the end of the text or a blank. *)
Definition word_end (rest : pystr) : Prop := rest = [] ∨ ∃ r, rest = 32%N :: r.

Lemma read_word x rest :
  word_ok x = true → word_end rest →
  ∃ m, read_token (read_fuel (word_text x ++ rest)) MSpace MSpace false [] (word_text x ++ rest)
    = Tok (Some (word_value x)) m (tail rest)
    ∧ (m = MSpace ∨ (m = MEof ∧ rest = [])).
Proof.
  intros Hx Hr.
  assert (∀ k tok q, (tok ≠ [] ∨ q = true) → ∃ m, read_token (S k) MWord MSpace q tok rest
     = Tok (Some tok) m (tail rest) ∧ (m = MSpace ∨ (m = MEof ∧ rest = []))) as Hend.
  { intros k tok q Hq.
    assert (negb q && (tok =? []) = false) as He.
    { destruct q; [done|]. destruct Hq as [Hq|]; [|done]. simpl. by apply bool_decide_eq_false. }
    destruct Hr as [->|[r ->]]; simpl; unfold Shlex.emit; rewrite ?He.
    - exists MEof. auto.
    - assert ((tok <>? []) || q = true) as ->; [|by exists MSpace; auto].
      destruct q; [by rewrite orb_true_r|]. simpl in *. destruct (tok =? []); done. }
  destruct x as [w|w]; simpl in Hx; cbn [word_text word_value].
  - apply andb_true_iff in Hx as [Hne Hw]. destruct w as [|c w]; [done|]. clear Hne.
    simpl in Hw. apply andb_true_iff in Hw as [Hc Hw].
    unfold read_fuel. cbn [app]. rewrite read_first_bare by done.
    match goal with |- context [read_token ?f MWord MSpace false [c] _] =>
      replace f with (length w + S (f - S (length w)))%nat by (simpl; rewrite length_app; lia) end.
    rewrite read_bare by done. apply Hend. by left.
  - apply negb_true_iff, bool_decide_eq_false in Hx. unfold read_fuel. cbn [app].
    rewrite read_first_quote, <- app_assoc. cbn [app].
    match goal with |- context [read_token ?f (MQuote _) MSpace false [] _] =>
      replace f with (length w + S (S (f - S (S (length w)))))%nat
        by (simpl; rewrite !length_app; simpl; lia) end.
    rewrite read_quoted by done. apply Hend. by right.
Qed.

Lemma tokens_command fuel ws m :
  forallb word_ok ws = true → length (command_text ws) < fuel → m = MSpace →
  tokens_go fuel m (command_text ws) = Lexed (map word_value ws).
Proof.
  unfold command_text. revert fuel m. induction ws as [|x ws IH]; intros fuel m; simpl forallb.
  { intros _ Hf ->. destruct fuel; [simpl in Hf; lia|]. done. }
  intros [Hx Hws]%andb_true_iff Hf ->. destruct fuel as [|fuel]; [lia|].
  destruct ws as [|y ws].
  - simpl join. cbn [tokens_go]. destruct (read_word x [] Hx (or_introl eq_refl)) as (m & E & Hm).
    rewrite app_nil_r in E. rewrite E. simpl tail.
    assert (tokens_go fuel m [] = Lexed []) as ->; [|done].
    assert (word_text x ≠ []) as Hne by (destruct x as [[]|]; [done..|done]).
    simpl in Hf. destruct fuel; [destruct (word_text x); simpl in *; [done|lia]|].
    by destruct Hm as [->|[-> _]].
  - change (join (u " ") (map word_text (x :: y :: ws)))
      with (word_text x ++ 32%N :: join (u " ") (map word_text (y :: ws))) in *.
    cbn [tokens_go].
    destruct (read_word x (32%N :: join (u " ") (map word_text (y :: ws))) Hx) as (m & E & Hm); [right; eauto|].
    rewrite E. simpl tail. destruct Hm as [->|[_ ?]]; [|done].
    rewrite IH; [done|done| |done].
    rewrite length_app in Hf. cbn [length] in Hf. lia.
Qed.

Lemma word_text_ends x :
  word_ok x = true →
  (∃ a r, word_text x = a :: r ∧ is_space a = false) ∧ (∃ l b, word_text x = l ++ [b] ∧ is_space b = false).
Proof.
  destruct x as [w|w]; simpl.
  - intros [Hne Hw]%andb_true_iff. destruct w as [|c w]; [done|]. split.
    + exists c, w. split; [done|]. simpl in Hw. apply andb_true_iff in Hw as [Hc _].
      by destruct (bare_char_spec c Hc).
    + destruct (c :: w) as [|b l _] using rev_ind; [done|]. exists l, b. split; [done|].
      rewrite forallb_app in Hw. apply andb_true_iff in Hw as [_ Hb]. simpl in Hb.
      rewrite andb_true_r in Hb. by destruct (bare_char_spec b Hb).
  - intros _. split; [by eexists _, _|]. by exists (39%N :: w), 39%N.
Qed.

Lemma strip_command ws : forallb word_ok ws = true → strip (command_text ws) = command_text ws.
Proof.
  unfold command_text. destruct ws as [|x ws]; [done|].
  intros [Hx Hws]%andb_true_iff.
  destruct (word_text_ends x Hx) as [(a & r & Ea & Ha) _].
  assert (∃ l b, join (u " ") (map word_text (x :: ws)) = l ++ [b] ∧ is_space b = false) as (l & b & Eb & Hb).
  { clear a r Ea Ha. revert x Hx. induction ws as [|y ws IH]; intros x Hx.
    - simpl. by apply word_text_ends.
    - simpl in Hws. apply andb_true_iff in Hws as [Hy Hws].
      destruct (IH Hws y Hy) as (l & b & E & Hb). exists (word_text x ++ u " " ++ l), b.
      split; [|done]. change (join (u " ") (map word_text (x :: y :: ws)))
        with (word_text x ++ u " " ++ join (u " ") (map word_text (y :: ws))).
      by rewrite E, <- !app_assoc. }
  assert (∃ r', join (u " ") (map word_text (x :: ws)) = a :: r') as [r' Er].
  { destruct ws; simpl; rewrite Ea; simpl; eauto. }
  by eapply strip_ends.
Qed.

Lemma parse_command_text ws :
  forallb word_ok ws = true →
  parse_command (command_text ws) = Some {| segments := segment_tokens (map word_value ws) [] false |}.
Proof.
  intros Hws. unfold parse_command. rewrite strip_command by done.
  unfold _newlines_to_semicolons. rewrite n2s_command by done.
  unfold _tokenize, tokens. by rewrite tokens_command by (done || lia).
Qed.

Lemma segment_tokens_plain toks ws r :
  forallb (λ t, negb (_is_punct t)) toks = true →
  segment_tokens toks ws r = [_classify_segment (ws ++ toks) r].
Proof.
  revert ws. induction toks as [|t toks IH]; intros ws; simpl; [by rewrite app_nil_r|].
  intros [Ht Htoks]%andb_true_iff. apply negb_true_iff in Ht.
  unfold _is_control, _is_redirect. rewrite Ht. simpl. rewrite IH by done. by rewrite <- app_assoc.
Qed.

(** Newline normalisation: whatever the command, no newline of the result is
    left where a shell would read it as a command separator -- each one is
    inside quotes or escaped (comments are dropped, unquoted newlines are [;]). *)
Theorem newlines_to_semicolons_no_exposed_newline cmd :
  exposed_newline None false (_newlines_to_semicolons cmd) = false.
Proof. by apply n2s_loop_no_exposed. Qed.

Theorem newlines_to_semicolons_plain cmd :
  forallb plain_char cmd = true →
  _newlines_to_semicolons cmd = map (λ c, if (c =? nl)%N then 59%N else c) cmd.
Proof. apply n2s_loop_plain. Qed.

(** The lexer always terminates with tokens or the lexing error: on no input
    does it run out of fuel. *)
Theorem tokenize_total cmd : Shlex.tokens cmd ≠ Shlex.LexOutOfFuel.
Proof. apply ShlexFacts.tokens_go_fuel; [by left | lia]. Qed.

(** [parse_command] loses no word: the segments' words are the lexer's word
    tokens in order, and there is one segment more than control operators. *)
Theorem parse_command_segments command toks :
  _tokenize (_newlines_to_semicolons (strip command)) = Some toks →
  ∃ p, parse_command command = Some p
    ∧ concat (map words (segments p)) =
        List.filter (λ t, negb (_is_control t) && negb (_is_redirect t)) toks
    ∧ length (segments p) = S (length (List.filter _is_control toks)).
Proof.
  intros E. eexists. unfold parse_command. rewrite E. split; [done|]. simpl.
  by rewrite segment_tokens_words, segment_tokens_length.
Qed.

(** [flag_values] recovers exactly the values a caller passed, in order,
    whichever of the two spellings each of them uses. *)
Theorem flag_values_roundtrip flag (occ : list (spelling * pystr)) :
  flag_values (concat (map (λ '(s, v), spell flag s v) occ)) flag = map snd occ.
Proof.
  induction occ as [|[[] v] occ IH]; simpl map; simpl concat; [done| |].
  - simpl app. by rewrite flag_values_cons_sep, IH.
  - simpl app. by rewrite flag_values_cons_joined, IH.
Qed.

(** The gate allows a command exactly when it cannot be tokenized, holds no
    [tk start]/[tk close] segment, or consists of one such segment alone and
    without a redirect. *)
Theorem classify_allows_iff cmd :
  classify cmd = None ↔
  match parse_command cmd with
  | None => True
  | Some p =>
      (∀ seg, seg ∈ segments p → is_lifecycle seg = false)
      ∨ ∃ seg, segments p = [seg] ∧ is_lifecycle seg = true ∧ has_redirect seg = false
  end.
Proof.
  unfold classify. destruct (parse_command cmd) as [[segs]|]; simpl; [|done].
  destruct (existsb is_lifecycle segs) eqn:E; simpl.
  - apply existsb_elem in E as (x & Hx & Hlife).
    destruct segs as [|s segs]; [by inv Hx|].
    destruct (is_lifecycle s) eqn:Es, (has_redirect s) eqn:Er, segs as [|s2 segs]; simpl;
      (split; [intros ?; try done | intros [Hno|(s' & Heq & ? & ?)]; try done]);
      try (by rewrite Hno in Hlife by done); try (by inv Heq; congruence).
    + right. by exists s.
  - rewrite existsb_none in E. naive_solver.
Qed.

(** C40: a command whose words are bare, of characters the shell gives no meaning
    to, or in single quotes, whatever is between them but a single quote
    (operators, newlines, [#], backslashes), is parsed as one segment with exactly
    these words, when none of the words is made of operator characters alone. *)
Theorem parse_quoted_command ws :
  forallb word_ok ws = true →
  forallb (λ x, negb (_is_punct (word_value x))) ws = true →
  parse_command (command_text ws)
  = Some {| segments := [_classify_segment (map word_value ws) false] |}.
Proof.
  intros Hok Hp. rewrite parse_command_text by done. rewrite segment_tokens_plain; [done|].
  clear Hok. induction ws as [|x ws IH]; [done|]. simpl in *.
  apply andb_true_iff in Hp as [-> Hp]. by apply IH.
Qed.

(** A standalone [tk close <id> '<summary>'] is allowed for every summary
    without a single quote that is not made of operator characters alone. *)
Theorem standalone_close_allowed id summary :
  word_ok (Bare id) = true → 39%N ∉ summary → _is_punct summary = false →
  classify (command_text [Bare "tk"; Bare "close"; Bare id; Quoted summary]) = None.
Proof.
  intros Hid Hs Hp. unfold classify.
  assert (forallb word_ok [Bare "tk"; Bare "close"; Bare id; Quoted summary] = true) as Hok.
  { cbn [forallb]. rewrite Hid. unfold word_ok at 3.
    rewrite (bool_decide_eq_false_2 (39%N ∈ summary)) by done. vm_compute. reflexivity. }
  rewrite parse_command_text by done. cbn [map word_value].
  rewrite segment_tokens_plain; [done|]. cbn [forallb]. rewrite Hp.
  assert (_is_punct id = false) as ->; [|done].
  simpl in Hid. apply andb_true_iff in Hid as [Hne Hid]. destruct id as [|c id]; [done|].
  simpl in Hid. apply andb_true_iff in Hid as [(_ & _ & _ & _ & _ & _ & Hc & _)%bare_char_spec _].
  unfold _is_punct. simpl. by rewrite bool_decide_eq_false_2.
Qed.
End facts.

(** ** Deviations from the shell the parser models *)

#[local] Instance ascii_db : UnicodeDB := {| wide_alnum _ := false |}.

(** A [#] in the middle of a word hides the command after it.  The shell
    runs [tk close s1] on the second line of [echo a#b]; the lexer reads the
    rest of the text as a comment, and the gate allows it. *)
Theorem midword_hash_hides_command :
  let cmd := u "echo a#b" ++ [nl] ++ u "tk close s1" in
  classify cmd = None
  ∧ classify (u "echo ab" ++ [nl] ++ u "tk close s1") = Some BEFORE.
Proof. vm_compute. by split. Qed.

(** A quoted argument made of operator characters is taken for an operator:
    the standalone command [tk close s1 ';'] is blocked as chained. *)
Theorem quoted_operator_blocked :
  classify (u "tk close s1 ';'") = Some CHAIN ∧ classify (u "tk close s1 ';done'") = None.
Proof. vm_compute. by split. Qed.

Lemma parse_command_segments_witness :
  ∃ p, parse_command "cd x && tk close s1" = Some p ∧ length (segments p) = 2.
Proof.
  destruct (parse_command_segments "cd x && tk close s1"
    [u "cd"; u "x"; u "&&"; u "tk"; u "close"; u "s1"] ltac:(vm_compute; reflexivity)) as (p & E & _ & Hl).
  exists p. split; [exact E|]. rewrite Hl. vm_compute. reflexivity.
Defined.

Lemma parse_quoted_command_witness :
  forallb word_ok [Bare "echo"; Quoted "a && b # c"] = true
  ∧ parse_command "echo 'a && b # c'" = Some {| segments := [_classify_segment [u "echo"; u "a && b # c"] false] |}.
Proof.
  split; [vm_compute; reflexivity|].
  exact (parse_quoted_command [Bare "echo"; Quoted "a && b # c"]
    ltac:(vm_compute; reflexivity) ltac:(vm_compute; reflexivity)).
Defined.

Lemma standalone_close_allowed_witness :
  classify "tk close s1 'it works; see > log'" = None.
Proof.
  exact (standalone_close_allowed "s1" "it works; see > log" ltac:(vm_compute; reflexivity)
    ltac:(apply (bool_decide_unpack _); vm_compute; exact I) ltac:(vm_compute; reflexivity)).
Defined.
