(* ===== verification/SessionParser.v ===== *)
(** * system_interface: session transcripts

    [apps/system_interface/imbue/system_interface/session_parser.py] and
    [claude_auth_patterns.py]: raw session lines become transcript events.  The
    two mutable arguments of the source, the ids already emitted and the tool
    names by call id, and the list under construction are the state [pstate].
    The source declares [uuid] and [timestamp] as strings; a line where they are
    another JSON type raises [TypeError] in the model. *)

From Stdlib Require Import NArith ZArith QArith Lia.
From S2P Require Import Prelude PyStr PyJson PyMonad PyKeyed PyRegex TkParser.
From stdpp Require Import options.
#[global] Open Scope nat_scope.
#[local] Open Scope py_scope.

Definition _MAX_INPUT_PREVIEW_LENGTH : nat := 200.
Definition _MAX_OUTPUT_LENGTH : nat := 2000.
Definition _TK_LIFECYCLE_VERBS : list pystr := [u "create"; u "start"; u "close"].
Definition _SOURCE : pystr := "claude/common_transcript".
Definition _INTERRUPT_SENTINEL_TEXT : pystr := "[Request interrupted by user]".
Definition _RESUME_CONTINUATION_TEXT : pystr := "Continue from where you left off.".
Definition _SYNTHETIC_MODEL : pystr := "<synthetic>".
Definition _NO_RESPONSE_REQUESTED_TEXT : pystr := "No response requested.".
Definition _QUEUED_COMMAND_ATTACHMENT_TYPE : pystr := "queued_command".
Definition _QUEUED_COMMAND_PROMPT_MODE : pystr := "prompt".

(** [_TK_OUTPUT_DECORATION_PATTERN] *)
Definition _TK_OUTPUT_DECORATION_PATTERN : re :=
  RAlt
    (RSeqs [RLit (u "Updated "); RPlus non_space; RLit (u " -> ");
            RAlts [RLit (u "open"); RLit (u "in_progress"); RLit (u "closed")]])
    (RSeqs [RLit (u "tk-step "); RPlus non_space; RLit (u " ");
            RAlt (RLit (u "title")) (RLit (u "summary")); RLit (u ": "); RStar dot]).

(** [AUTH_ERROR_PATTERNS] *)
Definition AUTH_ERROR_PATTERNS : list re :=
  let sp := RStar any_space in
  let dash (c : N) := ((c =? 183) || (c =? 8226) || (c =? 45))%N in
  [RSeqs [RLit (u "Not logged in"); sp; RClass dash; sp; RLit (u "Please run /login")];
   RLit (u "Invalid API key");
   RSeq (RLit (u "OAuth token "))
        (RAlts [RLit (u "has been revoked"); RLit (u "has expired");
                RSeq (RLit (u "does not meet scope requirement")) (RAlt (RLit (u "s")) (RLit []))]);
   RSeqs [RLit (bq "`type`"); sp; RLit (u ":"); sp; RLit (bq "`authentication_error`")];
   RSeqs [RLit (u "API Error:"); sp; RLit (u "401"); RBoundary];
   RLit (u "Invalid authentication credentials");
   RLit (u "Credit balance is too low");
   RLit (u "organization has been disabled")].

(** [between open close text]: group 1 of [open(.*?)close] in [re.search]. *)
Definition between (opening closing text : pystr) : option pystr :=
  i ← find opening text;
  let rest := drop (i + length opening) text in
  j ← find closing rest;
  Some (take j rest).

Definition _normalize_slash_command (text : pystr) : pystr :=
  match between "<command-name>" "</command-name>" text with
  | None => text
  | Some n =>
      let command := strip n in
      if command =? [] then text
      else
        let args := match between "<command-args>" "</command-args>" text with
                    | Some a => strip a
                    | None => []
                    end in
        strip (command ++ u " " ++ args)
  end.

(** The text of one content block, if it is a non-empty text block. *)
Definition block_text (block : json) : outcome (option pystr) :=
  match block with
  | JObj d =>
      if jeqs (jget "type" d) "text" then
        let text := jget_or "text" (JStr []) d in
        if truthy text then s ← need_str text; Ret (Some s) else Ret None
      else Ret None
  | _ => Ret None
  end.

Definition _extract_text_content (content : json) : outcome pystr :=
  match content with
  | JStr s => Ret s
  | JList blocks => parts ← mapO block_text blocks; Ret (join [nl] (omap (λ x, x) parts))
  | _ => Ret []
  end.

Definition _has_tool_results_only (content : json) : bool :=
  match content with
  | JStr _ => false
  | JList blocks =>
      forallb (λ block, match block with
        | JObj d => jeqs (jget_or "type" (JStr []) d) "tool_result"
        | JStr _ => false
        | _ => true
        end) blocks
  | _ => true
  end.

Fixpoint take_while (f : N → bool) (s : pystr) : pystr :=
  match s with
  | c :: s' => if f c then c :: take_while f s' else []
  | [] => []
  end.

(** [_AGENT_ID_PATTERN.search(s).group(1)] *)
Definition agent_id_trailer (s : pystr) : option pystr :=
  i ← find "agentId:" s;
  match take_while non_space (lstrip (drop (i + 8) s)) with
  | [] => None
  | id => Some id
  end.

Definition _extract_subagent_id (structured : option pystr) (result_content : pystr) : option pystr :=
  match structured with
  | Some id => Some id
  | None => agent_id_trailer result_content
  end.

Definition _make_event_id (uuid suffix : pystr) : pystr := uuid ++ u "-" ++ suffix.

Section parser.
Context `{UnicodeDB} `{PyRepr}.
(** [str(v)] of a value that is not a string *)
Context (json_str : json → pystr).

Definition is_auth_error_text (text : pystr) : bool :=
  (text <>? []) && existsb (λ r, search true r None text) AUTH_ERROR_PATTERNS.

Definition _is_tk_lifecycle_call (tool_name tool_input : json) : bool :=
  jeqs tool_name "Bash"
  && match tool_input with
     | JObj d =>
         match jget_or "command" (JStr []) d with
         | JStr command =>
             match parse_command command with
             | Some parsed =>
                 existsb (λ seg, match tk_verb seg with Some v => v ∈? _TK_LIFECYCLE_VERBS | None => false end)
                   (segments parsed)
             | None => false
             end
         | _ => false
         end
     | _ => false
     end.

Definition tk_decorations (content : pystr) : list (pystr * nat) :=
  finditer false (S (length content)) _TK_OUTPUT_DECORATION_PATTERN None 0 content.

Definition _truncate_tool_output (content : pystr) : pystr :=
  if (length content <=? _MAX_OUTPUT_LENGTH)%nat then content
  else
    let head := take _MAX_OUTPUT_LENGTH content in
    let preserved := map fst (List.filter (λ m, (_MAX_OUTPUT_LENGTH <? m.2)%nat) (tk_decorations content)) in
    match preserved with
    | [] => head ++ u "..."
    | _ => head ++ u "..." ++ [nl] ++ join [nl] preserved
    end.

Definition _is_resume_continuation_marker (raw : dict) : outcome bool :=
  if negb (truthy (jget "isMeta" raw)) then Ret false
  else
    content ← get "content" (jget_or "message" (JObj []) raw);
    text ← _extract_text_content content;
    Ret (strip text =? _RESUME_CONTINUATION_TEXT).

Definition _is_resume_no_response_reply (message : json) : outcome bool :=
  model ← get "model" message;
  if negb (jeqs model _SYNTHETIC_MODEL) then Ret false
  else
    content ← get "content" message;
    text ← _extract_text_content content;
    Ret (strip text =? _NO_RESPONSE_REQUESTED_TEXT).

(** ** The parser's state *)

Record pstate := {
  existing_event_ids : list pystr;
  tool_name_by_call_id : list (json * json);
  new_events : list (pystr * dict) }.

Abbreviation PM := (M pstate).

Definition add_tool (call_id tool_name : json) : PM unit := λ s,
  match hashable call_id with
  | Ret k => (Ret tt, {| existing_event_ids := existing_event_ids s;
                         tool_name_by_call_id := kset k tool_name (tool_name_by_call_id s);
                         new_events := new_events s |})
  | Raise e => (Raise e, s)
  end.

(** [existing_event_ids.add(event_id); new_events.append((timestamp, event))] *)
Definition emit_event (event_id timestamp : pystr) (event : dict) : PM unit :=
  modify (λ s, {| existing_event_ids := event_id :: existing_event_ids s;
                  tool_name_by_call_id := tool_name_by_call_id s;
                  new_events := new_events s ++ [(timestamp, event)] |}).

Definition seen (event_id : pystr) : PM bool := gets (λ s, event_id ∈? existing_event_ids s).

Definition with_session (session_id : option pystr) (event : dict) : dict :=
  event ++ match session_id with Some s => [(u "session_id", JStr s)] | None => [] end.

(** ** Assistant messages *)

Definition compact (v : json) : pystr := dumps float_repr "," ":" v.

Definition input_preview (tool_name tool_input : json) : pystr :=
  let preview := compact tool_input in
  if (_MAX_INPUT_PREVIEW_LENGTH <? length preview)%nat && negb (_is_tk_lifecycle_call tool_name tool_input)
  then take _MAX_INPUT_PREVIEW_LENGTH preview ++ u "..." else preview.

Definition non_empty_str (v : json) : bool := match v with JStr s => s <>? [] | _ => false end.

(** The card fields of an [Agent] call. *)
Definition agent_fields (tool_name tool_input : json) : dict :=
  match tool_input with
  | JObj d =>
      if jeqs tool_name "Agent" then
        (if non_empty_str (jget "description" d) then [(u "description", jget "description" d)] else [])
        ++ (if non_empty_str (jget "subagent_type" d) then [(u "subagent_type", jget "subagent_type" d)] else [])
      else []
  | _ => []
  end.

Inductive block_part := TextPart (s : pystr) | CallPart (call : json).

(** One block of an assistant message. *)
Definition assistant_block (block : json) : PM (option block_part) :=
  match block with
  | JObj d =>
      let block_type := jget_or "type" (JStr []) d in
      if jeqs block_type "text" then
        let text := jget_or "text" (JStr []) d in
        if truthy text then s ← lift (need_str text); mret (Some (TextPart s)) else mret None
      else if jeqs block_type "tool_use" then
        let call_id := jget_or "id" (JStr []) d in
        let tool_name := jget_or "name" (JStr []) d in
        let tool_input := jget_or "input" (JObj []) d in
        when (truthy call_id && truthy tool_name) (add_tool call_id tool_name);;
        mret (Some (CallPart (JObj (
          [(u "tool_call_id", call_id); (u "tool_name", tool_name);
           (u "input_preview", JStr (input_preview tool_name tool_input))]
          ++ agent_fields tool_name tool_input))))
      else mret None
  | _ => mret None
  end.

Fixpoint assistant_blocks (blocks : list json) : PM (list block_part) :=
  match blocks with
  | [] => mret []
  | b :: bs => p ← assistant_block b; ps ← assistant_blocks bs; mret (option_list p ++ ps)
  end.

Definition usage_of (usage_raw : json) : outcome json :=
  if truthy usage_raw then
    i ← get_default "input_tokens" (JInt 0) usage_raw;
    o ← get_default "output_tokens" (JInt 0) usage_raw;
    r ← get "cache_read_input_tokens" usage_raw;
    w ← get "cache_creation_input_tokens" usage_raw;
    Ret (JObj [(u "input_tokens", i); (u "output_tokens", o);
               (u "cache_read_tokens", r); (u "cache_write_tokens", w)])
  else Ret JNull.

Definition _parse_assistant_message (raw : dict) (uuid timestamp : pystr) (session_id : option pystr)
    : PM unit :=
  let event_id := _make_event_id uuid "assistant" in
  known ← seen event_id;
  if known : bool then mret tt
  else
    let message := jget_or "message" (JObj []) raw in
    hidden ← lift (_is_resume_no_response_reply message);
    if hidden : bool then mret tt
    else
      content ← lift (get_default "content" (JList []) message);
      model ← lift (get_default "model" (JStr (u "unknown")) message);
      stop_reason ← lift (get "stop_reason" message);
      usage_raw ← lift (get_default "usage" (JObj []) message);
      content_blocks ← lift (iter_json content);
      parts ← assistant_blocks content_blocks;
      let text_parts := omap (λ p, match p with TextPart s => Some s | _ => None end) parts in
      let tool_calls := omap (λ p, match p with CallPart c => Some c | _ => None end) parts in
      usage ← lift (usage_of usage_raw);
      let joined_text := join [nl] text_parts in
      emit_event event_id timestamp (with_session session_id
        [(u "timestamp", JStr timestamp); (u "type", JStr (u "assistant_message"));
         (u "event_id", JStr event_id); (u "source", JStr _SOURCE); (u "role", JStr (u "assistant"));
         (u "model", model); (u "text", JStr joined_text); (u "tool_calls", JList tool_calls);
         (u "stop_reason", stop_reason); (u "usage", usage); (u "message_uuid", JStr uuid);
         (u "is_auth_error", JBool (is_auth_error_text joined_text))]).

(** ** User messages and tool results *)

Definition user_event (event_id uuid timestamp text : pystr) (session_id : option pystr) : dict :=
  with_session session_id
    [(u "timestamp", JStr timestamp); (u "type", JStr (u "user_message"));
     (u "event_id", JStr event_id); (u "source", JStr _SOURCE); (u "role", JStr (u "user"));
     (u "content", JStr text); (u "message_uuid", JStr uuid)].

Definition user_text (raw : dict) (content : json) (uuid timestamp : pystr) (session_id : option pystr)
    : PM unit :=
  if _has_tool_results_only content then mret tt
  else
    let event_id := _make_event_id uuid "user" in
    known ← seen event_id;
    if known : bool then mret tt
    else
      text ← lift (_extract_text_content content);
      let text := _normalize_slash_command text in
      if (text =? []) || (strip text =? _INTERRUPT_SENTINEL_TEXT) then mret tt
      else
        marker ← lift (_is_resume_continuation_marker raw);
        if marker : bool then mret tt
        else emit_event event_id timestamp (user_event event_id uuid timestamp text session_id).

(** One item of a result's content list. *)
Definition result_item (item : json) : outcome (option pystr) :=
  match item with
  | JObj d => if jeqs (jget "type" d) "text"
              then s ← need_str (jget_or "text" (JStr []) d); Ret (Some s) else Ret None
  | JStr s => Ret (Some s)
  | _ => Ret None
  end.

Definition result_text (content : json) : outcome pystr :=
  match content with
  | JList items => parts ← mapO result_item items; Ret (join [nl] (omap (λ x, x) parts))
  | JStr s => Ret s
  | v => Ret (json_str v)
  end.

(** The string form of a call id in an event id. *)
Definition id_text (v : json) : pystr := match v with JStr s => s | _ => json_str v end.

Definition tool_result (block : json) (uuid timestamp : pystr) (structured : option pystr)
    (session_id : option pystr) : PM unit :=
  match block with
  | JObj d =>
      if negb (jeqs (jget "type" d) "tool_result") then mret tt
      else
        let tool_call_id := jget_or "tool_use_id" (JStr []) d in
        if negb (truthy tool_call_id) then mret tt
        else
          let event_id := _make_event_id uuid (u "tool_result-" ++ id_text tool_call_id) in
          known ← seen event_id;
          if known : bool then mret tt
          else
            content ← lift (result_text (jget_or "content" (JStr []) d));
            k ← lift (hashable tool_call_id);
            tool_name ← gets (λ s, default (JStr (u "unknown")) (kget k (tool_name_by_call_id s)));
            let subagent := if jeqs tool_name "Agent" then _extract_subagent_id structured content else None in
            emit_event event_id timestamp (with_session session_id
              [(u "timestamp", JStr timestamp); (u "type", JStr (u "tool_result"));
               (u "event_id", JStr event_id); (u "source", JStr _SOURCE);
               (u "tool_call_id", tool_call_id); (u "tool_name", tool_name);
               (u "output", JStr (_truncate_tool_output content));
               (u "is_error", JBool (truthy (jget_or "is_error" (JBool false) d)));
               (u "message_uuid", JStr uuid)]
              ++ match subagent with Some i => [(u "subagent_id", JStr i)] | None => [] end)
  | _ => mret tt
  end.

Definition structured_agent_id (raw : dict) : option pystr :=
  match jget "toolUseResult" raw with
  | JObj d => match jget "agentId" d with JStr s => if s =? [] then None else Some s | _ => None end
  | _ => None
  end.

Definition _parse_user_message (raw : dict) (uuid timestamp : pystr) (session_id : option pystr) : PM unit :=
  content ← lift (get "content" (jget_or "message" (JObj []) raw));
  user_text raw content uuid timestamp session_id;;
  match content with
  | JList blocks => for_each blocks (λ b, tool_result b uuid timestamp (structured_agent_id raw) session_id)
  | _ => mret tt
  end.

(** ** Queued messages *)

Definition _parse_queued_command_attachment (raw : dict) (uuid timestamp : pystr)
    (session_id : option pystr) : PM unit :=
  match jget "attachment" raw with
  | JObj attachment =>
      if negb (jeqs (jget "type" attachment) _QUEUED_COMMAND_ATTACHMENT_TYPE) then mret tt
      else if negb (jeqs (jget "commandMode" attachment) _QUEUED_COMMAND_PROMPT_MODE) then mret tt
      else match jget "prompt" attachment with
           | JStr prompt =>
               if strip prompt =? [] then mret tt
               else
                 let prompt := _normalize_slash_command prompt in
                 let event_id := _make_event_id uuid "queued" in
                 known ← seen event_id;
                 if known : bool then mret tt
                 else emit_event event_id timestamp (user_event event_id uuid timestamp prompt session_id)
           | _ => mret tt
           end
  | _ => mret tt
  end.

(** ** Lines *)

Definition parse_line (session_id : option pystr) (line : pystr) : PM unit :=
  let line := strip line in
  if line =? [] then mret tt
  else match loads line with
  | None => mret tt
  | Some raw =>
      event_type ← lift (get_default "type" (JStr []) raw);
      uuid ← lift (get_default "uuid" (JStr []) raw);
      timestamp ← lift (get_default "timestamp" (JStr []) raw);
      if negb (truthy uuid) || negb (truthy timestamp) then mret tt
      else
        uuid ← lift (need_str uuid);
        timestamp ← lift (need_str timestamp);
        let raw := dict_or_empty raw in
        if jeqs event_type "assistant" then _parse_assistant_message raw uuid timestamp session_id
        else if jeqs event_type "user" then _parse_user_message raw uuid timestamp session_id
        else if jeqs event_type "attachment" then
          _parse_queued_command_attachment raw uuid timestamp session_id
        else mret tt
  end.

Definition by_timestamp (a b : pystr * dict) : bool := str_leb a.1 b.1.

(** [parse_session_lines] on the two tables it is passed: the events, and the
    tables as it leaves them. *)
Definition parse_session_lines (session_id : option pystr) (lines : list pystr) : PM (list dict) :=
  modify (λ s, {| existing_event_ids := existing_event_ids s;
                  tool_name_by_call_id := tool_name_by_call_id s; new_events := [] |});;
  for_each lines (parse_line session_id);;
  events ← gets new_events;
  mret (map snd (sort_by by_timestamp events)).
End parser.

(** ** Facts: what a run emits *)

(** An emitted event: its id, its timestamp and its dictionary agree. *)
Definition well_formed (e : pystr * (pystr * dict)) : Prop :=
  dget "event_id" e.2.2 = Some (JStr e.1) ∧ dget "timestamp" e.2.2 = Some (JStr e.2.1).

(** From [s] to [s'], events with fresh, distinct ids were appended. *)
Definition extends (s s' : pstate) : Prop :=
  ∃ evs : list (pystr * (pystr * dict)),
    existing_event_ids s' = reverse (map fst evs) ++ existing_event_ids s
    ∧ new_events s' = new_events s ++ map snd evs
    ∧ NoDup (map fst evs)
    ∧ (∀ id, id ∈ map fst evs → id ∉ existing_event_ids s)
    ∧ Forall well_formed evs.

#[export] Instance extends_preorder : PreOrder extends.
Proof.
  split.
  - intros s. exists []. simpl. rewrite app_nil_r. split_and!; auto; [constructor | set_solver].
  - intros s1 s2 s3 (e1 & X1 & N1 & D1 & F1 & W1) (e2 & X2 & N2 & D2 & F2 & W2).
    exists (e1 ++ e2). rewrite map_app, !map_app, reverse_app, X2, X1, N2, N1, <- !app_assoc.
    split_and!; [done..| | |by apply Forall_app].
    + apply NoDup_app. split_and!; [done| |done]. intros id H1 H2. apply (F2 id H2).
      rewrite X1, elem_of_app, elem_of_reverse. auto.
    + intros id [H1|H2]%elem_of_app; [auto|]. intros Hin. apply (F2 id H2).
      rewrite X1, elem_of_app. auto.
Qed.

(** Steps that leave ids and events alone. *)
Definition same_events (s s' : pstate) : Prop :=
  existing_event_ids s' = existing_event_ids s ∧ new_events s' = new_events s.

#[export] Instance same_events_preorder : PreOrder same_events.
Proof. split; [by intros s | intros s1 s2 s3 [] []; split; congruence]. Qed.

Lemma same_extends s s' : same_events s s' → extends s s'.
Proof.
  intros [X N]. exists []. simpl. rewrite app_nil_r, X, N. split_and!; auto; [constructor | set_solver].
Qed.

Lemma with_session_get k session_id (d : dict) v :
  dget k d = Some v → dget k (with_session session_id d) = Some v.
Proof.
  unfold with_session. intros E. induction d as [|[k' v'] d IH]; simpl in *; [done|].
  case_bool_decide; [done | by apply IH].
Qed.

Lemma dget_app k (d1 d2 : dict) v : dget k d1 = Some v → dget k (d1 ++ d2) = Some v.
Proof.
  intros E. induction d1 as [|[k' v'] d IH]; simpl in *; [done|].
  case_bool_decide; [done | by apply IH].
Qed.

Lemma emit_extends id ts event s :
  id ∉ existing_event_ids s → well_formed (id, (ts, event)) → extends s (emit_event id ts event s).2.
Proof.
  intros Hid Hwf. exists [(id, (ts, event))]. split_and!; simpl; auto.
  - repeat constructor. apply not_elem_of_nil.
  - intros id' ->%list_elem_of_singleton. done.
Qed.

Section run_facts.
Context `{UnicodeDB} `{PyRepr} (json_str : json → pystr).

Lemma same_add_tool c n : stepwise same_events (add_tool c n).
Proof. intros s. unfold add_tool. by destruct (hashable c). Qed.

Lemma same_block b : stepwise same_events (assistant_block b).
Proof.
  unfold assistant_block. repeat (case_match; try (apply stepwise_ret; exact _)).
  - apply stepwise_bind; [exact _ | apply stepwise_lift; exact _ | intros; apply stepwise_ret; exact _].
  - apply stepwise_bind; [exact _ | | intros; apply stepwise_ret; exact _].
    apply stepwise_when; [exact _ | apply same_add_tool].
Qed.

Lemma same_blocks bs : stepwise same_events (assistant_blocks bs).
Proof.
  induction bs as [|b bs IH]; simpl; [apply stepwise_ret; exact _|].
  apply stepwise_bind; [exact _ | apply same_block | intros p].
  apply stepwise_bind; [exact _ | exact IH | intros ps; apply stepwise_ret; exact _].
Qed.

(** A computation run where [id] is still free. *)
Definition extends_free {A} (id : pystr) (m : M pstate A) : Prop :=
  ∀ s, id ∉ existing_event_ids s → extends s (m s).2.

Lemma guarded id (m : M pstate unit) :
  extends_free id m → stepwise extends (known ← seen id; if known : bool then mret tt else m).
Proof.
  intros Hm s. unfold seen, gets, mbind, M_bind. case_bool_decide as E; [reflexivity | by apply Hm].
Qed.

Lemma free_lift {A B} id (r : outcome A) (f : A → M pstate B) :
  (∀ a, extends_free id (f a)) → extends_free id (lift r ≫= f).
Proof.
  intros Hf s Hs. unfold lift, mbind, M_bind. destruct r as [a|e]; [by apply Hf | reflexivity].
Qed.

Lemma free_same {A B} id (m : M pstate A) (f : A → M pstate B) :
  stepwise same_events m → (∀ a, extends_free id (f a)) → extends_free id (m ≫= f).
Proof.
  intros Hm Hf s Hs. unfold mbind, M_bind. pose proof (Hm s) as Hsame.
  destruct (m s) as [[a|e] s']; simpl in *; [|by apply same_extends].
  etrans; [by apply same_extends | apply Hf]. by rewrite (proj1 Hsame).
Qed.

Lemma free_ret {A} id (a : A) : extends_free id (mret a : M pstate A).
Proof. intros s _. reflexivity. Qed.

Lemma free_emit id ts event :
  dget "event_id" event = Some (JStr id) → dget "timestamp" event = Some (JStr ts) →
  extends_free id (emit_event id ts event).
Proof. intros H1 H2 s Hs. by apply emit_extends. Qed.

Lemma extends_assistant raw uuid ts sid :
  stepwise extends (_parse_assistant_message raw uuid ts sid).
Proof.
  unfold _parse_assistant_message. apply guarded.
  apply free_lift. intros [|]; [apply free_ret|].
  do 5 (apply free_lift; intros ?).
  apply free_same; [apply same_blocks|]. intros parts. apply free_lift. intros us.
  apply free_emit; by apply with_session_get.
Qed.

Lemma extends_user_text raw content uuid ts sid : stepwise extends (user_text raw content uuid ts sid).
Proof.
  unfold user_text. case_match; [apply stepwise_ret; exact _|]. apply guarded.
  apply free_lift. intros text. case_match; [apply free_ret|].
  apply free_lift. intros [|]; [apply free_ret|]. apply free_emit; by apply with_session_get.
Qed.

Lemma extends_tool_result b uuid ts st sid : stepwise extends (tool_result json_str b uuid ts st sid).
Proof.
  unfold tool_result. repeat (case_match; try (apply stepwise_ret; exact _)). apply guarded.
  do 2 (apply free_lift; intros ?).
  apply (free_same _ (gets _)); [by intros s | intros name].
  apply free_emit; apply dget_app; by apply with_session_get.
Qed.

Lemma extends_user raw uuid ts sid : stepwise extends (_parse_user_message json_str raw uuid ts sid).
Proof.
  unfold _parse_user_message.
  apply stepwise_bind; [exact _ | apply stepwise_lift; exact _ | intros content].
  apply stepwise_bind; [exact _ | apply extends_user_text | intros _].
  destruct content; try (apply stepwise_ret; exact _).
  apply stepwise_for; [exact _ | intros b; apply extends_tool_result].
Qed.

Lemma extends_queued raw uuid ts sid : stepwise extends (_parse_queued_command_attachment raw uuid ts sid).
Proof.
  unfold _parse_queued_command_attachment. repeat (case_match; try (apply stepwise_ret; exact _)).
  apply guarded. apply free_emit; by apply with_session_get.
Qed.

Lemma extends_line sid line : stepwise extends (parse_line json_str sid line).
Proof.
  unfold parse_line. repeat (case_match; try (apply stepwise_ret; exact _)).
  do 3 (apply stepwise_bind; [exact _ | apply stepwise_lift; exact _ | intros ?]).
  case_match; [apply stepwise_ret; exact _|].
  do 2 (apply stepwise_bind; [exact _ | apply stepwise_lift; exact _ | intros ?]).
  repeat case_match; try (apply stepwise_ret; exact _);
    [apply extends_assistant | apply extends_user | apply extends_queued].
Qed.

Lemma extends_lines sid lines : stepwise extends (for_each lines (parse_line json_str sid)).
Proof. apply stepwise_for; [exact _ | apply extends_line]. Qed.
End run_facts.

(** ** Facts: a second run emits nothing *)
Section settled.
Context `{UnicodeDB} `{PyRepr} (json_str : json → pystr).

(** Once [m] has succeeded, running it with everything it left already known
    succeeds again and changes neither ids nor events. *)
Definition settles (m : M pstate unit) : Prop :=
  ∀ s s', m s = (Ret tt, s') → ∀ t, (∀ id, id ∈ existing_event_ids s' → id ∈ existing_event_ids t) →
    ∃ t', m t = (Ret tt, t') ∧ same_events t t'.

(** Whenever it succeeds, [id] is known. *)
Definition emits {A} (id : pystr) (m : M pstate A) : Prop :=
  ∀ s a s', m s = (Ret a, s') → id ∈ existing_event_ids s'.

Definition emits_or_idle (id : pystr) (m : M pstate unit) : Prop :=
  emits id m ∨ ∀ t, ∃ t', m t = (Ret tt, t') ∧ same_events t t'.

Lemma settles_ret : settles (mret tt).
Proof. intros s s' _ t _. by exists t. Qed.

Lemma settles_lift {A} (r : outcome A) f :
  (∀ a, r = Ret a → settles (f a)) → settles (lift r ≫= f).
Proof.
  intros Hf s s'. unfold lift, mbind, M_bind. destruct r as [a|e]; [|done]. by apply Hf.
Qed.

Lemma settles_seq m1 m2 :
  settles m1 → settles m2 → stepwise extends m2 → settles (m1 ;; m2).
Proof.
  intros H1 H2 Hx s s' E t Ht. unfold mbind, M_bind in *.
  destruct (m1 s) as [[[]|e] s1] eqn:E1; [|done].
  assert (∀ id, id ∈ existing_event_ids s1 → id ∈ existing_event_ids s') as Hgrow.
  { intros id Hid. pose proof (Hx s1) as (evs & X & _). rewrite E in X. simpl in X.
    rewrite X, elem_of_app. auto. }
  destruct (H1 _ _ E1 t) as (t1 & Et1 & S1); [auto|]. rewrite Et1.
  destruct (H2 _ _ E t1) as (t2 & Et2 & S2); [by rewrite (proj1 S1)|].
  exists t2. split; [done|]. by etrans.
Qed.

Lemma settles_for {A} (l : list A) (f : A → M pstate unit) :
  (∀ a, settles (f a)) → (∀ a, stepwise extends (f a)) → settles (for_each l f).
Proof.
  intros Hs Hx. induction l as [|a l IH]; simpl; [apply settles_ret|].
  apply settles_seq; [apply Hs | exact IH | apply stepwise_for; [exact _ | exact Hx]].
Qed.

Lemma settles_guarded id (m : M pstate unit) :
  emits_or_idle id m → settles (known ← seen id; if known : bool then mret tt else m).
Proof.
  intros Hm s s' E t Ht. unfold seen, gets, mbind, M_bind in *.
  case_bool_decide as Hs.
  - injection E as <-. rewrite bool_decide_eq_true_2 by (apply Ht, Hs). by exists t.
  - destruct Hm as [Hm|Hm].
    + rewrite bool_decide_eq_true_2; [by exists t|]. apply Ht. by eapply Hm.
    + case_bool_decide; [by exists t | apply Hm].
Qed.

Lemma idle_ret id : emits_or_idle id (mret tt).
Proof. right. intros t. by exists t. Qed.

Lemma eoi_lift {A} id (r : outcome A) f :
  (∀ a, r = Ret a → emits_or_idle id (f a)) → emits_or_idle id (lift r ≫= f).
Proof.
  intros Hf. destruct r as [a|e].
  - destruct (Hf a eq_refl) as [He|Hi]; [left|by right].
    intros s b s'. unfold lift, mbind, M_bind. apply He.
  - left. intros s a s'. done.
Qed.

Lemma emits_bind {A B} id (m : M pstate A) (f : A → M pstate B) :
  (∀ a, emits id (f a)) → emits id (m ≫= f).
Proof.
  intros Hf s b s'. unfold mbind, M_bind. destruct (m s) as [[a|e] s1]; [apply Hf | done].
Qed.

Lemma emits_event id ts event : emits id (emit_event id ts event).
Proof. intros s a s' [= _ <-]. left. Qed.

Lemma settles_assistant raw uuid ts sid : settles (_parse_assistant_message raw uuid ts sid).
Proof.
  unfold _parse_assistant_message. apply settles_guarded.
  apply eoi_lift. intros [|] _; [apply idle_ret|]. left.
  repeat (apply emits_bind; intros ?). apply emits_event.
Qed.

Lemma settles_user_text raw content uuid ts sid : settles (user_text raw content uuid ts sid).
Proof.
  unfold user_text. case_match; [apply settles_ret|]. apply settles_guarded.
  apply eoi_lift. intros text _. case_match; [apply idle_ret|].
  apply eoi_lift. intros [|] _; [apply idle_ret|]. left. apply emits_event.
Qed.

Lemma settles_tool_result b uuid ts st sid : settles (tool_result json_str b uuid ts st sid).
Proof.
  unfold tool_result. repeat (case_match; try apply settles_ret). apply settles_guarded. left.
  repeat (apply emits_bind; intros ?). apply emits_event.
Qed.

Lemma settles_user raw uuid ts sid : settles (_parse_user_message json_str raw uuid ts sid).
Proof.
  unfold _parse_user_message. apply settles_lift. intros content _.
  apply settles_seq; [apply settles_user_text | |].
  - destruct content; try apply settles_ret.
    apply settles_for; intros; [apply settles_tool_result | apply extends_tool_result].
  - destruct content; try (apply stepwise_ret; exact _).
    apply stepwise_for; [exact _ | intros b; apply extends_tool_result].
Qed.

Lemma settles_queued raw uuid ts sid : settles (_parse_queued_command_attachment raw uuid ts sid).
Proof.
  unfold _parse_queued_command_attachment. repeat (case_match; try apply settles_ret).
  apply settles_guarded. left. apply emits_event.
Qed.

Lemma settles_line sid line : settles (parse_line json_str sid line).
Proof.
  unfold parse_line. repeat (case_match; try apply settles_ret).
  do 3 (apply settles_lift; intros ? _). case_match; [apply settles_ret|].
  do 2 (apply settles_lift; intros ? _).
  repeat case_match; first [apply settles_assistant | apply settles_user | apply settles_queued
    | apply settles_ret].
Qed.

Lemma settles_lines sid lines : settles (for_each lines (parse_line json_str sid)).
Proof. apply settles_for; [apply settles_line | apply extends_line]. Qed.
End settled.


(** ** Facts: the list under construction is only appended to *)
Section framing.
Context `{UnicodeDB} `{PyRepr} (json_str : json → pystr).

Definition prefixed (p : list (pystr * dict)) (s : pstate) : pstate :=
  {| existing_event_ids := existing_event_ids s; tool_name_by_call_id := tool_name_by_call_id s;
     new_events := p ++ new_events s |}.

Definition framed {A} (m : M pstate A) : Prop :=
  ∀ p s, m (prefixed p s) = ((m s).1, prefixed p (m s).2).

Lemma framed_ret {A} (a : A) : framed (mret a). Proof. done. Qed.
Lemma framed_lift {A} (r : outcome A) : framed (lift r). Proof. done. Qed.
Lemma framed_bind {A B} (m : M pstate A) (f : A → M pstate B) :
  framed m → (∀ a, framed (f a)) → framed (m ≫= f).
Proof.
  intros Hm Hf p s. unfold mbind, M_bind. rewrite Hm. destruct (m s) as [[a|e] s']; simpl; [apply Hf | done].
Qed.
Lemma framed_seen id : framed (seen id). Proof. done. Qed.
Lemma framed_emit id ts ev : framed (emit_event id ts ev).
Proof. intros p s. unfold emit_event, modify, prefixed. simpl. by rewrite app_assoc. Qed.
Lemma framed_add_tool c n : framed (add_tool c n).
Proof. intros p s. unfold add_tool. by destruct (hashable c). Qed.
Lemma framed_when b (m : M pstate unit) : framed m → framed (when b m).
Proof. by destruct b. Qed.
Lemma framed_for {A} (l : list A) f : (∀ a, framed (f a)) → framed (for_each l f).
Proof. intros Hf. induction l; simpl; [apply framed_ret|]. by apply framed_bind. Qed.

#[local] Ltac frame_with known :=
  repeat lazymatch goal with
  | |- framed (mbind _ _) => apply framed_bind; [|intros ?]
  | |- framed (mret _) => apply framed_ret
  | |- framed (lift _) => apply framed_lift
  | |- framed (seen _) => apply framed_seen
  | |- framed (emit_event _ _ _) => apply framed_emit
  | |- framed (add_tool _ _) => apply framed_add_tool
  | |- framed (when _ _) => apply framed_when
  | |- framed (for_each _ _) => apply framed_for; intros ?
  | |- framed (match _ with _ => _ end) => case_match
  | |- framed (let _ := _ in _) => cbv zeta
  | |- framed _ => known
  end.

Lemma framed_blocks bs : framed (assistant_blocks bs).
Proof.
  induction bs as [|b bs IH]; simpl; [apply framed_ret|].
  apply framed_bind; [unfold assistant_block; frame_with fail|]. intros p. frame_with ltac:(apply IH).
Qed.

Lemma framed_tool_result b uuid ts st sid : framed (tool_result json_str b uuid ts st sid).
Proof. unfold tool_result. frame_with ltac:(by intros p s). Qed.

Lemma framed_line sid line : framed (parse_line json_str sid line).
Proof.
  unfold parse_line, _parse_assistant_message, _parse_user_message, _parse_queued_command_attachment, user_text.
  frame_with ltac:(first [apply framed_blocks | apply framed_tool_result]).
Qed.

Lemma framed_lines sid lines : framed (for_each lines (parse_line json_str sid)).
Proof. apply framed_for, framed_line. Qed.

Lemma for_each_app {A} (l1 l2 : list A) (f : A → M pstate unit) s s1 :
  for_each l1 f s = (Ret tt, s1) → for_each (l1 ++ l2) f s = for_each l2 f s1.
Proof.
  revert s. induction l1 as [|a l1 IH]; intros s; simpl; [by intros [= <-]|].
  unfold mbind, M_bind. destruct (f a s) as [[[]|e] s']; [apply IH | done].
Qed.
End framing.

(** ** Properties *)

(** The timestamp of an event. *)
Definition event_time (e : dict) : pystr := default [] (dget "timestamp" e ≫= as_str).

Section properties.
Context `{UnicodeDB} `{PyRepr} (json_str : json → pystr).

(** What [parse_session_lines] does to a state: the line loop on an empty list,
    then the sort. *)
Lemma parse_unfold sid lines s evs s' :
  parse_session_lines json_str sid lines s = (Ret evs, s') ↔
  for_each lines (parse_line json_str sid)
    {| existing_event_ids := existing_event_ids s; tool_name_by_call_id := tool_name_by_call_id s;
       new_events := [] |} = (Ret tt, s')
  ∧ evs = map snd (sort_by by_timestamp (new_events s')).
Proof.
  unfold parse_session_lines, modify, gets, mbind, M_bind. simpl.
  destruct (for_each lines _ _) as [[[]|e] s1]; simpl; split.
  - by intros [= <- <-].
  - by intros [[= <-] ->].
  - done.
  - by intros [? _].
Qed.

(** Every event is new: the ids are distinct, none was known before, all
    are known afterwards, and the events come in the order of their timestamps. *)
Theorem parse_events_fresh sid lines s evs s' :
  parse_session_lines json_str sid lines s = (Ret evs, s') →
  ∃ ids, NoDup ids
    ∧ (∀ id, id ∈ ids → id ∉ existing_event_ids s)
    ∧ (∀ id, id ∈ existing_event_ids s' ↔ id ∈ ids ∨ id ∈ existing_event_ids s)
    ∧ map (dget "event_id") evs ≡ₚ map (λ id, Some (JStr id)) ids
    ∧ sorted_by (λ a b, str_leb (event_time a) (event_time b)) evs.
Proof.
  intros [E ->]%parse_unfold.
  pose proof (extends_lines json_str sid lines
    {| existing_event_ids := existing_event_ids s; tool_name_by_call_id := tool_name_by_call_id s;
       new_events := [] |}) as (es & X & N & D & F & Wf).
  rewrite E in X, N. simpl in X, N, F. exists (map fst es).
  split_and!; [done | done | | |].
  - intros id. rewrite X, elem_of_app, elem_of_reverse. done.
  - rewrite (sort_by_perm by_timestamp (new_events s')), N, !map_map.
    clear -Wf. induction Wf as [|e es [H1 _] _ IH]; simpl; [done|]. by rewrite H1, IH.
  - assert (Forall (λ p : pystr * dict, event_time p.2 = p.1) (new_events s')) as Ht.
    { rewrite N. clear -Wf. induction Wf as [|e es [_ H1] _ IH]; simpl; constructor; [|done].
      unfold event_time. by rewrite H1. }
    rewrite <- (sort_by_perm by_timestamp) in Ht.
    pose proof (sort_by_sorted by_timestamp (λ a b, str_leb_total a.1 b.1)
      (λ a b c, str_leb_trans a.1 b.1 c.1) (new_events s')) as Hs.
    revert Ht Hs. generalize (sort_by by_timestamp (new_events s')) as l. clear.
    intros l Ht Hs. unfold sorted_by in *. induction Hs as [|p l Hl IH Hp]; simpl; [constructor|].
    inv Ht. constructor; [by apply IH|]. apply Forall_map.
    match goal with H1 : event_time p.2 = p.1, H2 : Forall _ l |- _ => rename H1 into Ep, H2 into El end.
    rewrite Forall_forall in Hp, El |- *. intros q Hq. specialize (Hp q Hq). specialize (El q Hq).
    simpl in El. unfold by_timestamp in Hp. simpl. by rewrite Ep, El.
Qed.

(** Parsing the same lines again over the tables the first run left emits
    nothing and forgets nothing. *)
Theorem parse_again_empty sid lines s evs s' :
  parse_session_lines json_str sid lines s = (Ret evs, s') →
  ∃ s'', parse_session_lines json_str sid lines s' = (Ret [], s'')
    ∧ existing_event_ids s'' = existing_event_ids s'.
Proof.
  intros [E _]%parse_unfold.
  destruct (settles_lines json_str sid lines _ _ E
    {| existing_event_ids := existing_event_ids s'; tool_name_by_call_id := tool_name_by_call_id s';
       new_events := [] |}) as (t & Et & X & N); [done|].
  exists t. split; [|done]. apply parse_unfold. split; [done|]. by rewrite N.
Qed.

(** C38: parsing a transcript in two parts, the tables carried over, gives the
    same events and the same tables as parsing it at once. *)
Theorem parse_incremental sid lines1 lines2 s evs1 s1 evs2 s2 :
  parse_session_lines json_str sid lines1 s = (Ret evs1, s1) →
  parse_session_lines json_str sid lines2 s1 = (Ret evs2, s2) →
  ∃ evs s', parse_session_lines json_str sid (lines1 ++ lines2) s = (Ret evs, s')
    ∧ evs ≡ₚ evs1 ++ evs2
    ∧ existing_event_ids s' = existing_event_ids s2
    ∧ tool_name_by_call_id s' = tool_name_by_call_id s2.
Proof.
  intros [E1 ->]%parse_unfold [E2 ->]%parse_unfold.
  pose proof (framed_lines json_str sid lines2 (new_events s1)
    {| existing_event_ids := existing_event_ids s1; tool_name_by_call_id := tool_name_by_call_id s1;
       new_events := [] |}) as HF.
  rewrite E2 in HF. unfold prefixed at 1 in HF. simpl in HF. rewrite app_nil_r in HF.
  do 2 eexists. split.
  { apply parse_unfold. split; [|reflexivity].
    rewrite (for_each_app _ _ _ _ _ E1). destruct s1. exact HF. }
  split; [|done]. simpl. rewrite <- map_app. apply Permutation_map.
  by rewrite !sort_by_perm.
Qed.

Lemma contains_mid (a m b : pystr) : contains m (a ++ m ++ b) = true.
Proof. apply contains_true. by exists a, b. Qed.

Lemma contains_app_l m a b : contains m a = true → contains m (a ++ b) = true.
Proof. rewrite !contains_true. intros (x & y & ->). exists x, (y ++ b). by rewrite <- !app_assoc. Qed.

Lemma contains_app_r m a b : contains m b = true → contains m (a ++ b) = true.
Proof. rewrite !contains_true. intros (x & y & ->). exists (a ++ x), y. by rewrite <- !app_assoc. Qed.

Lemma contains_join m sep l : m ∈ l → contains m (join sep l) = true.
Proof.
  induction l as [|a l IH]; [by intros ?%elem_of_nil|]. intros [->|Hin]%elem_of_cons.
  - apply contains_true. destruct l as [|b l].
    + exists [], []. by rewrite app_nil_r.
    + by exists [], (sep ++ join sep (b :: l)).
  - destruct l as [|b l]; [by apply not_elem_of_nil in Hin|].
    change (join sep (a :: b :: l)) with (a ++ sep ++ join sep (b :: l)).
    by apply contains_app_r, contains_app_r, IH.
Qed.

(** Truncation keeps every decoration line of [tk], however far past the
    limit it stands; output without one is cut to the limit and a marker. *)
Theorem truncation_keeps_decorations content :
  (∀ m, m ∈ tk_decorations content → contains m.1 (_truncate_tool_output content) = true)
  ∧ (length content ≤ _MAX_OUTPUT_LENGTH → _truncate_tool_output content = content)
  ∧ (tk_decorations content = [] → length (_truncate_tool_output content) ≤ _MAX_OUTPUT_LENGTH + 3).
Proof.
  unfold _truncate_tool_output. generalize _MAX_OUTPUT_LENGTH as n. intros n.
  split_and!.
  - intros m Hm. destruct (finditer_spec _ _ _ _ _ _ _ Hm) as (a & b & Ec & Eo).
    destruct (Nat.leb_spec (length content) n) as [Hle|Hgt]; [rewrite Ec; apply contains_mid|].
    destruct (Nat.ltb_spec n m.2) as [Hpast|Hin].
    + assert (m.1 ∈ map fst (List.filter (λ m, (n <? m.2)%nat) (tk_decorations content))) as Hp.
      { apply list_elem_of_fmap. exists m. split; [done|]. apply list_elem_of_In, filter_In.
        split; [by apply list_elem_of_In | by apply Nat.ltb_lt]. }
      destruct (map fst _) as [|p l]; [by apply not_elem_of_nil in Hp|].
      do 3 apply contains_app_r. by apply contains_join.
    + assert (contains m.1 (take n content) = true) as Hhead.
      { rewrite Ec, app_assoc, take_app_ge by (rewrite length_app; lia).
        rewrite <- app_assoc. apply contains_mid. }
      case_match; by apply contains_app_l.
  - intros Hle. by destruct (Nat.leb_spec (length content) n); [|lia].
  - intros ->. simpl. destruct (Nat.leb_spec (length content) n); [lia|].
    rewrite length_app, length_take. change (length (u "...")) with 3. lia.
Qed.

(** Interruptions and the resume bookkeeping never appear: no event is
    emitted for a user message that is the interrupt sentinel or the resume
    marker, nor for the synthetic reply. *)
Theorem bookkeeping_hidden raw message content text uuid ts sid s :
  dget "message" raw = Some (JObj message) → dget "content" message = Some content →
  _extract_text_content content = Ret text →
  (strip (_normalize_slash_command text) = _INTERRUPT_SENTINEL_TEXT
   ∨ (truthy (jget "isMeta" raw) = true ∧ strip text = _RESUME_CONTINUATION_TEXT) →
   user_text raw content uuid ts sid s = (Ret tt, s))
  ∧ (jeqs (jget "model" message) _SYNTHETIC_MODEL = true → strip text = _NO_RESPONSE_REQUESTED_TEXT →
     _parse_assistant_message raw uuid ts sid s = (Ret tt, s)).
Proof.
  intros Hm Hc Ht.
  assert (jget_or "message" (JObj []) raw = JObj message) as Emsg by (unfold jget_or; by rewrite Hm).
  assert (get "content" (JObj message) = Ret content) as Econ.
  { unfold get, get_default, jget_or. by rewrite Hc. }
  split.
  - intros Hcase. unfold user_text. destruct (_has_tool_results_only content); [done|].
    unfold seen, gets, mbind, M_bind. case_bool_decide; [done|]. unfold lift. rewrite Ht.
    destruct ((_normalize_slash_command text =? []) || _) eqn:Eb; [done|].
    apply orb_false_iff in Eb as [_ Eb]. apply bool_decide_eq_false in Eb.
    destruct Hcase as [Hc1|[Hmeta Hres]]; [done|].
    unfold _is_resume_continuation_marker. rewrite Hmeta, Emsg. simpl negb. cbv iota.
    unfold mbind, outcome_bind. rewrite Econ, Ht. by rewrite bool_decide_eq_true_2.
  - intros Hmodel Hres. unfold _parse_assistant_message, seen, gets, mbind, M_bind.
    case_bool_decide; [done|]. unfold lift, _is_resume_no_response_reply. rewrite Emsg.
    unfold mbind, outcome_bind. change (get "model" (JObj message)) with (Ret (jget "model" message)).
    cbv iota. rewrite Hmodel. simpl negb. cbv iota. rewrite Econ, Ht. by rewrite bool_decide_eq_true_2.
Qed.
End properties.

(** ** Concrete runs *)
Module TranscriptDemo.
#[export] Instance ascii : UnicodeDB := {| wide_alnum _ := false |}.
#[export] Instance repr : PyRepr := {| str_repr s := s; float_repr _ := [] |}.
Definition empty : pstate :=
  {| existing_event_ids := []; tool_name_by_call_id := []; new_events := [] |}.
Definition parse := parse_session_lines (λ _, []) None.
Definition call_line : pystr :=
  bq "{`type`:`assistant`,`uuid`:`u1`,`timestamp`:`1`,`message`:{`content`:[{`type`:`tool_use`,`id`:`c1`,`name`:`Bash`}]}}".
Definition result_line : pystr :=
  bq "{`type`:`user`,`uuid`:`u2`,`timestamp`:`2`,`message`:{`content`:[{`type`:`tool_result`,`tool_use_id`:`c1`,`content`:`ok`}]}}".
Definition after1 : pstate := (parse [call_line] empty).2.
Definition after2 : pstate := (parse [result_line] after1).2.
End TranscriptDemo.
Import TranscriptDemo.

Lemma parse_events_fresh_witness :
  ∃ evs ids, parse [call_line; result_line] empty = (Ret evs, (parse [call_line; result_line] empty).2)
    ∧ map (dget "event_id") evs ≡ₚ map (λ id, Some (JStr id)) ids.
Proof.
  eexists. edestruct (parse_events_fresh (λ _, []) None [call_line; result_line] empty) as (ids & _ & _ & _ & Hp & _).
  2: { exists ids. split; [|exact Hp]. vm_compute. reflexivity. }
  vm_compute. reflexivity.
Defined.

Lemma parse_again_witness :
  ∃ s'', parse [call_line] after1 = (Ret [], s'').
Proof.
  edestruct (parse_again_empty (λ _, []) None [call_line] empty) as (s'' & E & _).
  - vm_compute. reflexivity.
  - exists s''. exact E.
Defined.

Lemma parse_incremental_witness :
  ∃ evs s', parse ([call_line] ++ [result_line]) empty = (Ret evs, s')
    ∧ existing_event_ids s' = existing_event_ids after2.
Proof.
  edestruct (parse_incremental (λ _, []) None [call_line] [result_line] empty) as (evs & s' & E & _ & X & _).
  - vm_compute. reflexivity.
  - vm_compute. reflexivity.
  - exists evs, s'. split; [exact E | rewrite X; vm_compute; reflexivity].
Defined.

Lemma bookkeeping_hidden_witness :
  user_text [(u "message", JObj [(u "content", JStr _INTERRUPT_SENTINEL_TEXT)])]
    (JStr _INTERRUPT_SENTINEL_TEXT) "u" "t" None empty = (Ret tt, empty).
Proof.
  apply (proj1 (bookkeeping_hidden [(u "message", JObj [(u "content", JStr _INTERRUPT_SENTINEL_TEXT)])]
    [(u "content", JStr _INTERRUPT_SENTINEL_TEXT)] (JStr _INTERRUPT_SENTINEL_TEXT) _INTERRUPT_SENTINEL_TEXT
    "u" "t" None empty eq_refl eq_refl eq_refl)).
  left. vm_compute. reflexivity.
Defined.
