(* ===== verification/SessionWatcher.v ===== *)
(** * The session watcher

    [session_watcher.py]: tailing session files by byte offset, the bodyless
    locator index with its bounded cache of bodies, discovery of main sessions,
    pages of the timeline, and the poll loop's emissions.

    A file system as one operation sees it is a [view]: the [stat] and the reads
    of an operation may disagree, since the writer runs at the same time.  Events
    are the bodies before enrichment; the enrichment with subagent metadata and
    the re-broadcast of enriched parents are in [SubagentCards]. *)

From Stdlib Require Import NArith ZArith QArith Lia.
From S2P Require Import Prelude PyStr PyJson PyMonad PyKeyed PyBytes SessionParser.
From stdpp Require Import options.
#[global] Open Scope nat_scope.
#[local] Open Scope py_scope.

(** ** Bytes *)

Definition newline : N := 10.

(** [b.strip()]: ASCII white space *)
Definition is_ascii_space (b : N) : bool := ((9 <=? b) && (b <=? 13) || (b =? 32))%N.
Fixpoint drop_while (f : N → bool) (s : bytes) : bytes :=
  match s with
  | [] => []
  | b :: s' => if f b then drop_while f s' else s
  end.
Definition bytes_strip (s : bytes) : bytes :=
  reverse (drop_while is_ascii_space (reverse (drop_while is_ascii_space s))).

(** [raw.decode("utf-8")]; [None] is [UnicodeDecodeError]. *)
Definition decode (s : bytes) : option pystr := decode_utf8 false None (length s) s.

(** Whatever the reader does not accept is incomplete; the code catches
    [ValueError], which is all it raises but for a text nested too deep. *)
Definition _is_complete_json_object (fragment : bytes) : bool :=
  let stripped := bytes_strip fragment in
  if stripped =? [] then false
  else match loads_bytes stripped with Loaded _ => true | _ => false end.

Definition _split_at_last_complete_line (data : bytes) : bytes * bytes :=
  if endswith [newline] data then (data, [])
  else
    let newline_index := rfind [newline] data in
    let fragment := match newline_index with None => data | Some i => drop (i + 1) data end in
    if _is_complete_json_object fragment then (data, [])
    else match newline_index with
         | None => ([], data)
         | Some i => (take (i + 1) data, fragment)
         end.

(** The lines of [data] with their offsets; [cur] is the line being read, the
    last byte first, [start] its offset. *)
Fixpoint line_spans (start : nat) (cur data : bytes) : list (nat * nat * bytes) :=
  match data with
  | [] => match cur with [] => [] | _ => [(start, length cur, reverse cur)] end
  | b :: data' =>
      if (b =? newline)%N then
        (start, S (length cur), reverse (b :: cur)) :: line_spans (start + S (length cur)) [] data'
      else line_spans start (b :: cur) data'
  end.
Definition _iter_line_spans (data : bytes) (base_offset : nat) : list (nat * nat * bytes) :=
  line_spans base_offset [] data.

(** ** State *)
Record EventLocator := { event_id : pystr; timestamp : pystr; byte_offset : nat; byte_len : nat }.

Record SessionFileState := {
  session_id : pystr;
  file_path : pystr;
  byte_offset_consumed : nat;
  last_mtime : Q;
  locators : list EventLocator;
  emitted_count : nat;
}.

Definition new_file_state (sid path : pystr) : SessionFileState :=
  {| session_id := sid; file_path := path; byte_offset_consumed := 0; last_mtime := 0%Q; locators := [];
     emitted_count := 0 |}.

Record watcher := {
  _session_states : list (pystr * SessionFileState);
  _main_session_ids : list pystr;
  _existing_event_ids : list pystr;
  _tool_name_by_call_id : list (json * json);
  (** oldest first *)
  _body_cache : list (pystr * dict);
  _body_cache_capacity : nat;
  _locator_ref_by_id : gmap pystr (pystr * nat);
  _subagent_id_by_tool_call : list (json * json);
  _agent_parent_event_ids : list pystr;
  (** every batch handed to [on_events], with the session it came from *)
  emitted : list (pystr * list EventLocator * list dict);
}.

Abbreviation W := (M watcher).

Record view := {
  stat : pystr → option (nat * Q);
  read : pystr → option bytes;
}.

Definition with_states (f : list (pystr * SessionFileState) → list (pystr * SessionFileState)) (w : watcher) : watcher :=
  {| _session_states := f (_session_states w); _main_session_ids := _main_session_ids w;
     _existing_event_ids := _existing_event_ids w; _tool_name_by_call_id := _tool_name_by_call_id w;
     _body_cache := _body_cache w; _body_cache_capacity := _body_cache_capacity w;
     _locator_ref_by_id := _locator_ref_by_id w; _subagent_id_by_tool_call := _subagent_id_by_tool_call w;
     _agent_parent_event_ids := _agent_parent_event_ids w; emitted := emitted w |}.

Definition with_cache (f : list (pystr * dict) → list (pystr * dict)) (w : watcher) : watcher :=
  {| _session_states := _session_states w; _main_session_ids := _main_session_ids w;
     _existing_event_ids := _existing_event_ids w; _tool_name_by_call_id := _tool_name_by_call_id w;
     _body_cache := f (_body_cache w); _body_cache_capacity := _body_cache_capacity w;
     _locator_ref_by_id := _locator_ref_by_id w; _subagent_id_by_tool_call := _subagent_id_by_tool_call w;
     _agent_parent_event_ids := _agent_parent_event_ids w; emitted := emitted w |}.

Definition with_tables (ids : list pystr) (tools : list (json * json)) (w : watcher) : watcher :=
  {| _session_states := _session_states w; _main_session_ids := _main_session_ids w;
     _existing_event_ids := ids; _tool_name_by_call_id := tools;
     _body_cache := _body_cache w; _body_cache_capacity := _body_cache_capacity w;
     _locator_ref_by_id := _locator_ref_by_id w; _subagent_id_by_tool_call := _subagent_id_by_tool_call w;
     _agent_parent_event_ids := _agent_parent_event_ids w; emitted := emitted w |}.

Definition with_refs (f : gmap pystr (pystr * nat) → gmap pystr (pystr * nat)) (w : watcher) : watcher :=
  {| _session_states := _session_states w; _main_session_ids := _main_session_ids w;
     _existing_event_ids := _existing_event_ids w; _tool_name_by_call_id := _tool_name_by_call_id w;
     _body_cache := _body_cache w; _body_cache_capacity := _body_cache_capacity w;
     _locator_ref_by_id := f (_locator_ref_by_id w); _subagent_id_by_tool_call := _subagent_id_by_tool_call w;
     _agent_parent_event_ids := _agent_parent_event_ids w; emitted := emitted w |}.

Definition with_subagents (links : list (json * json)) (parents : list pystr) (w : watcher) : watcher :=
  {| _session_states := _session_states w; _main_session_ids := _main_session_ids w;
     _existing_event_ids := _existing_event_ids w; _tool_name_by_call_id := _tool_name_by_call_id w;
     _body_cache := _body_cache w; _body_cache_capacity := _body_cache_capacity w;
     _locator_ref_by_id := _locator_ref_by_id w; _subagent_id_by_tool_call := links;
     _agent_parent_event_ids := parents; emitted := emitted w |}.

Definition with_main (f : list pystr → list pystr) (w : watcher) : watcher :=
  {| _session_states := _session_states w; _main_session_ids := f (_main_session_ids w);
     _existing_event_ids := _existing_event_ids w; _tool_name_by_call_id := _tool_name_by_call_id w;
     _body_cache := _body_cache w; _body_cache_capacity := _body_cache_capacity w;
     _locator_ref_by_id := _locator_ref_by_id w; _subagent_id_by_tool_call := _subagent_id_by_tool_call w;
     _agent_parent_event_ids := _agent_parent_event_ids w; emitted := emitted w |}.

Definition on_events (sid : pystr) (locs : list EventLocator) (events : list dict) (w : watcher) : watcher :=
  {| _session_states := _session_states w; _main_session_ids := _main_session_ids w;
     _existing_event_ids := _existing_event_ids w; _tool_name_by_call_id := _tool_name_by_call_id w;
     _body_cache := _body_cache w; _body_cache_capacity := _body_cache_capacity w;
     _locator_ref_by_id := _locator_ref_by_id w; _subagent_id_by_tool_call := _subagent_id_by_tool_call w;
     _agent_parent_event_ids := _agent_parent_event_ids w; emitted := emitted w ++ [(sid, locs, events)] |}.

(** The state object of a session, changed in place. *)
Definition update_state (sid : pystr) (f : SessionFileState → SessionFileState) : watcher → watcher :=
  with_states (map (λ kv, if kv.1 =? sid then (kv.1, f kv.2) else kv)).

Definition set_emitted (n : nat) (st : SessionFileState) : SessionFileState :=
  {| session_id := session_id st; file_path := file_path st; byte_offset_consumed := byte_offset_consumed st;
     last_mtime := last_mtime st; locators := locators st; emitted_count := n |}.
Definition set_consumed (n : nat) (mtime : Q) (st : SessionFileState) : SessionFileState :=
  {| session_id := session_id st; file_path := file_path st; byte_offset_consumed := n;
     last_mtime := mtime; locators := locators st; emitted_count := emitted_count st |}.
Definition set_locators (l : list EventLocator) (st : SessionFileState) : SessionFileState :=
  {| session_id := session_id st; file_path := file_path st; byte_offset_consumed := byte_offset_consumed st;
     last_mtime := last_mtime st; locators := l; emitted_count := emitted_count st |}.
Definition mark_emitted (st : SessionFileState) : SessionFileState := set_emitted (length (locators st)) st.

(** [event.get(k, "")] for a field the parser always fills with a string *)
Definition event_str (k : pystr) (event : dict) : pystr := default [] (dget k event ≫= as_str).

Definition state_of (w : watcher) (sid : pystr) : option SessionFileState := dget sid (_session_states w).

(** ** The body cache *)

(** [popitem(last=False)] while over capacity *)
Definition evict (capacity : nat) (c : list (pystr * dict)) : list (pystr * dict) := drop (length c - capacity) c.
Definition move_to_end (k : pystr) (c : list (pystr * dict)) : list (pystr * dict) :=
  match dget k c with Some e => ddel k c ++ [(k, e)] | None => c end.

Definition _cache_put_locked (event : dict) (w : watcher) : watcher :=
  let k := event_str "event_id" event in
  with_cache (λ c, evict (_body_cache_capacity w) (ddel k c ++ [(k, event)])) w.

Abbreviation place := (SessionFileState * EventLocator)%type.

Section ops.
Context `{UnicodeDB} `{PyRepr} (json_str : json → pystr).

(** [parse_session_lines] with the watcher's tables; [dedup] tells whether the
    agent-wide set of ids is passed. *)
Definition parse (sid : pystr) (lines : list pystr) (dedup : bool) : W (list dict) := λ w,
  let '(r, ps) := parse_session_lines json_str (Some sid) lines
    {| existing_event_ids := if dedup then _existing_event_ids w else [];
       tool_name_by_call_id := _tool_name_by_call_id w; new_events := [] |} in
  (r, with_tables (if dedup then existing_event_ids ps else _existing_event_ids w) (tool_name_by_call_id ps) w).

Definition _reparse_line_locked (v : view) (st : SessionFileState) (locator : EventLocator) : W (list dict) :=
  match read v (file_path st) with
  | None => mret []
  | Some data =>
      match decode (take (byte_len locator) (drop (byte_offset locator) data)) with
      | None => mret []
      | Some text => parse (session_id st) (splitlines text) false
      end
  end.

Definition resolve_body (v : view) (st : SessionFileState) (locator : EventLocator) : W (option dict) :=
  w ← gets (λ w, w);
  match dget (event_id locator) (_body_cache w) with
  | Some body => modify (with_cache (move_to_end (event_id locator)));; mret (Some body)
  | None =>
      events ← _reparse_line_locked v st locator;
      for_each events (λ e, modify (_cache_put_locked e));;
      w ← gets (λ w, w);
      mret (dget (event_id locator) (_body_cache w))
  end.

Fixpoint _resolve_bodies_locked (v : view) (pairs : list (SessionFileState * EventLocator)) : W (list dict) :=
  match pairs with
  | [] => mret []
  | (st, locator) :: pairs' =>
      body ← resolve_body v st locator;
      events ← _resolve_bodies_locked v pairs';
      mret (match body with Some b => b :: events | None => events end)
  end.

(** ** Bringing the index up to date *)

Definition is_tool_result (event : dict) : bool := jeqs (jget "type" event) "tool_result".
Definition calls_agent (event : dict) : bool :=
  jeqs (jget "type" event) "assistant_message"
  && existsb (λ tc, jeqs (jget "tool_name" (dict_or_empty tc)) "Agent") (list_or_empty (jget "tool_calls" event)).

Definition link_subagent (mark_all_emitted : bool) (event : dict) (w : watcher) : watcher :=
  let links := _subagent_id_by_tool_call w in
  let links :=
    match is_tool_result event, dget "subagent_id" event with
    | true, Some sub =>
        let call := jget "tool_call_id" event in
        match kget call links with Some _ => links | None => kset call sub links end
    | _, _ => links
    end in
  let parents := _agent_parent_event_ids w in
  with_subagents links
    (if mark_all_emitted && calls_agent event then event_str "event_id" event :: parents else parents) w.

Definition index_event (sid : pystr) (mark_all_emitted : bool) (off len : nat) (event : dict) (w : watcher) : watcher :=
  let locator := {| event_id := event_str "event_id" event; timestamp := event_str "timestamp" event;
                    byte_offset := off; byte_len := len |} in
  let n := match state_of w sid with Some st => length (locators st) | None => 0 end in
  link_subagent mark_all_emitted event
    (_cache_put_locked event
      (update_state sid (λ st, set_locators (locators st ++ [locator]) st)
        (with_refs (<[event_id locator := (sid, n)]>) w))).

Definition index_line (sid : pystr) (mark_all_emitted : bool) (span : nat * nat * bytes) : W unit :=
  let '(off, len, line) := span in
  match decode line with
  | None => mret tt
  | Some text =>
      events ← parse sid (splitlines text) true;
      for_each events (λ e, modify (index_event sid mark_all_emitted off len e))
  end.

(** The file shrank: its ids and references go, and reading starts over. *)
Definition reset_state (sid : pystr) (w : watcher) : watcher :=
  match state_of w sid with
  | None => w
  | Some st =>
      let ids := map event_id (locators st) in
      update_state sid (λ st, set_emitted 0 (set_consumed 0 (last_mtime st) (set_locators [] st)))
        (with_refs (λ refs, foldl (λ m k, delete k m) refs ids)
          (with_tables (List.filter (λ k, k ∉? ids) (_existing_event_ids w)) (_tool_name_by_call_id w) w))
  end.

Definition when_marked (mark_all_emitted : bool) (sid : pystr) : W unit :=
  when mark_all_emitted (modify (update_state sid mark_emitted)).

Definition read_new (v : view) (sid : pystr) (mark_all_emitted : bool) (size : nat) (mtime : Q) : W unit :=
  w ← gets (λ w, w);
  match state_of w sid with
  | None => mret tt
  | Some st =>
      let consumed := byte_offset_consumed st in
      if (size =? consumed)%nat && Qeq_bool mtime (last_mtime st) then when_marked mark_all_emitted sid
      else match read v (file_path st) with
      | None => mret tt
      | Some data =>
          let complete := (_split_at_last_complete_line (drop consumed data)).1 in
          if complete =? [] then when_marked mark_all_emitted sid
          else
            for_each (_iter_line_spans complete consumed) (index_line sid mark_all_emitted);;
            modify (update_state sid (set_consumed (consumed + length complete) mtime));;
            when_marked mark_all_emitted sid
      end
  end.

Definition _ensure_cache_current (v : view) (sid : pystr) (mark_all_emitted : bool) : W unit :=
  w ← gets (λ w, w);
  match state_of w sid with
  | None => mret tt
  | Some st =>
      match stat v (file_path st) with
      | None => mret tt
      | Some (size, mtime) =>
          when (size <? byte_offset_consumed st)%nat (modify (reset_state sid));;
          read_new v sid mark_all_emitted size mtime
      end
  end.

(** ** The poll loop *)

(** The second lock hold of a poll of one file: what is not yet emitted is
    resolved and handed over. *)
Definition emit_pending (v : view) (sid : pystr) : W unit :=
  w ← gets (λ w, w);
  match state_of w sid with
  | None => mret tt
  | Some st =>
      let pending := drop (emitted_count st) (locators st) in
      modify (update_state sid mark_emitted);;
      events ← _resolve_bodies_locked v (map (pair st) pending);
      when (events <>? []) (modify (on_events sid pending events))
  end.

Definition poll_one (v : view) (sid : pystr) : W unit :=
  w ← gets (λ w, w);
  match state_of w sid ≫= λ st, stat v (file_path st) with
  | None => mret tt
  | Some _ => _ensure_cache_current v sid false;; emit_pending v sid
  end.

Definition _poll_for_changes (v : view) : W unit :=
  sids ← gets (λ w, map fst (_session_states w));
  for_each sids (poll_one v).

Definition prime_one (v : view) (sid : pystr) : W unit :=
  w ← gets (λ w, w);
  match state_of w sid ≫= λ st, stat v (file_path st) with
  | None => mret tt
  | Some _ => _ensure_cache_current v sid true
  end.

Definition _prime_caches (v : view) : W unit :=
  sids ← gets (λ w, map fst (_session_states w));
  for_each sids (prime_one v).

(** ** Discovery *)

(** What discovery reads: the session history, the session files found under
    the projects directory at the first and at the second attempt, and the
    subagent files of a main session. *)
Record listing := {
  history : option pystr;
  find_session_file : nat → pystr → option pystr;
  subagent_files : SessionFileState → list (pystr * pystr);
}.

Definition add_state (sid path : pystr) (w : watcher) : watcher :=
  with_states (λ d, d ++ [(sid, new_file_state sid path)]) w.

(** [line.strip().split()[0]] *)
Definition first_word (line : pystr) : option pystr :=
  match take_while (λ c, negb (is_space c)) (lstrip line) with [] => None | w => Some w end.

Definition discover_line (l : listing) (line : pystr) (w : watcher) : watcher :=
  match first_word line with
  | None => w
  | Some sid =>
      match state_of w sid with
      | Some _ => w
      | None =>
          match (match find_session_file l 0 sid with Some p => Some p | None => find_session_file l 1 sid end) with
          | None => w
          | Some path => with_main (λ m, m ++ [sid]) (add_state sid path w)
          end
      end
  end.

Definition _discover_main_sessions_from_history (l : listing) (w : watcher) : watcher :=
  match history l with
  | None => w
  | Some text => foldl (λ w line, discover_line l line w) w (splitlines text)
  end.

Definition _discover_subagent_sessions (files : list (pystr * pystr)) (w : watcher) : watcher :=
  foldl (λ w f, match state_of w f.1 with Some _ => w | None => add_state f.1 f.2 w end) w files.

Definition _discover_sessions (l : listing) (w : watcher) : watcher :=
  let w := _discover_main_sessions_from_history l w in
  foldl (λ w st, _discover_subagent_sessions (subagent_files l st) w) w (map snd (_session_states w)).

(** ** The timeline and its pages *)

Definition _ordered_selected_states_locked (selected : option pystr) (w : watcher) : list SessionFileState :=
  match selected with
  | Some sid => match state_of w sid with Some st => [st] | None => [] end
  | None => omap (state_of w) (_main_session_ids w)
  end.

Definition pair_all (st : SessionFileState) : list place := map (pair st) (locators st).

(** The states in reverse order, newest first. *)
Fixpoint collect_tail (rev_states : list SessionFileState) (needed : nat) (collected : list place) : list place :=
  match rev_states with
  | [] => collected
  | st :: rest =>
      if (needed =? 0)%nat then collected
      else
        let start := length (locators st) - needed in
        collect_tail rest (needed - (length (locators st) - start))
          (map (pair st) (drop start (locators st)) ++ collected)
  end.
Definition _collect_tail_locked (states : list SessionFileState) (limit : nat) : list place :=
  collect_tail (reverse states) limit [].

(** [states.index(ref_state)]: states are compared by identity, which their
    session id stands for. *)
Fixpoint index_of (sid : pystr) (states : list SessionFileState) : option nat :=
  match states with
  | [] => None
  | st :: rest => if session_id st =? sid then Some 0 else S <$> index_of sid rest
  end.

Definition before_end (ref : pystr * nat) (st : SessionFileState) : nat :=
  if session_id st =? ref.1 then ref.2 else length (locators st).

Fixpoint collect_before (ref : pystr * nat) (rev_states : list SessionFileState) (needed : nat)
    (collected : list place) : list place :=
  match rev_states with
  | [] => collected
  | st :: rest =>
      if (needed =? 0)%nat then collected
      else
        let end_ := before_end ref st in
        let start := end_ - needed in
        collect_before ref rest (needed - (end_ - start))
          (map (pair st) (take (end_ - start) (drop start (locators st))) ++ collected)
  end.
Definition _collect_before_locked (w : watcher) (states : list SessionFileState) (before_event_id : pystr)
    (limit : nat) : list place :=
  match _locator_ref_by_id w !! before_event_id with
  | None => []
  | Some ref =>
      match index_of ref.1 states with
      | None => []
      | Some state_pos => collect_before ref (reverse (take (S state_pos) states)) limit []
      end
  end.

Fixpoint collect_after (ref : pystr * nat) (states : list SessionFileState) (needed : Z)
    (collected : list place) : list place :=
  match states with
  | [] => collected
  | st :: rest =>
      if (needed <=? 0)%Z then collected
      else
        let start := if session_id st =? ref.1 then S ref.2 else 0 in
        let end_ := Z.min (Z.of_nat (length (locators st))) (Z.of_nat start + needed) in
        collect_after ref rest (needed - (end_ - Z.of_nat start))%Z
          (collected ++ map (pair st) (take (Z.to_nat end_ - start) (drop start (locators st))))
  end.
Definition _collect_after_locked (w : watcher) (states : list SessionFileState) (after_event_id : pystr)
    (limit : nat) : list place :=
  match _locator_ref_by_id w !! after_event_id with
  | None => []
  | Some ref =>
      match index_of ref.1 states with
      | None => []
      | Some state_pos => collect_after ref (drop state_pos states) (Z.of_nat limit) []
      end
  end.

Fixpoint collect_at_offset (states : list SessionFileState) (skip needed : nat) (collected : list place) : list place :=
  match states with
  | [] => collected
  | st :: rest =>
      let count := length (locators st) in
      if (count <=? skip)%nat then collect_at_offset rest (skip - count) needed collected
      else
        let end_ := Nat.min count (skip + needed) in
        let collected := collected ++ map (pair st) (take (end_ - skip) (drop skip (locators st))) in
        let needed := needed - (end_ - skip) in
        if (needed =? 0)%nat then collected else collect_at_offset rest 0 needed collected
  end.
Definition _collect_at_offset_locked (states : list SessionFileState) (offset limit : nat) : list place :=
  collect_at_offset states offset limit [].

Definition event_offset (w : watcher) (states : list SessionFileState) (event_id : pystr) : Z :=
  match _locator_ref_by_id w !! event_id with
  | None => -1
  | Some ref =>
      match index_of ref.1 states with
      | None => -1
      | Some state_pos => Z.of_nat (sum_list_with (λ st, length (locators st)) (take state_pos states) + ref.2)
      end
  end.

(** ** The read API *)

Definition _selected_states_current (l : listing) (v : view) (selected : option pystr)
    : W (list SessionFileState) :=
  modify (_discover_sessions l);;
  states ← gets (_ordered_selected_states_locked selected);
  for_each (map (λ st, session_id st) states) (λ sid,
    w ← gets (λ w, w);
    match state_of w sid ≫= λ st, stat v (file_path st) with
    | None => mret tt
    | Some _ => _ensure_cache_current v sid false
    end);;
  gets (λ w, omap (λ st, state_of w (session_id st)) states).

(** A read of one page: [collect] runs and its bodies are resolved in one lock
    hold. *)
Definition page (l : listing) (v : view) (selected : option pystr)
    (collect : watcher → list SessionFileState → list place) : W (list dict) :=
  states ← _selected_states_current l v selected;
  pairs ← gets (λ w, collect w states);
  _resolve_bodies_locked v pairs.

Definition get_all_events (l : listing) (v : view) (selected : option pystr) : W (list dict) :=
  page l v selected (λ _ states,
    sort_by (λ a b : place, str_leb (timestamp a.2) (timestamp b.2)) (flat_map pair_all states)).

Definition get_tail_events (l : listing) (v : view) (limit : Z) (selected : option pystr) : W (list dict) :=
  if (limit <=? 0)%Z then mret []
  else page l v selected (λ _ states, _collect_tail_locked states (Z.to_nat limit)).

Definition get_backfill_events (l : listing) (v : view) (before_event_id : pystr) (limit : Z)
    (selected : option pystr) : W (list dict) :=
  if (limit <=? 0)%Z then mret []
  else page l v selected (λ w states, _collect_before_locked w states before_event_id (Z.to_nat limit)).

Definition get_forward_events (l : listing) (v : view) (after_event_id : pystr) (limit : Z)
    (selected : option pystr) : W (list dict) :=
  if (limit <=? 0)%Z then mret []
  else page l v selected (λ w states, _collect_after_locked w states after_event_id (Z.to_nat limit)).

Definition get_events_at_offset (l : listing) (v : view) (offset limit : Z) (selected : option pystr)
    : W (list dict) :=
  if (limit <=? 0)%Z then mret []
  else page l v selected (λ _ states, _collect_at_offset_locked states (Z.to_nat offset) (Z.to_nat limit)).

Definition get_event_offset (l : listing) (v : view) (event_id : pystr) (selected : option pystr) : W Z :=
  states ← _selected_states_current l v selected;
  gets (λ w, event_offset w states event_id).

Definition get_total_event_count (l : listing) (v : view) (selected : option pystr) : W nat :=
  states ← _selected_states_current l v selected;
  mret (sum_list_with (λ st, length (locators st)) states).

Definition is_main_session_event (event : dict) (w : watcher) : bool :=
  match jget "session_id" event with
  | JNull => true
  | JStr sid => sid ∈? _main_session_ids w
  | _ => false
  end.
End ops.

(** ** Facts: bytes and lines *)

Lemma rfind_char c s :
  match rfind [c] s with
  | Some i => ∃ a b, s = a ++ c :: b ∧ length a = i ∧ c ∉ b
  | None => c ∉ s
  end.
Proof.
  induction s as [|x s IH]; simpl; [by intros ?%elem_of_nil|].
  destruct (rfind [c] s) as [i|].
  - destruct IH as (a & b & -> & <- & Hb). by exists (x :: a), b.
  - destruct (N.eqb_spec c x) as [->|Hne]; simpl; [by exists [], s|]. by apply not_elem_of_cons.
Qed.

Definition ends_line (data : bytes) : Prop := ∃ d, data = d ++ [newline].

Lemma endswith_line data : endswith [newline] data = true ↔ ends_line data.
Proof.
  unfold endswith. rewrite startswith_prefix. change (reverse [newline]) with [newline]. split.
  - intros [k E]. exists (reverse k). apply (f_equal reverse) in E. rewrite reverse_involutive in E.
    rewrite E. simpl. by rewrite reverse_cons.
  - intros [d ->]. exists (reverse d). by rewrite reverse_app.
Qed.

Lemma split_parts data :
  let '(complete, fragment) := _split_at_last_complete_line data in
  complete ++ fragment = data ∧ newline ∉ fragment
  ∧ (fragment ≠ [] → _is_complete_json_object fragment = false)
  ∧ (complete = [] ∨ ends_line complete ∨ fragment = []).
Proof.
  unfold _split_at_last_complete_line.
  destruct (endswith [newline] data) eqn:E.
  { rewrite app_nil_r. split_and!; [done|set_solver|done|auto]. }
  pose proof (rfind_char newline data) as Hr.
  destruct (rfind [newline] data) as [i|]; destruct (_is_complete_json_object _) eqn:Ej;
    try (rewrite app_nil_r; split_and!; [done|set_solver|done|auto]); simpl.
  - destruct Hr as (a & b & -> & <- & Hb). rewrite cons_middle, app_assoc in *.
    assert (length a + 1 = length (a ++ [newline])) as El by (by rewrite length_app).
    rewrite El, drop_app_length, take_app_length in *.
    split_and!; [done..|]. right. left. by exists a.
  - split_and!; auto.
Qed.

Lemma rfind_app_char c p s :
  rfind [c] (p ++ s) = match rfind [c] s with Some i => Some (length p + i) | None => rfind [c] p end.
Proof.
  induction p as [|x p IH]; simpl.
  - by destruct (rfind [c] s).
  - rewrite IH. by destruct (rfind [c] s).
Qed.

Lemma rfind_last c p : rfind [c] (p ++ [c]) = Some (length p).
Proof. rewrite rfind_app_char. simpl. rewrite N.eqb_refl. f_equal. lia. Qed.

Lemma endswith_app p d : d ≠ [] → endswith [newline] (p ++ d) = endswith [newline] d.
Proof.
  destruct d as [|x d _] using rev_ind; [done|]. intros _. rewrite app_assoc. unfold endswith.
  by rewrite !(reverse_app _ [x]).
Qed.

(** Splitting after a complete line only looks at what follows it. *)
Lemma split_after c d : ends_line c →
  (_split_at_last_complete_line (c ++ d)).1 = c ++ (_split_at_last_complete_line d).1.
Proof.
  intros [c0 ->]. assert (length (c0 ++ [newline]) = length c0 + 1) as El by (by rewrite length_app).
  destruct (decide (d = [])) as [->|Hd].
  { rewrite app_nil_r. unfold _split_at_last_complete_line at 1.
    rewrite (proj2 (endswith_line _)) by (by exists c0). by rewrite app_nil_r. }
  unfold _split_at_last_complete_line. rewrite endswith_app, rfind_app_char, rfind_last by done.
  destruct (endswith [newline] d); [done|].
  destruct (rfind [newline] d) as [i|]; simpl.
  - rewrite <- (Nat.add_assoc _ i), drop_app_add, take_app_add. by case_match.
  - rewrite <- El, drop_app_length, take_app_length. case_match; [done|]. by rewrite app_nil_r.
Qed.

(** *** Line spans *)
Lemma spans_after c0 cur start d :
  line_spans start cur (c0 ++ newline :: d)
  = line_spans start cur (c0 ++ [newline]) ++ line_spans (start + length cur + length c0 + 1) [] d.
Proof.
  revert start cur. induction c0 as [|x c0 IH]; intros start cur; cbn [app line_spans].
  - rewrite N.eqb_refl. simpl. do 2 f_equal. lia.
  - destruct (x =? newline)%N; rewrite IH; simpl; [f_equal|]; do 2 f_equal; lia.
Qed.

Lemma iter_spans_app c d base : ends_line c →
  _iter_line_spans (c ++ d) base = _iter_line_spans c base ++ _iter_line_spans d (base + length c).
Proof.
  intros [c0 ->]. unfold _iter_line_spans. rewrite <- app_assoc. simpl app. rewrite spans_after.
  do 2 f_equal. rewrite length_app. simpl. lia.
Qed.

(** A span addresses its own line: re-reading it gives the line again. *)
Lemma spans_slices off len line data start cur :
  (off, len, line) ∈ line_spans start cur data →
  start <= off ∧ len = length line ∧ off + len <= start + length cur + length data
  ∧ take len (drop (off - start) (reverse cur ++ data)) = line.
Proof.
  revert start cur. induction data as [|b data IH]; intros start cur; cbn [line_spans].
  - destruct cur as [|x cur]; [by intros ?%elem_of_nil|].
    intros [= -> -> ->]%list_elem_of_singleton. rewrite app_nil_r, Nat.sub_diag.
    change (S (length cur)) with (length (x :: cur)). rewrite <- (length_reverse (x :: cur)).
    split_and!; [lia|done|simpl; lia|]. simpl drop. by rewrite take_ge.
  - destruct (b =? newline)%N.
    + intros [[= -> -> ->]|Hin]%elem_of_cons.
      * rewrite Nat.sub_diag, length_reverse. cbn [length drop]. split_and!; [lia..|].
        rewrite reverse_cons, cons_middle, app_assoc.
        replace (S (length cur)) with (length (reverse cur ++ [b])) by (rewrite length_app, length_reverse; simpl; lia).
        apply take_app_length.
      * destruct (IH _ _ Hin) as (H1 & H2 & H3 & H4). simpl length in *. split_and!; [lia..|].
        rewrite cons_middle, app_assoc.
        replace (off - start) with (length (reverse cur ++ [b]) + (off - (start + S (length cur))))
          by (rewrite length_app, length_reverse; simpl; lia).
        by rewrite drop_app_add.
    + intros Hin. destruct (IH _ _ Hin) as (H1 & H2 & H3 & H4). simpl length in *. split_and!; [lia..|].
      rewrite <- H4. by rewrite reverse_cons, <- app_assoc.
Qed.

Lemma iter_spans_slices off len line data base :
  (off, len, line) ∈ _iter_line_spans data base →
  base <= off ∧ len = length line ∧ off + len <= base + length data
  ∧ take len (drop (off - base) data) = line.
Proof. intros H. destruct (spans_slices _ _ _ _ _ _ H) as (? & ? & ? & ?). split_and!; auto. simpl in *. lia. Qed.

(** ** Facts: the state of a session *)
Lemma state_of_update sid f w sid' :
  state_of (update_state sid f w) sid' = if decide (sid' = sid) then f <$> state_of w sid' else state_of w sid'.
Proof.
  unfold state_of, update_state. simpl. induction (_session_states w) as [|[k st] d IH]; simpl; [by case_decide|].
  destruct (decide (k = sid)) as [->|Hk].
  - rewrite bool_decide_eq_true_2 by done. simpl. case_bool_decide as E1; [|done].
    subst. by rewrite decide_True.
  - rewrite bool_decide_eq_false_2 by done. simpl. case_bool_decide as E1; [|done].
    subst. by rewrite decide_False.
Qed.

Lemma update_state_swap sid f g w :
  (∀ st, f (g st) = g (f st)) → update_state sid f (update_state sid g w) = update_state sid g (update_state sid f w).
Proof.
  intros Hfg. unfold update_state, with_states. f_equal. simpl. rewrite !map_map. apply map_ext.
  intros [k st]. simpl. destruct (decide (k = sid)) as [->|Hk].
  - rewrite (bool_decide_eq_true_2 (sid = sid)) by done. simpl.
    rewrite (bool_decide_eq_true_2 (sid = sid)) by done. by rewrite Hfg.
  - rewrite (bool_decide_eq_false_2 (k = sid)) by done. simpl. by rewrite (bool_decide_eq_false_2 (k = sid)).
Qed.

Lemma update_state_twice sid f g w :
  update_state sid f (update_state sid g w) = update_state sid (λ st, f (g st)) w.
Proof.
  unfold update_state, with_states. f_equal. simpl. rewrite map_map. apply map_ext.
  intros [k st]. simpl. destruct (decide (k = sid)) as [->|Hk].
  - rewrite (bool_decide_eq_true_2 (sid = sid)) by done. simpl. by rewrite (bool_decide_eq_true_2 (sid = sid)).
  - rewrite (bool_decide_eq_false_2 (k = sid)) by done. simpl. by rewrite (bool_decide_eq_false_2 (k = sid)).
Qed.

(** ** Facts: tailing a file is reading it once *)
Section tailing.
Context `{UnicodeDB} `{PyRepr} (json_str : json → pystr).

(** [m] neither sees nor changes what [f] changes. *)
Definition blind {A} (f : watcher → watcher) (m : W A) : Prop := ∀ w, m (f w) = ((m w).1, f (m w).2).

Lemma blind_ret {A} f (a : A) : blind f (mret a).
Proof. done. Qed.

Lemma blind_bind {A B} f (m : W A) (k : A → W B) : blind f m → (∀ a, blind f (k a)) → blind f (m ≫= k).
Proof.
  intros Hm Hk w. unfold mbind, M_bind. rewrite Hm. destruct (m w) as [[a|e] w']; simpl; [apply Hk|done].
Qed.

Lemma blind_for {A} f (l : list A) (k : A → W unit) : (∀ a, blind f (k a)) → blind f (for_each l k).
Proof. intros Hk. induction l as [|a l IH]; simpl; [apply blind_ret|]. by apply blind_bind. Qed.

Lemma blind_modify f g : (∀ w, g (f w) = f (g w)) → blind f (modify g).
Proof. intros Hg w. unfold modify. simpl. by rewrite Hg. Qed.

Lemma blind_parse sid' g sid lines dedup : blind (update_state sid' g) (parse json_str sid lines dedup).
Proof. intros w. unfold parse. simpl. by destruct (parse_session_lines _ _ _ _) as [r ps]. Qed.

Definition consumes (f : SessionFileState → SessionFileState) : Prop :=
  ∃ n m, f = set_consumed n m.

Lemma index_event_swap sid mark off len e n m w :
  index_event sid mark off len e (update_state sid (set_consumed n m) w)
  = update_state sid (set_consumed n m) (index_event sid mark off len e w).
Proof.
  unfold index_event. rewrite state_of_update, decide_True by done.
  set (loc := {| event_id := _ |}).
  replace (match set_consumed n m <$> state_of w sid with Some st => length (locators st) | None => 0 end)
    with (match state_of w sid with Some st => length (locators st) | None => 0 end) by (by destruct (state_of w sid)).
  set (k := match state_of w sid with Some _ => _ | None => _ end).
  change (with_refs (<[event_id loc:=(sid, k)]>) (update_state sid (set_consumed n m) w))
    with (update_state sid (set_consumed n m) (with_refs (<[event_id loc:=(sid, k)]>) w)).
  rewrite update_state_swap by done. reflexivity.
Qed.

Lemma blind_index_line sid mark span n m :
  blind (update_state sid (set_consumed n m)) (index_line json_str sid mark span).
Proof.
  destruct span as [[off len] line]. unfold index_line. destruct (decode line); [|apply blind_ret].
  apply blind_bind; [apply blind_parse|]. intros evs. apply blind_for. intros e.
  apply blind_modify. intros w. apply index_event_swap.
Qed.

(** [batch data base]: the lines of [data], which starts at [base], indexed. *)
Definition batch (sid : pystr) (mark : bool) (data : bytes) (base : nat) : W unit :=
  for_each (_iter_line_spans data base) (index_line json_str sid mark).

Lemma batch_app sid mark c d base w : ends_line c →
  batch sid mark (c ++ d) base w =
  match batch sid mark c base w with
  | (Ret _, w') => batch sid mark d (base + length c) w'
  | (Raise e, w') => (Raise e, w')
  end.
Proof.
  intros Hc. unfold batch. rewrite iter_spans_app by done.
  generalize (_iter_line_spans c base) as l. intros l. revert w.
  induction l as [|x l IH]; intros w; simpl; [done|].
  unfold mbind, M_bind. destruct (index_line json_str sid mark x w) as [[[]|e] w']; [apply IH|done].
Qed.

Lemma read_new_reads v sid mark size mtime w st data c :
  state_of w sid = Some st → read v (file_path st) = Some data →
  c = (_split_at_last_complete_line (drop (byte_offset_consumed st) data)).1 → c ≠ [] →
  byte_offset_consumed st < size →
  read_new json_str v sid mark size mtime w =
  match batch sid mark c (byte_offset_consumed st) w with
  | (Ret _, w') =>
      (modify (update_state sid (set_consumed (byte_offset_consumed st + length c) mtime));;
       when_marked mark sid) w'
  | (Raise e, w') => (Raise e, w')
  end.
Proof.
  intros Hst Hr -> Hc Hlt. unfold read_new, gets. unfold mbind at 1, M_bind at 1. rewrite Hst.
  rewrite (proj2 (Nat.eqb_neq size _)) by lia. cbn [andb]. rewrite Hr. cbv zeta.
  rewrite bool_decide_eq_false_2 by done. unfold batch, mbind at 1, M_bind at 1.
  by destruct (for_each _ _ w) as [[[]|e] w'].
Qed.

(** What indexing leaves alone in a session's state. *)
Definition meta (st : SessionFileState) : pystr * pystr * nat * Q * nat :=
  (session_id st, file_path st, byte_offset_consumed st, last_mtime st, emitted_count st).

(** Indexing keeps the metadata of every session; the locators only grow. *)
Definition index_rel (w w' : watcher) : Prop :=
  ∀ sid, option_map meta (state_of w' sid) = option_map meta (state_of w sid)
    ∧ ∀ st st', state_of w sid = Some st → state_of w' sid = Some st' → locators st `prefix_of` locators st'.

#[local] Instance index_rel_preorder : PreOrder index_rel.
Proof.
  split.
  - intros w sid. split; [done|]. intros st st' -> [= ->]. done.
  - intros w1 w2 w3 H1 H2 sid. destruct (H1 sid) as [E1 P1]. destruct (H2 sid) as [E2 P2].
    split; [by rewrite E2|]. intros st st' Hs Hs'. rewrite Hs in E1.
    destruct (state_of w2 sid) as [st2|] eqn:E; [|done]. etrans; [by apply P1|by apply P2].
Qed.

Lemma index_rel_same w w' : _session_states w' = _session_states w → index_rel w w'.
Proof. intros E sid. unfold state_of. rewrite E. split; [done|]. by intros st st' -> [= ->]. Qed.

Definition locator_of (off len : nat) (e : dict) : EventLocator :=
  {| event_id := event_str "event_id" e; timestamp := event_str "timestamp" e; byte_offset := off; byte_len := len |}.

Lemma index_event_state sid mark off len e w sid' :
  state_of (index_event sid mark off len e w) sid'
  = if decide (sid' = sid) then (λ st, set_locators (locators st ++ [locator_of off len e]) st) <$> state_of w sid'
    else state_of w sid'.
Proof. rewrite <- state_of_update. reflexivity. Qed.

Lemma index_event_rel sid mark off len e w : index_rel w (index_event sid mark off len e w).
Proof.
  intros sid'. rewrite index_event_state.
  case_decide; [|split; [done|by intros st st' -> [= ->]]].
  destruct (state_of w sid') as [st|]; simpl; split; try done.
  intros st1 st' [= ->] [= <-]. by eexists.
Qed.

Lemma stepwise_index_line sid mark span : stepwise index_rel (index_line json_str sid mark span).
Proof.
  destruct span as [[off len] line]. unfold index_line. destruct (decode line); [|apply stepwise_ret; apply _].
  apply stepwise_bind; [apply _| |].
  - intros w. unfold parse. destruct (parse_session_lines _ _ _ _) as [r ps]. by apply index_rel_same.
  - intros evs. apply stepwise_for; [apply _|]. intros e w. apply index_event_rel.
Qed.

Lemma batch_rel sid mark c base : stepwise index_rel (batch sid mark c base).
Proof. apply stepwise_for; [apply _|]. intros span. apply stepwise_index_line. Qed.

Lemma update_state_ext sid f g w : (∀ st, f st = g st) → update_state sid f w = update_state sid g w.
Proof.
  intros Hfg. unfold update_state, with_states. f_equal. apply map_ext. intros [k st]. simpl. by rewrite Hfg.
Qed.

(** A watcher up to the modification time it noted for [sid]. *)
Definition forget_mtime (sid : pystr) (w : watcher) : watcher :=
  update_state sid (λ st, set_consumed (byte_offset_consumed st) 0%Q st) w.

Lemma forget_consumed sid n m w :
  forget_mtime sid (update_state sid (set_consumed n m) w) = update_state sid (set_consumed n 0%Q) w.
Proof. unfold forget_mtime. rewrite update_state_twice. by apply update_state_ext. Qed.

(** [v] sees the file of [sid] as [data], modified at [mtime]. *)
Definition sees (v : view) (path : pystr) (data : bytes) (mtime : Q) : Prop :=
  stat v path = Some (length data, mtime) ∧ read v path = Some data.

Lemma ensure_reads v sid w st data mtime :
  state_of w sid = Some st → sees v (file_path st) data mtime → byte_offset_consumed st <= length data →
  let k := byte_offset_consumed st in
  let c := (_split_at_last_complete_line (drop k data)).1 in
  _ensure_cache_current json_str v sid false w =
  if decide (c = []) then (Ret tt, w)
  else match batch sid false c k w with
       | (Ret _, w') => (Ret tt, update_state sid (set_consumed (k + length c) mtime) w')
       | (Raise e, w') => (Raise e, w')
       end.
Proof.
  intros Hst [Hs Hr] Hle k c. unfold _ensure_cache_current, gets. unfold mbind at 1, M_bind at 1.
  rewrite Hst, Hs. rewrite (proj2 (Nat.ltb_ge (length data) _)) by done. cbn [when].
  unfold mbind at 1, M_bind at 1. cbv beta iota delta [mret M_ret].
  destruct (decide (c = [])) as [Ec|Hc].
  - unfold read_new, gets. unfold mbind at 1, M_bind at 1. rewrite Hst.
    fold k. case_match; [done|]. rewrite Hr. cbv zeta. fold c. by rewrite bool_decide_eq_true_2.
  - assert (k < length data) as Hlt.
    { destruct (decide (k < length data)) as [|Hn]; [done|]. destruct Hc. unfold c. by rewrite drop_ge by lia. }
    rewrite (read_new_reads v sid false (length data) mtime w st data c) by done.
    fold k. by destruct (batch sid false c k w) as [[[]|e] w'].
Qed.

(** C4: tailing a file in two steps is reading it once, when the first step stops
    at the end of a line: when a first pass over an append-only file consumed
    whole lines, or nothing, and a second pass read on, one pass over the longer
    file reaches the same watcher (index, tables, cache, offset), the noted
    modification time aside.  Not covered is a first pass that ends with a
    complete record whose newline is not written yet: there the locator's length
    is without the newline. *)
Theorem tailing_is_reading_once sid v1 v2 w st data more m1 m2 w1 w2 :
  state_of w sid = Some st → byte_offset_consumed st <= length data →
  sees v1 (file_path st) data m1 → sees v2 (file_path st) (data ++ more) m2 →
  (let c := (_split_at_last_complete_line (drop (byte_offset_consumed st) data)).1 in c = [] ∨ ends_line c) →
  _ensure_cache_current json_str v1 sid false w = (Ret tt, w1) →
  _ensure_cache_current json_str v2 sid false w1 = (Ret tt, w2) →
  ∃ w', _ensure_cache_current json_str v2 sid false w = (Ret tt, w')
    ∧ forget_mtime sid w' = forget_mtime sid w2.
Proof.
  intros Hst Hle H1 H2 Hline E1 E2. cbv zeta in Hline.
  rewrite (ensure_reads v1 sid w st data m1 Hst H1 Hle) in E1. cbv zeta in E1.
  pose proof (split_parts (drop (byte_offset_consumed st) data)) as Hparts.
  destruct (_split_at_last_complete_line (drop (byte_offset_consumed st) data)) as [c frag].
  cbn [fst] in *. set (k := byte_offset_consumed st) in *.
  destruct (decide (c = [])) as [->|Hc]; [injection E1 as <-; by exists w2|].
  destruct Hline as [|Hline]; [done|]. destruct Hparts as (Hdata & _).
  destruct (batch sid false c k w) as [[[]|e] wB] eqn:EB; [|done]. injection E1 as <-.
  assert (drop k (data ++ more) = c ++ (frag ++ more)) as Hd2.
  { rewrite drop_app_le by done. rewrite <- Hdata. by rewrite <- app_assoc. }
  assert (k + length c <= length data) as Hk1.
  { apply (f_equal length) in Hdata. rewrite length_app, length_drop in Hdata. lia. }
  (* the session after the first pass *)
  destruct (batch_rel sid false c k w sid) as [Emeta _]. rewrite EB, Hst in Emeta. cbn [snd option_map] in Emeta.
  destruct (state_of wB sid) as [stB|] eqn:EsB; [|done]. injection Emeta as _ Epath _ _ _.
  set (u1 := update_state sid (set_consumed (k + length c) m1)) in *.
  assert (state_of (u1 wB) sid = Some (set_consumed (k + length c) m1 stB)) as Hst1
    by (unfold u1; by rewrite state_of_update, decide_True, EsB).
  assert (file_path (set_consumed (k + length c) m1 stB) = file_path st) as Ep by done.
  rewrite (ensure_reads v2 sid _ _ (data ++ more) m2 Hst1) in E2;
    [|by rewrite Ep | cbn [byte_offset_consumed set_consumed]; rewrite length_app; lia].
  rewrite (ensure_reads v2 sid w st (data ++ more) m2 Hst H2) by (rewrite length_app; fold k; lia).
  cbv zeta in E2 |- *. fold k. cbn [byte_offset_consumed set_consumed] in E2.
  rewrite <- drop_drop, Hd2, drop_app_length in E2. rewrite Hd2, split_after by done.
  set (c2 := (_split_at_last_complete_line (frag ++ more)).1) in *.
  rewrite decide_False by (intros [? _]%app_eq_nil; done). rewrite batch_app, EB by done.
  destruct (decide (c2 = [])) as [->|Hc2].
  - injection E2 as <-. rewrite app_nil_r. unfold batch. simpl. eexists. split; [done|].
    unfold u1. by rewrite !forget_consumed.
  - assert (blind u1 (batch sid false c2 (k + length c))) as Hb
      by (apply blind_for; intros span; apply blind_index_line).
    rewrite Hb in E2. destruct (batch sid false c2 (k + length c) wB) as [[[]|e] wC]; [|done].
    cbn [fst snd] in E2. injection E2 as <-. eexists. split; [done|]. unfold u1.
    rewrite update_state_twice, forget_consumed, length_app, Nat.add_assoc.
    unfold forget_mtime. rewrite update_state_twice. by apply update_state_ext.
Qed.
End tailing.

(** ** Facts: pages are slices of the timeline *)

Definition timeline (states : list SessionFileState) : list place := flat_map pair_all states.

Lemma timeline_app a b : timeline (a ++ b) = timeline a ++ timeline b.
Proof. apply flat_map_app. Qed.

Lemma length_pair_all st : length (pair_all st) = length (locators st).
Proof. apply length_map. Qed.

Lemma length_timeline states : length (timeline states) = sum_list_with (λ st, length (locators st)) states.
Proof.
  induction states as [|st states IH]; simpl; [done|]. by rewrite length_app, length_pair_all, IH.
Qed.

Lemma map_drop {A B} (f : A → B) n l : map f (drop n l) = drop n (map f l).
Proof. revert n. induction l as [|a l IH]; intros [|n]; simpl; auto. Qed.
Lemma map_take {A B} (f : A → B) n l : map f (take n l) = take n (map f l).
Proof. revert n. induction l as [|a l IH]; intros [|n]; simpl; auto. by rewrite IH. Qed.

(** The last [n] elements of [a ++ b], taken first from [b]. *)
Lemma drop_from_end {A} n (a b : list A) :
  drop (length (a ++ b) - n) (a ++ b) = drop (length a - (n - length b)) a ++ drop (length b - n) b.
Proof.
  rewrite length_app, drop_app. f_equal; [|f_equal; lia].
  destruct (decide (n <= length b)); [by rewrite !drop_ge by lia | f_equal; lia].
Qed.

Lemma collect_tail_spec states : ∀ n collected,
  collect_tail (reverse states) n collected
  = drop (length (timeline states) - n) (timeline states) ++ collected.
Proof.
  induction states as [|st states IH] using rev_ind; intros n collected; [done|].
  rewrite reverse_app. simpl. rewrite timeline_app. cbn [timeline flat_map]. rewrite app_nil_r.
  rewrite drop_from_end, length_pair_all.
  destruct (Nat.eqb_spec n 0) as [->|Hn].
  - rewrite (drop_ge (pair_all st)) by (rewrite length_pair_all; lia).
    rewrite drop_ge by lia. done.
  - rewrite IH, <- app_assoc, map_drop. fold (pair_all st).
    by replace (n - (length (locators st) - (length (locators st) - n))) with (n - length (locators st)) by lia.
Qed.

Lemma collect_before_other ref rev_states : ∀ n collected,
  (∀ st, st ∈ rev_states → session_id st ≠ ref.1) →
  collect_before ref rev_states n collected = collect_tail rev_states n collected.
Proof.
  induction rev_states as [|st rest IH]; intros n collected Hr; cbn [collect_before collect_tail]; [done|].
  destruct (n =? 0)%nat; [done|]. unfold before_end.
  rewrite bool_decide_eq_false_2 by (apply Hr; left).
  rewrite IH by (intros; apply Hr; by right). f_equal. f_equal. f_equal.
  apply take_ge. rewrite length_drop. lia.
Qed.

Lemma collect_after_other ref states : ∀ n collected,
  (∀ st, st ∈ states → session_id st ≠ ref.1) →
  collect_after ref states (Z.of_nat n) collected = collected ++ take n (timeline states).
Proof.
  induction states as [|st rest IH]; intros n collected Hr; cbn [collect_after timeline flat_map].
  { by rewrite take_nil, app_nil_r. }
  destruct (Z.leb_spec (Z.of_nat n) 0) as [Hn|Hn].
  { replace n with 0 by lia. by rewrite app_nil_r. }
  rewrite bool_decide_eq_false_2 by (apply Hr; left). fold (timeline rest).
  set (m := length (locators st)).
  replace (Z.of_nat n - (Z.min (Z.of_nat m) (Z.of_nat 0 + Z.of_nat n) - Z.of_nat 0))%Z with (Z.of_nat (n - m)) by lia.
  rewrite IH by (intros; apply Hr; by right). rewrite <- app_assoc. f_equal.
  rewrite take_app. unfold pair_all at 2. rewrite length_map. fold m. f_equal.
  rewrite drop_0, Nat.sub_0_r, map_take. unfold pair_all.
  destruct (decide (m <= n)) as [Hmn|Hmn].
  - rewrite !take_ge by (rewrite length_map; fold m; lia). done.
  - f_equal. lia.
Qed.

Lemma collect_at_offset_spec states : ∀ skip n collected,
  0 < n → collect_at_offset states skip n collected = collected ++ take n (drop skip (timeline states)).
Proof.
  induction states as [|st rest IH]; intros skip n collected Hn; cbn [collect_at_offset timeline flat_map].
  { by rewrite drop_nil, take_nil, app_nil_r. }
  fold (timeline rest). set (m := length (locators st)).
  assert (length (pair_all st) = m) as Em by apply length_pair_all.
  destruct (Nat.leb_spec m skip) as [Hs|Hs].
  { rewrite IH by done. rewrite drop_app_ge by lia. by rewrite Em. }
  rewrite drop_app_le by lia. rewrite take_app, length_drop, Em.
  assert (map (pair st) (take (Nat.min m (skip + n) - skip) (drop skip (locators st)))
    = take n (drop skip (pair_all st))) as ->.
  { rewrite map_take, map_drop. fold (pair_all st).
    destruct (decide (m - skip <= n)) as [Hle|Hgt].
    - rewrite !take_ge; [done|rewrite length_drop; lia..].
    - f_equal. lia. }
  destruct (Nat.eqb_spec (n - (Nat.min m (skip + n) - skip)) 0) as [E|E].
  - replace (n - (m - skip)) with 0 by lia. simpl. by rewrite app_nil_r.
  - rewrite IH by lia. rewrite drop_0, <- app_assoc. do 3 f_equal. lia.
Qed.

Lemma index_of_split sid states p : index_of sid states = Some p →
  ∃ a st b, states = a ++ st :: b ∧ length a = p ∧ session_id st = sid ∧ ∀ st', st' ∈ a → session_id st' ≠ sid.
Proof.
  revert p. induction states as [|st states IH]; intros p; simpl; [done|].
  case_bool_decide as E.
  - intros [= <-]. exists [], st, states. split_and!; auto. by intros st' ?%elem_of_nil.
  - destruct (index_of sid states) as [q|]; [|done]. intros [= <-].
    destruct (IH q eq_refl) as (a & st' & b & -> & <- & Hst & Ha). exists (st :: a), st', b.
    split_and!; auto. intros st0 [->|H0]%elem_of_cons; auto.
Qed.

(** The place [id] refers to, among the selected states. *)
Lemma before_spec ref a st b n :
  session_id st = ref.1 → (∀ st', st' ∈ a → session_id st' ≠ ref.1) → ref.2 <= length (locators st) →
  let k := length (timeline a) + ref.2 in
  collect_before ref (reverse (take (S (length a)) (a ++ st :: b))) n []
  = drop (k - n) (take k (timeline (a ++ st :: b))).
Proof.
  intros Hst Ha Hi k.
  assert (take (S (length a)) (a ++ st :: b) = a ++ [st]) as ->.
  { rewrite cons_middle, app_assoc. apply take_app_length'. rewrite length_app. simpl. lia. }
  rewrite reverse_app. change (reverse [st]) with [st]. cbn [app collect_before]. unfold before_end.
  rewrite bool_decide_eq_true_2 by done. rewrite app_nil_r.
  assert (take k (timeline (a ++ st :: b)) = timeline a ++ take ref.2 (pair_all st)) as ->.
  { rewrite timeline_app. unfold k. rewrite take_app_add. f_equal. cbn [timeline flat_map].
    rewrite take_app_le; [done|]. by rewrite length_pair_all. }
  assert (length (take ref.2 (pair_all st)) = ref.2) as Et by (rewrite length_take, length_pair_all; lia).
  replace (k - n) with (length (timeline a ++ take ref.2 (pair_all st)) - n) by (rewrite length_app, Et; done).
  rewrite drop_from_end, Et. destruct (Nat.eqb_spec n 0) as [->|Hn].
  - rewrite !drop_ge; [done|rewrite Et; lia|lia].
  - rewrite collect_before_other by (intros st' Hin; apply Ha; by apply elem_of_reverse).
    rewrite collect_tail_spec. f_equal; [f_equal; lia|]. unfold pair_all. rewrite map_take, map_drop.
    replace (ref.2 - (ref.2 - n)) with (ref.2 - (ref.2 - n)) by lia. by rewrite skipn_firstn_comm.
Qed.

Lemma after_spec ref a st b n :
  session_id st = ref.1 → (∀ st', st' ∈ b → session_id st' ≠ ref.1) → ref.2 < length (locators st) →
  collect_after ref (drop (length a) (a ++ st :: b)) (Z.of_nat n) []
  = take n (drop (S (length (timeline a) + ref.2)) (timeline (a ++ st :: b))).
Proof.
  intros Hst Hb Hi. rewrite drop_app_length. cbn [collect_after].
  assert (drop (S (length (timeline a) + ref.2)) (timeline (a ++ st :: b))
    = drop (S ref.2) (pair_all st) ++ timeline b) as ->.
  { rewrite timeline_app. replace (S (length (timeline a) + ref.2)) with (length (timeline a) + S ref.2) by lia.
    rewrite drop_app_add. cbn [timeline flat_map]. rewrite drop_app_le; [done|]. by rewrite length_pair_all. }
  destruct (Z.leb_spec (Z.of_nat n) 0) as [Hn|Hn]; [by replace n with 0 by lia|].
  rewrite bool_decide_eq_true_2 by done. set (m := length (locators st)) in *. set (i := S ref.2) in *.
  assert (i <= m) as Him by (unfold i; lia).
  replace (Z.of_nat n - (Z.min (Z.of_nat m) (Z.of_nat i + Z.of_nat n) - Z.of_nat i))%Z
    with (Z.of_nat (n - (m - i))) by lia.
  rewrite collect_after_other by done. cbn [app].
  rewrite take_app, length_drop, length_pair_all. fold m. f_equal.
  rewrite map_take, map_drop. fold (pair_all st).
  destruct (decide (m - i <= n)) as [Hle|Hgt].
  - rewrite !take_ge; [done|rewrite length_drop, length_pair_all; fold m; lia..].
  - f_equal. lia.
Qed.

Lemma lookup_timeline a st b i loc :
  locators st !! i = Some loc → timeline (a ++ st :: b) !! (length (timeline a) + i) = Some (st, loc).
Proof.
  intros E. rewrite timeline_app, lookup_app_r by lia. rewrite Nat.add_comm, Nat.add_sub.
  cbn [timeline flat_map]. rewrite lookup_app_l by (rewrite length_pair_all; by eapply lookup_lt_Some).
  unfold pair_all. by rewrite list_lookup_fmap, E.
Qed.

(** ** Facts: the watcher's invariant *)

Definition ids_of (st : SessionFileState) : list pystr := map event_id (locators st).

Record wf (w : watcher) : Prop := {
  wf_keys : NoDup (map fst (_session_states w));
  wf_session : ∀ sid st, state_of w sid = Some st → session_id st = sid;
  wf_main : NoDup (_main_session_ids w) ∧ ∀ sid, sid ∈ _main_session_ids w → is_Some (state_of w sid);
  wf_refs : ∀ id sid i, _locator_ref_by_id w !! id = Some (sid, i) →
    ∃ st loc, state_of w sid = Some st ∧ locators st !! i = Some loc ∧ event_id loc = id;
  wf_ids : ∀ sid st, state_of w sid = Some st →
    NoDup (ids_of st) ∧ ∀ id, id ∈ ids_of st → id ∈ _existing_event_ids w;
  wf_disjoint : ∀ sid1 sid2 st1 st2 id, sid1 ≠ sid2 → state_of w sid1 = Some st1 → state_of w sid2 = Some st2 →
    id ∈ ids_of st1 → id ∉ ids_of st2;
  wf_cache : ∀ k e, (k, e) ∈ _body_cache w → event_str "event_id" e = k;
  wf_emitted : ∀ sid st, state_of w sid = Some st → emitted_count st <= length (locators st);
  wf_located : ∀ sid st i loc, state_of w sid = Some st → locators st !! i = Some loc →
    _locator_ref_by_id w !! event_id loc = Some (sid, i);
}.

(** The fields the invariant reads, but for the states. *)
Lemma wf_same w w' :
  _session_states w' = _session_states w → _main_session_ids w' = _main_session_ids w →
  _locator_ref_by_id w' = _locator_ref_by_id w → _existing_event_ids w ⊆ _existing_event_ids w' →
  (∀ k e, (k, e) ∈ _body_cache w' → event_str "event_id" e = k) →
  wf w → wf w'.
Proof.
  intros E1 E2 E3 E4 Hc [H1 H2 H3 H4 H5 H6 H7 H8 H9].
  assert (∀ sid, state_of w' sid = state_of w sid) as Es by (intros sid; unfold state_of; by rewrite E1).
  split; rewrite ?E1, ?E2, ?E3; try setoid_rewrite Es; auto.
  intros sid st Hst. destruct (H5 sid st Hst) as [Hn Hi]. split; auto.
Qed.

Lemma keys_update sid f w : map fst (_session_states (update_state sid f w)) = map fst (_session_states w).
Proof.
  unfold update_state. simpl. rewrite map_map. apply map_ext. intros [k st]. simpl. by case_bool_decide.
Qed.

(** Updating one session's state without touching its locators. *)
Lemma wf_update sid f w :
  (∀ st, session_id (f st) = session_id st ∧ locators (f st) = locators st
     ∧ (emitted_count st <= length (locators st) → emitted_count (f st) <= length (locators st))) →
  wf w → wf (update_state sid f w).
Proof.
  intros Hf [H1 H2 H3 H4 H5 H6 H7 H8 H9].
  assert (∀ s st', state_of (update_state sid f w) s = Some st' →
    ∃ st, state_of w s = Some st ∧ session_id st' = session_id st ∧ locators st' = locators st
      ∧ (emitted_count st <= length (locators st) → emitted_count st' <= length (locators st))) as Hs.
  { intros s st'. rewrite state_of_update. case_decide; [|intros E; by exists st'].
    destruct (state_of w s) as [st|]; [|done]. intros [= <-]. exists st. destruct (Hf st) as (? & ? & ?). auto. }
  split.
  - by rewrite keys_update.
  - intros s st' (st & E & -> & _)%Hs. by apply H2.
  - split; [apply H3|]. intros s Hin. destruct H3 as [_ H3]. destruct (H3 s Hin) as [st E].
    rewrite state_of_update. case_decide; rewrite E; by eexists.
  - intros id s i Hr. destruct (H4 id s i Hr) as (st & loc & E & El & Eid).
    destruct (Hf st) as (_ & Ef & _).
    rewrite state_of_update, E. case_decide; [|by eauto].
    exists (f st), loc. by rewrite Ef.
  - intros s st' (st & E & _ & El & _)%Hs. unfold ids_of. rewrite El. by apply (H5 s).
  - intros s1 s2 st1' st2' id Hne (st1 & E1 & _ & L1 & _)%Hs (st2 & E2 & _ & L2 & _)%Hs.
    unfold ids_of. rewrite L1, L2. by apply (H6 s1 s2).
  - apply H7.
  - intros s st' (st & E & _ & El & He)%Hs. rewrite El. apply He. by apply (H8 s).
  - intros s st' i loc (st & E & _ & El & _)%Hs. rewrite El. by apply (H9 s).
Qed.

Lemma wf_set_consumed sid n m w : wf w → wf (update_state sid (set_consumed n m) w).
Proof. by apply wf_update. Qed.

Lemma wf_mark sid w : wf w → wf (update_state sid mark_emitted w).
Proof. apply wf_update. intros st. split_and!; auto. Qed.

Lemma cache_put_ok e w :
  (∀ k e', (k, e') ∈ _body_cache w → event_str "event_id" e' = k) →
  ∀ k e', (k, e') ∈ _body_cache (_cache_put_locked e w) → event_str "event_id" e' = k.
Proof.
  intros Hc k e'. unfold _cache_put_locked, evict. simpl. intros Hin.
  apply (sublist_subseteq _ _ (sublist_drop _ _)) in Hin.
  apply elem_of_app in Hin as [Hin|[= -> ->]%list_elem_of_singleton]; [|done].
  apply Hc. unfold ddel in Hin. apply list_elem_of_In, filter_In in Hin as [Hin _]. by apply list_elem_of_In.
Qed.

(** An event whose id is known to the parser's table and indexed nowhere. *)
Definition unindexed (w : watcher) (id : pystr) : Prop :=
  id ∈ _existing_event_ids w ∧ ∀ sid st, state_of w sid = Some st → id ∉ ids_of st.

Lemma index_event_ids sid mark off len e w s st' :
  state_of (index_event sid mark off len e w) s = Some st' →
  ∃ st, state_of w s = Some st ∧ session_id st' = session_id st ∧ emitted_count st' = emitted_count st
    ∧ locators st' = locators st ++ (if decide (s = sid) then [locator_of off len e] else []).
Proof.
  rewrite index_event_state. case_decide as E.
  - subst s. destruct (state_of w sid) as [st|]; [|done]. intros [= <-]. by exists st.
  - intros Hs. exists st'. by rewrite app_nil_r.
Qed.

Lemma wf_index_event sid mark off len e w :
  is_Some (state_of w sid) → unindexed w (event_str "event_id" e) → wf w →
  wf (index_event sid mark off len e w).
Proof.
  intros [st0 Hst0] [Hex Hnew] [H1 H2 H3 H4 H5 H6 H7 H8 H9]. split.
  - unfold index_event. rewrite <- (keys_update sid (λ st, set_locators (locators st ++ [locator_of off len e]) st) w) in H1.
    exact H1.
  - intros s st' (st & E & -> & _)%index_event_ids. by apply H2.
  - split; [apply H3|]. intros s Hin. destruct H3 as [_ H3]. destruct (H3 s Hin) as [st E].
    rewrite index_event_state, E. case_decide; by eexists.
  - intros id s i Hr. rewrite index_event_state.
    change (_locator_ref_by_id _) with
      (<[event_str "event_id" e := (sid, match state_of w sid with Some st => length (locators st) | None => 0 end)]>
         (_locator_ref_by_id w)) in Hr.
    apply lookup_insert_Some in Hr as [[<- [= <- <-]]|[Hne Hr]].
    + rewrite decide_True, Hst0 by done. eexists _, (locator_of off len e). split; [done|]. split; [|done].
      simpl. by rewrite lookup_app_r, Nat.sub_diag by lia.
    + destruct (H4 id s i Hr) as (st & loc & E & El & Eid). rewrite E.
      case_decide; [|by eauto]. eexists _, loc. split; [done|]. split; [|done].
      simpl. by apply lookup_app_l_Some.
  - intros s st' (st & E & _ & _ & El)%index_event_ids. destruct (H5 s st E) as [Hn Hi].
    unfold ids_of. rewrite El, map_app. case_decide as Es; simpl; [|rewrite app_nil_r; by split].
    split.
    + apply NoDup_app. split_and!; [done| |apply NoDup_singleton].
      intros id Hid ->%list_elem_of_singleton. by apply (Hnew s st).
    + intros id [Hid| ->%list_elem_of_singleton]%elem_of_app; [by apply Hi|done].
  - intros s1 s2 st1' st2' id Hne (st1 & E1 & _ & _ & L1)%index_event_ids (st2 & E2 & _ & _ & L2)%index_event_ids.
    unfold ids_of. rewrite L1, L2, !map_app, !elem_of_app.
    pose proof (H6 s1 s2 st1 st2 id Hne E1 E2) as Hd.
    pose proof (Hnew s1 st1 E1) as N1. pose proof (Hnew s2 st2 E2) as N2. unfold ids_of in *.
    repeat case_decide; subst; simpl; rewrite ?list_elem_of_singleton; try done; set_solver.
  - apply cache_put_ok, H7.
  - intros s st' (st & E & _ & -> & ->)%index_event_ids. rewrite length_app. specialize (H8 s st E). lia.
  - intros s st' i loc (st & E & _ & _ & ->)%index_event_ids.
    change (_locator_ref_by_id _) with
      (<[event_str "event_id" e := (sid, match state_of w sid with Some st => length (locators st) | None => 0 end)]>
         (_locator_ref_by_id w)).
    intros [Hi|[Hi Hl]]%lookup_app_Some.
    + rewrite lookup_insert_ne; [by apply (H9 s st)|]. intros Heq. apply (Hnew s st E). rewrite Heq.
      apply list_elem_of_fmap_2. by eapply list_elem_of_lookup_2.
    + case_decide as Es; [|done]. subst s. apply list_lookup_singleton_Some in Hl as [Hi0 <-].
      simpl. rewrite lookup_insert_eq, E. do 2 f_equal. lia.
Qed.

Lemma for_each_modify {S A} (l : list A) (g : A → S → S) s :
  for_each l (λ a, modify (g a)) s = (Ret tt, foldl (λ s a, g a s) s l).
Proof. revert s. induction l as [|a l IH]; intros s; simpl; [done|]. unfold mbind, M_bind. simpl. apply IH. Qed.

Lemma wf_index_events sid mark off len evs : ∀ w,
  is_Some (state_of w sid) → NoDup (map (event_str "event_id") evs) →
  (∀ e, e ∈ evs → unindexed w (event_str "event_id" e)) → wf w →
  wf (foldl (λ w e, index_event sid mark off len e w) w evs).
Proof.
  induction evs as [|e evs IH]; intros w Hs Hn Hu Hw; [done|]. cbn [foldl map] in *.
  apply NoDup_cons in Hn as [He Hn]. apply IH; [|done| |].
  - destruct Hs as [st Hs]. rewrite index_event_state, Hs. case_decide; by eexists.
  - intros e' He'. destruct (Hu e') as [Hex Hnew]; [by right|]. split; [exact Hex|].
    intros s st' (st & E & _ & _ & El)%index_event_ids. unfold ids_of. rewrite El, map_app, elem_of_app.
    intros [Hin|Hin]; [by apply (Hnew s st)|]. case_decide; simpl in Hin; [|by apply elem_of_nil in Hin].
    apply list_elem_of_singleton in Hin. apply He. rewrite <- Hin. by apply list_elem_of_fmap_2.
  - apply wf_index_event; [done| |done]. apply Hu. left.
Qed.

Section invariant.
Context `{UnicodeDB} `{PyRepr} (json_str : json → pystr).

(** What a deduplicated parse does: it records the fresh, distinct ids of the
    events it returns, and leaves the rest of the watcher alone. *)
Lemma parse_dedup sid lines w :
  let '(r, w') := parse json_str sid lines true w in
  _session_states w' = _session_states w ∧ _main_session_ids w' = _main_session_ids w
  ∧ _locator_ref_by_id w' = _locator_ref_by_id w ∧ _body_cache w' = _body_cache w
  ∧ emitted w' = emitted w
  ∧ _existing_event_ids w ⊆ _existing_event_ids w'
  ∧ (∀ evs, r = Ret evs → NoDup (map (event_str "event_id") evs)
       ∧ ∀ e, e ∈ evs → event_str "event_id" e ∈ _existing_event_ids w'
           ∧ event_str "event_id" e ∉ _existing_event_ids w).
Proof.
  unfold parse. set (s0 := {| existing_event_ids := _ |}).
  destruct (parse_session_lines json_str (Some sid) lines s0) as [r ps] eqn:E.
  unfold parse_session_lines, modify, gets, mbind, M_bind in E.
  match type of E with context [for_each lines ?f ?s] => pose proof (extends_lines json_str (Some sid) lines s) as Hx end.
  destruct (for_each lines _ _) as [r0 s1].
  assert (ps = s1) as -> by (destruct r0; by inv E).
  destruct Hx as (es & X & N & D & F & Wf). simpl in X, N, F.
  split_and!; try done; [simpl; rewrite X; set_solver|].
  intros evs ->. destruct r0 as [[]|]; [|done]. injection E as <-.
  assert (map (event_str "event_id") (map snd (sort_by by_timestamp (new_events s1))) ≡ₚ map fst es) as Hp.
  { rewrite (sort_by_perm by_timestamp (new_events s1)), N, !map_map. clear -Wf.
    induction Wf as [|e es [H1 _] _ IH]; simpl; [done|]. rewrite IH. unfold event_str at 1. by rewrite H1. }
  split; [by rewrite Hp|]. intros e He.
  assert (event_str "event_id" e ∈ map fst es) as Hin by (rewrite <- Hp; by apply list_elem_of_fmap_2).
  split; [|by apply F]. simpl. rewrite X, elem_of_app, elem_of_reverse. by left.
Qed.

Definition keeps_wf (w w' : watcher) : Prop := wf w → wf w'.
#[export] Instance keeps_wf_preorder : PreOrder keeps_wf.
Proof. split; [by intros w ? | intros w1 w2 w3 H1 H2 Hw; by apply H2, H1]. Qed.

(** The session [sid] is known. *)
Definition keeps_session (sid : pystr) (w w' : watcher) : Prop :=
  is_Some (state_of w sid) → is_Some (state_of w' sid) ∧ (wf w → wf w').
#[export] Instance keeps_session_preorder sid : PreOrder (keeps_session sid).
Proof. split; [by intros w ? | intros w1 w2 w3 H1 H2 Hw; destruct (H1 Hw) as [Hs ?]; destruct (H2 Hs); auto]. Qed.

Lemma wf_index_line sid mark span : stepwise (keeps_session sid) (index_line json_str sid mark span).
Proof.
  destruct span as [[off len] line]. intros w Hs. unfold index_line.
  destruct (decode line) as [text|]; [|done]. unfold mbind, M_bind.
  pose proof (parse_dedup sid (splitlines text) w) as Hp.
  destruct (parse json_str sid (splitlines text) true w) as [r w1].
  destruct Hp as (E1 & E2 & E3 & E4 & _ & Ex & Hr).
  assert (∀ s, state_of w1 s = state_of w s) as Es by (intros s; unfold state_of; by rewrite E1).
  assert (wf w → wf w1) as Hw1 by (intros Hw; apply (wf_same w w1); auto; rewrite E4; apply Hw).
  destruct r as [evs|x]; cbn [snd]; [|by rewrite Es].
  rewrite for_each_modify. cbn [snd]. destruct (Hr evs eq_refl) as [Hn Hnew]. split.
  - clear -Hs Es. assert (is_Some (state_of w1 sid)) as Hs1 by (by rewrite Es). clear Hs Es. revert w1 Hs1.
    induction evs as [|e evs IH]; intros w1 Hs1; [done|]. cbn [foldl]. apply IH.
    destruct Hs1 as [st E]. rewrite index_event_state, E. case_decide; by eexists.
  - intros Hw. apply wf_index_events; [by rewrite Es|done| |by apply Hw1].
    intros e He. destruct (Hnew e He) as [Hin Hout]. split; [done|].
    intros s st Hst Hid. rewrite Es in Hst. by apply Hout, (wf_ids w Hw s st).
Qed.

Lemma lookup_deletes {A} (ks : list pystr) (m : gmap pystr A) k :
  foldl (λ m k, delete k m) m ks !! k = if decide (k ∈ ks) then None else m !! k.
Proof.
  revert m. induction ks as [|k0 ks IH]; intros m; cbn [foldl]; [done|]. rewrite IH.
  destruct (decide (k = k0)) as [->|Hne].
  - rewrite lookup_delete_eq, (decide_True (P := k0 ∈ k0 :: ks)) by left. by case_decide.
  - rewrite lookup_delete_ne by done. apply decide_ext. rewrite elem_of_cons. tauto.
Qed.

Lemma reset_state_of w sid st s : state_of w sid = Some st →
  state_of (reset_state sid w) s =
  if decide (s = sid) then Some (set_emitted 0 (set_consumed 0 (last_mtime st) (set_locators [] st))) else state_of w s.
Proof.
  intros E. unfold reset_state. rewrite E. rewrite state_of_update.
  change (state_of (with_refs _ (with_tables _ _ w)) s) with (state_of w s).
  case_decide; [subst; by rewrite E|done].
Qed.

Lemma wf_reset sid w : wf w → wf (reset_state sid w).
Proof.
  intros Hw. destruct (state_of w sid) as [st|] eqn:Est; [|by unfold reset_state; rewrite Est].
  pose proof Hw as [H1 H2 H3 H4 H5 H6 H7 H8 H9]. split; try setoid_rewrite (reset_state_of w sid st _ Est).
  - unfold reset_state. rewrite Est, keys_update. exact H1.
  - intros s st'. case_decide as E; [|apply H2]. subst. intros [= <-]. exact (H2 sid st Est).
  - unfold reset_state. rewrite Est. split; [apply H3|]. intros s Hin. case_decide; [by eexists|]. by apply H3.
  - intros id s i Hr. unfold reset_state in Hr. rewrite Est in Hr. simpl in Hr. rewrite lookup_deletes in Hr.
    case_decide as Hid; [done|]. destruct (H4 id s i Hr) as (st' & loc & E & El & Eid).
    case_decide as Es; [|by eauto]. subst s. exfalso. apply Hid. rewrite E in Est. injection Est as <-.
    rewrite <- Eid. apply list_elem_of_fmap_2. by eapply list_elem_of_lookup_2.
  - intros s st'. case_decide as Es; [intros [= <-]; split; [constructor|by intros id ?%elem_of_nil]|].
    intros E. destruct (H5 s st' E) as [Hn Hi]. split; [done|]. intros id Hid.
    unfold reset_state. rewrite Est. simpl. apply list_elem_of_In, filter_In. split; [apply list_elem_of_In; by apply Hi|].
    apply negb_true_iff, bool_decide_eq_false. by apply (H6 s sid st' st).
  - intros s1 s2 st1 st2 id Hne. case_decide as E1; case_decide as E2; [by subst| | |by apply H6].
    + intros [= <-] _ Hin. by apply elem_of_nil in Hin.
    + intros _ [= <-] _ Hin. by apply elem_of_nil in Hin.
  - unfold reset_state. rewrite Est. exact H7.
  - intros s st'. case_decide; [intros [= <-]; simpl; lia|apply H8].
  - intros s st' i loc. case_decide as Es; [by intros [= <-]|]. intros E Hl.
    unfold reset_state. rewrite Est. simpl. rewrite lookup_deletes, decide_False; [by apply (H9 s st')|].
    apply (H6 s sid st' st); [done..|]. apply list_elem_of_fmap_2. by eapply list_elem_of_lookup_2.
Qed.

(** Reading a page changes only the cache and the table of tool names. *)
Definition keeps_index (w w' : watcher) : Prop :=
  _session_states w' = _session_states w ∧ _main_session_ids w' = _main_session_ids w
  ∧ _locator_ref_by_id w' = _locator_ref_by_id w ∧ _existing_event_ids w' = _existing_event_ids w
  ∧ emitted w' = emitted w ∧ _body_cache_capacity w' = _body_cache_capacity w
  ∧ ((∀ k e, (k, e) ∈ _body_cache w → event_str "event_id" e = k) →
     ∀ k e, (k, e) ∈ _body_cache w' → event_str "event_id" e = k).
#[export] Instance keeps_index_preorder : PreOrder keeps_index.
Proof.
  split; [by intros w; split_and!|].
  intros w1 w2 w3 (A1 & A2 & A3 & A4 & A5 & A6 & A7) (B1 & B2 & B3 & B4 & B5 & B6 & B7).
  split_and!; try congruence. intros Hc. by apply B7, A7.
Qed.

Lemma keeps_index_wf w w' : keeps_index w w' → wf w → wf w'.
Proof.
  intros (E1 & E2 & E3 & E4 & _ & _ & Hc) Hw. apply (wf_same w w'); auto; [by rewrite E4|]. apply Hc, Hw.
Qed.

Lemma move_to_end_elem k c k' e : (k', e) ∈ move_to_end k c → (k', e) ∈ c.
Proof.
  unfold move_to_end. destruct (dget k c) as [e0|] eqn:E; [|done].
  intros [Hin|[= -> ->]%list_elem_of_singleton]%elem_of_app.
  - unfold ddel in Hin. apply list_elem_of_In, filter_In in Hin as [Hin _]. by apply list_elem_of_In.
  - by apply dget_elem.
Qed.

Lemma keeps_resolve_body v st loc : stepwise keeps_index (resolve_body json_str v st loc).
Proof.
  unfold resolve_body. apply stepwise_bind; [apply _|apply stepwise_gets; apply _|]. intros w0.
  destruct (dget (event_id loc) (_body_cache w0)).
  - apply stepwise_bind; [apply _| |intros []; apply stepwise_ret; apply _].
    intros w. split_and!; try done. intros Hc k e Hin%move_to_end_elem. by apply Hc.
  - apply stepwise_bind; [apply _| |].
    + unfold _reparse_line_locked. destruct (read v (file_path st)); [|apply stepwise_ret; apply _].
      destruct (decode _); [|apply stepwise_ret; apply _].
      intros w. unfold parse. by destruct (parse_session_lines _ _ _ _).
    + intros evs. apply stepwise_bind; [apply _| |].
      * apply stepwise_for; [apply _|]. intros e w. split_and!; try done. apply cache_put_ok.
      * intros []. apply stepwise_bind; [apply _|apply stepwise_gets; apply _|].
        intros w1. apply stepwise_ret; apply _.
Qed.

Lemma keeps_resolve v pairs : stepwise keeps_index (_resolve_bodies_locked json_str v pairs).
Proof.
  induction pairs as [|[st loc] pairs IH]; simpl; [apply stepwise_ret; apply _|].
  apply stepwise_bind; [apply _|apply keeps_resolve_body|]. intros body.
  apply stepwise_bind; [apply _|done|]. intros evs. apply stepwise_ret; apply _.
Qed.

Lemma wf_read_new v sid mark size mtime w : wf w → wf (read_new json_str v sid mark size mtime w).2.
Proof.
  intros Hw. unfold read_new, gets. unfold mbind at 1, M_bind at 1.
  destruct (state_of w sid) as [st|] eqn:Est; [|done].
  assert (∀ w', wf w' → wf (when_marked mark sid w').2) as Hm
    by (intros w' Hw'; unfold when_marked; destruct mark; [by apply wf_mark|done]).
  case_match; [by apply Hm|]. destruct (read v (file_path st)) as [data|]; [|done]. cbv zeta.
  case_match; [by apply Hm|]. unfold mbind, M_bind.
  match goal with |- context [for_each ?l ?f w] =>
    pose proof (stepwise_for (keeps_session sid) l f (λ a, wf_index_line sid mark a) w) as Hf;
    destruct (for_each l f w) as [[[]|x] w1] end; destruct (Hf ltac:(by eexists)) as [_ Hw1]; specialize (Hw1 Hw).
  - cbn [snd] in *. apply Hm. by apply wf_set_consumed.
  - exact Hw1.
Qed.

Lemma wf_ensure v sid mark w : wf w → wf (_ensure_cache_current json_str v sid mark w).2.
Proof.
  intros Hw. unfold _ensure_cache_current, gets. unfold mbind at 1, M_bind at 1.
  destruct (state_of w sid) as [st|] eqn:Est; [|done].
  destruct (stat v (file_path st)) as [[size mtime]|]; [|done].
  unfold mbind, M_bind. destruct (size <? byte_offset_consumed st)%nat; apply wf_read_new; [by apply wf_reset|done].
Qed.

Lemma wf_emit v sid w : wf w → wf (emit_pending json_str v sid w).2.
Proof.
  intros Hw. unfold emit_pending, gets. unfold mbind at 1, M_bind at 1.
  destruct (state_of w sid) as [st|] eqn:Est; [|done].
  unfold mbind, M_bind. cbn [modify].
  pose proof (keeps_resolve v (map (pair st) (drop (emitted_count st) (locators st))) (update_state sid mark_emitted w)) as Hk.
  destruct (_resolve_bodies_locked _ _ _ _) as [[evs|x] w1]; cbn [snd] in *; cycle 1.
  { eapply keeps_index_wf; [exact Hk|by apply wf_mark]. }
  unfold when. destruct (evs <>? [])%py; cbn [snd modify].
  - apply (wf_same w1); try done.
    + apply (wf_cache w1). eapply keeps_index_wf; [exact Hk|by apply wf_mark].
    + eapply keeps_index_wf; [exact Hk|by apply wf_mark].
  - eapply keeps_index_wf; [exact Hk|by apply wf_mark].
Qed.
End invariant.

(** ** Runs of the watcher

    One step per lock hold: the poll thread's ensure and emit, an HTTP thread's
    ensure and page, and discovery, in any order and with any view of the disk.
    A step that raises leaves the state it had reached. *)
Section runs.
Context `{UnicodeDB} `{PyRepr} (json_str : json → pystr).

Definition new_watcher (capacity : nat) : watcher :=
  {| _session_states := []; _main_session_ids := []; _existing_event_ids := []; _tool_name_by_call_id := [];
     _body_cache := []; _body_cache_capacity := capacity; _locator_ref_by_id := ∅;
     _subagent_id_by_tool_call := []; _agent_parent_event_ids := []; emitted := [] |}.

Inductive step :=
  | Discover (l : listing)
  | Ensure (v : view) (sid : pystr) (mark_all_emitted : bool)
  | Emit (v : view) (sid : pystr)
  | Page (v : view) (pairs : list place).

Definition do_step (w : watcher) (s : step) : watcher :=
  match s with
  | Discover l => _discover_sessions l w
  | Ensure v sid mark => (_ensure_cache_current json_str v sid mark w).2
  | Emit v sid => (emit_pending json_str v sid w).2
  | Page v pairs => (_resolve_bodies_locked json_str v pairs w).2
  end.
Definition run (t : list step) (w : watcher) : watcher := foldl do_step w t.

Lemma dget_snoc {V} k k' (v : V) d :
  dget k (d ++ [(k', v)]) = match dget k d with Some x => Some x | None => if decide (k = k') then Some v else None end.
Proof.
  induction d as [|[k0 v0] d IH]; simpl.
  - case_bool_decide; case_decide; congruence.
  - case_bool_decide; [done|apply IH].
Qed.

Lemma state_of_add sid path w s :
  state_of (add_state sid path w) s
  = match state_of w s with Some st => Some st | None => if decide (s = sid) then Some (new_file_state sid path) else None end.
Proof. unfold state_of, add_state. simpl. apply dget_snoc. Qed.

Lemma wf_add sid path w : state_of w sid = None → wf w → wf (add_state sid path w).
Proof.
  intros Hn Hw. pose proof Hw as [H1 H2 H3 H4 H5 H6 H7 H8 H9].
  assert (∀ s st, state_of (add_state sid path w) s = Some st →
    state_of w s = Some st ∨ s = sid ∧ st = new_file_state sid path) as Hs.
  { intros s st. rewrite state_of_add. destruct (state_of w s); [intros [= ->]; by left|].
    case_decide; [|done]. intros [= <-]. by right. }
  assert (∀ s st, state_of w s = Some st → state_of (add_state sid path w) s = Some st) as Hold.
  { intros s st E. by rewrite state_of_add, E. }
  split.
  - unfold add_state. simpl. rewrite map_app. apply NoDup_app. split_and!; [done| |apply NoDup_singleton].
    intros k Hk ->%list_elem_of_singleton. unfold state_of in Hn. apply dget_None in Hn. done.
  - intros s st [E|[-> ->]]%Hs; [by apply H2|done].
  - split; [apply H3|]. intros s Hin. destruct H3 as [_ H3]. destruct (H3 s Hin) as [st E]. exists st. by apply Hold.
  - intros id s i Hr. destruct (H4 id s i Hr) as (st & loc & E & ? & ?). exists st, loc. split; [by apply Hold|done].
  - intros s st [E|[-> ->]]%Hs; [by apply (H5 s)|]. split; [constructor|]. by intros id ?%elem_of_nil.
  - intros s1 s2 st1 st2 id Hne [E1|[-> ->]]%Hs [E2|[-> ->]]%Hs; try by intros ?%elem_of_nil.
    + by apply (H6 s1 s2).
    + by intros _ ?%elem_of_nil.
  - exact H7.
  - intros s st [E|[-> ->]]%Hs; [by apply (H8 s)|]. done.
  - intros s st i loc [E|[-> ->]]%Hs; [by apply (H9 s)|done].
Qed.

Lemma wf_add_main sid w : sid ∉ _main_session_ids w → is_Some (state_of w sid) → wf w →
  wf (with_main (λ m, m ++ [sid]) w).
Proof.
  intros Hn Hs [H1 H2 H3 H4 H5 H6 H7 H8 H9]. split; try done. split; simpl.
  - apply NoDup_app. split_and!; [apply H3| |apply NoDup_singleton]. by intros s Hin ->%list_elem_of_singleton.
  - intros s [Hin| ->%list_elem_of_singleton]%elem_of_app; [by apply H3|done].
Qed.

(** Discovery only adds sessions. *)
Definition adds (w w' : watcher) : Prop :=
  emitted w' = emitted w
  ∧ (∀ s st, state_of w s = Some st → state_of w' s = Some st)
  ∧ (∀ s st, state_of w s = None → state_of w' s = Some st → emitted_count st = 0)
  ∧ (wf w → wf w').
#[local] Instance adds_preorder : PreOrder adds.
Proof.
  split; [intros w; split_and!; [done|done| |done]; intros; congruence|].
  intros w1 w2 w3 (A1 & A2 & A3 & A4) (B1 & B2 & B3 & B4). split_and!; [congruence|auto| |auto].
  intros s st E1 E3. destruct (state_of w2 s) as [st2|] eqn:E2; [|by apply (B3 s)].
  rewrite (B2 s st2 E2) in E3. injection E3 as ->. by apply (A3 s).
Qed.

Lemma adds_add sid path w : state_of w sid = None → adds w (add_state sid path w).
Proof.
  intros Hn. split_and!; [done| | |by apply wf_add].
  - intros s st E. by rewrite state_of_add, E.
  - intros s st E. rewrite state_of_add, E. case_decide; [|done]. by intros [= <-].
Qed.

Lemma adds_main sid path w : state_of w sid = None → adds w (with_main (λ m, m ++ [sid]) (add_state sid path w)).
Proof.
  intros Hn. destruct (adds_add sid path w Hn) as (H1 & H2 & H3 & H4). split_and!; [done..|].
  intros Hw. apply wf_add_main; [| |by apply H4].
  - intros Hin. destruct (proj2 (wf_main w Hw) sid Hin). congruence.
  - rewrite state_of_add, Hn, decide_True by done. by eexists.
Qed.

Lemma adds_foldl {A} (f : watcher → A → watcher) l : (∀ w a, adds w (f w a)) → ∀ w, adds w (foldl f w l).
Proof. intros Hf. induction l as [|a l IH]; intros w; simpl; [done|]. etrans; [apply Hf|apply IH]. Qed.

Lemma adds_discover l w : adds w (_discover_sessions l w).
Proof.
  unfold _discover_sessions. etrans; [|apply adds_foldl].
  - unfold _discover_main_sessions_from_history. destruct (history l); [|done]. apply adds_foldl. intros w' line.
    unfold discover_line. destruct (first_word line) as [sid|]; [|done].
    destruct (state_of w' sid) eqn:E; [done|]. case_match; [by apply adds_main|done].
  - intros w' st. unfold _discover_subagent_sessions. apply adds_foldl. intros w2 [sid path]. simpl.
    destruct (state_of w2 sid) eqn:E; [done|]. by apply adds_add.
Qed.

Lemma wf_new capacity : wf (new_watcher capacity).
Proof.
  split; simpl; try done.
  - constructor.
  - split; [constructor|]. by intros s ?%elem_of_nil.
  - by intros k e ?%elem_of_nil.
Qed.

Lemma wf_step w s : wf w → wf (do_step w s).
Proof.
  intros Hw. destruct s as [l|v sid mark|v sid|v pairs]; simpl.
  - by apply adds_discover.
  - by apply wf_ensure.
  - by apply wf_emit.
  - eapply keeps_index_wf; [apply keeps_resolve|done].
Qed.

Lemma wf_run t w : wf w → wf (run t w).
Proof. revert w. induction t as [|s t IH]; intros w Hw; simpl; [done|]. by apply IH, wf_step. Qed.

(** *** Pages *)
Lemma selected_states sel w : wf w →
  let states := _ordered_selected_states_locked sel w in
  NoDup (map session_id states) ∧ ∀ st, st ∈ states → state_of w (session_id st) = Some st.
Proof.
  intros Hw. destruct sel as [sid|]; simpl.
  - destruct (state_of w sid) as [st|] eqn:E; [|split; [constructor|by intros st ?%elem_of_nil]].
    split; [apply NoDup_singleton|]. intros st' ->%list_elem_of_singleton. by rewrite (wf_session w Hw sid st E).
  - destruct (wf_main w Hw) as [Hn Hm]. revert Hn Hm. generalize (_main_session_ids w) as l.
    induction l as [|sid l IH]; intros Hn Hm; simpl; [split; [constructor|by intros st ?%elem_of_nil]|].
    apply NoDup_cons in Hn as [Hs Hn]. destruct IH as [H1 H2]; [done|intros; apply Hm; by right|].
    destruct (Hm sid) as [st E]; [left|]. rewrite E. simpl. split.
    + constructor; [|done]. rewrite (wf_session w Hw sid st E). intros Hin.
      apply list_elem_of_fmap in Hin as (st' & Es & Hin). apply list_elem_of_omap in Hin as (sid' & Hin & E').
      rewrite (wf_session w Hw sid' st' E') in Es. by subst.
    + intros st' [->|Hin]%elem_of_cons; [by rewrite (wf_session w Hw sid st E)|by apply H2].
Qed.

Lemma tail_slice states limit :
  _collect_tail_locked states limit = drop (length (timeline states) - limit) (timeline states).
Proof. unfold _collect_tail_locked. rewrite collect_tail_spec. by rewrite app_nil_r. Qed.
Lemma at_offset_slice states offset limit : 0 < limit →
  _collect_at_offset_locked states offset limit = take limit (drop offset (timeline states)).
Proof. intros Hl. unfold _collect_at_offset_locked. by rewrite collect_at_offset_spec. Qed.
(** An event that has an offset is at that index, between its two pages. *)
Lemma cursor_slices w sel id limit k : wf w → 0 < limit →
  let states := _ordered_selected_states_locked sel w in
  let tl := timeline states in
  event_offset w states id = Z.of_nat k →
  (∃ st loc, tl !! k = Some (st, loc) ∧ event_id loc = id)
  ∧ _collect_before_locked w states id limit = drop (k - limit) (take k tl)
  ∧ _collect_after_locked w states id limit = take limit (drop (S k) tl).
Proof.
  intros Hw Hl states tl. destruct (selected_states sel w Hw) as [Hn Hst]. fold states in Hn, Hst.
  unfold event_offset, _collect_before_locked, _collect_after_locked.
  destruct (_locator_ref_by_id w !! id) as [[sid i]|] eqn:Er; [|lia]. cbn [fst snd].
  destruct (index_of sid states) as [p|] eqn:Ep; [|lia].
  destruct (index_of_split sid states p Ep) as (a & st & b & Es & <- & Esid & Ha).
  destruct (wf_refs w Hw id sid i Er) as (st' & loc & Est & Eloc & Eid).
  assert (st' = st) as -> by (specialize (Hst st); rewrite Es, Esid, Est in Hst; specialize (Hst ltac:(set_solver)); congruence).
  assert (i < length (locators st)) as Hi by (by eapply lookup_lt_Some).
  rewrite Es, take_app_length, <- length_timeline. intros Ek.
  assert (k = length (timeline a) + i) as -> by lia. unfold tl. rewrite Es. split_and!.
  - exists st, loc. split; [by apply lookup_timeline|done].
  - apply (before_spec (sid, i)); simpl; [done..|lia].
  - apply (after_spec (sid, i)); simpl; [done| |done].
    intros st' Hin Heq. rewrite Es, map_app in Hn. simpl in Hn.
    apply NoDup_app in Hn as (_ & _ & Hn). apply NoDup_cons in Hn as [Hn _]. apply Hn.
    rewrite Esid, <- Heq. by apply list_elem_of_fmap_2.
Qed.

(** C37: every page is a slice of one timeline.  At any point of any run, the
    tail and the page at an offset are the corresponding slices of the selected
    files' locators in order; an event's offset is its index there, and the
    pages before and after it are the slices next to it. *)
Theorem pages_are_slices capacity t sel id limit :
  let w := run t (new_watcher capacity) in
  let states := _ordered_selected_states_locked sel w in
  let tl := timeline states in
  0 < limit →
  _collect_tail_locked states limit = drop (length tl - limit) tl
  ∧ (∀ offset, _collect_at_offset_locked states offset limit = take limit (drop offset tl))
  ∧ (∀ k, event_offset w states id = Z.of_nat k →
       (∃ st loc, tl !! k = Some (st, loc) ∧ event_id loc = id)
       ∧ _collect_before_locked w states id limit = drop (k - limit) (take k tl)
       ∧ _collect_after_locked w states id limit = take limit (drop (S k) tl)).
Proof.
  intros w states tl Hl. split; [apply tail_slice|]. split; [intros offset; by apply at_offset_slice|].
  intros k. by apply cursor_slices; [apply wf_run, wf_new|].
Qed.

(** *** Emission *)

(** The ids of the events handed over for a session, in order. *)
Definition emitted_ids (w : watcher) (sid : pystr) : list pystr :=
  flat_map (λ b : pystr * list EventLocator * list dict,
    if decide (b.1.1 = sid) then map (event_str "event_id") b.2 else []) (emitted w).

(** The file of the step has not shrunk below what was consumed. *)
Definition no_shrink (w : watcher) (s : step) : Prop :=
  match s with
  | Ensure v sid _ => ∀ st size mtime, state_of w sid = Some st → stat v (file_path st) = Some (size, mtime) →
      byte_offset_consumed st <= size
  | _ => True
  end.
Fixpoint append_only (w : watcher) (t : list step) : Prop :=
  match t with
  | [] => True
  | s :: t' => no_shrink w s ∧ append_only (do_step w s) t'
  end.

(** Nothing is emitted, no session is added or lost, and what was emitted of a
    session stays at the front of its locators. *)
Definition advances (w w' : watcher) : Prop :=
  emitted w' = emitted w
  ∧ ∀ s, match state_of w s, state_of w' s with
         | Some st, Some st' => locators st `prefix_of` locators st' ∧ emitted_count st <= emitted_count st'
         | None, None => True
         | _, _ => False
         end.
#[local] Instance advances_preorder : PreOrder advances.
Proof.
  split.
  - intros w. split; [done|]. intros s. by destruct (state_of w s).
  - intros w1 w2 w3 [E1 A1] [E2 A2]. split; [congruence|]. intros s. specialize (A1 s). specialize (A2 s).
    destruct (state_of w1 s), (state_of w2 s), (state_of w3 s); try done.
    destruct A1, A2. split; [by etrans|lia].
Qed.

Lemma advances_update sid f w :
  (∀ st, state_of w sid = Some st → locators st `prefix_of` locators (f st) ∧ emitted_count st <= emitted_count (f st)) →
  advances w (update_state sid f w).
Proof.
  intros Hf. split; [done|]. intros s. rewrite state_of_update. case_decide; [subst|by destruct (state_of w s)].
  destruct (state_of w sid) as [st|]; [|done]. by apply Hf.
Qed.

Lemma advances_same w w' : emitted w' = emitted w → _session_states w' = _session_states w → advances w w'.
Proof. intros E1 E2. split; [done|]. intros s. unfold state_of. rewrite E2. by destruct (dget s _). Qed.

Lemma advances_line sid mark span : stepwise advances (index_line json_str sid mark span).
Proof.
  destruct span as [[off len] line]. unfold index_line. destruct (decode line); [|apply stepwise_ret; apply _].
  apply stepwise_bind; [apply _| |].
  - intros w. unfold parse. destruct (parse_session_lines _ _ _ _) as [r ps]. by apply advances_same.
  - intros evs. apply stepwise_for; [apply _|]. intros e w.
    etrans; [apply (advances_update sid (λ st, set_locators (locators st ++ [locator_of off len e]) st))|by apply advances_same].
    intros st _. split; [by eexists|done].
Qed.

Lemma advances_ensure v sid mark w : wf w → no_shrink w (Ensure v sid mark) →
  advances w (_ensure_cache_current json_str v sid mark w).2.
Proof.
  intros Hw Hg. unfold _ensure_cache_current, gets. unfold mbind at 1, M_bind at 1.
  destruct (state_of w sid) as [st|] eqn:Est; [|done].
  destruct (stat v (file_path st)) as [[size mtime]|] eqn:Es; [|done].
  rewrite (proj2 (Nat.ltb_ge size _)) by (by eapply Hg). unfold mbind, M_bind. cbn [when].
  cbv beta iota delta [mret M_ret]. unfold read_new, gets. unfold mbind at 1, M_bind at 1. rewrite Est.
  assert (∀ w', wf w' → advances w' (when_marked mark sid w').2) as Hm.
  { intros w' Hw'. unfold when_marked. destruct mark; [|done]. apply advances_update.
    intros st' E. split; [done|]. by apply (wf_emitted w' Hw' sid). }
  case_match; [by apply Hm|]. destruct (read v (file_path st)) as [data|]; [|done]. cbv zeta.
  case_match; [by apply Hm|]. unfold mbind, M_bind.
  match goal with |- context [for_each ?l ?f w] =>
    pose proof (stepwise_for advances l f (λ a, advances_line sid mark a) w) as Hf;
    pose proof (stepwise_for (keeps_session sid) l f (λ a, wf_index_line json_str sid mark a) w ltac:(by eexists)) as [_ Hw1];
    destruct (for_each l f w) as [[[]|x] w1] end; [|exact Hf].
  specialize (Hw1 Hw). cbn [snd] in *. etrans; [exact Hf|]. etrans; [|by apply Hm, wf_set_consumed].
  by apply advances_update.
Qed.

Lemma resolve_body_id v st loc w b w' :
  (∀ k e, (k, e) ∈ _body_cache w → event_str "event_id" e = k) →
  resolve_body json_str v st loc w = (Ret (Some b), w') → event_str "event_id" b = event_id loc.
Proof.
  intros Hc. unfold resolve_body, gets. unfold mbind at 1, M_bind at 1.
  destruct (dget (event_id loc) (_body_cache w)) as [b0|] eqn:Eb.
  - unfold mbind, M_bind. simpl. intros [= -> _]. by apply Hc, dget_elem.
  - pose proof (stepwise_bind keeps_index (_reparse_line_locked json_str v st loc)
      (λ events, for_each events (λ e, modify (_cache_put_locked e)))) as Hk.
    unfold mbind, M_bind in *.
    assert (keeps_index w (let (o, s') := _reparse_line_locked json_str v st loc w in
      match o with Ret a => for_each a (λ e, modify (_cache_put_locked e)) s' | Raise e => (Raise e, s') end).2) as Hi.
    { apply Hk.
      - intros w1. unfold _reparse_line_locked. destruct (read v (file_path st)); [|done].
        destruct (decode _); [|done]. unfold parse. by destruct (parse_session_lines _ _ _ _).
      - intros evs. apply stepwise_for; [apply _|]. intros e w1. split_and!; try done. apply cache_put_ok. }
    clear Hk. destruct (_reparse_line_locked json_str v st loc w) as [[evs|x] w1]; [|done].
    destruct (for_each evs _ w1) as [[[]|x] w2]; [|done]. cbn [snd] in Hi. intros [= E _].
    destruct Hi as (_ & _ & _ & _ & _ & _ & Hi). by apply (Hi Hc), dget_elem.
Qed.

(** What a resolution returns are bodies of the locators asked for, in order. *)
Lemma resolve_ids v pairs : ∀ w evs w',
  (∀ k e, (k, e) ∈ _body_cache w → event_str "event_id" e = k) →
  _resolve_bodies_locked json_str v pairs w = (Ret evs, w') →
  map (event_str "event_id") evs `sublist_of` map (λ p : place, event_id p.2) pairs.
Proof.
  induction pairs as [|[st loc] pairs IH]; intros w evs w' Hc; cbn [_resolve_bodies_locked map].
  - intros [= <- _]. constructor.
  - unfold mbind, M_bind. pose proof (keeps_resolve_body json_str v st loc w) as Hk.
    pose proof (resolve_body_id v st loc w) as Hb.
    destruct (resolve_body json_str v st loc w) as [[body|x] w1]; [|done]. cbn [snd] in Hk.
    destruct Hk as (_ & _ & _ & _ & _ & _ & Hc1).
    destruct (_resolve_bodies_locked json_str v pairs w1) as [[evs'|x] w2] eqn:E; [|done].
    intros [= <- _]. specialize (IH w1 evs' w2 (Hc1 Hc) E).
    destruct body as [b|]; cbn [map snd]; [|by apply sublist_cons].
    rewrite (Hb b w1 Hc eq_refl). by apply sublist_skip.
Qed.

(** Everything emitted of a session is in order among its emitted locators. *)
Definition emits_in_order (w : watcher) : Prop :=
  ∀ sid, match state_of w sid with
         | Some st => emitted_ids w sid `sublist_of` take (emitted_count st) (ids_of st)
         | None => emitted_ids w sid = []
         end.

Lemma advances_in_order w w' : advances w w' → emits_in_order w → emits_in_order w'.
Proof.
  intros [E A] Hin sid. specialize (A sid). specialize (Hin sid). unfold emitted_ids in *. rewrite E.
  destruct (state_of w sid) as [st|], (state_of w' sid) as [st'|]; try done. destruct A as [[more El] Hle].
  etrans; [exact Hin|]. unfold ids_of. rewrite El, map_app, take_app.
  apply sublist_inserts_r. replace (emitted_count st) with (Nat.min (emitted_count st) (emitted_count st')) by lia.
  rewrite <- take_take. apply sublist_take.
Qed.

Lemma emitted_ids_keep w w' sid : keeps_index w w' → emitted_ids w' sid = emitted_ids w sid.
Proof. intros (_ & _ & _ & _ & E & _). unfold emitted_ids. by rewrite E. Qed.

Lemma keeps_index_state w w' sid : keeps_index w w' → state_of w' sid = state_of w sid.
Proof. intros (E & _). unfold state_of. by rewrite E. Qed.

Lemma mark_in_order sid w : emits_in_order w → wf w → emits_in_order (update_state sid mark_emitted w).
Proof.
  intros Hin Hw. refine (advances_in_order w _ _ Hin). apply advances_update.
  intros st E. split; [done|]. by apply (wf_emitted w Hw sid).
Qed.

Lemma emit_in_order v sid w : wf w → emits_in_order w → emits_in_order (emit_pending json_str v sid w).2.
Proof.
  intros Hw Hin. unfold emit_pending, gets. unfold mbind at 1, M_bind at 1.
  destruct (state_of w sid) as [st|] eqn:Est; [|done]. unfold mbind, M_bind. cbn [modify].
  set (w1 := update_state sid mark_emitted w).
  pose proof (wf_mark sid w Hw) as Hw1. fold w1 in Hw1.
  pose proof (mark_in_order sid w Hin Hw) as Hin1. fold w1 in Hin1.
  pose proof (keeps_resolve json_str v (map (pair st) (drop (emitted_count st) (locators st))) w1) as Hk.
  pose proof (resolve_ids v (map (pair st) (drop (emitted_count st) (locators st))) w1) as Hids.
  destruct (_resolve_bodies_locked _ _ _ w1) as [r w2]. cbn [snd] in Hk.
  assert (emits_in_order w2) as Hin2.
  { intros s. rewrite (keeps_index_state w1 w2) by done. rewrite (emitted_ids_keep w1 w2) by done. apply Hin1. }
  destruct r as [evs|x]; [|exact Hin2]. unfold when. case_match; [|exact Hin2]. cbn [snd modify].
  intros s. specialize (Hin2 s). change (state_of (on_events _ _ _ w2) s) with (state_of w2 s).
  unfold emitted_ids in *. simpl. rewrite flat_map_app. simpl. rewrite app_nil_r.
  case_decide as Es; [subst s|by rewrite app_nil_r].
  specialize (Hids evs w2 (wf_cache w1 Hw1) eq_refl). rewrite map_map in Hids. cbn [snd] in Hids.
  pose proof (keeps_index_state w1 w2 sid Hk) as E2. unfold w1 in E2.
  rewrite state_of_update, decide_True, Est in E2 by done. simpl in E2. rewrite E2.
  cbn [emitted_count mark_emitted set_emitted locators ids_of].
  rewrite (emitted_ids_keep w1 w2 sid Hk : flat_map _ _ = _). specialize (Hin sid). rewrite Est in Hin.
  rewrite take_ge by (unfold ids_of; by rewrite length_map).
  rewrite <- (take_drop (emitted_count st) (ids_of _)). apply sublist_app; [exact Hin|].
  unfold ids_of at 1. simpl. rewrite <- map_drop. exact Hids.
Qed.

Lemma in_order_step w s : wf w → no_shrink w s → emits_in_order w → emits_in_order (do_step w s).
Proof.
  intros Hw Hg Hin. destruct s as [l|v sid mark|v sid|v pairs]; simpl.
  - destruct (adds_discover l w) as (E & A1 & A2 & _). intros sid. specialize (Hin sid).
    unfold emitted_ids in *. rewrite E. destruct (state_of w sid) as [st|] eqn:Es.
    + by rewrite (A1 sid st Es).
    + rewrite Hin. destruct (state_of (_discover_sessions l w) sid); [apply sublist_nil_l|done].
  - by apply (advances_in_order w), Hin; apply advances_ensure.
  - by apply emit_in_order.
  - pose proof (keeps_resolve json_str v pairs w) as Hk. intros sid.
    rewrite (keeps_index_state w) by done. rewrite (emitted_ids_keep w) by done. apply Hin.
Qed.

(** No event reaches [on_events] twice or out of order: in any run over
    files that only grow, whichever threads brought the index up to date, what
    was emitted of a session is in the order of its locators, among those
    already marked emitted, and no id stands there twice. *)
Theorem emitted_at_most_once capacity t sid st :
  let w := run t (new_watcher capacity) in
  append_only (new_watcher capacity) t → state_of w sid = Some st →
  emitted_ids w sid `sublist_of` take (emitted_count st) (ids_of st) ∧ NoDup (emitted_ids w sid).
Proof.
  intros w Ht Hst.
  assert (∀ t w0, wf w0 → emits_in_order w0 → append_only w0 t → emits_in_order (run t w0)) as Hgo.
  { clear. induction t as [|s t IH]; intros w0 Hw Hin Ht; [done|]. destruct Ht as [Hg Ht].
    apply (IH (do_step w0 s)); [by apply wf_step|by apply in_order_step|done]. }
  pose proof (Hgo t _ (wf_new capacity) (λ sid, eq_refl) Ht sid) as Hin. fold w in Hin. rewrite Hst in Hin.
  split; [done|]. eapply sublist_NoDup; [|exact Hin]. eapply sublist_NoDup; [|apply sublist_take].
  by apply (wf_ids w (wf_run t _ (wf_new capacity)) sid st).
Qed.

Lemma dget_ddel k k' (c : list (pystr * dict)) : dget k (ddel k' c) = if decide (k = k') then None else dget k c.
Proof. case_decide; [subst; apply dget_ddel_eq|by apply dget_ddel_ne]. Qed.

Lemma dget_move k k' c : dget k (move_to_end k' c) = dget k c.
Proof.
  unfold move_to_end. destruct (dget k' c) as [e|] eqn:E; [|done].
  rewrite dget_snoc, dget_ddel. case_decide; [by subst|]. by destruct (dget k c).
Qed.

Lemma resolve_resident v pairs : ∀ w,
  (∀ p, p ∈ pairs → is_Some (dget (event_id p.2) (_body_cache w))) →
  ∃ evs w', _resolve_bodies_locked json_str v pairs w = (Ret evs, w') ∧ length evs = length pairs
    ∧ keeps_index w w'.
Proof.
  induction pairs as [|[st loc] pairs IH]; intros w Hr; cbn [_resolve_bodies_locked].
  { by exists [], w. }
  destruct (Hr (st, loc)) as [b Eb]; [left|]. cbn [snd] in Eb.
  assert (resolve_body json_str v st loc w = (Ret (Some b), with_cache (move_to_end (event_id loc)) w)) as E.
  { unfold resolve_body, gets. unfold mbind at 1, M_bind at 1. by rewrite Eb. }
  destruct (IH (with_cache (move_to_end (event_id loc)) w)) as (evs & w' & E' & El & Hk).
  { intros p Hp. simpl. rewrite dget_move. apply Hr. by right. }
  exists (b :: evs), w'. unfold mbind, M_bind. rewrite E, E'. split_and!; [done|simpl; lia|].
  etrans; [|exact Hk]. pose proof (keeps_resolve_body json_str v st loc w) as Hk'. by rewrite E in Hk'.
Qed.

Lemma sublist_full {A} (l1 l2 : list A) : l1 `sublist_of` l2 → length l1 = length l2 → l1 = l2.
Proof.
  induction 1 as [|x l1 l2 Hs IH|x l1 l2 Hs IH]; simpl; intros E; [done|f_equal; auto|].
  apply sublist_length in Hs. lia.
Qed.

(** At any point of any run, emitting a session whose pending bodies are in
    the cache hands over exactly the pending events, in order, and leaves none
    pending. *)
Theorem emit_delivers_pending capacity t v sid st :
  let w := run t (new_watcher capacity) in
  let pending := drop (emitted_count st) (locators st) in
  state_of w sid = Some st →
  (∀ loc, loc ∈ pending → is_Some (dget (event_id loc) (_body_cache w))) →
  ∃ w', emit_pending json_str v sid w = (Ret tt, w')
    ∧ emitted_ids w' sid = emitted_ids w sid ++ map event_id pending
    ∧ state_of w' sid = Some (mark_emitted st).
Proof.
  intros w pending Hst Hres. pose proof (wf_run t _ (wf_new capacity)) as Hw. fold w in Hw.
  destruct (resolve_resident v (map (pair st) pending) (update_state sid mark_emitted w)) as (evs & w1 & E & El & Hk).
  { intros p (loc & -> & Hin)%list_elem_of_fmap. by apply Hres. }
  assert (map (event_str "event_id") evs = map event_id pending) as Hids.
  { pose proof (resolve_ids v _ (update_state sid mark_emitted w) _ _ (wf_cache _ (wf_mark sid w Hw)) E) as Hs.
    rewrite map_map in Hs. cbn [snd] in Hs. apply sublist_full; [exact Hs|].
    rewrite !length_map in *. lia. }
  assert (state_of w1 sid = Some (mark_emitted st)) as Hst1
    by (rewrite (keeps_index_state _ w1 sid Hk), state_of_update, decide_True, Hst by done; done).
  unfold emit_pending, gets. unfold mbind at 1, M_bind at 1. rewrite Hst. unfold mbind, M_bind. cbn [modify].
  fold pending. rewrite E. unfold when.
  destruct (decide (evs = [])) as [->|Hne].
  - rewrite bool_decide_eq_true_2 by done. eexists. split; [done|]. rewrite <- Hids, app_nil_r.
    split; [by rewrite (emitted_ids_keep _ _ _ Hk)|done].
  - rewrite bool_decide_eq_false_2 by done. eexists. split; [done|].
    split; [|done]. unfold emitted_ids at 1. simpl. rewrite flat_map_app. simpl.
    rewrite decide_True, app_nil_r, Hids by done. by rewrite (emitted_ids_keep _ _ _ Hk : flat_map _ _ = _).
Qed.
End runs.

(** ** Concrete runs: a session file written line by line *)
Module WatcherDemo.
Import TranscriptDemo.
Definition js (v : json) : pystr := [].
Definition user_line (uuid text : pystr) : pystr :=
  bq "{`type`:`user`,`timestamp`:`1`,`uuid`:`" ++ uuid ++ bq "`,`message`:{`content`:`" ++ text ++ bq "`}}" ++ [newline].
Definition sees_data (data : bytes) (mtime : Q) : view :=
  {| stat p := Some (length data, mtime); read p := Some data |}.
Definition files : listing :=
  {| history := Some (u "s"); find_session_file n sid := Some (u "p"); subagent_files st := [] |}.
Definition line1 : bytes := user_line "u1" "hi".
Definition line2 : bytes := user_line "u2" "ho".
Definition w0 : watcher := run js [Discover files] (new_watcher 10).
Definition v1 : view := sees_data (line1 ++ take 5 line2) 1%Q.
Definition v2 : view := sees_data ((line1 ++ take 5 line2) ++ drop 5 line2) 2%Q.
Definition ensure (v : view) (w : watcher) : watcher := (_ensure_cache_current js v "s" false w).2.
Definition history : list step :=
  [Discover files; Ensure v1 "s" false; Emit v1 "s"; Ensure v2 "s" false; Emit v2 "s"; Emit v2 "s"].
Definition indexed (w : watcher) : list pystr := match state_of w "s" with Some st => ids_of st | None => [] end.
End WatcherDemo.
Import TranscriptDemo.
Import WatcherDemo.

Lemma tailing_witness :
  ∃ w', _ensure_cache_current js v2 "s" false w0 = (Ret tt, w')
    ∧ forget_mtime "s" w' = forget_mtime "s" (ensure v2 (ensure v1 w0)).
Proof.
  apply (tailing_is_reading_once js "s" v1 v2 w0 (new_file_state "s" "p") (line1 ++ take 5 line2) (drop 5 line2)
    1%Q 2%Q (ensure v1 w0) (ensure v2 (ensure v1 w0))).
  - vm_compute; reflexivity.
  - apply Nat.le_0_l.
  - split; reflexivity.
  - split; reflexivity.
  - right. exists (take (length line1 - 1) line1). vm_compute; reflexivity.
  - vm_compute; reflexivity.
  - vm_compute; reflexivity.
Defined.

Lemma pages_witness :
  map (λ p : place, event_id p.2)
    (_collect_before_locked (run js WatcherDemo.history (new_watcher 10))
       (_ordered_selected_states_locked None (run js WatcherDemo.history (new_watcher 10))) "u2-user" 5)
  = [u "u1-user"].
Proof.
  destruct (pages_are_slices js 10 WatcherDemo.history None "u2-user" 5) as (_ & _ & Hk); [lia|].
  destruct (Hk 1 ltac:(vm_compute; reflexivity)) as (_ & -> & _). vm_compute. reflexivity.
Defined.

Lemma emitted_witness :
  NoDup (emitted_ids (run js WatcherDemo.history (new_watcher 10)) "s")
  ∧ emitted_ids (run js WatcherDemo.history (new_watcher 10)) "s" = [u "u1-user"; u "u2-user"].
Proof.
  split; [|vm_compute; reflexivity].
  eapply (emitted_at_most_once js 10 WatcherDemo.history "s"); [|vm_compute; reflexivity].
  repeat split; intros st size mtime Hst Hs; vm_compute in Hst; injection Hst as <-;
    vm_compute in Hs; injection Hs as <- <-; vm_compute; lia.
Defined.

Lemma emit_delivers_witness :
  ∃ w', emit_pending js v2 "s" (run js [Discover files; Ensure v2 "s" false] (new_watcher 10)) = (Ret tt, w')
    ∧ emitted_ids w' "s" = [u "u1-user"; u "u2-user"].
Proof.
  destruct (emit_delivers_pending js 10 [Discover files; Ensure v2 "s" false] v2 "s"
    (default (new_file_state [] []) (state_of (run js [Discover files; Ensure v2 "s" false] (new_watcher 10)) "s")))
    as (w' & E & Ei & _).
  - vm_compute. reflexivity.
  - intros loc Hl.
    assert (Forall (λ loc, is_Some (dget (event_id loc)
      (_body_cache (run js [Discover files; Ensure v2 "s" false] (new_watcher 10)))))
      (drop 0 (default [] (locators <$> state_of (run js [Discover files; Ensure v2 "s" false] (new_watcher 10)) "s")))) as F
      by (vm_compute; repeat constructor; eexists; reflexivity).
    rewrite Forall_forall in F. by apply F.
  - exists w'. split; [exact E|]. rewrite Ei. vm_compute. reflexivity.
Defined.

(** ** Deviations *)

(** A message that holds a raw line separator U+2028, which JSON allows in a
    string, is lost: the decoded line is split there again and neither half
    parses.  The offset moves past it all the same. *)
Theorem line_separator_loses_event :
  let lost := user_line "u1" (u "a" ++ [226; 128; 168] ++ u "b")%N in
  let w := ensure (sees_data lost 1%Q) w0 in
  indexed w = [] ∧ option_map byte_offset_consumed (state_of w "s") = Some (length lost)
  ∧ (∃ raw, loads_bytes (bytes_strip lost) = Loaded raw)
  ∧ indexed (ensure (sees_data line1 1%Q) w0) = [u "u1-user"].
Proof. split_and!; try (vm_compute; reflexivity). eexists. vm_compute. reflexivity. Qed.

(** A complete line that is JSON but not an object raises in every read from
    then on: the offset does not move, and the events after it are never
    indexed. *)
Theorem non_object_line_blocks_file :
  let v := sees_data (bq "[1]" ++ [newline] ++ line1) 1%Q in
  ∃ e w, _ensure_cache_current js v "s" false w0 = (Raise e, w)
    ∧ option_map byte_offset_consumed (state_of w "s") = Some 0 ∧ indexed w = []
    ∧ _ensure_cache_current js v "s" false w = (Raise e, w).
Proof. do 2 eexists. split; [vm_compute; reflexivity|]. split_and!; vm_compute; reflexivity. Qed.
