(* ===== verification/ActivityState.v ===== *)
(** * The activity indicator of a chat agent

    [activity_state.py]: the signals read off a transcript and the state derived
    from them; [agent_manager.py], lines 1042-1166: the per-agent cache of those
    signals, its recomputation, its update from a transcript and its reset.

    [epoch s] is [datetime.fromisoformat(s).timestamp()].  The mtime of the
    [claude_process_started] marker, read at every recomputation, is an argument
    of the operation that reads it. *)

From Stdlib Require Import NArith QArith Lia.
From S2P Require Import Prelude PyStr PyJson PyMonad PyKeyed.
From stdpp Require Import options.
#[global] Open Scope nat_scope.
#[local] Open Scope py_scope.

Inductive ActivityState := IDLE | THINKING | TOOL_RUNNING.
#[export] Instance ActivityState_eq_dec : EqDecision ActivityState.
Proof. solve_decision. Defined.

Definition activity_value (s : ActivityState) : pystr :=
  match s with IDLE => u "IDLE" | THINKING => u "THINKING" | TOOL_RUNNING => u "TOOL_RUNNING" end.

(** ** Signals of a transcript *)

Definition add_id (ids : list json) (id : json) : outcome (list json) :=
  if truthy id then id ← hashable id; Ret (ids ++ [id]) else Ret ids.

(** The ids one event adds to [pending] and to [matched]. *)
Definition event_calls (event : dict) : outcome (list json) :=
  calls ← iter_json (jor (jget "tool_calls" event) (JList []));
  foldO (λ ids tool_call, id ← get "tool_call_id" tool_call; add_id ids id) [] calls.
Definition event_result (event : dict) : outcome (list json) := add_id [] (jget "tool_call_id" event).

Definition track_event (sets : list json * list json) (event : dict) : outcome (list json * list json) :=
  let event_type := jget "type" event in
  if jeqs event_type "assistant_message" then
    ids ← event_calls event; Ret (sets.1 ++ ids, sets.2)
  else if jeqs event_type "tool_result" then
    ids ← event_result event; Ret (sets.1, sets.2 ++ ids)
  else Ret sets.

Definition in_keys (k : json) (ks : list json) : bool := existsb (key_eqb k) ks.

Definition has_unmatched_tool_use (events : list dict) : outcome bool :=
  sets ← foldO track_event ([], []) events;
  Ret (existsb (λ k, negb (in_keys k sets.2)) sets.1).

Definition last_event_type (events : list dict) : json :=
  match last events with None => JNull | Some e => jget "type" e end.

Definition last_event_timestamp (events : list dict) : option pystr :=
  match last events with
  | None => None
  | Some e => match jget "timestamp" e with JStr s => if s =? [] then None else Some s | _ => None end
  end.

Definition RUNNING_LIFECYCLE_STATES : list pystr := [u "RUNNING"; u "RUNNING_UNKNOWN_AGENT_TYPE"].

Definition is_transcript_tail_stale (tail_event_at process_started_at : option Q) : bool :=
  match tail_event_at, process_started_at with
  | Some t, Some p => Qltb t p
  | _, _ => false
  end.

Definition derive_activity_state (is_agent_running has_pending_tool_use : bool) (tail_event_type : json)
    (tail_event_at process_started_at : option Q) : ActivityState :=
  if negb is_agent_running then IDLE
  else if is_transcript_tail_stale tail_event_at process_started_at then IDLE
  else if has_pending_tool_use then TOOL_RUNNING
  else if jeqs tail_event_type "user_message" || jeqs tail_event_type "tool_result" then THINKING
  else IDLE.

(** ** The agent manager's cache *)
Record AgentStateItem := {
  id : pystr;
  name : pystr;
  state : pystr;
  labels : list (pystr * pystr);
  work_dir : option pystr;
  activity_state : option pystr;
}.

#[export] Instance AgentStateItem_eq_dec : EqDecision AgentStateItem.
Proof. solve_decision. Defined.

Definition with_activity (s : ActivityState) (a : AgentStateItem) : AgentStateItem :=
  {| id := id a; name := name a; state := state a; labels := labels a; work_dir := work_dir a;
     activity_state := Some (activity_value s) |}.

Record manager := {
  _activity_tracked_agents : gset pystr;
  _has_unmatched_tool_use_by_agent : gmap pystr bool;
  _last_event_type_by_agent : gmap pystr json;
  _last_event_timestamp_by_agent : gmap pystr (option pystr);
  _activity_state_by_agent : gmap pystr ActivityState;
  _agents : gmap pystr AgentStateItem;
  (** every [agents_updated] broadcast, with the agents it carried *)
  agents_updated : list (gmap pystr AgentStateItem);
}.

Section manager.
Context (epoch : pystr → outcome Q).

Definition parse_iso_timestamp_to_epoch (timestamp : option pystr) : outcome (option Q) :=
  match timestamp with
  | None => Ret None
  | Some s =>
      if s =? [] then Ret None
      else match epoch s with
           | Ret q => Ret (Some q)
           | Raise (ValueError _) => Ret None
           | Raise e => Raise e
           end
  end.

(** The state [_recompute_activity_state] derives from the cached signals. *)
Definition cached_state (agent_id : pystr) (process_started_at : option Q) (a : AgentStateItem)
    (m : manager) : outcome ActivityState :=
  tail_event_at ← parse_iso_timestamp_to_epoch (mjoin (_last_event_timestamp_by_agent m !! agent_id));
  Ret (derive_activity_state (state a ∈? RUNNING_LIFECYCLE_STATES)
         (default false (_has_unmatched_tool_use_by_agent m !! agent_id))
         (default JNull (_last_event_type_by_agent m !! agent_id))
         tail_event_at process_started_at).

Definition set_activity (agent_id : pystr) (s : ActivityState) (a : AgentStateItem) (m : manager) : manager :=
  {| _activity_tracked_agents := _activity_tracked_agents m;
     _has_unmatched_tool_use_by_agent := _has_unmatched_tool_use_by_agent m;
     _last_event_type_by_agent := _last_event_type_by_agent m;
     _last_event_timestamp_by_agent := _last_event_timestamp_by_agent m;
     _activity_state_by_agent := <[agent_id := s]> (_activity_state_by_agent m);
     _agents := <[agent_id := with_activity s a]> (_agents m);
     agents_updated := agents_updated m |}.

Definition broadcast_agents_updated (m : manager) : manager :=
  {| _activity_tracked_agents := _activity_tracked_agents m;
     _has_unmatched_tool_use_by_agent := _has_unmatched_tool_use_by_agent m;
     _last_event_type_by_agent := _last_event_type_by_agent m;
     _last_event_timestamp_by_agent := _last_event_timestamp_by_agent m;
     _activity_state_by_agent := _activity_state_by_agent m;
     _agents := _agents m;
     agents_updated := agents_updated m ++ [_agents m] |}.

Definition _recompute_activity_state (agent_id : pystr) (process_started_at : option Q)
    (broadcast_on_change : bool) : M manager unit := λ m,
  if agent_id ∉? _activity_tracked_agents m then (Ret tt, m)
  else match _agents m !! agent_id with
  | None => (Ret tt, m)
  | Some a =>
      match cached_state agent_id process_started_at a m with
      | Raise e => (Raise e, m)
      | Ret new_state =>
          if (_activity_state_by_agent m !! agent_id =? Some new_state)
             && (activity_state a =? Some (activity_value new_state))
          then (Ret tt, m)
          else
            let m' := set_activity agent_id new_state a m in
            (Ret tt, if broadcast_on_change then broadcast_agents_updated m' else m')
      end
  end.

Definition set_signals (agent_id : pystr) (pending : bool) (last_type : json) (last_timestamp : option pystr)
    (m : manager) : manager :=
  {| _activity_tracked_agents := _activity_tracked_agents m;
     _has_unmatched_tool_use_by_agent := <[agent_id := pending]> (_has_unmatched_tool_use_by_agent m);
     _last_event_type_by_agent := <[agent_id := last_type]> (_last_event_type_by_agent m);
     _last_event_timestamp_by_agent := <[agent_id := last_timestamp]> (_last_event_timestamp_by_agent m);
     _activity_state_by_agent := _activity_state_by_agent m;
     _agents := _agents m;
     agents_updated := agents_updated m |}.

Definition update_session_events (agent_id : pystr) (process_started_at : option Q) (events : list dict)
    : M manager unit :=
  new_pending ← lift (has_unmatched_tool_use events);
  let new_last_type := last_event_type events in
  let new_last_timestamp := last_event_timestamp events in
  m ← gets (λ m, m);
  if agent_id ∉? _activity_tracked_agents m then mret tt
  else
    let old_pending := default false (_has_unmatched_tool_use_by_agent m !! agent_id) in
    let old_last_type := default JNull (_last_event_type_by_agent m !! agent_id) in
    if (old_pending =? new_pending) && py_eqb old_last_type new_last_type then mret tt
    else
      modify (set_signals agent_id new_pending new_last_type new_last_timestamp);;
      _recompute_activity_state agent_id process_started_at true.

Definition reset_activity_state (agent_id : pystr) (process_started_at : option Q) : M manager unit :=
  m ← gets (λ m, m);
  if agent_id ∉? _activity_tracked_agents m then mret tt
  else
    modify (set_signals agent_id false JNull None);;
    _recompute_activity_state agent_id process_started_at true.

Definition _ensure_activity_tracking (agent_id : pystr) (state_dir_exists : bool)
    (process_started_at : option Q) : M manager unit :=
  if negb state_dir_exists then mret tt
  else
    modify (λ m,
      {| _activity_tracked_agents := {[agent_id]} ∪ _activity_tracked_agents m;
         _has_unmatched_tool_use_by_agent := _has_unmatched_tool_use_by_agent m;
         _last_event_type_by_agent := _last_event_type_by_agent m;
         _last_event_timestamp_by_agent := _last_event_timestamp_by_agent m;
         _activity_state_by_agent := _activity_state_by_agent m;
         _agents := _agents m;
         agents_updated := agents_updated m |});;
    _recompute_activity_state agent_id process_started_at false.

Definition _stop_activity_tracking (agent_id : pystr) : M manager unit :=
  modify (λ m,
    {| _activity_tracked_agents := _activity_tracked_agents m ∖ {[agent_id]};
       _has_unmatched_tool_use_by_agent := delete agent_id (_has_unmatched_tool_use_by_agent m);
       _last_event_type_by_agent := delete agent_id (_last_event_type_by_agent m);
       _last_event_timestamp_by_agent := delete agent_id (_last_event_timestamp_by_agent m);
       _activity_state_by_agent := delete agent_id (_activity_state_by_agent m);
       _agents := _agents m;
       agents_updated := agents_updated m |}).
End manager.

(** ** Facts *)

Lemma foldO_track events : ∀ s,
  foldO track_event s events
  = (ds ← mapO (track_event ([], [])) events;
     Ret (s.1 ++ concat (map fst ds), s.2 ++ concat (map snd ds))).
Proof.
  induction events as [|e events IH]; intros [p q]; simpl.
  { by rewrite !app_nil_r. }
  assert (track_event (p, q) e = (d ← track_event ([], []) e; Ret (p ++ d.1, q ++ d.2))) as ->.
  { unfold track_event, mbind, outcome_bind.
    destruct (jeqs _ _); [destruct (event_calls e) as [ids|]; simpl; [by rewrite app_nil_r|done]|].
    destruct (jeqs _ _); [destruct (event_result e) as [ids|]; simpl; [by rewrite app_nil_r|done]|].
    simpl. by rewrite !app_nil_r. }
  unfold mbind, outcome_bind. destruct (track_event ([], []) e) as [d|x]; [|done].
  rewrite IH. unfold mbind, outcome_bind. simpl.
  destruct (mapO _ events) as [ds|]; [|done]. simpl. by rewrite !app_assoc.
Qed.

(** [k] is the id of a tool call of an assistant message of [events]; and [k]
    is answered by a tool result of [events]. *)
Definition called (events : list dict) (k : json) : Prop :=
  ∃ e ids, e ∈ events ∧ jeqs (jget "type" e) "assistant_message" = true
    ∧ event_calls e = Ret ids ∧ k ∈ ids.
Definition answered (events : list dict) (k : json) : Prop :=
  ∃ e ids, e ∈ events ∧ jeqs (jget "type" e) "tool_result" = true
    ∧ event_result e = Ret ids ∧ in_keys k ids = true.

Lemma jeqs_two v s t : s ≠ t → jeqs v s = true → jeqs v t = false.
Proof.
  destruct v; simpl; try done. intros Hne ->%bool_decide_eq_true. by apply bool_decide_eq_false.
Qed.

Lemma tracked_calls events ds k :
  mapO (track_event ([], [])) events = Ret ds → k ∈ concat (map fst ds) ↔ called events k.
Proof.
  intros F%mapO_Ret. induction F as [|e d events ds E F IH]; simpl.
  - split; [by intros ?%elem_of_nil | by intros (? & ? & ?%elem_of_nil & _)].
  - rewrite elem_of_app, IH. clear IH F. unfold called. split.
    + intros [Hk|(e' & ids & ? & ?)]; [|exists e', ids; set_solver].
      exists e. unfold track_event, mbind, outcome_bind in E.
      destruct (jeqs _ "assistant_message"); [|destruct (jeqs _ _)].
      * destruct (event_calls e) as [ids|]; inv E. exists ids. set_solver.
      * destruct (event_result e) as [ids|]; inv E. by apply elem_of_nil in Hk.
      * inv E. by apply elem_of_nil in Hk.
    + intros (e' & ids & [->|He]%elem_of_cons & Ht & Ec & Hk); [left | right; by exists e', ids].
      unfold track_event, mbind, outcome_bind in E. rewrite Ht, Ec in E. by inv E.
Qed.

Lemma in_keys_app k a b : in_keys k (a ++ b) = in_keys k a || in_keys k b.
Proof. apply existsb_app. Qed.

Lemma tracked_results events ds k :
  mapO (track_event ([], [])) events = Ret ds → in_keys k (concat (map snd ds)) = true ↔ answered events k.
Proof.
  intros F%mapO_Ret. induction F as [|e d events ds E F IH]; simpl.
  - split; [done | by intros (? & ? & ?%elem_of_nil & _)].
  - rewrite in_keys_app, orb_true_iff, IH. clear IH F. unfold answered. split.
    + intros [Hk|(e' & ids & ? & ?)]; [|exists e', ids; set_solver].
      exists e. unfold track_event, mbind, outcome_bind in E.
      destruct (jeqs _ "assistant_message"); [|destruct (jeqs _ _)].
      * by destruct (event_calls e) as [ids|]; inv E.
      * destruct (event_result e) as [ids|]; inv E. exists ids. set_solver.
      * by inv E.
    + intros (e' & ids & [->|He]%elem_of_cons & Ht & Ec & Hk); [left | right; by exists e', ids].
      unfold track_event, mbind, outcome_bind in E.
      rewrite (jeqs_two _ (u "tool_result") (u "assistant_message")) in E by done.
      rewrite Ht, Ec in E. by inv E.
Qed.

Lemma has_unmatched_run events b :
  has_unmatched_tool_use events = Ret b →
  ∃ ds, mapO (track_event ([], [])) events = Ret ds
    ∧ b = existsb (λ k, negb (in_keys k (concat (map snd ds)))) (concat (map fst ds)).
Proof.
  unfold has_unmatched_tool_use. rewrite foldO_track. unfold mbind, outcome_bind.
  destruct (mapO _ events) as [ds|]; intros E; inv E. by exists ds.
Qed.

(** A tool is pending exactly when some assistant message calls it and no
    tool result of the transcript, wherever it stands, answers it. *)
Theorem unmatched_iff events b :
  has_unmatched_tool_use events = Ret b →
  (b = true ↔ ∃ k, called events k ∧ ¬ answered events k).
Proof.
  intros (ds & E & ->)%has_unmatched_run. rewrite existsb_elem. split.
  - intros (k & Hk & Hn%negb_true_iff). exists k. split; [by apply (tracked_calls _ ds)|].
    intros Ha%(tracked_results _ ds); [|done]. congruence.
  - intros (k & Hk & Hn). exists k. split; [by apply (tracked_calls events ds)|].
    apply negb_true_iff, not_true_iff_false. intros Ha. by apply Hn, (tracked_results _ ds).
Qed.

Section manager_facts.
Context (epoch : pystr → outcome Q).

(** Recomputing the indicator of a tracked agent leaves the cache and the
    agent's entry at the state derived from its signals, touches no other agent,
    and broadcasts the agents when asked and only when something changed. *)
Theorem recompute_spec id p bc a st m :
  id ∈ _activity_tracked_agents m → _agents m !! id = Some a →
  cached_state epoch id p a m = Ret st →
  ∃ m', _recompute_activity_state epoch id p bc m = (Ret tt, m')
    ∧ _activity_state_by_agent m' !! id = Some st
    ∧ _agents m' !! id = Some (with_activity st a)
    ∧ (∀ id', id' ≠ id → _agents m' !! id' = _agents m !! id'
        ∧ _activity_state_by_agent m' !! id' = _activity_state_by_agent m !! id')
    ∧ agents_updated m' = agents_updated m
        ++ (if bc && negb (bool_decide (_agents m' = _agents m
              ∧ _activity_state_by_agent m' = _activity_state_by_agent m)) then [_agents m'] else []).
Proof.
  intros Ht Ha Hst. unfold _recompute_activity_state.
  rewrite bool_decide_eq_true_2 by done. simpl negb. cbv iota. rewrite Ha, Hst.
  destruct ((_activity_state_by_agent m !! id =? Some st)%py && _) eqn:E.
  - py_bool. exists m. split_and!; try done.
    + rewrite Ha. f_equal. destruct a; unfold with_activity; simpl in *; congruence.
    + rewrite (bool_decide_eq_true_2 (_ ∧ _)) by done. rewrite andb_false_r. by rewrite app_nil_r.
  - assert (bool_decide (_agents (set_activity id st a m) = _agents m
      ∧ _activity_state_by_agent (set_activity id st a m) = _activity_state_by_agent m) = false) as Hne.
    { apply bool_decide_eq_false. simpl. intros [E1 E2].
      assert (Some (with_activity st a) = Some a) as Ea by (rewrite <- Ha, <- E1; by rewrite lookup_insert_eq).
      assert (_activity_state_by_agent m !! id = Some st) as Es by (rewrite <- E2; by rewrite lookup_insert_eq).
      injection Ea as Ea. apply andb_false_iff in E as [E|E]; apply bool_decide_eq_false in E; [done|].
      apply E. rewrite <- Ea. done. }
    exists (if bc then broadcast_agents_updated (set_activity id st a m) else set_activity id st a m).
    split; [done|]. destruct bc; simpl; rewrite ?lookup_insert_eq; split_and!; try done.
    1, 3: intros id' Hid'; by rewrite !lookup_insert_ne.
    + simpl in Hne. by rewrite Hne.
    + by rewrite app_nil_r.
Qed.

(** The state the indicator should show for the transcript [events]. *)
Definition transcript_state (events : list dict) (p : option Q) (a : AgentStateItem) : outcome ActivityState :=
  pending ← has_unmatched_tool_use events;
  tail_event_at ← parse_iso_timestamp_to_epoch epoch (last_event_timestamp events);
  Ret (derive_activity_state (state a ∈? RUNNING_LIFECYCLE_STATES)%py pending
         (last_event_type events) tail_event_at p).

(** When a transcript changes the pending flag or the type of its last
    event, updating a tracked agent with it shows the state that transcript
    calls for, whatever was cached before. *)
Theorem update_shows_transcript id p events a st b m :
  id ∈ _activity_tracked_agents m → _agents m !! id = Some a →
  has_unmatched_tool_use events = Ret b →
  (default false (_has_unmatched_tool_use_by_agent m !! id) ≠ b
   ∨ py_eqb (default JNull (_last_event_type_by_agent m !! id)) (last_event_type events) = false) →
  transcript_state events p a = Ret st →
  ∃ m', update_session_events epoch id p events m = (Ret tt, m')
    ∧ _activity_state_by_agent m' !! id = Some st
    ∧ _agents m' !! id = Some (with_activity st a).
Proof.
  intros Ht Ha Hu Hch Hst.
  destruct (recompute_spec id p true a st (set_signals id b (last_event_type events)
    (last_event_timestamp events) m)) as (m' & E & Ea & Eg & _); [done|done| |].
  - rewrite <- Hst. unfold cached_state, transcript_state. rewrite Hu. simpl.
    by rewrite !lookup_insert_eq.
  - exists m'. split; [|done]. unfold update_session_events, lift, gets, mbind, M_bind. rewrite Hu.
    cbv beta iota. rewrite bool_decide_eq_true_2 by done. simpl negb. cbv iota.
    assert ((default false (_has_unmatched_tool_use_by_agent m !! id) =? b)%py
      && py_eqb (default JNull (_last_event_type_by_agent m !! id)) (last_event_type events) = false) as ->.
    { destruct Hch as [Hch|Hch]; [|by rewrite Hch, andb_false_r].
      by rewrite bool_decide_eq_false_2. }
    exact E.
Qed.

(** After a reset, and for an agent that is not running, the indicator is
    at IDLE whatever the transcript ends with. *)
Theorem reset_settles id p a m :
  id ∈ _activity_tracked_agents m → _agents m !! id = Some a →
  ∃ m', reset_activity_state epoch id p m = (Ret tt, m')
    ∧ _activity_state_by_agent m' !! id = Some IDLE
    ∧ _agents m' !! id = Some (with_activity IDLE a).
Proof.
  intros Ht Ha.
  destruct (recompute_spec id p true a IDLE (set_signals id false JNull None m))
    as (m' & E & Ea & Eg & _); [done|done| |].
  - unfold cached_state. simpl. rewrite !lookup_insert_eq. simpl. unfold mbind, outcome_bind.
    f_equal. unfold derive_activity_state. simpl. by destruct (negb _).
  - exists m'. split; [|done]. unfold reset_activity_state, gets, mbind, M_bind.
    cbv beta iota. rewrite bool_decide_eq_true_2 by done. exact E.
Qed.
End manager_facts.

(** ** Concrete runs *)
Module ActivityDemo.
(** Timestamps written in seconds. *)
Definition epoch (s : pystr) : outcome Q :=
  match int_of_str s with Some z => Ret (inject_Z z) | None => Raise (ValueError []) end.
Definition event (ty ts : pystr) : dict := [(u "type", JStr ty); (u "timestamp", JStr ts)].
Definition call (ts id : pystr) : dict :=
  event "assistant_message" ts ++ [(u "tool_calls", JList [JObj [(u "tool_call_id", JStr id)]])].
Definition result (ts id : pystr) : dict := event "tool_result" ts ++ [(u "tool_call_id", JStr id)].
Definition agent : AgentStateItem :=
  {| id := u "a"; name := u "a"; state := u "RUNNING"; labels := []; work_dir := None; activity_state := None |}.
Definition start : manager :=
  {| _activity_tracked_agents := {[u "a"]}; _has_unmatched_tool_use_by_agent := ∅;
     _last_event_type_by_agent := ∅; _last_event_timestamp_by_agent := ∅;
     _activity_state_by_agent := ∅; _agents := {[u "a" := agent]}; agents_updated := [] |}.
Definition shown (m : manager) : option pystr := _agents m !! u "a" ≫= activity_state.
Definition update p events m := (update_session_events epoch "a" p events m).2.
End ActivityDemo.

Lemma unmatched_witness :
  ∃ k, called [ActivityDemo.call "1" "c1"; ActivityDemo.call "2" "c2"; ActivityDemo.result "3" "c1"] k
    ∧ ¬ answered [ActivityDemo.call "1" "c1"; ActivityDemo.call "2" "c2"; ActivityDemo.result "3" "c1"] k.
Proof.
  apply (proj1 (unmatched_iff [ActivityDemo.call "1" "c1"; ActivityDemo.call "2" "c2"; ActivityDemo.result "3" "c1"]
    true ltac:(vm_compute; reflexivity))). reflexivity.
Defined.

Lemma update_shows_witness :
  ∃ m', update_session_events ActivityDemo.epoch "a" (Some 5%Q) [ActivityDemo.call "7" "c1"] ActivityDemo.start
    = (Ret tt, m') ∧ ActivityDemo.shown m' = Some (u "TOOL_RUNNING").
Proof.
  destruct (update_shows_transcript ActivityDemo.epoch "a" (Some 5%Q) [ActivityDemo.call "7" "c1"]
    ActivityDemo.agent TOOL_RUNNING true ActivityDemo.start) as (m' & E & _ & Ha).
  - apply (bool_decide_unpack _); vm_compute; exact I.
  - vm_compute; reflexivity.
  - vm_compute; reflexivity.
  - left. vm_compute. discriminate.
  - vm_compute; reflexivity.
  - exists m'. split; [exact E|]. unfold ActivityDemo.shown. rewrite Ha. reflexivity.
Defined.

(** The prompt of the new turn leaves the indicator at IDLE when the turn before
    the restart also ended with a prompt: neither the pending flag nor the last
    type changes, so the old timestamp, older than the restart, stays cached. *)
Theorem prompt_after_restart_stays_idle :
  let before := [ActivityDemo.event "user_message" "10"] in
  let after := before ++ [ActivityDemo.event "user_message" "30"] in
  let restart := Some 20%Q in
  ActivityDemo.shown (ActivityDemo.update restart after (ActivityDemo.update restart before ActivityDemo.start))
    = Some (u "IDLE")
  ∧ transcript_state ActivityDemo.epoch after restart ActivityDemo.agent = Ret THINKING.
Proof. split; vm_compute; reflexivity. Qed.
