(* ===== verification/EventQueues.v ===== *)
(** * Per-agent event queues

    [event_queues.py] and [events.py].  Every operation that holds the lock is
    one step; the deliveries of a broadcast happen after the lock is released,
    one queue at a time, so they are steps of their own and interleave with
    everything else.  A run is a list of such steps.

    A queue is the sequence of everything put on it: its reader takes from the
    front and nothing else removes. *)

From Stdlib Require Import NArith Lia.
From S2P Require Import Prelude PyStr PyJson PyMonad.
From stdpp Require Import options.
#[global] Open Scope nat_scope.
#[local] Open Scope py_scope.

Inductive BufferBehavior := STORE | IGNORE | FLUSH.

Definition buffer_behavior_of (v : json) : outcome BufferBehavior :=
  if jeqs v "store" then Ret STORE
  else if jeqs v "ignore" then Ret IGNORE
  else if jeqs v "flush" then Ret FLUSH
  else Raise (ValueError (u "not a valid BufferBehavior")).

Abbreviation qid := nat.

Record queues := {
  _queues : gmap pystr (list qid);
  _event_buffers : gmap pystr (list dict);
  _shutdown : bool;
  (** every queue ever created, with what was put on it; the next new one *)
  puts : gmap qid (list (option dict));
  fresh_queue : qid;
  (** broadcasts past their locked section: queues still to deliver to *)
  in_flight : list (list qid * dict);
}.

Definition empty_queues : queues :=
  {| _queues := ∅; _event_buffers := ∅; _shutdown := false; puts := ∅; fresh_queue := 0; in_flight := [] |}.

Definition content (s : queues) (q : qid) : list (option dict) := default [] (puts s !! q).
Definition put_nowait (q : qid) (v : option dict) (p : gmap qid (list (option dict))) :
    gmap qid (list (option dict)) := <[q := default [] (p !! q) ++ [v]]> p.

Definition register (agent_id : pystr) (s : queues) : queues :=
  let q := fresh_queue s in
  if _shutdown s then
    {| _queues := _queues s; _event_buffers := _event_buffers s; _shutdown := true;
       puts := <[q := [None]]> (puts s); fresh_queue := S q; in_flight := in_flight s |}
  else
    let buffered_events := default [] (_event_buffers s !! agent_id) in
    {| _queues := <[agent_id := default [] (_queues s !! agent_id) ++ [q]]> (_queues s);
       _event_buffers := _event_buffers s; _shutdown := false;
       puts := <[q := map Some buffered_events]> (puts s); fresh_queue := S q; in_flight := in_flight s |}.

Definition unregister (agent_id : pystr) (q : qid) (s : queues) : queues :=
  match _queues s !! agent_id with
  | None => s
  | Some qs =>
      let qs' := remove1 q qs in
      {| _queues := match qs' with [] => delete agent_id (_queues s) | _ => <[agent_id := qs']> (_queues s) end;
         _event_buffers := _event_buffers s; _shutdown := _shutdown s; puts := puts s;
         fresh_queue := fresh_queue s; in_flight := in_flight s |}
  end.

(** [event] without its [buffer_behavior] key *)
Definition clean_event (event : dict) : dict := ddel "buffer_behavior" event.
Definition behavior_of (event : dict) : outcome BufferBehavior :=
  buffer_behavior_of (jget_or "buffer_behavior" (JStr "store") event).

(** The locked section of [broadcast]; the deliveries it leaves are in flight. *)
Definition broadcast (agent_id : pystr) (event : dict) (s : queues) : outcome queues :=
  behavior ← behavior_of event;
  Ret {| _queues := _queues s;
         _event_buffers :=
           match behavior with
           | STORE => <[agent_id := default [] (_event_buffers s !! agent_id) ++ [clean_event event]]> (_event_buffers s)
           | FLUSH => delete agent_id (_event_buffers s)
           | IGNORE => _event_buffers s
           end;
         _shutdown := _shutdown s; puts := puts s; fresh_queue := fresh_queue s;
         in_flight := in_flight s ++ [(default [] (_queues s !! agent_id), clean_event event)] |}.

(** One delivery of the [i]th broadcast in flight. *)
Definition deliver (i : nat) (s : queues) : queues :=
  match in_flight s !! i with
  | Some (q :: qs, event) =>
      {| _queues := _queues s; _event_buffers := _event_buffers s; _shutdown := _shutdown s;
         puts := put_nowait q (Some event) (puts s); fresh_queue := fresh_queue s;
         in_flight := <[i := (qs, event)]> (in_flight s) |}
  | _ => s
  end.

(** The event of each call [broadcast_all_ignored] makes. *)
Definition ignored (event : dict) : dict := dset "buffer_behavior" (JStr "ignore") event.

Definition shutdown (s : queues) : queues :=
  {| _queues := ∅; _event_buffers := ∅; _shutdown := true;
     puts := foldl (λ p q, put_nowait q None p) (puts s) (mjoin (map snd (map_to_list (_queues s))));
     fresh_queue := fresh_queue s; in_flight := in_flight s |}.

(** ** Runs *)
Inductive step :=
  | Register (agent_id : pystr)
  | Unregister (agent_id : pystr) (q : qid)
  | Broadcast (agent_id : pystr) (event : dict)
  | Deliver (i : nat)
  | Shutdown.

Definition do_step (s : queues) (l : step) : queues :=
  match l with
  | Register a => register a s
  | Unregister a q => unregister a q s
  | Broadcast a e => match broadcast a e s with Ret s' => s' | Raise _ => s end
  | Deliver i => deliver i s
  | Shutdown => shutdown s
  end.

Definition run (t : list step) (s : queues) : queues := foldl do_step s t.

(** [broadcast_all_ignored] with nothing interleaved *)
Definition broadcast_all_ignored (agent_id : pystr) (events : list dict) : list step :=
  map (λ e, Broadcast agent_id (ignored e)) events.

(** ** What a subscriber is promised *)

(** The replay buffer of an agent: what was stored since the last flush. *)
Definition stored_step (a : pystr) (buf : list dict) (l : step) : list dict :=
  match l with
  | Broadcast a' e =>
      if a' =? a then
        match behavior_of e with
        | Ret STORE => buf ++ [clean_event e]
        | Ret FLUSH => []
        | _ => buf
        end
      else buf
  | _ => buf
  end.
Definition stored (a : pystr) (t : list step) : list dict := foldl (stored_step a) [] t.

(** Every event broadcast to an agent. *)
Definition sent (a : pystr) (t : list step) : list dict :=
  flat_map (λ l, match l with
    | Broadcast a' e => if ((a' =? a) && is_Ret (behavior_of e)) then [clean_event e] else []
    | _ => []
    end) t.

(** What is still on its way to [q]. *)
Definition owed (s : queues) (q : qid) : list (option dict) :=
  flat_map (λ qe, flat_map (λ q', if q' =? q then [Some qe.2] else []) qe.1) (in_flight s).

Definition registered (s : queues) (a : pystr) : list qid := default [] (_queues s !! a).

(** No queue id in use is fresh. *)
Definition ids_bounded (s : queues) : Prop :=
  (∀ a q, q ∈ registered s a → q < fresh_queue s)
  ∧ (∀ qe q, qe ∈ in_flight s → q ∈ qe.1 → q < fresh_queue s)
  ∧ (∀ q, is_Some (puts s !! q) → q < fresh_queue s).

(** [q] is subscribed to [a], once, and to nothing else. *)
Definition subscribed (s : queues) (a : pystr) (q : qid) : Prop :=
  (∃ l1 l2, registered s a = l1 ++ q :: l2 ∧ q ∉ l1 ∧ q ∉ l2)
  ∧ ∀ a', a' ≠ a → q ∉ registered s a'.

Definition is_shutdown (l : step) : Prop := l = Shutdown.
Definition unregisters (q : qid) (l : step) : Prop := ∃ a, l = Unregister a q.

(** ** Facts *)

Lemma registered_register a s a' : _shutdown s = false →
  registered (register a s) a' = if decide (a' = a) then registered s a ++ [fresh_queue s] else registered s a'.
Proof.
  intros E. unfold registered, register. rewrite E. simpl. case_decide as Ea.
  - subst. by rewrite lookup_insert_eq.
  - by rewrite lookup_insert_ne.
Qed.

Lemma registered_unregister a q s a' :
  registered (unregister a q s) a' = if decide (a' = a) then remove1 q (registered s a) else registered s a'.
Proof.
  unfold registered, unregister. destruct (_queues s !! a) as [qs|] eqn:E; simpl.
  - case_decide as Ea; [subst a'; simpl|].
    + destruct (remove1 q qs); [by rewrite lookup_delete_eq | by rewrite lookup_insert_eq].
    + destruct (remove1 q qs); [by rewrite lookup_delete_ne | by rewrite lookup_insert_ne].
  - case_decide; [|done]. subst. by rewrite E.
Qed.

Lemma registered_broadcast a e s s' a' : broadcast a e s = Ret s' → registered s' a' = registered s a'.
Proof. unfold broadcast, mbind, outcome_bind. by destruct (behavior_of e); intros E; inv E. Qed.

Lemma registered_deliver i s a' : registered (deliver i s) a' = registered s a'.
Proof. unfold deliver. by destruct (in_flight s !! i) as [[[|] ?]|]. Qed.

Lemma content_put q v p q' :
  default [] (put_nowait q v p !! q') = default [] (p !! q') ++ (if decide (q' = q) then [v] else []).
Proof.
  unfold put_nowait. case_decide.
  - subst. by rewrite lookup_insert_eq.
  - by rewrite lookup_insert_ne, app_nil_r.
Qed.

(** *** Fresh ids *)
Lemma puts_bound (qs : list qid) v n : ∀ (p : gmap qid (list (option dict))),
  (∀ q, q ∈ qs → q < n) → (∀ q, is_Some (p !! q) → q < n) →
  ∀ q, is_Some (foldl (λ p q, put_nowait q v p) p qs !! q) → q < n.
Proof.
  induction qs as [|q0 qs IH]; intros p Hqs Hp; simpl; [done|].
  apply IH; [set_solver|]. intros q. unfold put_nowait.
  destruct (decide (q = q0)) as [->|Hne]; [set_solver|]. rewrite lookup_insert_ne by done. apply Hp.
Qed.

Lemma queues_registered s q :
  q ∈ mjoin (map snd (map_to_list (_queues s))) → ∃ a, q ∈ registered s a.
Proof.
  rewrite list_elem_of_join. intros (qs & Hq & Hqs).
  apply list_elem_of_fmap in Hqs as ([a qs'] & -> & Ha%elem_of_map_to_list).
  exists a. unfold registered. by rewrite Ha.
Qed.

Lemma ids_bounded_step s l : ids_bounded s → ids_bounded (do_step s l).
Proof.
  intros (Hr & Hf & Hp). destruct l as [a|a q|a e|i|]; simpl.
  - unfold register. destruct (_shutdown s) eqn:Es; split_and!; simpl.
    + intros a' q' H. specialize (Hr a' q' H). lia.
    + intros qe q' H1 H2. specialize (Hf qe q' H1 H2). lia.
    + intros q' H. destruct (decide (q' = fresh_queue s)); [lia|].
      rewrite lookup_insert_ne in H by done. specialize (Hp q' H). lia.
    + intros a' q' H. pose proof (registered_register a s a' Es) as E.
      unfold register in E. rewrite Es in E. rewrite E in H.
      case_decide; [|specialize (Hr a' q' H); lia].
      apply elem_of_app in H as [H| ->%list_elem_of_singleton]; [specialize (Hr a q' H)|]; lia.
    + intros qe q' H1 H2. specialize (Hf qe q' H1 H2). lia.
    + intros q' H. destruct (decide (q' = fresh_queue s)); [lia|].
      rewrite lookup_insert_ne in H by done. specialize (Hp q' H). lia.
  - assert (fresh_queue (unregister a q s) = fresh_queue s ∧ in_flight (unregister a q s) = in_flight s
      ∧ puts (unregister a q s) = puts s) as (E1 & E2 & E3)
      by (unfold unregister; by destruct (_queues s !! a)).
    unfold ids_bounded. rewrite E1, E2, E3. split_and!; try done.
    intros a' q' H. rewrite registered_unregister in H. case_decide; [|by apply (Hr a')].
    apply (Hr a), (sublist_subseteq _ _ (remove1_sublist q (registered s a))), H.
  - destruct (broadcast a e s) as [s'|] eqn:E; [|done].
    split_and!.
    + intros a' q'. rewrite (registered_broadcast _ _ _ _ _ E). unfold broadcast, mbind, outcome_bind in E.
      destruct (behavior_of e); inv E. apply Hr.
    + unfold broadcast, mbind, outcome_bind in E. destruct (behavior_of e); inv E. simpl.
      intros qe q' [H1| ->%list_elem_of_singleton]%elem_of_app H2; [by apply (Hf qe)|]. by apply (Hr a).
    + unfold broadcast, mbind, outcome_bind in E. destruct (behavior_of e); inv E. done.
  - unfold deliver. destruct (in_flight s !! i) as [[[|q qs] e]|] eqn:E; try done.
    apply list_elem_of_lookup_2 in E. split_and!; simpl; [done| |].
    + intros qe q' H1 H2. apply list_elem_of_lookup in H1 as [j H1].
      apply list_lookup_insert_Some in H1 as [(-> & <- & _)|[_ H1]].
      * apply (Hf (q :: qs, e)); [done|]. by right.
      * apply list_elem_of_lookup_2 in H1. by apply (Hf qe).
    + intros q'. unfold put_nowait. destruct (decide (q' = q)) as [->|Hne].
      * intros _. apply (Hf (q :: qs, e)); [done|left].
      * rewrite lookup_insert_ne by done. apply Hp.
  - split_and!; simpl; [|done|].
    + intros a q. unfold registered. simpl. rewrite lookup_empty. by intros ?%elem_of_nil.
    + apply puts_bound; [|done]. intros q (a & Ha)%queues_registered. by apply (Hr a).
Qed.

Lemma ids_bounded_run t s : ids_bounded s → ids_bounded (run t s).
Proof. revert s. induction t as [|l t IH]; intros s H; [done|]. by apply IH, ids_bounded_step. Qed.

Lemma ids_bounded_empty : ids_bounded empty_queues.
Proof.
  split_and!; simpl.
  - intros a q. unfold registered. simpl. rewrite lookup_empty. by intros ?%elem_of_nil.
  - by intros qe q ?%elem_of_nil.
  - intros q. rewrite lookup_empty. by intros [? ?].
Qed.

Lemma owed_none s q : (∀ qe, qe ∈ in_flight s → q ∉ qe.1) → owed s q = [].
Proof.
  unfold owed. induction (in_flight s) as [|[qs e] l IH]; intros H; simpl; [done|].
  rewrite IH by (intros; apply H; by right).
  assert (q ∉ qs) as Hq by (apply (H (qs, e)); left).
  clear -Hq. rewrite app_nil_r. induction qs as [|q' qs IH]; simpl; [done|].
  apply not_elem_of_cons in Hq as [Hne Hq]. rewrite bool_decide_eq_false_2 by done. by apply IH.
Qed.

Lemma fresh_nothing s : ids_bounded s → owed s (fresh_queue s) = [].
Proof. intros (_ & Hf & _). apply owed_none. intros qe H1 H2. specialize (Hf _ _ H1 H2). lia. Qed.

(** *** The buffer and the subscription along a run *)
Lemma shutdown_only s l : l ≠ Shutdown → _shutdown (do_step s l) = _shutdown s.
Proof.
  destruct l; simpl; intros H; try done.
  - unfold register. by destruct (_shutdown s).
  - unfold unregister. by destruct (_queues s !! _).
  - unfold broadcast, mbind, outcome_bind. by destruct (behavior_of event).
  - unfold deliver. by destruct (in_flight s !! i) as [[[|] ?]|].
Qed.

Lemma not_shutdown_run t s : _shutdown s = false → Forall (λ l, l ≠ Shutdown) t → _shutdown (run t s) = false.
Proof.
  intros Hs Ht. revert s Hs. induction Ht as [|l t Hl Ht IH]; intros s Hs; simpl; [done|].
  apply IH. by rewrite shutdown_only.
Qed.

Lemma buffer_step a s l : l ≠ Shutdown →
  default [] (_event_buffers (do_step s l) !! a) = stored_step a (default [] (_event_buffers s !! a)) l.
Proof.
  destruct l as [a'|a' q|a' e|i|]; simpl; intros H; try done.
  - unfold register. by destruct (_shutdown s).
  - unfold unregister. by destruct (_queues s !! _).
  - unfold broadcast, mbind, outcome_bind. destruct (behavior_of e) as [b|x]; simpl; [|by case_bool_decide].
    case_bool_decide as E; [subst a'|]; destruct b; simpl;
      rewrite ?lookup_insert_eq, ?lookup_delete_eq, ?lookup_insert_ne, ?lookup_delete_ne by done; done.
  - unfold deliver. by destruct (in_flight s !! i) as [[[|] ?]|].
Qed.

Lemma buffer_run a t s : Forall (λ l, l ≠ Shutdown) t →
  default [] (_event_buffers (run t s) !! a) = foldl (stored_step a) (default [] (_event_buffers s !! a)) t.
Proof.
  intros Ht. revert s. induction Ht as [|l t Hl Ht IH]; intros s; simpl; [done|].
  rewrite IH. f_equal. by apply buffer_step.
Qed.

Lemma subscribed_step s a q l :
  ids_bounded s → _shutdown s = false → l ≠ Shutdown → ¬ unregisters q l →
  q < fresh_queue s → subscribed s a q → subscribed (do_step s l) a q.
Proof.
  intros Hb Hs Hl Hu Hq [(l1 & l2 & E & H1 & H2) Hother]. destruct l as [a'|a' q'|a' e|i|]; simpl; [..|done].
  - unfold subscribed. rewrite registered_register by done. split.
    + case_decide as Ea; [subst a'|by exists l1, l2]. exists l1, (l2 ++ [fresh_queue s]).
      split_and!; [by rewrite E, <- app_assoc | done|].
      rewrite elem_of_app, list_elem_of_singleton. intros [?| ->]; [done|lia].
    + intros a'' Ha. rewrite registered_register by done. case_decide as Ea; [subst a''|by apply Hother].
      rewrite elem_of_app, list_elem_of_singleton. intros [?| ->]; [by apply (Hother a')|lia].
  - unfold subscribed. rewrite registered_unregister. assert (q' ≠ q) as Hne by (intros ->; apply Hu; by eexists).
    split.
    + case_decide as Ea; [subst a'|by exists l1, l2]. rewrite E. clear -H1 H2 Hne.
      induction l1 as [|x l1 IH]; simpl.
      * rewrite decide_False by done. exists [], (remove1 q' l2). split_and!; [done|set_solver|].
        by rewrite remove1_other.
      * case_decide as Ex; [exists l1, l2; set_solver|].
        destruct IH as (m1 & m2 & -> & ? & ?); [set_solver|]. exists (x :: m1), m2. set_solver.
    + intros a'' Ha. rewrite registered_unregister. case_decide; [subst|by apply Hother].
      rewrite remove1_other by done. by apply Hother.
  - destruct (broadcast a' e s) as [s'|] eqn:Eb; [|by split; [exists l1, l2|]].
    unfold subscribed. setoid_rewrite (registered_broadcast _ _ _ _ _ Eb). split; [by exists l1, l2 | done].
  - unfold subscribed. setoid_rewrite registered_deliver. split; [by exists l1, l2 | done].
Qed.

Lemma flat_once (q : qid) (v : option dict) (l1 l2 : list qid) : q ∉ l1 → q ∉ l2 →
  flat_map (λ q', if (q' =? q)%py then [v] else []) (l1 ++ q :: l2) = [v].
Proof.
  intros H1 H2.
  assert (∀ l, q ∉ l → flat_map (λ q', if (q' =? q)%py then [v] else []) l = []) as F.
  { induction l as [|x l IH]; simpl; [done|]. intros [Hne Hx]%not_elem_of_cons.
    rewrite bool_decide_eq_false_2 by done. by apply IH. }
  rewrite flat_map_app, F by done. simpl. rewrite bool_decide_eq_true_2 by done. by rewrite F.
Qed.

Lemma flat_none (q : qid) (v : option dict) (l : list qid) : q ∉ l →
  flat_map (λ q', if (q' =? q)%py then [v] else []) l = [].
Proof.
  induction l as [|x l IH]; simpl; [done|]. intros [Hne Hx]%not_elem_of_cons.
  rewrite bool_decide_eq_false_2 by done. by apply IH.
Qed.

Lemma owed_broadcast s a a' e s' q : subscribed s a q → broadcast a' e s = Ret s' →
  owed s' q = owed s q ++ map Some (sent a [Broadcast a' e]).
Proof.
  intros [(l1 & l2 & El & H1 & H2) Hother] Eb. unfold broadcast, mbind, outcome_bind in Eb.
  unfold sent. simpl. destruct (behavior_of e) as [b|]; inv Eb. unfold owed at 1. simpl.
  rewrite flat_map_app. f_equal. simpl. rewrite app_nil_r. fold (registered s a').
  case_bool_decide as Ea; [subst a'; rewrite El; simpl; by apply flat_once|].
  simpl. by apply flat_none, Hother.
Qed.

Lemma owed_deliver i s q :
  content (deliver i s) q ++ owed (deliver i s) q ≡ₚ content s q ++ owed s q.
Proof.
  unfold deliver. destruct (in_flight s !! i) as [[[|q0 qs] e]|] eqn:E; try done.
  unfold content, owed. simpl. rewrite content_put, <- app_assoc. apply Permutation_app_head.
  rewrite <- (take_drop_middle _ _ _ E) at 2. rewrite insert_take_drop by (by apply lookup_lt_Some in E).
  rewrite !flat_map_app. simpl.
  case_decide as Eq; case_bool_decide; try congruence; simpl; [|done].
  by rewrite <- Permutation_middle.
Qed.

Lemma step_owed s a q l :
  ids_bounded s → l ≠ Shutdown → q < fresh_queue s → subscribed s a q →
  content (do_step s l) q ++ owed (do_step s l) q ≡ₚ (content s q ++ owed s q) ++ map Some (sent a [l]).
Proof.
  intros Hb Hl Hq Hsub. destruct l as [a'|a' q'|a' e|i|]; simpl; [..|done]; rewrite ?app_nil_r.
  - unfold register, content, owed. destruct (_shutdown s); simpl; by rewrite lookup_insert_ne by lia.
  - unfold unregister. by destruct (_queues s !! a').
  - destruct (broadcast a' e s) as [s'|] eqn:Eb.
    + rewrite (owed_broadcast _ _ _ _ _ _ Hsub Eb), app_assoc.
      assert (content s' q = content s q) as E
        by (unfold broadcast, mbind, outcome_bind in Eb; by destruct (behavior_of e); inv Eb).
      rewrite E. unfold sent. simpl. by rewrite app_nil_r.
    + unfold broadcast, mbind, outcome_bind in Eb. destruct (behavior_of e) eqn:Ee; inv Eb.
      simpl. rewrite andb_false_r. by rewrite app_nil_r.
  - by rewrite owed_deliver.
Qed.

Lemma fresh_step s l : fresh_queue s <= fresh_queue (do_step s l).
Proof.
  destruct l as [a'|a' q'|a' e|i|]; simpl; try lia.
  - unfold register. destruct (_shutdown s); simpl; lia.
  - unfold unregister. by destruct (_queues s !! a').
  - unfold broadcast, mbind, outcome_bind. by destruct (behavior_of e).
  - unfold deliver. by destruct (in_flight s !! i) as [[[|] ?]|].
Qed.

Lemma run_owed t : ∀ s a q,
  ids_bounded s → _shutdown s = false → Forall (λ l, l ≠ Shutdown ∧ ¬ unregisters q l) t →
  q < fresh_queue s → subscribed s a q →
  content (run t s) q ++ owed (run t s) q ≡ₚ (content s q ++ owed s q) ++ map Some (sent a t).
Proof.
  induction t as [|l t IH]; intros s a q Hb Hs Ht Hq Hsub; simpl; [by rewrite app_nil_r|].
  apply Forall_cons in Ht as [[Hl Hu] Ht].
  rewrite (IH (do_step s l) a q); [|by apply ids_bounded_step|by rewrite shutdown_only|done| |by apply subscribed_step].
  - rewrite (step_owed s a q l) by done. rewrite <- app_assoc, <- map_app.
    unfold sent at 1 2. by rewrite <- (flat_map_app _ [l] t).
  - eapply Nat.lt_le_trans; [done|apply fresh_step].
Qed.

(** C39: a subscriber receives exactly once every event that was stored and not
    flushed before it registered, and every event broadcast after, in whatever
    way the deliveries of concurrent broadcasts interleave with other
    operations; what it has not received yet is still in flight. *)
Theorem subscriber_exactly_once a t1 t2 :
  let q := fresh_queue (run t1 empty_queues) in
  let s := run (t1 ++ Register a :: t2) empty_queues in
  Forall (λ l, l ≠ Shutdown) t1 → Forall (λ l, l ≠ Shutdown ∧ ¬ unregisters q l) t2 →
  content s q ++ owed s q ≡ₚ map Some (stored a t1 ++ sent a t2).
Proof.
  intros q s H1 H2. unfold s, run. rewrite foldl_app. fold (run t1 empty_queues).
  set (s1 := run t1 empty_queues) in *. simpl. fold (run t2 (register a s1)).
  pose proof (ids_bounded_run t1 _ ids_bounded_empty) as Hb. fold s1 in Hb.
  pose proof (not_shutdown_run t1 empty_queues eq_refl H1) as Hs. fold s1 in Hs.
  assert (subscribed (register a s1) a q) as Hsub.
  { destruct Hb as (Hr & _). split.
    - rewrite registered_register, decide_True by done. exists (registered s1 a), [].
      split_and!; [done| |by intros ?%elem_of_nil]. intros Hin%Hr. unfold q in Hin. lia.
    - intros a' Ha. rewrite registered_register, decide_False by done. intros Hin%Hr. unfold q in Hin. lia. }
  rewrite (run_owed t2 (register a s1) a q); [|by apply (ids_bounded_step s1 (Register a))| |done| |done].
  - rewrite map_app. apply Permutation_app_tail. unfold register, content, owed. rewrite Hs. simpl.
    rewrite lookup_insert_eq. simpl. fold (owed s1 q). unfold q. rewrite fresh_nothing by done.
    rewrite app_nil_r. unfold s1. rewrite buffer_run by done. simpl. by rewrite lookup_empty.
  - unfold register. by rewrite Hs.
  - unfold register. rewrite Hs. simpl. unfold q. lia.
Qed.

(** After a shutdown nothing is replayed: a new subscriber gets the end marker
    alone. *)
Lemma register_after_shutdown a s :
  _shutdown s = true → content (register a s) (fresh_queue s) = [None].
Proof. intros E. unfold register, content. rewrite E. simpl. by rewrite lookup_insert_eq. Qed.

(** ** A concrete run: two broadcasts, delivered in the other order around the
    registration of a second subscriber. *)
Module QueueDemo.
Definition ev (n : pystr) : dict := [(u "type", JStr n)].
Definition before : list step :=
  [Register "a"; Broadcast "a" (ev "e1"); Broadcast "a" (ignored (ev "e2"))].
Definition after : list step := [Deliver 1; Broadcast "a" (ev "e3"); Deliver 2; Deliver 0].
End QueueDemo.
Import QueueDemo.

Lemma subscriber_exactly_once_witness :
  content (run (before ++ Register "a" :: after) empty_queues) 1
    ++ owed (run (before ++ Register "a" :: after) empty_queues) 1 ≡ₚ [Some (ev "e1"); Some (ev "e3")].
Proof.
  apply (subscriber_exactly_once "a" before after).
  - repeat constructor; discriminate.
  - repeat constructor; try discriminate; intros [? ?]; discriminate.
Defined.

Example first_subscriber_out_of_order :
  content (run (before ++ Register "a" :: after) empty_queues) 0
  = [Some (ev "e2"); Some (ev "e3"); Some (ev "e1")].
Proof. vm_compute. reflexivity. Qed.
