(* ===== verification/WsBroadcaster.v ===== *)
(** * The WebSocket broadcaster

    [ws_broadcaster.py]: bounded per-client queues, broadcasts under the lock,
    eviction of clients that stay full.  The handler thread of a client takes
    from its queue; that is the step [Get]. *)

From Stdlib Require Import NArith Lia.
From S2P Require Import Prelude PyStr PyJson PyMonad.
From stdpp Require Import options.
#[global] Open Scope nat_scope.
#[local] Open Scope py_scope.

Definition _CLIENT_QUEUE_MAX_SIZE : nat := 1000.
Definition _MAX_CONSECUTIVE_QUEUE_FULL : nat := 50.

Abbreviation qid := nat.

Record broadcaster := {
  _client_queues : list qid;
  _consecutive_queue_full_by_id : gmap qid nat;
  (** what each queue holds, and the next new queue *)
  queue : gmap qid (list (option pystr));
  fresh_queue : qid;
}.

Definition new_broadcaster : broadcaster :=
  {| _client_queues := []; _consecutive_queue_full_by_id := ∅; queue := ∅; fresh_queue := 0 |}.

Definition items (s : broadcaster) (q : qid) : list (option pystr) := default [] (queue s !! q).

Definition with_queue (q : qid) (l : list (option pystr)) (s : broadcaster) : broadcaster :=
  {| _client_queues := _client_queues s; _consecutive_queue_full_by_id := _consecutive_queue_full_by_id s;
     queue := <[q := l]> (queue s); fresh_queue := fresh_queue s |}.
Definition with_count (q : qid) (n : nat) (s : broadcaster) : broadcaster :=
  {| _client_queues := _client_queues s;
     _consecutive_queue_full_by_id := <[q := n]> (_consecutive_queue_full_by_id s);
     queue := queue s; fresh_queue := fresh_queue s |}.

Definition register (s : broadcaster) : broadcaster :=
  let q := fresh_queue s in
  {| _client_queues := _client_queues s ++ [q];
     _consecutive_queue_full_by_id := <[q := 0]> (_consecutive_queue_full_by_id s);
     queue := <[q := []]> (queue s); fresh_queue := S q |}.

Definition unregister (q : qid) (s : broadcaster) : broadcaster :=
  {| _client_queues := remove1 q (_client_queues s);
     _consecutive_queue_full_by_id := delete q (_consecutive_queue_full_by_id s);
     queue := queue s; fresh_queue := fresh_queue s |}.

(** [q.put_nowait(v)]; [None] is [queue.Full]. *)
Definition put_nowait (q : qid) (v : option pystr) (s : broadcaster) : option broadcaster :=
  if (length (items s q) <? _CLIENT_QUEUE_MAX_SIZE)%nat then Some (with_queue q (items s q ++ [v]) s) else None.

(** [_drain_queue], then the end marker. *)
Definition drain_and_close (q : qid) (s : broadcaster) : broadcaster :=
  let s' := with_queue q [] s in default s' (put_nowait q None s').

Definition _disconnect_locked (dead_queue : qid) (s : broadcaster) : broadcaster :=
  drain_and_close dead_queue (unregister dead_queue s).

Definition offer (text : pystr) (acc : broadcaster * list qid) (q : qid) : broadcaster * list qid :=
  let '(s, dead_queues) := acc in
  match put_nowait q (Some text) s with
  | Some s' => (with_count q 0 s', dead_queues)
  | None =>
      let new_count := default 0 (_consecutive_queue_full_by_id s !! q) + 1 in
      (with_count q new_count s,
       if (_MAX_CONSECUTIVE_QUEUE_FULL <=? new_count)%nat then dead_queues ++ [q] else dead_queues)
  end.

Definition broadcast_text (text : pystr) (s : broadcaster) : broadcaster :=
  let '(s', dead_queues) := foldl (offer text) (s, []) (_client_queues s) in
  foldl (λ s q, _disconnect_locked q s) s' dead_queues.

Section messages.
Context `{PyRepr}.
Definition broadcast (message : dict) (s : broadcaster) : broadcaster :=
  broadcast_text (dumps float_repr ", " ": " (JObj message)) s.

Definition agents_updated (agents : list json) : dict :=
  [(u "type", JStr "agents_updated"); (u "agents", JList agents)].
Definition applications_updated (applications : list json) : dict :=
  [(u "type", JStr "applications_updated"); (u "applications", JList applications)].
Definition opt_str (o : option pystr) : json := match o with Some s => JStr s | None => JNull end.
Definition proto_agent_created (agent_id name creation_type : pystr) (parent_agent_id : option pystr) : dict :=
  [(u "type", JStr "proto_agent_created"); (u "agent_id", JStr agent_id); (u "name", JStr name);
   (u "creation_type", JStr creation_type); (u "parent_agent_id", opt_str parent_agent_id)].
Definition proto_agent_completed (agent_id : pystr) (success : bool) (error : option pystr) : dict :=
  [(u "type", JStr "proto_agent_completed"); (u "agent_id", JStr agent_id); (u "success", JBool success);
   (u "error", opt_str error)].
Definition layout_op (op : pystr) (args : dict) (requester_agent_id : json) : dict :=
  [(u "type", JStr "layout_op"); (u "op", JStr op); (u "args", JObj args);
   (u "requester_agent_id", requester_agent_id)].
End messages.

Definition shutdown (s : broadcaster) : broadcaster :=
  let s' := foldl (λ s q, drain_and_close q s) s (_client_queues s) in
  {| _client_queues := []; _consecutive_queue_full_by_id := ∅; queue := queue s'; fresh_queue := fresh_queue s' |}.

(** ** Runs *)
Inductive step :=
  | Register
  | Unregister (q : qid)
  | Broadcast (text : pystr)
  | Get (q : qid)
  | Shutdown.

Definition do_step (s : broadcaster) (l : step) : broadcaster :=
  match l with
  | Register => register s
  | Unregister q => unregister q s
  | Broadcast text => broadcast_text text s
  | Get q => if (q <? fresh_queue s)%nat then with_queue q (tail (items s q)) s else s
  | Shutdown => shutdown s
  end.
Definition run (t : list step) (s : broadcaster) : broadcaster := foldl do_step s t.

(** ** Specification: one client on its own *)
Record client := { connected : bool; held : list (option pystr); fulls : nat }.

Definition closed : client := {| connected := false; held := [None]; fulls := 0 |}.

Definition client_step (q : qid) (c : client) (l : step) : client :=
  match l with
  | Register => c
  | Unregister q' =>
      if q' =? q then {| connected := false; held := held c; fulls := 0 |} else c
  | Broadcast text =>
      if negb (connected c) then c
      else if (length (held c) <? _CLIENT_QUEUE_MAX_SIZE)%nat then
        {| connected := true; held := held c ++ [Some text]; fulls := 0 |}
      else if (_MAX_CONSECUTIVE_QUEUE_FULL <=? fulls c + 1)%nat then closed
      else {| connected := true; held := held c; fulls := fulls c + 1 |}
  | Get q' => if q' =? q then {| connected := connected c; held := tail (held c); fulls := fulls c |} else c
  | Shutdown => if connected c then closed else c
  end.

Definition view (s : broadcaster) (q : qid) : client :=
  {| connected := q ∈? _client_queues s; held := items s q;
     fulls := default 0 (_consecutive_queue_full_by_id s !! q) |}.

(** ** Facts *)

Record ok (s : broadcaster) : Prop := {
  ok_nodup : NoDup (_client_queues s);
  ok_known : ∀ q, q ∈ _client_queues s → q < fresh_queue s;
  ok_counts : ∀ q, is_Some (_consecutive_queue_full_by_id s !! q) → q ∈ _client_queues s;
}.

Definition room (s : broadcaster) (q : qid) : bool := (length (items s q) <? _CLIENT_QUEUE_MAX_SIZE)%nat.
Definition count (s : broadcaster) (q : qid) : nat := default 0 (_consecutive_queue_full_by_id s !! q).
Definition dead (s : broadcaster) (q : qid) : bool :=
  negb (room s q) && (_MAX_CONSECUTIVE_QUEUE_FULL <=? count s q + 1)%nat.

Lemma items_with_queue q l s q' : items (with_queue q l s) q' = if decide (q' = q) then l else items s q'.
Proof.
  unfold items. simpl. case_decide; [subst; by rewrite lookup_insert_eq | by rewrite lookup_insert_ne].
Qed.

Lemma offer_eq text s d q :
  offer text (s, d) q =
  (with_count q (if room s q then 0 else count s q + 1)
     (if room s q then with_queue q (items s q ++ [Some text]) s else s),
   d ++ if dead s q then [q] else []).
Proof.
  unfold offer, put_nowait, dead. fold (room s q). fold (count s q). destruct (room s q); simpl.
  - by rewrite app_nil_r.
  - case_match; [done | by rewrite app_nil_r].
Qed.

Lemma offers text l : ∀ s d, NoDup l →
  let '(s', d') := foldl (offer text) (s, d) l in
  _client_queues s' = _client_queues s ∧ fresh_queue s' = fresh_queue s
  ∧ d' = d ++ List.filter (dead s) l
  ∧ (∀ q, items s' q = if decide (q ∈ l) then (if room s q then items s q ++ [Some text] else items s q)
                       else items s q)
  ∧ (∀ q, _consecutive_queue_full_by_id s' !! q =
       if decide (q ∈ l) then Some (if room s q then 0 else count s q + 1)
       else _consecutive_queue_full_by_id s !! q).
Proof.
  induction l as [|q0 l IH]; intros s d Hnd; cbn [foldl].
  { split_and!; try done. by rewrite app_nil_r. }
  apply NoDup_cons in Hnd as [Hq0 Hnd]. rewrite offer_eq.
  set (s1 := with_count q0 _ _). specialize (IH s1 (d ++ if dead s q0 then [q0] else []) Hnd).
  destruct (foldl (offer text) _ l) as [s' d']. destruct IH as (E1 & E2 & E3 & E4 & E5).
  assert (∀ q, q ≠ q0 → items s1 q = items s q) as Hi.
  { intros q Hne. unfold s1. destruct (room s q0); [|done].
    change (items (with_queue q0 (items s q0 ++ [Some text]) s) q = items s q).
    by rewrite items_with_queue, decide_False. }
  assert (∀ q, q ≠ q0 → _consecutive_queue_full_by_id s1 !! q = _consecutive_queue_full_by_id s !! q) as Hc.
  { intros q Hne. unfold s1. simpl. rewrite lookup_insert_ne by done. by destruct (room s q0). }
  split_and!.
  - rewrite E1. unfold s1. by destruct (room s q0).
  - rewrite E2. unfold s1. by destruct (room s q0).
  - rewrite E3, <- app_assoc. f_equal. simpl.
    rewrite (filter_ext_in (dead s1) (dead s) l).
    { by destruct (dead s q0). }
    intros q Hq%list_elem_of_In. unfold dead, room, count.
    assert (q ≠ q0) by (by intros ->). by rewrite Hi, Hc.
  - intros q. rewrite E4. destruct (decide (q = q0)) as [->|Hne].
    + rewrite decide_False by done. rewrite decide_True by left. unfold s1.
      destruct (room s q0); [|done].
      change (items (with_queue q0 (items s q0 ++ [Some text]) s) q0 = items s q0 ++ [Some text]).
      by rewrite items_with_queue, decide_True.
    + unfold room. rewrite Hi by done.
      assert (q ∈ q0 :: l ↔ q ∈ l) as Hiff by (rewrite elem_of_cons; tauto).
      by rewrite (decide_ext _ _ _ _ Hiff).
  - intros q. rewrite E5. destruct (decide (q = q0)) as [->|Hne].
    + rewrite decide_False by done. rewrite decide_True by left. unfold s1. simpl. by rewrite lookup_insert_eq.
    + unfold room, count. rewrite Hi, Hc by done.
      assert (q ∈ q0 :: l ↔ q ∈ l) as Hiff by (rewrite elem_of_cons; tauto).
      by rewrite (decide_ext _ _ _ _ Hiff).
Qed.

Lemma drain_eq q s : drain_and_close q s = with_queue q [None] (with_queue q [] s).
Proof.
  unfold drain_and_close, put_nowait. rewrite items_with_queue, decide_True by done. reflexivity.
Qed.

Lemma disconnects l : ∀ s, NoDup l →
  let s' := foldl (λ s q, _disconnect_locked q s) s l in
  (∀ q, q ∈ _client_queues s' → q ∈ _client_queues s)
  ∧ (NoDup (_client_queues s) → NoDup (_client_queues s') ∧ ∀ q, q ∈ _client_queues s' ↔ q ∈ _client_queues s ∧ q ∉ l)
  ∧ fresh_queue s' = fresh_queue s
  ∧ (∀ q, items s' q = if decide (q ∈ l) then [None] else items s q)
  ∧ (∀ q, _consecutive_queue_full_by_id s' !! q =
       if decide (q ∈ l) then None else _consecutive_queue_full_by_id s !! q).
Proof.
  induction l as [|q0 l IH]; intros s Hnd; simpl.
  { split_and!; try done. intros Hs. split; [done|]. intros q. set_solver. }
  apply NoDup_cons in Hnd as [Hq0 Hnd].
  destruct (IH (_disconnect_locked q0 s) Hnd) as (E1 & E2 & E3 & E4 & E5). clear IH.
  unfold _disconnect_locked in *. rewrite drain_eq in *. cbn in E1, E2, E3, E5.
  split_and!.
  - intros q Hq%E1. by apply (sublist_subseteq _ _ (remove1_sublist q0 (_client_queues s))).
  - intros Hs. assert (NoDup (remove1 q0 (_client_queues s))) as Hs'
      by (eapply sublist_NoDup; [done | apply remove1_sublist]).
    destruct (E2 Hs') as [H1 H2]. split; [done|]. intros q. rewrite H2, elem_of_cons.
    destruct (decide (q = q0)) as [->|Hne]; [|rewrite remove1_other by done; tauto].
    split; [|naive_solver]. intros [Hin _]. exfalso. clear -Hs Hin.
    induction (_client_queues s) as [|x cl IH]; simpl in Hin; [set_solver|].
    apply NoDup_cons in Hs as [Hx Hs]. case_decide as E; [by subst|].
    apply elem_of_cons in Hin as [->|Hin]; [done|by apply IH].
  - done.
  - intros q. rewrite E4, !items_with_queue.
    destruct (decide (q = q0)) as [->|Hne].
    + rewrite (decide_False (P := q0 ∈ l)) by done. by rewrite decide_True by left.
    + assert (q ∈ q0 :: l ↔ q ∈ l) as Hiff by (rewrite elem_of_cons; tauto).
      rewrite (decide_ext _ _ _ _ Hiff). case_decide; [done|]. reflexivity.
  - intros q. rewrite E5. destruct (decide (q = q0)) as [->|Hne].
    + rewrite (decide_False (P := q0 ∈ l)) by done. rewrite decide_True by left. by rewrite lookup_delete_eq.
    + assert (q ∈ q0 :: l ↔ q ∈ l) as Hiff by (rewrite elem_of_cons; tauto).
      rewrite (decide_ext _ _ _ _ Hiff). case_decide; [done|]. by rewrite lookup_delete_ne.
Qed.

Lemma dead_clients text s : ok s →
  let s1 := (foldl (offer text) (s, []) (_client_queues s)).1 in
  broadcast_text text s = foldl (λ s q, _disconnect_locked q s) s1 (List.filter (dead s) (_client_queues s))
  ∧ _client_queues s1 = _client_queues s ∧ fresh_queue s1 = fresh_queue s
  ∧ (∀ q, q ∈ _client_queues s → items s1 q = (if room s q then items s q ++ [Some text] else items s q)
       ∧ _consecutive_queue_full_by_id s1 !! q = Some (if room s q then 0 else count s q + 1))
  ∧ (∀ q, q ∉ _client_queues s → items s1 q = items s q
       ∧ _consecutive_queue_full_by_id s1 !! q = _consecutive_queue_full_by_id s !! q)
  ∧ NoDup (List.filter (dead s) (_client_queues s)).
Proof.
  intros [Hnd _ _]. pose proof (offers text (_client_queues s) s [] Hnd) as HO.
  unfold broadcast_text. destruct (foldl (offer text) _ _) as [s1 d1].
  destruct HO as (E1 & E2 & E3 & E4 & E5). simpl in *. subst d1.
  split_and!; try done.
  - intros q Hq. rewrite E4, E5, !decide_True by done. done.
  - intros q Hq. rewrite E4, E5, !decide_False by done. done.
  - by apply NoDup_ListNoDup, List.NoDup_filter, NoDup_ListNoDup.
Qed.

Lemma elem_filter_bool {A} (f : A → bool) l x : x ∈ List.filter f l ↔ x ∈ l ∧ f x = true.
Proof. by rewrite !list_elem_of_In, filter_In. Qed.

Lemma view_broadcast text s q : ok s → view (broadcast_text text s) q = client_step q (view s q) (Broadcast text).
Proof.
  intros Hok. destruct (dead_clients text s Hok) as (-> & E1 & E2 & Ein & Eout & Hd).
  set (s1 := (foldl _ _ _).1) in *.
  destruct (disconnects _ s1 Hd) as (_ & Hcl & _ & Hi & Hc).
  destruct Hcl as [_ Hcl]; [rewrite E1; apply Hok|].
  unfold view, client_step. cbn [connected held fulls]. rewrite Hi, Hc.
  specialize (Hcl q). rewrite E1, elem_filter_bool in Hcl. clear Hi Hc E1 E2 Hd.
  destruct (decide (q ∈ _client_queues s)) as [Hq|Hq].
  - rewrite (bool_decide_eq_true_2 (q ∈ _client_queues s)) by done. cbn [negb].
    destruct (Ein q Hq) as [-> ->]. destruct (dead s q) eqn:Ed.
    + rewrite (bool_decide_eq_false_2 _) by tauto. rewrite !decide_True by (by apply elem_filter_bool).
      unfold dead, room, count in Ed. apply andb_true_iff in Ed as [Er%negb_true_iff Ec].
      rewrite Er. cbv iota. by rewrite Ec.
    + rewrite (bool_decide_eq_true_2 _) by (apply Hcl; split; [done|]; by intros [_ ?]).
      rewrite !decide_False by (rewrite elem_filter_bool; intros [_ ?]; congruence).
      unfold dead, room, count in *. destruct (length (items s q) <? _CLIENT_QUEUE_MAX_SIZE)%nat; [done|].
      cbn [negb andb] in Ed. by rewrite Ed.
  - rewrite (bool_decide_eq_false_2 (q ∈ _client_queues s)) by done. cbn [negb].
    rewrite (bool_decide_eq_false_2 _) by tauto.
    rewrite !decide_False by (rewrite elem_filter_bool; tauto).
    by destruct (Eout q Hq) as [-> ->].
Qed.

Lemma drains (l : list qid) : ∀ s q,
  items (foldl (λ s q, drain_and_close q s) s l) q = if decide (q ∈ l) then [None] else items s q.
Proof.
  induction l as [|q0 l IH]; intros s q; cbn [foldl]; [done|].
  rewrite IH, drain_eq, !items_with_queue.
  destruct (decide (q = q0)) as [->|Hne].
  - rewrite (decide_True (P := q0 ∈ q0 :: l)) by left. by case_decide.
  - assert (q ∈ q0 :: l ↔ q ∈ l) as Hiff by (rewrite elem_of_cons; tauto).
    rewrite (decide_ext _ _ _ _ Hiff). by case_decide.
Qed.

Lemma drains_fresh (l : list qid) : ∀ s, fresh_queue (foldl (λ s q, drain_and_close q s) s l) = fresh_queue s.
Proof. induction l as [|q0 l IH]; intros s; simpl; [done|]. by rewrite IH, drain_eq. Qed.

Lemma ok_step s l : ok s → ok (do_step s l).
Proof.
  intros Hok. pose proof Hok as [Hnd Hk Hc]. destruct l as [|q|text|q|]; simpl.
  - split; simpl.
    + apply NoDup_app. split_and!; [done| |apply NoDup_singleton].
      intros q Hq%Hk. rewrite list_elem_of_singleton. lia.
    + intros q. rewrite elem_of_app, list_elem_of_singleton. intros [Hq%Hk| ->]; lia.
    + intros q. rewrite elem_of_app, list_elem_of_singleton. destruct (decide (q = fresh_queue s)); [by right|].
      rewrite lookup_insert_ne by done. left. by apply Hc.
  - split; simpl.
    + eapply sublist_NoDup; [done | apply remove1_sublist].
    + intros q' Hq. by apply Hk, (sublist_subseteq _ _ (remove1_sublist q (_client_queues s))).
    + intros q'. destruct (decide (q' = q)) as [->|Hne]; [rewrite lookup_delete_eq; by intros [? ?]|].
      rewrite lookup_delete_ne, remove1_other by done. apply Hc.
  - destruct (dead_clients text s Hok) as (-> & E1 & E2 & Ein & Eout & Hd).
    set (s1 := (foldl _ _ _).1) in *.
    destruct (disconnects _ s1 Hd) as (_ & Hcl & Hf & _ & Hcc).
    rewrite E1 in Hcl. destruct (Hcl Hnd) as [H1 H2]. split; [done| |].
    + intros q [Hq _]%H2. rewrite Hf, E2. by apply Hk.
    + intros q. rewrite Hcc. case_decide as Ed; [by intros [? ?]|]. intros Hq. apply H2. split; [|done].
      destruct (decide (q ∈ _client_queues s)) as [|Hn]; [done|].
      destruct (Eout q Hn) as [_ Ec]. rewrite Ec in Hq. by apply Hc.
  - case_match; [|done]. by split.
  - split; simpl; [constructor | by intros q ?%elem_of_nil |].
    intros q. rewrite lookup_empty. by intros [? ?].
Qed.

Lemma remove1_self (q : qid) l : NoDup l → q ∉ remove1 q l.
Proof.
  induction 1 as [|x l Hx Hl IH]; simpl; [set_solver|]. case_decide; [by subst|set_solver].
Qed.

Lemma not_connected_count s q : ok s → q ∉ _client_queues s → _consecutive_queue_full_by_id s !! q = None.
Proof.
  intros [_ _ Hc] Hq. destruct (_ !! q) eqn:E; [|done]. exfalso. by apply Hq, Hc.
Qed.

Lemma view_step s q l : ok s → q < fresh_queue s → view (do_step s l) q = client_step q (view s q) l.
Proof.
  intros Hok Hq. destruct l as [|q'|text|q'|]; [| |by apply view_broadcast| |]; unfold view; simpl.
  - unfold items. simpl. rewrite !lookup_insert_ne by lia. f_equal. apply bool_decide_ext.
    rewrite elem_of_app, list_elem_of_singleton. naive_solver lia.
  - destruct (decide (q' = q)) as [->|E];
      [rewrite (bool_decide_eq_true_2 (q = q)) by done | rewrite (bool_decide_eq_false_2 (q' = q)) by done].
    + rewrite lookup_delete_eq. f_equal. by apply bool_decide_eq_false_2, remove1_self, Hok.
    + rewrite lookup_delete_ne by done. f_equal. apply bool_decide_ext. by apply remove1_other.
  - destruct (decide (q' = q)) as [->|E];
      [rewrite (bool_decide_eq_true_2 (q = q)) by done | rewrite (bool_decide_eq_false_2 (q' = q)) by done].
    + rewrite (proj2 (Nat.ltb_lt q (fresh_queue s))) by done. by rewrite items_with_queue, decide_True.
    + case_match; [|done]. by rewrite items_with_queue, decide_False.
  - rewrite lookup_empty. unfold items. simpl.
    fold (items (foldl (λ s q, drain_and_close q s) s (_client_queues s)) q). rewrite drains.
    case_bool_decide as E; [by rewrite decide_True|].
    by rewrite decide_False, not_connected_count.
Qed.

Lemma run_ok t : ∀ s, ok s → ok (run t s).
Proof. induction t as [|l t IH]; intros s Hs; simpl; [done|]. by apply IH, ok_step. Qed.

Lemma ok_new : ok new_broadcaster.
Proof.
  split; simpl; [constructor | by intros q ?%elem_of_nil |].
  intros q. rewrite lookup_empty. by intros [? ?].
Qed.

Lemma fresh_mono s l : ok s → fresh_queue s <= fresh_queue (do_step s l).
Proof.
  intros Hok. destruct l as [|q|text|q|]; simpl; try lia.
  - destruct (dead_clients text s Hok) as (-> & E1 & E2 & _ & _ & Hd).
    destruct (disconnects _ (foldl (offer text) (s, []) (_client_queues s)).1 Hd) as (_ & _ & -> & _). lia.
  - case_match; simpl; lia.
  - by rewrite drains_fresh.
Qed.

Lemma view_run t : ∀ s q, ok s → q < fresh_queue s → view (run t s) q = foldl (client_step q) (view s q) t.
Proof.
  induction t as [|l t IH]; intros s q Hok Hq; cbn [foldl run]; [done|].
  change (view (run t (do_step s l)) q = foldl (client_step q) (client_step q (view s q) l) t).
  rewrite IH; [by rewrite view_step | by apply ok_step | pose proof (fresh_mono s l Hok); lia].
Qed.

Definition joined : client := {| connected := true; held := []; fulls := 0 |}.

Lemma view_registered t1 t2 :
  let q := fresh_queue (run t1 new_broadcaster) in
  view (run (t1 ++ Register :: t2) new_broadcaster) q = foldl (client_step q) joined t2.
Proof.
  intros q. unfold run. rewrite foldl_app. fold (run t1 new_broadcaster).
  pose proof (run_ok t1 _ ok_new) as Hok. set (s1 := run t1 new_broadcaster) in *.
  cbn [foldl]. fold (run t2 (do_step s1 Register)).
  rewrite view_run; [|by apply ok_step | simpl; unfold q; lia]. f_equal.
  unfold view, joined, items. simpl. unfold q. rewrite !lookup_insert_eq. f_equal.
  apply bool_decide_eq_true_2. rewrite elem_of_app. right. by apply list_elem_of_singleton.
Qed.

(** The broadcaster treats every client as if it were alone: whatever the
    other clients do, a client's queue, its count of full broadcasts and its
    connection evolve as [client_step] says. *)
Theorem clients_independent t1 t2 q :
  q < fresh_queue (run t1 new_broadcaster) →
  view (run (t1 ++ t2) new_broadcaster) q = foldl (client_step q) (view (run t1 new_broadcaster) q) t2.
Proof.
  intros Hq. unfold run. rewrite foldl_app. apply view_run; [|done]. apply run_ok, ok_new.
Qed.

(** *** One client *)

(** Broadcasts since the client last took a message. *)
Definition since_get (q : qid) (t : list step) : nat :=
  foldl (λ n l, match l with
    | Broadcast _ => n + 1
    | Get q' => if (q' =? q)%py then 0 else n
    | _ => n
    end) 0 t.

(** What the client has taken, along a run. *)
Fixpoint reads (q : qid) (c : client) (t : list step) : list (option pystr) :=
  match t with
  | [] => []
  | l :: t' =>
      (match l with Get q' => if (q' =? q)%py then take 1 (held c) else [] | _ => [] end)
      ++ reads q (client_step q c l) t'
  end.

Definition texts (t : list step) : list pystr :=
  flat_map (λ l, match l with Broadcast text => [text] | _ => [] end) t.

Definition stays (q : qid) (l : step) : Prop := l ≠ Shutdown ∧ l ≠ Unregister q.

Definition since_get_step (q : qid) (n : nat) (l : step) : nat :=
  match l with
  | Broadcast _ => n + 1
  | Get q' => if (q' =? q)%py then 0 else n
  | _ => n
  end.

(** The client is connected, its queue within bounds, and full for at most the
    [n] broadcasts since it last took a message. *)
Definition healthy (n : nat) (c : client) : Prop :=
  connected c = true ∧ length (held c) <= _CLIENT_QUEUE_MAX_SIZE
  ∧ (length (held c) = _CLIENT_QUEUE_MAX_SIZE → fulls c <= n).

Lemma healthy_step q n c l :
  stays q l → healthy n c → since_get_step q n l < _MAX_CONSECUTIVE_QUEUE_FULL →
  healthy (since_get_step q n l) (client_step q c l)
  ∧ (match l with Get q' => if (q' =? q)%py then take 1 (held c) else [] | _ => [] end) ++ held (client_step q c l)
      `sublist_of` held c ++ map Some (texts [l]).
Proof.
  unfold healthy, client_step, since_get_step.
  assert (0 < _CLIENT_QUEUE_MAX_SIZE) as HN by (unfold _CLIENT_QUEUE_MAX_SIZE; lia).
  revert HN. generalize _CLIENT_QUEUE_MAX_SIZE as N.
  generalize _MAX_CONSECUTIVE_QUEUE_FULL as K. intros K N HN [Hs Hu] (Hc & Hl & Hf) Hn.
  destruct l as [|q'|text|q'|]; cbn [texts flat_map app map]; rewrite ?app_nil_r; try done.
  - by rewrite bool_decide_eq_false_2 by congruence.
  - rewrite Hc. cbn [negb]. destruct (Nat.ltb_spec (length (held c)) N) as [Hlt|Hge].
    + cbn [connected held fulls]. rewrite length_app. simpl. split_and!; [done|lia..|done].
    + destruct (Nat.leb_spec K (fulls c + 1)); cbn [connected held fulls].
      * specialize (Hf ltac:(lia)). lia.
      * split_and!; [done|lia| |by apply sublist_inserts_r]. intros E. specialize (Hf E). lia.
  - case_bool_decide; [|done]. cbn [connected held fulls]. rewrite length_tl.
    split_and!; [done|lia| |by destruct (held c)]. intros E. lia.
Qed.

(** The number of broadcasts since the last [Get q], at every point of a run. *)
Fixpoint always_reads (q : qid) (n : nat) (t : list step) : Prop :=
  match t with
  | [] => True
  | l :: t' => since_get_step q n l < _MAX_CONSECUTIVE_QUEUE_FULL ∧ always_reads q (since_get_step q n l) t'
  end.

Lemma healthy_run q t : ∀ n c,
  Forall (stays q) t → healthy n c → always_reads q n t →
  connected (foldl (client_step q) c t) = true
  ∧ length (held (foldl (client_step q) c t)) <= _CLIENT_QUEUE_MAX_SIZE
  ∧ reads q c t ++ held (foldl (client_step q) c t) `sublist_of` held c ++ map Some (texts t).
Proof.
  induction t as [|l t IH]; intros n c Ht Hc Hn; cbn [foldl reads].
  - destruct Hc as (H1 & H2 & _). split_and!; try done. simpl. by rewrite app_nil_r.
  - apply Forall_cons in Ht as [Hl Ht]. destruct Hn as [Hn1 Hn].
    destruct (healthy_step q n c l Hl Hc Hn1) as [Hc' Hsub].
    destruct (IH _ _ Ht Hc' Hn) as (H1 & H2 & H3). split_and!; [done..|].
    rewrite <- app_assoc. etrans; [apply sublist_app; [reflexivity|exact H3]|].
    rewrite app_assoc.
    replace (texts (l :: t)) with (texts [l] ++ texts t) by (unfold texts; by rewrite <- flat_map_app).
    rewrite map_app, app_assoc. by apply sublist_app.
Qed.

(** A client whose handler takes at least one message between any fifty
    broadcasts stays connected with a queue within bounds, and what it takes is
    a subsequence, in order, of what was broadcast. *)
Theorem reading_client_stays t1 t2 :
  let q := fresh_queue (run t1 new_broadcaster) in
  let s := run (t1 ++ Register :: t2) new_broadcaster in
  Forall (stays q) t2 → always_reads q 0 t2 →
  q ∈ _client_queues s ∧ length (items s q) <= _CLIENT_QUEUE_MAX_SIZE
  ∧ reads q joined t2 ++ items s q `sublist_of` map Some (texts t2).
Proof.
  intros q s Ht Hn. pose proof (view_registered t1 t2) as Ev. cbv zeta in Ev. fold q s in Ev.
  destruct (healthy_run q t2 0 joined Ht) as (H1 & H2 & H3).
  - unfold healthy, joined. simpl. split_and!; [done|lia|lia].
  - done.
  - rewrite <- Ev in H1, H2, H3. split_and!; [by apply bool_decide_eq_true in H1 | exact H2 | exact H3].
Qed.

(** A client that is full and takes nothing is given up at the fiftieth
    broadcast, no sooner; its queue then holds only the end marker. *)
Theorem stalled_client_evicted q c msgs :
  connected c = true → length (held c) = _CLIENT_QUEUE_MAX_SIZE → fulls c = 0 →
  foldl (client_step q) c (map Broadcast msgs)
  = if (_MAX_CONSECUTIVE_QUEUE_FULL <=? length msgs)%nat then closed
    else {| connected := true; held := held c; fulls := length msgs |}.
Proof.
  intros Hc Hl Hf.
  assert (∀ ms, foldl (client_step q) closed (map Broadcast ms) = closed) as Hclosed.
  { intros ms. induction ms as [|m ms IH]; [done|]. exact IH. }
  assert (0 < _MAX_CONSECUTIVE_QUEUE_FULL) as HK by (unfold _MAX_CONSECUTIVE_QUEUE_FULL; lia).
  assert (∀ ms k, k < _MAX_CONSECUTIVE_QUEUE_FULL →
    foldl (client_step q) {| connected := true; held := held c; fulls := k |} (map Broadcast ms)
    = if (_MAX_CONSECUTIVE_QUEUE_FULL <=? k + length ms)%nat then closed
      else {| connected := true; held := held c; fulls := k + length ms |}) as Hgo.
  { unfold client_step in *. revert HK Hclosed Hl. generalize _MAX_CONSECUTIVE_QUEUE_FULL as K.
    generalize _CLIENT_QUEUE_MAX_SIZE as N. intros N K HK Hclosed Hl ms.
    induction ms as [|m ms IH]; intros k Hk; cbn [map foldl length].
    - rewrite Nat.add_0_r. by destruct (Nat.leb_spec K k); [lia|].
    - cbn [connected held fulls negb]. rewrite Hl, Nat.ltb_irrefl.
      destruct (Nat.leb_spec K (k + 1)) as [H1|H1].
      + rewrite Hclosed. by destruct (Nat.leb_spec K (k + S (length ms))); [|lia].
      + rewrite IH by lia. by replace (k + 1 + length ms) with (k + S (length ms)) by lia. }
  specialize (Hgo msgs 0 HK). rewrite Nat.add_0_l in Hgo. rewrite <- Hgo. f_equal.
  destruct c as [b h f]; cbn in Hc, Hf |- *; congruence.
Qed.

(** A full queue keeps what it holds: the message that does not fit, the
    newest, is the one dropped. *)
Theorem full_queue_drops_newest q c text :
  connected c = true → length (held c) = _CLIENT_QUEUE_MAX_SIZE →
  fulls c + 1 < _MAX_CONSECUTIVE_QUEUE_FULL →
  held (client_step q c (Broadcast text)) = held c.
Proof.
  unfold client_step. generalize _CLIENT_QUEUE_MAX_SIZE as N.
  generalize _MAX_CONSECUTIVE_QUEUE_FULL as K. intros K N -> -> Hf. cbn [negb].
  rewrite Nat.ltb_irrefl. by destruct (Nat.leb_spec K (fulls c + 1)); [lia|].
Qed.

(** ** A concrete run: two clients, one of which reads *)
Module WsDemo.
Definition before : list step := [Register; Broadcast "m0"].
Definition after : list step := [Broadcast "m1"; Get 1; Broadcast "m2"; Get 0].
End WsDemo.

Lemma clients_independent_witness :
  view (run (WsDemo.before ++ Register :: WsDemo.after) new_broadcaster) 0
  = {| connected := true; held := [Some (u "m1"); Some (u "m2")]; fulls := 0 |}.
Proof.
  rewrite (clients_independent WsDemo.before (Register :: WsDemo.after) 0); [reflexivity|].
  vm_compute. lia.
Defined.

Lemma reading_client_witness :
  reads 1 joined WsDemo.after ++ items (run (WsDemo.before ++ Register :: WsDemo.after) new_broadcaster) 1
    `sublist_of` [Some (u "m1"); Some (u "m2")].
Proof.
  apply (reading_client_stays WsDemo.before WsDemo.after).
  - repeat constructor; discriminate.
  - repeat split; vm_compute; lia.
Defined.

Lemma stalled_client_witness :
  foldl (client_step 0) {| connected := true; held := replicate 1000 None; fulls := 0 |}
    (map Broadcast (replicate 49 (u "m")))
  = {| connected := true; held := replicate 1000 None; fulls := 49 |}.
Proof.
  rewrite (stalled_client_evicted 0 {| connected := true; held := replicate 1000 None; fulls := 0 |}
    (replicate 49 (u "m")) eq_refl ltac:(apply length_replicate) eq_refl). reflexivity.
Defined.
