(* ===== verification/LayoutOps.v ===== *)
(** * Workspace layout: queries and the mutex

    [layout_ops.py]: the operation sets of the layout endpoint, the advisory
    mutex with its time-to-live, the refs of dockview panels, and the two
    read-only queries [layout_inspect] and [layout_list] over the saved
    [layout.json].  The saved file is a [stored] value: absent (or no path),
    unreadable, or bytes. *)

From Stdlib Require Import NArith ZArith QArith Qround Lqa Lia.
From S2P Require Import Prelude PyStr PyJson PyMonad PyKeyed PyBytes PySha PyUrl.
From stdpp Require Import options.
#[global] Open Scope nat_scope.
#[local] Open Scope py_scope.

(** ** Operations *)

Definition _MUTATING_OPS : list pystr :=
  map u ["open"; "focus"; "split"; "close"; "move"; "rename"; "maximize"; "restore"; "replace-url"]%string.
Definition _BROADCASTING_OPS : list pystr :=
  map u ["open"; "focus"; "split"; "close"; "move"; "rename"; "maximize"; "restore"; "replace-url";
         "refresh"; "reload_system_interface"]%string.
Definition _KNOWN_OPS : list pystr :=
  map u ["list"; "inspect"; "open"; "focus"; "split"; "close"; "move"; "rename"; "maximize"; "restore";
         "replace-url"; "refresh"; "reload_system_interface"]%string.
Definition _HIDDEN_SERVICES : list pystr := [u "system_interface"].
Definition _TERMINAL_SERVICE_URL_PATH : pystr := u "/service/terminal/".

Definition is_known_op (op : pystr) : bool := op ∈? _KNOWN_OPS.
Definition is_mutating_op (op : pystr) : bool := op ∈? _MUTATING_OPS.
Definition is_broadcasting_op (op : pystr) : bool := op ∈? _BROADCASTING_OPS.

(** ** The mutex *)

Definition _MUTEX_TTL_SECONDS : Q := 1 # 2.

Record holder := {
  h_agent_id : json;
  h_op : pystr;
  h_args : dict;
  started_at_monotonic : Q;
  started_at_wall : Q;
}.
Abbreviation LayoutMutex := (option holder).

(** What a refused request is told. *)
Definition describe (h : holder) : dict :=
  [(u "agent_id", h_agent_id h); (u "operation", JStr (h_op h)); (u "args", JObj (h_args h));
   (u "started_at", JFloat (started_at_wall h))].

Definition try_acquire (ttl : Q) (agent_id : json) (op : pystr) (args : dict) (now wall : Q)
    (m : LayoutMutex) : option dict * LayoutMutex :=
  let fresh := Some {| h_agent_id := agent_id; h_op := op; h_args := args;
                       started_at_monotonic := now; started_at_wall := wall |} in
  match m with
  | Some h => if Qltb (now - started_at_monotonic h) ttl then (Some (describe h), m) else (None, fresh)
  | None => (None, fresh)
  end.

Definition release (agent_id : json) (op : pystr) (m : LayoutMutex) : LayoutMutex :=
  match m with
  | Some h => if py_eqb (h_agent_id h) agent_id && (h_op h =? op) then None else m
  | None => None
  end.

Definition retry_after_ms (ttl : Q) : Z := Qfloor (ttl * 1000).

(** ** Refs *)

Section refs.
Context `{JsonRepr} `{NetlocCheck}.

Definition _short_hash (panel_id : pystr) : outcome pystr :=
  b ← encode_utf8 panel_id; Ret (take 8 (hexdigest b)).
(** [_short_hash(v)] of a value read from JSON *)
Definition short_hash_of (v : json) : outcome pystr :=
  match v with JStr s => _short_hash s | _ => Raise AttributeError end.

(** [uuid4_hex] is the random part. *)
Definition allocate_terminal_panel_id (uuid4_hex : pystr) : outcome (pystr * pystr) :=
  let panel_id := u "iframe-terminal-" ++ uuid4_hex in
  h ← _short_hash panel_id; Ret (panel_id, u "terminal:" ++ h).

Definition _extract_agent_terminal_name (url : pystr) : outcome (option pystr) :=
  pq ← url_path_query url;
  if pq.1 <>? _TERMINAL_SERVICE_URL_PATH then Ret None
  else match qs_values (u "arg") pq.2 with
       | [a; b; name] =>
           if (a <>? u "_") || (b <>? u "agent") then Ret None
           else Ret (if name =? [] then None else Some name)
       | _ => Ret None
       end.

(** The dictionary [{a["id"]: a["name"] for a in agents}]. *)
Abbreviation agent_names := (list (pystr * pystr)).
Definition agent_name (agent_name_by_id : agent_names) (chat_agent_id : json) : outcome json :=
  let key := jor chat_agent_id (JStr []) in
  hashable key;;
  Ret (match key with
       | JStr s => default key (JStr <$> dget s agent_name_by_id)
       | _ => key
       end).

Definition url_hash (panel_id : pystr) : outcome pystr :=
  h ← _short_hash panel_id; Ret (u "url:" ++ h).

(** The ref of an iframe panel whose url is a string. *)
Definition iframe_ref (panel_id url : pystr) : outcome pystr :=
  agent_terminal_name ← _extract_agent_terminal_name url;
  match agent_terminal_name with
  | Some name => Ret (u "chat-terminal:" ++ name)
  | None =>
      if startswith _TERMINAL_SERVICE_URL_PATH url
      then h ← _short_hash panel_id; Ret (u "terminal:" ++ h)
      else url_hash panel_id
  end.

Definition panel_ref (panel_id : pystr) (params : dict) (agent_name_by_id : agent_names) : outcome pystr :=
  let panel_type := jget "panelType" params in
  if jeqs panel_type "chat" then
    name ← agent_name agent_name_by_id (jget "chatAgentId" params);
    if truthy name then Ret (u "chat:" ++ json_str name) else url_hash panel_id
  else if jeqs panel_type "subagent" then
    let sid := jget "subagentSessionId" params in
    if truthy sid then Ret (u "subagent:" ++ json_str sid)
    else h ← _short_hash panel_id; Ret (u "subagent:" ++ h)
  else if jeqs panel_type "iframe" then
    let service_name := jget "serviceName" params in
    if truthy service_name then Ret (u "service:" ++ json_str service_name)
    else match jget "url" params with
         | JStr url => iframe_ref panel_id url
         | _ => url_hash panel_id
         end
  else url_hash panel_id.

Definition _resolve_ref (panel_id : pystr) (params : json) (agent_name_by_id : agent_names) : outcome dict :=
  params ← need_dict (or_empty params);
  let panel_type := jget "panelType" params in
  ref ← panel_ref panel_id params agent_name_by_id;
  let summary := [(u "ref", JStr ref); (u "panel_id", JStr panel_id); (u "panel_type", panel_type);
                  (u "service_name", jget "serviceName" params); (u "title", jget "title" params)] in
  Ret (match jget "url" params with
       | JStr url => if jeqs panel_type "iframe" then dset (u "url") (JStr url) summary else summary
       | _ => summary
       end).

(** ** The grid *)

Definition _orthogonal_orientation (orientation : json) : json :=
  if jeqs orientation "HORIZONTAL" then JStr (u "VERTICAL") else JStr (u "HORIZONTAL").

Abbreviation summaries := (list (pystr * dict)).

Definition leaf_panel (panel_summaries : summaries) (panels_meta : dict) (active_view panel_id : json)
    : outcome json :=
  h ← short_hash_of panel_id;
  id ← need_str panel_id;
  let summary := default [(u "ref", JStr (u "url:" ++ h)); (u "panel_id", panel_id)] (dget id panel_summaries) in
  summary ← (if truthy (jget "title" summary) then Ret summary
             else title ← get "title" (jget_or id (JObj []) panels_meta);
                  Ret (dset (u "title") title summary));
  Ret (JObj (dset (u "active") (JBool (py_eqb panel_id active_view)) summary)).

Definition serialize_leaf (panel_summaries : summaries) (panels_meta : dict) (node : dict) : outcome json :=
  data ← need_dict (jor (jget_or "data" (JObj []) node) (JObj []));
  view_ids ← iter_json (jor (jget_or "views" (JList []) data) (JList []));
  panels ← mapO (leaf_panel panel_summaries panels_meta (jget "activeView" data)) view_ids;
  Ret (JObj [(u "type", JStr (u "leaf")); (u "size_ratio", jget "size" data); (u "panels", JList panels)]).

Definition branch (orientation size : json) (children : list json) : json :=
  JObj [(u "type", JStr (u "branch"));
        (u "arrangement", JStr (if jeqs orientation "HORIZONTAL" then u "row" else u "column"));
        (u "size_ratio", size); (u "children", JList children)].

(** [for child in v] where no element of [v] has children of its own:
    iterating raises, or the first element is not a dictionary. *)
Definition no_children (v : json) : outcome (list json) :=
  if truthy v then iter_json v;; Raise AttributeError else Ret [].

Fixpoint _serialize_grid_node (panel_summaries : summaries) (panels_meta : dict) (orientation : json)
    (node : json) {struct node} : outcome json :=
  match node with
  | JObj d =>
      if jeqs (jget "type" d) "leaf" then serialize_leaf panel_summaries panels_meta d
      else
        children ←
          (fix data d := match d with
           | [] => Ret []
           | (k, v) :: d' =>
               if u "data" =? k then
                 match v with
                 | JList l =>
                     (fix each l := match l with
                      | [] => Ret []
                      | child :: l' =>
                          c ← _serialize_grid_node panel_summaries panels_meta
                                (_orthogonal_orientation orientation) child;
                          cs ← each l'; Ret (c :: cs)
                      end) l
                 | v => no_children v
                 end
               else data d'
           end) d;
        Ret (branch orientation (jget "size" d) children)
  | _ => Raise AttributeError
  end.

(** ** Queries *)

Inductive stored := Absent | Unreadable | Stored (b : bytes).

(** [JNull] for None; a text that is not JSON counts as no layout. *)
Definition _read_layout (file : stored) : outcome json :=
  match file with
  | Absent | Unreadable => Ret JNull
  | Stored b => t ← decode_text b; Ret (default JNull (loads t))
  end.

Definition summary_of (panel_params : json) (panels_meta : dict) (agent_name_by_id : agent_names)
    (panel_id : pystr) : outcome dict :=
  params ← get panel_id panel_params;
  summary ← _resolve_ref panel_id params agent_name_by_id;
  if truthy (jget "title" summary) then Ret summary
  else title ← get "title" (jget_or panel_id (JObj []) panels_meta);
       Ret (dset (u "title") title summary).

Definition _build_panel_summaries (raw : json) (agent_name_by_id : agent_names) : outcome (summaries * dict) :=
  panel_params ← get_default (u "panelParams") (JObj []) raw;
  let panel_params := or_empty panel_params in
  dockview ← get_default (u "dockview") (JObj []) raw;
  panels ← get_default (u "panels") (JObj []) (or_empty dockview);
  panels_meta ← need_dict (or_empty panels);
  l ← mapO (λ panel_id, s ← summary_of panel_params panels_meta agent_name_by_id panel_id; Ret (panel_id, s))
           (dkeys panels_meta);
  Ret (l, panels_meta).

Definition empty_layout : dict :=
  [(u "active_panel", JNull); (u "panels", JList []); (u "tree", JNull)].

Definition layout_inspect (file : stored) (agent_name_by_id : agent_names) : outcome dict :=
  raw ← _read_layout file;
  match raw with
  | JNull => Ret empty_layout
  | _ =>
      sm ← _build_panel_summaries raw agent_name_by_id;
      let flat_panels := map (λ s, JObj (ddel (u "panel_id") s.2)) sm.1 in
      dockview ← get_default (u "dockview") (JObj []) raw;
      let dockview := or_empty dockview in
      grid ← get_default (u "grid") (JObj []) dockview;
      let grid := or_empty grid in
      root ← get "root" grid;
      orientation ← get "orientation" grid;
      let root_orientation := jor orientation (JStr (u "HORIZONTAL")) in
      tree ← (if truthy root then _serialize_grid_node sm.1 sm.2 root_orientation root else Ret JNull);
      active ← get "activeGroup" dockview;
      Ret [(u "active_panel", active); (u "panels", JList flat_panels); (u "tree", tree)]
  end.

Definition _collect_open_refs (file : stored) (agent_name_by_id : agent_names) : outcome (list json) :=
  raw ← _read_layout file;
  match raw with
  | JNull => Ret []
  | _ => sm ← _build_panel_summaries raw agent_name_by_id;
         mapO (λ s, getitem (u "ref") s.2) sm.1
  end.

Definition entry (ref kind : pystr) (display_name : json) (is_open is_running : bool) : dict :=
  [(u "ref", JStr ref); (u "kind", JStr kind); (u "display_name", display_name);
   (u "is_open", JBool is_open); (u "is_running", JBool is_running)].

Definition in_refs (ref : pystr) (open_refs : list json) : bool := existsb (py_eqb (JStr ref)) open_refs.

Definition service_entries (open_refs : list json) (service_name : pystr) : list dict :=
  if service_name ∈? _HIDDEN_SERVICES then []
  else let ref := u "service:" ++ service_name in
       [entry ref "service" (JStr service_name) (in_refs ref open_refs) true].

Definition agent_entries (open_refs : list json) (agent : dict) : list dict :=
  let name := jor (jor (jget "name" agent) (jget "id" agent)) (JStr []) in
  let ref := u "chat:" ++ json_str name in
  let is_running := jeqs (jget_or "state" (JStr []) agent) "running" in
  let terminal_ref := u "chat-terminal:" ++ json_str name in
  [entry ref "agent" name (in_refs ref open_refs) is_running;
   entry terminal_ref "agent-terminal" (JStr (json_str name ++ u " terminal")) (in_refs terminal_ref open_refs) is_running].

Definition layout_list (service_names : list pystr) (agents : list dict) (file : stored)
    (agent_name_by_id : agent_names) : outcome (list dict) :=
  open_refs ← _collect_open_refs file agent_name_by_id;
  Ret (concat (map (service_entries open_refs) service_names) ++ concat (map (agent_entries open_refs) agents)).
End refs.

(** ** The operation sets *)

Lemma ops_nested op :
  (is_mutating_op op = true → is_broadcasting_op op = true) ∧
  (is_broadcasting_op op = true → is_known_op op = true).
Proof.
  unfold is_mutating_op, is_broadcasting_op, is_known_op. rewrite !bool_decide_eq_true.
  unfold _MUTATING_OPS, _BROADCASTING_OPS, _KNOWN_OPS. cbn [map]. set_solver.
Qed.

(** Only the two queries are answered without a broadcast. *)
Lemma known_op_cases op :
  is_known_op op = true → op = u "list" ∨ op = u "inspect" ∨ is_broadcasting_op op = true.
Proof.
  unfold is_broadcasting_op, is_known_op. rewrite !bool_decide_eq_true.
  unfold _BROADCASTING_OPS, _KNOWN_OPS. cbn [map]. set_solver.
Qed.

(** ** The mutex *)

Inductive mutex_step :=
  | Acquire (agent_id : json) (op : pystr) (args : dict) (now wall : Q)
  | Release (agent_id : json) (op : pystr).

Definition mutex_do (ttl : Q) (m : LayoutMutex) (l : mutex_step) : LayoutMutex :=
  match l with
  | Acquire a op args now wall => (try_acquire ttl a op args now wall m).2
  | Release a op => release a op m
  end.
Definition mutex_run (ttl : Q) (t : list mutex_step) (m : LayoutMutex) : LayoutMutex := foldl (mutex_do ttl) m t.

(** A step of another request, within the holder's time window. *)
Definition leaves_alone (h : holder) (ttl : Q) (l : mutex_step) : Prop :=
  match l with
  | Acquire _ _ _ now _ => (now < started_at_monotonic h + ttl)%Q
  | Release a op => py_eqb (h_agent_id h) a && (h_op h =? op) = false
  end.

Lemma young_iff h ttl now :
  Qltb (now - started_at_monotonic h) ttl = true ↔ (now < started_at_monotonic h + ttl)%Q.
Proof. rewrite Qltb_lt. split; intros ?; lra. Qed.

Lemma mutex_held ttl h t : Forall (leaves_alone h ttl) t → mutex_run ttl t (Some h) = Some h.
Proof.
  induction 1 as [|l t Hl _ IH]; [done|]. unfold mutex_run. cbn [foldl].
  assert (mutex_do ttl (Some h) l = Some h) as ->; [|done].
  destruct l as [a op args now wall|a op]; simpl in Hl |- *; [|by rewrite Hl].
  by apply young_iff in Hl as ->.
Qed.


(** A request that outlives its time-to-live and then releases frees the slot
    of a later request of the same agent and operation. *)
Lemma stale_release_frees :
  let a := JStr (u "agent") in
  let m2 := mutex_run _MUTEX_TTL_SECONDS
              [Acquire a (u "move") [] 0 0; Acquire a (u "move") [] 1 1; Release a (u "move")] None in
  (∃ h, mutex_run _MUTEX_TTL_SECONDS [Acquire a (u "move") [] 0 0; Acquire a (u "move") [] 1 1] None = Some h ∧
        started_at_monotonic h = 1%Q) ∧
  (try_acquire _MUTEX_TTL_SECONDS (JStr (u "other")) (u "close") [] (11 # 10) 1 m2).1 = None.
Proof. split; [eexists; split; vm_compute; reflexivity | by vm_compute]. Qed.


(** ** Refs *)

Definition ref_kinds : list pystr :=
  map u ["service:"; "chat-terminal:"; "chat:"; "terminal:"; "url:"; "subagent:"]%string.
(** The refs the layout queries produce: a kind, then a name, which is a hash
    for a panel known by its url. *)
Definition typed_ref (ref : pystr) : Prop := ∃ kind name,
  kind ∈ ref_kinds ∧ name ≠ [] ∧ (kind = u "url:" → Forall (λ c, is_hex c = true) name) ∧ ref = kind ++ name.

Section ref_facts.
Context `{JsonRepr} `{NetlocCheck}.

Lemma short_hash_shape id h : _short_hash id = Ret h → length h = 8 ∧ Forall (λ c, is_hex c = true) h.
Proof.
  unfold _short_hash. intros Hh. inv_Ret Hh. injection Hh as <-.
  destruct (hexdigest_shape a) as [Hl Hf]. split.
  - rewrite length_take, Hl. done.
  - by apply Forall_take.
Qed.

Lemma short_hash_nonempty id h : _short_hash id = Ret h → h ≠ [].
Proof. intros [Hl _]%short_hash_shape ->. done. Qed.

Lemma typed kind name : kind ∈ ref_kinds → kind ≠ u "url:" → name ≠ [] → typed_ref (kind ++ name).
Proof. intros Hk Hu Hn. by exists kind, name. Qed.

Lemma hash_typed id h : _short_hash id = Ret h → typed_ref (u "url:" ++ h).
Proof.
  intros Hh. exists (u "url:"), h. split; [by apply (bool_decide_unpack _); vm_compute|].
  split; [by eapply short_hash_nonempty|]. split; [|done]. intros _. by eapply short_hash_shape.
Qed.

Lemma url_hash_typed id ref : url_hash id = Ret ref → typed_ref ref.
Proof. unfold url_hash. intros Hr. inv_Ret Hr. injection Hr as <-. by eapply hash_typed. Qed.

Lemma agent_terminal_nonempty url name : _extract_agent_terminal_name url = Ret (Some name) → name ≠ [].
Proof.
  unfold _extract_agent_terminal_name. intros Hn. inv_Ret Hn.
  repeat case_match; simplify_eq; by py_bool.
Qed.

Lemma iframe_ref_typed id url ref : iframe_ref id url = Ret ref → typed_ref ref.
Proof.
  unfold iframe_ref. intros Hr. inv_Ret Hr. destruct a as [name|].
  - injection Hr as <-.
    apply typed; [by apply (bool_decide_unpack _); vm_compute | done | by eapply agent_terminal_nonempty].
  - case_match; [|by eapply url_hash_typed]. inv_Ret Hr. injection Hr as <-.
    apply typed; [by apply (bool_decide_unpack _); vm_compute | done | by eapply short_hash_nonempty].
Qed.
End ref_facts.

(** [repr] of a truthy value is not empty, and the name of an agent is not. *)
Class ReprLaws `(JsonRepr) := repr_nonempty v : json_repr v ≠ [].

Lemma json_str_nonempty `{ReprLaws} v : truthy v = true → json_str v ≠ [].
Proof.
  intros Ht. destruct v; simpl in *; try apply repr_nonempty. by destruct s.
Qed.

Section typed_refs.
Context `{ReprLaws} `{NetlocCheck}.

Lemma panel_ref_typed id params names ref : panel_ref id params names = Ret ref → typed_ref ref.
Proof using Type*.
  unfold panel_ref. intros Hr.
  destruct (jeqs _ _); [|destruct (jeqs _ _); [|destruct (jeqs _ _); [|by eapply url_hash_typed]]].
  - inv_Ret Hr. destruct (truthy a) eqn:Ht; [|by eapply url_hash_typed]. injection Hr as <-.
    apply typed; [by apply (bool_decide_unpack _); vm_compute | done | by apply json_str_nonempty].
  - destruct (truthy _) eqn:Ht.
    + injection Hr as <-.
      apply typed; [by apply (bool_decide_unpack _); vm_compute | done | by apply json_str_nonempty].
    + inv_Ret Hr. injection Hr as <-.
      apply typed; [by apply (bool_decide_unpack _); vm_compute | done | by eapply short_hash_nonempty].
  - destruct (truthy _) eqn:Ht.
    + injection Hr as <-.
      apply typed; [by apply (bool_decide_unpack _); vm_compute | done | by apply json_str_nonempty].
    + destruct (jget "url" params); try (by eapply url_hash_typed). by eapply iframe_ref_typed.
Qed.

(** What every summary of a panel carries. *)
Definition summary_ok (id : pystr) (s : dict) : Prop :=
  NoDup (dkeys s) ∧
  dget (u "panel_id") s = Some (JStr id) ∧ ∃ ref, dget (u "ref") s = Some (JStr ref) ∧ typed_ref ref.

Lemma summary_ok_dset id s k v :
  k ≠ u "panel_id" → k ≠ u "ref" → summary_ok id s → summary_ok id (dset k v s).
Proof.
  intros Hp Hr (Hn & Hid & ref & Hg & Ht). split; [by apply dset_NoDup|].
  split; [by rewrite dget_dset_ne|]. exists ref. by rewrite dget_dset_ne.
Qed.

Lemma resolve_ref_ok id params names s : _resolve_ref id params names = Ret s → summary_ok id s.
Proof using Type*.
  unfold _resolve_ref. intros Hs. inv_Ret Hs. apply panel_ref_typed in E0.
  set (base := [_; _; _; _; _]) in Hs.
  assert (summary_ok id base) as Hb.
  { split; [by apply (bool_decide_unpack _); vm_compute|].
    split; [by vm_compute|]. exists a0. split; [by vm_compute|done]. }
  clearbody base. repeat case_match; injection Hs as <-; try done.
  apply summary_ok_dset; [done..|]. done.
Qed.

Lemma summary_of_ok pp pm names id s : summary_of pp pm names id = Ret s → summary_ok id s.
Proof using Type*.
  unfold summary_of. intros Hs. inv_Ret Hs. apply resolve_ref_ok in E0.
  destruct (truthy _); [by simplify_eq|]. inv_Ret Hs. injection Hs as <-.
  by apply summary_ok_dset.
Qed.

Lemma build_summaries_ok raw names ss pm :
  _build_panel_summaries raw names = Ret (ss, pm) →
  map fst ss = dkeys pm ∧ Forall (λ p, summary_ok p.1 p.2) ss.
Proof using Type*.
  unfold _build_panel_summaries. intros Hs. inv_Ret Hs. injection Hs as <- <-.
  apply mapO_Ret in E3. induction E3 as [|id p ids ps Hp _ IH]; [by split|].
  destruct IH as [Hk Hf]. inv_Ret Hp. injection Hp as <-. apply summary_of_ok in E3. split.
  - cbn [map fst]. by rewrite Hk.
  - by constructor.
Qed.
End typed_refs.

(** ** The tree *)

(** Rows and columns alternate from the root down; every panel has a typed ref,
    its id and its active flag. *)
Definition panel_ok (p : json) : Prop :=
  ∃ s ref active, p = JObj s ∧ dget (u "ref") s = Some (JStr ref) ∧ typed_ref ref ∧
    dget (u "active") s = Some (JBool active).
Definition leaf (size : json) (panels : list json) : json :=
  JObj [(u "type", JStr (u "leaf")); (u "size_ratio", size); (u "panels", JList panels)].

Inductive tree_ok : bool → json → Prop :=
  | leaf_ok row size panels : Forall panel_ok panels → tree_ok row (leaf size panels)
  | branch_ok (row : bool) size children :
      Forall (tree_ok (negb row)) children →
      tree_ok row (branch (JStr (if row then u "HORIZONTAL" else u "VERTICAL")) size children).

Section tree.
Context `{JsonRepr}.

Definition data_children (serialize : json → outcome json) (d : dict) : outcome (list json) :=
  match dget (u "data") d with
  | None => Ret []
  | Some (JList l) => mapO serialize l
  | Some v => no_children v
  end.

Lemma serialize_eq ss pm o d :
  _serialize_grid_node ss pm o (JObj d) =
    if jeqs (jget "type" d) "leaf" then serialize_leaf ss pm d
    else children ← data_children (_serialize_grid_node ss pm (_orthogonal_orientation o)) d;
         Ret (branch o (jget "size" d) children).
Proof.
  cbn [_serialize_grid_node]. destruct (jeqs _ _); [done|].
  f_equal. unfold data_children. generalize (_orthogonal_orientation o) as o'. intros o'.
  induction d as [|[k v] d IH]; [done|]. cbn [dget].
  destruct (bool_decide _); [|done]. destruct v as [| | | | | |l|]; try done.
  induction l as [|c l IHl]; [done|]. cbn [mapO]. f_equal.
  apply (f_equal (λ r, r)). by rewrite IHl.
Qed.

Lemma branch_row o size cs :
  branch o size cs = branch (JStr (if jeqs o "HORIZONTAL" then u "HORIZONTAL" else u "VERTICAL")) size cs.
Proof. unfold branch. by destruct (jeqs o "HORIZONTAL"). Qed.

Lemma orthogonal_negb o : jeqs (_orthogonal_orientation o) "HORIZONTAL" = negb (jeqs o "HORIZONTAL").
Proof. unfold _orthogonal_orientation. by destruct (jeqs o "HORIZONTAL"). Qed.

Lemma leaf_panel_ok ss pm active id p :
  Forall (λ q, summary_ok q.1 q.2) ss → leaf_panel ss pm active id = Ret p → panel_ok p.
Proof.
  intros Hss. unfold leaf_panel. intros Hp. inv_Ret Hp. injection Hp as <-.
  destruct id as [| | | | |s| |]; try done. injection E0 as <-.
  set (s0 := default _ _) in E1.
  assert (∃ ref, dget (u "ref") s0 = Some (JStr ref) ∧ typed_ref ref) as (ref & Hr & Ht).
  { subst s0. destruct (dget s ss) as [s1|] eqn:Eg; cbn [default].
    - apply dget_elem in Eg. rewrite Forall_forall in Hss. specialize (Hss _ Eg). by destruct Hss as (_ & _ & ?).
    - exists (u "url:" ++ a). split; [by vm_compute|]. by eapply hash_typed. }
  clearbody s0. eexists _, ref, _. split; [done|].
  split; [|split; [done|by rewrite dget_dset_eq]]. rewrite dget_dset_ne by done.
  destruct (truthy _); [by simplify_eq|]. inv_Ret E1. injection E1 as <-. by rewrite dget_dset_ne.
Qed.

Lemma serialize_ok ss pm node o t :
  Forall (λ q, summary_ok q.1 q.2) ss → _serialize_grid_node ss pm o node = Ret t →
  tree_ok (jeqs o "HORIZONTAL") t.
Proof.
  intros Hss. revert o t. induction node as [v IH] using json_children_ind. intros o t Ht.
  destruct v as [| | | | | | |d]; try done. rewrite serialize_eq in Ht.
  destruct (jeqs (jget "type" d) "leaf").
  - unfold serialize_leaf in Ht. inv_Ret Ht. injection Ht as <-. apply leaf_ok.
    apply mapO_Ret in E1. clear E0. induction E1 as [|id p ids ps Hp _ IHp]; constructor; [|done].
    by eapply leaf_panel_ok.
  - inv_Ret Ht. injection Ht as <-. rewrite branch_row. apply branch_ok.
    unfold data_children in E. destruct (dget (u "data") d) as [v|] eqn:Eg; [|by simplify_eq].
    destruct v as [| | | | | |l|]; try by (unfold no_children in E; destruct (truthy _); inv_Ret E; simplify_eq).
    apply mapO_Ret in E. specialize (IH d (u "data") l).
    assert (∀ c, c ∈ l → ∀ o t, _serialize_grid_node ss pm o c = Ret t → tree_ok (jeqs o "HORIZONTAL") t) as IHl
      by eauto.
    clear IH Eg. induction E as [|c t l ts Hc _ IHt]; constructor.
    + rewrite <- orthogonal_negb. apply (IHl c); [set_solver|done].
    + apply IHt. set_solver.
Qed.
End tree.

(** The orientation saved for the root of the grid. *)
Definition child_dict (k : pystr) (d : dict) : dict := dict_or_empty (jget k d).
Definition root_orientation (raw : json) : json :=
  jor (jget "orientation" (child_dict "grid" (child_dict "dockview" (dict_or_empty raw)))) (JStr (u "HORIZONTAL")).

Lemma get_or_empty k v w : get k (or_empty v) = Ret w → w = jget k (dict_or_empty v).
Proof.
  unfold get, get_default, or_empty, jor. destruct v as [|[]|z|q| |s|[]|[]]; simpl; try naive_solver;
    repeat case_match; naive_solver.
Qed.
Lemma get_default_empty k v w :
  get_default k (JObj []) (or_empty v) = Ret w → dict_or_empty w = child_dict k (dict_or_empty v).
Proof.
  intros Hw. unfold child_dict. destruct (get k (or_empty v)) as [w'|e] eqn:E.
  - apply get_or_empty in E as E'. rewrite <- E'. revert Hw E. unfold get, get_default, jget_or.
    destruct (or_empty v) as [| | | | | | |d]; try done.
    destruct (dget k d); intros [= <-] [= Hw']; unfold jget; by rewrite <- Hw'.
  - revert Hw E. unfold get, get_default. by destruct (or_empty v).
Qed.
Lemma get_default_raw k v w :
  get_default k (JObj []) v = Ret w → dict_or_empty w = child_dict k (dict_or_empty v).
Proof.
  intros Hw. apply get_default_empty. destruct v; try done. by destruct d.
Qed.

(** C22: the tree [layout_inspect] returns is well formed whatever the saved file
    holds: its branches alternate between rows and columns, starting from the
    orientation of the saved grid (a row when none is saved), and each tab of a
    leaf carries a typed ref and a boolean active flag. *)
Theorem inspect_tree_typed `{ReprLaws} `{NetlocCheck} file names lay :
  layout_inspect file names = Ret lay →
  jget "tree" lay = JNull ∨
  ∃ raw, _read_layout file = Ret raw ∧ tree_ok (jeqs (root_orientation raw) "HORIZONTAL") (jget "tree" lay).
Proof.
  unfold layout_inspect. intros Hl. inv_Ret Hl. rename a into raw.
  destruct raw as [| | | | | | |raw]; [injection Hl as <-; by left | by inv_Ret Hl..|].
  inv_Ret Hl. injection Hl as <-. destruct a as [ss pm]. apply build_summaries_ok in E0 as [_ Hss].
  apply get_default_raw in E1. apply get_default_empty in E2. rewrite E1 in E2.
  apply get_or_empty in E4. rewrite E2 in E4. cbn [fst snd] in E5.
  change (jget "tree" _) with a4. destruct (truthy a2); [|injection E5 as <-; by left].
  right. eexists. split; [done|]. apply serialize_ok in E5; [|done]. by rewrite E4 in E5.
Qed.

(** ** The two queries agree *)

(** The refs of the panels [layout_inspect] shows. *)
Definition shown_refs (lay : dict) : list json :=
  map (λ p, jget "ref" (dict_or_empty p)) (list_or_empty (jget "panels" lay)).

(** What [layout_list] addresses: each visible service, then each agent's chat
    and terminal. *)
Definition agent_text `{JsonRepr} (agent : dict) : pystr :=
  json_str (jor (jor (jget "name" agent) (jget "id" agent)) (JStr [])).
Definition addressable `{JsonRepr} (service_names : list pystr) (agents : list dict) : list pystr :=
  map (app (u "service:")) (List.filter (λ s, s ∉? _HIDDEN_SERVICES) service_names) ++
  concat (map (λ a, [u "chat:" ++ agent_text a; u "chat-terminal:" ++ agent_text a]) agents).

Section queries.
Context `{JsonRepr} `{NetlocCheck}.

Lemma in_refs_elem ref refs : in_refs ref refs = existsb (λ v, jeqs v ref) refs.
Proof.
  unfold in_refs. induction refs as [|v refs IH]; [done|]. cbn [existsb]. f_equal; [|done].
  destruct v as [|[]| | | |s| |]; try done. simpl. apply bool_decide_ext. naive_solver.
Qed.

Lemma open_refs_shown file names lay refs :
  layout_inspect file names = Ret lay → _collect_open_refs file names = Ret refs → refs = shown_refs lay.
Proof.
  unfold layout_inspect, _collect_open_refs. intros Hl Hr. inv_Ret Hl. inv_Ret Hr.
  rewrite E in E0. injection E0 as <-.
  destruct a as [| | | | | | |raw]; [by injection Hl as <-; injection Hr as <- | by inv_Ret Hl..|].
  destruct (_build_panel_summaries (JObj raw) names) as [[ss pm]|x]; [|done].
  cbn [mbind outcome_bind fst snd] in Hl, Hr. inv_Ret Hl. injection Hl as <-.
  unfold shown_refs. change (jget "panels" _) with (JList (map (λ s, JObj (ddel (u "panel_id") s.2)) ss)).
  cbn [list_or_empty]. apply mapO_Ret in Hr. rewrite map_map. cbn [dict_or_empty].
  clear -Hr. induction Hr as [|p r ps rs Hp _ IH]; [done|]. cbn [map]. f_equal; [|done].
  unfold getitem in Hp. unfold jget. rewrite dget_ddel_ne by done. by case_match; simplify_eq.
Qed.

Lemma service_entries_refs refs names :
  map (λ e, (jget "ref" e, jget "is_open" e)) (concat (map (service_entries refs) names)) =
  map (λ r, (JStr r, JBool (existsb (λ v, jeqs v r) refs)))
      (map (app (u "service:")) (List.filter (λ s, s ∉? _HIDDEN_SERVICES) names)).
Proof.
  induction names as [|n names IH]; [done|]. cbn [map concat List.filter].
  rewrite map_app, IH. unfold service_entries. destruct (bool_decide _); [done|].
  cbn [negb map app]. by rewrite in_refs_elem.
Qed.

Lemma agent_entries_refs refs agents :
  map (λ e, (jget "ref" e, jget "is_open" e)) (concat (map (agent_entries refs) agents)) =
  map (λ r, (JStr r, JBool (existsb (λ v, jeqs v r) refs)))
      (concat (map (λ a, [u "chat:" ++ agent_text a; u "chat-terminal:" ++ agent_text a]) agents)).
Proof.
  induction agents as [|a agents IH]; [done|]. cbn [map concat]. rewrite !map_app, IH.
  unfold agent_entries, agent_text. cbn [map app]. by rewrite !in_refs_elem.
Qed.

(** [list] and [inspect] agree on the saved layout: [layout_list] has exactly
    one entry for each visible service and two for each agent, in order, and an
    entry is open exactly when [layout_inspect] shows a panel with its ref. *)
Theorem list_agrees_with_inspect services agents file names lay entries :
  layout_inspect file names = Ret lay → layout_list services agents file names = Ret entries →
  map (λ e, (jget "ref" e, jget "is_open" e)) entries =
  map (λ r, (JStr r, JBool (existsb (λ v, jeqs v r) (shown_refs lay)))) (addressable services agents).
Proof.
  intros Hl He. unfold layout_list in He. inv_Ret He. injection He as <-.
  rewrite (open_refs_shown _ _ _ _ Hl E). unfold addressable.
  by rewrite !map_app, service_entries_refs, agent_entries_refs.
Qed.

(** The ref the server hands out for a new terminal is the one [inspect]
    resolves it to, once the panel is saved under the pre-minted id with any
    terminal url that is not an agent's. *)
Theorem allocated_ref_resolves uuid4_hex panel_id ref url title names :
  allocate_terminal_panel_id uuid4_hex = Ret (panel_id, ref) →
  startswith _TERMINAL_SERVICE_URL_PATH url = true → _extract_agent_terminal_name url = Ret None →
  let params := JObj [(u "panelType", JStr (u "iframe")); (u "url", JStr url); (u "title", title)] in
  (s ← _resolve_ref panel_id params names; getitem (u "ref") s) = Ret (JStr ref).
Proof.
  intros Ha Hs Hx params. unfold allocate_terminal_panel_id in Ha. inv_Ret Ha. injection Ha as <- <-.
  unfold _resolve_ref. subst params. cbn [or_empty jor truthy need_dict mbind outcome_bind].
  unfold panel_ref.
  change (jeqs (jget "panelType" _) "chat") with false. change (jeqs (jget "panelType" _) "subagent") with false.
  change (jeqs (jget "panelType" _) "iframe") with true. change (truthy (jget "serviceName" _)) with false.
  change (jget "url" _) with (JStr url). cbv iota. unfold iframe_ref. rewrite Hx.
  cbn [mbind outcome_bind]. rewrite Hs, E. done.
Qed.
End queries.

(** ** A concrete layout *)
Module LayoutDemo.
#[export] Instance jrepr : JsonRepr := {| json_repr _ := u "?"; bytes_repr _ := u "?" |}.
#[export] Instance laws : ReprLaws jrepr.
Proof. by intros v. Qed.
#[export] Instance netloc : NetlocCheck := {| check_netloc _ := Ret tt |}.

(** Two groups side by side: alice's chat with her terminal, and a web service. *)
Definition saved : bytes := bq
  "{`dockview`:{`grid`:{`root`:{`type`:`branch`,`data`:[{`type`:`leaf`,`data`:{`views`:[`p1`,`p2`],`activeView`:`p1`,`size`:400}},{`type`:`branch`,`data`:[{`type`:`leaf`,`data`:{`views`:[`p3`]}}]}]}},`panels`:{`p1`:{`title`:`Alice`},`p2`:{`title`:`T`},`p3`:{}},`activeGroup`:`1`},`panelParams`:{`p1`:{`panelType`:`chat`,`chatAgentId`:`a1`},`p2`:{`panelType`:`iframe`,`url`:`/service/terminal/?arg=_&arg=agent&arg=alice`},`p3`:{`panelType`:`iframe`,`serviceName`:`web`,`title`:`Web`}}}".
Definition names : list (pystr * pystr) := [(u "a1", u "alice")].
Definition alice : dict := [(u "id", JStr (u "a1")); (u "name", JStr (u "alice")); (u "state", JStr (u "running"))].
Definition lay : dict :=
  match layout_inspect (Stored saved) names with Ret d => d | Raise _ => [] end.
Definition entries : list dict :=
  match layout_list [u "system_interface"; u "terminal"; u "web"] [alice] (Stored saved) names with
  | Ret l => l | Raise _ => [] end.

Example shown : shown_refs lay = map JStr [u "chat:alice"; u "chat-terminal:alice"; u "service:web"].
Proof. by vm_compute. Qed.
End LayoutDemo.

Section witnesses.
Import LayoutDemo.

Lemma inspect_tree_typed_witness :
  jget "tree" lay = JNull ∨
  ∃ raw, _read_layout (Stored saved) = Ret raw ∧ tree_ok (jeqs (root_orientation raw) "HORIZONTAL") (jget "tree" lay).
Proof. apply (inspect_tree_typed (Stored saved) names). vm_compute. reflexivity. Defined.

Lemma list_agrees_with_inspect_witness :
  map (λ e, (jget "ref" e, jget "is_open" e)) entries =
  [(JStr (u "service:terminal"), JBool false); (JStr (u "service:web"), JBool true);
   (JStr (u "chat:alice"), JBool true); (JStr (u "chat-terminal:alice"), JBool true)].
Proof.
  rewrite (list_agrees_with_inspect [u "system_interface"; u "terminal"; u "web"] [alice] (Stored saved) names lay).
  - vm_compute. reflexivity.
  - vm_compute. reflexivity.
  - vm_compute. reflexivity.
Defined.

Lemma allocated_ref_resolves_witness :
  (s ← _resolve_ref (u "iframe-terminal-0123")
         (JObj [(u "panelType", JStr (u "iframe")); (u "url", JStr (u "/service/terminal/?arg=workdir")); (u "title", JNull)]) [];
   getitem (u "ref") s) = Ret (JStr (u "terminal:" ++ take 8 (hexdigest (u "iframe-terminal-0123")))).
Proof.
  apply (allocated_ref_resolves (u "0123") (u "iframe-terminal-0123")).
  - vm_compute. reflexivity.
  - vm_compute. reflexivity.
  - vm_compute. reflexivity.
Defined.
End witnesses.
