(* ===== verification/LayoutServer.v ===== *)
(** * Workspace layout: the server's endpoints

    The layout routes of [server.py]: [/api/layout/broadcast], which composes
    the queries and the mutex of [layout_ops.py] with the WebSocket broadcaster,
    and [GET] and [POST /api/layout], which read and write the saved layout. *)

From Stdlib Require Import NArith ZArith QArith Lia.
From S2P Require Import Prelude PyStr PyJson PyMonad PyKeyed PyBytes PySha PyUrl ActivityState PyPath LayoutOps WsBroadcaster.
From stdpp Require Import options.
#[global] Open Scope nat_scope.
#[local] Open Scope py_scope.

Definition _LOOPBACK_CLIENT_HOSTS : list pystr := map u ["127.0.0.1"; "::1"; "localhost"]%string.
Definition _LAYOUT_FILENAME : pystr := u "layout.json".

Record ApplicationEntry := { app_name : pystr; url : pystr }.

Record server := {
  environ : list (pystr * pystr);
  home : path;
  files : path → stored;
  writable : bool; (** whether the disk takes a write *)
  layout_mutex : LayoutMutex;
  broadcaster : WsBroadcaster.broadcaster;
  agents : list AgentStateItem;
  applications : list ApplicationEntry;
  monotonic : Q;
  wall : Q;
  uuids : nat → pystr; (** [uuid4().hex], one after the other *)
  uuids_used : nat;
}.

Definition with_mutex (m : LayoutMutex) (s : server) : server := {|
  environ := environ s; home := home s; files := files s; writable := writable s; layout_mutex := m;
  broadcaster := broadcaster s; agents := agents s; applications := applications s;
  monotonic := monotonic s; wall := wall s; uuids := uuids s; uuids_used := uuids_used s |}.
Definition with_broadcaster (b : WsBroadcaster.broadcaster) (s : server) : server := {|
  environ := environ s; home := home s; files := files s; writable := writable s; layout_mutex := layout_mutex s;
  broadcaster := b; agents := agents s; applications := applications s;
  monotonic := monotonic s; wall := wall s; uuids := uuids s; uuids_used := uuids_used s |}.
Definition with_file (p : path) (b : bytes) (s : server) : server := {|
  environ := environ s; home := home s; files := λ q, if decide (q = p) then Stored b else files s q;
  writable := writable s; layout_mutex := layout_mutex s;
  broadcaster := broadcaster s; agents := agents s; applications := applications s;
  monotonic := monotonic s; wall := wall s; uuids := uuids s; uuids_used := uuids_used s |}.
Definition take_uuid (s : server) : server := {|
  environ := environ s; home := home s; files := files s; writable := writable s; layout_mutex := layout_mutex s;
  broadcaster := broadcaster s; agents := agents s; applications := applications s;
  monotonic := monotonic s; wall := wall s; uuids := uuids s; uuids_used := S (uuids_used s) |}.

Record request := {
  remote_addr : option pystr;
  data : bytes;
  header_agent_id : option pystr; (** [X-Mngr-Agent-Id] *)
}.
(** The content is the JSON value of the body. *)
Record response := { status : Z; content : json }.

Definition _json_response (content : json) (status_code : Z) : response :=
  {| status := status_code; content := content |}.
(** [ErrorResponse(detail=...).model_dump()] *)
Definition error_response (detail : pystr) (status_code : Z) : response :=
  _json_response (JObj [(u "detail", JStr detail)]) status_code.
Definition _agent_not_found_response (agent_id : pystr) : response :=
  error_response (u "Agent '" ++ agent_id ++ u "' not found") 404.

Section endpoints.
Context `{PyRepr} `{JsonRepr} `{NetlocCheck}.
Abbreviation handler := (M server response).

Definition repr (v : json) : pystr := match v with JStr s => str_repr s | _ => json_repr v end.

(** ** The saved layout *)

Definition get_host_dir (s : server) : path :=
  match dget (u "MNGR_HOST_DIR") (environ s) with
  | Some d => path_of d
  | None => child (home s) (u ".mngr")
  end.

Definition _primary_agent_layout_dir (s : server) : option path :=
  let agent_id := default [] (dget (u "MNGR_AGENT_ID") (environ s)) in
  if agent_id =? [] then None
  else Some (child (child (child (get_host_dir s) (u "agents")) agent_id) (u "workspace_layout")).

Definition layout_file (s : server) : option path :=
  layout_dir ← _primary_agent_layout_dir s; Some (child layout_dir _LAYOUT_FILENAME).
Definition saved_layout (s : server) : stored := default Absent (files s <$> layout_file s).

Definition no_layout : response := _json_response JNull 404.

Definition _get_layout : handler :=
  saved ← gets saved_layout;
  match saved with
  | Absent | Unreadable => mret no_layout
  | Stored b =>
      text ← lift (decode_text b);
      match loads text with
      | Some layout_data => mret (_json_response layout_data 200)
      | None => mret no_layout
      end
  end.

Definition write_bytes (p : path) (b : bytes) : M server unit :=
  s ← gets (λ s, s);
  if writable s then modify (with_file p b) else raise (OSError []).

Definition _save_layout (r : request) : handler :=
  dir ← gets layout_file;
  match dir with
  | None => mret (error_response "No primary agent configured for this workspace" 500)
  | Some layout_file =>
      match loads_bytes (data r) with
      | Loaded _ => write_bytes layout_file (data r);;
                    mret (_json_response (JObj [(u "status", JStr "ok")]) 200)
      | _ => mret (error_response "Invalid JSON in request body" 400)
      end
  end.

(** ** The broadcast endpoint *)

Definition serialize_agent (a : AgentStateItem) : dict :=
  [(u "id", JStr (ActivityState.id a)); (u "name", JStr (ActivityState.name a)); (u "state", JStr (state a));
   (u "labels", JObj (map (λ l, (l.1, JStr l.2)) (labels a)));
   (u "work_dir", opt_str (work_dir a)); (u "activity_state", opt_str (activity_state a))].
Definition get_agents_serialized (s : server) : list dict := map serialize_agent (agents s).
Definition list_service_names (s : server) : list pystr := sort_by str_leb (map app_name (applications s)).

(** [{a["id"]: a["name"] for a in agent_manager.get_agents_serialized()}] *)
Definition agent_name_by_id (s : server) : list (pystr * pystr) :=
  dict_of_pairs (map (λ a, (ActivityState.id a, ActivityState.name a)) (agents s)).

Definition ok_with (extra : dict) : response := _json_response (JObj ((u "ok", JBool true) :: extra)) 200.

Definition broadcast_layout_op (op : pystr) (args : dict) (requester_agent_id : json) : M server unit :=
  modify (λ s, with_broadcaster (broadcast (layout_op op args requester_agent_id) (broadcaster s)) s).

Definition in_flight (holder : dict) : response :=
  _json_response (JObj
    [(u "detail", JStr (u "Another layout op is in flight: agent_id=" ++ json_str (jget "agent_id" holder)
                        ++ u " op=" ++ json_str (jget "operation" holder)
                        ++ u ". Retry after the mutex TTL elapses."));
     (u "retry_after_ms", JInt (retry_after_ms _MUTEX_TTL_SECONDS));
     (u "in_flight", JObj holder)]) 409.

(** [layout_mutex.try_acquire(...)], the clocks read *)
Definition acquire (agent_id : json) (op : pystr) (args : dict) : M server (option dict) := λ s,
  let '(busy, m) := try_acquire _MUTEX_TTL_SECONDS agent_id op args (monotonic s) (wall s) (layout_mutex s) in
  (Ret busy, with_mutex m s).

Definition new_terminal : M server (pystr * pystr) :=
  s ← gets (λ s, s);
  modify take_uuid;;
  lift (allocate_terminal_panel_id (uuids s (uuids_used s))).

(** The operation, once it is known to be one that broadcasts. *)
Definition run_layout_op (op : pystr) (args : dict) (agent_id : json) (allocated_ref : option pystr) : handler :=
  let ok := ok_with (match allocated_ref with Some ref => [(u "ref", JStr ref)] | None => [] end) in
  if is_mutating_op op then
    busy ← acquire agent_id op args;
    match busy with
    | Some holder => mret (in_flight holder)
    | None =>
        try_finally (broadcast_layout_op op args agent_id)
          (modify (λ s, with_mutex (release agent_id op (layout_mutex s)) s));;
        mret ok
    end
  else broadcast_layout_op op args agent_id;; mret ok.

Definition creates_terminal (op : pystr) (args : dict) : bool :=
  ((op =? u "open") || (op =? u "split")) && jeqs (jget "ref" args) "service:terminal".

Definition layout_dispatch (op : pystr) (args : dict) (agent_id : json) : handler :=
  s ← gets (λ s, s);
  if op =? u "list" then
    entries ← lift (layout_list (list_service_names s) (get_agents_serialized s) (saved_layout s) (agent_name_by_id s));
    mret (ok_with [(u "entries", JList (map JObj entries))])
  else if op =? u "inspect" then
    summary ← lift (layout_inspect (saved_layout s) (agent_name_by_id s));
    mret (ok_with [(u "layout", JObj summary)])
  else if negb (is_broadcasting_op op) then
    mret (error_response (u "Op " ++ str_repr op ++ u " has no broadcast handler") 500)
  else if creates_terminal op args then
    t ← new_terminal;
    run_layout_op op (dset "panel_id" (JStr t.1) args) agent_id (Some t.2)
  else run_layout_op op args agent_id None.

Definition header (r : request) : json :=
  match header_agent_id r with Some a => JStr a | None => JNull end.

Definition _layout_broadcast_endpoint (r : request) : handler :=
  if negb (default [] (remote_addr r) ∈? _LOOPBACK_CLIENT_HOSTS)
  then mret (error_response "layout broadcast is only callable from loopback" 403)
  else match loads_bytes (data r) with
  | Loaded (JObj body) =>
      let op := jget "op" body in
      let args_raw := jget_or "args" (JObj []) body in
      let agent_id := jor (jor (jget "agent_id" body) (header r)) (JStr []) in
      match op with
      | JStr op' =>
          if negb (is_known_op op') then mret (error_response (u "Unknown layout op: " ++ repr op) 400)
          else match args_raw with
               | JObj args => layout_dispatch op' args agent_id
               | _ => mret (error_response "``args`` must be a JSON object" 400)
               end
      | _ => mret (error_response (u "Unknown layout op: " ++ repr op) 400)
      end
  | Loaded _ => mret (error_response "Request body must be a JSON object" 400)
  | _ => mret (error_response "Invalid JSON in request body" 400)
  end.

(** An exception no handler caught, of a kind werkzeug does not know. *)
Definition _handle_unhandled_exception (e : exn) : response :=
  error_response (u "Internal server error: " ++ exn_str e) 500.
Definition handle (m : handler) : handler := try_except m (λ e, Some (mret (_handle_unhandled_exception e))).
End endpoints.

(** ** The broadcast endpoint: what a mutating operation does *)

Section endpoint_facts.
Context `{PyRepr} `{JsonRepr} `{NetlocCheck}.

(** What the endpoint takes from a request it does not reject. *)
Record accepted (r : request) (op : pystr) (args : dict) (agent_id : json) : Prop := {
  from_loopback : default [] (remote_addr r) ∈ _LOOPBACK_CLIENT_HOSTS;
  request_body : ∃ body, loads_bytes (data r) = Loaded (JObj body) ∧ jget "op" body = JStr op ∧
    jget_or "args" (JObj []) body = JObj args ∧ agent_id = jor (jor (jget "agent_id" body) (header r)) (JStr []);
  known : is_known_op op = true;
}.

Lemma endpoint_accepted r op args agent_id :
  accepted r op args agent_id → _layout_broadcast_endpoint r = layout_dispatch op args agent_id.
Proof.
  intros [Hl (body & Hb & Ho & Ha & ->) Hk]. unfold _layout_broadcast_endpoint.
  rewrite bool_decide_eq_true_2 by done. cbn [negb]. by rewrite Hb, Ho, Hk, Ha.
Qed.

Lemma mutating_not_query op :
  is_mutating_op op = true → (op =? u "list")%py = false ∧ (op =? u "inspect")%py = false.
Proof.
  intros Hop. split; apply bool_decide_eq_false_2; intros ->; by vm_compute in Hop.
Qed.

Lemma dispatch_mutating op args agent_id :
  is_mutating_op op = true → creates_terminal op args = false →
  layout_dispatch op args agent_id = run_layout_op op args agent_id None.
Proof.
  intros Hm Ht. unfold layout_dispatch. destruct (mutating_not_query op Hm) as [-> ->].
  destruct (ops_nested op) as [Hb _]. rewrite (Hb Hm), Ht. done.
Qed.

Lemma release_own a op args t w :
  release (JStr a) op (Some {| h_agent_id := JStr a; h_op := op; h_args := args;
                               started_at_monotonic := t; started_at_wall := w |}) = None.
Proof. simpl. by rewrite !bool_decide_eq_true_2. Qed.

Lemma with_mutex_same s : with_mutex (layout_mutex s) s = s.
Proof. by destruct s. Qed.

(** The three steps of a granted operation; a refused one changes nothing. *)
Lemma run_layout_op_eq op args a ref s :
  is_mutating_op op = true →
  run_layout_op op args (JStr a) ref s =
    match (try_acquire _MUTEX_TTL_SECONDS (JStr a) op args (monotonic s) (wall s) (layout_mutex s)).1 with
    | Some holder => (Ret (in_flight holder), s)
    | None =>
        (Ret (ok_with (match ref with Some ref => [(u "ref", JStr ref)] | None => [] end)),
         with_mutex None (with_broadcaster (broadcast (layout_op op args (JStr a)) (broadcaster s)) s))
    end.
Proof.
  intros Hm. unfold run_layout_op. rewrite Hm. unfold mbind, M_bind, acquire, try_acquire. cbv beta.
  destruct (layout_mutex s) as [h|] eqn:Eh; [destruct (Qltb _ _)|]; cbv beta iota; cbn [fst snd].
  - rewrite <- Eh, with_mutex_same. done.
  - unfold try_finally, broadcast_layout_op, modify. cbn [fst snd layout_mutex with_mutex with_broadcaster].
    by rewrite release_own.
  - unfold try_finally, broadcast_layout_op, modify. cbn [fst snd layout_mutex with_mutex with_broadcaster].
    by rewrite release_own.
Qed.

(** C32: an accepted mutating operation that creates no terminal, asked for with
    a string as the agent's id, is refused with 409 and the metadata of
    the holder exactly when another operation has held the mutex for less than
    its time-to-live, and then nothing is broadcast and nothing changes;
    otherwise it is broadcast once to the connected clients, the mutex is free
    again and the answer is 200. *)
Theorem mutating_op_spec r op args a s :
  accepted r op args (JStr a) → is_mutating_op op = true → creates_terminal op args = false →
  _layout_broadcast_endpoint r s =
    match layout_mutex s with
    | Some h =>
        if Qltb (monotonic s - started_at_monotonic h) _MUTEX_TTL_SECONDS
        then (Ret (in_flight (describe h)), s)
        else (Ret (ok_with []),
              with_mutex None (with_broadcaster (broadcast (layout_op op args (JStr a)) (broadcaster s)) s))
    | None => (Ret (ok_with []),
               with_mutex None (with_broadcaster (broadcast (layout_op op args (JStr a)) (broadcaster s)) s))
    end.
Proof.
  intros Hr Hm Ht. rewrite (endpoint_accepted _ _ _ _ Hr), dispatch_mutating, run_layout_op_eq by done.
  unfold try_acquire. by destruct (layout_mutex s) as [h|]; [destruct (Qltb _ _)|].
Qed.

(** ** Requests one after the other *)

(** Leaves a free mutex free, and then does not answer 409. *)
Definition keeps_free (m : M server response) : Prop := ∀ s,
  layout_mutex s = None →
  layout_mutex (m s).2 = None ∧ match (m s).1 with Ret resp => status resp ≠ 409%Z | Raise _ => True end.

Lemma keeps_free_ret resp : status resp ≠ 409%Z → keeps_free (mret resp).
Proof. intros Hs s Hf. done. Qed.

Lemma keeps_free_bind {A} (m : M server A) f :
  (∀ s, layout_mutex (m s).2 = layout_mutex s) → (∀ a, keeps_free (f a)) → keeps_free (m ≫= f).
Proof.
  intros Hm Hf s Hs. specialize (Hm s). unfold mbind, M_bind.
  destruct (m s) as [[a|e] s']; cbn [fst snd] in *; [apply Hf; congruence | split; [congruence|done]].
Qed.

Lemma free_run_op op args a ref : keeps_free (run_layout_op op args (JStr a) ref).
Proof.
  destruct (is_mutating_op op) eqn:Hm.
  - intros s Hs. rewrite run_layout_op_eq by done. rewrite Hs. cbn. done.
  - unfold run_layout_op. rewrite Hm. apply keeps_free_bind; [done|]. intros []. by apply keeps_free_ret.
Qed.

Lemma free_new_terminal s : layout_mutex (new_terminal s).2 = layout_mutex s.
Proof. done. Qed.

Lemma free_dispatch op args a : keeps_free (layout_dispatch op args (JStr a)).
Proof.
  unfold layout_dispatch. apply keeps_free_bind; [done|]. intros s.
  repeat case_match; try (apply keeps_free_bind; [done|intros ?]); try (by apply keeps_free_ret); apply free_run_op.
Qed.

(** The agent id of a request is a string, as the command line client sends it. *)
Definition names_agent (r : request) : Prop := ∀ body,
  loads_bytes (data r) = Loaded (JObj body) →
  ∃ a, jor (jor (jget "agent_id" body) (header r)) (JStr []) = JStr a.

Lemma free_endpoint r : names_agent r → keeps_free (_layout_broadcast_endpoint r).
Proof.
  intros Hr. unfold _layout_broadcast_endpoint.
  destruct (negb _); [by apply keeps_free_ret|].
  destruct (loads_bytes (data r)) as [v| |] eqn:El; try by apply keeps_free_ret.
  destruct v as [| | | | | | |body]; try by apply keeps_free_ret.
  destruct (Hr body El) as [a ->].
  destruct (jget "op" body); try by apply keeps_free_ret.
  destruct (negb _); [by apply keeps_free_ret|].
  destruct (jget_or "args" _ body); try by apply keeps_free_ret. apply free_dispatch.
Qed.

Lemma free_handle m : keeps_free m → keeps_free (handle m).
Proof.
  intros Hm s Hs. specialize (Hm s Hs). unfold handle, try_except.
  destruct (m s) as [[resp|e] s']; cbn [fst snd] in *; [done|]. by destruct Hm.
Qed.

(** Requests handled one at a time, with the clock moved in between. *)
Definition tick (now : Q) (s : server) : server := {|
  environ := environ s; home := home s; files := files s; writable := writable s; layout_mutex := layout_mutex s;
  broadcaster := broadcaster s; agents := agents s; applications := applications s;
  monotonic := now; wall := wall s; uuids := uuids s; uuids_used := uuids_used s |}.
Fixpoint serve (l : list (Q * request)) (s : server) : list response * server :=
  match l with
  | [] => ([], s)
  | (now, r) :: l' =>
      let '(resp, s1) := handle (_layout_broadcast_endpoint r) (tick now s) in
      let '(resps, s2) := serve l' s1 in
      (match resp with Ret resp => resp :: resps | Raise _ => resps end, s2)
  end.

(** Requests that do not overlap never conflict: served one at a time from a
    free mutex, whatever they ask and however they fail, each gets an answer,
    none of them 409, and the mutex is free at the end. *)
Theorem sequential_requests_never_conflict l s :
  Forall (λ p, names_agent p.2) l → layout_mutex s = None →
  let '(resps, s') := serve l s in
  length resps = length l ∧ Forall (λ resp, status resp ≠ 409%Z) resps ∧ layout_mutex s' = None.
Proof.
  intros Hl. revert s. induction Hl as [|[now r] l Hr _ IH]; intros s Hs; [done|]. cbn [serve].
  destruct (free_handle _ (free_endpoint r Hr) (tick now s)) as [Hm Hst]; [done|].
  assert (∃ resp s1, handle (_layout_broadcast_endpoint r) (tick now s) = (Ret resp, s1)) as (resp & s1 & E).
  { unfold handle, try_except. destruct (_layout_broadcast_endpoint r (tick now s)) as [[?|?] ?]; eauto. }
  rewrite E in *. cbn [fst snd] in *. specialize (IH s1 Hm).
  destruct (serve l s1) as [resps s2]. destruct IH as (IH1 & IH2 & IH3). cbn [length].
  split; [by rewrite IH1|]. split; [by constructor|done].
Qed.
End endpoint_facts.

(** ** Saving and reading back *)

Section saved_facts.
Context `{PyRepr} `{JsonRepr} `{NetlocCheck}.

(** A JSON text of the browser: no NUL, no carriage return, no byte order mark. *)
Record json_body (t : pystr) (b : bytes) (v : json) : Prop := {
  jb_encoded : encode_utf8 t = Ret b;
  jb_text : is_text t;
  jb_nul : 0%N ∉ t;
  jb_cr : 13%N ∉ t;
  jb_bom : startswith [65279%N] t = false;
  jb_loads : loads t = Some v;
}.

Lemma layout_file_with_file p b s : layout_file (with_file p b s) = layout_file s.
Proof. done. Qed.

Lemma saved_after p b s : layout_file s = Some p → saved_layout (with_file p b s) = Stored b.
Proof.
  intros Hp. unfold saved_layout. rewrite layout_file_with_file, Hp. cbn. by rewrite decide_True.
Qed.

(** A layout the browser saves is the layout that is read back, by
    [GET /api/layout] and by the queries of the broadcast endpoint alike. *)
Theorem save_then_get r t v s p :
  json_body t (data r) v → layout_file s = Some p → writable s = true →
  let '(saved, s') := _save_layout r s in
  saved = Ret (_json_response (JObj [(u "status", JStr "ok")]) 200) ∧
  (_get_layout s').1 = Ret (_json_response v 200) ∧
  _read_layout (saved_layout s') = Ret v.
Proof.
  intros [Hb Ht Hnul Hcr Hbom Hl] Hp Hw. unfold _save_layout, mbind, M_bind, gets. cbn [fst snd]. rewrite Hp.
  rewrite (loads_bytes_encoded t) by done. rewrite Hl.
  unfold write_bytes, mbind, M_bind, gets, modify. cbv beta iota. rewrite Hw. cbn [fst snd].
  split; [done|]. unfold _get_layout, mbind, M_bind, gets, lift. cbv beta iota.
  rewrite (saved_after p) by done. unfold _read_layout. cbv beta iota.
  rewrite (decode_text_encoded t) by done. cbn [mbind outcome_bind]. by rewrite Hl.
Qed.

(** A body that is not JSON changes nothing. *)
Theorem save_rejects_bad_json r s p :
  layout_file s = Some p → (∀ v, loads_bytes (data r) ≠ Loaded v) →
  _save_layout r s = (Ret (error_response "Invalid JSON in request body" 400), s).
Proof.
  intros Hp Hv. unfold _save_layout, mbind, M_bind, gets. cbv beta iota. rewrite Hp.
  destruct (loads_bytes (data r)) as [v| |]; [by destruct (Hv v)|done..].
Qed.
End saved_facts.

(** ** Concrete servers *)
Module ServerDemo.
Import LayoutDemo.
#[export] Instance prepr : PyRepr := {| str_repr s := s; float_repr _ := u "0.0" |}.

Definition server0 : server := {|
  environ := [(u "MNGR_AGENT_ID", u "main"); (u "MNGR_HOST_DIR", u "/mngr")];
  home := Path [47%N] [u "root"]; files := λ _, Absent; writable := true;
  layout_mutex := None; broadcaster := register (register new_broadcaster);
  agents := [{| ActivityState.id := u "a1"; ActivityState.name := u "alice"; state := u "running"; labels := [];
                work_dir := None; activity_state := None |}];
  applications := [{| app_name := u "web"; url := u "http://127.0.0.1:8080" |}];
  monotonic := 10; wall := 99; uuids := λ n, u "uuid" ++ str_of_N (N.of_nat n); uuids_used := 0 |}.

Definition close_web : request := {|
  remote_addr := Some (u "127.0.0.1");
  data := bq "{`op`: `close`, `args`: {`ref`: `service:web`}, `agent_id`: `a1`}";
  header_agent_id := Some (u "a1") |}.
Definition save : request := {|
  remote_addr := Some (u "127.0.0.1"); data := bq "{`dockview`: {}}"; header_agent_id := None |}.
Definition held (since : Q) : holder := {|
  h_agent_id := JStr "b"; h_op := u "move"; h_args := []; started_at_monotonic := since; started_at_wall := 1 |}.
End ServerDemo.

Section server_witnesses.
Import LayoutDemo ServerDemo.

Lemma accepted_close : accepted close_web (u "close") [(u "ref", JStr "service:web")] (JStr "a1").
Proof.
  split.
  - by apply (bool_decide_unpack _); vm_compute.
  - eexists. split; [vm_compute; reflexivity|]. by vm_compute.
  - by vm_compute.
Defined.

Lemma mutating_op_spec_witness :
  (_layout_broadcast_endpoint close_web (with_mutex (Some (held (39 # 4))) server0)).1 =
    Ret (in_flight (describe (held (39 # 4)))) ∧
  items (broadcaster (_layout_broadcast_endpoint close_web (with_mutex (Some (held (38 # 4))) server0)).2) 0 =
    [Some (dumps float_repr ", " ": " (JObj (layout_op "close" [(u "ref", JStr "service:web")] (JStr "a1"))))].
Proof.
  split.
  - rewrite (mutating_op_spec close_web (u "close") [(u "ref", JStr "service:web")] (u "a1")).
    + reflexivity.
    + apply accepted_close.
    + reflexivity.
    + reflexivity.
  - rewrite (mutating_op_spec close_web (u "close") [(u "ref", JStr "service:web")] (u "a1")).
    + vm_compute. reflexivity.
    + apply accepted_close.
    + reflexivity.
    + reflexivity.
Defined.

Lemma names_agent_close : names_agent close_web.
Proof. intros body Hb. vm_compute in Hb. injection Hb as <-. eexists. vm_compute. reflexivity. Qed.

Lemma sequential_requests_never_conflict_witness :
  let '(resps, s') := serve [(0, close_web); (0, close_web)]%Q server0 in
  length resps = 2 ∧ Forall (λ resp, status resp ≠ 409%Z) resps ∧ layout_mutex s' = None.
Proof.
  apply (sequential_requests_never_conflict [(0, close_web); (0, close_web)]%Q server0).
  - repeat constructor; apply names_agent_close.
  - reflexivity.
Defined.

Lemma save_then_get_witness :
  (_get_layout (_save_layout save server0).2).1 = Ret (_json_response (JObj [(u "dockview", JObj [])]) 200).
Proof.
  pose proof (save_then_get save (bq "{`dockview`: {}}") (JObj [(u "dockview", JObj [])]) server0
    (Path [47%N] [u "mngr"; u "agents"; u "main"; u "workspace_layout"; u "layout.json"])) as Hs.
  apply Hs.
  - split.
    + vm_compute. reflexivity.
    + unfold is_text. apply (bool_decide_unpack _). vm_compute. exact I.
    + apply (bool_decide_unpack _). vm_compute. exact I.
    + apply (bool_decide_unpack _). vm_compute. exact I.
    + vm_compute. reflexivity.
    + vm_compute. reflexivity.
  - vm_compute. reflexivity.
  - reflexivity.
Defined.

(** [POST /api/layout] accepts what [json.loads] of bytes accepts, UTF-16
    included; [GET] reads the file as UTF-8 and the decoding error, a
    [ValueError], is not among the exceptions it catches. *)
Lemma utf16_layout_breaks_get :
  let r := {| remote_addr := None; data := [123; 0; 34; 0; 233; 0; 34; 0; 58; 0; 49; 0; 125; 0]%N;
              header_agent_id := None |} in
  (_save_layout r server0).1 = Ret (_json_response (JObj [(u "status", JStr "ok")]) 200) ∧
  (handle _get_layout (_save_layout r server0).2).1 = Ret (error_response "Internal server error: UnicodeDecodeError" 500).
Proof. split; vm_compute; reflexivity. Qed.
End server_witnesses.
