(* ===== verification/TranscriptServer.v ===== *)
(** * The transcript endpoints

    The routes of [SI/server.py] that read a transcript through the session
    watcher, page by page, and the frames of the event streams. *)

From Stdlib Require Import NArith ZArith QArith Lia.
From S2P Require Import Prelude PyStr PyJson PyDumps PyMonad PyKeyed PyBytes SessionParser SessionWatcher EventQueues LayoutServer.
From stdpp Require Import options.
#[global] Open Scope nat_scope.
#[local] Open Scope py_scope.

Definition _DEFAULT_TAIL_COUNT : Z := 50.

(** [request.args] *)
Record page_query := { before : option pystr; after : option pystr; offset : option pystr; limit : option pystr }.
Definition given (arg : option pystr) : option pystr := match arg with Some [] => None | _ => arg end.

(** The limit: a number that is not positive, or no number, is the default. *)
Definition page_limit (q : page_query) : Z :=
  let limit := match limit q with Some s => default _DEFAULT_TAIL_COUNT (int_of_str s) | None => _DEFAULT_TAIL_COUNT end in
  if (limit <=? 0)%Z then _DEFAULT_TAIL_COUNT else limit.

Section server.
Context `{UnicodeDB} `{PyRepr} (json_str : json → pystr).

(** What the disk shows to one access of the watcher. *)
Abbreviation disk := (listing * view)%type.

Definition read_page (d : disk) (q : page_query) : W (list dict) :=
  let limit := page_limit q in
  match given (before q), given (after q), offset q with
  | Some event_id, _, _ => get_backfill_events json_str d.1 d.2 event_id limit None
  | None, Some event_id, _ => get_forward_events json_str d.1 d.2 event_id limit None
  | None, None, Some s => get_events_at_offset json_str d.1 d.2 (default 0%Z (int_of_str s)) limit None
  | None, None, None => get_tail_events json_str d.1 d.2 limit None
  end.

(** The events, the offset of the first and the length of the transcript; the
    watcher looks at the disk up to three times. *)
Definition events_page (d1 d2 d3 : disk) (q : page_query) : W (list dict * Z * Z) :=
  events ← read_page d1 q;
  total ← get_total_event_count json_str d2.1 d2.2 None;
  offset ← (match events with
            | [] => mret (Z.of_nat total)
            | event :: _ => get_event_offset json_str d3.1 d3.2 (event_str "event_id" event) None
            end);
  mret (events, offset, Z.of_nat total).
Definition page_response (page : list dict * Z * Z) : response :=
  _json_response (JObj [(u "events", JList (map JObj page.1.1)); (u "offset", JInt page.1.2); (u "total", JInt page.2)]) 200.

(** [found] tells whether [_find_agent] knows the agent. *)
Definition _get_events (agent_id : pystr) (found : bool) (d1 d2 d3 : disk) (q : page_query) : W response :=
  if negb found then mret (_agent_not_found_response agent_id)
  else page ← events_page d1 d2 d3 q; mret (page_response page).

Definition _get_subagent_events (agent_id subagent_session_id : pystr) (found : bool) (d : disk) (metadata : option dict) : W response :=
  if negb found then mret (_agent_not_found_response agent_id)
  else
    events ← get_all_events json_str d.1 d.2 (Some subagent_session_id);
    mret (_json_response (JObj [(u "events", JList (map JObj events));
                                (u "metadata", match metadata with Some m => JObj m | None => JNull end)]) 200).

(** ** The event streams *)

Inductive frame := Data (event : dict) | KeepAlive.
Definition frame_text (f : frame) : pystr :=
  match f with
  | Data event => u "data: " ++ dumps float_repr ", " ": " (JObj event) ++ [nl; nl]
  | KeepAlive => u ": keepalive" ++ [nl; nl]
  end.
(** What one [event_queue.get(timeout=1)] gave, and the watcher at that moment. *)
Inductive got := Empty | Sentinel | Event (w : watcher) (event : dict).
(** The gets until the queues are shut down or the client has gone. *)
Fixpoint _stream_filtered_events (should_forward : watcher → dict → bool) (keepalive_counter : nat) (gets : list got) : list frame :=
  match gets with
  | [] => []
  | Empty :: gets' =>
      if 8 <=? S keepalive_counter then KeepAlive :: _stream_filtered_events should_forward 0 gets'
      else _stream_filtered_events should_forward (S keepalive_counter) gets'
  | Sentinel :: _ => []
  | Event w event :: gets' =>
      if should_forward w event then Data event :: _stream_filtered_events should_forward 0 gets'
      else _stream_filtered_events should_forward keepalive_counter gets'
  end.
Definition _stream_events (gets : list got) : list frame :=
  _stream_filtered_events (λ w event, is_main_session_event event w) 0 gets.
Definition _stream_subagent_events (subagent_session_id : pystr) (gets : list got) : list frame :=
  _stream_filtered_events (λ _ event, jeqs (jget "session_id" event) subagent_session_id) 0 gets.
End server.

(** ** What the streams deliver *)

(** The gets before the sentinel. *)
Fixpoint live (gets : list got) : list got :=
  match gets with [] | Sentinel :: _ => [] | g :: gets' => g :: live gets' end.
Definition is_empty (g : got) : bool := match g with Empty => true | _ => false end.
Definition forwarded (f : watcher → dict → bool) (g : got) : option dict :=
  match g with Event w event => if f w event then Some event else None | _ => None end.
Definition data_of (f : frame) : option dict := match f with Data event => Some event | KeepAlive => None end.

(** A stream delivers the events its filter keeps, all of them, in order and
    once, and nothing after the sentinel; and it is never silent for more than
    seven seconds' worth of empty gets. *)
Theorem stream_delivers f gets :
  let frames := _stream_filtered_events f 0 gets in
  omap data_of frames = omap (forwarded f) (live gets)
  ∧ length (List.filter is_empty (live gets)) <= 7 + 8 * length frames.
Proof.
  cbv zeta. split.
  - generalize 0. induction gets as [|[| |w e] gets IH]; intros c; try done.
    + cbn [_stream_filtered_events live]. destruct (8 <=? S c); [apply IH|]. apply IH.
    + cbn [_stream_filtered_events live omap list_omap forwarded]. destruct (f w e); cbn [omap list_omap data_of]; [f_equal|]; apply IH.
  - enough (∀ c, c <= 7 → c + length (List.filter is_empty (live gets)) <= 7 + 8 * length (_stream_filtered_events f c gets)) as Hc by (apply (Hc 0); lia).
    induction gets as [|[| |w e] gets IH]; intros c Hc; cbn [_stream_filtered_events live List.filter is_empty length]; try lia.
    + destruct (Nat.leb_spec 8 (S c)); [|specialize (IH (S c)); lia]. specialize (IH 0). simpl length. lia.
    + destruct (f w e); [specialize (IH 0)|specialize (IH c)]; simpl length; lia.
Qed.

(** ** The pages of a transcript that stands still *)
Section pages.
Context `{UnicodeDB} `{PyRepr} (json_str : json → pystr).

(** A session the discovery would add. *)
Definition missing (l : listing) (w : watcher) (line : pystr) : Prop :=
  ∃ sid, first_word line = Some sid ∧ state_of w sid = None ∧ (is_Some (find_session_file l 0 sid) ∨ is_Some (find_session_file l 1 sid)).
(** The disk shows nothing that the watcher has not read. *)
Record settled (d : listing * view) (w : watcher) : Prop := {
  settled_main : ∀ text line, history d.1 = Some text → line ∈ splitlines text → ¬ missing d.1 w line;
  settled_subagents : ∀ sid st f, (sid, st) ∈ _session_states w → f ∈ subagent_files d.1 st → is_Some (state_of w f.1);
  settled_files : ∀ st, st ∈ _ordered_selected_states_locked None w →
    ∃ mtime, stat d.2 (file_path st) = Some (byte_offset_consumed st, mtime) ∧ Qeq_bool mtime (last_mtime st) = true }.

(** The line of an event can be read again: it still yields the event, and the
    cache is large enough for the events of one line. *)
Definition rereads (v : view) (capacity : nat) (p : place) : Prop :=
  ∃ data text, read v (file_path p.1) = Some data
    ∧ decode (take (byte_len p.2) (drop (byte_offset p.2) data)) = Some text
    ∧ ∀ tools, ∃ evs ps, parse_session_lines json_str (Some (session_id p.1)) (splitlines text)
        {| existing_event_ids := []; tool_name_by_call_id := tools; new_events := [] |} = (Ret evs, ps)
      ∧ event_id p.2 ∈ map (event_str "event_id") evs ∧ length evs <= capacity.
Definition readable (v : view) (w : watcher) : Prop :=
  ∀ p, p ∈ timeline (_ordered_selected_states_locked None w) → rereads v (_body_cache_capacity w) p.

(** *** Re-reading a body *)
Definition among_last (n : nat) (k : pystr) (c : list (pystr * dict)) : Prop :=
  ∃ c1 c2, c = c1 ++ c2 ∧ length c2 <= n ∧ k ∈ map fst c2.
Lemma ddel_app k (c1 c2 : list (pystr * dict)) : ddel k (c1 ++ c2) = ddel k c1 ++ ddel k c2.
Proof. apply List.filter_app. Qed.
Lemma put_among_last e n k w :
  S n <= _body_cache_capacity w → event_str "event_id" e = k ∨ among_last n k (_body_cache w) →
  among_last (S n) k (_body_cache (_cache_put_locked e w)).
Proof.
  intros Hn Hk. unfold _cache_put_locked. simpl. set (i := event_str "event_id" e) in *.
  assert (among_last (S n) k (ddel i (_body_cache w) ++ [(i, e)])) as (c1 & c2 & -> & Hl & Hin).
  { destruct (decide (i = k)) as [->|Hne].
    - exists (ddel k (_body_cache w)), [(k, e)]. split; [done|]. split; [simpl; lia|]. by apply list_elem_of_singleton.
    - destruct Hk as [?|(c1 & c2 & -> & Hl & Hin)]; [done|]. exists (ddel i c1), (ddel i c2 ++ [(i, e)]).
      rewrite ddel_app, <- app_assoc. split; [done|]. split.
      + rewrite length_app. simpl. pose proof (List.filter_length_le (λ kv : pystr * dict, i <>? kv.1) c2) as Hf.
        change (length (ddel i c2) <= length c2) in Hf. lia.
      + rewrite map_app, elem_of_app. left. apply list_elem_of_fmap in Hin as ([k' e'] & -> & Hin). apply list_elem_of_fmap. exists (k', e').
        split; [done|]. apply list_elem_of_In. apply filter_In. split; [by apply list_elem_of_In|]. by apply negb_true_iff, bool_decide_eq_false. }
  unfold evict. exists (drop (length (c1 ++ c2) - _body_cache_capacity w) c1), c2. split; [|done].
  rewrite drop_app_le; [done|]. rewrite length_app. lia.
Qed.
Lemma puts_among_last evs : ∀ w n k, n + length evs <= _body_cache_capacity w →
  among_last n k (_body_cache w) ∨ k ∈ map (event_str "event_id") evs →
  let w' := (for_each evs (λ e, modify (_cache_put_locked e)) w).2 in
  for_each evs (λ e, modify (_cache_put_locked e)) w = (Ret tt, w') ∧ among_last (n + length evs) k (_body_cache w').
Proof.
  induction evs as [|e evs IH]; intros w n k Hn Hk; cbn [for_each map length] in *.
  - rewrite Nat.add_0_r. destruct Hk as [Hk|Hk%elem_of_nil]; done.
  - rewrite Nat.add_succ_r. unfold mbind, M_bind, modify at 1 3. cbn [fst snd].
    destruct (IH (_cache_put_locked e w) (S n) k) as [E1 E2]; [simpl; lia| |].
    + rewrite elem_of_cons in Hk. destruct Hk as [Hk|[->|Hk]]; [left; apply put_among_last; [lia|by right]|left; apply put_among_last; [lia|by left]|by right].
    + by split.
Qed.
Lemma among_last_got n k c : among_last n k c → is_Some (dget k c).
Proof.
  intros (c1 & c2 & -> & _ & Hin). destruct (dget k (c1 ++ c2)) as [e|] eqn:E; [by eexists|]. exfalso.
  apply list_elem_of_fmap in Hin as ([k' e] & -> & Hin). revert E. clear -Hin. induction c1 as [|[k1 e1] c1 IH]; simpl.
  - induction c2 as [|[k2 e2] c2 IH]; [by apply elem_of_nil in Hin|]. apply elem_of_cons in Hin as [[= <- <-]|Hin]; simpl.
    + by rewrite bool_decide_eq_true_2.
    + case_bool_decide; [done|]. by apply IH.
  - case_bool_decide; [done|]. by apply IH.
Qed.

Lemma resolve_body_rereads v st loc w : rereads v (_body_cache_capacity w) (st, loc) →
  ∃ b w', resolve_body json_str v st loc w = (Ret (Some b), w').
Proof.
  intros (data & text & Hr & Hd & Hp). unfold resolve_body, gets. unfold mbind at 1, M_bind at 1. cbn [fst snd] in *.
  destruct (dget (event_id loc) (_body_cache w)) as [b|]; [by eexists _, _|].
  destruct (Hp (_tool_name_by_call_id w)) as (evs & ps & E & Hin & Hlen).
  unfold mbind, M_bind, _reparse_line_locked, SessionWatcher.parse. rewrite Hr, Hd, E. cbv beta iota zeta.
  set (w1 := with_tables _ _ w). destruct (puts_among_last evs w1 0 (event_id loc)) as [Ef Hl]; [done|by right|].
  destruct (for_each evs _ w1) as [x w2]. injection Ef as ->. cbn [snd] in Hl. cbv beta iota.
  apply among_last_got in Hl as [b Eb]. rewrite Eb. by eexists _, _.
Qed.
Lemma rereads_resolve v cap pairs : ∀ w,
  (∀ k e, (k, e) ∈ _body_cache w → event_str "event_id" e = k) → _body_cache_capacity w = cap → (∀ p, p ∈ pairs → rereads v cap p) →
  ∃ evs w', _resolve_bodies_locked json_str v pairs w = (Ret evs, w') ∧ keeps_index w w'
    ∧ map (event_str "event_id") evs = map (λ p : place, event_id p.2) pairs.
Proof.
  induction pairs as [|[st loc] pairs IH]; intros w Hok Hc Hr; [by exists [], w|]. cbn [_resolve_bodies_locked]. unfold mbind, M_bind.
  destruct (resolve_body_rereads v st loc w) as (b & w1 & E); [rewrite Hc; apply Hr; left|].
  pose proof (keeps_resolve_body json_str v st loc w) as Hk. rewrite E in Hk |- *. cbn [snd] in Hk.
  pose proof Hk as (_ & _ & _ & _ & _ & Hcap & Hok1).
  destruct (IH w1) as (evs & w2 & E2 & Hk2 & Hids); [by apply Hok1|by rewrite Hcap|intros p Hp; apply Hr; by right|].
  rewrite E2. exists (b :: evs), w2. split; [done|]. split; [by etrans|]. cbn [map snd]. rewrite Hids. f_equal.
  by eapply resolve_body_id.
Qed.

(** *** Looking at a disk that stands still *)
Lemma discover_nothing d w : settled d w → _discover_sessions d.1 w = w.
Proof.
  intros [Hm Hs _]. unfold _discover_sessions.
  assert (_discover_main_sessions_from_history d.1 w = w) as ->.
  { unfold _discover_main_sessions_from_history. destruct (history d.1) as [text|]; [|done]. specialize (Hm text).
    revert Hm. generalize (splitlines text) as lines. induction lines as [|line lines IH]; intros Hm; [done|]. simpl.
    assert (discover_line d.1 line w = w) as ->; [|apply IH; intros line' ? ?; apply (Hm line'); [done|by right]].
    unfold discover_line. destruct (first_word line) as [sid|] eqn:E1; [|done]. destruct (state_of w sid) eqn:E2; [done|].
    destruct (find_session_file d.1 0 sid) eqn:E3; [exfalso; apply (Hm line); [done|left|]; exists sid; split; [done|]; split; [done|]; left; by rewrite E3|].
    destruct (find_session_file d.1 1 sid) eqn:E4; [|done].
    exfalso; apply (Hm line); [done|left|]; exists sid; split; [done|]; split; [done|]; right; by rewrite E4. }
  assert (∀ st, st ∈ map snd (_session_states w) → ∀ f, f ∈ subagent_files d.1 st → is_Some (state_of w f.1)) as Hs'.
  { intros st ([sid st'] & -> & Hin)%list_elem_of_fmap f. by apply (Hs sid st'). }
  revert Hs'. clear. generalize (map snd (_session_states w)) as l. induction l as [|st l IH]; intros Hs; [done|]. simpl.
  assert (_discover_subagent_sessions (subagent_files d.1 st) w = w) as ->; [|apply IH; intros st' Hst'; apply Hs; by right].
  specialize (Hs st ltac:(left)). unfold _discover_subagent_sessions. revert Hs. generalize (subagent_files d.1 st) as files.
  induction files as [|f files IHf]; intros Hs; [done|]. simpl. destruct (Hs f) as [st' ->]; [left|]. apply IHf. intros f' Hf'. apply Hs. by right.
Qed.

Lemma looks_settled d w : wf w → settled d w →
  _selected_states_current json_str d.1 d.2 None w = (Ret (_ordered_selected_states_locked None w), w).
Proof.
  intros Hw Hs. destruct (selected_states None w Hw) as [_ Hst]. unfold _selected_states_current, modify, gets.
  unfold mbind at 1, M_bind at 1. rewrite (discover_nothing d w Hs). unfold mbind at 1, M_bind at 1.
  pose proof (settled_files d w Hs) as Hf. set (states := _ordered_selected_states_locked None w) in *.
  assert (omap (λ st, state_of w (session_id st)) states = states) as Hsame.
  { clear -Hst. induction states as [|st states IH]; [done|]. cbn [omap list_omap]. rewrite (Hst st) by left.
    f_equal. apply IH. intros st' ?. apply Hst. by right. }
  match goal with |- context [for_each ?l ?f] => assert (for_each l f w = (Ret tt, w)) as Hfor end.
  { clear Hsame. revert Hst Hf. generalize states as l. induction l as [|st l IH]; intros Hst Hf; [done|]. cbn [map for_each].
    destruct (Hf st) as (mtime & Estat & Emt); [left|].
    unfold mbind, M_bind. rewrite (Hst st) by left. cbn [mbind option_bind]. rewrite Estat.
    unfold _ensure_cache_current, gets, mbind, M_bind. rewrite (Hst st) by left. rewrite Estat, Nat.ltb_irrefl. cbn [when].
    unfold read_new, gets, mbind, M_bind. cbn [mret M_ret]. rewrite (Hst st) by left. rewrite Nat.eqb_refl, Emt. cbn [andb when_marked when mret M_ret].
    apply IH; intros st' ?; [apply Hst|apply Hf]; by right. }
  unfold mbind, M_bind in *. by rewrite Hfor, Hsame.
Qed.
Lemma settled_keeps d w w' : keeps_index w w' → settled d w → settled d w'.
Proof.
  intros (E1 & E2 & _) [H1 H2 H3].
  assert (∀ sid, state_of w' sid = state_of w sid) as Es by (intros sid; unfold state_of; by rewrite E1).
  split.
  - intros text line Ht Hl (sid & ? & Hn & ?). apply (H1 text line Ht Hl). exists sid. by rewrite <- Es.
  - intros sid st f. rewrite E1, Es. apply H2.
  - simpl. intros st. rewrite E2. intros (sid & Hin & Hst)%list_elem_of_omap. apply H3. apply list_elem_of_omap. exists sid. by rewrite <- Es.
Qed.
Lemma states_keep w w' sel : keeps_index w w' → _ordered_selected_states_locked sel w' = _ordered_selected_states_locked sel w.
Proof.
  intros (E1 & E2 & _). unfold _ordered_selected_states_locked, state_of. rewrite E1, E2. done.
Qed.

(** *** Pages as slices of the list of ids *)
Definition position (id : pystr) (ids : list pystr) : option nat := fst <$> list_find (λ i, i = id) ids.
(** What a request asks for, on the ids of the transcript. *)
Definition slice (q : page_query) (ids : list pystr) : list pystr :=
  let limit := Z.to_nat (page_limit q) in
  match given (before q), given (after q), offset q with
  | Some id, _, _ => match position id ids with Some k => drop (k - limit) (take k ids) | None => [] end
  | None, Some id, _ => match position id ids with Some k => take limit (drop (S k) ids) | None => [] end
  | None, None, Some s => take limit (drop (Z.to_nat (default 0%Z (int_of_str s))) ids)
  | None, None, None => drop (length ids - limit) ids
  end.
(** Where a slice starts; the end when it is empty. *)
Definition slice_offset (sl ids : list pystr) : nat := default (length ids) (head sl ≫= λ id, position id ids).

Definition transcript (w : watcher) : list pystr := map (λ p : place, event_id p.2) (timeline (_ordered_selected_states_locked None w)).

Lemma page_limit_positive q : (0 < page_limit q)%Z.
Proof. unfold page_limit. by destruct (Z.leb_spec (match limit q with Some s => default _DEFAULT_TAIL_COUNT (int_of_str s) | None => _DEFAULT_TAIL_COUNT end) 0). Qed.

Lemma transcript_nodup w : wf w → NoDup (transcript w).
Proof.
  intros Hw. destruct (selected_states None w Hw) as [Hn Hst]. unfold transcript.
  set (states := _ordered_selected_states_locked None w) in *. clearbody states. revert Hn Hst.
  induction states as [|st states IH]; intros Hn Hst; [constructor|]. cbn [map] in Hn. apply NoDup_cons in Hn as [Hnew Hn].
  unfold timeline. cbn [flat_map]. rewrite map_app. unfold pair_all at 1. rewrite map_map. cbn [snd].
  assert (state_of w (session_id st) = Some st) as E by (apply Hst; left).
  apply NoDup_app. split; [apply (wf_ids w Hw _ _ E)|]. split; [|apply IH; [done|intros st' ?; apply Hst; by right]].
  intros id Hid (p & -> & Hp)%list_elem_of_fmap. apply list_elem_of_In, in_flat_map in Hp as (st' & Hst'%list_elem_of_In & Hp%list_elem_of_In).
  apply list_elem_of_fmap in Hp as (loc & -> & Hloc). cbn [snd] in *.
  assert (state_of w (session_id st') = Some st') as E' by (apply Hst; by right).
  apply (wf_disjoint w Hw (session_id st) (session_id st') st st' (event_id loc)); [|done|done|done|by apply list_elem_of_fmap_2].
  intros Heq. apply Hnew. rewrite Heq. by apply list_elem_of_fmap_2.
Qed.

Lemma position_lookup id ids k : NoDup ids → position id ids = Some k ↔ ids !! k = Some id.
Proof.
  intros Hn. unfold position. split.
  - intros ([j x] & (Hj & -> & _)%list_find_Some & [= ->])%fmap_Some. done.
  - intros Hk. apply fmap_Some. exists (k, id). split; [|done]. apply list_find_Some. split; [done|]. split; [done|].
    intros j y Hj Hlt ->. assert (j = k) by (eapply NoDup_lookup; eauto). lia.
Qed.
Lemma position_None id ids : position id ids = None ↔ id ∉ ids.
Proof.
  unfold position. split.
  - intros Hn Hin. apply fmap_None in Hn. destruct (list_find_elem_of (λ i, i = id) ids id) as [x Hx]; [done|done|]. by rewrite Hn in Hx.
  - intros Hn. apply fmap_None. destruct (list_find _ ids) as [[k x]|] eqn:E; [|done].
    apply list_find_Some in E as (Hk & -> & _). exfalso. by apply Hn, list_elem_of_lookup_2 with k.
Qed.

Section standing.
Context (capacity : nat) (t : list SessionWatcher.step).
Let w0 : watcher := SessionWatcher.run json_str t (new_watcher capacity).

Lemma offset_position w id : keeps_index w0 w →
  event_offset w (_ordered_selected_states_locked None w) id
  = match position id (transcript w0) with Some k => Z.of_nat k | None => (-1)%Z end.
Proof.
  intros Hk. rewrite (states_keep w0 w None Hk). pose proof Hk as (_ & _ & Hrefs & _).
  assert (event_offset w (_ordered_selected_states_locked None w0) id = event_offset w0 (_ordered_selected_states_locked None w0) id) as ->
    by (unfold event_offset; by rewrite Hrefs).
  pose proof (wf_run json_str t _ (wf_new capacity)) as Hw. fold w0 in Hw. destruct (selected_states None w0 Hw) as [_ Hst].
  pose proof (λ k, cursor_slices w0 None id 1 k Hw ltac:(lia)) as Hpage. cbv zeta in Hpage.
  set (states := _ordered_selected_states_locked None w0) in *.
  assert (∀ k, event_offset w0 states id = Z.of_nat k → transcript w0 !! k = Some id) as Hfound.
  { intros k Hoff. destruct (Hpage k Hoff) as [(st & loc & Hl & Hid) _]. unfold transcript. fold states.
    rewrite list_lookup_fmap, Hl. simpl. by rewrite Hid. }
  destruct (position id (transcript w0)) as [k|] eqn:Ep.
  - apply position_lookup in Ep; [|by apply transcript_nodup]. unfold transcript in Ep. fold states in Ep.
    rewrite list_lookup_fmap in Ep. destruct (timeline states !! k) as [[st loc]|] eqn:El; [|done]. injection Ep as Hid. simpl in Hid.
    assert ((st, loc) ∈ timeline states) as Hin by (by eapply list_elem_of_lookup_2).
    apply list_elem_of_In, in_flat_map in Hin as (st' & Hst'%list_elem_of_In & Hp%list_elem_of_In).
    apply list_elem_of_fmap in Hp as (loc' & [= <- <-] & Hloc). apply list_elem_of_lookup in Hloc as [i Hi].
    pose proof (wf_located w0 Hw _ _ _ _ (Hst st Hst') Hi) as Href. rewrite Hid in Href.
    assert (is_Some (index_of (session_id st) states)) as [pos Hpos].
    { clear -Hst'. induction states as [|st1 states IH]; [by apply elem_of_nil in Hst'|]. simpl.
      case_bool_decide as Hd; [by eexists|]. apply elem_of_cons in Hst' as [->|Hst']; [done|]. destruct (IH Hst') as [pos ->]. by eexists. }
    assert (∃ k', event_offset w0 states id = Z.of_nat k') as [k' Hk'] by (unfold event_offset; rewrite Href; simpl; rewrite Hpos; by eexists).
    rewrite Hk'. f_equal. apply Hfound in Hk'. eapply NoDup_lookup; [by apply (transcript_nodup w0)|exact Hk'|].
    unfold transcript. fold states. by rewrite list_lookup_fmap, El, <- Hid.
  - apply position_None in Ep. unfold event_offset. destruct (_locator_ref_by_id w0 !! id) as [ref|] eqn:Er; [|done].
    destruct (index_of ref.1 states) as [pos|] eqn:Epos; [|done]. exfalso. apply Ep.
    eapply list_elem_of_lookup_2, Hfound. unfold event_offset. by rewrite Er, Epos.
Qed.

Lemma map_ids_take n tl : map (λ p : place, event_id p.2) (take n tl) = take n (map (λ p : place, event_id p.2) tl).
Proof. symmetry. apply firstn_map. Qed.
Lemma map_ids_drop n tl : map (λ p : place, event_id p.2) (drop n tl) = drop n (map (λ p : place, event_id p.2) tl).
Proof. symmetry. apply skipn_map. Qed.

Lemma page_resolves d w collect : keeps_index w0 w → settled d w → readable d.2 w →
  (∀ p, p ∈ collect w (_ordered_selected_states_locked None w) → p ∈ timeline (_ordered_selected_states_locked None w)) →
  ∃ evs w', page json_str d.1 d.2 None collect w = (Ret evs, w') ∧ keeps_index w w'
    ∧ map (event_str "event_id") evs = map (λ p : place, event_id p.2) (collect w (_ordered_selected_states_locked None w)).
Proof.
  intros Hk Hs Hr Hin. assert (wf w) as Hw by (eapply keeps_index_wf, wf_run, wf_new; exact Hk).
  destruct (rereads_resolve d.2 _ (collect w (_ordered_selected_states_locked None w)) w (wf_cache w Hw) eq_refl) as (evs & w' & E & Hk' & Hids).
  { intros p Hp. by apply Hr, Hin. }
  exists evs, w'. split; [|done]. unfold page, gets, mbind, M_bind. by rewrite (looks_settled d w Hw Hs).
Qed.

Lemma sub_timeline (a b : nat) (tl : list place) p : p ∈ take a (drop b tl) → p ∈ tl.
Proof. intros Hp. apply (sublist_subseteq _ _ (sublist_drop tl b)), (sublist_subseteq _ _ (sublist_take _ a)), Hp. Qed.

Lemma unknown_cursor w states id n : event_offset w states id = (-1)%Z →
  _collect_before_locked w states id n = [] ∧ _collect_after_locked w states id n = [].
Proof.
  unfold event_offset, _collect_before_locked, _collect_after_locked. destruct (_locator_ref_by_id w !! id) as [ref|]; [|done].
  destruct (index_of ref.1 states); [lia|done].
Qed.

(** The page of a request is the slice it asks for. *)
Lemma read_page_slice d q w : keeps_index w0 w → settled d w → readable d.2 w →
  ∃ evs w', read_page json_str d q w = (Ret evs, w') ∧ keeps_index w w' ∧ map (event_str "event_id") evs = slice q (transcript w0).
Proof.
  intros Hk Hs Hr. pose proof (page_limit_positive q) as Hpos. pose proof (states_keep w0 w None Hk) as Est.
  assert (0 < Z.to_nat (page_limit q)) as Hlim by lia.
  assert (∀ collect sl, collect w (_ordered_selected_states_locked None w) = sl → (∀ p, p ∈ sl → p ∈ timeline (_ordered_selected_states_locked None w0)) →
    map (λ p : place, event_id p.2) sl = slice q (transcript w0) →
    ∃ evs w', page json_str d.1 d.2 None collect w = (Ret evs, w') ∧ keeps_index w w' ∧ map (event_str "event_id") evs = slice q (transcript w0)) as Hpage.
  { intros collect sl <- Hin <-. apply page_resolves; [done..|]. by rewrite <- Est in Hin. }
  assert (∀ id, _collect_before_locked w (_ordered_selected_states_locked None w) id = _collect_before_locked w0 (_ordered_selected_states_locked None w0) id
    ∧ _collect_after_locked w (_ordered_selected_states_locked None w) id = _collect_after_locked w0 (_ordered_selected_states_locked None w0) id) as Hsame.
  { intros id. rewrite Est. destruct Hk as (_ & _ & Hrefs & _). unfold _collect_before_locked, _collect_after_locked. by rewrite Hrefs. }
  unfold read_page, slice in *. set (n := Z.to_nat (page_limit q)) in *.
  assert ((page_limit q <=? 0)%Z = false) as Hle by lia.
  unfold get_backfill_events, get_forward_events, get_events_at_offset, get_tail_events. rewrite Hle. fold n.
  pose proof (λ id, offset_position w0 id ltac:(done)) as Hoff.
  pose proof (tail_slice (_ordered_selected_states_locked None w0) n) as Etail.
  pose proof (λ i, at_offset_slice (_ordered_selected_states_locked None w0) i n Hlim) as Eoff.
  assert (wf w0) as Hw by apply wf_run, wf_new.
  assert (∀ id k, position id (transcript w0) = Some k → event_offset w0 (_ordered_selected_states_locked None w0) id = Z.of_nat k) as Hknown
    by (intros id k Ep; by rewrite Hoff, Ep).
  assert (∀ id, position id (transcript w0) = None → event_offset w0 (_ordered_selected_states_locked None w0) id = (-1)%Z) as Hunknown
    by (intros id Ep; by rewrite Hoff, Ep).
  destruct (given (before q)) as [id|]; [|destruct (given (after q)) as [id|]; [|destruct (offset q) as [s|]]].
  - destruct (Hsame id) as [Hb _]. destruct (position id (transcript w0)) as [k|] eqn:Ep.
    + destruct (cursor_slices w0 None id n k Hw Hlim (Hknown id k Ep)) as (_ & Eb & _).
      eapply Hpage; [by rewrite Hb; exact Eb| |by rewrite map_ids_drop, map_ids_take].
      intros p Hp. apply (sublist_subseteq _ _ (sublist_drop _ _)) in Hp. by apply (sublist_subseteq _ _ (sublist_take _ _)) in Hp.
    + destruct (unknown_cursor w0 _ id n (Hunknown id Ep)) as [Eb _].
      apply Hpage with []; [by rewrite Hb|by intros p ?%elem_of_nil|done].
  - destruct (Hsame id) as [_ Ha]. destruct (position id (transcript w0)) as [k|] eqn:Ep.
    + destruct (cursor_slices w0 None id n k Hw Hlim (Hknown id k Ep)) as (_ & _ & Ea).
      eapply Hpage; [by rewrite Ha; exact Ea|by intros p; apply sub_timeline|by rewrite map_ids_take, map_ids_drop].
    + destruct (unknown_cursor w0 _ id n (Hunknown id Ep)) as [_ Ea].
      apply Hpage with []; [by rewrite Ha|by intros p ?%elem_of_nil|done].
  - eapply Hpage; [by rewrite Est; apply Eoff|by intros p; apply sub_timeline|by rewrite map_ids_take, map_ids_drop].
  - eapply Hpage; [by rewrite Est; apply Etail| |by rewrite map_ids_drop; unfold transcript; rewrite length_map].
    intros p Hp. by apply (sublist_subseteq _ _ (sublist_drop _ _)) in Hp.
Qed.

Lemma readable_keeps v w w' : keeps_index w w' → readable v w → readable v w'.
Proof.
  intros Hk Hr p. rewrite (states_keep w w' None Hk). destruct Hk as (_ & _ & _ & _ & _ & -> & _). apply Hr.
Qed.

(** What a request is answered while the transcript stands still: the slice it
    asks for, where it starts and the length of the transcript. *)
Lemma events_page_slice d q w : keeps_index w0 w → settled d w → readable d.2 w →
  ∃ evs w', events_page json_str d d d q w
      = (Ret (evs, Z.of_nat (slice_offset (slice q (transcript w0)) (transcript w0)), Z.of_nat (length (transcript w0))), w')
    ∧ keeps_index w w' ∧ map (event_str "event_id") evs = slice q (transcript w0).
Proof.
  intros Hk Hs Hr. destruct (read_page_slice d q w Hk Hs Hr) as (evs & w' & E & Hk' & Hids).
  exists evs, w'. split; [|done]. assert (keeps_index w0 w') as Hk0 by (by etrans).
  assert (wf w') as Hw by (eapply keeps_index_wf, wf_run, wf_new; exact Hk0).
  pose proof (looks_settled d w' Hw (settled_keeps d w w' Hk' Hs)) as Hlook.
  assert (sum_list_with (λ st, length (locators st)) (_ordered_selected_states_locked None w') = length (transcript w0)) as Htotal.
  { rewrite (states_keep w0 w' None Hk0). unfold transcript. by rewrite length_map, length_timeline. }
  unfold events_page. unfold mbind at 1, M_bind at 1. rewrite E. unfold mbind at 1, M_bind at 1.
  unfold get_total_event_count. unfold mbind at 1, M_bind at 1. rewrite Hlook. cbn [mret M_ret]. rewrite Htotal.
  destruct evs as [|event evs].
  - cbn [map] in Hids. rewrite <- Hids. done.
  - unfold mbind, M_bind, get_event_offset, gets. unfold mbind, M_bind. rewrite Hlook. rewrite (offset_position w' _ Hk0).
    rewrite <- Hids. cbn [map]. unfold slice_offset. cbn [head mbind option_bind].
    assert (is_Some (position (event_str "event_id" event) (transcript w0))) as [k Ek]; [|by rewrite Ek].
    destruct (position _ (transcript w0)) as [k|] eqn:Ep; [by eexists|]. exfalso. apply position_None in Ep. apply Ep.
    assert (event_str "event_id" event ∈ slice q (transcript w0)) as Hin by (rewrite <- Hids; left).
    unfold slice in Hin. repeat case_match; try (by apply elem_of_nil in Hin);
      repeat (first [apply (sublist_subseteq _ _ (sublist_drop _ _)) in Hin|apply (sublist_subseteq _ _ (sublist_take _ _)) in Hin]); done.
Qed.
End standing.
End pages.

(** ** A client that scrolls back *)
Section scrolling.
Context `{UnicodeDB} `{PyRepr} (json_str : json → pystr).

Definition newest (n : pystr) : page_query := {| before := None; after := None; offset := None; limit := Some n |}.
Definition older (id n : pystr) : page_query := {| before := Some id; after := None; offset := None; limit := Some n |}.
(** The first page is the tail; while there is more above, the page before the
    first event that is shown is put in front. *)
Fixpoint load_older (requests : nat) (d : listing * view) (n : pystr) (window : list dict) (first : Z) : W (list dict * Z) :=
  match requests, window with
  | S requests', event :: _ =>
      if (first <=? 0)%Z then mret (window, first)
      else
        page ← events_page json_str d d d (older (event_str "event_id" event) n);
        load_older requests' d n (page.1.1 ++ window) page.1.2
  | _, _ => mret (window, first)
  end.
Definition load_all (requests : nat) (d : listing * view) (n : pystr) : W (list dict * Z) :=
  page ← events_page json_str d d d (newest n);
  load_older requests d n page.1.1 page.1.2.

Context (capacity : nat) (t : list SessionWatcher.step).
Let w0 : watcher := SessionWatcher.run json_str t (new_watcher capacity).

Lemma load_older_spec d n requests : ∀ window k w,
  keeps_index w0 w → settled d w → readable json_str d.2 w → [] ∉ transcript w0 →
  map (event_str "event_id") window = drop k (transcript w0) → k < length (transcript w0) ∨ k = 0 →
  k <= requests * Z.to_nat (page_limit (newest n)) →
  ∃ window' w', load_older requests d n window (Z.of_nat k) w = (Ret (window', 0%Z), w')
    ∧ map (event_str "event_id") window' = transcript w0.
Proof.
  induction requests as [|requests IH]; intros window k w Hk Hs Hr Hne Hwin Hlt Hfuel.
  - assert (k = 0) as -> by lia. exists window, w. by destruct window.
  - destruct window as [|event window].
    { cbn [map] in Hwin. exists [], w. destruct Hlt as [Hlt| ->]; [|by split].
      apply (f_equal length) in Hwin. rewrite length_drop in Hwin. simpl in Hwin. lia. }
    cbn [load_older]. destruct (Z.leb_spec (Z.of_nat k) 0) as [Hz|Hz].
    { assert (k = 0) as -> by lia. by exists (event :: window), w. }
    destruct Hlt as [Hlt|?]; [|lia]. set (id := event_str "event_id" event).
    assert (transcript w0 !! k = Some id) as Hid.
    { rewrite <- (Nat.add_0_r k), <- lookup_drop, <- Hwin. done. }
    assert (NoDup (transcript w0)) as Hn by (apply transcript_nodup, wf_run, wf_new).
    destruct (events_page_slice json_str capacity t d (older id n) w Hk Hs Hr) as (evs & w' & E & Hk' & Hids). fold w0 in E, Hids.
    unfold mbind, M_bind. rewrite E. cbn [fst snd].
    assert (id ≠ []) as Hid0 by (intros ->; by apply Hne, list_elem_of_lookup_2 with k).
    assert (slice (older id n) (transcript w0) = drop (k - Z.to_nat (page_limit (newest n))) (take k (transcript w0))) as Hsl.
    { unfold slice. change (page_limit (older id n)) with (page_limit (newest n)). simpl before.
      assert (given (Some id) = Some id) as -> by (by destruct id). by rewrite (proj2 (position_lookup _ _ k Hn)). }
    rewrite Hsl in Hids |- *. set (j := k - Z.to_nat (page_limit (newest n))) in *.
    pose proof (page_limit_positive (newest n)) as Hpos.
    assert (j < k) as Hj by lia.
    assert (slice_offset (drop j (take k (transcript w0))) (transcript w0) = j) as ->.
    { unfold slice_offset. destruct (lookup_lt_is_Some_2 (transcript w0) j) as [idj Hidj]; [lia|].
      assert (head (drop j (take k (transcript w0))) = Some idj) as ->.
      { rewrite head_lookup, lookup_drop, Nat.add_0_r, lookup_take_lt by done. done. }
      simpl. by rewrite (proj2 (position_lookup _ _ j Hn) Hidj). }
    apply IH.
    + by etrans.
    + by apply (settled_keeps d w).
    + by apply (readable_keeps json_str d.2 w).
    + done.
    + rewrite map_app, Hids, Hwin. rewrite <- (take_drop k (transcript w0)) at 3. rewrite drop_app_le; [done|].
      rewrite length_take. lia.
    + lia.
    + unfold j. simpl in Hfuel. lia.
Qed.

(** C5: scrolling back reads the whole transcript: starting from the newest page
    and asking for the page before the first event shown, as long as the reported
    offset says there is more, gives every event of the transcript once and in
    order, whatever the page size, and with a cache of bodies that need only hold
    the events of one line. *)
Theorem scrolling_back_reads_all d n requests :
  settled d w0 → readable json_str d.2 w0 → [] ∉ transcript w0 →
  length (transcript w0) <= S requests * Z.to_nat (page_limit (newest n)) →
  ∃ window w', load_all requests d n w0 = (Ret (window, 0%Z), w') ∧ map (event_str "event_id") window = transcript w0.
Proof.
  intros Hs Hr Hne Hfuel. assert (keeps_index w0 w0) as Hrefl by reflexivity.
  destruct (events_page_slice json_str capacity t d (newest n) w0 Hrefl Hs Hr) as (evs & w & E & Hk & Hids).
  fold w0 in E, Hids. unfold load_all, mbind, M_bind. rewrite E. cbn [fst snd].
  assert (slice (newest n) (transcript w0) = drop (length (transcript w0) - Z.to_nat (page_limit (newest n))) (transcript w0)) as Hsl by done.
  set (j := length (transcript w0) - Z.to_nat (page_limit (newest n))) in *. rewrite Hsl in Hids |- *.
  pose proof (page_limit_positive (newest n)) as Hpos.
  assert (NoDup (transcript w0)) as Hn by (apply transcript_nodup, wf_run, wf_new).
  destruct (decide (transcript w0 = [])) as [Hnil|Hnil].
  { rewrite Hnil in Hids |- *. rewrite drop_nil in Hids. apply map_eq_nil in Hids as ->. rewrite drop_nil. exists [], w. by destruct requests. }
  assert (0 < length (transcript w0)) as Hlen by (destruct (transcript w0); [done|simpl; lia]).
  assert (slice_offset (drop j (transcript w0)) (transcript w0) = j) as ->.
  { unfold slice_offset. destruct (lookup_lt_is_Some_2 (transcript w0) j) as [idj Hidj]; [lia|].
    rewrite head_lookup, lookup_drop, Nat.add_0_r, Hidj. simpl. by rewrite (proj2 (position_lookup _ _ j Hn) Hidj). }
  apply (load_older_spec d n requests evs j w); [done|by apply (settled_keeps d w0)|by apply (readable_keeps json_str d.2 w0)|done|done|left; lia|].
  unfold j. simpl in Hfuel. lia.
Qed.
End scrolling.

(** ** A client that scrolls back, one event a page *)
Module TranscriptServerDemo.
Import TranscriptDemo WatcherDemo.
Definition t : list SessionWatcher.step := [Discover files; Ensure v2 "s" false].
Definition start : watcher := SessionWatcher.run js t (new_watcher 1).

Lemma scrolling_back_reads_all_witness :
  ∃ window w', load_all js 1 (files, v2) "1" start = (Ret (window, 0%Z), w')
    ∧ map (event_str "event_id") window = [u "u1-user"; u "u2-user"].
Proof.
  destruct (scrolling_back_reads_all js 1 t (files, v2) "1" 1) as (window & w' & E & Ei).
  - split.
    + intros text line Ht Hl (sid & Hf & Hn & _). vm_compute in Ht. injection Ht as <-. vm_compute in Hl.
      apply list_elem_of_singleton in Hl as ->. vm_compute in Hf. injection Hf as <-. vm_compute in Hn. discriminate.
    + intros sid st f _ Hf. by apply elem_of_nil in Hf.
    + intros st Hst. vm_compute in Hst. apply list_elem_of_singleton in Hst as ->. eexists. split; vm_compute; reflexivity.
  - intros p Hp. vm_compute in Hp. apply elem_of_cons in Hp as [->|Hp]; [|apply list_elem_of_singleton in Hp as ->];
      (eexists _, _; split; [reflexivity|]; split; [vm_compute; reflexivity|];
      intros tools; eexists _, _; split; [vm_compute; reflexivity|]; split; [vm_compute; left|vm_compute; lia]).
  - intros Hin. vm_compute in Hin. apply elem_of_cons in Hin as [[=]|Hin]. by apply list_elem_of_singleton in Hin.
  - apply Nat.leb_le. vm_compute. reflexivity.
  - exists window, w'. split; [exact E|]. rewrite Ei. vm_compute. reflexivity.
Defined.
End TranscriptServerDemo.
