(* ===== verification/SubagentCards.v ===== *)
(** * The cards of subagents

    [session_watcher.py]: the links between the tool calls that start subagents
    and the subagents, the enrichment of events with them, the parents that are
    kept until they are enriched and their re-broadcast; and [on_events] of
    [app_context.py].

    Enrichment writes into the event objects, which the body cache, the kept
    parents and the answers share: the objects live in a heap and are passed by
    address.  What the body cache hands out ([SessionWatcher._resolve_bodies_locked])
    is an argument: any addresses, the same as before or fresh ones. *)

From Stdlib Require Import NArith ZArith QArith Lia.
From S2P Require Import Prelude PyStr PyJson PyMonad PyKeyed PyBytes SessionParser SessionWatcher.
From stdpp Require Import options.
#[global] Open Scope nat_scope.
#[local] Open Scope py_scope.

Definition isSome {A} (o : option A) : bool := match o with Some _ => true | None => false end.

(** ** State *)
Record cards := {
  objects : list dict;
  _subagent_metadata : list (pystr * dict);
  _subagent_meta_read_failed : list pystr;
  _subagent_tool_use_id : list (pystr * pystr);
  _subagent_id_by_tool_call : list (json * pystr);
  _unlinked_agent_parent_events : list (pystr * nat);
  (** every batch handed to the event queues: the objects, and what they were then *)
  sent : list (list (nat * dict));
}.
Abbreviation C := (M cards).
Definition no_cards : cards :=
  {| objects := []; _subagent_metadata := []; _subagent_meta_read_failed := []; _subagent_tool_use_id := [];
     _subagent_id_by_tool_call := []; _unlinked_agent_parent_events := []; sent := [] |}.

Definition with_objects (f : list dict → list dict) (c : cards) : cards :=
  {| objects := f (objects c); _subagent_metadata := _subagent_metadata c; _subagent_meta_read_failed := _subagent_meta_read_failed c;
     _subagent_tool_use_id := _subagent_tool_use_id c; _subagent_id_by_tool_call := _subagent_id_by_tool_call c;
     _unlinked_agent_parent_events := _unlinked_agent_parent_events c; sent := sent c |}.
Definition with_metadata (meta : list (pystr * dict)) (tool_use : list (pystr * pystr)) (c : cards) : cards :=
  {| objects := objects c; _subagent_metadata := meta; _subagent_meta_read_failed := _subagent_meta_read_failed c;
     _subagent_tool_use_id := tool_use; _subagent_id_by_tool_call := _subagent_id_by_tool_call c;
     _unlinked_agent_parent_events := _unlinked_agent_parent_events c; sent := sent c |}.
Definition with_failed (sub_id : pystr) (c : cards) : cards :=
  {| objects := objects c; _subagent_metadata := _subagent_metadata c; _subagent_meta_read_failed := sub_id :: _subagent_meta_read_failed c;
     _subagent_tool_use_id := _subagent_tool_use_id c; _subagent_id_by_tool_call := _subagent_id_by_tool_call c;
     _unlinked_agent_parent_events := _unlinked_agent_parent_events c; sent := sent c |}.
Definition with_links (f : list (json * pystr) → list (json * pystr)) (c : cards) : cards :=
  {| objects := objects c; _subagent_metadata := _subagent_metadata c; _subagent_meta_read_failed := _subagent_meta_read_failed c;
     _subagent_tool_use_id := _subagent_tool_use_id c; _subagent_id_by_tool_call := f (_subagent_id_by_tool_call c);
     _unlinked_agent_parent_events := _unlinked_agent_parent_events c; sent := sent c |}.
Definition with_unlinked (f : list (pystr * nat) → list (pystr * nat)) (c : cards) : cards :=
  {| objects := objects c; _subagent_metadata := _subagent_metadata c; _subagent_meta_read_failed := _subagent_meta_read_failed c;
     _subagent_tool_use_id := _subagent_tool_use_id c; _subagent_id_by_tool_call := _subagent_id_by_tool_call c;
     _unlinked_agent_parent_events := f (_unlinked_agent_parent_events c); sent := sent c |}.
Definition with_sent (batch : list (nat * dict)) (c : cards) : cards :=
  {| objects := objects c; _subagent_metadata := _subagent_metadata c; _subagent_meta_read_failed := _subagent_meta_read_failed c;
     _subagent_tool_use_id := _subagent_tool_use_id c; _subagent_id_by_tool_call := _subagent_id_by_tool_call c;
     _unlinked_agent_parent_events := _unlinked_agent_parent_events c; sent := sent c ++ [batch] |}.

(** The object at an address, and those at several. *)
Definition object (c : cards) (r : nat) : dict := default [] (objects c !! r).
Definition values (c : cards) (refs : list nat) : list (nat * dict) := map (λ r, (r, object c r)) refs.

(** ** Reading a subagent's [meta.json] *)

(** What is found of the file: nothing, no permission to read it, bytes that are
    not UTF-8, a text. *)
Inductive meta_file := Absent | Unreadable | NotUtf8 | Text (s : pystr).

Definition metadata_of (sub_id : pystr) (meta : dict) : dict :=
  [(u "agent_type", jget_or "agentType" (JStr []) meta); (u "description", jget_or "description" (JStr []) meta);
   (u "session_id", JStr sub_id)].
Definition store_meta (sub_id : pystr) (meta : dict) (c : cards) : cards :=
  with_metadata
    (match dget sub_id (_subagent_metadata c) with
     | None => dset sub_id (metadata_of sub_id meta) (_subagent_metadata c)
     | Some _ => _subagent_metadata c
     end)
    (match jget "toolUseId" meta with
     | JStr ((_ :: _) as tool_use_id) => dset sub_id tool_use_id (_subagent_tool_use_id c)
     | _ => _subagent_tool_use_id c
     end) c.
Definition read_meta (sub_id : pystr) (file : meta_file) : C unit :=
  c ← gets (λ c, c);
  if isSome (dget sub_id (_subagent_metadata c)) || (sub_id ∈? _subagent_meta_read_failed c) then mret tt
  else match file with
  | Absent | Unreadable => mret tt
  | NotUtf8 => raise (ValueError (u "UnicodeDecodeError"))
  | Text s =>
      match loads s with
      | None => modify (with_failed sub_id)
      | Some (JObj meta) => modify (store_meta sub_id meta)
      | Some _ => raise AttributeError (** [meta.get] of what is no object *)
      end
  end.
(** The half of the discovery that reads the metadata; the other half is
    [SessionWatcher._discover_subagent_sessions]. *)
Definition _discover_subagent_sessions (found : list (pystr * meta_file)) : C unit :=
  for_each found (λ f, read_meta f.1 f.2).
Definition get_subagent_metadata (subagent_session_id : pystr) (c : cards) : option dict :=
  dget subagent_session_id (_subagent_metadata c).

(** ** Enrichment *)

Definition kset_default {V} (k : json) (v : V) (d : list (json * V)) : list (json * V) :=
  match kget k d with Some _ => d | None => kset k v d end.
Definition link_result (event : dict) (links : list (json * pystr)) : list (json * pystr) :=
  match is_tool_result event, dget "subagent_id" event with
  | true, Some sub => kset_default (jget "tool_call_id" event) (default [] (as_str sub)) links
  | _, _ => links
  end.
Definition link_results (events : list dict) (links : list (json * pystr)) : list (json * pystr) :=
  foldl (λ links event, link_result event links) links events.
Definition subagent_by_tool_call (c : cards) : list (json * pystr) :=
  foldl (λ d kv, kset_default kv.1 kv.2 d)
    (foldl (λ d kv, kset (JStr kv.2) kv.1 d) [] (_subagent_tool_use_id c))
    (_subagent_id_by_tool_call c).

Definition nonempty {A} (o : option (list A)) : option (list A) := match o with Some [] => None | _ => o end.
(** By the name of the session file, or by the bare id. *)
Definition metadata_for (c : cards) (sub_id : pystr) : option dict :=
  match nonempty (dget sub_id (_subagent_metadata c)) with
  | Some m => Some m
  | None => nonempty (dget (u "agent-" ++ sub_id) (_subagent_metadata c))
  end.

Definition is_agent_call (tc : json) : bool := jeqs (jget "tool_name" (dict_or_empty tc)) "Agent".
Definition has_card (tc : json) : bool := isSome (dget "subagent_metadata" (dict_or_empty tc)).
Definition call_id (tc : json) : json := jget "tool_call_id" (dict_or_empty tc).
Definition attach (card : option dict) (tc : json) : json :=
  match card, tc with
  | Some m, JObj d => JObj (dset "subagent_metadata" (JObj m) d)
  | _, _ => tc
  end.
Definition enrich_call (c : cards) (table : list (json * pystr)) (tc : json) : outcome json :=
  if negb (is_agent_call tc) then Ret tc
  else
    k ← hashable (call_id tc);
    Ret (attach (nonempty (kget k table) ≫= metadata_for c) tc).
(** The calls in order, each written in place: those before one that raises keep
    what they were given. *)
Fixpoint enrich_calls (c : cards) (table : list (json * pystr)) (tcs : list json) : list json * outcome unit :=
  match tcs with
  | [] => ([], Ret tt)
  | tc :: tcs' =>
      match enrich_call c table tc with
      | Ret tc' => let '(l, o) := enrich_calls c table tcs' in (tc' :: l, o)
      | Raise e => (tc :: tcs', Raise e)
      end
  end.
Definition is_assistant (event : dict) : bool := jeqs (jget "type" event) "assistant_message".
Definition tool_calls (event : dict) : list json := list_or_empty (jget "tool_calls" event).
Definition set_tool_calls (tcs : list json) (event : dict) : dict :=
  match dget "tool_calls" event with Some _ => dset "tool_calls" (JList tcs) event | None => event end.
Definition enrich_object (table : list (json * pystr)) (r : nat) : C unit := λ c,
  let event := object c r in
  if is_assistant event then
    let '(tcs, o) := enrich_calls c table (tool_calls event) in
    (o, with_objects (alter (set_tool_calls tcs) r) c)
  else (Ret tt, c).
Definition _enrich_subagent_metadata (refs : list nat) : C unit :=
  modify (λ c, with_links (link_results (map (object c) refs)) c);;
  table ← gets subagent_by_tool_call;
  for_each refs (enrich_object table).

(** ** Parents that are not enriched yet *)

Definition agent_tool_calls (event : dict) : list json := List.filter is_agent_call (tool_calls event).
Definition _is_fully_enriched (event : dict) : bool :=
  (agent_tool_calls event <>? []) && forallb has_card (agent_tool_calls event).
Definition _linked_agent_tool_call_ids (event : dict) : list json :=
  map call_id (List.filter has_card (agent_tool_calls event)).
(** [==] of two frozen sets *)
Definition includes (l m : list json) : bool := forallb (λ k, existsb (key_eqb k) m) l.
Definition same_set (l m : list json) : bool := includes l m && includes m l.

Definition remember (r : nat) (c : cards) : cards :=
  match event_str "message_uuid" (object c r) with
  | [] => c
  | message_uuid => with_unlinked (dset message_uuid r) c
  end.
Definition _cache_unlinked_agent_parents (refs : list nat) : C unit :=
  for_each refs (λ r,
    event ← gets (λ c, object c r);
    if negb (is_assistant event) then mret tt
    else if agent_tool_calls event =? [] then mret tt
    else if _is_fully_enriched event then mret tt
    else modify (remember r)).

(** The parents of the backlog whose subagent still runs; [refs] are those whose
    ids the priming pass recorded. *)
Definition is_running (c : cards) (event : dict) : bool :=
  existsb (λ tc, negb (has_card tc) && negb (isSome (kget (call_id tc) (_subagent_id_by_tool_call c)))) (agent_tool_calls event).
Definition _seed_running_agent_parents (refs : list nat) : C unit :=
  _enrich_subagent_metadata refs;;
  for_each refs (λ r, modify (λ c,
    let event := object c r in
    if agent_tool_calls event =? [] then c
    else if forallb has_card (agent_tool_calls event) then c
    else if negb (is_running c event) then c
    else remember r c)).

(** ** Emission *)

(** [on_events] of the application: the batch goes to the event queues, then the
    whole transcript is read for the activity indicator; [all] is what the body
    cache hands out for it. *)
Definition on_events (all batch : list nat) : C unit :=
  modify (λ c, with_sent (values c batch) c);;
  _enrich_subagent_metadata all.
(** What [_poll_for_changes] does with the pending events of one session. *)
Definition emit_events (all pending : list nat) : C unit :=
  if pending =? [] then mret tt
  else
    _enrich_subagent_metadata pending;;
    _cache_unlinked_agent_parents pending;;
    on_events all pending.

(** One cached parent: enriched again; whether it gained a card, and whether it
    has them all. *)
Definition relink (r : nat) : C (bool * bool) :=
  before ← gets (λ c, _linked_agent_tool_call_ids (object c r));
  _enrich_subagent_metadata [r];;
  gets (λ c, (negb (same_set (_linked_agent_tool_call_ids (object c r)) before), _is_fully_enriched (object c r))).
Fixpoint relink_all (cached : list (pystr * nat)) : C (list nat * list pystr) :=
  match cached with
  | [] => mret ([], [])
  | (message_uuid, r) :: cached' =>
      x ← relink r;
      rest ← relink_all cached';
      mret ((if x.1 : bool then [r] else []) ++ rest.1, (if x.2 : bool then [message_uuid] else []) ++ rest.2)
  end.
Definition _rebroadcast_relinked_parents (all : list nat) : C unit :=
  cached ← gets _unlinked_agent_parent_events;
  x ← relink_all cached;
  modify (with_unlinked (λ d, foldl (λ d k, ddel k d) d x.2));;
  if x.1 =? [] then mret tt else on_events all x.1.

(** ** What enrichment does, as a reference *)

(** The subagent of a tool call: the last [meta.json] that names the call, else
    the result of the call. *)
Definition linked_to (c : cards) (call : json) : option pystr :=
  match List.find (λ kv, key_eqb call (JStr kv.2)) (reverse (_subagent_tool_use_id c)) with
  | Some kv => Some kv.1
  | None => kget call (_subagent_id_by_tool_call c)
  end.
Definition card_of (c : cards) (tc : json) : option dict := nonempty (linked_to c (call_id tc)) ≫= metadata_for c.
Definition carded_call (c : cards) (tc : json) : json := if is_agent_call tc then attach (card_of c tc) tc else tc.
Definition carded (c : cards) (event : dict) : dict :=
  if is_assistant event then set_tool_calls (map (carded_call c) (tool_calls event)) event else event.
Definition linked (refs : list nat) (c : cards) : cards := with_links (link_results (map (object c) refs)) c.
Definition enriched (refs : list nat) (c : cards) : cards :=
  with_objects (imap (λ r event, if r ∈? refs then carded (linked refs c) event else event)) (linked refs c).

(** The id of a call that starts a subagent can be a key. *)
Definition hashable_calls (event : dict) : Prop :=
  Forall (λ tc, is_agent_call tc = true → is_Ret (hashable (call_id tc)) = true) (tool_calls event).
Definition usable (c : cards) : Prop := Forall hashable_calls (objects c).

Lemma kget_key {V} k k' (d : list (json * V)) : key_eqb k k' = true → kget k d = kget k' d.
Proof.
  intros E. induction d as [|[k1 v] d IH]; simpl; [done|]. by rewrite (key_eqb_trans _ _ k1 E), IH.
Qed.
Lemma kget_default {V} k k' (v : V) d :
  kget k (kset_default k' v d) = match kget k d with Some x => Some x | None => if key_eqb k k' then Some v else None end.
Proof.
  unfold kset_default. destruct (kget k' d) as [x|] eqn:E.
  - destruct (kget k d) eqn:E2; [done|]. destruct (key_eqb k k') eqn:Ek; [|done]. rewrite (kget_key k k' d Ek), E in E2. done.
  - rewrite kget_kset. destruct (key_eqb k k') eqn:Ek; [|by destruct (kget k d)]. by rewrite (kget_key k k' d Ek), E.
Qed.

Lemma table_linked c call : kget call (subagent_by_tool_call c) = linked_to c call.
Proof.
  unfold subagent_by_tool_call, linked_to.
  assert (∀ d l, kget call (foldl (λ d kv, kset_default kv.1 kv.2 d) d l)
    = match kget call d with Some x => Some x | None => kget call l end) as ->.
  { intros d l. revert d. induction l as [|[k v] l IH]; intros d; simpl; [by destruct (kget call d)|].
    rewrite IH, kget_default. simpl. destruct (kget call d); [done|]. by destruct (key_eqb call k). }
  assert (∀ l, kget call (foldl (λ d kv, kset (JStr kv.2) kv.1 d) [] l)
    = (λ kv : pystr * pystr, kv.1) <$> List.find (λ kv, key_eqb call (JStr kv.2)) (reverse l)) as ->.
  { induction l as [|[sub tu] l IH] using rev_ind; [done|]. rewrite foldl_app, reverse_app. simpl. rewrite kget_kset, IH.
    by destruct (key_eqb call (JStr tu)). }
  by destruct (List.find _ _).
Qed.

(** *** The calls *)
Lemma dict_attach card tc : is_agent_call (attach card tc) = is_agent_call tc ∧ call_id (attach card tc) = call_id tc.
Proof.
  destruct card as [m|], tc; try done. unfold is_agent_call, call_id, attach. simpl. unfold jget. by rewrite !dget_dset_ne.
Qed.
Lemma is_agent_carded c tc : is_agent_call (carded_call c tc) = is_agent_call tc.
Proof. unfold carded_call. destruct (is_agent_call tc) eqn:E; [|done]. by rewrite (proj1 (dict_attach _ _)). Qed.
Lemma call_id_carded c tc : call_id (carded_call c tc) = call_id tc.
Proof. unfold carded_call. destruct (is_agent_call tc); [|done]. apply dict_attach. Qed.
Lemma dset_twice k v v' (d : dict) : dset k v (dset k v' d) = dset k v d.
Proof.
  induction d as [|[k1 v1] d IH]; simpl; [by rewrite bool_decide_eq_true_2|].
  destruct (bool_decide_reflect (k = k1)); simpl; [by rewrite bool_decide_eq_true_2|]. rewrite bool_decide_eq_false_2 by done. by rewrite IH.
Qed.
Lemma attach_twice card tc : attach card (attach card tc) = attach card tc.
Proof. destruct card as [m|], tc as [| | | | | | |d]; try done. simpl. by rewrite dset_twice. Qed.
Lemma carded_call_twice c tc : carded_call c (carded_call c tc) = carded_call c tc.
Proof.
  unfold carded_call at 1. rewrite is_agent_carded. unfold card_of. rewrite call_id_carded.
  unfold carded_call. destruct (is_agent_call tc); [|done]. apply attach_twice.
Qed.
Lemma has_card_attach m tc : is_agent_call tc = true → has_card (attach (Some m) tc) = true.
Proof. destruct tc as [| | | | | | |d]; try done. intros _. unfold has_card. simpl. by rewrite dget_dset_eq. Qed.
Lemma has_card_carded c tc : has_card tc = true → has_card (carded_call c tc) = true.
Proof.
  unfold carded_call. destruct (is_agent_call tc) eqn:E; [|done]. destruct (card_of c tc); [|done]. intros _. by apply has_card_attach.
Qed.

(** *** The events *)
Lemma tool_calls_carded c event :
  tool_calls (carded c event) = if is_assistant event then map (carded_call c) (tool_calls event) else tool_calls event.
Proof.
  unfold carded. destruct (is_assistant event); [|done]. unfold set_tool_calls, tool_calls, jget.
  destruct (dget "tool_calls" event) eqn:E; [by rewrite dget_dset_eq|by rewrite E].
Qed.
Lemma field_carded c k event : u "tool_calls" ≠ k → dget k (carded c event) = dget k event.
Proof.
  intros Hk. unfold carded, set_tool_calls. destruct (is_assistant event); [|done].
  destruct (dget (u "tool_calls") event); [|done]. by apply dget_dset_ne.
Qed.
Lemma is_assistant_carded c event : is_assistant (carded c event) = is_assistant event.
Proof. unfold is_assistant, jget. by rewrite field_carded. Qed.
Lemma uuid_carded c event : event_str "message_uuid" (carded c event) = event_str "message_uuid" event.
Proof. unfold event_str. by rewrite field_carded. Qed.
Lemma agent_calls_carded c event : is_assistant event = true →
  agent_tool_calls (carded c event) = map (carded_call c) (agent_tool_calls event).
Proof.
  intros Ha. unfold agent_tool_calls. rewrite tool_calls_carded, Ha. induction (tool_calls event) as [|tc tcs IH]; [done|].
  simpl. rewrite is_agent_carded. destruct (is_agent_call tc); simpl; by rewrite IH.
Qed.
Lemma hashable_carded c event : hashable_calls event → hashable_calls (carded c event).
Proof.
  unfold hashable_calls. rewrite tool_calls_carded. destruct (is_assistant event); [|done]. rewrite Forall_map. intros Hf.
  eapply Forall_impl; [exact Hf|]. intros tc Htc. simpl. by rewrite is_agent_carded, call_id_carded.
Qed.
Lemma carded_twice c event : carded c (carded c event) = carded c event.
Proof.
  unfold carded at 1. rewrite is_assistant_carded, tool_calls_carded. destruct (is_assistant event) eqn:Ha; [|done].
  rewrite map_map. rewrite (map_ext _ _ (carded_call_twice c)). unfold carded. rewrite Ha. unfold set_tool_calls.
  destruct (dget "tool_calls" event) eqn:E; [|by rewrite E]. by rewrite dget_dset_eq, dset_twice.
Qed.
Lemma full_carded c event : _is_fully_enriched event = true → _is_fully_enriched (carded c event) = true.
Proof.
  destruct (is_assistant event) eqn:Ha; [|unfold carded; by rewrite Ha]. unfold _is_fully_enriched.
  rewrite agent_calls_carded by done. rewrite !andb_true_iff, !negb_true_iff, !bool_decide_eq_false. intros [Hne Hf]. split.
  - intros E%map_eq_nil. by apply Hne.
  - rewrite forallb_forall in Hf |- *. intros tc (tc' & <- & Hin)%in_map_iff. by apply has_card_carded, Hf.
Qed.

(** *** The loop over the objects *)
Lemma enrich_calls_carded c tcs :
  Forall (λ tc, is_agent_call tc = true → is_Ret (hashable (call_id tc)) = true) tcs →
  enrich_calls c (subagent_by_tool_call c) tcs = (map (carded_call c) tcs, Ret tt).
Proof.
  induction 1 as [|tc tcs Htc _ IH]; [done|]. cbn [enrich_calls map]. unfold enrich_call, carded_call at 1.
  destruct (is_agent_call tc); simpl; [|by rewrite IH]. rewrite (hashable_Ret _ (Htc eq_refl)). simpl. rewrite IH.
  unfold card_of. by rewrite table_linked.
Qed.
Lemma with_objects_id f c : f (objects c) = objects c → with_objects f c = c.
Proof. destruct c; unfold with_objects; simpl. by intros ->. Qed.
Lemma with_objects_ext f g c : f (objects c) = g (objects c) → with_objects f c = with_objects g c.
Proof. unfold with_objects. by intros ->. Qed.

Lemma alter_same {A} (f : A → A) (l : list A) r : (∀ x, l !! r = Some x → f x = x) → alter f r l = l.
Proof.
  intros Hf. apply list_eq. intros i. rewrite list_lookup_alter. case_decide as E; [subst i|done].
  destruct (l !! r) as [x|] eqn:Ex; [|done]. simpl. by rewrite (Hf x).
Qed.

Lemma enrich_object_carded c r : usable c →
  enrich_object (subagent_by_tool_call c) r c = (Ret tt, with_objects (alter (carded c) r) c).
Proof.
  intros Hu. unfold enrich_object, object. destruct (objects c !! r) as [event|] eqn:E; simpl.
  - rewrite enrich_calls_carded by (by apply (Forall_lookup_1 _ _ _ _ Hu E)).
    destruct (is_assistant event) eqn:Ha; f_equal; [|symmetry]; [apply with_objects_ext, list_alter_ext; [|done]|apply with_objects_id, alter_same];
      intros x Hx; rewrite E in Hx; injection Hx as <-; unfold carded; by rewrite Ha.
  - f_equal. symmetry. apply with_objects_id, alter_same. intros x Hx. by rewrite E in Hx.
Qed.

(** The tables that decide the cards are those of [c0]. *)
Definition same_tables (c0 c : cards) : Prop :=
  _subagent_metadata c = _subagent_metadata c0 ∧ _subagent_tool_use_id c = _subagent_tool_use_id c0
  ∧ _subagent_id_by_tool_call c = _subagent_id_by_tool_call c0.
Lemma carded_tables c0 c event : same_tables c0 c → carded c event = carded c0 event.
Proof.
  intros (E1 & E2 & E3). unfold carded, carded_call, card_of, linked_to, metadata_for. by rewrite E1, E2, E3.
Qed.

Lemma usable_map c0 c (sel : nat → bool) : usable c →
  Forall hashable_calls (imap (λ r event, if sel r then carded c0 event else event) (objects c)).
Proof.
  intros Hu. apply Forall_lookup_2. intros i x (event & Ei & ->)%list_lookup_imap_Some.
  destruct (sel i); [apply hashable_carded|]; by apply (Forall_lookup_1 _ _ _ _ Hu Ei).
Qed.

Lemma enrich_loop c0 refs : ∀ c, usable c → same_tables c0 c →
  for_each refs (enrich_object (subagent_by_tool_call c0)) c
  = (Ret tt, with_objects (imap (λ r event, if r ∈? refs then carded c0 event else event)) c).
Proof.
  induction refs as [|r refs IH]; intros c Hu Ht.
  - cbn [for_each]. f_equal. symmetry. apply with_objects_id. apply list_eq. intros i. rewrite list_lookup_imap.
    by destruct (objects c !! i).
  - cbn [for_each]. unfold mbind, M_bind.
    assert (subagent_by_tool_call c0 = subagent_by_tool_call c) as Htbl.
    { destruct Ht as (_ & E2 & E3). unfold subagent_by_tool_call. by rewrite E2, E3. }
    rewrite Htbl at 1. rewrite enrich_object_carded by done. rewrite IH.
    + f_equal. destruct c as [os ? ? ? ? ? ?]. unfold with_objects. simpl. f_equal. apply list_eq. intros i.
      rewrite !list_lookup_imap, list_lookup_alter. destruct (decide (r = i)) as [->|Hne]; destruct (os !! i) as [event|]; try done; simpl.
      * rewrite (carded_tables c0 _ event Ht). rewrite (bool_decide_eq_true_2 (i ∈ i :: refs)) by left. f_equal.
        case_bool_decide; [by rewrite carded_twice|done].
      * f_equal. assert (bool_decide (i ∈ r :: refs) = bool_decide (i ∈ refs)) as ->; [|done].
        apply bool_decide_ext. rewrite elem_of_cons. naive_solver.
    + unfold usable. simpl. apply Forall_lookup_2. intros i x. rewrite list_lookup_alter. intros Hx.
      case_decide; [subst i; apply fmap_Some in Hx as (event & Ei & ->); apply hashable_carded|]; by eapply (Forall_lookup_1 _ _ _ _ Hu).
    + done.
Qed.

Lemma enrich_closed refs c : usable c → _enrich_subagent_metadata refs c = (Ret tt, enriched refs c).
Proof.
  intros Hu. unfold _enrich_subagent_metadata, modify, gets, mbind, M_bind. fold (linked refs c).
  by rewrite enrich_loop.
Qed.


(** ** The watcher at work *)

(** A line becomes an event object, and the result of a call a link; the metadata of a directory are read; the
    pending events of a session are emitted; a request enriches what it answers;
    the kept parents are looked at again.  The thread of the watcher takes the
    second, third and last of them in turn, a request may come at any time. *)
Inductive step :=
  | Parsed (event : dict)
  | Discovered (found : list (pystr * meta_file))
  | Emitted (all pending : list nat)
  | Answered (refs : list nat)
  | Rebroadcast (all : list nat).
Definition do_step (c : cards) (s : step) : cards :=
  match s with
  | Parsed event => with_links (link_result event) (with_objects (λ os, os ++ [event]) c)
  | Discovered found => (_discover_subagent_sessions found c).2
  | Emitted all pending => (emit_events all pending c).2
  | Answered refs => (_enrich_subagent_metadata refs c).2
  | Rebroadcast all => (_rebroadcast_relinked_parents all c).2
  end.
Definition run (t : list step) (c : cards) : cards := foldl do_step c t.

(** *** The kept parents and the objects they are *)
Definition uuid (c : cards) (r : nat) : pystr := event_str "message_uuid" (object c r).
Record kept_ok (c : cards) : Prop := {
  kept_usable : usable c;
  kept_keys : NoDup (map fst (_unlinked_agent_parent_events c));
  kept_parent : ∀ k r, (k, r) ∈ _unlinked_agent_parent_events c →
    is_assistant (object c r) = true ∧ uuid c r = k ∧ r < length (objects c) }.

(** The two relations every operation respects: the objects only gain cards; and
    what was sent stays. *)
Record grows (c c' : cards) : Prop := {
  grows_objects : ∀ r event, objects c !! r = Some event → ∃ event', objects c' !! r = Some event'
    ∧ is_assistant event' = is_assistant event ∧ event_str "message_uuid" event' = event_str "message_uuid" event
    ∧ (agent_tool_calls event' = [] ↔ agent_tool_calls event = [])
    ∧ (_is_fully_enriched event = true → _is_fully_enriched event' = true);
  grows_sent : sent c `prefix_of` sent c' }.
Instance grows_preorder : PreOrder grows.
Proof.
  split.
  - intros c. split; [|done]. intros r event E. by exists event.
  - intros c1 c2 c3 [H1 S1] [H2 S2]. split; [|by etrans]. intros r event E.
    destruct (H1 r event E) as (e2 & E2 & A2 & U2 & N2 & F2). destruct (H2 r e2 E2) as (e3 & E3 & A3 & U3 & N3 & F3).
    exists e3. split_and!; [done|congruence|congruence|by rewrite N3|auto].
Qed.

(** *** Objects after an operation *)
Definition carded_at (refs : list nat) (c : cards) : cards :=
  with_objects (imap (λ r event, if r ∈? refs then carded c event else event)) c.
Lemma enriched_at refs c : enriched refs c = carded_at refs (linked refs c).
Proof. done. Qed.
Lemma object_at refs c r : object (carded_at refs c) r = if decide (r ∈ refs) then carded c (object c r) else object c r.
Proof.
  unfold object, carded_at. simpl. rewrite list_lookup_imap. destruct (objects c !! r) as [event|]; simpl.
  - case_bool_decide; [by rewrite decide_True|by rewrite decide_False].
  - by destruct (decide _).
Qed.
Lemma usable_at refs c : usable c → usable (carded_at refs c).
Proof. intros Hu. by apply (usable_map c c (λ r, r ∈? refs)). Qed.
Lemma usable_enriched refs c : usable c → usable (enriched refs c).
Proof. apply (usable_at refs (linked refs c)). Qed.

Lemma fields_carded c event :
  is_assistant (carded c event) = is_assistant event ∧ event_str "message_uuid" (carded c event) = event_str "message_uuid" event
  ∧ (agent_tool_calls (carded c event) = [] ↔ agent_tool_calls event = [])
  ∧ (_is_fully_enriched event = true → _is_fully_enriched (carded c event) = true).
Proof.
  split; [apply is_assistant_carded|]. split; [apply uuid_carded|]. split; [|apply full_carded].
  destruct (is_assistant event) eqn:Ha; [|unfold carded; by rewrite Ha]. rewrite agent_calls_carded by done.
  split; [apply map_eq_nil|by intros ->].
Qed.
Lemma grows_at refs c : grows c (carded_at refs c).
Proof.
  split; [|done]. intros r event E. unfold carded_at. simpl. rewrite list_lookup_imap, E. simpl. eexists. split; [done|].
  case_bool_decide; [apply fields_carded|done].
Qed.
Lemma grows_enrich refs c : usable c → grows c (_enrich_subagent_metadata refs c).2.
Proof. intros Hu. rewrite enrich_closed by done. destruct (grows_at refs (linked refs c)) as [H1 H2]. by split. Qed.
Lemma grows_objects_eq c c' : objects c' = objects c → sent c `prefix_of` sent c' → grows c c'.
Proof. intros E S. split; [|done]. rewrite E. intros r event Er. by exists event. Qed.

Lemma grows_object c c' r : grows c c' → r < length (objects c) →
  r < length (objects c') ∧ is_assistant (object c' r) = is_assistant (object c r) ∧ uuid c' r = uuid c r
  ∧ (agent_tool_calls (object c' r) = [] ↔ agent_tool_calls (object c r) = [])
  ∧ (_is_fully_enriched (object c r) = true → _is_fully_enriched (object c' r) = true).
Proof.
  intros [Ho _] (event & E)%lookup_lt_is_Some_2. destruct (Ho r event E) as (event' & E' & Hf).
  split; [by eapply lookup_lt_Some|]. unfold uuid, object. by rewrite E, E'.
Qed.

(** *** Looking at the kept parents again *)
Definition gains (c : cards) (r : nat) : bool :=
  negb (same_set (_linked_agent_tool_call_ids (carded c (object c r))) (_linked_agent_tool_call_ids (object c r))).
Definition complete (c : cards) (r : nat) : bool := _is_fully_enriched (carded c (object c r)).

Lemma assistant_links event links : is_assistant event = true → link_result event links = links.
Proof.
  unfold link_result, is_assistant, is_tool_result. destruct (jget "type" event); try done. simpl. intros ->%bool_decide_eq_true.
  by rewrite bool_decide_eq_false_2.
Qed.
Lemma relink_closed r c : usable c → is_assistant (object c r) = true →
  relink r c = (Ret (gains c r, complete c r), carded_at [r] c).
Proof.
  intros Hu Ha. unfold relink, gets, mbind, M_bind. rewrite enrich_closed by done.
  assert (linked [r] c = c) as El.
  { unfold linked, with_links, link_results. cbn [map foldl]. rewrite assistant_links by done. by destruct c. }
  rewrite enriched_at, El. unfold gains, complete. by rewrite object_at, decide_True by (by left).
Qed.
Lemma carded_at_twice r refs c : carded_at refs (carded_at [r] c) = carded_at (r :: refs) c.
Proof.
  set (f := λ (sel : list nat) i event, if i ∈? sel then carded c event else event).
  change (with_objects (λ os, imap (f refs) (imap (f [r]) os)) c = with_objects (imap (f (r :: refs))) c).
  apply with_objects_ext, list_eq. intros i. rewrite !list_lookup_imap. destruct (objects c !! i) as [event|]; [|done].
  simpl. f_equal. unfold f.
  assert (bool_decide (i ∈ r :: refs) = bool_decide (i ∈ [r]) || bool_decide (i ∈ refs)) as ->.
  { repeat case_bool_decide; simpl; set_solver. }
  repeat case_bool_decide; simpl; [|done..]. by rewrite carded_twice.
Qed.
Lemma relink_all_closed cached : ∀ c, usable c → NoDup (map snd cached) → (∀ k r, (k, r) ∈ cached → is_assistant (object c r) = true) →
  relink_all cached c = (Ret (List.filter (gains c) (map snd cached), map fst (List.filter (λ kr, complete c kr.2) cached)),
                         carded_at (map snd cached) c).
Proof.
  induction cached as [|[k r] cached IH]; intros c Hu Hn Ha; cbn [relink_all map].
  - unfold mret, M_ret. f_equal. symmetry. apply with_objects_id, list_eq. intros i. rewrite list_lookup_imap. by destruct (objects c !! i).
  - apply NoDup_cons in Hn as [Hr Hn]. unfold mbind, M_bind. rewrite relink_closed by (done || (apply (Ha k r); left)).
    assert (∀ r', r' ∈ map snd cached → object (carded_at [r] c) r' = object c r') as Ho.
    { intros r' Hr'. rewrite object_at, decide_False; [done|]. intros ->%list_elem_of_singleton. done. }
    assert (∀ r', r' ∈ map snd cached → gains (carded_at [r] c) r' = gains c r' ∧ complete (carded_at [r] c) r' = complete c r') as Hg.
    { intros r' Hr'. unfold gains, complete. rewrite Ho by done. by rewrite (carded_tables c). }
    rewrite IH; [|by apply usable_at|done|].
    + unfold mret, M_ret. cbn [fst snd]. rewrite carded_at_twice. f_equal. f_equal. f_equal.
      * cbn [List.filter]. rewrite (filter_ext_in _ (gains c)); [by destruct (gains c r)|]. intros r' ?%list_elem_of_In. by apply Hg.
      * cbn [List.filter snd]. rewrite (filter_ext_in _ (λ kr, complete c kr.2)); [by destruct (complete c r)|].
        intros [k' r'] ?%list_elem_of_In. apply Hg. by apply list_elem_of_fmap_2' with (k', r').
    + intros k' r' Hin. rewrite Ho; [by apply (Ha k' r'); right|]. by apply list_elem_of_fmap_2' with (k', r').
Qed.

Lemma dget_ddels k (ks : list pystr) : ∀ d : list (pystr * nat),
  dget k (foldl (λ d k, ddel k d) d ks) = if decide (k ∈ ks) then None else dget k d.
Proof.
  induction ks as [|k' ks IH]; intros d; cbn [foldl]; [by rewrite decide_False by apply not_elem_of_nil|]. rewrite IH.
  destruct (decide (k ∈ ks)); [by rewrite decide_True by (by right)|]. destruct (decide (k = k')) as [->|Hne].
  - rewrite decide_True by left. apply dget_ddel_eq.
  - rewrite decide_False by (rewrite elem_of_cons; naive_solver). by apply dget_ddel_ne.
Qed.
Lemma ddels_sub (ks : list pystr) : ∀ d : list (pystr * nat), foldl (λ d k, ddel k d) d ks `sublist_of` d.
Proof.
  induction ks as [|k ks IH]; intros d; simpl; [done|]. etrans; [apply IH|]. unfold ddel. clear.
  induction d as [|[k' v] d IH]; simpl; [done|]. destruct (negb _); [by apply sublist_skip|by apply sublist_cons].
Qed.

Lemma map_sublist {A B} (f : A → B) l1 l2 : l1 `sublist_of` l2 → map f l1 `sublist_of` map f l2.
Proof. induction 1; simpl; [done|by apply sublist_skip|by apply sublist_cons]. Qed.

Definition kept (c : cards) : list nat := map snd (_unlinked_agent_parent_events c).
Lemma kept_nodup c : kept_ok c → NoDup (kept c).
Proof.
  intros [_ Hk Hp]. unfold kept. revert Hk Hp. generalize (_unlinked_agent_parent_events c) as l.
  induction l as [|[k r] l IH]; intros Hk Hp; [constructor|]. simpl in *. apply NoDup_cons in Hk as [Hk Hn]. constructor.
  - intros ([k' r'] & -> & Hin)%list_elem_of_fmap. apply Hk. simpl in *.
    destruct (Hp k r') as (_ & <- & _); [left|]. destruct (Hp k' r') as (_ & -> & _); [by right|]. by apply list_elem_of_fmap_2' with (k', r').
  - apply IH; [done|]. intros k' r' ?. apply Hp. by right.
Qed.
Lemma kept_get c k r : kept_ok c → (k, r) ∈ _unlinked_agent_parent_events c ↔ dget k (_unlinked_agent_parent_events c) = Some r.
Proof. intros [_ Hk _]. split; [by apply dget_NoDup|apply dget_elem]. Qed.

(** The state after the second look at the kept parents, before anything is sent. *)
Definition relinked (c : cards) : cards :=
  with_unlinked (λ d, foldl (λ d k, ddel k d) d (map fst (List.filter (λ kr, complete c kr.2) (_unlinked_agent_parent_events c))))
    (carded_at (kept c) c).
Definition told (all batch : list nat) (c : cards) : cards := enriched all (with_sent (values c batch) c).
Lemma on_events_closed all batch c : usable c → on_events all batch c = (Ret tt, told all batch c).
Proof. intros Hu. unfold on_events, modify, mbind, M_bind. by rewrite enrich_closed. Qed.
Lemma rebroadcast_closed all c : kept_ok c →
  _rebroadcast_relinked_parents all c
  = (Ret tt, match List.filter (gains c) (kept c) with [] => relinked c | batch => told all batch (relinked c) end).
Proof.
  intros Hk. unfold _rebroadcast_relinked_parents, gets, modify. unfold mbind at 1, M_bind at 1. unfold mbind at 1, M_bind at 1.
  rewrite relink_all_closed; [|apply Hk|by apply kept_nodup|intros k r Hin; by apply (kept_parent c Hk k r)].
  unfold mbind, M_bind. cbn [fst snd]. fold (kept c).
  change (with_unlinked _ (carded_at (kept c) c)) with (relinked c).
  destruct (List.filter (gains c) (kept c)) as [|r batch] eqn:E; [by rewrite bool_decide_eq_true_2|].
  rewrite bool_decide_eq_false_2 by done. apply on_events_closed. apply (usable_at (kept c) c), Hk.
Qed.

Lemma key_eqb_refl k : is_Ret (hashable k) = true → key_eqb k k = true.
Proof.
  destruct k; try done; intros _; simpl; try (by apply bool_decide_eq_true_2); apply Qeq_bool_iff; reflexivity.
Qed.
Lemma ids_elem k event : k ∈ _linked_agent_tool_call_ids event ↔ ∃ tc, k = call_id tc ∧ tc ∈ agent_tool_calls event ∧ has_card tc = true.
Proof.
  unfold _linked_agent_tool_call_ids. rewrite list_elem_of_fmap. split.
  - intros (tc & -> & [Hin Hc]%list_elem_of_In%filter_In). exists tc. by rewrite list_elem_of_In.
  - intros (tc & -> & Hin & Hc). exists tc. split; [done|]. apply list_elem_of_In, filter_In. by rewrite <- list_elem_of_In.
Qed.

(** A call that no call of the same id has a card for, and whose card is known,
    makes its event gain. *)
Lemma gains_card c r tc : is_assistant (object c r) = true → tc ∈ agent_tool_calls (object c r) → is_Some (card_of c tc) →
  (∀ tc', tc' ∈ agent_tool_calls (object c r) → key_eqb (call_id tc) (call_id tc') = true → has_card tc' = false) →
  gains c r = true.
Proof.
  intros Ha Hin [m Hm] Hno. apply negb_true_iff, andb_false_iff. left. apply not_true_iff_false. unfold includes. rewrite forallb_forall.
  intros Hall. assert (call_id tc ∈ _linked_agent_tool_call_ids (carded c (object c r))) as Hid.
  { apply ids_elem. exists (carded_call c tc). split; [by rewrite call_id_carded|]. rewrite agent_calls_carded by done.
    split; [by apply list_elem_of_fmap_2|]. apply list_elem_of_In, filter_In in Hin as [_ Hc].
    unfold carded_call. rewrite Hc, Hm. by apply has_card_attach. }
  apply list_elem_of_In, Hall, existsb_exists in Hid as (k & (tc' & -> & Hin' & Hc')%list_elem_of_In%ids_elem & Hk).
  by rewrite (Hno tc' Hin' Hk) in Hc'.
Qed.

(** C10: a kept parent gets its card: if the card of one of its calls is known and
    not yet attached, the next look at the kept parents sends the parent, once,
    with that card, and keeps it only while other cards are missing. *)
Theorem known_card_is_sent c all k r tc m :
  kept_ok c → (k, r) ∈ _unlinked_agent_parent_events c → tc ∈ agent_tool_calls (object c r) → card_of c tc = Some m →
  (∀ tc', tc' ∈ agent_tool_calls (object c r) → key_eqb (call_id tc) (call_id tc') = true → has_card tc' = false) →
  ∃ c' before after, _rebroadcast_relinked_parents all c = (Ret tt, c')
    ∧ sent c' = sent c ++ [before ++ (r, carded c (object c r)) :: after] ∧ r ∉ map fst (before ++ after)
    ∧ attach (Some m) tc ∈ tool_calls (carded c (object c r))
    ∧ dget k (_unlinked_agent_parent_events c') = if complete c r then None else Some r.
Proof.
  intros Hk Hin Htc Hm Hno. pose proof (kept_parent c Hk k r Hin) as (Ha & <- & _).
  assert (gains c r = true) as Hg by (apply (gains_card c r tc); [done..|by eexists|done]).
  assert (r ∈ List.filter (gains c) (kept c)) as Hr.
  { apply list_elem_of_In, filter_In. split; [|done]. by apply list_elem_of_In, list_elem_of_fmap_2' with (uuid c r, r). }
  assert (NoDup (List.filter (gains c) (kept c))) as Hn by (apply NoDup_ListNoDup, List.NoDup_filter, NoDup_ListNoDup, kept_nodup; done).
  rewrite rebroadcast_closed by done. destruct (List.filter (gains c) (kept c)) as [|r0 batch] eqn:E; [by apply elem_of_nil in Hr|].
  set (refs := r0 :: batch) in *. apply list_elem_of_split in Hr as (l1 & l2 & Er).
  eexists _, (values (relinked c) l1), (values (relinked c) l2). split; [done|]. split.
  { change (sent (told all refs (relinked c))) with (sent c ++ [values (relinked c) refs]). do 2 f_equal. rewrite Er.
    unfold values. rewrite map_app. cbn [map]. do 3 f_equal.
    change (object (carded_at (kept c) c) r = carded c (object c r)). rewrite object_at, decide_True; [done|].
    by apply list_elem_of_fmap_2' with (uuid c r, r). }
  split.
  { unfold values. rewrite <- map_app, map_map. cbn [fst]. rewrite map_id. rewrite Er in Hn.
    apply NoDup_app in Hn as (_ & Hn1 & Hn2). apply NoDup_cons in Hn2 as [Hn2 _]. rewrite elem_of_app. intros [Hr|Hr]; [|done].
    apply (Hn1 r Hr). left. }
  apply list_elem_of_In, filter_In in Htc as [Htc Hag]. split.
  { rewrite tool_calls_carded, Ha. apply list_elem_of_fmap_2' with tc; [by apply list_elem_of_In|]. unfold carded_call. by rewrite Hag, Hm. }
  apply (kept_get c) in Hin; [|done]. simpl. rewrite dget_ddels, Hin.
  destruct (complete c r) eqn:Ec; [rewrite decide_True; [done|]|rewrite decide_False; [done|]].
  - apply list_elem_of_fmap_2' with (uuid c r, r); [|done]. apply list_elem_of_In, filter_In. split; [|done]. by apply list_elem_of_In, kept_get.
  - intros ([k' r'] & E' & [Hin' Hc']%list_elem_of_In%filter_In)%list_elem_of_fmap. simpl in *. subst k'.
    apply list_elem_of_In, kept_get in Hin'; [|done]. rewrite Hin in Hin'. injection Hin' as ->. by rewrite Ec in Hc'.
Qed.

(** *** Emission *)

(** Whether [_cache_unlinked_agent_parents] keeps the event. *)
Definition keeps (c : cards) (r : nat) : bool :=
  is_assistant (object c r) && (agent_tool_calls (object c r) <>? []) && negb (_is_fully_enriched (object c r)) && (uuid c r <>? []).
Definition keep_one (c : cards) (d : list (pystr * nat)) (r : nat) : list (pystr * nat) :=
  if keeps c r then dset (uuid c r) r d else d.
Definition keep_all (c : cards) (refs : list nat) (d : list (pystr * nat)) : list (pystr * nat) := foldl (keep_one c) d refs.
Lemma cache_closed refs c : _cache_unlinked_agent_parents refs c = (Ret tt, with_unlinked (keep_all c refs) c).
Proof.
  unfold _cache_unlinked_agent_parents.
  enough (∀ d, for_each refs (λ r, event ← gets (λ c, object c r);
    if negb (is_assistant event) then mret tt else if agent_tool_calls event =? [] then mret tt
    else if _is_fully_enriched event then mret tt else modify (remember r)) (with_unlinked (λ _, d) c)
    = (Ret tt, with_unlinked (λ _, keep_all c refs d) c)) as Hd.
  { specialize (Hd (_unlinked_agent_parent_events c)). by destruct c. }
  induction refs as [|r refs IH]; intros d; [done|]. cbn [for_each]. unfold keep_all. cbn [foldl]. fold (keep_all c refs (keep_one c d r)).
  rewrite <- IH. unfold mbind at 1, M_bind at 1. unfold gets, mbind at 1, M_bind at 1.
  change (object (with_unlinked (λ _, d) c) r) with (object c r). unfold keep_one, keeps.
  destruct (is_assistant (object c r)); [|done]. cbn [negb andb]. destruct (bool_decide_reflect (agent_tool_calls (object c r) = [])); [done|].
  cbn [negb andb]. destruct (_is_fully_enriched (object c r)); [done|]. cbn [negb andb]. unfold modify, remember, uuid.
  change (object (with_unlinked (λ _, d) c) r) with (object c r).
  destruct (event_str "message_uuid" (object c r)) as [|ch k]; [done|]. by rewrite bool_decide_eq_false_2.
Qed.

Lemma keep_all_nodup c refs : ∀ d, NoDup (map fst d) → NoDup (map fst (keep_all c refs d)).
Proof.
  induction refs as [|r refs IH]; intros d Hd; [done|]. apply IH. unfold keep_one. destruct (keeps c r); [by apply dset_NoDup|done].
Qed.
Lemma keep_all_get c refs k r : ∀ d, dget k (keep_all c refs d) = Some r →
  (r ∈ refs ∧ keeps c r = true ∧ uuid c r = k) ∨ dget k d = Some r.
Proof.
  induction refs as [|r' refs IH]; intros d Hd; [by right|]. destruct (IH _ Hd) as [(Hin & ?)|Hd']; [left; split; [by right|done]|].
  unfold keep_one in Hd'. destruct (keeps c r') eqn:Hk; [|by right]. rewrite dget_dset in Hd'. case_decide as E; [|by right].
  injection Hd' as ->. left. split; [left|done].
Qed.
Lemma keep_all_stays c refs k r : ∀ d, dget k d = Some r → (∀ r', r' ∈ refs → uuid c r' = k → r' = r) → dget k (keep_all c refs d) = Some r.
Proof.
  induction refs as [|r' refs IH]; intros d Hd Hown; [done|]. apply IH; [|intros; apply Hown; [by right|done]].
  unfold keep_one. destruct (keeps c r'); [|done]. rewrite dget_dset. case_decide as E; [|done]. f_equal. by apply Hown; [left|].
Qed.
Lemma keep_all_new c refs r : r ∈ refs → keeps c r = true → (∀ r', r' ∈ refs → uuid c r' = uuid c r → r' = r) →
  ∀ d, dget (uuid c r) (keep_all c refs d) = Some r.
Proof.
  intros Hin Hk Hown d. apply list_elem_of_split in Hin as (l1 & l2 & ->). unfold keep_all. rewrite foldl_app. cbn [foldl].
  apply keep_all_stays; [|intros; apply Hown; [set_solver|done]]. unfold keep_one at 1. rewrite Hk. apply dget_dset_eq.
Qed.

(** What the emission of a batch leaves. *)
Definition before_told (pending : list nat) (c : cards) : cards :=
  with_unlinked (keep_all (enriched pending c) pending) (enriched pending c).
Lemma emit_closed all pending c : usable c → pending ≠ [] →
  emit_events all pending c = (Ret tt, told all pending (before_told pending c)).
Proof.
  intros Hu Hne. unfold emit_events. rewrite bool_decide_eq_false_2 by done. unfold mbind, M_bind.
  rewrite enrich_closed by done. rewrite cache_closed. apply on_events_closed. by apply (usable_enriched pending c).
Qed.

(** *** What holds at any time *)
Definition sent_refs (c : cards) : list nat := map fst (concat (sent c)).
(** Every event that was sent without all its cards, and still lacks one, is kept. *)
Record card_inv (c : cards) : Prop := {
  ci_kept : kept_ok c;
  ci_valid : ∀ r, r ∈ sent_refs c → r < length (objects c);
  ci_waiting : ∀ r, r ∈ sent_refs c → keeps c r = true → dget (uuid c r) (_unlinked_agent_parent_events c) = Some r }.

Lemma keeps_valid c r : keeps c r = true → r < length (objects c) ∧ is_assistant (object c r) = true.
Proof.
  unfold keeps. intros H. rewrite !andb_true_iff in H. destruct H as [[[Ha _] _] _]. split; [|done].
  apply lookup_lt_is_Some. unfold object in Ha. destruct (objects c !! r); [by eexists|done].
Qed.
Lemma keeps_back c c' r : grows c c' → r < length (objects c) → keeps c' r = true → keeps c r = true ∧ uuid c' r = uuid c r.
Proof.
  intros Hg Hr. destruct (grows_object c c' r Hg Hr) as (_ & Ea & Eu & En & Ef). unfold keeps. rewrite Ea, Eu.
  rewrite !andb_true_iff, !negb_true_iff, !bool_decide_eq_false. intros [[[? ?] Hf] ?].
  destruct (_is_fully_enriched (object c r)); [by rewrite Ef in Hf|]. naive_solver.
Qed.
Lemma kept_ok_change c c' : kept_ok c → grows c c' → usable c' → NoDup (map fst (_unlinked_agent_parent_events c')) →
  (∀ k r, (k, r) ∈ _unlinked_agent_parent_events c' → (k, r) ∈ _unlinked_agent_parent_events c ∨ (keeps c r = true ∧ uuid c r = k)) →
  kept_ok c'.
Proof.
  intros Hk Hg Hu Hn Hin. split; [done|done|]. intros k r Hr.
  assert (is_assistant (object c r) = true ∧ uuid c r = k ∧ r < length (objects c)) as (Ha & Ek & Hl).
  { destruct (Hin k r Hr) as [Hr'|[Hkp Ek]]; [by apply (kept_parent c Hk)|]. by destruct (keeps_valid c r Hkp). }
  destruct (grows_object c c' r Hg Hl) as (Hl' & Ea & Eu & _). by rewrite Ea, Eu.
Qed.
Lemma inv_grows c c' : card_inv c → grows c c' → usable c' → sent c' = sent c →
  _unlinked_agent_parent_events c' = _unlinked_agent_parent_events c → card_inv c'.
Proof.
  intros [Hk Hv Hw] Hg Hu Es Eu. assert (sent_refs c' = sent_refs c) as Er by (unfold sent_refs; by rewrite Es). split.
  - apply (kept_ok_change c); [done..| |]; rewrite Eu; [apply Hk|by left].
  - intros r. rewrite Er. intros Hr. by apply (grows_object c c' r Hg), Hv.
  - intros r. rewrite Er, Eu. intros Hr Hkp. destruct (keeps_back c c' r Hg (Hv r Hr) Hkp) as [Hkp' ->]. by apply Hw.
Qed.
Lemma inv_sent c batch : card_inv c → (∀ r, r ∈ batch → r < length (objects c)) →
  (∀ r, r ∈ batch → keeps c r = true → dget (uuid c r) (_unlinked_agent_parent_events c) = Some r) →
  card_inv (with_sent (values c batch) c).
Proof.
  intros [Hk Hv Hw] Hb Hbw.
  assert (∀ r, r ∈ sent_refs (with_sent (values c batch) c) ↔ r ∈ sent_refs c ∨ r ∈ batch) as Hr.
  { intros r. unfold sent_refs. cbn [sent with_sent]. rewrite concat_app, map_app, elem_of_app. cbn [concat]. rewrite app_nil_r.
    unfold values. rewrite map_map. cbn [fst]. by rewrite map_id. }
  split; [by destruct Hk; split| |]; intros r [Hin|Hin]%Hr; [by apply Hv|by apply Hb|intros Hkp; by apply Hw|intros Hkp; by apply Hbw].
Qed.
Lemma inv_enriched refs c : card_inv c → card_inv (enriched refs c).
Proof.
  intros Hi. pose proof (kept_usable c (ci_kept c Hi)) as Hu. apply (inv_grows c); [done| |by apply usable_enriched|done..].
  pose proof (grows_enrich refs c Hu) as Hg. by rewrite enrich_closed in Hg.
Qed.
Lemma inv_told all batch c : card_inv c → (∀ r, r ∈ batch → r < length (objects c)) →
  (∀ r, r ∈ batch → keeps c r = true → dget (uuid c r) (_unlinked_agent_parent_events c) = Some r) →
  card_inv (told all batch c).
Proof. intros Hi Hb Hbw. by apply inv_enriched, inv_sent. Qed.

(** The pending events are objects, and an event of the same message as one of
    them that is pending, was sent or is kept is the same object. *)
Definition own_messages (c : cards) (pending : list nat) : Prop :=
  ∀ r, r ∈ pending → r < length (objects c)
    ∧ ∀ r', r' ∈ pending ∨ r' ∈ sent_refs c ∨ r' ∈ kept c → uuid c r' = uuid c r → r' = r.
Definition proper (c : cards) (s : step) : Prop :=
  match s with
  | Parsed event => hashable_calls event
  | Emitted _ pending => own_messages c pending
  | _ => True
  end.
Fixpoint proper_run (c : cards) (t : list step) : Prop :=
  match t with [] => True | s :: t' => proper c s ∧ proper_run (do_step c s) t' end.

Lemma inv_before_told pending c : card_inv c → own_messages c pending →
  let c' := before_told pending c in
  card_inv c' ∧ ∀ r, r ∈ pending → r < length (objects c') ∧ (keeps c' r = true → dget (uuid c' r) (_unlinked_agent_parent_events c') = Some r).
Proof.
  intros Hi Ho c'. set (c1 := enriched pending c). assert (card_inv c1) as Hi1 by (by apply inv_enriched).
  assert (∀ r, r < length (objects c) → r < length (objects c1) ∧ uuid c1 r = uuid c r) as Hold.
  { intros r Hr. pose proof (grows_enrich pending c (kept_usable c (ci_kept c Hi))) as Hg. rewrite enrich_closed in Hg by apply Hi.
    destruct (grows_object c c1 r Hg Hr) as (? & _ & ? & _). done. }
  assert (∀ r r', r ∈ pending → r' ∈ pending ∨ r' ∈ sent_refs c ∨ r' ∈ kept c → uuid c1 r' = uuid c1 r → r' = r) as Hown.
  { intros r r' Hr Hr'. destruct (Ho r Hr) as [Hl Hsame]. rewrite (proj2 (Hold r Hl)).
    assert (r' < length (objects c)) as Hl'.
    { destruct Hr' as [Hr'|[Hr'|([k r''] & -> & Hr')%list_elem_of_fmap]];
        [by apply Ho|by apply (ci_valid c Hi)|by apply (kept_parent c (ci_kept c Hi) k r'')]. }
    rewrite (proj2 (Hold r' Hl')). by apply Hsame. }
  split; [|intros r Hr; split; [by apply Hold, Ho|]; intros Hk; change (dget (uuid c1 r) (keep_all c1 pending (_unlinked_agent_parent_events c1)) = Some r);
    apply keep_all_new; [done|exact Hk|intros r' Hr'; apply Hown; auto]].
  assert (NoDup (map fst (_unlinked_agent_parent_events c'))) as Hn by (apply keep_all_nodup, Hi1).
  split.
  - apply (kept_ok_change c1); [apply Hi1|by apply grows_objects_eq|apply Hi1|done|]. intros k r Hin.
    apply dget_NoDup in Hin as [(_ & ? & ?)|Hin]%keep_all_get; [by right|left; by apply dget_elem|done].
  - apply (ci_valid c1 Hi1).
  - intros r Hr Hk. apply keep_all_stays; [by apply (ci_waiting c1 Hi1)|]. intros r' Hr' Eu. symmetry. apply Hown; auto.
Qed.
(** A kept event that still lacks a card stays kept. *)
Lemma stays_kept c r : kept_ok c → dget (uuid c r) (_unlinked_agent_parent_events c) = Some r → keeps (relinked c) r = true →
  dget (uuid (relinked c) r) (_unlinked_agent_parent_events (relinked c)) = Some r.
Proof.
  intros Hok Hd Hk. assert (r ∈ kept c) as Hr by (apply list_elem_of_fmap_2' with (uuid c r, r); [by apply kept_get|done]).
  assert (object (relinked c) r = carded c (object c r)) as Eo.
  { change (object (carded_at (kept c) c) r = carded c (object c r)). by rewrite object_at, decide_True. }
  assert (uuid (relinked c) r = uuid c r) as -> by (unfold uuid; rewrite Eo; apply uuid_carded).
  simpl. rewrite dget_ddels, decide_False; [done|]. intros ([k r'] & Ek & [Hin Hc]%list_elem_of_In%filter_In)%list_elem_of_fmap.
  simpl in Ek, Hc. subst k. apply list_elem_of_In, kept_get in Hin; [|done]. rewrite Hin in Hd. injection Hd as ->.
  unfold keeps in Hk. rewrite !andb_true_iff, Eo in Hk. destruct Hk as [[_ Hk] _]. unfold complete in Hc. by rewrite Hc in Hk.
Qed.
Lemma inv_relinked c : card_inv c → card_inv (relinked c).
Proof.
  intros Hi. assert (card_inv (carded_at (kept c) c)) as Hi1.
  { apply (inv_grows c); [done|apply grows_at|by apply usable_at, Hi|done..]. }
  split.
  - apply (kept_ok_change (carded_at (kept c) c)); [apply Hi1|by apply grows_objects_eq|apply Hi1| |].
    + eapply sublist_NoDup; [apply (kept_keys c), Hi|]. apply (map_sublist fst), ddels_sub.
    + intros k r Hin. left. by apply (sublist_subseteq _ _ (ddels_sub _ _)) in Hin.
  - apply (ci_valid _ Hi1).
  - intros r Hr Hk. apply stays_kept; [apply Hi| |done]. apply (ci_waiting c Hi); [done|].
    by apply (keeps_back c (carded_at (kept c) c) r (grows_at _ _) (ci_valid c Hi r Hr)).
Qed.

(** The reading of metadata leaves the events alone. *)
Definition same_events (c c' : cards) : Prop :=
  objects c' = objects c ∧ sent c' = sent c ∧ _unlinked_agent_parent_events c' = _unlinked_agent_parent_events c.
Instance same_events_preorder : PreOrder same_events.
Proof. split; [by intros c|]. intros c1 c2 c3 (E1 & E2 & E3) (E4 & E5 & E6). split_and!; congruence. Qed.
Lemma discovered_events found : stepwise same_events (_discover_subagent_sessions found).
Proof.
  apply stepwise_for; [apply _|]. intros [sub_id file] c. unfold read_meta, gets, mbind, M_bind.
  destruct (isSome _ || _); [done|]. destruct file; try done. simpl. by repeat case_match.
Qed.

Lemma inv_step c s : card_inv c → proper c s → card_inv (do_step c s).
Proof.
  intros Hi Hp. pose proof (kept_usable c (ci_kept c Hi)) as Hu. destruct s as [event|found|all pending|refs|all]; cbn [do_step proper] in *.
  - apply (inv_grows c); [done| |by apply Forall_app_2; [|constructor]|done..]. split; [|done]. intros r e Er. exists e.
    split; [by apply lookup_app_l_Some|done].
  - destruct (discovered_events found c) as (Eo & Es & Ek). apply (inv_grows c); [done| |by unfold usable; rewrite Eo|done..].
    by apply grows_objects_eq; [|rewrite Es].
  - destruct (decide (pending = [])) as [->|Hne]; [done|]. rewrite emit_closed by done. cbn [snd].
    destruct (inv_before_told pending c Hi Hp) as [Hi' Hn]. apply inv_told; [done|by apply Hn|]. intros r Hr. by apply Hn.
  - rewrite enrich_closed by done. by apply inv_enriched.
  - rewrite rebroadcast_closed by apply Hi. cbn [snd]. pose proof (inv_relinked c Hi) as Hi'.
    destruct (List.filter (gains c) (kept c)) as [|r0 batch] eqn:E; [done|]. rewrite <- E.
    assert (∀ r, r ∈ List.filter (gains c) (kept c) → (uuid c r, r) ∈ _unlinked_agent_parent_events c ∧ r < length (objects c)) as Hb.
    { intros r [Hin _]%list_elem_of_In%filter_In. apply list_elem_of_In in Hin. apply list_elem_of_fmap in Hin as ([k r'] & -> & Hin).
      simpl. by destruct (kept_parent c (ci_kept c Hi) k r' Hin) as (_ & -> & ?). }
    apply inv_told; [done| |]; intros r Hr%Hb.
    + destruct (grows_object c (carded_at (kept c) c) r (grows_at _ _)) as [? _]; [apply Hr|done].
    + apply stays_kept; [apply Hi|]. apply kept_get; [apply Hi|apply Hr].
Qed.

Lemma inv_run t : ∀ c, card_inv c → proper_run c t → card_inv (run t c).
Proof. induction t as [|s t IH]; intros c Hi Hp; [done|]. destruct Hp as [Hs Hp]. by apply IH; [apply inv_step|]. Qed.

(** The watcher starts in such a state: after the parents of the backlog are
    seeded. *)
Lemma remember_kept c r : kept_ok c → is_assistant (object c r) = true → kept_ok (remember r c).
Proof.
  intros Hk Ha. unfold remember. destruct (event_str "message_uuid" (object c r)) as [|ch key] eqn:Eu; [done|].
  assert (r < length (objects c)) as Hl.
  { apply lookup_lt_is_Some. unfold object in Ha. destruct (objects c !! r); [by eexists|done]. }
  split; [apply Hk|by apply dset_NoDup, Hk|]. intros k r' Hin.
  apply dget_NoDup in Hin; [|by apply dset_NoDup, Hk]. simpl in Hin. rewrite dget_dset in Hin. case_decide as E.
  - injection Hin as <-. by subst k.
  - apply kept_get in Hin; [|done]. by apply (kept_parent c Hk) in Hin.
Qed.
Lemma seed_inv refs c : kept_ok c → sent c = [] → (∀ r, r ∈ refs → is_assistant (object c r) = true) →
  ∃ c', _seed_running_agent_parents refs c = (Ret tt, c') ∧ card_inv c'.
Proof.
  intros Hk Hs Ha. unfold _seed_running_agent_parents, mbind, M_bind. rewrite enrich_closed by apply Hk.
  assert (kept_ok (enriched refs c)) as Hk1.
  { apply (kept_ok_change c); [done| |by apply usable_enriched, Hk|apply Hk|by left].
    pose proof (grows_enrich refs c (kept_usable c Hk)) as Hg. by rewrite enrich_closed in Hg by apply Hk. }
  assert (∀ r, r ∈ refs → is_assistant (object (enriched refs c) r) = true) as Ha1.
  { intros r Hr. change (is_assistant (object (carded_at refs (linked refs c)) r) = true). rewrite object_at, decide_True by done.
    rewrite is_assistant_carded. by apply Ha. }
  assert (sent (enriched refs c) = []) as Hs1 by done.
  revert Hk1 Ha1 Hs1. generalize (enriched refs c) as c1. clear. induction refs as [|r refs IH]; intros c Hk Ha Hs.
  - exists c. split; [done|]. split; [done|..]; intros r Hr; unfold sent_refs in Hr; rewrite Hs in Hr; by apply elem_of_nil in Hr.
  - cbn [for_each]. unfold mbind, M_bind, modify.
    match goal with |- context [for_each refs _ ?x] => set (c1 := x) end.
    assert (c1 = c ∨ c1 = remember r c) as [E|E]; [unfold c1; repeat case_match; auto|..]; rewrite E.
    + apply IH; [done|intros; apply Ha; by right|done].
    + assert (objects (remember r c) = objects c ∧ sent (remember r c) = []) as [Eo Es] by (unfold remember; by case_match).
      apply IH; [apply remember_kept; [done|apply Ha; left]|intros r' ?; unfold object; rewrite Eo; apply Ha; by right|done].
Qed.

(** C9: no parent is forgotten: whatever the watcher and the requests do, every
    event that was sent while one of its subagents' cards was missing, and that
    still lacks one, is kept for another look. *)
Theorem parents_stay_kept t c : card_inv c → proper_run c t →
  ∀ r, r ∈ sent_refs (run t c) → keeps (run t c) r = true →
  dget (uuid (run t c) r) (_unlinked_agent_parent_events (run t c)) = Some r.
Proof.
  intros Hi Hp. apply (ci_waiting (run t c)). by apply inv_run.
Qed.

(** *** An event that is enriched behind the back of the thread *)
Lemma full_gains_nothing c r : usable c → is_assistant (object c r) = true → _is_fully_enriched (object c r) = true → gains c r = false.
Proof.
  intros Hu Ha Hf. apply negb_false_iff.
  assert (_linked_agent_tool_call_ids (carded c (object c r)) = map call_id (agent_tool_calls (object c r))
    ∧ _linked_agent_tool_call_ids (object c r) = map call_id (agent_tool_calls (object c r))) as [-> ->].
  { pose proof (full_carded c _ Hf) as Hf'. unfold _is_fully_enriched in Hf, Hf'. apply andb_true_iff in Hf as [_ Hf], Hf' as [_ Hf'].
    unfold _linked_agent_tool_call_ids.
    assert (∀ l, forallb has_card l = true → List.filter has_card l = l) as Hall.
    { induction l as [|tc l IH]; [done|]. simpl. intros [-> Hl]%andb_true_iff. by rewrite IH. }
    rewrite !Hall by done. split; [|done]. rewrite agent_calls_carded, map_map by done. apply map_ext. apply call_id_carded. }
  assert (∀ l, Forall (λ k, is_Ret (hashable k) = true) l → includes l l = true) as Hrefl.
  { intros l Hl. apply forallb_forall. intros k Hk. apply existsb_exists. exists k. split; [done|]. apply key_eqb_refl.
    rewrite Forall_forall in Hl. by apply Hl, list_elem_of_In. }
  unfold same_set. rewrite Hrefl; [done|]. apply Forall_map, Forall_forall. intros tc [Hin Hag]%list_elem_of_In%filter_In.
  assert (hashable_calls (object c r)) as Hh.
  { unfold object. destruct (objects c !! r) as [e|] eqn:E; [by apply (Forall_lookup_1 _ _ _ _ Hu E)|constructor]. }
  unfold hashable_calls in Hh. rewrite Forall_forall in Hh. apply Hh; [by apply list_elem_of_In|done].
Qed.
Lemma linked_keeps refs c call sub : linked_to c call = Some sub → linked_to (linked refs c) call = Some sub.
Proof.
  unfold linked_to. simpl. destruct (List.find _ _); [done|]. unfold link_results. generalize (map (object c) refs) as l.
  intros l. generalize (_subagent_id_by_tool_call c) as links. induction l as [|event l IH]; intros links Hl; [done|]. simpl. apply IH.
  unfold link_result. destruct (is_tool_result event); [|done]. destruct (dget _ event); [|done]. rewrite kget_default. by rewrite Hl.
Qed.
Lemma card_keeps refs c tc : is_Some (card_of c tc) → is_Some (card_of (linked refs c) tc).
Proof.
  unfold card_of. destruct (linked_to c (call_id tc)) as [sub|] eqn:E; [|by intros [? ?]]. by rewrite (linked_keeps refs c _ sub E).
Qed.
Lemma cards_known_full c event : is_assistant event = true → agent_tool_calls event ≠ [] →
  (∀ tc, tc ∈ agent_tool_calls event → is_Some (card_of c tc)) → _is_fully_enriched (carded c event) = true.
Proof.
  intros Ha Hne Hc. unfold _is_fully_enriched. rewrite agent_calls_carded by done. apply andb_true_iff. split.
  - apply negb_true_iff, bool_decide_eq_false. intros E%map_eq_nil. done.
  - apply forallb_forall. intros tc' (tc & <- & Hin)%in_map_iff. apply list_elem_of_In in Hin. destruct (Hc tc Hin) as [m Hm].
    apply list_elem_of_In, filter_In in Hin as [_ Hag]. unfold carded_call. rewrite Hag, Hm. by apply has_card_attach.
Qed.
Lemma full_is_dropped all c k r :
  kept_ok c → (k, r) ∈ _unlinked_agent_parent_events c → _is_fully_enriched (object c r) = true →
  let c' := (_rebroadcast_relinked_parents all c).2 in
  (∃ batches, sent c' = sent c ++ batches ∧ r ∉ map fst (concat batches)) ∧ dget k (_unlinked_agent_parent_events c') = None.
Proof.
  intros Hk Hin Hf c'. pose proof (kept_parent c Hk k r Hin) as (Ha & _ & _).
  assert (r ∉ List.filter (gains c) (kept c)) as Hr.
  { intros [_ Hg]%list_elem_of_In%filter_In. by rewrite full_gains_nothing in Hg by (done || apply Hk). }
  assert (dget k (_unlinked_agent_parent_events (relinked c)) = None) as Hd.
  { simpl. rewrite dget_ddels, decide_True; [done|]. apply list_elem_of_fmap_2' with (k, r); [|done].
    apply list_elem_of_In, filter_In. split; [by apply list_elem_of_In|]. by apply full_carded. }
  unfold c'. rewrite rebroadcast_closed by done. cbn [snd]. destruct (List.filter (gains c) (kept c)) as [|r0 batch].
  - split; [|done]. exists []. split; [by rewrite app_nil_r|]. apply not_elem_of_nil.
  - split; [|done]. exists [values (relinked c) (r0 :: batch)]. split; [done|]. cbn [concat]. rewrite app_nil_r. unfold values.
    rewrite map_map. cbn [fst]. by rewrite map_id.
Qed.

(** The card of a running subagent does not reach the clients.  A kept parent
    all of whose cards have become known is enriched in place by the reading of
    the transcript that follows any emission of the same cycle, which a new
    subagent's own first events are: the look at the kept parents then finds that
    it gained nothing, sends nothing of it, and forgets it, since it is complete. *)
Theorem known_card_is_lost c all all' pending k r :
  card_inv c → own_messages c pending → pending ≠ [] → r ∉ pending → r ∈ all →
  (k, r) ∈ _unlinked_agent_parent_events c → agent_tool_calls (object c r) ≠ [] →
  (∀ tc, tc ∈ agent_tool_calls (object c r) → is_Some (card_of c tc)) →
  let c1 := (emit_events all pending c).2 in
  let c2 := (_rebroadcast_relinked_parents all' c1).2 in
  _is_fully_enriched (object c1 r) = true
  ∧ (∃ batches, sent c2 = sent c ++ batches ∧ r ∉ map fst (concat batches)) ∧ dget k (_unlinked_agent_parent_events c2) = None.
Proof.
  intros Hi Ho Hne Hr Hall Hin Hcalls Hcards c1. pose proof (ci_kept c Hi) as Hok.
  pose proof (kept_parent c Hok k r Hin) as (Ha & Ek & _).
  assert (c1 = told all pending (before_told pending c)) as Ec1 by (unfold c1; by rewrite emit_closed by (done || apply Hok)).
  assert (card_inv c1) as Hi1 by (apply (inv_step c (Emitted all pending)); done).
  assert (object (before_told pending c) r = object c r) as Eo.
  { change (object (carded_at pending (linked pending c)) r = object c r). by rewrite object_at, decide_False. }
  assert (_is_fully_enriched (object c1 r) = true) as Hfull.
  { rewrite Ec1. set (c' := linked all (with_sent (values (before_told pending c) pending) (before_told pending c))).
    change (_is_fully_enriched (object (carded_at all c') r) = true). rewrite object_at, decide_True by done.
    change (object c' r) with (object (before_told pending c) r). rewrite Eo. apply cards_known_full; [done..|]. intros tc Htc.
    apply (card_keeps all (with_sent (values (before_told pending c) pending) (before_told pending c))).
    apply (card_keeps pending c). by apply Hcards. }
  assert (dget k (_unlinked_agent_parent_events c1) = Some r) as Hd.
  { rewrite Ec1. change (dget k (keep_all (enriched pending c) pending (_unlinked_agent_parent_events c)) = Some r).
    apply keep_all_stays; [by apply kept_get|]. intros r' Hr' Eu. symmetry. destruct (Ho r' Hr') as [Hl Hsame].
    apply Hsame; [right; right; by apply list_elem_of_fmap_2' with (k, r)|].
    pose proof (grows_enrich pending c (kept_usable c Hok)) as Hg. rewrite enrich_closed in Hg by apply Hok.
    destruct (grows_object c (enriched pending c) r' Hg Hl) as (_ & _ & Eu' & _). congruence. }
  split; [done|]. destruct (full_is_dropped all' c1 k r) as [(batches & Es & Hb) Hdrop]; [apply Hi1|by apply dget_elem|done|].
  split; [|done]. exists (values (before_told pending c) pending :: batches). split.
  - rewrite Es, Ec1. change (sent (told all pending (before_told pending c))) with (sent c ++ [values (before_told pending c) pending]).
    by rewrite <- app_assoc.
  - cbn [concat]. rewrite map_app, elem_of_app. intros [Hp|Hp]; [|done]. unfold values in Hp. rewrite map_map in Hp. cbn [fst] in Hp.
    by rewrite map_id in Hp.
Qed.

(** ** A subagent that is started and discovered *)
Module CardsDemo.
Definition parent : dict :=
  [(u "type", JStr "assistant_message"); (u "message_uuid", JStr "u1");
   (u "tool_calls", JList [JObj [(u "tool_call_id", JStr "t1"); (u "tool_name", JStr "Agent")]])].
Definition child : dict := [(u "type", JStr "user_message"); (u "message_uuid", JStr "u2")].
Definition found : list (pystr * meta_file) := [(u "agent-x", Text (bq "{`toolUseId`: `t1`, `agentType`: `Explore`}"))].
Definition card : dict := [(u "agent_type", JStr "Explore"); (u "description", JStr []); (u "session_id", JStr "agent-x")].
Definition upgraded : dict :=
  [(u "type", JStr "assistant_message"); (u "message_uuid", JStr "u1");
   (u "tool_calls", JList [JObj [(u "tool_call_id", JStr "t1"); (u "tool_name", JStr "Agent"); (u "subagent_metadata", JObj card)]])].
(** The parent is sent; a cycle later the subagent's files are there. *)
Definition before : list step := [Parsed parent; Emitted [0] [0]; Parsed child; Discovered found].

Lemma no_cards_inv : card_inv no_cards.
Proof.
  split; [split; [constructor|constructor|intros k r Hin; by apply elem_of_nil in Hin]|..]; intros r Hr; by apply elem_of_nil in Hr.
Qed.
Lemma before_proper : proper_run no_cards before.
Proof.
  split; [repeat constructor|]. split; [|repeat constructor].
  intros r Hr. apply list_elem_of_singleton in Hr as ->. split; [vm_compute; lia|]. intros r' [Hr|[Hr|Hr]] _; vm_compute in Hr;
    [by apply list_elem_of_singleton in Hr|by apply elem_of_nil in Hr..].
Qed.


Lemma parents_stay_kept_witness :
  dget "u1" (_unlinked_agent_parent_events (run before no_cards)) = Some 0.
Proof.
  change (u "u1") with (uuid (run before no_cards) 0).
  apply (parents_stay_kept before no_cards no_cards_inv before_proper 0); [vm_compute; left|vm_compute; reflexivity].
Defined.

Lemma known_card_is_sent_witness :
  ∃ c' before after, _rebroadcast_relinked_parents [] (run CardsDemo.before no_cards) = (Ret tt, c')
    ∧ sent c' = [[(0, parent)]; before ++ (0, upgraded) :: after] ∧ _unlinked_agent_parent_events c' = [].
Proof.
  destruct (known_card_is_sent (run before no_cards) [] "u1" 0
    (JObj [(u "tool_call_id", JStr "t1"); (u "tool_name", JStr "Agent")]) card) as (c' & l1 & l2 & E & Es & _ & _ & Ek).
  - apply ci_kept, (inv_run before no_cards no_cards_inv before_proper).
  - vm_compute. left.
  - vm_compute. left.
  - vm_compute. reflexivity.
  - intros tc Htc _. vm_compute in Htc. apply list_elem_of_singleton in Htc as ->. vm_compute. reflexivity.
  - exists c', l1, l2. split; [exact E|]. split; [exact Es|].
    assert ((_rebroadcast_relinked_parents [] (run before no_cards)).2 = c') as <- by (by rewrite E). vm_compute. reflexivity.
Defined.

(** The subagent's own first event, emitted in the cycle in which its files are
    found, is enough: the parent is enriched, but never sent again. *)
Lemma card_not_sent :
  let c := run (before ++ [Emitted [0] [1]; Rebroadcast [0]]) no_cards in
  objects c !! 0 = Some upgraded ∧ sent c = [[(0, parent)]; [(1, child)]] ∧ _unlinked_agent_parent_events c = []
  ∧ sent (run (before ++ [Rebroadcast [0]]) no_cards) = [[(0, parent)]; [(0, upgraded)]].
Proof. vm_compute. repeat split; reflexivity. Qed.

(** A [meta.json] that is JSON but no object, or that is not UTF-8, raises what
    the discovery does not catch: the thread of the watcher ends. *)
Lemma odd_meta_ends_watcher c :
  dget "x" (_subagent_metadata c) = None → u "x" ∉ _subagent_meta_read_failed c →
  _discover_subagent_sessions [(u "x", Text (u "[]"))] c = (Raise AttributeError, c)
  ∧ (∃ e, _discover_subagent_sessions [(u "x", NotUtf8)] c = (Raise e, c) ∧ is_OSError e = false).
Proof.
  intros Hm Hf. unfold _discover_subagent_sessions. cbn [for_each fst snd]. unfold read_meta, gets, mbind, M_bind. rewrite Hm, bool_decide_eq_false_2 by done.
  split; [vm_compute; reflexivity|]. eexists. split; [vm_compute; reflexivity|done].
Qed.
End CardsDemo.
