(* ===== verification/Proxy.v ===== *)
(** * The proxy's rewriting

    [proxy.py]: the pages that install a service worker or wait for a service,
    and the rewriting of cookies and HTML so that a service that believes it is
    mounted at the root stays under its prefix. *)

From Stdlib Require Import NArith ZArith Lia.
From S2P Require Import Prelude PyStr PyMonad PyRegex.
From stdpp Require Import options.
#[global] Open Scope nat_scope.
#[local] Open Scope py_scope.

Definition get_service_prefix (service_name : pystr) : pystr := u "/service/" ++ service_name.

(** ** Generated pages *)
Definition generate_bootstrap_html (service_name : pystr) : pystr :=
  let prefix := get_service_prefix service_name in
  u "<!DOCTYPE html>
<html><head><title>Loading...</title></head>
<body>
<p>Loading...</p>
<script>
const PREFIX = '" ++ prefix ++ u "/';
const SW_URL = PREFIX + '__sw.js';

async function boot() {
  const reg = await navigator.serviceWorker.register(SW_URL, { scope: PREFIX });
  const sw = reg.installing || reg.waiting || reg.active;

  function onActivated() {
    document.cookie = 'sw_installed_" ++ service_name ++ u "=1; path=' + PREFIX;
    location.reload();
  }

  if (sw.state === 'activated') {
    onActivated();
    return;
  }

  sw.addEventListener('statechange', () => {
    if (sw.state === 'activated') onActivated();
  });
}

boot().catch(err => {
  document.body.textContent = 'Failed to initialize: ' + err.message;
});
</script>
</body></html>".
Definition generate_service_worker_js (service_name : pystr) : pystr :=
  let prefix := get_service_prefix service_name in
  u "
const PREFIX = '" ++ prefix ++ u "';

self.addEventListener('install', () => self.skipWaiting());
self.addEventListener('activate', (e) => e.waitUntil(self.clients.claim()));

self.addEventListener('fetch', (event) => {
  const url = new URL(event.request.url);

  if (url.origin !== location.origin) return;

  if (url.pathname.startsWith(PREFIX + '/') || url.pathname === PREFIX) return;

  if (url.pathname.endsWith('__sw.js')) return;

  url.pathname = PREFIX + url.pathname;

  async function forwardRequest() {
    const init = {
      method: event.request.method,
      headers: event.request.headers,
      credentials: event.request.credentials,
      redirect: 'manual',
    };

    if (!['GET', 'HEAD'].includes(event.request.method)) {
      init.body = await event.request.arrayBuffer();
    }

    return fetch(url.toString(), init);
  }

  event.respondWith(forwardRequest());
});
".
Definition generate_websocket_shim_js (service_name : pystr) : pystr :=
  let prefix := get_service_prefix service_name in
  u "<script>
(function() {
  var PREFIX = '" ++ prefix ++ u "';
  var OrigWebSocket = window.WebSocket;

  window.WebSocket = function(url, protocols) {
    try {
      var parsed = new URL(url, location.origin);
      if (parsed.host === location.host) {
        if (!parsed.pathname.startsWith(PREFIX + '/') && parsed.pathname !== PREFIX) {
          parsed.pathname = PREFIX + parsed.pathname;
        }
        url = parsed.toString();
      }
    } catch(e) {}
    return protocols !== undefined
      ? new OrigWebSocket(url, protocols)
      : new OrigWebSocket(url);
  };

  window.WebSocket.prototype = OrigWebSocket.prototype;
  window.WebSocket.CONNECTING = OrigWebSocket.CONNECTING;
  window.WebSocket.OPEN = OrigWebSocket.OPEN;
  window.WebSocket.CLOSING = OrigWebSocket.CLOSING;
  window.WebSocket.CLOSED = OrigWebSocket.CLOSED;
})();
</script>".
Definition loading_head : pystr := u "<!DOCTYPE html>
<html>
<head>
<title>Loading...</title>
<style>
body {
  font-family: system-ui, -apple-system, sans-serif;
  display: flex;
  justify-content: center;
  align-items: center;
  height: 100vh;
  margin: 0;
  color: rgb(136, 136, 136);
  background: rgb(26, 26, 26);
}
</style>
</head>
<body>
<p>Loading...</p>
".
Definition loading_tail : pystr := u "
<script>
setTimeout(function() { location.reload(); }, 1000);
</script>
</body>
</html>".
Definition service_link (service : pystr) : pystr :=
  bq "<a href=`/service/" ++ service ++ bq "/` target=`_top` style=`color: rgb(100, 149, 237); text-decoration: none; margin: 0 8px;`>"
  ++ service ++ u "</a>".
(** The other services, each once, in order. *)
Fixpoint services_to_show (current : option pystr) (shown others : list pystr) : list pystr :=
  match others with
  | [] => shown
  | s :: others' => services_to_show current (if (Some s =? current) || (s ∈? shown) then shown else shown ++ [s]) others'
  end.
Definition generate_backend_loading_html (current_service : option pystr) (other_services : list pystr) : pystr :=
  let services := services_to_show current_service [] other_services in
  let links :=
    if services =? [] then []
    else bq "<div style=`position: fixed; bottom: 40px; text-align: center; width: 100%; color: rgb(100, 100, 100); font-size: 14px;`>While waiting, you can open: "
         ++ concat (map service_link services) ++ u "</div>" in
  loading_head ++ links ++ loading_tail.

(** ** Cookies *)
Section rewriting.
Context `{UnicodeDB}.

(** [_COOKIE_PATH_PATTERN], up to its second group. *)
Definition cookie_path_attr : re := RSeqs [RStar any_space; RClass (λ c, (c =? 80)%N || (c =? 112)%N); RLit "ath"; RStar any_space; RLit "="; RStar any_space].
Definition _COOKIE_PATH_PATTERN : re := RSeq (RLit ";") cookie_path_attr.
Definition semicolon : N := 59.
Fixpoint value_end (s : pystr) : nat := match s with c :: s' => if (c =? semicolon)%N then 0 else S (value_end s') | [] => 0 end.
(** [search]: where the second group starts and ends; it takes what is left up to
    a semicolon. *)
Fixpoint search_cookie_path (prev : option N) (offset : nat) (s : pystr) : option (nat * nat) :=
  match match_re false _COOKIE_PATH_PATTERN (prev, s) with
  | (_, value) :: _ => let start := offset + (length s - length value) in Some (start, start + value_end value)
  | [] => match s with c :: s' => search_cookie_path (Some c) (S offset) s' | [] => None end
  end.
Definition scoped_path (prefix original_path : pystr) : pystr :=
  prefix ++ (if startswith "/" original_path then [] else u "/") ++ original_path.
Definition rewrite_cookie_path (set_cookie_header service_name : pystr) : pystr :=
  let prefix := get_service_prefix service_name in
  match search_cookie_path None 0 set_cookie_header with
  | Some (start, stop) =>
      let original_path := strip (take (stop - start) (drop start set_cookie_header)) in
      if startswith prefix original_path then set_cookie_header
      else take start set_cookie_header ++ scoped_path prefix original_path ++ drop stop set_cookie_header
  | None => set_cookie_header ++ u "; Path=" ++ prefix ++ u "/"
  end.

(** ** HTML *)

(** The first group of [_ABSOLUTE_PATH_ATTR_PATTERN] *)
Definition attr_head : re :=
  RSeqs [RAlts [RLit "href"; RLit "src"; RLit "action"; RLit "formaction"]; RStar any_space; RLit "="; RStar any_space].
Definition is_quote (c : N) : bool := ((c =? 34) || (c =? 39))%N.
Definition slash : N := 47.
(** The second and third group with the look ahead: a quote and a slash that no
    other slash follows; the quote and the text from the slash on. *)
Definition quoted_path (p : position) : option (N * pystr) :=
  match p.2 with
  | q :: ((c :: t) as path) =>
      if is_quote q && (c =? slash)%N && match t with c' :: _ => c' <>? slash | [] => true end then Some (q, path) else None
  | _ => None
  end.
Definition match_attr (prev : option N) (s : pystr) : option (N * pystr) :=
  head (omap quoted_path (match_re true attr_head (prev, s))).
(** [finditer]: the quote of each match and where its path starts. *)
Fixpoint absolute_paths (fuel : nat) (prev : option N) (offset : nat) (s : pystr) : list (N * nat) :=
  match fuel, s with
  | S f, c :: s' =>
      match match_attr prev s with
      | Some (q, path) =>
          let start3 := offset + (length s - length path) in
          (q, start3) :: absolute_paths f (Some slash) (S start3) (tail path)
      | None => absolute_paths f (Some c) (S offset) s'
      end
  | _, _ => []
  end.
Definition full_path (quote : N) (remaining : pystr) : pystr :=
  match find [quote] (drop 1 remaining) with Some i => take (S i) remaining | None => remaining end.
Definition already (prefix : pystr) (quote : N) (remaining : pystr) : bool :=
  startswith (prefix ++ u "/") (full_path quote remaining) || (full_path quote remaining =? prefix).
Fixpoint result_parts (prefix html_content : pystr) (last_end : nat) (ms : list (N * nat)) : list pystr :=
  match ms with
  | [] => [drop last_end html_content]
  | (quote, start3) :: ms' =>
      (if already prefix quote (drop start3 html_content) then take (S start3 - last_end) (drop last_end html_content)
       else take (start3 - last_end) (drop last_end html_content) ++ prefix ++ u "/")
      :: result_parts prefix html_content (S start3) ms'
  end.
Definition rewrite_absolute_paths_in_html (html_content service_name : pystr) : pystr :=
  concat (result_parts (get_service_prefix service_name) html_content 0
    (absolute_paths (length html_content) None 0 html_content)).

(** [str.replace(old, new, 1)] after a successful [in], and [index]. *)
Definition _inject_into_head (html_content injection : pystr) : outcome pystr :=
  match find "<head>" html_content with
  | Some i => Ret (take i html_content ++ (u "<head>" ++ injection) ++ drop (i + 6) html_content)
  | None =>
      match find "<head " html_content with
      | Some idx =>
          match find ">" (drop idx html_content) with
          | Some j => Ret (take (idx + j + 1) html_content ++ injection ++ drop (idx + j + 1) html_content)
          | None => Raise (ValueError (u "substring not found"))
          end
      | None => Ret (injection ++ html_content)
      end
  end.
Definition rewrite_proxied_html (html_content service_name : pystr) : outcome pystr :=
  let prefix := get_service_prefix service_name in
  _inject_into_head (rewrite_absolute_paths_in_html html_content service_name)
    ((bq "<base href=`" ++ prefix ++ bq "/`>") ++ generate_websocket_shim_js service_name).

(** ** The attributes *)
Definition end_quote (t : pystr) : option N := match t with [q] => if is_quote q then Some q else None | _ => None end.
(** The quote that ends an attribute's head. *)
Definition attr_start (a : pystr) : option N := head (omap end_quote (texts true attr_head a)).
Definition starts_slash (b : pystr) : bool := match b with c :: _ => (c =? slash)%N | [] => false end.
Definition quoted_text (t : pystr) : option (N * pystr) := quoted_path (None, t).

Lemma quoted_texts l : omap quoted_path l = omap quoted_text (map snd l).
Proof.
  induction l as [|[p t] l IH]; [done|]. cbn [map omap list_omap snd]. change (quoted_path (p, t)) with (quoted_text t). by rewrite IH.
Qed.
Lemma match_attr_texts prev s : match_attr prev s = head (omap quoted_text (texts true attr_head s)).
Proof. unfold match_attr. by rewrite quoted_texts, texts_prev. Qed.
Lemma texts_sub ic r s t : t ∈ texts ic r s → ∃ k, s = k ++ t.
Proof.
  unfold texts. intros ([p t'] & -> & Hin)%list_elem_of_fmap. destruct (match_re_suffix ic r (None, s) (p, t') Hin) as [k Hk]. by exists k.
Qed.

Lemma quoted_text_slash t b : slash ∉ t →
  quoted_text (t ++ slash :: b) = if starts_slash b then None else (λ q, (q, slash :: b)) <$> end_quote t.
Proof.
  intros Ht. unfold quoted_text, quoted_path. cbn [snd]. destruct t as [|q [|c t]]; simpl.
  - destruct b as [|c b]; [done|]. simpl. by destruct (c =? slash)%N.
  - destruct (is_quote q); [|by destruct (starts_slash b)]. simpl. destruct b as [|c b]; [done|]. simpl. case_bool_decide as E.
    + by rewrite E.
    + destruct (N.eqb_spec c slash); done.
  - assert (c ≠ slash) as Hc by (intros ->; apply Ht; right; left).
    apply N.eqb_neq in Hc. rewrite Hc, andb_false_r. simpl. by destruct (starts_slash b).
Qed.
Lemma match_attr_split prev a b : slash ∉ a →
  match_attr prev (a ++ slash :: b) = if starts_slash b then None else (λ q, (q, slash :: b)) <$> attr_start a.
Proof.
  intros Ha. rewrite match_attr_texts, texts_stop by reflexivity. unfold attr_start.
  assert (∀ t, t ∈ texts true attr_head a → slash ∉ t) as Ht.
  { intros t (k & ->)%texts_sub Hin. apply Ha, elem_of_app. by right. }
  revert Ht. induction (texts true attr_head a) as [|t l IH]; intros Ht; [by destruct (starts_slash b)|]. cbn [map omap list_omap].
  rewrite quoted_text_slash by (apply Ht; left). specialize (IH ltac:(intros; apply Ht; by right)).
  destruct (starts_slash b); [done|]. by destruct (end_quote t).
Qed.
Lemma match_attr_no_slash prev s : slash ∉ s → match_attr prev s = None.
Proof.
  intros Hs. rewrite match_attr_texts. assert (∀ t, t ∈ texts true attr_head s → quoted_text t = None) as Ht.
  { intros t (k & ->)%texts_sub. unfold quoted_text, quoted_path. cbn [snd]. destruct t as [|q [|c t]]; try done.
    assert (c ≠ slash) as Hc by (intros ->; apply Hs; set_solver). apply N.eqb_neq in Hc. by rewrite Hc, andb_false_r. }
  revert Ht. induction (texts true attr_head s) as [|t l IH]; intros Ht; [done|]. cbn [omap list_omap].
  rewrite Ht by left. apply IH. intros; apply Ht; by right.
Qed.

(** Where a head can start: an equals sign comes before any other character that
    is no letter or space. *)
Definition equals : N := 61.
Definition ends_name (y : pystr) : Prop := y = [] ∨ ∃ d z, y = d :: z ∧ (is_quote d = true ∨ d = slash).
Definition stops (r : re) : bool := plain r && avoids true 34 r && avoids true 39 r && avoids true slash r.
Lemma sub_stop r x y t : stops r = true → equals ∉ x → ends_name y → t ∈ texts true r (x ++ y) → ∃ t', t = t' ++ y ∧ equals ∉ t'.
Proof.
  unfold stops. rewrite !andb_true_iff. intros [[[Hp H34] H39] H47] Hx Hy Ht. destruct Hy as [->|(d & z & -> & Hd)].
  - rewrite app_nil_r in Ht. destruct (texts_sub _ _ _ _ Ht) as [k ->]. exists t. rewrite app_nil_r. split; [done|].
    intros Hin. apply Hx, elem_of_app. by right.
  - rewrite texts_stop in Ht; [| |done].
    + apply list_elem_of_fmap in Ht as (t' & -> & Ht'). exists t'. split; [done|]. destruct (texts_sub _ _ _ _ Ht') as [k ->].
      intros Hin. apply Hx, elem_of_app. by right.
    + destruct Hd as [Hd| ->]; [|done]. unfold is_quote in Hd. by apply orb_true_iff in Hd as [->%N.eqb_eq| ->%N.eqb_eq].
Qed.
Lemma head_needs_equals x y : equals ∉ x → ends_name y → texts true attr_head (x ++ y) = [].
Proof.
  intros Hx Hy. set (names := RAlts [RLit "href"; RLit "src"; RLit "action"; RLit "formaction"]).
  change attr_head with (RSeq names (RSeq (RStar any_space) (RSeq (RLit "=") (RStar any_space)))). rewrite !texts_seq by reflexivity.
  apply elem_of_nil_inv. intros t4 (l & (t1 & <- & H1)%in_map_iff & H4)%list_elem_of_In%in_concat. apply list_elem_of_In in H1.
  destruct (sub_stop names x y t1) as (x1 & -> & Hx1); [reflexivity|done..|].
  rewrite !texts_seq in H4 by reflexivity. apply in_concat in H4 as (l & (t2 & <- & H2)%in_map_iff & H4). apply list_elem_of_In in H2.
  destruct (sub_stop (RStar any_space) x1 y t2) as (x2 & -> & Hx2); [reflexivity|done..|].
  rewrite texts_seq in H4 by reflexivity. apply in_concat in H4 as (l & (t3 & <- & H3)%in_map_iff & _).
  assert (lit true (u "=") (None, x2 ++ y) = None) as E; [|unfold texts in H3; cbn [match_re] in H3; by rewrite E in H3].
  change (u "=") with [61%N]. cbn [lit snd]. destruct x2 as [|c x2]; simpl.
  - destruct Hy as [->|(d & z & -> & Hd)]; [done|]. destruct Hd as [Hd| ->]; [|done]. unfold is_quote in Hd.
    by apply orb_true_iff in Hd as [->%N.eqb_eq| ->%N.eqb_eq].
  - unfold same. assert (fold_char c ≠ 61%N) as Hf.
    { assert (c ≠ 61%N) as Hc by (intros ->; apply Hx2; left). unfold fold_char.
      destruct (is_upper c) eqn:E; [unfold is_upper in E; apply andb_true_iff in E as [?%N.leb_le ?%N.leb_le]; lia|]. by repeat case_match. }
    apply N.eqb_neq in Hf. destruct (fold_char c) as [|n]; [done|]. change (n =? 61 = false)%positive in Hf. by rewrite Pos.eqb_sym, Hf.
Qed.
Lemma no_attr x y prev : equals ∉ x → ends_name y → match_attr prev (x ++ y) = None.
Proof. intros Hx Hy. by rewrite match_attr_texts, head_needs_equals. Qed.

(** ** The rewriting as a reference *)
Fixpoint rewritten (fuel : nat) (prefix s : pystr) : pystr :=
  match fuel, s with
  | S f, c :: s' =>
      match match_attr None s with
      | Some (q, path) =>
          take (length s - length path) s ++ (if already prefix q path then [] else prefix) ++ slash :: rewritten f prefix (tail path)
      | None => c :: rewritten f prefix s'
      end
  | _, _ => s
  end.
Definition prefixed_html (prefix s : pystr) : pystr := rewritten (length s) prefix s.

(** A text is split at its first slash. *)
Lemma slash_split s : slash ∉ s ∨ ∃ a b, s = a ++ slash :: b ∧ slash ∉ a.
Proof.
  destruct (decide (slash ∈ s)) as [Hin|]; [|by left]. right. destruct (list_elem_of_split_l s slash Hin) as (a & b & -> & Ha). by exists a, b.
Qed.

Lemma match_cases prev s q path : match_attr prev s = Some (q, path) →
  ∃ a b, s = a ++ slash :: b ∧ slash ∉ a ∧ path = slash :: b ∧ starts_slash b = false ∧ attr_start a = Some q.
Proof.
  destruct (slash_split s) as [Hs|(a & b & -> & Ha)]; [by rewrite match_attr_no_slash|]. rewrite match_attr_split by done.
  destruct (starts_slash b) eqn:Eb; [done|]. destruct (attr_start a) as [q'|] eqn:Ea; [|done]. intros [= -> <-]. by exists a, b.
Qed.
Lemma attr_start_nil : attr_start [] = None.
Proof. vm_compute. reflexivity. Qed.
Lemma attr_start_quote a q : attr_start a = Some q → is_quote q = true ∧ a ≠ [].
Proof.
  intros E. split; [|by intros ->]. unfold attr_start in E. revert E. induction (texts true attr_head a) as [|t l IH]; [done|].
  cbn [omap list_omap]. unfold end_quote at 1. destruct t as [|q' [|]]; try done. destruct (is_quote q') eqn:Eq; [|done]. by intros [= ->].
Qed.

Section prefixing.
Context (prefix : pystr).
Abbreviation prefixed := (prefixed_html prefix).

Lemma rewritten_fuel f : ∀ s, length s <= f → rewritten f prefix s = prefixed s.
Proof.
  assert (∀ f g s, length s <= f → length s <= g → rewritten f prefix s = rewritten g prefix s) as Hfg; [|by intros s ?; apply Hfg].
  clear f. induction f as [|f IH]; intros [|g] [|c s] Hf Hg; simpl in Hf, Hg; try done; [lia..|]. cbn [rewritten].
  destruct (match_attr None (c :: s)) as [[q path]|] eqn:Em; [|f_equal; apply IH; lia].
  destruct (match_cases _ _ _ _ Em) as (a & b & Es & _ & -> & _ & _). do 3 f_equal. apply IH; cbn [tail];
    apply (f_equal length) in Es; rewrite length_app in Es; simpl in Es; lia.
Qed.
Lemma prefixed_match a b q : slash ∉ a → starts_slash b = false → attr_start a = Some q →
  prefixed (a ++ slash :: b) = a ++ (if already prefix q (slash :: b) then [] else prefix) ++ slash :: prefixed b.
Proof.
  intros Ha Hb Hq. unfold prefixed_html at 1. destruct a as [|c a]; [done|]. cbn [length app rewritten].
  change (c :: a ++ slash :: b) with ((c :: a) ++ slash :: b). rewrite match_attr_split, Hb, Hq by done. cbn [fmap option_fmap option_map tail].
  rewrite length_app. replace (S (length a + length (slash :: b)) - length (slash :: b)) with (length (c :: a)) by (simpl; lia).
  rewrite take_app_length. cbn [app]. do 4 f_equal. apply rewritten_fuel. simpl. lia.
Qed.
Lemma prefixed_skip c s : match_attr None (c :: s) = None → prefixed (c :: s) = c :: prefixed s.
Proof. intros Hm. unfold prefixed_html at 1. cbn [length rewritten]. by rewrite Hm. Qed.
Lemma prefixed_slash s : prefixed (slash :: s) = slash :: prefixed s.
Proof.
  apply prefixed_skip. change (slash :: s) with ([] ++ slash :: s). rewrite match_attr_split by apply not_elem_of_nil.
  rewrite attr_start_nil. by destruct (starts_slash s).
Qed.

Lemma prefixed_through x y : equals ∉ x → ends_name y → prefixed (x ++ y) = x ++ prefixed y.
Proof.
  intros Hx Hy. induction x as [|c x IH]; [done|]. cbn [app].
  rewrite prefixed_skip by (by apply (no_attr (c :: x))). f_equal. apply IH. intros Hin. apply Hx. by right.
Qed.
Lemma prefixed_quote q s : is_quote q = true → prefixed (q :: s) = q :: prefixed s.
Proof.
  intros Hq. apply prefixed_skip, (no_attr [] (q :: s)); [apply not_elem_of_nil|]. right. exists q, s. auto.
Qed.

(** The rewriting changes nothing before the first slash. *)
Lemma prefixed_no_slash s : slash ∉ s → prefixed s = s.
Proof.
  induction s as [|c s IH]; intros Hs; [done|]. rewrite prefixed_skip by (by apply match_attr_no_slash).
  f_equal. apply IH. intros Hin. apply Hs. by right.
Qed.
Lemma prefixed_head s : starts_slash (prefixed s) = starts_slash s.
Proof.
  destruct s as [|c s]; [done|]. destruct (match_attr None (c :: s)) as [[q path]|] eqn:Em; [|by rewrite prefixed_skip].
  destruct (match_cases _ _ _ _ Em) as (a & b & Es & Ha & _ & Hb & Hq). rewrite Es, (prefixed_match a b q) by done.
  by destruct (attr_start_quote a q Hq) as [_ Hne]; destruct a.
Qed.

Context (Hslash : starts_slash prefix = true) (Hnext : starts_slash (tail prefix) = false) (Hlong : tail prefix ≠ [])
  (Heq : equals ∉ prefix) (Hquote : ∀ c, c ∈ prefix → is_quote c = false).

Lemma prefix_cons : prefix = slash :: tail prefix.
Proof using All. destruct prefix as [|c p]; [done|]. simpl in *. by apply N.eqb_eq in Hslash as ->. Qed.
Lemma prefixed_first_slash a b : slash ∉ a → ∃ b', prefixed (a ++ slash :: b) = a ++ slash :: b' ∧ starts_slash b' = starts_slash b.
Proof using All.
  induction a as [|c a IH]; intros Ha; cbn [app].
  - exists (prefixed b). split; [apply prefixed_slash|apply prefixed_head].
  - destruct (match_attr None (c :: a ++ slash :: b)) as [[q path]|] eqn:Em.
    + change (c :: a ++ slash :: b) with ((c :: a) ++ slash :: b) in Em |- *. rewrite match_attr_split in Em by done.
      destruct (starts_slash b) eqn:Eb; [done|]. destruct (attr_start (c :: a)) as [q'|] eqn:Eq; [|done].
      rewrite (prefixed_match (c :: a) b q') by done. destruct (already _ _ _).
      * exists (prefixed b). split; [done|]. by rewrite prefixed_head.
      * exists (tail prefix ++ slash :: prefixed b). split; [by rewrite prefix_cons at 1|]. by destruct (tail prefix).
    + rewrite prefixed_skip by done. destruct IH as (b' & -> & Hb'); [intros Hin; apply Ha; by right|]. by exists b'.
Qed.
Lemma no_new_attr c s : match_attr None (c :: s) = None → match_attr None (c :: prefixed s) = None.
Proof using All.
  intros Hm. destruct (slash_split s) as [Hs|(a & b & -> & Ha)]; [by rewrite prefixed_no_slash|].
  destruct (prefixed_first_slash a b Ha) as (b' & -> & Hb'). destruct (decide (c = slash)) as [->|Hc].
  - change (match_attr None ([] ++ slash :: (a ++ slash :: b')) = None). rewrite match_attr_split by apply not_elem_of_nil.
    rewrite attr_start_nil. by case_match.
  - assert (slash ∉ c :: a) as Hca by (rewrite not_elem_of_cons; done).
    change (c :: a ++ slash :: b') with ((c :: a) ++ slash :: b'). change (c :: a ++ slash :: b) with ((c :: a) ++ slash :: b) in Hm.
    rewrite match_attr_split in Hm by done. rewrite match_attr_split by done. rewrite Hb'.
    destruct (starts_slash b); [done|]. by destruct (attr_start (c :: a)).
Qed.

(** *** A path that is under the prefix stays so *)
Lemma find_app_char c x y : c ∉ x → find [c] (x ++ c :: y) = Some (length x).
Proof.
  induction x as [|d x IH]; intros Hx; simpl; [by rewrite N.eqb_refl|]. rewrite not_elem_of_cons in Hx. destruct Hx as [Hd Hx].
  apply N.eqb_neq in Hd. rewrite Hd. simpl. by rewrite IH.
Qed.
Lemma quote_not_in q : is_quote q = true → q ∉ tail prefix ∧ q ≠ slash.
Proof using All.
  intros Hq. split; [|by intros ->]. intros Hin. assert (is_quote q = false) by (apply Hquote; rewrite prefix_cons; by right). congruence.
Qed.
Lemma already_under q t : is_quote q = true → already prefix q (prefix ++ slash :: t) = true.
Proof using All.
  intros Hq. destruct (quote_not_in q Hq) as [Hq1 Hq2]. unfold already, full_path. apply orb_true_iff. left.
  change (u "/") with [slash]. set (m := tail prefix ++ [slash]). assert (prefix ++ slash :: t = slash :: m ++ t) as ->.
  { rewrite prefix_cons at 1. unfold m. by rewrite <- app_assoc. }
  assert (prefix ++ [slash] = slash :: m) as -> by (unfold m; by rewrite prefix_cons at 1).
  assert (q ∉ m) as Hm by (unfold m; rewrite elem_of_app; intros [?|Hin]; [done|]; by apply list_elem_of_singleton in Hin).
  change (drop 1 (slash :: m ++ t)) with (m ++ t). destruct (find [q] (m ++ t)) as [i|] eqn:Ei; [|by apply startswith_app].
  cbn [take]. apply startswith_prefix. assert (length m <= i) as Hi.
  { apply find_char_split in Ei. destruct (decide (i < length m)) as [Hlt|]; [|lia]. exfalso. apply Hm.
    apply (f_equal (lookup i)) in Ei. rewrite lookup_app_l in Ei by done. assert (length (take i (m ++ t)) = i) as El by (rewrite length_take, length_app; lia).
    rewrite <- El in Ei at 2. rewrite list_lookup_middle in Ei by done. by apply list_elem_of_lookup_2 with i. }
  exists (take (i - length m) t). rewrite take_app, (take_ge m i) by lia. done.
Qed.
Lemma full_path_sub q r : ∃ k, r = full_path q r ++ k.
Proof. unfold full_path. destruct (find _ _) as [i|]; [|exists []; by rewrite app_nil_r]. exists (drop (S i) r). by rewrite take_drop. Qed.
Lemma already_stays q b : is_quote q = true → already prefix q (slash :: b) = true → already prefix q (slash :: prefixed b) = true.
Proof using All.
  intros Hq Hal. destruct (quote_not_in q Hq) as [Hq1 Hq2]. assert (equals ∉ tail prefix) as Heq'.
  { intros Hin. apply Heq. rewrite prefix_cons. by right. }
  unfold already in Hal. apply orb_true_iff in Hal as [Hs|Hs%bool_decide_eq_true].
  - apply startswith_prefix in Hs as [k Hk]. destruct (full_path_sub q (slash :: b)) as [k' Hk'].
    assert (b = tail prefix ++ slash :: k ++ k') as ->.
    { rewrite Hk, <- !app_assoc in Hk'. rewrite prefix_cons in Hk' at 1. by injection Hk'. }
    rewrite prefixed_through; [|done|right; eexists _, _; split; [done|by right]]. rewrite prefixed_slash.
    change (slash :: tail prefix ++ ?x) with ((slash :: tail prefix) ++ x). rewrite <- prefix_cons. by apply already_under.
  - unfold full_path in Hs. change (drop 1 (slash :: b)) with b in Hs. destruct (find [q] b) as [i|] eqn:Ei.
    + apply find_char_split in Ei. rewrite prefix_cons in Hs. cbn [take] in Hs. injection Hs as Hs. rewrite Hs in Ei.
      rewrite Ei, prefixed_through; [|done|right; eexists _, _; split; [done|by left]]. rewrite prefixed_quote by done.
      unfold already, full_path. change (drop 1 (slash :: ?x)) with x. rewrite find_app_char by done. cbn [take]. rewrite take_app_length, <- prefix_cons.
      by rewrite (bool_decide_eq_true_2 (prefix = prefix)), orb_true_r.
    + assert (b = tail prefix) as -> by (rewrite <- Hs; done).
      assert (prefixed (tail prefix) = tail prefix) as ->.
      { rewrite <- (app_nil_r (tail prefix)) at 1. rewrite prefixed_through; [by rewrite app_nil_r|done|by left]. }
      unfold already, full_path. change (drop 1 (slash :: ?x)) with x. rewrite Ei, <- prefix_cons. by rewrite (bool_decide_eq_true_2 (prefix = prefix)), orb_true_r.
Qed.

Lemma prefixed_twice n : ∀ s, length s <= n → prefixed (prefixed s) = prefixed s.
Proof using All.
  induction n as [|n IH]; intros [|c s] Hn; simpl in Hn; try done; [lia|].
  destruct (match_attr None (c :: s)) as [[q path]|] eqn:Em.
  - destruct (match_cases _ _ _ _ Em) as (a & b & Es & Ha & _ & Hb & Hq). assert (length (a ++ slash :: b) <= S n) as Hn' by (rewrite <- Es; simpl; lia).
    rewrite Es. clear Em path Es.
    destruct (attr_start_quote a q Hq) as [Hqq _]. rewrite length_app in Hn'. simpl in Hn'. specialize (IH b ltac:(lia)).
    rewrite (prefixed_match a b q) by done. destruct (already prefix q (slash :: b)) eqn:Eal.
    + cbn [app]. rewrite (prefixed_match a (prefixed b) q), (already_stays q b) by (rewrite ?prefixed_head; done). by rewrite IH.
    + assert (∀ y, prefix ++ y = slash :: tail prefix ++ y) as Hc by (intros y; by rewrite prefix_cons at 1).
      rewrite (Hc (slash :: prefixed b)), (prefixed_match a _ q) by (done || by destruct (tail prefix)).
      rewrite <- Hc, already_under by done. cbn [app]. f_equal. f_equal.
      rewrite prefixed_through; [|intros Hin; apply Heq; rewrite prefix_cons; by right|right; eexists _, _; split; [done|by right]].
      by rewrite prefixed_slash, IH.
  - rewrite (prefixed_skip c s) by done. rewrite prefixed_skip by (by apply no_new_attr). rewrite IH by lia. done.
Qed.
End prefixing.

(** *** The loop over the matches *)
Lemma rewritten_longer f prefix : ∀ s, length s <= length (rewritten f prefix s).
Proof.
  induction f as [|f IH]; intros [|c s]; cbn [rewritten]; try lia. destruct (match_attr None (c :: s)) as [[q path]|] eqn:Em; [|simpl; specialize (IH s); lia].
  destruct (match_cases _ _ _ _ Em) as (a & b & Es & _ & -> & _ & _). rewrite Es. rewrite (length_app a). rewrite Nat.add_sub, take_app_length.
  cbn [tail]. specialize (IH b). rewrite !length_app. simpl. lia.
Qed.
Lemma match_attr_prev prev prev' s : match_attr prev s = match_attr prev' s.
Proof. by rewrite !match_attr_texts. Qed.

Lemma parts_rewritten prefix f : ∀ s pre prev last, length s <= f → last <= length pre →
  let ms := absolute_paths f prev (length pre) s in
  concat (result_parts prefix (pre ++ s) last ms) = drop last pre ++ rewritten f prefix s
  ∧ (prefix ≠ [] → rewritten f prefix s = s → Forall (λ m, already prefix m.1 (drop m.2 (pre ++ s)) = true) ms).
Proof.
  induction f as [|f IH]; intros [|c s] pre prev last Hf Hlast; cbn [length absolute_paths rewritten] in *; [|lia| |].
  1,2: split; [by cbn; rewrite app_nil_r, drop_app_le, app_nil_r|constructor].
  rewrite (match_attr_prev prev None). destruct (match_attr None (c :: s)) as [[q path]|] eqn:Em.
  - destruct (match_cases _ _ _ _ Em) as (a & b & Es & Ha & -> & Hb & Hq). rewrite Es. clear Em.
    assert (length (c :: s) = length a + S (length b)) as Hlen by (rewrite Es, length_app; done).
    simpl in Hlen. cbn [length tail]. replace (S (length s) - S (length b)) with (length a) by lia.
    destruct (IH b (pre ++ a ++ [slash]) (Some slash) (S (length pre + length a))) as [IH1 IH2];
      [lia|rewrite !length_app; simpl; lia|].
    assert ((pre ++ a ++ [slash]) ++ b = pre ++ a ++ slash :: b) as Eh by (by rewrite <- !app_assoc).
    assert (length (pre ++ a ++ [slash]) = S (length pre + length a)) as El by (rewrite !length_app; simpl; lia).
    rewrite Eh, El in IH1, IH2. rewrite take_app_length.
    assert (drop (length pre + length a) (pre ++ a ++ slash :: b) = slash :: b) as Ed.
    { rewrite app_assoc. rewrite <- length_app. apply drop_app_length. }
    split.
    + cbn [result_parts concat]. rewrite IH1, Ed. rewrite (drop_ge (pre ++ a ++ [slash])) by lia. cbn [app].
      assert (take (length pre + length a - last) (drop last (pre ++ a ++ slash :: b)) = drop last pre ++ a) as E1.
      { rewrite drop_app_le by done. rewrite app_assoc. rewrite take_app_le; [|rewrite length_app, length_drop; lia].
        apply take_ge. rewrite length_app, length_drop. lia. }
      assert (take (S (length pre + length a) - last) (drop last (pre ++ a ++ slash :: b)) = drop last pre ++ a ++ [slash]) as E2.
      { rewrite <- Eh. rewrite drop_app_le by (rewrite El; lia). rewrite take_app_le by (rewrite length_drop, El; lia).
        rewrite take_ge by (rewrite length_drop, El; lia). by rewrite drop_app_le. }
      rewrite E1, E2. destruct (already prefix q (slash :: b)); by rewrite <- !app_assoc.
    + intros Hne Hsame. apply app_inv_head in Hsame. destruct (already prefix q (slash :: b)) eqn:Eal.
      * constructor; [by cbn [fst snd]; rewrite Ed|]. apply IH2; [done|]. by injection Hsame.
      * exfalso. apply (f_equal length) in Hsame. rewrite length_app in Hsame. simpl in Hsame.
        pose proof (rewritten_longer f prefix b). destruct prefix; [done|]. simpl in Hsame. lia.
  - destruct (IH s (pre ++ [c]) (Some c) last) as [IH1 IH2]; [lia|rewrite length_app; lia|].
    rewrite length_app in IH1, IH2. cbn [length] in IH1, IH2. rewrite Nat.add_1_r in IH1, IH2. rewrite <- app_assoc in IH1, IH2.
    cbn [app] in IH1, IH2. split.
    + rewrite IH1. by rewrite drop_app_le, <- app_assoc by done.
    + intros Hne Hsame. apply IH2; [done|]. by injection Hsame.
Qed.

Lemma rewriting_reference html service_name :
  rewrite_absolute_paths_in_html html service_name = prefixed_html (get_service_prefix service_name) html.
Proof. by destruct (parts_rewritten (get_service_prefix service_name) (length html) html [] None 0) as [E _]; [|lia|]. Qed.

(** A name that an attribute's value can hold as it is. *)
Definition plain_name (service_name : pystr) : Prop := equals ∉ service_name ∧ ∀ c, c ∈ service_name → is_quote c = false.

(** C11: rewritten HTML stays in the service: every absolute path in the
    attributes the proxy rewrites is then under the service's prefix, and
    rewriting again changes nothing, so no path is prefixed twice. *)
Theorem rewriting_settles html service_name : plain_name service_name →
  let prefix := get_service_prefix service_name in
  let rewritten := rewrite_absolute_paths_in_html html service_name in
  rewrite_absolute_paths_in_html rewritten service_name = rewritten
  ∧ Forall (λ m, already prefix m.1 (drop m.2 rewritten) = true) (absolute_paths (length rewritten) None 0 rewritten).
Proof.
  intros [Heq Hq] prefix r.
  assert (r = prefixed_html prefix html) as Er by apply rewriting_reference.
  assert (equals ∉ prefix) as Heq'.
  { assert (bool_decide (equals ∈ u "/service/") = false) as Hs%bool_decide_eq_false by (vm_compute; reflexivity).
    unfold prefix, get_service_prefix. rewrite elem_of_app. by intros [Hin|Hin]. }
  assert (∀ c, c ∈ prefix → is_quote c = false) as Hq'.
  { unfold prefix, get_service_prefix. intros c [Hin|Hin]%elem_of_app; [|by apply Hq].
    assert (Forall (λ c, is_quote c = false) (u "/service/")) as HF by (vm_compute; repeat constructor). rewrite Forall_forall in HF. by apply HF. }
  assert (prefixed_html prefix r = r) as Etwice by (rewrite Er; by apply (prefixed_twice prefix) with (length html)).
  split; [by rewrite rewriting_reference|].
  destruct (parts_rewritten prefix (length r) r [] None 0) as [_ HF]; [done|lia|]. by apply HF.
Qed.

(** ** Cookies *)

(** A header is a name with a value and attributes. *)
Definition cookie (name_value : pystr) (attrs : list pystr) : pystr := name_value ++ concat (map (cons semicolon) attrs).
Definition no_semicolons (l : list pystr) : Prop := Forall (λ a, semicolon ∉ a) l.
Lemma split_cookie nv attrs : semicolon ∉ nv → no_semicolons attrs → split_char semicolon (cookie nv attrs) = nv :: attrs.
Proof.
  intros Hnv Ha. revert nv Hnv. induction Ha as [|a attrs Ha _ IH]; intros nv Hnv; unfold cookie; simpl.
  - rewrite app_nil_r. by apply split_char_one.
  - rewrite split_char_app by done. f_equal. by apply IH.
Qed.
Lemma header_cookie header : ∃ nv attrs, header = cookie nv attrs ∧ semicolon ∉ nv ∧ no_semicolons attrs.
Proof.
  induction header as [|c header (nv & attrs & -> & Hnv & Ha)].
  - exists [], []. repeat split; [apply not_elem_of_nil|constructor].
  - destruct (decide (c = semicolon)) as [->|Hc].
    + exists [], (nv :: attrs). repeat split; [apply not_elem_of_nil|by constructor].
    + exists (c :: nv), attrs. repeat split; [|done]. rewrite not_elem_of_cons. auto.
Qed.

(** *** How a browser reads the path: the last attribute of that name (RFC 6265, 5.2) *)
Definition attr_name (a : pystr) : pystr := lower_ascii (strip (match split_once equals a with Some (n, _) => n | None => a end)).
Definition attr_value (a : pystr) : pystr := strip (match split_once equals a with Some (_, v) => v | None => [] end).
Definition path_attrs (attrs : list pystr) : list pystr := List.filter (λ a, attr_name a =? u "path") attrs.
Definition cookie_path (header : pystr) : option pystr := attr_value <$> last (path_attrs (tail (split_char semicolon header))).

(** *** The pattern on one attribute *)
Definition path_at (a : pystr) : option pystr := head (texts false cookie_path_attr a).
Definition shape (a s1 : pystr) (p : N) (s2 s3 v : pystr) : Prop :=
  a = s1 ++ p :: u "ath" ++ s2 ++ equals :: s3 ++ v ∧ (p = 80 ∨ p = 112)%N ∧ Forall (λ c, is_space c = true) s1
  ∧ Forall (λ c, is_space c = true) s2 ∧ Forall (λ c, is_space c = true) s3 ∧ match v with c :: _ => is_space c = false | [] => True end.

Lemma head_concat {A B} (g : A → list B) l v : head (concat (map g l)) = Some v → ∃ t, t ∈ l ∧ head (g t) = Some v.
Proof.
  induction l as [|t l IH]; [done|]. simpl. destruct (g t) as [|v' r] eqn:E.
  - intros (t' & Hin & Ht')%IH. exists t'. split; [by right|done].
  - simpl. intros [= ->]. exists t. split; [left|by rewrite E].
Qed.
Lemma star_head s : head (texts false (RStar any_space) s) = Some (lstrip s).
Proof.
  unfold texts, any_space. cbn [match_re fst snd]. generalize (@None N) as p. induction s as [|c s IH]; intros p; simpl; [done|].
  destruct (is_space c); [|done]. rewrite map_app. specialize (IH (Some c)). rewrite <- IH.
  destruct (star is_space (Some c) s) as [|t l]; done.
Qed.
Lemma star_in s t : t ∈ texts false (RStar any_space) s → ∃ k, s = k ++ t ∧ Forall (λ c, is_space c = true) k.
Proof.
  unfold texts. cbn [match_re fst snd]. generalize (@None N) as p. induction s as [|c s IH]; intros p Hin; simpl in Hin.
  - apply list_elem_of_singleton in Hin as ->. by exists [].
  - unfold any_space at 1 in Hin. destruct (is_space c) eqn:Ec.
    + rewrite map_app in Hin. apply elem_of_app in Hin as [Hin|Hin].
      * destruct (IH _ Hin) as (k & -> & Hk). exists (c :: k). split; [done|by constructor].
      * apply list_elem_of_singleton in Hin as ->. by exists [].
    + apply list_elem_of_singleton in Hin as ->. by exists [].
Qed.
Lemma lstrip_head s : match lstrip s with c :: _ => is_space c = false | [] => True end.
Proof. induction s as [|c s IH]; [done|]. simpl. by destruct (is_space c) eqn:E. Qed.

Lemma lit_texts l s t : t ∈ texts false (RLit l) s ↔ s = l ++ t.
Proof.
  unfold texts. cbn [match_re]. generalize (@None N) as p. revert s. induction l as [|c l IH]; intros s p; cbn [lit].
  - cbn [map snd app]. rewrite list_elem_of_singleton. split; congruence.
  - cbn [snd]. destruct s as [|d s]; [split; [by intros ?%elem_of_nil|done]|]. unfold same. destruct (N.eqb_spec c d) as [->|Hne].
    + rewrite IH. cbn [app]. split; congruence.
    + split; [by intros ?%elem_of_nil|]. cbn [app]. congruence.
Qed.
Lemma lit_one l t : texts false (RLit l) (l ++ t) = [t].
Proof.
  assert (t ∈ texts false (RLit l) (l ++ t)) as Hin by by apply lit_texts. unfold texts in *. cbn [match_re] in *.
  destruct (lit false l (None, l ++ t)) as [q|]; [|by apply elem_of_nil in Hin]. by apply list_elem_of_singleton in Hin as ->.
Qed.

Definition path_letter : re := RClass (λ c, (c =? 80)%N || (c =? 112)%N).
Lemma path_attr_seq : cookie_path_attr
  = RSeq (RStar any_space) (RSeq path_letter (RSeq (RLit "ath") (RSeq (RStar any_space) (RSeq (RLit "=") (RStar any_space))))).
Proof. done. Qed.
Lemma path_at_shape a v : path_at a = Some v → ∃ s1 p s2 s3, shape a s1 p s2 s3 v.
Proof.
  unfold path_at. rewrite path_attr_seq. rewrite texts_seq by done. intros (t1 & (s1 & -> & H1)%star_in & E)%head_concat.
  rewrite texts_seq in E by done. apply head_concat in E as (t2 & H2 & E). unfold texts, path_letter in H2. cbn [match_re snd] in H2.
  destruct t1 as [|p t1]; [by apply elem_of_nil in H2|]. destruct ((p =? 80)%N || (p =? 112)%N) eqn:Ep; [|by apply elem_of_nil in H2].
  simpl in H2. apply list_elem_of_singleton in H2 as ->. rewrite texts_seq in E by done. apply head_concat in E as (t3 & ->%lit_texts & E).
  rewrite texts_seq in E by done. apply head_concat in E as (t4 & (s2 & -> & H2)%star_in & E).
  rewrite texts_seq in E by done. apply head_concat in E as (t5 & ->%lit_texts & E). rewrite star_head in E. injection E as <-.
  destruct (lstrip_suffix t5) as (s3 & E3 & H3). exists s1, p, s2, s3. unfold shape. split_and!; [by rewrite E3 at 1|..].
  - apply orb_true_iff in Ep as [->%N.eqb_eq| ->%N.eqb_eq]; auto.
  - done.
  - done.
  - done.
  - apply lstrip_head.
Qed.

Lemma star_app s1 x : Forall (λ c, is_space c = true) s1 → ∃ l, texts false (RStar any_space) (s1 ++ x) = lstrip x :: l.
Proof.
  intros Hs. pose proof (star_head (s1 ++ x)) as E. destruct (texts false (RStar any_space) (s1 ++ x)) as [|t l]; [done|]. simpl in E.
  injection E as ->. exists l. f_equal. induction Hs as [|c s1 Hc _ IH]; [done|]. simpl. by rewrite Hc.
Qed.
Lemma lstrip_id x : match x with c :: _ => is_space c = false | [] => True end → lstrip x = x.
Proof. destruct x as [|c x]; [done|]. simpl. by intros ->. Qed.
Lemma shape_path_at a s1 p s2 s3 v : shape a s1 p s2 s3 v → path_at a = Some v.
Proof.
  intros (-> & Hp & H1 & H2 & H3 & Hv). unfold path_at. rewrite path_attr_seq. rewrite texts_seq by done.
  assert (is_space p = false) as Hps by (destruct Hp as [->| ->]; done).
  destruct (star_app s1 (p :: u "ath" ++ s2 ++ equals :: s3 ++ v) H1) as [l1 ->]. rewrite lstrip_id by done. cbn [map concat].
  rewrite texts_seq by done. unfold texts at 2, path_letter at 1. cbn [match_re snd].
  assert ((p =? 80)%N || (p =? 112)%N = true) as -> by (destruct Hp as [->| ->]; done). cbn [map concat snd]. rewrite app_nil_r.
  rewrite texts_seq by done. rewrite lit_one. cbn [map concat]. rewrite app_nil_r. rewrite texts_seq by done.
  destruct (star_app s2 (equals :: s3 ++ v) H2) as [l2 ->]. rewrite lstrip_id by done. cbn [map concat]. rewrite texts_seq by done.
  change (equals :: s3 ++ v) with (u "=" ++ s3 ++ v). rewrite lit_one. cbn [map concat]. rewrite app_nil_r.
  destruct (star_app s3 v H3) as [l3 ->]. by rewrite lstrip_id.
Qed.

(** *** The search, attribute by attribute *)
Abbreviation attrs_text attrs := (concat (map (cons semicolon) attrs)).
Lemma pattern_texts c s : texts false _COOKIE_PATH_PATTERN (c :: s) = if decide (c = semicolon) then texts false cookie_path_attr s else [].
Proof.
  unfold _COOKIE_PATH_PATTERN. rewrite texts_seq by done. destruct (decide (c = semicolon)) as [->|Hc].
  - change (semicolon :: s) with (u ";" ++ s). rewrite lit_one. simpl. by rewrite app_nil_r.
  - assert (texts false (RLit ";") (c :: s) = []) as ->; [|done]. apply elem_of_nil_inv. intros t E%lit_texts. by injection E.
Qed.
Lemma search_unfold prev off s : search_cookie_path prev off s =
  match head (texts false _COOKIE_PATH_PATTERN s) with
  | Some value => Some (off + (length s - length value), off + (length s - length value) + value_end value)
  | None => match s with c :: s' => search_cookie_path (Some c) (S off) s' | [] => None end
  end.
Proof.
  rewrite <- (texts_prev false _COOKIE_PATH_PATTERN prev s) by done. destruct s; cbn [search_cookie_path];
    by destruct (match_re false _COOKIE_PATH_PATTERN _) as [|[p v] l].
Qed.
Lemma search_skip a : semicolon ∉ a → ∀ prev off rest, ∃ prev', search_cookie_path prev off (a ++ rest) = search_cookie_path prev' (off + length a) rest.
Proof.
  induction a as [|c a IH]; intros Ha prev off rest; [exists prev; simpl; by rewrite Nat.add_0_r|].
  rewrite not_elem_of_cons in Ha. destruct Ha as [Hc Ha]. cbn [app]. rewrite search_unfold, pattern_texts, decide_False by done. cbn [head].
  destruct (IH Ha (Some c) (S off) rest) as [prev' ->]. exists prev'. f_equal. simpl. lia.
Qed.
Lemma value_end_app v attrs : semicolon ∉ v → value_end (v ++ attrs_text attrs) = length v.
Proof.
  induction v as [|c v IH]; intros Hv; [by destruct attrs|]. rewrite not_elem_of_cons in Hv. destruct Hv as [Hc Hv]. simpl.
  destruct (N.eqb_spec c semicolon); [congruence|]. by rewrite IH.
Qed.
Lemma path_at_app a attrs : head (texts false cookie_path_attr (a ++ attrs_text attrs)) = (λ v, v ++ attrs_text attrs) <$> path_at a.
Proof.
  destruct attrs as [|a' attrs]; simpl.
  - rewrite app_nil_r. unfold path_at. destruct (head _) as [v|]; [|done]. simpl. by rewrite app_nil_r.
  - rewrite texts_stop by done. unfold path_at. by destruct (texts false cookie_path_attr a).
Qed.
Lemma path_at_sub a v : path_at a = Some v → ∃ k, a = k ++ v.
Proof.
  intros (s1 & p & s2 & s3 & -> & _)%path_at_shape. exists (s1 ++ p :: u "ath" ++ s2 ++ equals :: s3).
  rewrite <- !app_assoc. cbn [app]. by rewrite <- !app_assoc.
Qed.

Lemma search_attrs attrs : no_semicolons attrs → ∀ prev off,
  match search_cookie_path prev off (attrs_text attrs) with
  | Some (start, stop) => ∃ attrs1 a attrs2 k v, attrs = attrs1 ++ a :: attrs2 ∧ Forall (λ a, path_at a = None) attrs1 ∧ path_at a = Some v
      ∧ a = k ++ v ∧ start = off + length (attrs_text attrs1) + S (length k) ∧ stop = start + length v
  | None => Forall (λ a, path_at a = None) attrs
  end.
Proof.
  induction 1 as [|a attrs Ha _ IH]; intros prev off; [constructor|]. cbn [map concat app]. rewrite search_unfold, pattern_texts, decide_True by done.
  rewrite path_at_app. destruct (path_at a) as [v|] eqn:Ev; cbn [fmap option_fmap option_map].
  - destruct (path_at_sub a v Ev) as [k Ek]. exists [], a, attrs, k, v. split; [done|]. split; [constructor|]. split; [done|]. split; [done|].
    rewrite value_end_app by (rewrite Ek in Ha; set_solver). split; [|done]. simpl. rewrite !length_app, Ek, length_app. lia.
  - destruct (search_skip a Ha (Some semicolon) (S off) (attrs_text attrs)) as [prev' ->]. specialize (IH prev' (S off + length a)).
    destruct (search_cookie_path _ _ _) as [[start stop]|]; [|by constructor].
    destruct IH as (attrs1 & a' & attrs2 & k & v & -> & H1 & Hv & Ek & -> & ->). exists (a :: attrs1), a', attrs2, k, v.
    split; [done|]. split; [by constructor|]. split; [done|]. split; [done|]. split; [|done]. simpl. rewrite length_app. lia.
Qed.

(** The rewriting as a reference: the first attribute the pattern finds gets a
    path under the prefix; a header without one gets a new attribute. *)
Definition scope_attr (prefix a : pystr) : option pystr :=
  (λ v, if startswith prefix (strip v) then a else take (length a - length v) a ++ scoped_path prefix (strip v)) <$> path_at a.
Fixpoint scope_first (prefix : pystr) (attrs : list pystr) : list pystr :=
  match attrs with
  | [] => [u " Path=" ++ prefix ++ u "/"]
  | a :: attrs' => match scope_attr prefix a with Some a' => a' :: attrs' | None => a :: scope_first prefix attrs' end
  end.
Lemma scope_first_app prefix attrs1 attrs2 : Forall (λ a, path_at a = None) attrs1 →
  scope_first prefix (attrs1 ++ attrs2) = attrs1 ++ scope_first prefix attrs2.
Proof. induction 1 as [|a attrs1 Ha _ IH]; [done|]. cbn [app scope_first]. unfold scope_attr. rewrite Ha. cbn [fmap option_fmap option_map]. by rewrite IH. Qed.

Lemma cookie_reference nv attrs name : semicolon ∉ nv → no_semicolons attrs →
  rewrite_cookie_path (cookie nv attrs) name = cookie nv (scope_first (get_service_prefix name) attrs).
Proof.
  intros Hnv Ha. unfold rewrite_cookie_path. set (prefix := get_service_prefix name).
  destruct (search_skip nv Hnv None 0 (attrs_text attrs)) as [prev E]. unfold cookie at 1. rewrite E.
  generalize (search_attrs attrs Ha prev (0 + length nv)). destruct (search_cookie_path prev (0 + length nv) (attrs_text attrs)) as [[start stop]|].
  - intros (attrs1 & a & attrs2 & k & v & -> & H1 & Hv & Ek & -> & ->). set (pre := nv ++ attrs_text attrs1 ++ semicolon :: k).
    assert (cookie nv (attrs1 ++ a :: attrs2) = pre ++ v ++ attrs_text attrs2) as Eh.
    { unfold cookie, pre. rewrite map_app, concat_app, Ek. simpl. rewrite <- ?app_assoc. simpl. by rewrite <- ?app_assoc. }
    assert (0 + length nv + length (attrs_text attrs1) + S (length k) = length pre) as -> by (unfold pre; rewrite !length_app; simpl; lia).
    rewrite Eh, drop_app_length. replace (length pre + length v - length pre) with (length v) by lia. rewrite take_app_length.
    rewrite scope_first_app by done. cbn [scope_first]. unfold scope_attr. rewrite Hv. cbn [fmap option_fmap option_map].
    destruct (startswith prefix (strip v)); [by rewrite <- Eh|].
    assert (take (length a - length v) a = k) as ->.
    { rewrite Ek, length_app. replace (length k + length v - length v) with (length k) by lia. apply take_app_length. }
    rewrite take_app_length. rewrite <- length_app, (app_assoc pre v), drop_app_length.
    unfold cookie, pre. rewrite map_app, concat_app. simpl. rewrite <- ?app_assoc. simpl. by rewrite <- ?app_assoc.
  - intros Hnone. rewrite <- (app_nil_r attrs) at 2. rewrite scope_first_app by done. unfold cookie. rewrite map_app, concat_app. simpl.
    rewrite app_nil_r, <- app_assoc. done.
Qed.

(** *** What the browser makes of it *)
Definition all_space (s : pystr) : Prop := Forall (λ c, is_space c = true) s.
Lemma lstrip_spaces s x : all_space s → lstrip (s ++ x) = lstrip x.
Proof. induction 1 as [|c s Hc _ IH]; [done|]. simpl. by rewrite Hc. Qed.
Lemma rstrip_spaces s x : all_space s → rstrip (x ++ s) = rstrip x.
Proof. intros Hs. unfold rstrip. rewrite reverse_app, lstrip_spaces; [done|]. by apply Forall_reverse. Qed.
Lemma rstrip_keeps x c y : is_space c = false → ∃ y', rstrip (x ++ c :: y) = x ++ c :: y'.
Proof.
  intros Hc. unfold rstrip. rewrite reverse_app, reverse_cons. rewrite <- app_assoc. cbn [app].
  assert (∀ z, ∃ z', lstrip (z ++ c :: reverse x) = z' ++ c :: reverse x) as Hz.
  { induction z as [|d z [z' IH]]; [exists []; simpl; by rewrite Hc|]. simpl. destruct (is_space d); [by exists z'|by exists (d :: z)]. }
  destruct (Hz (reverse y)) as [z' ->]. exists (reverse z'). rewrite reverse_app, reverse_cons, reverse_involutive. by rewrite <- app_assoc.
Qed.
Lemma strip_keeps x c y : match x with d :: _ => is_space d = false | [] => True end → is_space c = false → ∃ y', strip (x ++ c :: y) = x ++ c :: y'.
Proof. intros Hx Hc. unfold strip. rewrite lstrip_id; [by apply rstrip_keeps|]. by destruct x. Qed.

Lemma drop_past {A} (x : list A) c y : drop (S (length x)) (x ++ c :: y) = y.
Proof. by induction x. Qed.
Lemma shape_browser a s1 p s2 s3 v : shape a s1 p s2 s3 v → attr_name a = u "path" ∧ attr_value a = strip v.
Proof.
  intros (-> & Hp & H1 & H2 & H3 & _).
  assert (∀ s, all_space s → equals ∉ s) as Hns by (intros s Hs Hin; unfold all_space in Hs; rewrite Forall_forall in Hs; by apply Hs in Hin).
  assert (split_once equals (s1 ++ p :: u "ath" ++ s2 ++ equals :: s3 ++ v) = Some (s1 ++ p :: u "ath" ++ s2, s3 ++ v)) as E.
  { assert (s1 ++ p :: u "ath" ++ s2 ++ equals :: s3 ++ v = (s1 ++ p :: u "ath" ++ s2) ++ equals :: s3 ++ v) as ->
      by (rewrite <- ?app_assoc; done).
    unfold split_once. rewrite find_app_char; [by rewrite take_app_length, drop_past|].
    rewrite elem_of_app, elem_of_cons, elem_of_app. intros [Hin|[Hin|[Hin|Hin]]]; [by apply (Hns s1)| |by vm_compute in Hin; set_solver|by apply (Hns s2)].
    by destruct Hp as [->| ->]. }
  unfold attr_name, attr_value. rewrite E. split.
  - unfold strip. rewrite lstrip_spaces by done. change (p :: u "ath" ++ s2) with ((p :: u "ath") ++ s2).
    rewrite lstrip_id by (by destruct Hp as [->| ->]). rewrite rstrip_spaces by done. by destruct Hp as [->| ->].
  - unfold strip. by rewrite lstrip_spaces.
Qed.

Lemma prefix_shape name : get_service_prefix name = slash :: u "service/" ++ name.
Proof. done. Qed.
(** A path that was put under the prefix is seen to be. *)
Lemma scoped_under name original : ∃ y, strip (scoped_path (get_service_prefix name) original) = get_service_prefix name ++ slash :: y.
Proof.
  unfold scoped_path. change (u "/") with [slash]. destruct (startswith [slash] original) eqn:E.
  - apply startswith_prefix in E as [o ->]. apply strip_keeps; [by rewrite prefix_shape|done].
  - apply (strip_keeps _ slash original); [by rewrite prefix_shape|done].
Qed.
(** What begins and ends with a character is left by [strip]; what [strip] leaves
    is empty or ends with one. *)
Lemma strip_solid x c : match x with d :: _ => is_space d = false | [] => True end → is_space c = false → strip (x ++ [c]) = x ++ [c].
Proof.
  intros Hx Hc. unfold strip. rewrite lstrip_id by (by destruct x). unfold rstrip. rewrite reverse_app. cbn [reverse app].
  change (reverse [c] ++ reverse x) with (c :: reverse x). rewrite lstrip_id by done. by rewrite reverse_cons, reverse_involutive.
Qed.
Lemma strip_end s : strip s = [] ∨ ∃ w c, strip s = w ++ [c] ∧ is_space c = false.
Proof.
  unfold strip, rstrip. pose proof (lstrip_head (reverse (lstrip s))) as Hl. destruct (lstrip (reverse (lstrip s))) as [|c w]; [by left|right].
  exists (reverse w), c. by rewrite reverse_cons.
Qed.
(** The path that was there, if any, follows the prefix. *)
Lemma scoped_strip name v : ∃ rest, strip (scoped_path (get_service_prefix name) (strip v)) = get_service_prefix name ++ slash :: rest
  ∧ (strip v = rest ∨ strip v = slash :: rest).
Proof.
  assert (strip (scoped_path (get_service_prefix name) (strip v)) = scoped_path (get_service_prefix name) (strip v)) as ->.
  { unfold scoped_path. change (u "/") with [slash]. destruct (strip_end v) as [->|(w & c & -> & Hc)].
    - cbn [startswith]. rewrite app_nil_r. by apply strip_solid.
    - rewrite !app_assoc. by apply strip_solid. }
  unfold scoped_path. change (u "/") with [slash]. destruct (startswith [slash] (strip v)) eqn:E.
  - apply startswith_prefix in E as [o ->]. exists o. split; [done|by right].
  - exists (strip v). split; [done|by left].
Qed.
Lemma scoped_shape name a s1 p s2 s3 v original : shape a s1 p s2 s3 v →
  shape (take (length a - length v) a ++ scoped_path (get_service_prefix name) original) s1 p s2 s3 (scoped_path (get_service_prefix name) original).
Proof.
  intros (-> & Hp & H1 & H2 & H3 & _). split_and!; try done.
  assert (s1 ++ p :: u "ath" ++ s2 ++ equals :: s3 ++ v = (s1 ++ p :: u "ath" ++ s2 ++ equals :: s3) ++ v) as ->.
  { rewrite <- ?app_assoc. cbn [app]. by rewrite <- ?app_assoc. }
  rewrite length_app, Nat.add_sub, take_app_length. rewrite <- ?app_assoc. cbn [app]. by rewrite <- ?app_assoc.
Qed.
Lemma first_path attrs : (∃ attrs1 a attrs2 v, attrs = attrs1 ++ a :: attrs2 ∧ Forall (λ a, path_at a = None) attrs1 ∧ path_at a = Some v)
  ∨ Forall (λ a, path_at a = None) attrs.
Proof.
  induction attrs as [|a attrs IH]; [by right|]. destruct (path_at a) as [v|] eqn:E.
  - left. exists [], a, attrs, v. split; [done|]. by split; [constructor|].
  - destruct IH as [(attrs1 & a' & attrs2 & v & -> & H1 & Hv)|IH]; [|right; by constructor].
    left. exists (a :: attrs1), a', attrs2, v. split; [done|]. by split; [constructor|].
Qed.
(** The first attribute found ends with a path under the prefix, and stays. *)
Lemma scoped_attr name a v : path_at a = Some v → ∃ a' v', scope_attr (get_service_prefix name) a = Some a'
  ∧ (∃ s1 p s2 s3, shape a' s1 p s2 s3 v') ∧ startswith (get_service_prefix name) (strip v') = true
  ∧ (a' = a ∨ ∃ rest, strip v' = get_service_prefix name ++ slash :: rest ∧ (strip v = rest ∨ strip v = slash :: rest))
  ∧ (semicolon ∉ a → semicolon ∉ name → semicolon ∉ a').
Proof.
  intros Hv. unfold scope_attr. rewrite Hv. cbn [fmap option_fmap option_map]. destruct (path_at_shape a v Hv) as (s1 & p & s2 & s3 & Hs).
  destruct (startswith _ (strip v)) eqn:Es.
  - exists a, v. split; [done|]. split; [by exists s1, p, s2, s3|]. split; [done|]. split; [by left|done].
  - eexists _, _. split; [done|]. split; [eexists _, _, _, _; by apply (scoped_shape name a s1 p s2 s3 v (strip v))|]. split.
    + destruct (scoped_under name (strip v)) as [y ->]. by apply startswith_app.
    + split; [right; apply scoped_strip|]. intros Ha Hn. rewrite elem_of_app. intros [Hin|Hin]; [by apply (sublist_subseteq _ _ (sublist_take a _)) in Hin|].
      destruct (path_at_sub a v Hv) as [k Ek]. assert (semicolon ∉ strip v) as Hsv.
      { intros Hc. apply Ha. rewrite Ek. apply elem_of_app. right. by apply lstrip_sub, rstrip_sub. }
      assert (bool_decide (semicolon ∈ u "/service/") = false) as Hpre%bool_decide_eq_false by (vm_compute; reflexivity).
      revert Hin. unfold scoped_path, get_service_prefix. change (u "/") with [slash]. rewrite !elem_of_app.
      intros [[Hin|Hin]|[Hin|Hin]]; [done|done| |done]. case_match; [by apply elem_of_nil in Hin|by apply list_elem_of_singleton in Hin].
Qed.

(** The path of a header with one attribute of that name. *)
Lemma only_path nv attrs1 a a' attrs2 : semicolon ∉ nv → no_semicolons (attrs1 ++ a' :: attrs2) →
  attr_name a = u "path" → attr_name a' = u "path" → length (path_attrs (attrs1 ++ a :: attrs2)) <= 1 →
  cookie_path (cookie nv (attrs1 ++ a' :: attrs2)) = Some (attr_value a').
Proof.
  intros Hnv Ha En0 En Hone. unfold cookie_path. rewrite split_cookie by done. cbn [tail].
  unfold path_attrs in *. rewrite List.filter_app in *. cbn [List.filter] in *. rewrite En0, bool_decide_eq_true_2 in Hone by done.
  rewrite En, bool_decide_eq_true_2 by done. rewrite length_app in Hone. cbn [length] in Hone.
  destruct (List.filter _ attrs2); [|simpl in Hone; lia]. by rewrite last_snoc.
Qed.
(** A cookie stays in the service: a header with at most one path, however it is
    written, is given a path that starts with the service's prefix, as a browser
    reads it: the one it had, when that starts with the prefix, or the prefix
    followed by the one it had.  A second rewriting changes nothing. *)
Lemma cookie_is_scoped header name :
  semicolon ∉ name → length (path_attrs (tail (split_char semicolon header))) <= 1 →
  let r := rewrite_cookie_path header name in
  (∃ p, cookie_path r = Some p ∧ startswith (get_service_prefix name) p = true
     ∧ (r = header ∨ ∃ rest, p = get_service_prefix name ++ slash :: rest
          ∧ (rest = [] ∨ cookie_path header = Some rest ∨ cookie_path header = Some (slash :: rest))))
  ∧ rewrite_cookie_path r name = r.
Proof.
  intros Hname Hone r. unfold r. clear r. destruct (header_cookie header) as (nv & attrs & -> & Hnv & Ha).
  rewrite split_cookie in Hone by done. cbn [tail] in Hone. rewrite cookie_reference by done.
  set (prefix := get_service_prefix name). destruct (first_path attrs) as [(attrs1 & a & attrs2 & v & -> & H1 & Hv)|Hnone].
  - rewrite scope_first_app by done. cbn [scope_first].
    destruct (scoped_attr name a v Hv) as (a' & v' & Esc & (s1 & p & s2 & s3 & Hs') & Hunder & Hrest & Hsemi).
    fold prefix in Hunder, Esc. rewrite Esc.
    apply Forall_app in Ha as [Ha1 Ha2]. apply Forall_cons in Ha2 as [Ha0 Ha2].
    assert (no_semicolons (attrs1 ++ a' :: attrs2)) as Ha' by (apply Forall_app; split; [done|constructor; [by apply Hsemi|done]]).
    pose proof (shape_path_at _ _ _ _ _ _ Hs') as Hv'. destruct (shape_browser _ _ _ _ _ _ Hs') as [En Ev]. split.
    + destruct (path_at_shape a v Hv) as (t1 & p' & t2 & t3 & Hs). destruct (shape_browser _ _ _ _ _ _ Hs) as [En0 Ev0].
      exists (strip v'). rewrite <- Ev. split; [by apply (only_path nv attrs1 a)|]. rewrite Ev. split; [done|].
      destruct Hrest as [->|(rest & Er & Eo)]; [by left|]. right. exists rest. split; [done|]. right.
      assert (cookie_path (cookie nv (attrs1 ++ a :: attrs2)) = Some (strip v)) as -> by (rewrite <- Ev0; apply (only_path nv attrs1 a); [done|apply Forall_app; split; [done|by constructor]|done..]).
      destruct Eo as [->| ->]; [by left|by right].
    + rewrite cookie_reference by done. rewrite scope_first_app by done. cbn [scope_first]. unfold scope_attr. rewrite Hv'.
      cbn [fmap option_fmap option_map]. fold prefix. by rewrite Hunder.
  - rewrite <- (app_nil_r attrs). rewrite scope_first_app by done. cbn [scope_first]. set (a' := u " Path=" ++ prefix ++ u "/").
    assert (shape a' (u " ") 80 [] [] (prefix ++ u "/")) as Hs' 
      by (split; [done|split; [by left|split; [by vm_compute; repeat constructor|split; [constructor|split; [constructor|done]]]]]).
    assert (semicolon ∉ a') as Hsemi.
    { assert (bool_decide (semicolon ∈ u " Path=" ++ u "/service/") = false) as Hpre%bool_decide_eq_false by (vm_compute; reflexivity).
      unfold a', prefix, get_service_prefix. change (u "/") with [slash]. rewrite !elem_of_app in Hpre. rewrite !elem_of_app.
      intros [Hin|[[Hin|Hin]|Hin]]; [by apply Hpre; left|by apply Hpre; right|done|by apply list_elem_of_singleton in Hin]. }
    assert (no_semicolons (attrs ++ [a'])) as Ha' by (apply Forall_app; split; [done|by constructor]).
    pose proof (shape_path_at _ _ _ _ _ _ Hs') as Hv'. destruct (shape_browser _ _ _ _ _ _ Hs') as [En Ev].
    assert (startswith prefix (strip (prefix ++ u "/")) = true) as Hunder.
    { destruct (scoped_under name []) as [y Ey]. change (strip (prefix ++ u "/") = prefix ++ slash :: y) in Ey. rewrite Ey. by apply startswith_app. }
    split.
    + exists (strip (prefix ++ u "/")). split; [|split; [done|]].
      2: { right. exists []. split; [change (u "/") with [slash]; by apply strip_solid|by left]. }
      unfold cookie_path. rewrite split_cookie by done. cbn [tail].
      unfold path_attrs. rewrite List.filter_app. cbn [List.filter]. rewrite En, bool_decide_eq_true_2 by done. by rewrite last_snoc, <- Ev.
    + rewrite cookie_reference by done. rewrite scope_first_app by done. cbn [scope_first]. unfold scope_attr. rewrite Hv'.
      cbn [fmap option_fmap option_map]. fold prefix. by rewrite Hunder.
Qed.
End rewriting.

(** ** Concrete pages and headers *)
Module ProxyDemo.
Instance ascii_only : UnicodeDB := {| wide_alnum _ := false |}.
Lemma web_plain : plain_name (u "web").
Proof.
  assert (bool_decide (equals ∈ u "web") = false) as Hn%bool_decide_eq_false by (vm_compute; reflexivity).
  split; [done|]. intros c Hc. vm_compute in Hc.
  repeat (apply elem_of_cons in Hc as [->|Hc]; [done|]). by apply elem_of_nil in Hc.
Qed.

Lemma rewriting_settles_witness :
  rewrite_absolute_paths_in_html (bq "<a HREF = `/x`><img src='//cdn/y'>") "web" = bq "<a HREF = `/service/web/x`><img src='//cdn/y'>"
  ∧ rewrite_absolute_paths_in_html (bq "<a HREF = `/service/web/x`><img src='//cdn/y'>") "web" = bq "<a HREF = `/service/web/x`><img src='//cdn/y'>".
Proof.
  split; [vm_compute; reflexivity|].
  destruct (rewriting_settles (bq "<a HREF = `/x`><img src='//cdn/y'>") "web" web_plain) as [E _]. vm_compute in E |- *. exact E.
Defined.

Lemma cookie_scoped :
  rewrite_cookie_path "sid=abc; HttpOnly;path = /api " "web" = u "sid=abc; HttpOnly;path = /service/web/api"
  ∧ ∃ p, cookie_path "sid=abc; HttpOnly;path = /service/web/api" = Some p ∧ startswith "/service/web" p = true.
Proof.
  split; [vm_compute; reflexivity|].
  destruct (cookie_is_scoped "sid=abc; HttpOnly;path = /api " "web") as [(p & E & Es & _) _].
  - assert (bool_decide (semicolon ∈ u "web") = false) as Hn%bool_decide_eq_false by (vm_compute; reflexivity). done.
  - apply Nat.leb_le. vm_compute. reflexivity.
  - exists p. split; [|exact Es]. vm_compute in E |- *. exact E.
Defined.

(** With a second path, which is the one a browser takes, the cookie is sent to
    every service. *)
Lemma second_path_escapes : cookie_path (rewrite_cookie_path "sid=abc; Path=/a; Path=/" "web") = Some (u "/").
Proof. vm_compute. reflexivity. Qed.
(** A path of another service whose name begins with this one's is left as it is. *)
Lemma longer_name_escapes : cookie_path (rewrite_cookie_path "sid=abc; Path=/service/web2/" "web") = Some (u "/service/web2/").
Proof. vm_compute. reflexivity. Qed.
(** A head tag that is never closed makes the injection raise. *)
Lemma unclosed_head_raises : ∃ e, rewrite_proxied_html (u "<head data-x") "web" = Raise e.
Proof. eexists. vm_compute. reflexivity. Qed.
End ProxyDemo.
