(* ===== verification/ServiceDispatcher.v ===== *)
(** * The service dispatcher

    [service_dispatcher.py]: requests under [/service/<name>/] are answered with
    a generated page or forwarded to the service; the answer's headers and HTML
    are rewritten by [Proxy].  [httpx] is a parameter: what it answers to a
    request; so are the sockets of the WebSocket bridge.  Every request that is
    forwarded is logged. *)

From Stdlib Require Import NArith ZArith Lia.
From S2P Require Import Prelude PyStr PyJson PyMonad PyBytes PyRegex PyUrl Proxy.
From stdpp Require Import options.
#[global] Open Scope nat_scope.
#[local] Open Scope py_scope.

(** ** Requests and answers *)
Definition header_list : Type := list (pystr * pystr).
(** Header names are compared without case; several values are joined. *)
Definition header_values (k : pystr) (hs : header_list) : list pystr :=
  omap (λ kv, if lower_ascii kv.1 =? k then Some kv.2 else None) hs.
Definition header_get (k dflt : pystr) (hs : header_list) : pystr :=
  match header_values k hs with [] => dflt | l => join (u ", ") l end.

Record request := { method : pystr; query_string : bytes; headers : header_list; cookies : list (pystr * pystr); body : bytes }.
(** A request to the service. *)
Record outgoing := { out_method : pystr; out_url : pystr; out_headers : header_list; out_content : bytes }.

Inductive failure := ConnectError | ReadError | RemoteProtocolError | TimeoutException | Unexpected (e : exn).
(** The body as it comes in: the chunks, and what ended it early. *)
Record backend_response := {
  status_code : Z; multi_items : header_list; text : pystr; chunks : list bytes; broken : option failure }.
Definition content (r : backend_response) : bytes := concat (chunks r).
Inductive answer := Answered (r : backend_response) | Failed (f : failure).

Inductive payload := PText (s : pystr) | PBytes (b : bytes) | PStream (l : list bytes).
(** [content_type]: as it is given to the framework, before a charset is added;
    [None] is the framework's default. *)
Record response := { status : Z; content_type : option pystr; added : header_list; payload_of : payload }.
Definition plain (message : pystr) (code : Z) : response :=
  {| status := code; content_type := None; added := []; payload_of := PText message |}.
Definition page (mimetype text : pystr) : response :=
  {| status := 200; content_type := Some mimetype; added := []; payload_of := PText text |}.

(** The constructor of [ServiceName]: stripped, and not empty. *)
Definition ServiceName (value : pystr) : outcome pystr :=
  if strip value =? [] then Raise (ValueError (u "ServiceName cannot be empty")) else Ret (strip value).

Section dispatcher.
Context `{UnicodeDB} `{NetlocCheck}.
(** The registered services with their URLs ([AgentManager.get_service_url],
    [list_service_names]), and what [httpx] answers. *)
Context (services : list (pystr * pystr)) (http_client : outgoing → answer).
Abbreviation D := (M (list outgoing)).
Definition send (o : outgoing) : D answer := λ log, (Ret (http_client o), log ++ [o]).

Definition _sw_cookie_name (service_name : pystr) : pystr := u "sw_installed_" ++ service_name.
Definition list_service_names : list pystr := sort_by str_leb (map fst services).
Definition _make_loading_html (current_service : pystr) : outcome pystr :=
  others ← mapO ServiceName (List.filter (λ n, n <>? current_service) list_service_names);
  Ret (generate_backend_loading_html (Some current_service) others).

Definition proxy_url (backend_url path : pystr) (query_string : bytes) : outcome pystr :=
  let url := rstrip_char 47 backend_url ++ u "/" ++ path in
  if query_string =? [] then Ret url else q ← decode_strict query_string; Ret (url ++ u "?" ++ q).
Definition outgoing_request (r : request) (url : pystr) : outgoing :=
  {| out_method := method r; out_url := url;
     out_headers := List.filter (λ kv, negb ((kv.1 =? u "Host") || (kv.1 =? u "host"))) (headers r);
     out_content := body r |}.

(** [inl] is the service's answer, [inr] an error response. *)
Definition _forward_http_request (backend_url path : pystr) (r : request) : D (backend_response + response) :=
  url ← lift (proxy_url backend_url path (query_string r));
  a ← send (outgoing_request r url);
  match a with
  | Answered b => mret (inl b)
  | Failed ConnectError => mret (inr (plain "Backend connection refused" 502))
  | Failed ReadError => mret (inr (plain "Backend connection lost" 502))
  | Failed RemoteProtocolError => mret (inr (plain "Backend disconnected without response" 502))
  | Failed TimeoutException => mret (inr (plain "Backend request timed out" 504))
  | Failed (Unexpected e) => raise e
  end.

(** The chunks until the body ends or breaks; the response is closed in any case. *)
Definition _iter_backend_stream (b : backend_response) : list bytes := chunks b.
Definition failure_exn (f : failure) : exn :=
  match f with
  | ConnectError => OtherError (u "ConnectError") [] | ReadError => OtherError (u "ReadError") []
  | RemoteProtocolError => OtherError (u "RemoteProtocolError") [] | TimeoutException => OtherError (u "TimeoutException") []
  | Unexpected e => e
  end.
Definition streaming_headers : header_list :=
  [(u "Cache-Control", u "no-cache"); (u "Connection", u "keep-alive"); (u "X-Accel-Buffering", u "no")].
Definition _forward_http_request_streaming (backend_url path : pystr) (r : request) : D response :=
  url ← lift (proxy_url backend_url path (query_string r));
  a ← send (outgoing_request r url);
  match a with
  | Answered b =>
      mret {| status := status_code b; content_type := Some (header_get "content-type" "text/event-stream" (multi_items b));
              added := streaming_headers; payload_of := PStream (_iter_backend_stream b) |}
  | Failed ConnectError => mret (plain "Backend connection refused" 502)
  | Failed TimeoutException => mret (plain "Backend stream timed out" 504)
  | Failed f => raise (failure_exn f)
  end.

(** ** The service's answer, rewritten *)
Definition _EXCLUDED_RESPONSE_HEADERS : list pystr := map u ["transfer-encoding"; "content-encoding"; "content-length"]%string.
Definition header_pair (service_name : pystr) (kv : pystr * pystr) : option (pystr * pystr) :=
  let k := lower_ascii kv.1 in
  if k ∈? _EXCLUDED_RESPONSE_HEADERS then None
  else if k =? u "set-cookie" then Some (kv.1, rewrite_cookie_path kv.2 service_name)
  else Some kv.
(** [Content-Type] replaces the default, the others are appended. *)
Definition carry (r : response) (kv : pystr * pystr) : response :=
  if lower_ascii kv.1 =? u "content-type" then
    {| status := status r; content_type := Some kv.2; added := added r; payload_of := payload_of r |}
  else {| status := status r; content_type := content_type r; added := added r ++ [kv]; payload_of := payload_of r |}.
Definition _build_proxy_response (b : backend_response) (service_name : pystr) : outcome response :=
  let header_pairs := omap (header_pair service_name) (multi_items b) in
  p ← (if contains "text/html" (header_get "content-type" [] (multi_items b)) then
         html ← rewrite_proxied_html (text b) service_name; bs ← encode_utf8 html; Ret (PBytes bs)
       else Ret (PBytes (content b)));
  Ret (foldl carry {| status := status_code b; content_type := None; added := []; payload_of := p |} header_pairs).

Definition _handle_service_sw_js (service_name : pystr) : outcome response :=
  name ← ServiceName service_name; Ret (page "application/javascript" (generate_service_worker_js name)).

Definition accepts (what : pystr) (r : request) : bool := contains what (header_get "accept" [] (headers r)).
Definition loading (parsed_service : pystr) : outcome response :=
  html ← _make_loading_html parsed_service; Ret (page "text/html" html).
Definition _handle_service_http (service_name path : pystr) (r : request) : D response :=
  parsed_service ← lift (ServiceName service_name);
  if path =? u "__sw.js" then lift (_handle_service_sw_js service_name)
  else match dget service_name services with
  | None =>
      if accepts "text/html" r then lift (loading parsed_service)
      else mret (plain (u "Service '" ++ service_name ++ u "' not registered") 502)
  | Some backend_url =>
      let sw_cookie := match dget (_sw_cookie_name service_name) (cookies r) with Some (_ :: _) => true | _ => false end in
      if (header_get "sec-fetch-mode" [] (headers r) =? u "navigate") && negb sw_cookie then
        mret (page "text/html" (generate_bootstrap_html parsed_service))
      else if accepts "text/event-stream" r then _forward_http_request_streaming backend_url path r
      else
        result ← _forward_http_request backend_url path r;
        match result with
        | inr e => if (500 <=? status e)%Z && accepts "text/html" r then lift (loading parsed_service) else mret e
        | inl b => lift (_build_proxy_response b parsed_service)
        end
  end.

(** ** WebSockets *)

(** [urlsplit]: scheme, network location, path, query and fragment. *)
Record split_result := { scheme : pystr; netloc : pystr; upath : pystr; query : pystr; fragment : pystr }.
Definition urlsplit (s : pystr) : outcome split_result :=
  let '(scheme, url) := split_scheme (clean_url s) in
  let '(netloc, rest) := if startswith (u "//") url then span_until (u "/?#") (drop 2 url) else ([], url) in
  if negb (Bool.eqb (91%N ∈? netloc) (93%N ∈? netloc)) then Raise (ValueError (u "Invalid IPv6 URL"))
  else
    (if (91%N ∈? netloc) || existsb (λ c, (128 <=? c)%N) netloc then check_netloc netloc else Ret tt);;
    let '(no_fragment, fragment) := cut 35 rest in
    let '(path, query) := cut 63 no_fragment in
    Ret {| scheme := lower_ascii scheme; netloc := netloc; upath := path; query := query; fragment := fragment |}.
(** What stands before and after the first [c]; [None]: there is none. *)
Definition cut_opt (c : N) (s : pystr) : pystr * option pystr :=
  match split_once c s with Some (a, b) => (a, Some b) | None => (s, None) end.
Definition _hostinfo (netloc : pystr) : pystr * option pystr :=
  let hostinfo := rsplit_last 64 netloc in
  match cut_opt 91 hostinfo with
  | (_, Some bracketed) => let '(hostname, rest) := cut 93 bracketed in (hostname, (cut_opt 58 rest).2)
  | (_, None) => cut_opt 58 hostinfo
  end.
Definition hostname (r : split_result) : option pystr :=
  match (_hostinfo (netloc r)).1 with
  | [] => None
  | h => Some (match cut_opt 37 h with (a, Some zone) => lower_ascii a ++ 37%N :: zone | (a, None) => lower_ascii a end)
  end.
Definition port (r : split_result) : outcome (option Z) :=
  match (_hostinfo (netloc r)).2 with
  | None | Some [] => Ret None
  | Some p =>
      if negb (forallb is_digit p) then Raise (ValueError (u "Port could not be cast to integer value"))
      else let n := Z.of_N (digits_to_N p) in
           if (n <=? 65535)%Z then Ret (Some n) else Raise (ValueError (u "Port out of range 0-65535"))
  end.
(** [urlunsplit] with a network location *)
Definition urlunsplit (r : split_result) : pystr :=
  let url := match upath r with [] => [] | c :: _ => if (c =? 47)%N then upath r else 47%N :: upath r end in
  let url := u "//" ++ netloc r ++ url in
  let url := match scheme r with [] => url | s => s ++ u ":" ++ url end in
  let url := match query r with [] => url | q => url ++ u "?" ++ q end in
  match fragment r with [] => url | f => url ++ u "#" ++ f end.

(** An address as [getaddrinfo] gives it: whether it is an IPv6 one. *)
Definition address : Type := bool * pystr.
Section connecting.
(** [simple_websocket.Client] on a URL, and which exceptions are caught; what is
    raised when no address was resolved is the first "last error". *)
Context {client : Type} (open : pystr → outcome client) (is_connection_error : exn → bool).
Definition candidate_url (r : split_result) (port : Z) (a : address) : pystr :=
  let host_for_url := if a.1 then u "[" ++ a.2 ++ u "]" else a.2 in
  urlunsplit {| scheme := scheme r; netloc := host_for_url ++ u ":" ++ str_of_Z port; upath := upath r; query := query r; fragment := fragment r |}.
Fixpoint try_addresses (url_of : address → pystr) (addresses : list address) (last_error : exn) : outcome client :=
  match addresses with
  | [] => Raise last_error
  | a :: addresses' =>
      match open (url_of a) with
      | Ret c => Ret c
      | Raise e => if is_connection_error e then try_addresses url_of addresses' e else Raise e
      end
  end.
Definition _connect_backend_websocket (getaddrinfo : pystr → Z → outcome (list address)) (ws_url : pystr) : outcome client :=
  parsed ← urlsplit ws_url;
  p ← port parsed;
  match hostname parsed, p with
  | Some host, Some port =>
      addresses ← getaddrinfo host port; try_addresses (candidate_url parsed port) addresses
        (OSError (u "no addresses resolved for backend WebSocket " ++ host ++ u ":" ++ str_of_Z port))
  | _, _ => Raise (ValueError (u "backend WebSocket URL is missing host or port: " ++ ws_url))
  end.

(** [s.replace(old, new)] *)
Fixpoint replace_all (fuel : nat) (old new s : pystr) : pystr :=
  match fuel, s with
  | S f, c :: s' => if startswith old s then new ++ replace_all f old new (drop (length old) s) else c :: replace_all f old new s'
  | _, _ => s
  end.
Definition str_replace (old new s : pystr) : pystr := replace_all (length s) old new s.
Definition websocket_url (backend_url path : pystr) (query_string : bytes) : outcome pystr :=
  proxy_url (str_replace "https://" "wss://" (str_replace "http://" "ws://" backend_url)) path query_string.
Definition requested_subprotocols (hs : header_list) : list pystr :=
  match header_get "sec-websocket-protocol" [] hs with [] => [] | h => map strip (split_char 44 h) end.

(** What becomes of a WebSocket: closed with a code, or bridged to the service. *)
Inductive bridged := Closed (code : Z) (reason : pystr) | Bridge (backend_ws : client).
Definition _handle_service_websocket (services : list (pystr * pystr)) (getaddrinfo : pystr → Z → outcome (list address))
    (service_name path : pystr) (r : request) : outcome bridged :=
  match dget service_name services with
  | None => Ret (Closed 4004 (u "Unknown service: " ++ service_name))
  | Some backend_url =>
      ws_url ← websocket_url backend_url path (query_string r);
      match _connect_backend_websocket getaddrinfo ws_url with
      | Ret ws => Ret (Bridge ws)
      | Raise e => if is_connection_error e then Ret (Closed 1011 (u "Backend connection failed")) else Raise e
      end
  end.
End connecting.

(** One turn of a direction of the bridge: whether the other direction has set
    the flag, what was received, and whether the other side was still open. *)
Inductive received := TimedOut | Message (data : payload) | Gone.
Record turn := { stopped : bool; got : received; sent_ok : bool }.
(** The messages that were passed on, until the direction ends; then it sets the
    flag and closes the other side. *)
Fixpoint forward (turns : list turn) : list payload :=
  match turns with
  | [] => []
  | t :: turns' =>
      if stopped t then []
      else match got t with
           | TimedOut => forward turns'
           | Message d => if sent_ok t then d :: forward turns' else []
           | Gone => []
           end
  end.
End dispatcher.

(** ** What reaches the service and the browser *)
Section facts.
Context `{UnicodeDB} `{NetlocCheck} (services : list (pystr * pystr)) (http_client : outgoing → answer).

(** The page for a service that is not there, and what a failure is answered. *)
Definition failure_status (f : failure) : Z := match f with TimeoutException => 504 | _ => 502 end.
Definition failure_text (f : failure) : pystr :=
  match f with
  | ConnectError => u "Backend connection refused" | ReadError => u "Backend connection lost"
  | RemoteProtocolError => u "Backend disconnected without response" | TimeoutException => u "Backend request timed out"
  | Unexpected _ => []
  end.
(** The request is answered by the interface itself. *)
Definition answered_here (name path : pystr) (r : request) : bool :=
  (path =? u "__sw.js") || bool_decide (dget name services = None)
  || ((header_get "sec-fetch-mode" [] (headers r) =? u "navigate")
      && match dget (_sw_cookie_name name) (cookies r) with Some (_ :: _) => false | _ => true end).

(** C12: what a request comes to, when the service's name is a valid one and the
    query decodes.  A request the interface answers itself never reaches the
    service: the worker's script, the page that installs it, the page that waits
    for a service.  Any other is sent to the service exactly once, with its
    method, path, query and body, and without its host.  When the request is not
    for an event stream, the service's answer is rewritten, a failure the code
    knows becomes 502 or 504, or the waiting page when a page was asked for, and
    an unknown one is raised.  When it is for an event stream, the answer's body
    is passed on as it comes, with its status, its content type and the three
    headers that keep it from being buffered, and is not rewritten; a refused
    connection is 502, a timeout 504, and every other failure is raised. *)
Theorem request_outcomes name service path r url log :
  ServiceName name = Ret service → proxy_url (default [] (dget name services)) path (query_string r) = Ret url →
  let out := outgoing_request r url in
  let run := _handle_service_http services http_client name path r log in
  if answered_here name path r then
    run.2 = log ∧ run.1 =
      (if path =? u "__sw.js" then Ret (page "application/javascript" (generate_service_worker_js service))
       else if decide (dget name services = None) then
         if accepts "text/html" r then loading services service else Ret (plain (u "Service '" ++ name ++ u "' not registered") 502)
       else Ret (page "text/html" (generate_bootstrap_html service)))
  else
    run.2 = log ++ [out] ∧
    (accepts "text/event-stream" r = false → run.1 =
      match http_client out with
      | Answered b => _build_proxy_response b service
      | Failed (Unexpected e) => Raise e
      | Failed f => if accepts "text/html" r then loading services service else Ret (plain (failure_text f) (failure_status f))
      end)
    ∧ (accepts "text/event-stream" r = true → run.1 =
      match http_client out with
      | Answered b =>
          Ret {| status := status_code b; content_type := Some (header_get "content-type" "text/event-stream" (multi_items b));
                 added := [(u "Cache-Control", u "no-cache"); (u "Connection", u "keep-alive"); (u "X-Accel-Buffering", u "no")];
                 payload_of := PStream (chunks b) |}
      | Failed ConnectError => Ret (plain "Backend connection refused" 502)
      | Failed TimeoutException => Ret (plain "Backend stream timed out" 504)
      | Failed f => Raise (failure_exn f)
      end).
Proof.
  intros Hn Hu out run. unfold run, _handle_service_http, answered_here. unfold lift at 1. unfold mbind at 1, M_bind at 1. rewrite Hn.
  case_bool_decide as Hp; cbn [orb].
  { split; [done|]. unfold lift, _handle_service_sw_js. simpl. by rewrite Hn. }
  destruct (dget name services) as [backend_url|] eqn:Es.
  2: { rewrite bool_decide_eq_true_2 by done. cbn [orb]. rewrite decide_True by done. by destruct (accepts "text/html" r). }
  rewrite bool_decide_eq_false_2 by done. cbn [orb default from_option] in *. rewrite decide_False by done.
  set (sw := dget (_sw_cookie_name name) (cookies r)). set (nav := header_get _ _ _ =? _).
  assert (negb (match sw with Some (_ :: _) => true | _ => false end) = match sw with Some (_ :: _) => false | _ => true end) as ->
    by (by destruct sw as [[|? ?]|]).
  destruct (nav && _); [done|]. clear sw nav.
  destruct (accepts "text/event-stream" r) eqn:Esse.
  - unfold _forward_http_request_streaming, lift, send, mbind, M_bind. change (id backend_url) with backend_url in Hu. rewrite Hu. fold out.
    split; [by destruct (http_client out) as [b|[]]|]. split; [done|]. intros _. by destruct (http_client out) as [b|[]].
  - unfold _forward_http_request, lift, send, mbind, M_bind, mret, M_ret. change (id backend_url) with backend_url in Hu. rewrite Hu. fold out.
    split; [by destruct (http_client out) as [b|[]]; simpl; try destruct (accepts "text/html" r)|]. split; [|done]. intros _.
    destruct (http_client out) as [b|[]]; simpl; try done; by destruct (accepts "text/html" r).
Qed.

Definition is_set_cookie (kv : pystr * pystr) : bool := lower_ascii kv.1 =? u "set-cookie".
Definition is_content_type (kv : pystr * pystr) : bool := lower_ascii kv.1 =? u "content-type".
Lemma carried pairs : ∀ r,
  added (foldl carry r pairs) = added r ++ List.filter (λ kv, negb (is_content_type kv)) pairs
  ∧ status (foldl carry r pairs) = status r ∧ payload_of (foldl carry r pairs) = payload_of r
  ∧ content_type (foldl carry r pairs) = match last (List.filter is_content_type pairs) with Some kv => Some kv.2 | None => content_type r end.
Proof.
  induction pairs as [|kv pairs IH]; intros r; cbn [foldl List.filter last]; [by rewrite app_nil_r|].
  destruct (IH (carry r kv)) as (-> & -> & -> & ->). unfold carry. change (lower_ascii kv.1 =? u "content-type") with (is_content_type kv).
  destruct (is_content_type kv) eqn:Ek; cbn [negb].
  - split_and!; try done. destruct (List.filter is_content_type pairs) as [|kv' l] eqn:E; [done|].
    rewrite last_cons_cons. by destruct (last (kv' :: l)) eqn:El; [|by apply last_None in El].
  - split_and!; try done. cbn [added]. by rewrite <- app_assoc.
Qed.

End facts.

(** ** Reaching the service's socket *)
Section sockets.
Context {client : Type} (open : pystr → outcome client) (is_connection_error : exn → bool).

(** The bridge connects to the first address that accepts: the addresses
    before it are tried in order and their connection errors are passed over; when
    none accepts, the last error is raised. *)
Theorem first_accepting_address url_of addresses last_error :
  (∀ a, a ∈ addresses → ∀ e, open (url_of a) = Raise e → is_connection_error e = true) →
  match List.find (λ a, is_Ret (open (url_of a))) addresses with
  | Some a => try_addresses open is_connection_error url_of addresses last_error = open (url_of a)
      ∧ ∃ before after, addresses = before ++ a :: after ∧ Forall (λ a, is_Ret (open (url_of a)) = false) before
  | None => ∃ e, try_addresses open is_connection_error url_of addresses last_error = Raise e
      ∧ (∀ a, last addresses = Some a → open (url_of a) = Raise e)
  end.
Proof.
  revert last_error. induction addresses as [|a addresses IH]; intros last_error He; cbn [List.find try_addresses].
  - eexists. split; [done|]. done.
  - destruct (open (url_of a)) as [c|e] eqn:Eo; cbn [is_Ret].
    + rewrite Eo. split; [done|]. exists [], addresses. by split; [|constructor].
    + rewrite (He a ltac:(left) e Eo). specialize (IH e ltac:(intros; eapply He; [by right|done])).
      destruct (List.find _ addresses) as [a'|] eqn:Ef.
      * destruct IH as [-> (before & after & -> & Hb)]. split; [done|]. exists (a :: before), after. split; [done|]. constructor; [by rewrite Eo|done].
      * destruct addresses as [|a2 addresses]; [|by destruct IH as (e' & -> & Hl); exists e']. exists e. split; [done|]. intros a' [= <-]. done.
Qed.

(** A direction of the bridge passes on what it received from the start, in
    order, until the other direction ends, or a side is gone. *)
Lemma forwarded_in_order turns :
  forward turns `prefix_of` omap (λ t, match got t with Message d => Some d | _ => None end) turns
  ∧ (Forall (λ t, stopped t = false ∧ got t ≠ Gone ∧ sent_ok t = true) turns →
     forward turns = omap (λ t, match got t with Message d => Some d | _ => None end) turns).
Proof.
  induction turns as [|[stop r ok] turns [IH1 IH2]]; [by split|]. cbn [forward stopped got sent_ok]. split.
  - destruct stop; [apply prefix_nil|]. destruct r as [|d|]; simpl; [done| |apply prefix_nil].
    destruct ok; [|apply prefix_nil]. destruct IH1 as [k Ek]. exists k. cbn. by f_equal.
  - intros [(Hs & Hg & Ho) Ha]%Forall_cons. cbn [stopped got sent_ok] in Hs, Hg, Ho. subst stop ok. destruct r as [|d|]; [| |done]; simpl; by rewrite (IH2 Ha).
Qed.
End sockets.

(** ** Concrete requests *)
Module DispatcherDemo.
Export ProxyDemo.
Instance any_netloc : NetlocCheck := {| check_netloc _ := Ret tt |}.
Definition services : list (pystr * pystr) := [(u "web", u "http://localhost:8000"); (u "api", u "http://localhost:9000/")].
Definition html : backend_response :=
  {| status_code := 200; multi_items := [(u "Content-Type", u "text/html"); (u "Set-Cookie", u "sid=1; Path=/"); (u "Content-Length", u "9")];
     text := u "<p>hi</p>"; chunks := [u "<p>hi</p>"]; broken := None |}.
(** The service [web] answers, [api] breaks off. *)
Definition http_client (o : outgoing) : answer := if startswith "http://localhost:8000" (out_url o) then Answered html else Failed RemoteProtocolError.
Definition get (accept : string) : request :=
  {| method := u "GET"; query_string := u "a=1"; headers := [(u "Host", u "me"); (u "accept", u accept)]; cookies := []; body := [] |}.

Lemma request_outcomes_witness :
  ServiceName (u "web") = Ret (u "web") ∧ proxy_url "http://localhost:8000" "x" (u "a=1") = Ret (u "http://localhost:8000/x?a=1")
  ∧ (_handle_service_http services http_client "web" "x" (get "text/html") []).2
    = [outgoing_request (get "text/html") (u "http://localhost:8000/x?a=1")].
Proof.
  assert (ServiceName (u "web") = Ret (u "web")) as Hn by (vm_compute; reflexivity).
  assert (proxy_url (default [] (dget (u "web") services)) "x" (query_string (get "text/html")) = Ret (u "http://localhost:8000/x?a=1")) as Hu
    by (vm_compute; reflexivity).
  split; [exact Hn|]. split; [exact Hu|].
  pose proof (request_outcomes services http_client _ _ _ (get "text/html") _ [] Hn Hu) as Hr.
  assert (answered_here services (u "web") "x" (get "text/html") = false) as Ha by (vm_compute; reflexivity).
  cbv zeta in Hr. rewrite Ha in Hr. exact (proj1 Hr).
Defined.


(** Only the IPv4 address accepts. *)
Definition connect (url : pystr) : outcome pystr :=
  if startswith "ws://127.0.0.1" url then Ret url else Raise (OSError (u "Connection refused")).
Definition is_os_error (e : exn) : bool := match e with OSError _ => true | _ => false end.
Definition localhost : list address := [(true, u "::1"); (false, u "127.0.0.1")].
Definition local (a : address) : pystr := u "ws://" ++ (if a.1 then u "[" ++ a.2 ++ u "]" else a.2) ++ u ":8000/ws".
Lemma first_accepting_address_witness :
  (∀ a, a ∈ localhost → ∀ e, connect (local a) = Raise e → is_os_error e = true)
  ∧ try_addresses connect is_os_error local localhost (OSError []) = Ret (u "ws://127.0.0.1:8000/ws").
Proof.
  assert (∀ a, a ∈ localhost → ∀ e, connect (local a) = Raise e → is_os_error e = true) as He.
  { intros a _ e. unfold connect. destruct (startswith _ _); [discriminate|]. intros [= <-]. reflexivity. }
  split; [exact He|]. pose proof (first_accepting_address connect is_os_error local localhost (OSError []) He) as H.
  vm_compute in H |- *. exact (proj1 H).
Defined.
Lemma localhost_falls_back :
  _connect_backend_websocket connect is_os_error (λ _ _, Ret localhost) "ws://localhost:8000/ws" = Ret (u "ws://127.0.0.1:8000/ws").
Proof. vm_compute. reflexivity. Qed.

(** A service that breaks off before it answers: 502, but an exception for an
    event stream. *)
Lemma stream_failure_raises :
  (_handle_service_http services http_client "api" "x" (get "*/*") []).1 = Ret (plain "Backend disconnected without response" 502)
  ∧ ∃ e, (_handle_service_http services http_client "api" "x" (get "text/event-stream") []).1 = Raise e.
Proof. split; [|eexists]; vm_compute; reflexivity. Qed.

(** A service registered without a port is served over HTTP, and its WebSockets
    end in an exception that is not caught. *)
Lemma portless_websocket_raises :
  ∃ m, _handle_service_websocket connect is_os_error [(u "web", u "http://web.internal")] (λ _ _, Ret localhost) "web" "ws" (get "*/*")
    = Raise (ValueError m).
Proof. eexists. vm_compute. reflexivity. Qed.
End DispatcherDemo.
