(* ===== verification/LayoutCli.v ===== *)
(** * The layout command line client

    [scripts/layout.py]: the refs an agent types, the requests it posts to the
    layout endpoint, the polling of [inspect] until an operation is visible, the
    neighbours of a panel, and one handler per subcommand.  The HTTP transport,
    the clock, the environment and the YAML and TOML libraries are the
    [Platform].  A node of the layout tree is identified by its position, as
    the script identifies it by [id]. *)

From Stdlib Require Import NArith ZArith QArith Lqa Lia.
From S2P Require Import Prelude PyStr PyJson PyDumps PyMonad PyKeyed PyBytes PyPath.
From stdpp Require Import options.
#[global] Open Scope nat_scope.
#[local] Open Scope py_scope.

(** A response, an [HTTPError], a [URLError], or another exception. *)
Inductive http_result :=
  | HttpResponse (status : Z) (raw : bytes)
  | HttpError (code : Z) (raw : bytes)
  | UrlError (reason : pystr)
  | HttpRaises (e : exn).

Class Platform (W : Type) := {
  urlopen : pystr → bytes → list (pystr * pystr) → W → http_result * W;
  monotonic : W → Q;
  sleep : Q → W → W;
  getenv : pystr → option pystr;
  (** [None] when the file does not exist *)
  file_bytes : path → W → option bytes;
  tomlkit_load : bytes → outcome dict;
  yaml_dump : json → pystr }.

(** The world, what was printed, and the requests sent so far. *)
Record cli (W : Type) := Cli { world : W; stdout : pystr; stderr : pystr; sent : list (pystr * dict) }.
Arguments Cli {W}. Arguments world {W}. Arguments stdout {W}. Arguments stderr {W}. Arguments sent {W}.

(** ** Refs *)

Definition _REF_PREFIXES : list pystr :=
  map u ["service:"; "chat-terminal:"; "chat:"; "terminal:"; "url:"; "subagent:"]%string.
Definition _WITHIN_DIRECTION : pystr := u "within".
Definition _CARDINAL_DIRECTIONS : list pystr := map u ["left"; "right"; "above"; "below"]%string.
Definition _WAIT_STABLE_CAP_SECONDS : Q := 5.
Definition _WAIT_STABLE_POLL_SECONDS : Q := 1 # 4.
Definition _REGISTRATION_TIMEOUT_SECONDS : Q := 5.
Definition _REGISTRATION_POLL_INTERVAL_SECONDS : Q := 1 # 4.
Definition EXIT_OK : Z := 0.
Definition EXIT_ERROR : Z := 1.
Definition EXIT_CONFLICT : Z := 3.
Definition _SELF_REF : pystr := u "self".

(** [s.removeprefix(p)] *)
Definition removeprefix (p s : pystr) : pystr := if startswith p s then drop (length p) s else s.

Definition _normalize_ref (value : pystr) : pystr :=
  if value =? _SELF_REF then value
  else if startswith (u "https://") value then value
  else if startswith (u "url:https://") value then removeprefix (u "url:") value
  else if existsb (λ p, startswith p value) _REF_PREFIXES then value
  else u "service:" ++ value.

Definition ref_problem (ref : pystr) : bool :=
  if ref =? _SELF_REF then false
  else if startswith (u "https://") ref then false
  else if negb (existsb (λ p, startswith p ref) _REF_PREFIXES) then true
  else (partition_char 58 ref).2 =? [].

Definition _resolve_replace_url (url : pystr) : pystr :=
  if negb (startswith (u "service:") url) then url
  else
    let remainder := removeprefix (u "service:") url in
    match find [47%N] remainder with
    | None => u "/service/" ++ remainder ++ u "/"
    | Some slash_index => u "/service/" ++ take slash_index remainder ++ u "/" ++ drop (slash_index + 1) remainder
    end.

(** ** Children of a node *)

Section children.
Context {A : Type} (k : pystr) (f : nat → json → outcome A) (stray : json → outcome A).
Fixpoint each_child (i : nat) (l : list json) : outcome (list A) :=
  match l with
  | [] => Ret []
  | c :: l' => a ← f i c; rest ← each_child (S i) l'; Ret (a :: rest)
  end.
(** [for child in node.get(k, []) or []]; [stray] is the step for the elements
    of an iterable that is not a list, which have no children. *)
Fixpoint for_children (node : dict) : outcome (list A) :=
  match node with
  | [] => Ret []
  | (k', v) :: node' =>
      if k =? k' then
        match v with
        | JList l => each_child 0 l
        | v => if truthy v then items ← iter_json v; mapO stray items else Ret []
        end
      else for_children node'
  end.
End children.

(** ** Reading the layout tree *)

Abbreviation position := (list nat).

Fixpoint _walk_tree_leaves (pos : position) (node : json) {struct node} : outcome (list (position * dict)) :=
  match node with
  | JObj d =>
      if jeqs (jget "type" d) "leaf" then Ret [(pos, d)]
      else if jeqs (jget "type" d) "branch" then
        leaves ← for_children "children" (λ i child, _walk_tree_leaves (pos ++ [i]) child) (λ _, Ret []) d;
        Ret (concat leaves)
      else Ret []
  | _ => Ret []
  end.

(** [x.get(key, []) or []], iterated *)
Definition items_of (key : pystr) (d : dict) : outcome (list json) :=
  iter_json (jor (jget_or key (JList []) d) (JList [])).

(** The first panel with [panel.get("ref") == ref]. *)
Fixpoint first_panel (ref : pystr) (panels : list json) : outcome (option dict) :=
  match panels with
  | [] => Ret None
  | p :: ps => d ← need_dict p;
               if jeqs (jget "ref" d) ref then Ret (Some d) else first_panel ref ps
  end.

Fixpoint first_leaf (ref : pystr) (leaves : list (position * dict)) : outcome (option (position * dict)) :=
  match leaves with
  | [] => Ret None
  | leaf :: leaves' =>
      panels ← items_of "panels" leaf.2;
      found ← first_panel ref panels;
      match found with Some _ => Ret (Some leaf) | None => first_leaf ref leaves' end
  end.

Definition _find_leaf_for_ref (layout : dict) (ref : pystr) : outcome (option (position * dict)) :=
  leaves ← _walk_tree_leaves [] (jget "tree" layout); first_leaf ref leaves.

Definition _find_panel_summary (layout : dict) (ref : pystr) : outcome (option dict) :=
  panels ← items_of "panels" layout; first_panel ref panels.

Definition group_ref (panel : json) : outcome (list pystr) :=
  d ← need_dict panel;
  Ret (match jget "ref" d with
       | JStr ref => [if truthy (jget "active" d) then ref ++ u "*" else ref]
       | _ => []
       end).
Definition _refs_in_group (leaf : dict) : outcome (list pystr) :=
  panels ← items_of "panels" leaf; refs ← mapO group_ref panels; Ret (concat refs).

Definition _describe_group (leaf : option (position * dict)) : outcome pystr :=
  match leaf with
  | None => Ret (u "<absent>")
  | Some leaf => refs ← _refs_in_group leaf.2; Ret (u "tabs=[" ++ join (u ", ") refs ++ u "]")
  end.

(** ** Predicates on layouts *)

(** [_UNOBSERVABLE] is recognised by identity. *)
Inductive Predicate := Unobservable | Observable (check : dict → outcome bool).
Definition holds (p : Predicate) (layout : dict) : outcome bool :=
  match p with Unobservable => Ret true | Observable check => check layout end.

Definition is_some {A} (o : option A) : bool := match o with Some _ => true | None => false end.

Definition _predicate_ref_present (ref : pystr) : Predicate :=
  Observable (λ layout, p ← _find_panel_summary layout ref; Ret (is_some p)).
Definition _predicate_ref_absent (ref : pystr) : Predicate :=
  Observable (λ layout, p ← _find_panel_summary layout ref; Ret (negb (is_some p))).
Definition _predicate_focus (ref : pystr) : Predicate := Observable (λ layout,
  leaf ← _find_leaf_for_ref layout ref;
  match leaf with
  | None => Ret false
  | Some leaf => panels ← items_of "panels" leaf.2;
                 p ← first_panel ref panels;
                 Ret (match p with Some d => truthy (jget "active" d) | None => false end)
  end).
(** [panel is not None and panel.get(key) == text] *)
Definition panel_field (key ref text : pystr) : Predicate := Observable (λ layout,
  p ← _find_panel_summary layout ref;
  Ret (match p with Some d => jeqs (jget key d) text | None => false end)).
Definition _predicate_title (ref title : pystr) : Predicate := panel_field "title" ref title.
Definition _predicate_url (ref url : pystr) : Predicate := panel_field "url" ref url.

Fixpoint first_iframe (url : pystr) (panels : list json) : outcome (option dict) :=
  match panels with
  | [] => Ret None
  | p :: ps => d ← need_dict p;
               if jeqs (jget "panel_type" d) "iframe" && jeqs (jget "url" d) url then Ret (Some d)
               else first_iframe url ps
  end.
Definition _find_iframe_panel_by_url (layout : dict) (url : pystr) : outcome (option dict) :=
  panels ← items_of "panels" layout; first_iframe url panels.
Definition _predicate_url_panel_present (url : pystr) : Predicate :=
  Observable (λ layout, p ← _find_iframe_panel_by_url layout url; Ret (is_some p)).
Definition _leaf_for_url (layout : dict) (url : pystr) : outcome (option (position * dict)) :=
  p ← _find_iframe_panel_by_url layout url;
  match p with
  | None => Ret None
  | Some d => match jget "ref" d with JStr ref => _find_leaf_for_ref layout ref | _ => Ret None end
  end.

Definition _predicate_share_group (ref anchor_ref : pystr) : Predicate := Observable (λ layout,
  ref_leaf ← _find_leaf_for_ref layout ref;
  anchor_leaf ← _find_leaf_for_ref layout anchor_ref;
  Ret (match ref_leaf, anchor_leaf with
       | Some l, Some a => l.1 =? a.1
       | _, _ => false
       end)).

(** Keys in order, as [json.dumps(..., sort_keys=True)] writes them. *)
Fixpoint sort_keys (v : json) : json :=
  match v with
  | JList l => JList (map sort_keys l)
  | JObj d => JObj (sort_by (λ a b, str_leb a.1 b.1) (map (λ kv, (kv.1, sort_keys kv.2)) d))
  | v => v
  end.

(** ** Neighbours *)

Abbreviation ancestors := (list (position * dict)).

Fixpoint _build_leaf_parents (pos : position) (parent_chain : ancestors) (node : json) {struct node}
    : outcome (list (position * ancestors)) :=
  match node with
  | JObj d =>
      if jeqs (jget "type" d) "leaf" then Ret [(pos, parent_chain)]
      else if jeqs (jget "type" d) "branch" then
        maps ← for_children "children"
                 (λ i child, _build_leaf_parents (pos ++ [i]) (parent_chain ++ [(pos, d)]) child) (λ _, Ret []) d;
        Ret (concat maps)
      else Ret []
  | _ => Ret []
  end.

Definition chain_of (pos : position) (m : list (position * ancestors)) : ancestors :=
  match List.find (λ e, e.1 =? pos) m with Some e => e.2 | None => [] end.

(** The index of the child of [ancestor] that is the node at [current]. *)
Definition child_index (ancestor current : position) (children : list json) : option nat :=
  List.find (λ i, ancestor ++ [i] =? current) (seq 0 (length children)).

(** The loop over the ancestors, innermost first. *)
Fixpoint climb (target_arrangement : pystr) (before : bool) (current : position) (chain : ancestors)
    : outcome (list (position * dict)) :=
  match chain with
  | [] => Ret []
  | (pos, ancestor) :: chain' =>
      if negb (jeqs (jget "arrangement" ancestor) target_arrangement)
      then climb target_arrangement before pos chain'
      else
        children ← items_of "children" ancestor;
        match child_index pos current children with
        | None => Ret []
        | Some idx =>
            if before && (0 <? idx)%nat
            then _walk_tree_leaves (pos ++ [idx - 1]) (nth (idx - 1) children JNull)
            else if negb before && (S idx <? length children)%nat
            then _walk_tree_leaves (pos ++ [S idx]) (nth (S idx) children JNull)
            else climb target_arrangement before pos chain'
        end
  end.

Definition _neighbors_in_direction (layout : dict) (leaf : position * dict) (direction : pystr)
    : outcome (list (position * dict)) :=
  match jget "tree" layout with
  | JNull => Ret []
  | tree =>
      parents_by_leaf ← _build_leaf_parents [] [] tree;
      let chain := chain_of leaf.1 parents_by_leaf in
      let target_arrangement :=
        if (direction =? u "left") || (direction =? u "right") then u "row" else u "column" in
      let before := (direction =? u "left") || (direction =? u "above") in
      climb target_arrangement before leaf.1 (reverse chain)
  end.

(** ** Compact rendering *)

Section render.
Context `{JsonRepr}.

Definition size_str (size : json) : pystr :=
  match size with JNull => [] | _ => u " size=" ++ json_str size end.
Definition pad (indent : nat) : pystr := concat (repeat (u "  ") indent).

Fixpoint _format_tree_compact (indent : nat) (node : json) {struct node} : outcome (list pystr) :=
  match node with
  | JObj d =>
      if jeqs (jget "type" d) "leaf" then
        refs ← _refs_in_group d;
        Ret [pad indent ++ u "[" ++ join (u " ") refs ++ u "]" ++ size_str (jget "size_ratio" d)]
      else if jeqs (jget "type" d) "branch" then
        let arrangement := jget_or "arrangement" (JStr (u "?")) d in
        lines ← for_children "children" (λ _ child, _format_tree_compact (S indent) child) (λ _, Ret []) d;
        Ret ((pad indent ++ json_str arrangement ++ size_str (jget "size_ratio" d)) :: concat lines)
      else Ret []
  | _ => Ret []
  end.
End render.

(** ** Talking to the server *)

Inductive reply := BodyDict (d : dict) | BodyText (t : pystr).

Section client.
Context {W : Type} `{Platform W} `{PyRepr} `{JsonRepr}.
Abbreviation C := (M (cli W)).

Definition repr (s : pystr) : pystr := str_repr s.
Definition set_world (w : W) (s : cli W) : cli W := Cli w (stdout s) (stderr s) (sent s).
Definition out (t : pystr) : C unit := modify (λ s, Cli (world s) (stdout s ++ t) (stderr s) (sent s)).
Definition err (t : pystr) : C unit := modify (λ s, Cli (world s) (stdout s) (stderr s ++ t) (sent s)).
Definition line (t : pystr) : C unit := err (t ++ [nl]).
Definition env (k : pystr) : pystr := default [] (getenv k).
Definition do_sleep (d : Q) : C unit := modify (λ s, set_world (sleep d (world s)) s).

Definition _workspace_base_url : pystr :=
  rstrip_char 47 (default (u "http://127.0.0.1:8000") (getenv "MINDS_WORKSPACE_SERVER_URL")).
Definition _mngr_agent_id : pystr := env "MNGR_AGENT_ID".
Definition no_wait_stable : bool := env "MINDS_LAYOUT_NO_WAIT_STABLE" <>? [].

Definition _maybe_parse_json (text : pystr) : reply :=
  match loads text with Some (JObj d) => BodyDict d | _ => BodyText text end.

Definition request_body (op : pystr) (args : dict) : dict :=
  [(u "op", JStr op); (u "args", JObj args); (u "agent_id", JStr _mngr_agent_id)].

Definition transmit (op : pystr) (args : dict) (body : bytes) : C http_result := λ s,
  let '(r, w) := urlopen (_workspace_base_url ++ u "/api/layout/broadcast") body
                   [(u "Content-Type", u "application/json"); (u "X-Mngr-Agent-Id", _mngr_agent_id)] (world s) in
  (Ret r, Cli w (stdout s) (stderr s) (sent s ++ [(op, args)])).

Definition _post_layout (op : pystr) (args : dict) : C (Z * reply) :=
  body ← lift (encode_utf8 (dumps float_repr ", " ": " (JObj (request_body op args))));
  r ← transmit op args body;
  match r with
  | HttpResponse status raw | HttpError status raw => mret (status, _maybe_parse_json (decode_replace raw))
  | UrlError reason => mret ((-1)%Z, BodyText reason)
  | HttpRaises e => raise e
  end.

Definition _report_failure (op : pystr) (status : Z) (body : reply) : C Z :=
  let http := u "HTTP " ++ str_of_Z status in
  if (status =? -1)%Z then
    line (u "error: could not reach workspace server: "
          ++ match body with BodyText t => t | BodyDict d => json_str (JObj d) end);; mret EXIT_ERROR
  else
    match body with
    | BodyDict d =>
        let detail := json_str (jget_or "detail" (JObj d) d) in
        if (status =? 409)%Z then
          in_flight ← lift (need_dict (or_empty (jget "in_flight" d)));
          let field k := json_str (jget k in_flight) in
          line (u "error: layout op " ++ repr op ++ u " rejected (HTTP 409 conflict): " ++ detail);;
          line (u "  in-flight: agent_id=" ++ field (u "agent_id") ++ u " op=" ++ field (u "operation")
                ++ u " args=" ++ field (u "args") ++ u " started_at=" ++ field (u "started_at"));;
          line (u "  retry_after_ms=" ++ json_str (jget "retry_after_ms" d));;
          mret EXIT_CONFLICT
        else if (status =? 404)%Z then
          line (u "error: layout op " ++ repr op ++ u " target not found (HTTP 404): " ++ detail);; mret EXIT_ERROR
        else if (status =? 400)%Z then
          line (u "error: layout op " ++ repr op ++ u " rejected (HTTP 400): " ++ detail);; mret EXIT_ERROR
        else line (u "error: layout op " ++ repr op ++ u " failed (" ++ http ++ u "): " ++ detail);; mret EXIT_ERROR
    | BodyText t =>
        line (u "error: layout op " ++ repr op ++ u " failed (" ++ http ++ u "): " ++ t);; mret EXIT_ERROR
    end.

Definition allocated (body : reply) : option pystr :=
  match body with BodyDict d => as_str (jget "ref" d) | BodyText _ => None end.
Definition _emit_allocated_ref (body : reply) : C unit :=
  match allocated body with
  | Some ref => when (ref <>? []) (out (ref ++ [nl]))
  | None => mret tt
  end.

Definition _fetch_layout : C (option dict) :=
  r ← _post_layout (u "inspect") [];
  mret (match r with
        | (200%Z, BodyDict d) => as_dict (jget_or "layout" (JObj []) d)
        | _ => None
        end).

Fixpoint missing_refs (layout : dict) (refs : list pystr) : outcome (list pystr) :=
  match refs with
  | [] => Ret []
  | ref :: refs' =>
      if ref =? _SELF_REF then missing_refs layout refs'
      else p ← _find_panel_summary layout ref;
           rest ← missing_refs layout refs';
           Ret (match p with None => ref :: rest | Some _ => rest end)
  end.

Definition _require_open (op : pystr) (refs : list pystr) : C (option Z) :=
  if no_wait_stable then mret None
  else
    layout ← _fetch_layout;
    match layout with
    | None => mret None
    | Some layout =>
        missing ← lift (missing_refs layout refs);
        match missing with
        | [] => mret None
        | _ => line (u "error: " ++ op ++ u ": ref " ++ join (u ", ") (map repr missing)
                     ++ u " is not open in the current layout");;
               mret (Some EXIT_ERROR)
        end
    end.

(** ** Waiting *)

Inductive wait_status := Changed | Timeout | Unknown.

Fixpoint wait_loop (fuel : nat) (op : pystr) (predicate : Predicate) (poll deadline : Q) (last : option dict)
    : C (wait_status * option dict) :=
  match fuel with
  | O => raise OutOfFuel
  | S fuel =>
      layout ← _fetch_layout;
      match layout with
      | None =>
          line (u "warning: inspect failed while waiting for " ++ repr op ++ u " to settle");;
          mret (Unknown, last)
      | Some layout =>
          ok ← lift (holds predicate layout);
          if (ok : bool) then mret (Changed, Some layout)
          else
            t ← gets (λ s, monotonic (world s));
            if negb (Qltb t deadline) then mret (Timeout, Some layout)
            else do_sleep poll;; wait_loop fuel op predicate poll deadline (Some layout)
      end
  end.

(** [cap / poll] sleeps reach the deadline. *)
Definition wait_fuel : nat := 22.
Definition _wait_stable (op : pystr) (predicate : Predicate) : C (wait_status * option dict) :=
  t ← gets (λ s, monotonic (world s));
  wait_loop wait_fuel op predicate _WAIT_STABLE_POLL_SECONDS (t + _WAIT_STABLE_CAP_SECONDS) None.

Definition timeout_message (op : pystr) : pystr :=
  u "error: timeout waiting for " ++ repr op ++ u " to settle after 5s".

(** The end of a mutating operation: what the wait found. *)
Definition settle (op : pystr) (predicate : Predicate) (on_success : dict → outcome pystr) : C Z :=
  r ← _wait_stable op predicate;
  match r with
  | (Changed, Some after) => msg ← lift (on_success after); err msg;; mret EXIT_OK
  | (Timeout, _) => line (timeout_message op);; mret EXIT_ERROR
  | _ => line (u "(broadcast sent; could not read inspect to confirm new state)");; mret EXIT_OK
  end.

(** Post, report a failure, print the allocated ref, go on. *)
Definition post_then (op : pystr) (args : dict) (k : reply → C Z) : C Z :=
  r ← _post_layout op args;
  if negb (r.1 =? 200)%Z then _report_failure op r.1 r.2
  else _emit_allocated_ref r.2;; k r.2.

Definition _run_mutating_op (op : pystr) (args : dict) (predicate : Predicate)
    (on_success : dict → dict → outcome pystr) (on_noop : dict → outcome pystr) (skip_pre_op_noop : bool) : C Z :=
  match predicate with
  | Unobservable =>
      post_then op args (λ _,
        line (u "(broadcast sent; no observable layout-state change to confirm)");; mret EXIT_OK)
  | Observable check =>
      if no_wait_stable then post_then op args (λ _, mret EXIT_OK)
      else
        before ← _fetch_layout;
        already ← match before with
                  | Some layout => if skip_pre_op_noop then mret false else lift (check layout)
                  | None => mret false
                  end;
        if (already : bool) then
          msg ← lift (on_noop (default [] before)); err msg;; mret EXIT_OK
        else post_then op args (λ _, settle op predicate (on_success (default [] before)))
  end.

Definition _run_terminal_creation_op (op : pystr) (args : dict) : C Z :=
  if no_wait_stable then post_then op args (λ _, mret EXIT_OK)
  else post_then op args (λ body,
    match allocated body with
    | None => line (u "(broadcast sent; server did not return an allocated ref)");; mret EXIT_OK
    | Some ref =>
        settle op (_predicate_ref_present ref) (λ after,
          leaf ← _find_leaf_for_ref after ref;
          group ← _describe_group leaf;
          Ret (u "created " ++ ref ++ u " in " ++ group ++ [nl]))
    end).

(** ** Services *)

Definition _applications_file : path :=
  path_of (default (u "runtime/applications.toml") (getenv "MINDS_APPLICATIONS_FILE")).

Definition app_name (app : json) : list pystr :=
  match app with
  | JObj d => match jget "name" d with JStr n => if n =? [] then [] else [n] | _ => [] end
  | _ => []
  end.
Definition _read_application_names (p : path) : C (list pystr) :=
  s ← gets (λ s, s);
  match file_bytes p (world s) with
  | None => mret []
  | Some b => lift (doc ← tomlkit_load b;
                    apps ← iter_json (jget_or "applications" (JList []) doc);
                    Ret (concat (map app_name apps)))
  end.
Definition _is_service_registered (name : pystr) : C bool :=
  names ← _read_application_names _applications_file; mret (name ∈? names).

Fixpoint registration_loop (fuel : nat) (name : pystr) (deadline : Q) : C bool :=
  match fuel with
  | O => raise OutOfFuel
  | S fuel =>
      ok ← _is_service_registered name;
      if (ok : bool) then mret true
      else
        t ← gets (λ s, monotonic (world s));
        if negb (Qltb t deadline) then mret false
        else do_sleep _REGISTRATION_POLL_INTERVAL_SECONDS;; registration_loop fuel name deadline
  end.
Definition _wait_for_registration (name : pystr) (timeout : Q) : C bool :=
  t ← gets (λ s, monotonic (world s));
  registration_loop wait_fuel name (t + timeout).

(** ** Subcommands *)

(** The parsed command line. *)
Inductive namespace :=
  | List (as_json : bool)
  | Inspect (as_json verbose : bool)
  | Where (ref : pystr) (as_json verbose : bool)
  | Open (target : pystr) (new_group : bool)
  | Focus (ref : pystr)
  | Split (target relative_to direction : pystr) (ratio : Q) (new_group : bool)
  | Close (ref : pystr)
  | Move (ref relative_to direction : pystr) (new_group : bool)
  | Rename (ref title : pystr)
  | Maximize (ref : pystr)
  | Restore_
  | ReplaceUrl (ref url : pystr)
  | Refresh (target : pystr).

Definition ref_error (ref : pystr) : pystr :=
  let '(prefix, _, name) := partition_char 58 ref in
  if negb (existsb (λ p, startswith p ref) _REF_PREFIXES)
  then u "error: ref " ++ repr ref ++ u " must start with one of ("
       ++ join (u ", ") (map repr _REF_PREFIXES) ++ u "), be a bare service name, or be an https:// URL"
  else u "error: ref " ++ repr ref ++ u " is missing a name after " ++ repr (prefix ++ u ":").

Definition _validate_ref (ref : pystr) : C unit :=
  if ref_problem ref then line (ref_error ref);; raise (SystemExit EXIT_ERROR) else mret tt.

Definition _validate_replace_url (url : pystr) : C unit :=
  if startswith (u "service:") url || startswith (u "https://") url then mret tt
  else line (u "error: replace-url accepts only ``service:<name>[/<path>]`` shorthand or a full https:// URL (got "
             ++ repr url ++ u ")");;
       raise (SystemExit EXIT_ERROR).

(** [_normalize_ref], then [_validate_ref] *)
Definition ref_arg (value : pystr) : C pystr :=
  let ref := _normalize_ref value in _validate_ref ref;; mret ref.

Definition _emit_structured (data : json) (as_json : bool) : C unit :=
  if as_json then out (dumps_indent 0 data ++ [nl]) else out (yaml_dump data).

Definition _emit_layout_view (layout : dict) (as_json verbose : bool) : C unit :=
  if as_json then out (dumps_indent 0 (JObj layout) ++ [nl])
  else if verbose then out (yaml_dump (JObj layout))
  else
    match jget "active_panel" layout with
    | JNull => mret tt
    | active => out (u "active_panel: " ++ json_str active ++ [nl])
    end;;
    match jget "tree" layout with
    | JNull => out (u "(no layout)" ++ [nl])
    | tree => lines ← lift (_format_tree_compact 0 tree); for_each lines (λ l, out (l ++ [nl]))
    end.

Definition _cmd_list (as_json : bool) : C Z :=
  r ← _post_layout (u "list") [];
  match r with
  | (200%Z, BodyDict d) => _emit_structured (jget_or "entries" (JList []) d) as_json;; mret EXIT_OK
  | (status, body) => _report_failure (u "list") status body
  end.

Definition _cmd_inspect (as_json verbose : bool) : C Z :=
  r ← _post_layout (u "inspect") [];
  match r with
  | (200%Z, BodyDict d) =>
      _emit_layout_view (dict_or_empty (jget_or "layout" (JObj []) d)) as_json verbose;; mret EXIT_OK
  | (status, body) => _report_failure (u "inspect") status body
  end.

Definition neighbor_refs (layout : dict) (leaf : position * dict) (direction : pystr) : outcome (list pystr) :=
  leaves ← _neighbors_in_direction layout leaf direction;
  refs ← mapO (λ n, _refs_in_group n.2) leaves; Ret (concat refs).

Definition strs (l : list pystr) : json := JList (map JStr l).

(** [f"{s:<7}"] *)
Definition ljust7 (s : pystr) : pystr := s ++ repeat 32%N (7 - length s).

Definition where_text (ref : pystr) (summary : dict) (tabs : list pystr) (neighbors : list (pystr * list pystr)) : C unit :=
  out (u "ref:    " ++ ref ++ [nl]);;
  when (truthy (jget "title" summary)) (out (u "title:  " ++ json_str (jget "title" summary) ++ [nl]));;
  out (u "group:  [" ++ join (u " ") tabs ++ u "]" ++ [nl]);;
  for_each neighbors (λ n,
    out (ljust7 n.1 ++ u " " ++ match n.2 with [] => u "-" | l => u "[" ++ join (u " ") l ++ u "]" end ++ [nl])).

Definition _cmd_where (value : pystr) (as_json verbose : bool) : C Z :=
  ref ← ref_arg value;
  if ref =? _SELF_REF then
    line (u "error: 'self' is not directly resolvable from the CLI; pass the explicit "
          ++ u "chat ref (e.g. ``chat:<your-name>``) or use ``inspect`` to see all refs");; mret EXIT_ERROR
  else
    layout ← _fetch_layout;
    match layout with
    | None => line (u "error: inspect failed; could not locate the panel");; mret EXIT_ERROR
    | Some layout =>
        leaf ← lift (_find_leaf_for_ref layout ref);
        match leaf with
        | None => line (u "error: ref " ++ repr ref ++ u " is not currently open");; mret EXIT_ERROR
        | Some leaf =>
            summary ← lift (_find_panel_summary layout ref);
            let summary := default [] summary in
            tabs ← lift (_refs_in_group leaf.2);
            neighbors ← lift (mapO (λ d, r ← neighbor_refs layout leaf d; Ret (d, r)) _CARDINAL_DIRECTIONS);
            let view :=
              [(u "ref", JStr ref); (u "title", jget "title" summary); (u "panel_type", jget "panel_type" summary);
               (u "group", JObj [(u "size_ratio", jget "size_ratio" leaf.2); (u "tabs", strs tabs)]);
               (u "neighbors", JObj (map (λ n, (n.1, strs n.2)) neighbors))]
              ++ (if verbose then [(u "full_layout", JObj layout)] else []) in
            (if as_json then out (dumps_indent 0 (JObj view) ++ [nl])
             else if verbose then out (yaml_dump (JObj view))
             else where_text ref summary tabs neighbors);;
            mret EXIT_OK
        end
    end.

Definition registered_or_error (ref hint : pystr) (k : C Z) : C Z :=
  if startswith (u "service:") ref then
    let service_name := removeprefix (u "service:") ref in
    ok ← _wait_for_registration service_name _REGISTRATION_TIMEOUT_SECONDS;
    if (ok : bool) then k
    else line (u "error: service " ++ repr service_name ++ u " is not registered in "
               ++ path_str _applications_file ++ u " after waiting 5s." ++ hint);; mret EXIT_ERROR
  else k.

(** The messages of [open], [split] and [move] name the group of the panel. *)
Definition in_group (before : pystr) (layout : dict) (find : dict → outcome (option (position * dict))) : outcome pystr :=
  leaf ← find layout; group ← _describe_group leaf; Ret (before ++ group ++ [nl]).
Definition find_ref (ref : pystr) (layout : dict) := _find_leaf_for_ref layout ref.
Definition find_url (url : pystr) (layout : dict) := _leaf_for_url layout url.

(** The end [open] and [split] share: create the panel [ref]. *)
Definition create_panel (op ref : pystr) (payload : dict) (done_url done_ref : pystr) : C Z :=
  let already := u "no change: " ++ ref ++ u " is already open in " in
  if ref =? u "service:terminal" then _run_terminal_creation_op op payload
  else if startswith (u "https://") ref then
    _run_mutating_op op payload (_predicate_url_panel_present ref)
      (λ b a, in_group done_url a (find_url ref)) (λ b, in_group already b (find_url ref)) false
  else
    _run_mutating_op op payload (_predicate_ref_present ref)
      (λ b a, in_group done_ref a (find_ref ref)) (λ b, in_group already b (find_ref ref)) false.

Definition _cmd_open (target : pystr) (new_group : bool) : C Z :=
  ref ← ref_arg target;
  registered_or_error ref (u " Did you forward_port.py / start the service?")
    (create_panel (u "open") ref [(u "ref", JStr ref); (u "new_group", JBool new_group)]
       (u "opened " ++ ref ++ u " (url panel) -- now in ") (u "opened " ++ ref ++ u " in ")).

Definition unless_closed (op : pystr) (refs : list pystr) (k : C Z) : C Z :=
  e ← _require_open op refs; match e with Some code => mret code | None => k end.

Definition _cmd_focus (value : pystr) : C Z :=
  ref ← ref_arg value;
  unless_closed (u "focus") [ref]
    (_run_mutating_op (u "focus") [(u "ref", JStr ref)] (_predicate_focus ref)
       (λ b a, Ret (u "focused " ++ ref ++ [nl]))
       (λ b, Ret (u "no change: " ++ ref ++ u " is already the active tab in its group" ++ [nl])) false).

Definition within_new_group (direction : pystr) (new_group : bool) : bool :=
  (direction =? _WITHIN_DIRECTION) && new_group.

Definition _cmd_split (target relative direction : pystr) (ratio : Q) (new_group : bool) : C Z :=
  if within_new_group direction new_group then
    line (u "error: --new-group is meaningless with --direction=within "
          ++ u "(within tabs into the anchor's own group; a new group would defeat the point)");; mret EXIT_ERROR
  else
    ref ← ref_arg target;
    registered_or_error ref []
      (relative_to ← ref_arg relative;
       unless_closed (u "split") [relative_to]
         (create_panel (u "split") ref
            [(u "ref", JStr ref); (u "relative_to", JStr relative_to); (u "direction", JStr direction);
             (u "ratio", JFloat ratio); (u "new_group", JBool new_group)]
            (u "split: " ++ ref ++ u " (url panel) now in ") (u "split: " ++ ref ++ u " now in "))).

Definition _cmd_close (value : pystr) : C Z :=
  ref ← ref_arg value;
  _run_mutating_op (u "close") [(u "ref", JStr ref)] (_predicate_ref_absent ref)
    (λ b a, Ret (u "closed " ++ ref ++ [nl]))
    (λ b, Ret (u "no change: " ++ ref ++ u " is already closed" ++ [nl])) false.

Definition layout_text (layout : dict) : pystr := dumps float_repr ", " ": " (sort_keys (JObj layout)).
Definition _predicate_any_change (before : dict) : Predicate :=
  Observable (λ layout, Ret (layout_text layout <>? layout_text before)).

(** The predicate of [move], the message when nothing is to be done, and whether
    the predicate is relative to a snapshot. *)
Definition move_predicate (ref relative_to direction : pystr) : C (Predicate * pystr * bool) :=
  if (direction =? _WITHIN_DIRECTION) && (relative_to <>? _SELF_REF)
  then mret (_predicate_share_group ref relative_to,
             u "no change: " ++ ref ++ u " is already in the same group as " ++ relative_to ++ [nl], false)
  else if no_wait_stable then mret (Observable (λ _, Ret false), [], false)
  else
    before_snapshot ← _fetch_layout;
    when (negb (is_some before_snapshot))
      (line (u "warning: inspect failed before move; will not detect a no-op"));;
    mret (_predicate_any_change (default [] before_snapshot), [], true).

(** The end of [move], once both refs are known to be open. *)
Definition run_move (ref relative_to direction : pystr) (new_group : bool) : C Z :=
  move_predicate ref relative_to direction ≫= λ '(predicate, noop, skip_pre_op_noop),
  _run_mutating_op (u "move")
    [(u "ref", JStr ref); (u "relative_to", JStr relative_to); (u "direction", JStr direction);
     (u "new_group", JBool new_group)] predicate
    (λ b a, in_group (u "moved " ++ ref ++ u " into ") a (find_ref ref))
    (λ b, Ret noop) skip_pre_op_noop.

Definition _cmd_move (value relative direction : pystr) (new_group : bool) : C Z :=
  if within_new_group direction new_group then
    line (u "error: --new-group is meaningless with --direction=within "
          ++ u "(within targets the anchor's own group)");; mret EXIT_ERROR
  else
    ref ← ref_arg value;
    relative_to ← ref_arg relative;
    unless_closed (u "move") [ref; relative_to] (run_move ref relative_to direction new_group).

(** [(_find_panel_summary(b, ref) or {}).get(key)], shown by [!r] *)
Definition old_field (key ref : pystr) (b : dict) : outcome pystr :=
  p ← _find_panel_summary b ref;
  Ret (match jget key (default [] p) with JStr s => str_repr s | v => json_repr v end).

Definition _cmd_rename (value title : pystr) : C Z :=
  ref ← ref_arg value;
  unless_closed (u "rename") [ref]
    (_run_mutating_op (u "rename") [(u "ref", JStr ref); (u "title", JStr title)] (_predicate_title ref title)
       (λ b a, old ← old_field "title" ref b; Ret (u "renamed " ++ ref ++ u ": " ++ old ++ u " -> " ++ repr title ++ [nl]))
       (λ b, Ret (u "no change: " ++ ref ++ u " is already titled " ++ repr title ++ [nl])) false).

Definition silent (b a : dict) : outcome pystr := Ret [].

Definition _cmd_maximize (value : pystr) : C Z :=
  ref ← ref_arg value;
  unless_closed (u "maximize") [ref]
    (_run_mutating_op (u "maximize") [(u "ref", JStr ref)] Unobservable silent (λ _, Ret []) false).

Definition _cmd_restore : C Z := _run_mutating_op (u "restore") [] Unobservable silent (λ _, Ret []) false.

Definition _cmd_replace_url (value url : pystr) : C Z :=
  ref ← ref_arg value;
  unless_closed (u "replace-url") [ref]
    (_validate_replace_url url;;
     let expected_url := _resolve_replace_url url in
     _run_mutating_op (u "replace-url") [(u "ref", JStr ref); (u "url", JStr url)] (_predicate_url ref expected_url)
       (λ b a, old ← old_field "url" ref b;
               Ret (u "replace-url " ++ ref ++ u ": " ++ old ++ u " -> " ++ repr expected_url ++ [nl]))
       (λ b, Ret (u "no change: " ++ ref ++ u " is already pointed at " ++ repr expected_url ++ [nl])) false).

Definition _cmd_refresh (target : pystr) : C Z :=
  ref ← ref_arg target;
  let run := _run_mutating_op (u "refresh") [(u "ref", JStr ref)] Unobservable silent (λ _, Ret []) false in
  if startswith (u "service:") ref then run else unless_closed (u "refresh") [ref] run.

Definition main (args : namespace) : C Z :=
  match args with
  | List as_json => _cmd_list as_json
  | Inspect as_json verbose => _cmd_inspect as_json verbose
  | Where ref as_json verbose => _cmd_where ref as_json verbose
  | Open target new_group => _cmd_open target new_group
  | Focus ref => _cmd_focus ref
  | Split target relative_to direction ratio new_group => _cmd_split target relative_to direction ratio new_group
  | Close ref => _cmd_close ref
  | Move ref relative_to direction new_group => _cmd_move ref relative_to direction new_group
  | Rename ref title => _cmd_rename ref title
  | Maximize ref => _cmd_maximize ref
  | Restore_ => _cmd_restore
  | ReplaceUrl ref url => _cmd_replace_url ref url
  | Refresh target => _cmd_refresh target
  end.

(** The exit status of [raise SystemExit(main())]; an uncaught exception is 1. *)
Definition exit_status (r : outcome Z) : Z :=
  match r with Ret code | Raise (SystemExit code) => code | Raise _ => 1 end.
End client.

(** ** Every run ends *)

(** Sleeping takes at least the time asked for, requests take no negative time,
    and the libraries do not run out of the model's fuel. *)
Class PlatformLaws {W} `(P : Platform W) := {
  sleep_advances d w : (monotonic w + d <= monotonic (sleep d w))%Q;
  urlopen_advances url body headers w : (monotonic w <= monotonic (urlopen url body headers w).2)%Q;
  urlopen_exceptions url body headers w : (urlopen url body headers w).1 ≠ HttpRaises OutOfFuel;
  tomlkit_exceptions b : in_bounds (tomlkit_load b) }.

#[local] Ltac ib :=
  repeat lazymatch goal with
  | |- in_bounds (mbind _ _) => apply in_bounds_bind; [ | intros ?]
  | |- in_bounds (Ret _) => apply in_bounds_ret
  | |- in_bounds (Raise _) => by intros [=]
  | |- in_bounds (mapO _ _) => apply in_bounds_mapO; intros ?
  | |- in_bounds (match _ with _ => _ end) => case_match
  | |- in_bounds _ => auto with py; fail
  end.

Section children_facts.
Context {A : Type} (k : pystr) (f : nat → json → outcome A) (stray : json → outcome A).

Lemma in_bounds_each i l : (∀ j c, c ∈ l → in_bounds (f j c)) → in_bounds (each_child f i l).
Proof.
  clear stray. revert i. induction l as [|c l IH]; intros i Hf; [done|]. cbn [each_child].
  apply in_bounds_bind; [apply Hf; set_solver|]. intros a.
  apply in_bounds_bind; [apply IH; set_solver|]. done.
Qed.

Lemma for_children_eq d :
  for_children k f stray d =
    match dget k d with
    | None => Ret []
    | Some (JList l) => each_child f 0 l
    | Some v => if truthy v then items ← iter_json v; mapO stray items else Ret []
    end.
Proof.
  induction d as [|[k' v] d IH]; [done|]. cbn [for_children dget]. by destruct (bool_decide _).
Qed.

Lemma in_bounds_children d :
  (∀ l j c, dget k d = Some (JList l) → c ∈ l → in_bounds (f j c)) → (∀ v, in_bounds (stray v)) →
  in_bounds (for_children k f stray d).
Proof.
  intros Hf Hs. rewrite for_children_eq. destruct (dget k d) as [v|]; [|done].
  assert (in_bounds (if truthy v then items ← iter_json v; mapO stray items else Ret [])) as Hv by ib.
  destruct v; try exact Hv. apply in_bounds_each. eauto.
Qed.
End children_facts.

Lemma in_bounds_walk pos node : in_bounds (_walk_tree_leaves pos node).
Proof.
  revert pos. induction node as [v IH] using json_children_ind. intros pos.
  destruct v as [| | | | | | |d]; try done. cbn [_walk_tree_leaves].
  repeat case_match; try done. ib. apply in_bounds_children; [|done]. eauto.
Qed.
Lemma in_bounds_parents pos chain node : in_bounds (_build_leaf_parents pos chain node).
Proof.
  revert pos chain. induction node as [v IH] using json_children_ind. intros pos chain.
  destruct v as [| | | | | | |d]; try done. cbn [_build_leaf_parents].
  repeat case_match; try done. ib. apply in_bounds_children; [|done]. eauto.
Qed.
#[local] Hint Resolve in_bounds_walk in_bounds_parents : py.

Lemma in_bounds_items k d : in_bounds (items_of k d).
Proof. unfold items_of. auto with py. Qed.
#[local] Hint Resolve in_bounds_items : py.
Lemma in_bounds_first_panel ref l : in_bounds (first_panel ref l).
Proof. induction l as [|p l IH]; [done|]. cbn [first_panel]. ib. Qed.
Lemma in_bounds_first_iframe url l : in_bounds (first_iframe url l).
Proof. induction l as [|p l IH]; [done|]. cbn [first_iframe]. ib. Qed.
#[local] Hint Resolve in_bounds_first_panel in_bounds_first_iframe : py.
Lemma in_bounds_first_leaf ref l : in_bounds (first_leaf ref l).
Proof. induction l as [|p l IH]; [done|]. cbn [first_leaf]. ib. Qed.
#[local] Hint Resolve in_bounds_first_leaf : py.
Lemma in_bounds_find_leaf layout ref : in_bounds (_find_leaf_for_ref layout ref).
Proof. unfold _find_leaf_for_ref. ib. Qed.
Lemma in_bounds_find_panel layout ref : in_bounds (_find_panel_summary layout ref).
Proof. unfold _find_panel_summary. ib. Qed.
#[local] Hint Resolve in_bounds_find_leaf in_bounds_find_panel : py.
Lemma in_bounds_group_ref p : in_bounds (group_ref p).
Proof. unfold group_ref. ib. Qed.
#[local] Hint Resolve in_bounds_group_ref : py.
Lemma in_bounds_refs leaf : in_bounds (_refs_in_group leaf).
Proof. unfold _refs_in_group. ib. Qed.
#[local] Hint Resolve in_bounds_refs : py.
Lemma in_bounds_describe leaf : in_bounds (_describe_group leaf).
Proof. unfold _describe_group. ib. Qed.
Lemma in_bounds_iframe layout url : in_bounds (_find_iframe_panel_by_url layout url).
Proof. unfold _find_iframe_panel_by_url. ib. Qed.
#[local] Hint Resolve in_bounds_describe in_bounds_iframe : py.
Lemma in_bounds_leaf_url layout url : in_bounds (_leaf_for_url layout url).
Proof. unfold _leaf_for_url. ib. Qed.
#[local] Hint Resolve in_bounds_leaf_url : py.
Lemma in_bounds_climb t b cur chain : in_bounds (climb t b cur chain).
Proof.
  revert cur. induction chain as [|[pos a] chain IH]; intros cur; [done|]. cbn [climb]. ib.
Qed.
#[local] Hint Resolve in_bounds_climb : py.
Lemma in_bounds_neighbors layout leaf d : in_bounds (_neighbors_in_direction layout leaf d).
Proof. unfold _neighbors_in_direction. case_match; cbv zeta; ib. Qed.
#[local] Hint Resolve in_bounds_neighbors : py.
Lemma in_bounds_neighbor_refs layout leaf d : in_bounds (neighbor_refs layout leaf d).
Proof. unfold neighbor_refs. ib. Qed.
Lemma in_bounds_missing layout refs : in_bounds (missing_refs layout refs).
Proof. induction refs as [|r refs IH]; [done|]. cbn [missing_refs]. ib. Qed.
Lemma in_bounds_in_group t a find : (∀ l, in_bounds (find l)) → in_bounds (in_group t a find).
Proof. intros Hf. unfold in_group. ib. Qed.
#[local] Hint Resolve in_bounds_neighbor_refs in_bounds_missing : py.
Lemma in_bounds_format `{JsonRepr} n node : in_bounds (_format_tree_compact n node).
Proof.
  revert n. induction node as [v IH] using json_children_ind. intros n.
  destruct v as [| | | | | | |d]; try done. cbn [_format_tree_compact].
  repeat case_match; try done; ib. apply in_bounds_children; [|done]. eauto.
Qed.
Lemma in_bounds_old_field `{PyRepr} `{JsonRepr} k ref b : in_bounds (old_field k ref b).
Proof. unfold old_field. ib. Qed.
Lemma in_bounds_encode s : in_bounds (encode_utf8 s).
Proof. unfold encode_utf8. apply in_bounds_bind; [|done]. apply in_bounds_mapO. intros c. unfold encode_char. ib. Qed.
#[local] Hint Resolve in_bounds_format in_bounds_old_field in_bounds_encode : py.

Definition check_in_bounds (p : Predicate) : Prop :=
  match p with Unobservable => True | Observable check => ∀ layout, in_bounds (check layout) end.

Lemma predicates_in_bounds ref text :
  check_in_bounds (_predicate_ref_present ref) ∧ check_in_bounds (_predicate_ref_absent ref) ∧
  check_in_bounds (_predicate_focus ref) ∧ (∀ k, check_in_bounds (panel_field k ref text)) ∧
  check_in_bounds (_predicate_url_panel_present ref) ∧ check_in_bounds (_predicate_share_group ref text).
Proof. split_and!; intros; simpl; intros; ib. Qed.

Section halting.
Context {W : Type} `{Platform W} `{!PlatformLaws _} `{PyRepr} `{JsonRepr}.
Abbreviation C := (M (cli W)).

#[local] Ltac halts_with known :=
  repeat lazymatch goal with
  | |- halts (mbind _ _) => apply halts_bind; [ | intros ?]
  | |- halts (mret _) => apply halts_ret
  | |- halts (raise _) => apply halts_raise; done
  | |- halts (gets _) => apply halts_gets
  | |- halts (modify _) => apply halts_modify
  | |- halts (when _ _) => apply halts_when
  | |- halts (for_each _ _) => apply halts_for; intros ?
  | |- halts (lift _) => apply halts_lift; ib
  | |- halts (match _ with _ => _ end) => case_match
  | |- halts _ => known
  end.

Lemma halts_out t : halts (out t : C unit).
Proof. apply halts_modify. Qed.
Lemma halts_line t : halts (line t : C unit).
Proof. apply halts_modify. Qed.
Lemma halts_err t : halts (err t : C unit).
Proof. apply halts_modify. Qed.

Lemma halts_transmit op args body : halts (transmit op args body).
Proof. intros s. unfold transmit. by destruct (urlopen _ _ _ _). Qed.

Lemma halts_post op args : halts (_post_layout op args).
Proof using PlatformLaws0.
  intros s. unfold _post_layout. unfold mbind, M_bind, lift.
  destruct (encode_utf8 _) as [b|e] eqn:Ee; [|intros [= ->]; by eapply in_bounds_encode].
  unfold transmit. destruct (urlopen _ _ _ _) as [r w] eqn:Er.
  destruct r; try done. cbn. intros [= ->]. pose proof (urlopen_exceptions
    (_workspace_base_url ++ u "/api/layout/broadcast") b
    [(u "Content-Type", u "application/json"); (u "X-Mngr-Agent-Id", _mngr_agent_id)] (world s)) as Hx.
  by rewrite Er in Hx.
Qed.

Lemma halts_report op status body : halts (_report_failure op status body : C Z).
Proof. unfold _report_failure. cbv zeta. halts_with ltac:(apply halts_line). Qed.
Lemma halts_fetch : halts _fetch_layout.
Proof using PlatformLaws0. unfold _fetch_layout. halts_with ltac:(apply halts_post). Qed.
Lemma halts_require op refs : halts (_require_open op refs).
Proof using PlatformLaws0.
  unfold _require_open. halts_with ltac:(first [apply halts_fetch | apply halts_line]).
Qed.
Lemma halts_emit_ref body : halts (_emit_allocated_ref body : C unit).
Proof. unfold _emit_allocated_ref. halts_with ltac:(apply halts_out). Qed.

(** Time does not go back. *)
Definition later (s s' : cli W) : Prop := (monotonic (world s) <= monotonic (world s'))%Q.
#[local] Instance later_pre : PreOrder later.
Proof. split; [intros s; unfold later; lra | intros a b c; unfold later; lra]. Qed.

Lemma later_transmit op args body : stepwise later (transmit op args body).
Proof using PlatformLaws0.
  intros s. unfold transmit. destruct (urlopen _ _ _ _) as [r w] eqn:Er. cbn.
  pose proof (urlopen_advances (_workspace_base_url ++ u "/api/layout/broadcast") body
    [(u "Content-Type", u "application/json"); (u "X-Mngr-Agent-Id", _mngr_agent_id)] (world s)) as Ha.
  by rewrite Er in Ha.
Qed.
Lemma later_fetch : stepwise later _fetch_layout.
Proof using PlatformLaws0.
  unfold _fetch_layout, _post_layout. repeat (apply stepwise_bind; [apply _| |intros ?]).
  - apply stepwise_lift, _.
  - apply later_transmit.
  - case_match; first [apply stepwise_ret, _ | apply stepwise_raise, _].
  - apply stepwise_ret, _.
Qed.

(** The polling loop, given enough fuel for the sleeps that fit before the
    deadline, ends by its own conditions. *)
Lemma wait_loop_halts fuel op p poll deadline last s :
  check_in_bounds p →
  (deadline <= monotonic (world s) + inject_Z (Z.of_nat fuel) * poll)%Q → (0 <= poll)%Q →
  (wait_loop (S fuel) op p poll deadline last s).1 ≠ Raise OutOfFuel.
Proof using PlatformLaws0.
  intros Hp. revert last s. induction fuel as [|fuel IH]; intros last s Hd Hpoll.
  all: cbn [wait_loop]; unfold mbind, M_bind, gets, do_sleep, modify;
    pose proof (halts_fetch s) as Hf; pose proof (later_fetch s) as Ht; unfold later in Ht;
    destruct (_fetch_layout s) as [[[layout|]|e] s1]; cbn [fst snd] in *; try done; try congruence.
  all: unfold lift; assert (in_bounds (holds p layout)) as Hb by (destruct p; [done|apply Hp]);
    destruct (holds p layout) as [[]|e]; cbn [fst snd]; try done; try (intros [= ->]; by apply Hb);
    destruct (Qltb (monotonic (world s1)) deadline) eqn:Eq; cbn [negb]; try done.
  - apply Qltb_lt in Eq. change (inject_Z (Z.of_nat 0)) with 0%Q in Hd. exfalso. lra.
  - apply IH; [|done]. cbn [set_world world].
    pose proof (sleep_advances poll (world s1)) as Hs.
    rewrite Nat2Z.inj_succ, <- Z.add_1_r, inject_Z_plus in Hd. change (inject_Z 1) with 1%Q in Hd. lra.
Qed.

Lemma halts_wait op p : check_in_bounds p → halts (_wait_stable op p).
Proof using PlatformLaws0.
  intros Hp s. unfold _wait_stable. unfold mbind, M_bind, gets. cbv beta iota.
  apply (wait_loop_halts 21); [done| |done].
  unfold _WAIT_STABLE_POLL_SECONDS, _WAIT_STABLE_CAP_SECONDS. change (inject_Z (Z.of_nat 21)) with 21%Q. lra.
Qed.

Lemma halts_report_post op args k : (∀ b, halts (k b)) → halts (post_then op args k).
Proof using PlatformLaws0.
  intros Hk. unfold post_then.
  halts_with ltac:(first [apply halts_post | apply halts_report | apply halts_emit_ref | apply Hk]).
Qed.

Lemma halts_settle op p f : check_in_bounds p → (∀ l, in_bounds (f l)) → halts (settle op p f).
Proof using PlatformLaws0.
  intros Hp Hf. unfold settle. apply halts_bind; [by apply halts_wait|]. intros [[] [after|]];
    halts_with ltac:(first [apply halts_line | apply halts_err]).
Qed.

Lemma halts_mutating op args p f g skip :
  check_in_bounds p → (∀ b a, in_bounds (f b a)) → (∀ b, in_bounds (g b)) →
  halts (_run_mutating_op op args p f g skip).
Proof using PlatformLaws0.
  intros Hp Hf Hg. unfold _run_mutating_op. destruct p as [|check].
  - apply halts_report_post. intros b. halts_with ltac:(apply halts_line).
  - destruct no_wait_stable; [apply halts_report_post; intros; apply halts_ret|].
    apply halts_bind; [apply halts_fetch|]. intros before. apply halts_bind.
    + halts_with fail.
    + intros already. destruct already.
      * apply halts_bind; [by apply halts_lift|]. intros msg. halts_with ltac:(apply halts_err).
      * apply halts_report_post. intros b. by apply halts_settle.
Qed.

Lemma halts_terminal op args : halts (_run_terminal_creation_op op args).
Proof using PlatformLaws0.
  unfold _run_terminal_creation_op. destruct no_wait_stable; apply halts_report_post; intros b; [apply halts_ret|].
  destruct (allocated b) as [ref|]; [|halts_with ltac:(apply halts_line)].
  apply halts_settle; [apply (predicates_in_bounds ref [])|]. intros after. ib.
Qed.

Lemma halts_registered name : halts (_is_service_registered name).
Proof using PlatformLaws0.
  unfold _is_service_registered, _read_application_names. halts_with fail. apply tomlkit_exceptions.
Qed.

Lemma later_registered name : stepwise later (_is_service_registered name).
Proof using PlatformLaws0.
  unfold _is_service_registered, _read_application_names. repeat (apply stepwise_bind; [apply _| |intros ?]).
  - apply stepwise_gets, _.
  - case_match; [apply stepwise_lift, _ | apply stepwise_ret, _].
  - apply stepwise_ret, _.
Qed.

Lemma registration_halts fuel name deadline s :
  (deadline <= monotonic (world s) + inject_Z (Z.of_nat fuel) * _REGISTRATION_POLL_INTERVAL_SECONDS)%Q →
  (registration_loop (S fuel) name deadline s).1 ≠ Raise OutOfFuel.
Proof using PlatformLaws0.
  unfold _REGISTRATION_POLL_INTERVAL_SECONDS.
  revert s. induction fuel as [|fuel IH]; intros s Hd.
  all: cbn [registration_loop]; unfold mbind, M_bind, gets, do_sleep, modify;
    pose proof (halts_registered name s) as Hf; pose proof (later_registered name s) as Ht; unfold later in Ht;
    destruct (_is_service_registered name s) as [[[]|e] s1]; cbn [fst snd] in *; try done; try congruence.
  all: destruct (Qltb (monotonic (world s1)) deadline) eqn:Eq; cbn [negb]; try done; apply Qltb_lt in Eq.
  - change (inject_Z (Z.of_nat 0)) with 0%Q in Hd. exfalso. lra.
  - apply IH. cbn [set_world world].
    pose proof (sleep_advances (1 # 4) (world s1)) as Hs. unfold _REGISTRATION_POLL_INTERVAL_SECONDS.
    rewrite Nat2Z.inj_succ, <- Z.add_1_r, inject_Z_plus in Hd. change (inject_Z 1) with 1%Q in Hd. lra.
Qed.

Lemma halts_registration ref hint k : halts k → halts (registered_or_error ref hint k).
Proof using PlatformLaws0.
  intros Hk. unfold registered_or_error. destruct (startswith _ _); [|done]. cbv zeta.
  apply halts_bind; [|intros []; halts_with ltac:(first [apply Hk | apply halts_line])].
  intros s. unfold _wait_for_registration. unfold mbind, M_bind, gets. cbv beta iota.
  apply (registration_halts 21). unfold _REGISTRATION_POLL_INTERVAL_SECONDS, _REGISTRATION_TIMEOUT_SECONDS.
  change (inject_Z (Z.of_nat 21)) with 21%Q. lra.
Qed.

Lemma halts_ref_arg value : halts (ref_arg value : C pystr).
Proof. unfold ref_arg, _validate_ref. cbv zeta. halts_with ltac:(apply halts_line). Qed.

Lemma halts_unless op refs k : halts k → halts (unless_closed op refs k).
Proof using PlatformLaws0.
  intros Hk. unfold unless_closed. apply halts_bind; [apply halts_require|]. intros []; [apply halts_ret|done].
Qed.

Lemma in_bounds_find ref : (∀ l, in_bounds (find_ref ref l)) ∧ (∀ l, in_bounds (find_url ref l)).
Proof. split; intros l; [unfold find_ref | unfold find_url]; ib. Qed.

Lemma halts_create op ref payload t1 t2 : halts (create_panel op ref payload t1 t2).
Proof using PlatformLaws0.
  unfold create_panel. cbv zeta. destruct (in_bounds_find ref) as [Hr Hu].
  destruct (bool_decide _); [apply halts_terminal|].
  destruct (startswith _ _); apply halts_mutating;
    first [apply (predicates_in_bounds ref []) | intros; by apply in_bounds_in_group].
Qed.

Lemma halts_move_predicate ref rel d :
  halts (move_predicate ref rel d).
Proof using PlatformLaws0.
  unfold move_predicate. halts_with ltac:(first [apply halts_fetch | apply halts_line]).
Qed.

Lemma move_predicate_in_bounds ref rel d s p n b :
  (move_predicate ref rel d s).1 = Ret (p, n, b) → check_in_bounds p.
Proof.
  unfold move_predicate. destruct (_ && _).
  { intros [= <- <- <-]. apply (predicates_in_bounds ref rel). }
  destruct no_wait_stable; [by intros [= <- <- <-]|].
  unfold mbind, M_bind. destruct (_fetch_layout s) as [[layout|e] s1]; [|done].
  destruct layout; cbn; by intros [= <- <- <-].
Qed.

Lemma halts_move ref rel d new_group : halts (run_move ref rel d new_group).
Proof using PlatformLaws0.
  intros s. unfold run_move, mbind, M_bind.
  pose proof (halts_move_predicate ref rel d s) as Hm.
  pose proof (move_predicate_in_bounds ref rel d s) as Hp.
  destruct (move_predicate ref rel d s) as [[[[p n] b]|e] s1]; [|cbn in *; congruence].
  apply halts_mutating; [by eapply Hp| |done].
  intros x y. apply in_bounds_in_group, in_bounds_find.
Qed.

#[local] Ltac halts_cmd :=
  halts_with ltac:(first
    [ apply halts_ref_arg | apply halts_line | apply halts_out | apply halts_fetch | apply halts_post
    | apply halts_report | apply halts_unless | apply halts_registration | apply halts_create | apply halts_require ]).

(** C25: every run of the client ends by itself: with a clock that advances while
    sleeping, whatever the server answers and whatever the registry says, no
    polling loop outlasts its bound, so each subcommand returns an exit code
    or raises. *)
Theorem client_terminates args : halts (main args).
Proof using PlatformLaws0.
  destruct args; cbn [main].
  - unfold _cmd_list. apply halts_bind; [apply halts_post|]. intros [st body].
    unfold _emit_structured. halts_cmd.
  - unfold _cmd_inspect. apply halts_bind; [apply halts_post|]. intros [st body].
    unfold _emit_layout_view. halts_cmd.
  - unfold _cmd_where, where_text. cbv zeta. halts_cmd.
  - unfold _cmd_open. halts_cmd.
  - unfold _cmd_focus. halts_cmd. apply halts_mutating; [apply (predicates_in_bounds a [])|done..].
  - unfold _cmd_split. halts_cmd.
  - unfold _cmd_close. halts_cmd. apply halts_mutating; [apply (predicates_in_bounds a [])|done..].
  - unfold _cmd_move. halts_cmd. apply halts_move.
  - unfold _cmd_rename. halts_cmd. apply halts_mutating; [apply (predicates_in_bounds a title)| |done]. intros x y. ib.
  - unfold _cmd_maximize. halts_cmd. by apply halts_mutating.
  - unfold _cmd_restore. by apply halts_mutating.
  - unfold _cmd_replace_url, _validate_replace_url. cbv zeta. halts_cmd.
    apply halts_mutating; [apply (predicates_in_bounds a (_resolve_replace_url url))| |done]. intros x y. ib.
  - unfold _cmd_refresh. cbv zeta. halts_cmd; by apply halts_mutating.
Qed.
End halting.

(** ** What a run sends *)

Definition is_operation (r : pystr * dict) : bool := negb (r.1 ∈? [u "list"; u "inspect"]).
(** The requests for an operation among those sent. *)
Definition operations (l : list (pystr * dict)) : list (pystr * dict) := List.filter is_operation l.

Definition op_of (args : namespace) : pystr :=
  match args with
  | List _ => u "list" | Inspect _ _ | Where _ _ _ => u "inspect" | Open _ _ => u "open" | Focus _ => u "focus"
  | Split _ _ _ _ _ => u "split" | Close _ => u "close" | Move _ _ _ _ => u "move" | Rename _ _ => u "rename"
  | Maximize _ => u "maximize" | Restore_ => u "restore" | ReplaceUrl _ _ => u "replace-url" | Refresh _ => u "refresh"
  end.

Section sending.
Context {W : Type} `{Platform W} `{PyRepr} `{JsonRepr}.
Abbreviation C := (M (cli W)).

(** The operations a step may send: none, or also one request for [op]. *)
Definition one_of (op : option pystr) (l : list (pystr * dict)) : Prop :=
  operations l = [] ∨ ∃ o args, op = Some o ∧ operations l = [(o, args)].
Definition sends {A} (op : option pystr) (m : C A) : Prop := ∀ s,
  ∃ l, sent (m s).2 = sent s ++ l ∧ one_of op l.

Lemma sends_weaken {A} op (m : C A) : sends None m → sends op m.
Proof.
  intros Hm s. destruct (Hm s) as (l & Hl & [Ho|(o & a & ? & _)]); [|done]. exists l. split; [done|by left].
Qed.
Lemma operations_app l1 l2 : operations (l1 ++ l2) = operations l1 ++ operations l2.
Proof. apply filter_app_bool. Qed.

Lemma sends_nothing {A} op (m : C A) : (∀ s, sent (m s).2 = sent s) → sends op m.
Proof. intros Hm s. exists []. rewrite Hm, app_nil_r. split; [done|by left]. Qed.

Lemma sends_bind {A B} op (m : C A) (f : A → C B) : sends None m → (∀ a, sends op (f a)) → sends op (m ≫= f).
Proof.
  intros Hm Hf s. unfold mbind, M_bind. destruct (Hm s) as (l & Hl & [Ho|(?&?&?&_)]); [|done].
  destruct (m s) as [[a|e] s1]; cbn [fst snd] in *.
  - destruct (Hf a s1) as (l' & Hl' & Ho'). exists (l ++ l'). split; [by rewrite Hl', Hl, app_assoc|].
    unfold one_of in *. by rewrite operations_app, Ho.
  - exists l. split; [done|by left].
Qed.
Lemma sends_then {A B} op (m : C A) (f : A → C B) : sends op m → (∀ a, sends None (f a)) → sends op (m ≫= f).
Proof.
  intros Hm Hf s. unfold mbind, M_bind. destruct (Hm s) as (l & Hl & Ho).
  destruct (m s) as [[a|e] s1]; cbn [fst snd] in *; [|by exists l].
  destruct (Hf a s1) as (l' & Hl' & [Ho'|(?&?&?&_)]); [|done]. exists (l ++ l').
  split; [by rewrite Hl', Hl, app_assoc|]. unfold one_of in *. by rewrite operations_app, Ho', app_nil_r.
Qed.

Lemma sends_for {A} op (l : list A) (f : A → C unit) : (∀ a, sends None (f a)) → sends op (for_each l f).
Proof.
  intros Hf. apply sends_weaken. induction l as [|a l IH]; [by apply sends_nothing|].
  cbn [for_each]. by apply sends_bind.
Qed.

#[local] Ltac quiet := apply sends_nothing; intros ?; done.
#[local] Ltac sends_with known :=
  repeat lazymatch goal with
  | |- sends _ (mbind _ _) => apply sends_bind; [ | intros ?]
  | |- sends _ (mret _) => quiet
  | |- sends _ (raise _) => quiet
  | |- sends _ (gets _) => quiet
  | |- sends _ (modify _) => quiet
  | |- sends _ (lift _) => quiet
  | |- sends _ (out _) => quiet
  | |- sends _ (err _) => quiet
  | |- sends _ (line _) => quiet
  | |- sends _ (do_sleep _) => quiet
  | |- sends _ (when _ _) => unfold when
  | |- sends _ (for_each _ _) => apply sends_for; intros ?
  | |- sends _ (match _ with _ => _ end) => case_match
  | |- sends _ _ => known
  end.

Lemma sends_transmit op args body : sends (if is_operation (op, args) then Some op else None) (transmit op args body).
Proof.
  intros s. unfold transmit. destruct (urlopen _ _ _ _) as [r w]. cbn. exists [(op, args)]. split; [done|].
  unfold one_of, operations. cbn. destruct (is_operation (op, args)); [right; eauto|by left].
Qed.
Lemma sends_post op args : sends (if is_operation (op, args) then Some op else None) (_post_layout op args).
Proof.
  unfold _post_layout. apply sends_bind; [quiet|]. intros b. apply sends_then; [apply sends_transmit|].
  intros []; quiet.
Qed.
Lemma sends_query op args : op ∈ [u "list"; u "inspect"] → sends None (_post_layout op args).
Proof.
  intros Hop. pose proof (sends_post op args) as Hs.
  assert (is_operation (op, args) = false) as E by (unfold is_operation; cbn [fst]; by rewrite bool_decide_eq_true_2).
  by rewrite E in Hs.
Qed.
Lemma sends_op op args : sends (Some op) (_post_layout op args).
Proof. pose proof (sends_post op args) as Hs. destruct (is_operation _); [done|by apply sends_weaken]. Qed.

Lemma sends_fetch op : sends op _fetch_layout.
Proof.
  apply sends_weaken. unfold _fetch_layout. apply sends_bind; [|intros ?; quiet].
  apply sends_query. by apply (bool_decide_unpack _); vm_compute.
Qed.
Lemma sends_report op o status body : sends op (_report_failure o status body : C Z).
Proof. unfold _report_failure. cbv zeta. sends_with fail. Qed.
Lemma sends_emit op body : sends op (_emit_allocated_ref body : C unit).
Proof. unfold _emit_allocated_ref. sends_with fail. Qed.
Lemma sends_require op o refs : sends op (_require_open o refs).
Proof. unfold _require_open. sends_with ltac:(apply sends_fetch). Qed.

Lemma sends_wait_loop op fuel o p poll dl last : sends op (wait_loop fuel o p poll dl last).
Proof.
  revert last. induction fuel as [|fuel IH]; intros last; [quiet|]. cbn [wait_loop].
  sends_with ltac:(first [apply sends_fetch | apply IH]).
Qed.
Lemma sends_settle op o p f : sends op (settle o p f).
Proof.
  unfold settle, _wait_stable. apply sends_bind; [sends_with ltac:(apply sends_wait_loop)|].
  intros [[] [?|]]; sends_with fail.
Qed.
Lemma sends_post_then op args k : (∀ b, sends None (k b)) → sends (Some op) (post_then op args k).
Proof.
  intros Hk. unfold post_then. apply sends_then; [apply sends_op|]. intros r.
  sends_with ltac:(first [apply sends_report | apply sends_emit | apply Hk]).
Qed.
Lemma sends_mutating op args p f g skip : sends (Some op) (_run_mutating_op op args p f g skip).
Proof.
  unfold _run_mutating_op. destruct p as [|check].
  - apply sends_post_then. intros b. sends_with fail.
  - destruct no_wait_stable; [apply sends_post_then; intros; quiet|].
    sends_with ltac:(first [apply sends_fetch | apply sends_post_then; intros; apply sends_settle]).
Qed.
Lemma sends_terminal op args : sends (Some op) (_run_terminal_creation_op op args).
Proof.
  unfold _run_terminal_creation_op. destruct no_wait_stable; apply sends_post_then; intros b; [quiet|].
  sends_with ltac:(apply sends_settle).
Qed.
Lemma sends_registration op ref hint k : sends op k → sends op (registered_or_error ref hint k).
Proof.
  intros Hk. unfold registered_or_error. destruct (startswith _ _); [|done]. cbv zeta.
  apply sends_bind; [|intros []; sends_with ltac:(apply Hk)].
  unfold _wait_for_registration. sends_with idtac. generalize wait_fuel as n. intros n.
  induction n as [|n IH]; [quiet|]. cbn [registration_loop].
  unfold _is_service_registered, _read_application_names. sends_with ltac:(apply IH).
Qed.
Lemma sends_ref_arg op value : sends op (ref_arg value : C pystr).
Proof. unfold ref_arg, _validate_ref. cbv zeta. sends_with fail. Qed.
Lemma sends_unless op o refs k : sends op k → sends op (unless_closed o refs k).
Proof. intros Hk. unfold unless_closed. sends_with ltac:(first [apply sends_require | apply Hk]). Qed.
Lemma sends_create op ref payload t1 t2 : sends (Some op) (create_panel op ref payload t1 t2).
Proof.
  unfold create_panel. cbv zeta. sends_with ltac:(first [apply sends_terminal | apply sends_mutating]).
Qed.
Lemma sends_move ref rel d ng : sends (Some (u "move")) (run_move ref rel d ng).
Proof.
  unfold run_move. apply sends_bind; [|intros [[p n] b]; apply sends_mutating].
  unfold move_predicate. sends_with ltac:(apply sends_fetch).
Qed.

(** One command sends at most one operation: beside [list] and [inspect]
    queries, a run of the client sends no request, or exactly one, for the
    operation its subcommand names, however long it polls. *)
Theorem at_most_one_operation args s :
  ∃ l, sent (main args s).2 = sent s ++ l ∧
       (operations l = [] ∨ ∃ payload, operations l = [(op_of args, payload)]).
Proof.
  assert (sends (Some (op_of args)) (main args)) as Hm.
  { destruct args; cbn [main op_of];
      unfold _cmd_list, _cmd_inspect, _cmd_where, where_text, _cmd_open, _cmd_focus, _cmd_split, _cmd_close,
        _cmd_move, _cmd_rename, _cmd_maximize, _cmd_restore, _cmd_replace_url, _validate_replace_url, _cmd_refresh;
      cbv zeta;
      unfold _emit_structured, _emit_layout_view;
      sends_with ltac:(first
        [ apply sends_ref_arg | apply sends_fetch | apply sends_report | apply sends_unless | apply sends_registration
        | apply sends_create | apply sends_move | apply sends_mutating
        | apply sends_query; by apply (bool_decide_unpack _); vm_compute ]). }
  destruct (Hm s) as (l & Hl & Ho). exists l. split; [done|]. destruct Ho as [Ho|(o & a & [= <-] & Ho)]; eauto.
Qed.
End sending.

(** ** Waiting for an operation to show *)

Section waiting.
Context {W : Type} `{Platform W} `{!PlatformLaws _} `{PyRepr} `{JsonRepr}.

Lemma fetch_sent s : ∃ n, n ≤ 1 ∧ sent (_fetch_layout s).2 = sent s ++ repeat (u "inspect", []) n.
Proof.
  unfold _fetch_layout, _post_layout, mbind, M_bind, lift, transmit. cbv beta iota.
  destruct (encode_utf8 _) as [b|e]; [|exists 0; rewrite app_nil_r; split; [lia|done]].
  cbn [fst snd]. destruct (urlopen _ _ _ _) as [r w].
  destruct r; cbn; exists 1; (split; [lia|done]).
Qed.

(** What the wait reports, from [s] to [s']. *)
Definition wait_result (p : Predicate) (deadline : Q) (s' : cli W) (r : outcome (wait_status * option dict)) : Prop :=
  match r with
  | Ret (Changed, Some l) => holds p l = Ret true
  | Ret (Timeout, Some l) => holds p l = Ret false ∧ (deadline <= monotonic (world s'))%Q
  | Ret (Unknown, Some l) => holds p l = Ret false
  | Ret (Unknown, None) | Raise _ => True
  | Ret (_, None) => False
  end.

Lemma wait_loop_spec fuel k op p poll deadline last s :
  k < fuel → (deadline <= monotonic (world s) + inject_Z (Z.of_nat k) * poll)%Q → (0 <= poll)%Q →
  match last with Some l => holds p l = Ret false | None => True end →
  let '(r, s') := wait_loop fuel op p poll deadline last s in
  (∃ n, n ≤ S k ∧ sent s' = sent s ++ repeat (u "inspect", []) n) ∧ wait_result p deadline s' r.
Proof using PlatformLaws0.
  revert k last s. induction fuel as [|fuel IH]; intros k last s Hk Hd Hpoll Hlast; [lia|].
  cbn [wait_loop]; unfold mbind, M_bind, gets, do_sleep, modify.
  destruct (fetch_sent s) as (n & Hn & Hsent). pose proof (later_fetch s) as Ht. unfold later in Ht.
  destruct (_fetch_layout s) as [[[layout|]|e] s1]; cbn [fst snd] in *;
    try (split; [exists n; split; [lia|done] | by destruct last]).
  unfold lift. destruct (holds p layout) as [[]|e] eqn:Eh; cbn [fst snd];
    try (split; [exists n; split; [lia|done] | done]).
  destruct (Qltb (monotonic (world s1)) deadline) eqn:Eq; cbn [negb];
    try (split; [exists n; split; [lia|done] | split; [done|by apply Qltb_ge]]); apply Qltb_lt in Eq.
  destruct k as [|k]; [change (inject_Z (Z.of_nat 0)) with 0%Q in Hd; exfalso; lra|].
  pose proof (sleep_advances poll (world s1)) as Hs.
  specialize (IH k (Some layout) (set_world (sleep poll (world s1)) s1)).
  destruct (wait_loop fuel op p poll deadline (Some layout) _) as [r s'].
  destruct IH as [(n' & Hn' & Hsent') Hr]; [lia| |done|done|].
  - cbn [set_world world]. rewrite Nat2Z.inj_succ, <- Z.add_1_r, inject_Z_plus in Hd.
    change (inject_Z 1) with 1%Q in Hd. lra.
  - split; [|done]. exists (n + n'). split; [lia|].
    rewrite Hsent'. cbn [set_world sent]. by rewrite Hsent, <- app_assoc, <- repeat_app.
Qed.

(** Waiting polls [inspect] at most 21 times and reports what it saw: "changed"
    with a layout on which the predicate holds, "timeout" with a layout on
    which it does not, once the five seconds have passed. *)
Theorem wait_stable_reports op p s :
  let '(r, s') := _wait_stable op p s in
  (∃ n, n ≤ 21 ∧ sent s' = sent s ++ repeat (u "inspect", []) n) ∧
  wait_result p (monotonic (world s) + _WAIT_STABLE_CAP_SECONDS) s' r.
Proof using PlatformLaws0.
  unfold _wait_stable, mbind, M_bind, gets. cbv beta iota.
  apply (wait_loop_spec 22 20); [lia| |done|done].
  unfold _WAIT_STABLE_POLL_SECONDS, _WAIT_STABLE_CAP_SECONDS. change (inject_Z (Z.of_nat 20)) with 20%Q. lra.
Qed.
End waiting.

(** ** Refs across client and server *)

