(* ===== verification/LayoutPipeline.v ===== *)
(** * Client and server of the layout together

    What [scripts/layout.py] may rely on of [layout_ops.py]: the refs the
    queries show are accepted by the client as they are and found again, and the
    sentinel [self] is never among them.  [PipelineDemo] runs the client against
    the server's endpoint. *)

From Stdlib Require Import NArith ZArith QArith Lqa Lia.
From S2P Require Import Prelude PyStr PyJson PyMonad PyKeyed PyBytes PyUrl PyPath LayoutOps WsBroadcaster LayoutServer LayoutCli.
From stdpp Require Import options.
#[global] Open Scope nat_scope.
#[local] Open Scope py_scope.

Lemma ref_kinds_prefixes : ref_kinds = _REF_PREFIXES.
Proof. done. Qed.

(** What the client does to a ref argument it lets through unchanged. *)
Definition accepts (ref : pystr) : Prop := _normalize_ref ref = ref ∧ ref_problem ref = false.

(** A ref of a known kind is passed through and has a name. *)
Lemma typed_ref_accepted ref : typed_ref ref → accepts ref.
Proof.
  unfold accepts. intros (kind & name & Hk & Hn & Hurl & ->).
  assert (existsb (λ p, startswith p (kind ++ name)) _REF_PREFIXES = true) as Hp.
  { apply existsb_elem. exists kind. split; [by rewrite <- ref_kinds_prefixes | apply startswith_app]. }
  assert ((kind ++ name =? _SELF_REF) = false ∧ startswith (u "https://") (kind ++ name) = false ∧
          startswith (u "url:https://") (kind ++ name) = false ∧ (partition_char 58 (kind ++ name)).2 = name)
    as (Hself & Hhttps & Hu & Hpart).
  { assert ((kind ++ name =? _SELF_REF) = false) as ->.
    { apply bool_decide_eq_false_2. intros E. pose proof (startswith_app kind name) as Hs. rewrite E in Hs.
      revert Hs. unfold ref_kinds in Hk. cbn [map] in Hk.
      repeat (apply elem_of_cons in Hk as [->|Hk]; [by vm_compute|]). by apply elem_of_nil in Hk. }
    split; [done|]. unfold ref_kinds in Hk. cbn [map] in Hk.
    apply elem_of_cons in Hk as [->|Hk]; [done|]. apply elem_of_cons in Hk as [->|Hk]; [done|].
    apply elem_of_cons in Hk as [->|Hk]; [done|]. apply elem_of_cons in Hk as [->|Hk]; [done|].
    apply elem_of_cons in Hk as [->|Hk]; [|apply elem_of_cons in Hk as [->|Hk]; [done|by apply elem_of_nil in Hk]].
    split; [done|]. split; [|done]. destruct name as [|c name]; [done|].
    specialize (Hurl eq_refl). inv Hurl as [|? ? Hc _].
    apply not_true_iff_false. change (u "url:https://") with (u "url:" ++ u "https://").
    change (startswith (104%N :: u "ttps://") (c :: name) ≠ true).
    intros (s' & [= -> _] & _)%startswith_cons. by vm_compute in Hc. }
  unfold _normalize_ref, ref_problem. rewrite Hself, Hhttps, Hu, Hp. split; [done|]. cbn [negb].
  rewrite Hpart. by apply bool_decide_eq_false_2.
Qed.

Section shown.
Context `{ReprLaws} `{NetlocCheck}.

Lemma shown_typed file names lay v :
  layout_inspect file names = Ret lay → v ∈ shown_refs lay → ∃ ref, v = JStr ref ∧ typed_ref ref.
Proof using Type*.
  intros Hl Hv. unfold layout_inspect in Hl. inv_Ret Hl.
  destruct a as [| | | | | | |raw]; [injection Hl as <-; by apply elem_of_nil in Hv | by inv_Ret Hl..|].
  inv_Ret Hl. injection Hl as <-. destruct a as [ss pm]. apply build_summaries_ok in E0 as [_ Hss].
  unfold shown_refs in Hv. change (jget "panels" _) with (JList (map (λ s, JObj (ddel (u "panel_id") s.2)) ss)) in Hv.
  cbn [list_or_empty] in Hv. rewrite map_map in Hv.
  apply list_elem_of_In, in_map_iff in Hv as (s & <- & Hs%list_elem_of_In).
  rewrite Forall_forall in Hss. destruct (Hss s Hs) as (_ & _ & ref & Hr & Ht).
  exists ref. split; [|done]. cbn [dict_or_empty]. unfold jget. by rewrite dget_ddel_ne, Hr.
Qed.

(** The panels of a layout that [inspect] returned are dictionaries. *)
Lemma shown_panels file names lay :
  layout_inspect file names = Ret lay →
  ∃ ds, jget "panels" lay = JList (map JObj ds) ∧ shown_refs lay = map (jget "ref") ds.
Proof using Type*.
  intros Hl. unfold layout_inspect in Hl. inv_Ret Hl.
  destruct a as [| | | | | | |raw]; [injection Hl as <-; by exists [] | by inv_Ret Hl..|].
  inv_Ret Hl. injection Hl as <-. destruct a as [ss pm].
  exists (map (λ s, ddel (u "panel_id") s.2) ss). unfold shown_refs.
  change (jget "panels" _) with (JList (map (λ s, JObj (ddel (u "panel_id") s.2)) ss)).
  cbn [list_or_empty]. by rewrite !map_map.
Qed.

Lemma first_panel_shown ref ds :
  ∃ p, first_panel ref (map JObj ds) = Ret p ∧ is_some p = existsb (λ v, jeqs v ref) (map (jget "ref") ds) ∧
       (∀ d, p = Some d → d ∈ ds ∧ jeqs (jget "ref" d) ref = true).
Proof.
  induction ds as [|d ds IH]; [by exists None|]. cbn [map first_panel need_dict mbind outcome_bind existsb].
  destruct (jeqs (jget "ref" d) ref) eqn:E.
  - exists (Some d). split_and!; [done..|]. intros d' [= <-]. split; [left|done].
  - destruct IH as (p & -> & Hs & Hd). exists p. split_and!; [done..|]. intros d' Hp.
    destruct (Hd d' Hp). split; [by right|done].
Qed.

Lemma find_panel_shown file names lay ref :
  layout_inspect file names = Ret lay →
  ∃ p, _find_panel_summary lay ref = Ret p ∧ is_some p = existsb (λ v, jeqs v ref) (shown_refs lay) ∧
       (∀ d, p = Some d → jeqs (jget "ref" d) ref = true).
Proof using Type*.
  intros (ds & Hp & Hr)%shown_panels. unfold _find_panel_summary, items_of.
  assert (jget_or "panels" (JList []) lay = JList (map JObj ds)) as ->.
  { unfold jget in Hp. unfold jget_or. by destruct (dget _ lay). }
  assert (iter_json (jor (JList (map JObj ds)) (JList [])) = Ret (map JObj ds)) as -> by (by destruct ds).
  cbn [mbind outcome_bind]. destruct (first_panel_shown ref ds) as (p & -> & Hs & Hd).
  exists p. rewrite Hr. split_and!; [done..|]. naive_solver.
Qed.

(** Every ref [inspect] shows is one the client can act on: given back to the
    client it passes normalisation and validation unchanged and finds its
    panel in that layout. *)
Theorem shown_refs_usable file names lay v :
  layout_inspect file names = Ret lay → v ∈ shown_refs lay →
  ∃ ref d, v = JStr ref ∧ accepts ref ∧
    _find_panel_summary lay ref = Ret (Some d) ∧ jget "ref" d = JStr ref.
Proof using Type*.
  intros Hl Hv. destruct (shown_typed _ _ _ _ Hl Hv) as (ref & -> & Hacc%typed_ref_accepted).
  destruct (find_panel_shown _ _ _ ref Hl) as (p & Hf & Hs & Hd).
  assert (existsb (λ v, jeqs v ref) (shown_refs lay) = true) as E.
  { apply existsb_elem. exists (JStr ref). split; [done|]. simpl. by apply bool_decide_eq_true_2. }
  rewrite E in Hs. destruct p as [d|]; [|done]. exists ref, d. split_and!; [done..|].
  specialize (Hd d eq_refl). destruct (jget "ref" d); try done. simpl in Hd. by apply bool_decide_eq_true in Hd as ->.
Qed.

(** The ref [self] is in no layout. *)
Lemma self_not_shown file names lay :
  layout_inspect file names = Ret lay → _find_panel_summary lay _SELF_REF = Ret None.
Proof using Type*.
  intros Hl. destruct (find_panel_shown _ _ _ _SELF_REF Hl) as (p & Hf & Hs & _).
  destruct p as [d|]; [|done]. symmetry in Hs. cbn [is_some] in Hs. apply existsb_elem in Hs as (v & Hv & Hj).
  destruct (shown_typed _ _ _ _ Hl Hv) as (ref & -> & kind & name & Hk & _ & _ & ->).
  cbn [jeqs] in Hj. apply bool_decide_eq_true in Hj.
  pose proof (startswith_app kind name) as Hsw. rewrite Hj in Hsw. exfalso. revert Hsw.
  unfold ref_kinds in Hk. cbn [map] in Hk.
  repeat (apply elem_of_cons in Hk as [->|Hk]; [by vm_compute|]). by apply elem_of_nil in Hk.
Qed.
End shown.

(** ** [self] as the target of [close] *)

(** The script documents [self] as a target for any operation; [close self] takes
    the sentinel for a closed panel and ends without posting the operation. *)
Lemma close_self_posts_nothing {W} `{Platform W} `{PyRepr} `{ReprLaws} `{NetlocCheck} file names lay
    (s s1 : cli W) :
  no_wait_stable = false → _fetch_layout s = (Ret (Some lay), s1) → layout_inspect file names = Ret lay →
  (main (Close _SELF_REF) s).1 = Ret EXIT_OK ∧ sent (main (Close _SELF_REF) s).2 = sent s1.
Proof.
  intros Hw Hf Hl. cbn [main]. unfold _cmd_close.
  assert (ref_arg _SELF_REF s = (Ret _SELF_REF, s)) as Hr.
  { unfold ref_arg, _validate_ref. cbv zeta. change (_normalize_ref _SELF_REF) with _SELF_REF.
    by change (ref_problem _SELF_REF) with false. }
  rewrite (M_bind_ret _ _ _ _ _ Hr). unfold _run_mutating_op, _predicate_ref_absent. rewrite Hw.
  rewrite (M_bind_ret _ _ _ _ _ Hf).
  assert (lift (p ← _find_panel_summary lay _SELF_REF; Ret (negb (is_some p))) s1 = (Ret true, s1)) as Hc.
  { unfold lift. by rewrite (self_not_shown _ _ _ Hl). }
  rewrite (M_bind_ret _ _ _ _ _ Hc). done.
Qed.

(** ** The client run against the server *)
Module PipelineDemo.
Import LayoutDemo ServerDemo.

Definition send_response (r : outcome response) : http_result :=
  match r with
  | Ret resp =>
      match encode_utf8 (dumps float_repr "," ":" (content resp)) with
      | Ret raw => if (status resp <? 400)%Z then HttpResponse (status resp) raw else HttpError (status resp) raw
      | Raise e => HttpRaises AssertionError
      end
  | Raise e => HttpRaises AssertionError
  end.

#[export] Instance loopback : Platform server := {|
  urlopen url body headers w :=
    let '(r, w') := handle (_layout_broadcast_endpoint
      {| remote_addr := Some (u "127.0.0.1"); data := body;
         header_agent_id := dget (u "X-Mngr-Agent-Id") headers |}) w in
    (send_response r, with_mutex (layout_mutex w') (with_broadcaster (broadcaster w') w));
  LayoutCli.monotonic := LayoutServer.monotonic;
  sleep d w := tick (LayoutServer.monotonic w + d) w;
  getenv k := if k =? u "MNGR_AGENT_ID" then Some (u "a1") else None;
  file_bytes _ _ := Some (bq "{`applications`: [{`name`: `web`}, {`name`: `terminal`}]}");
  tomlkit_load b := match loads b with Some (JObj d) => Ret d | _ => Raise (ValueError []) end;
  yaml_dump v := dumps float_repr ", " ": " v |}.

#[export] Instance loopback_laws : PlatformLaws loopback.
Proof.
  split.
  - intros d w. cbn. apply Qle_refl.
  - intros url body headers w. cbn. destruct (handle _ w) as [r w']. cbn. apply Qle_refl.
  - intros url body headers w. cbn. destruct (handle _ w) as [r w']. cbn. unfold send_response.
    repeat case_match; done.
  - intros b. cbn. repeat case_match; done.
Qed.

(** Alice's layout is on disk. *)
Definition world0 : server :=
  with_file (Path [47%N] [u "mngr"; u "agents"; u "main"; u "workspace_layout"; u "layout.json"]) saved server0.
Definition cli0 : cli server := Cli world0 [] [] [].

Example list_run :
  (main (LayoutCli.List false) cli0).1 = Ret EXIT_OK ∧
  sent (main (LayoutCli.List false) cli0).2 = [(u "list", [])].
Proof. split; vm_compute; reflexivity. Qed.

(** [open web]: the panel is there already, nothing is posted. *)
Example open_run :
  let '(r, s) := main (Open (u "web") false) cli0 in
  r = Ret EXIT_OK ∧ stderr s = u "no change: service:web is already open in tabs=[service:web]" ++ [nl] ∧
  items (broadcaster (world s)) 0 = [].
Proof. vm_compute. done. Qed.

(** [close web]: broadcast once; no browser applies it, so the wait times out. *)
Example close_run :
  let '(r, s) := main (Close (u "web")) cli0 in
  r = Ret EXIT_ERROR ∧ length (items (broadcaster (world s)) 0) = 1 ∧ length (sent s) = 23.
Proof. vm_compute. done. Qed.

Example close_self_run :
  let '(r, s) := main (Close (u "self")) cli0 in
  r = Ret EXIT_OK ∧ stderr s = u "no change: self is already closed" ++ [nl] ∧ items (broadcaster (world s)) 0 = [].
Proof. vm_compute. done. Qed.

Example where_run :
  stdout (main (Where (u "chat:alice") false false) cli0).2 =
  join [nl] [u "ref:    chat:alice"; u "title:  Alice"; u "group:  [chat:alice* chat-terminal:alice]";
             u "left    -"; u "right   [service:web]"; u "above   -"; u "below   -"; []].
Proof. vm_compute. done. Qed.
End PipelineDemo.

Section pipeline_witnesses.
Import LayoutDemo ServerDemo PipelineDemo.

Lemma client_terminates_witness : (main (Close (u "web")) cli0).1 ≠ Raise OutOfFuel.
Proof. apply (client_terminates (Close (u "web"))). Defined.

Lemma wait_stable_reports_witness :
  let '(r, s') := _wait_stable (u "close") (_predicate_ref_absent (u "service:web")) cli0 in
  (∃ n, n ≤ 21 ∧ sent s' = sent cli0 ++ repeat (u "inspect", []) n) ∧
  wait_result (_predicate_ref_absent (u "service:web"))
    (LayoutCli.monotonic (world cli0) + _WAIT_STABLE_CAP_SECONDS) s' r.
Proof. apply (wait_stable_reports (u "close")). Defined.

Lemma shown_refs_usable_witness :
  ∃ ref d, JStr (u "service:web") = JStr ref ∧ accepts ref ∧
    _find_panel_summary lay ref = Ret (Some d) ∧ jget "ref" d = JStr ref.
Proof.
  apply (shown_refs_usable (Stored saved) names lay).
  - vm_compute. reflexivity.
  - vm_compute. right. right. left.
Defined.
End pipeline_witnesses.
