(* ===== verification/LayoutNeighbors.v ===== *)
(** * Neighbours of a panel

    The script finds the neighbours of a group by climbing the chain of its
    ancestors.  [adjacent] is the same notion defined from the root down: the
    deepest branch of the wanted arrangement on the way to the leaf that has a
    child on the wanted side.  [neighbors_adjacent] shows they agree. *)

From Stdlib Require Import NArith Lia.
From S2P Require Import Prelude PyStr PyJson PyMonad PyKeyed PyBytes LayoutCli.
From stdpp Require Import options.
#[global] Open Scope nat_scope.
#[local] Open Scope py_scope.

Definition children_list (d : dict) : list json :=
  match dget (u "children") d with Some (JList l) => l | _ => [] end.

(** The sibling of child [i] on one side. *)
Definition sibling (before : bool) (i n : nat) : option nat :=
  if before then (if (0 <? i)%nat then Some (i - 1) else None)
  else if (S i <? n)%nat then Some (S i) else None.

(** ** The reference definition *)
Fixpoint adjacent (target : pystr) (before : bool) (pos p : position) (node : json)
    : option (position * json) :=
  match p, node with
  | i :: p', JObj d =>
      match adjacent target before (pos ++ [i]) p' (nth i (children_list d) JNull) with
      | Some found => Some found
      | None =>
          if jeqs (jget "arrangement" d) target
          then match sibling before i (length (children_list d)) with
               | Some j => Some (pos ++ [j], nth j (children_list d) JNull)
               | None => None
               end
          else None
      end
  | _, _ => None
  end.

(** [p] leads from [node] down through lists of children. *)
Fixpoint leads (p : position) (node : json) : Prop :=
  match p with
  | [] => True
  | i :: p' => ∃ d l, node = JObj d ∧ dget (u "children") d = Some (JList l) ∧ i < length l ∧
                 leads p' (nth i l JNull)
  end.

(** The ancestors on the way, root first. *)
Fixpoint path_chain (pos p : position) (node : json) : ancestors :=
  match p, node with
  | i :: p', JObj d => (pos, d) :: path_chain (pos ++ [i]) p' (nth i (children_list d) JNull)
  | _, _ => []
  end.

(** ** Climbing *)

Lemma items_children d l : dget (u "children") d = Some (JList l) → items_of "children" d = Ret l.
Proof. intros Hd. unfold items_of, jget_or. rewrite Hd. by destruct l. Qed.

Lemma find_seq (f : nat → bool) a n i :
  a ≤ i < a + n → (∀ j, f j = true ↔ j = i) → List.find f (seq a n) = Some i.
Proof.
  revert a. induction n as [|n IH]; intros a Hi Hf; [lia|]. cbn [seq List.find].
  destruct (f a) eqn:E; [f_equal; by apply Hf|].
  apply IH; [|done]. assert (a ≠ i) by (intros ->; by rewrite (proj2 (Hf i) eq_refl) in E). lia.
Qed.

Lemma child_index_at pos i l : i < length l → child_index pos (pos ++ [i]) l = Some i.
Proof.
  intros Hi. unfold child_index. apply find_seq; [lia|]. intros j. rewrite bool_decide_eq_true. split.
  - intros E%app_inv_head. by simplify_eq.
  - by intros ->.
Qed.

Definition neighbor_leaves (a : option (position * json)) : outcome (list (position * dict)) :=
  match a with Some (pos, node) => _walk_tree_leaves pos node | None => Ret [] end.

Lemma climb_path target before pos p node rest :
  leads p node →
  climb target before (pos ++ p) (reverse (path_chain pos p node) ++ rest) =
    match adjacent target before pos p node with
    | Some found => neighbor_leaves (Some found)
    | None => climb target before pos rest
    end.
Proof.
  revert pos node rest. induction p as [|i p IH]; intros pos node rest Hl.
  { by rewrite app_nil_r. }
  destruct Hl as (d & l & -> & Hd & Hi & Hl). cbn [path_chain adjacent].
  assert (children_list d = l) as -> by (unfold children_list; by rewrite Hd).
  rewrite reverse_cons, <- app_assoc. cbn [app].
  replace (pos ++ i :: p) with ((pos ++ [i]) ++ p) by by rewrite <- app_assoc.
  rewrite IH by done.
  destruct (adjacent _ _ _ p _) as [found|]; [done|]. cbn [climb].
  destruct (jeqs (jget "arrangement" d) target); [|done]. cbn [negb].
  rewrite (items_children d l) by done. cbn [mbind outcome_bind]. rewrite child_index_at by done.
  unfold sibling. destruct before; cbn [andb negb].
  - by destruct (0 <? i)%nat.
  - by destruct (S i <? length l)%nat.
Qed.

(** ** The chain of a leaf *)

Lemma each_child_inv {A} (f : nat → json → outcome A) l i rs :
  each_child f i l = Ret rs →
  Forall2 (λ r jc, f jc.1 jc.2 = Ret r) rs (zip (seq i (length l)) l).
Proof.
  revert i rs. induction l as [|c l IH]; intros i rs Hr; [by injection Hr as <-; constructor|].
  cbn [each_child] in Hr. inv_Ret Hr. injection Hr as <-. cbn [length seq zip zip_with]. constructor; [done|]. by apply IH.
Qed.

Lemma stray_children {A B} (f : nat → json → outcome (list A)) (g : nat → json → outcome (list B)) k d ls :
  (∀ l, dget k d ≠ Some (JList l)) →
  for_children k f (λ _, Ret []) d = Ret ls →
  concat ls = [] ∧ ∃ ms, for_children k g (λ _, Ret []) d = Ret ms ∧ concat ms = [].
Proof.
  intros Hn. assert (∀ C (l : list json) cs, mapO (λ _ : json, Ret ([] : list C)) l = Ret cs → concat cs = []) as Hnil.
  { intros C l. induction l as [|x l IH]; intros cs Hc; [by injection Hc as <-|].
    cbn [mapO] in Hc. inv_Ret Hc. injection Hc as <-. simplify_eq. cbn. by apply IH. }
  assert (∀ C (l : list json), ∃ cs, mapO (λ _ : json, Ret ([] : list C)) l = Ret cs) as Hex.
  { intros C l. induction l as [|x l [cs IH]]; [by exists []|]. exists ([] :: cs). cbn [mapO]. by rewrite IH. }
  rewrite !for_children_eq. destruct (dget k d) as [v|]; [|intros [= <-]; split; [done|by exists []]].
  assert (∀ C (f : nat → json → outcome C) z, match v with JList l => each_child f 0 l | _ => z end = z) as Hv
    by (intros; destruct v; try done; exfalso; eapply Hn; done).
  rewrite !Hv. destruct (truthy v); [|intros [= <-]; split; [done|by exists []]].
  intros Hls. inv_Ret Hls. split; [by eapply Hnil|]. rewrite E. cbn [mbind outcome_bind].
  destruct (Hex B a) as [cs Hcs]. exists cs. split; [done|by eapply Hnil].
Qed.

Lemma zip_seq_elem {A} j (c : A) i l : (j, c) ∈ zip (seq i (length l)) l → i ≤ j ∧ l !! (j - i) = Some c.
Proof.
  revert i. induction l as [|x l IH]; intros i; cbn [length seq zip zip_with]; [by intros ?%elem_of_nil|].
  intros [[= -> ->]|Hin]%elem_of_cons; [by rewrite Nat.sub_diag|].
  destruct (IH (S i) Hin) as [Hle Hl]. split; [lia|]. by replace (j - i) with (S (j - S i)) by lia.
Qed.

Lemma nth_lookup (l : list json) i c : l !! i = Some c → i < length l ∧ nth i l JNull = c.
Proof. intros Hl. split; [by eapply lookup_lt_Some|]. by rewrite nth_lookup, Hl. Qed.

Lemma walk_leads pos node leaves l :
  _walk_tree_leaves pos node = Ret leaves → l ∈ leaves → ∃ q, l.1 = pos ++ q ∧ leads q node.
Proof.
  revert pos leaves. induction node as [v IH] using json_children_ind. intros pos leaves Hw Hl.
  destruct v as [| | | | | | |d]; try (injection Hw as <-; by apply elem_of_nil in Hl). cbn [_walk_tree_leaves] in Hw.
  destruct (jeqs _ "leaf").
  { injection Hw as <-. apply list_elem_of_singleton in Hl as ->. exists []. by rewrite app_nil_r. }
  destruct (jeqs _ "branch"); [|injection Hw as <-; by apply elem_of_nil in Hl].
  inv_Ret Hw. injection Hw as <-.
  destruct (dget (u "children") d) as [v|] eqn:Ed; [destruct (as_list v) as [cs|] eqn:Ev|].
  2,3: eapply (stray_children _ (λ _ _, Ret ([] : list unit))) in E as [Hc _];
    [rewrite Hc in Hl; by apply elem_of_nil in Hl | intros cs; rewrite Ed; by intros [= ->]].
  destruct v; try done. injection Ev as ->. rewrite for_children_eq, Ed in E. apply each_child_inv in E.
  apply list_elem_of_In, in_concat in Hl as (ls & Hls%list_elem_of_In & Hl%list_elem_of_In).
  apply list_elem_of_lookup in Hls as [n Hn].
  destruct (Forall2_lookup_l _ _ _ _ _ E Hn) as ([j c] & Hj & Hc). cbn [fst snd] in Hc.
  apply list_elem_of_lookup_2, zip_seq_elem in Hj as [_ Hj]. rewrite Nat.sub_0_r in Hj.
  destruct (IH d (u "children") cs c eq_refl Ed (list_elem_of_lookup_2 _ _ _ Hj) _ _ Hc Hl) as (q & Hq & Hlead).
  apply nth_lookup in Hj as [Hlt Hnth]. exists (j :: q). split; [by rewrite Hq, <- app_assoc|].
  exists d, cs. split_and!; [done..|]. by rewrite Hnth.
Qed.

Lemma each_child_map {A B} (f : nat → json → outcome (list A)) (g : nat → json → outcome (list B)) (h : A → B) l i rs :
  each_child f i l = Ret rs →
  (∀ j c r, (j, c) ∈ zip (seq i (length l)) l → f j c = Ret r → g j c = Ret (map h r)) →
  each_child g i l = Ret (map (map h) rs).
Proof.
  revert i rs. induction l as [|c l IH]; intros i rs Hr Hg; [by injection Hr as <-|].
  cbn [each_child] in *. inv_Ret Hr. injection Hr as <-. cbn [length seq zip zip_with] in Hg.
  rewrite (Hg i c a) by (done || by left). cbn [mbind outcome_bind].
  rewrite (IH (S i) a0); [done..|]. intros j c' r Hj. apply Hg. by right.
Qed.

(** The map of parents holds the chain of every leaf. *)
Lemma build_walk pos chain node leaves :
  _walk_tree_leaves pos node = Ret leaves →
  _build_leaf_parents pos chain node =
    Ret (map (λ l, (l.1, chain ++ path_chain pos (drop (length pos) l.1) node)) leaves).
Proof.
  revert pos chain leaves. induction node as [v IH] using json_children_ind. intros pos chain leaves Hw.
  destruct v as [| | | | | | |d]; try by injection Hw as <-. cbn [_build_leaf_parents]. cbn [_walk_tree_leaves] in Hw.
  destruct (jeqs _ "leaf").
  { injection Hw as <-. cbn [map fst]. by rewrite drop_all, app_nil_r. }
  destruct (jeqs _ "branch"); [|by injection Hw as <-].
  inv_Ret Hw. injection Hw as <-.
  destruct (dget (u "children") d) as [v|] eqn:Ed; [destruct (as_list v) as [cs|] eqn:Ev|].
  2,3: eapply (stray_children _ (λ i child, _build_leaf_parents (pos ++ [i]) (chain ++ [(pos, d)]) child)) in E
         as (Hc & ms & -> & Hms);
    [cbn [mbind outcome_bind]; by rewrite Hc, Hms | intros cs; rewrite Ed; by intros [= ->]].
  destruct v; try done. injection Ev as ->. rewrite for_children_eq, Ed in E. rewrite for_children_eq, Ed.
  rewrite (each_child_map _ _ (λ l, (l.1, chain ++ path_chain pos (drop (length pos) l.1) (JObj d))) _ _ _ E).
  { cbn [mbind outcome_bind]. by rewrite concat_map. }
  intros j c r Hj Hr. pose proof (walk_leads (pos ++ [j]) c r) as Hq.
  apply zip_seq_elem in Hj as [_ Hj]. rewrite Nat.sub_0_r in Hj.
  rewrite (IH d (u "children") cs c eq_refl Ed (list_elem_of_lookup_2 _ _ _ Hj) _ _ _ Hr). f_equal.
  apply map_ext_in. intros l Hl%list_elem_of_In. destruct (Hq l Hr Hl) as (q & Hlq & _).
  apply nth_lookup in Hj as [Hlt Hnth]. cbv beta. rewrite Hlq. f_equal. rewrite (drop_app_length (pos ++ [j]) q).
  rewrite <- (app_assoc pos [j] q), drop_app_length. cbn [app path_chain].
  assert (children_list d = cs) as -> by (unfold children_list; by rewrite Ed).
  by rewrite Hnth, <- app_assoc.
Qed.

Lemma chain_of_map (F : position → ancestors) (leaves : list (position * dict)) l :
  l ∈ leaves → chain_of l.1 (map (λ l, (l.1, F l.1)) leaves) = F l.1.
Proof.
  intros Hl. unfold chain_of. induction leaves as [|m leaves IH]; [by apply elem_of_nil in Hl|].
  cbn [map List.find fst]. destruct (bool_decide (m.1 = l.1)) eqn:E.
  - apply bool_decide_eq_true in E. cbn [snd]. by rewrite E.
  - apply IH. apply elem_of_cons in Hl as [->|Hl]; [|done]. by apply bool_decide_eq_false in E.
Qed.

Definition target_of (direction : pystr) : pystr :=
  if (direction =? u "left") || (direction =? u "right") then u "row" else u "column".
Definition before_of (direction : pystr) : bool := (direction =? u "left") || (direction =? u "above").

(** C28: climbing from a leaf finds the neighbours defined from the root: for every
    leaf of the tree and every direction, the neighbours are the leaves of the
    adjacent child of the deepest branch, on the way to the leaf, that is
    arranged along the direction and has a child on that side; none when
    there is no such branch. *)
Theorem neighbors_adjacent layout tree leaves leaf direction :
  jget "tree" layout = tree → tree ≠ JNull →
  _walk_tree_leaves [] tree = Ret leaves → leaf ∈ leaves →
  _neighbors_in_direction layout leaf direction =
    neighbor_leaves (adjacent (target_of direction) (before_of direction) [] leaf.1 tree).
Proof.
  intros Ht Hn Hw Hl. destruct (walk_leads _ _ _ _ Hw Hl) as (q & Hq & Hlead). cbn [app] in Hq.
  assert (_neighbors_in_direction layout leaf direction =
    (parents ← _build_leaf_parents [] [] tree;
     climb (target_of direction) (before_of direction) leaf.1 (reverse (chain_of leaf.1 parents)))) as ->.
  { unfold _neighbors_in_direction. rewrite Ht. by destruct tree. }
  rewrite (build_walk _ _ _ _ Hw). cbn [mbind outcome_bind app length].
  rewrite (chain_of_map (λ p, path_chain [] (drop 0 p) tree) leaves leaf Hl). rewrite Hq, drop_0.
  pose proof (climb_path (target_of direction) (before_of direction) [] q tree [] Hlead) as Hc.
  rewrite app_nil_r in Hc. cbn [app] in Hc. rewrite Hc. by destruct (adjacent _ _ _ _ _).
Qed.

(** ** A layout of three groups *)
Module NeighborDemo.
Definition panel (ref : pystr) : json := JObj [(u "type", JStr "leaf"); (u "panels", JList [JObj [(u "ref", JStr ref)]])].
Definition kids (arrangement : pystr) (l : list json) : json :=
  JObj [(u "type", JStr "branch"); (u "arrangement", JStr arrangement); (u "children", JList l)].
Definition demo_tree : json := kids "row" [panel "a"; kids "column" [panel "b"; panel "c"]].
Definition leaf_of (v : json) : dict := dict_or_empty v.
End NeighborDemo.
Import NeighborDemo.

Lemma neighbors_adjacent_witness :
  _neighbors_in_direction [(u "tree", demo_tree)] ([1; 1], leaf_of (panel "c")) "left" = Ret [([0], leaf_of (panel "a"))] ∧
  _neighbors_in_direction [(u "tree", demo_tree)] ([0], leaf_of (panel "a")) "right" =
    Ret [([1; 0], leaf_of (panel "b")); ([1; 1], leaf_of (panel "c"))].
Proof.
  split.
  - rewrite (neighbors_adjacent [(u "tree", demo_tree)] demo_tree
      [([0], leaf_of (panel "a")); ([1; 0], leaf_of (panel "b")); ([1; 1], leaf_of (panel "c"))]).
    + vm_compute. reflexivity.
    + vm_compute. reflexivity.
    + vm_compute. discriminate.
    + vm_compute. reflexivity.
    + right. right. left.
  - rewrite (neighbors_adjacent [(u "tree", demo_tree)] demo_tree
      [([0], leaf_of (panel "a")); ([1; 0], leaf_of (panel "b")); ([1; 1], leaf_of (panel "c"))]).
    + vm_compute. reflexivity.
    + vm_compute. reflexivity.
    + vm_compute. discriminate.
    + vm_compute. reflexivity.
    + left.
Defined.
