(* ===== verification/AppRegistry.v ===== *)
(** * The registry of applications

    [scripts/forward_port.py], which upserts and removes entries of
    [runtime/applications.toml] under a file lock (so one call at a time), and
    [app_watcher/watcher.py], which turns each change of the file into
    [service_registered] and [service_deregistered] events.  tomlkit is a
    parameter; the envelope of an event (time, id, source) is left out. *)

From Stdlib Require Import NArith ZArith QArith Lia.
From S2P Require Import Prelude PyStr PyJson PyMonad PyBytes LayoutCli.
From stdpp Require Import options.
#[global] Open Scope nat_scope.
#[local] Open Scope py_scope.

Class TomlKit := {
  toml_load : bytes → outcome dict;
  toml_dump : dict → bytes }.

(** ** forward_port.py *)
Section forward_port.
Context `{TomlKit}.

(** The file, [None] when it does not exist. *)
Abbreviation file := (option bytes).

Definition _load_applications (f : file) : outcome dict :=
  match f with
  | None => Ret [(u "applications", JList [])]
  | Some b => toml_load b
  end.

(** The loop over the entries: the first one of that name gets the url. *)
Fixpoint set_url (name url : pystr) (apps : list json) : outcome (option (list json)) :=
  match apps with
  | [] => Ret None
  | app :: apps' =>
      d ← need_dict app;
      if jeqs (jget "name" d) name then Ret (Some (JObj (dset "url" (JStr url) d) :: apps'))
      else r ← set_url name url apps'; Ret (option_map (cons app) r)
  end.

Definition new_entry (name url : pystr) : json := JObj [(u "name", JStr name); (u "url", JStr url)].

(** [doc.get("applications", [])]: the list of the document, or a list of its
    own that the document never sees. *)
Definition _upsert (f : file) (name url : pystr) : outcome file :=
  doc ← _load_applications f;
  match dget "applications" doc with
  | None => Ret (Some (toml_dump doc))
  | Some (JList apps) =>
      r ← set_url name url apps;
      Ret (Some (toml_dump (dset "applications" (JList (default (apps ++ [new_entry name url]) r)) doc)))
  | Some (JObj _ | JStr _) => Raise AttributeError
  | Some _ => Raise TypeError
  end.

Definition keeps_name (name : pystr) (app : json) : outcome bool :=
  d ← need_dict app; Ret (negb (jeqs (jget "name" d) name)).
Definition without_name (name : pystr) (apps : list json) : outcome (list json) :=
  keep ← mapO (keeps_name name) apps; Ret (map snd (List.filter fst (zip keep apps))).
Definition _remove (f : file) (name : pystr) : outcome file :=
  match f with
  | None => Ret None
  | Some b =>
      doc ← toml_load b;
      match jget_or "applications" (JList []) doc with
      | JList apps =>
          rest ← without_name name apps;
          if (length rest =? length apps)%nat then Ret f
          else Ret (Some (toml_dump (dset "applications" (JList rest) doc)))
      | JObj [] | JStr [] => Ret f
      | JObj _ | JStr _ => Raise AttributeError
      | _ => Raise TypeError
      end
  end.

(** [main], once the arguments are parsed and the lock is held *)
Definition forward_port (remove : bool) (name url : pystr) (f : file) : outcome file :=
  if remove then _remove f name else _upsert f name url.
End forward_port.

(** ** watcher.py *)

Inductive service_event :=
  | ServiceRegistered (service url : pystr)
  | ServiceDeregistered (service : pystr).

Section watcher.
Context `{JsonRepr}.

(** [str(app.get(key, ""))] *)
Definition field_text (key : pystr) (app : dict) : pystr := json_str (jget_or key (JStr []) app).

Definition register_event (app : dict) : list service_event :=
  let name := field_text "name" app in
  let url := field_text "url" app in
  if (name =? []) || (url =? []) then [] else [ServiceRegistered name url].

Definition current_names (apps : list dict) : list pystr :=
  flat_map (λ app, match register_event app with [ServiceRegistered name _] => [name] | _ => [] end) apps.

Definition _write_events (current_apps : list dict) (previous_app_names : gset pystr) : list service_event :=
  flat_map register_event current_apps ++
  map ServiceDeregistered
    (sort_by str_leb (elements (previous_app_names ∖ list_to_set (current_names current_apps)))).

Record watch := { last_mtime : Q; previous_app_names : gset pystr; log : list service_event }.

Definition start : watch := {| last_mtime := 0; previous_app_names := ∅; log := [] |}.

Definition tracked_names (apps : list dict) : gset pystr :=
  list_to_set (flat_map (λ a, if truthy (jget "name" a) then [field_text "name" a] else []) apps).

(** One turn of the loop that saw [new_mtime] and would load [apps];
    [events_dir] tells whether events are written. *)
Definition watch_turn (events_dir : bool) (new_mtime : Q) (apps : outcome (list dict)) (w : watch) : outcome watch :=
  if Qeq_bool new_mtime (last_mtime w) then Ret w
  else
    apps ← apps;
    Ret {| last_mtime := new_mtime; previous_app_names := tracked_names apps;
           log := if events_dir then log w ++ _write_events apps (previous_app_names w) else log w |}.

(** [_load_applications] *)
Definition load_apps `{TomlKit} (f : option bytes) : outcome (list dict) :=
  match f with
  | None => Ret []
  | Some b => data ← toml_load b; l ← iter_json (jget_or "applications" (JList []) data); mapO need_dict l
  end.
End watcher.

(** ** The registry after an upsert and after a removal *)

(** The url of the first entry of that name. *)
Fixpoint url_of (name : pystr) (apps : list json) : option json :=
  match apps with
  | [] => None
  | JObj d :: apps' => if jeqs (jget "name" d) name then Some (jget "url" d) else url_of name apps'
  | _ :: apps' => url_of name apps'
  end.

Lemma jeqs_other v a b : jeqs v a = true → b ≠ a → jeqs v b = false.
Proof.
  destruct v; try done. simpl. intros ->%bool_decide_eq_true Hne. by apply bool_decide_eq_false_2.
Qed.

Lemma set_url_spec name url apps r :
  set_url name url apps = Ret r →
  match r with
  | Some apps' => url_of name apps' = Some (JStr url) ∧ length apps' = length apps ∧
                  ∀ other, other ≠ name → url_of other apps' = url_of other apps
  | None => url_of name apps = None
  end.
Proof.
  revert r. induction apps as [|app apps IH]; intros r Hr; [by injection Hr as <-|]. cbn [set_url] in Hr.
  destruct app as [| | | | | | |d]; try done. cbn [need_dict mbind outcome_bind] in Hr.
  destruct (jeqs (jget "name" d) name) eqn:E.
  - injection Hr as <-. cbn [url_of]. unfold jget at 1. rewrite dget_dset_ne by done. fold (jget "name" d). rewrite E.
    split_and!; [f_equal; unfold jget; by rewrite dget_dset_eq|done|]. intros other Hne.
    unfold jget at 1. rewrite dget_dset_ne by done. fold (jget "name" d).
    by rewrite (jeqs_other _ _ _ E Hne).
  - inv_Ret Hr. injection Hr as <-. specialize (IH a E0).
    destruct a as [apps'|]; cbn [option_map url_of]; rewrite ?E; [|done].
    destruct IH as (IH1 & IH2 & IH3). split_and!; [done|cbn; by rewrite IH2|].
    intros other Hne. by rewrite (IH3 other Hne).
Qed.

Lemma url_of_app name l1 l2 :
  url_of name (l1 ++ l2) = match url_of name l1 with Some v => Some v | None => url_of name l2 end.
Proof.
  induction l1 as [|v l1 IH]; [done|]. cbn [app url_of]. destruct v; try done. by destruct (jeqs _ _).
Qed.

Lemma url_of_new other name url :
  url_of other [new_entry name url] = if bool_decide (name = other) then Some (JStr url) else None.
Proof.
  unfold new_entry. cbn [url_of]. change (jget "name" _) with (JStr name). change (jget "url" _) with (JStr url).
  done.
Qed.

Lemma without_name_spec name apps rest :
  without_name name apps = Ret rest →
  url_of name rest = None ∧ (∀ other, other ≠ name → url_of other rest = url_of other apps) ∧
  length rest ≤ length apps ∧ (length rest = length apps → rest = apps).
Proof.
  unfold without_name. intros Hr. inv_Ret Hr. injection Hr as <-. apply mapO_Ret in E.
  induction E as [|app k apps ks Hk _ (IH1 & IH2 & IH3 & IH4)]; [cbn; split_and!; try done; lia|].
  unfold keeps_name in Hk. destruct app as [| | | | | | |d]; try done. cbn [need_dict mbind outcome_bind] in Hk.
  injection Hk as <-. cbn [zip zip_with List.filter fst snd].
  destruct (jeqs (jget "name" d) name) eqn:Ej; cbn [negb map url_of length snd]; rewrite ?Ej.
  - split_and!; [done| |lia|lia]. intros other Hne. by rewrite (IH2 other Hne), (jeqs_other _ _ _ Ej Hne).
  - split_and!; [done| |lia|]; [intros other Hne; by rewrite (IH2 other Hne)|].
    intros [= Hl]. by rewrite (IH4 Hl).
Qed.

Section registry_facts.
Context `{TomlKit}.

(** Registering a port takes effect and touches nothing else: on a missing
    file or one with an [applications] list, what is saved is the loaded
    document with only that list changed, and in the list the name has its new
    url and every other name the url it had. *)
Theorem upsert_registers f name url f' doc apps :
  _load_applications f = Ret doc → dget "applications" doc = Some (JList apps) →
  _upsert f name url = Ret f' →
  ∃ apps', f' = Some (toml_dump (dset "applications" (JList apps') doc)) ∧
    url_of name apps' = Some (JStr url) ∧ ∀ other, other ≠ name → url_of other apps' = url_of other apps.
Proof.
  intros Hd Ha Hu. unfold _upsert in Hu. rewrite Hd in Hu. cbn [mbind outcome_bind] in Hu. rewrite Ha in Hu.
  inv_Ret Hu. injection Hu as <-. apply set_url_spec in E. eexists. split; [done|].
  destruct a as [apps'|]; cbn [default]; [by destruct E as (? & _ & ?)|]. split.
  - cbn. by rewrite url_of_app, E, url_of_new, bool_decide_eq_true_2.
  - intros other Hne. cbn. rewrite url_of_app, url_of_new, bool_decide_eq_false_2 by congruence.
    by destruct (url_of other apps).
Qed.

(** Removing a port takes effect and touches nothing else: the saved list has no
    entry of that name and the other names keep their urls; a file without the
    name is left as it is, byte for byte. *)
Theorem remove_unregisters b name f' doc apps :
  toml_load b = Ret doc → dget "applications" doc = Some (JList apps) → _remove (Some b) name = Ret f' →
  ∃ rest, url_of name rest = None ∧ (∀ other, other ≠ name → url_of other rest = url_of other apps) ∧
    ((rest = apps ∧ f' = Some b) ∨
     (length rest < length apps ∧ f' = Some (toml_dump (dset "applications" (JList rest) doc)))).
Proof.
  intros Hd Ha Hr. unfold _remove in Hr. rewrite Hd in Hr. cbn [mbind outcome_bind] in Hr.
  unfold jget_or in Hr. rewrite Ha in Hr. cbn in Hr. inv_Ret Hr.
  destruct (without_name_spec _ _ _ E) as (H1 & H2 & H3 & H4). exists a. split_and!; [done..|].
  destruct (_ =? _)%nat eqn:El; injection Hr as <-.
  - apply Nat.eqb_eq in El. left. by rewrite H4.
  - apply Nat.eqb_neq in El. right. split; [lia|done].
Qed.

(** A document without the list is saved as it was: the registration is lost.
    TOML has no way to write an empty array of tables, so this is the state
    that removing the last application leaves. *)
Lemma upsert_lost_without_list b doc name url :
  toml_load b = Ret doc → dget "applications" doc = None →
  _upsert (Some b) name url = Ret (Some (toml_dump doc)).
Proof.
  intros Hd Ha. unfold _upsert, _load_applications. rewrite Hd. cbn [mbind outcome_bind]. by rewrite Ha.
Qed.
End registry_facts.

(** ** The watcher *)

(** What a reader of the event log holds: the url of each registered service. *)
Definition replay_event (services : gmap pystr pystr) (e : service_event) : gmap pystr pystr :=
  match e with
  | ServiceRegistered service url => <[service := url]> services
  | ServiceDeregistered service => delete service services
  end.
Definition replay : list service_event → gmap pystr pystr := foldl replay_event ∅.

(** Every entry's name, when it has one, is a string. *)
Definition named_by_strings (app : dict) : bool :=
  match dget "name" app with None | Some (JStr _) => true | Some _ => false end.

Section watcher_facts.
Context `{JsonRepr}.

(** The services of a list of entries, the last one of a name winning. *)
Definition services (apps : list dict) : gmap pystr pystr := replay (flat_map register_event apps).

(** The loop with events on, over what each turn sees. *)
Fixpoint watch_loop (turns : list (Q * outcome (list dict))) (w : watch) : outcome watch :=
  match turns with
  | [] => Ret w
  | (mtime, apps) :: turns' => w ← watch_turn true mtime apps w; watch_loop turns' w
  end.
(** The entries of the last turn that noticed a change. *)
Fixpoint last_noticed (turns : list (Q * outcome (list dict))) (mtime : Q) (apps : list dict) : list dict :=
  match turns with
  | [] => apps
  | (new_mtime, loaded) :: turns' =>
      if Qeq_bool new_mtime mtime then last_noticed turns' mtime apps
      else match loaded with Ret apps' => last_noticed turns' new_mtime apps' | Raise _ => apps end
  end.

Lemma register_event_cases app :
  register_event app = [] ∨
  ∃ url, field_text "name" app ≠ [] ∧ register_event app = [ServiceRegistered (field_text "name" app) url].
Proof.
  unfold register_event. destruct (_ || _) eqn:E; [by left|right]. eexists. split; [|done].
  apply orb_false_iff in E as [E%bool_decide_eq_false _]. done.
Qed.

Lemma replay_registers apps m :
  foldl replay_event m (flat_map register_event apps) = services apps ∪ m.
Proof.
  unfold services, replay. revert m. induction apps as [|app apps IH] using rev_ind; intros m.
  - cbn. by rewrite (left_id_L ∅ (∪)).
  - rewrite flat_map_app, !foldl_app, IH. cbn [flat_map]. rewrite app_nil_r.
    destruct (register_event_cases app) as [->|(url & _ & ->)]; [done|]. cbn. by rewrite insert_union_l.
Qed.

Lemma services_dom apps : dom (services apps) = list_to_set (current_names apps).
Proof.
  unfold services, replay, current_names. induction apps as [|app apps IH] using rev_ind; [set_solver|].
  rewrite !flat_map_app, foldl_app, list_to_set_app_L, <-IH. cbn [flat_map]. rewrite !app_nil_r.
  destruct (register_event_cases app) as [->|(url & _ & ->)]; cbn; set_solver.
Qed.

Lemma replay_deregisters names m :
  foldl replay_event m (map ServiceDeregistered names) = filter (λ p, p.1 ∉ names) m.
Proof.
  revert m. induction names as [|n names IH]; intros m; cbn.
  - symmetry. apply map_filter_id. intros i x _. cbn. set_solver.
  - rewrite IH. apply map_eq. intros i. rewrite !map_lookup_filter. destruct (decide (i = n)) as [->|Hn].
    + rewrite lookup_delete_eq. cbn. destruct (m !! n); cbn; [|done]. case_guard; set_solver.
    + rewrite lookup_delete_ne by done. destruct (m !! i); cbn; [|done].
      case_guard; case_guard; set_solver.
Qed.

Lemma current_tracked apps :
  Forall (λ app, named_by_strings app = true) apps →
  list_to_set (current_names apps) ⊆@{gset pystr} tracked_names apps.
Proof.
  unfold current_names, tracked_names. induction 1 as [|app apps Happ _ IH]; [done|]. cbn [flat_map].
  rewrite !list_to_set_app_L. apply union_mono; [|done].
  destruct (register_event_cases app) as [->|(url & Hne & ->)]; [set_solver|].
  assert (truthy (jget "name" app) = true) as ->; [|done].
  unfold named_by_strings in Happ. unfold field_text, jget_or in Hne. unfold jget.
  destruct (dget (u "name") app) as [v|]; [|done]. destruct v; try done. cbn in Hne |- *. by destruct s.
Qed.

Lemma noticed_turn_replay apps w :
  dom (replay (log w)) ⊆ previous_app_names w →
  replay (log w ++ _write_events apps (previous_app_names w)) = services apps.
Proof.
  intros Hsub. unfold _write_events, replay. rewrite !foldl_app. fold (replay (log w)).
  rewrite replay_registers, replay_deregisters. apply map_eq. intros i. rewrite map_lookup_filter, lookup_union.
  assert (i ∈ sort_by str_leb (elements (previous_app_names w ∖ list_to_set (current_names apps))) ↔
          i ∈ previous_app_names w ∧ i ∉ dom (services apps)) as Hi.
  { rewrite sort_by_elem, elem_of_elements, services_dom. set_solver. }
  destruct (services apps !! i) as [url|] eqn:Es.
  - assert (i ∈ dom (services apps)) by (by apply elem_of_dom_2 in Es).
    destruct (replay (log w) !! i); cbn; case_guard; tauto.
  - assert (i ∉ dom (services apps)) by (by apply not_elem_of_dom_2).
    destruct (replay (log w) !! i) as [url|] eqn:El; cbn; [|done].
    apply elem_of_dom_2 in El. case_guard; [set_solver|done].
Qed.

Lemma watch_loop_replay turns w w' apps :
  watch_loop turns w = Ret w' → Forall (λ t, ∀ l, t.2 = Ret l → Forall (λ app, named_by_strings app = true) l) turns →
  dom (replay (log w)) ⊆ previous_app_names w → replay (log w) = services apps →
  replay (log w') = services (last_noticed turns (last_mtime w) apps).
Proof.
  revert w apps. induction turns as [|[mtime loaded] turns IH]; intros w apps Hw Hn Hsub Hrep;
    [by injection Hw as <-|].
  apply Forall_cons in Hn as [Hn1 Hn]. cbn [watch_loop last_noticed] in *. unfold watch_turn in Hw.
  destruct (Qeq_bool mtime (last_mtime w)); [by apply (IH w)|].
  destruct loaded as [apps'|]; [|done]. cbn [mbind outcome_bind] in Hw.
  pose proof (noticed_turn_replay apps' w Hsub) as Hturn.
  eapply IH in Hw; [exact Hw|done| |exact Hturn]. cbn [log previous_app_names].
  rewrite Hturn, services_dom. by apply current_tracked, Hn1.
Qed.

(** C18: the event log follows the file, for a watcher that starts with an empty
    log and over versions of the file whose names are strings: whatever changes
    the watcher noticed since, a reader that replays its events holds exactly the
    services the last noticed version of the file registers, each with its url
    there.  A log kept from an earlier run may hold more
    ([restart_deregisters_nothing]), and so may one with names that are no strings
    ([falsy_name_stays]). *)
Theorem log_tracks_applications turns w :
  watch_loop turns start = Ret w →
  Forall (λ t, ∀ l, t.2 = Ret l → Forall (λ app, named_by_strings app = true) l) turns →
  replay (log w) = services (last_noticed turns 0 []).
Proof. intros Hw Hn. by apply (watch_loop_replay turns start w []). Qed.

(** Only deregistrations of names this run has seen are written: what was
    removed while the watcher was down stays registered in the log. *)
Lemma restart_deregisters_nothing apps m :
  ∃ m', foldl replay_event m (_write_events apps (previous_app_names start)) = m' ∧ dom m ⊆ dom m'.
Proof.
  eexists. split; [done|]. unfold _write_events. cbn [previous_app_names start].
  replace (∅ ∖ _) with (∅ : gset pystr) by set_solver. rewrite elements_empty. cbn. rewrite app_nil_r, replay_registers.
  rewrite dom_union. set_solver.
Qed.
End watcher_facts.

(** ** Concrete runs *)
Module RegistryDemo.
Definition web (url : pystr) : json := JObj [(u "name", JStr (u "web")); (u "url", JStr url)].
Definition term : json := JObj [(u "name", JStr (u "terminal")); (u "url", JStr (u "http://t"))].
Definition doc : dict := [(u "applications", JList [web (u "http://a"); term])].
#[export] Instance kit : TomlKit := {|
    toml_load b := match b with [] => Ret [] | _ => Ret doc end;
    toml_dump d := [N.of_nat (length (list_or_empty (jget "applications" d)))] |}.
#[export] Instance repr : JsonRepr := {| json_repr _ := u "?"; bytes_repr _ := u "?" |}.
Definition turns : list (Q * outcome (list dict)) :=
    [(1%Q, Ret [[(u "name", JStr (u "web")); (u "url", JStr (u "http://a"))];
                [(u "name", JStr (u "terminal")); (u "url", JStr (u "http://t"))]]);
     (1%Q, Ret []);
     (2%Q, Ret [[(u "name", JStr (u "web")); (u "url", JStr (u "http://b"))]; [(u "name", JStr (u "new"))]])].

(** [web] moves, [terminal] goes away, and [new] has no url yet. *)
Example log_of_turns :
  (w ← watch_loop turns start; Ret (log w)) =
  Ret [ServiceRegistered (u "web") (u "http://a"); ServiceRegistered (u "terminal") (u "http://t");
       ServiceRegistered (u "web") (u "http://b"); ServiceDeregistered (u "terminal")].
Proof. vm_compute. reflexivity. Qed.

(** An entry named by a falsy number is registered but never deregistered. *)
Example falsy_name_stays :
  (w ← watch_loop [(1%Q, Ret [[(u "name", JInt 0); (u "url", JStr (u "http://a"))]]); (2%Q, Ret [])] start;
   Ret (log w)) = Ret [ServiceRegistered (u "?") (u "http://a")].
Proof. vm_compute. reflexivity. Qed.

(** Removing the last application leaves a file in which nothing can be
    registered any more, when an empty list is written as no list. *)
Example last_removal_is_final :
  let _ := {| toml_load b := match b with [] => Ret [] | _ => Ret [(u "applications", JList [term])] end;
              toml_dump d := match list_or_empty (jget "applications" d) with [] => [] | _ => [1%N] end |} in
  (f ← forward_port true (u "terminal") [] (Some [1%N]); forward_port false (u "web") (u "http://a") f)
  = Ret (Some []).
Proof. vm_compute. reflexivity. Qed.

Lemma upsert_registers_witness :
  ∃ f' apps', _upsert (Some [1%N]) (u "web") (u "http://b") = Ret f' ∧
    f' = Some (toml_dump (dset "applications" (JList apps') doc)) ∧
    url_of (u "web") apps' = Some (JStr (u "http://b")) ∧
    ∀ other, other ≠ u "web" → url_of other apps' = url_of other [web (u "http://a"); term].
Proof.
  destruct (_upsert (Some [1%N]) (u "web") (u "http://b")) as [f'|] eqn:E; [|by vm_compute in E].
  destruct (@upsert_registers kit (Some [1%N]) (u "web") (u "http://b") f' doc [web (u "http://a"); term]
              eq_refl eq_refl E) as [apps' H].
  by exists f', apps'.
Defined.

Lemma remove_unregisters_witness :
  ∃ f' rest, _remove (Some [1%N]) (u "web") = Ret f' ∧ url_of (u "web") rest = None ∧
    ∀ other, other ≠ u "web" → url_of other rest = url_of other [web (u "http://a"); term].
Proof.
  destruct (_remove (Some [1%N]) (u "web")) as [f'|] eqn:E; [|by vm_compute in E].
  destruct (@remove_unregisters kit [1%N] (u "web") f' doc [web (u "http://a"); term] eq_refl eq_refl E)
    as (rest & H1 & H2 & _).
  by exists f', rest.
Defined.

Lemma log_tracks_applications_witness :
  ∃ w, watch_loop turns start = Ret w ∧ replay (log w) = services (last_noticed turns 0 []).
Proof.
  destruct (watch_loop turns start) as [w|] eqn:E; [|by vm_compute in E].
  exists w. split; [done|]. apply (log_tracks_applications turns w E).
  repeat constructor; intros l Hl; injection Hl as <-; repeat constructor.
Defined.
End RegistryDemo.
