(* ===== verification/Github.v ===== *)
(** * pr_review: GitHub access

    [libs/pr_review/src/pr_review/github.py]: the REST and GraphQL helpers over
    the injectable transport [curl], the status summaries of a pull request, its
    changed files, review threads and conversation, and the write-backs.  The
    transport is a parameter: an action on an abstract world that returns bytes
    or raises, as the source's [CurlFn].  [JsonRepr] is Python's [repr] of JSON
    values and of bytes ([PyBytes.v]). *)

From Stdlib Require Import NArith ZArith QArith Lia.
From S2P Require Import Prelude PyStr PyJson PyMonad PyKeyed PyBytes.
From stdpp Require Import options.
#[global] Open Scope nat_scope.
#[local] Open Scope py_scope.

Definition API : pystr := "https://api.github.com".
Definition _STATUS_MARKER : pystr := nl :: u "__HTTP_STATUS__".

(** [s.replace(old, new)] *)
Fixpoint replace_sub (fuel : nat) (old new s : pystr) : pystr :=
  match fuel, s with
  | S f, c :: s' =>
      if startswith old s then new ++ replace_sub f old new (drop (length old) s)
      else c :: replace_sub f old new s'
  | _, _ => s
  end.

(** ** Status of a pull request *)

Definition jeqs_any (v : json) (l : list pystr) : bool := existsb (jeqs v) l.

Record Counts := { success : nat; failure : nat; pending : nat; neutral : nat }.

Definition count_run (counts : Counts) (run : json) : outcome Counts :=
  status ← get "status" run;
  conclusion ← get "conclusion" run;
  Ret (if negb (jeqs status "completed") then
         {| success := success counts; failure := failure counts;
            pending := S (pending counts); neutral := neutral counts |}
       else if jeqs conclusion "success" then
         {| success := S (success counts); failure := failure counts;
            pending := pending counts; neutral := neutral counts |}
       else if jeqs_any conclusion [u "failure"; u "timed_out"; u "cancelled"] then
         {| success := success counts; failure := S (failure counts);
            pending := pending counts; neutral := neutral counts |}
       else
         {| success := success counts; failure := failure counts;
            pending := pending counts; neutral := S (neutral counts) |}).

(** [v > 0] *)
Definition gt0 (v : json) : outcome bool :=
  match v with
  | JNonFinite s => Ret (s =? "Infinity")
  | _ => match num_of v with Some q => Ret (Qltb 0 q) | None => Raise TypeError end
  end.

Definition counts_json (c : Counts) : json :=
  let int n := JInt (Z.of_nat n) in
  JObj [(u "success", int (success c)); (u "failure", int (failure c));
        (u "pending", int (pending c)); (u "neutral", int (neutral c))].

Definition verdict_of (c : Counts) (overall : json) : pystr :=
  if (0 <? failure c)%nat || jeqs overall "failure" then "failing"
  else if (0 <? pending c)%nat || jeqs overall "pending" then "pending"
  else if (0 <? success c)%nat || jeqs overall "success" then "passing"
  else "none".

Definition _ci_verdict (check_runs combined : dict) : outcome json :=
  runs ← iter_json (jget_or "check_runs" (JList []) check_runs);
  counts ← foldO count_run {| success := 0; failure := 0; pending := 0; neutral := 0 |} runs;
  some ← gt0 (jget_or "total_count" (JInt 0) combined);
  let overall := if some : bool then jget "state" combined else JNull in
  Ret (JObj [(u "verdict", JStr (verdict_of counts overall)); (u "counts", counts_json counts)]).

Definition decisive : list pystr := [u "APPROVED"; u "CHANGES_REQUESTED"].

Definition review_step (by_user : list (json * json)) (review : json) : outcome (list (json * json)) :=
  state ← get "state" review;
  user ← get "user" review;
  login ← get "login" (or_empty user);
  if truthy login && jeqs_any state decisive then
    k ← hashable login; Ret (kset k state by_user)
  else Ret by_user.

Definition _review_decision (reviews : list json) : outcome pystr :=
  by_user ← foldO review_step [] reviews;
  let states := map snd by_user in
  Ret (if existsb (λ s, jeqs s "CHANGES_REQUESTED") states then u "changes requested"
       else if existsb (λ s, jeqs s "APPROVED") states then u "approved"
       else match reviews with [] => u "none" | _ => u "commented" end).

(** [(x.get("user") or {}).get("login", dflt)] *)
Definition login_of (dflt : json) (x : json) : outcome json :=
  user ← get "user" x; get_default "login" dflt (or_empty user).

Definition draft_state (x : json) : outcome json :=
  d ← get "draft" x; Ret (JStr (if truthy d then u "draft" else u "ready")).

Definition _summarize_search_item (viewer : pystr) (item : json) : outcome json :=
  url ← sub "repository_url" item;
  repo ← (match url with
          | JStr s => Ret (replace_sub (S (length s)) (API ++ u "/repos/") [] s)
          | _ => Raise AttributeError
          end);
  number ← sub "number" item;
  title ← sub "title" item;
  author ← login_of JNull item;
  state ← draft_state item;
  created ← get "created_at" item;
  updated ← get "updated_at" item;
  comments ← get_default "comments" (JInt 0) item;
  html ← get "html_url" item;
  Ret (JObj [(u "repo", JStr repo); (u "number", number); (u "title", title); (u "author", author);
             (u "is_mine", JBool (jeqs author viewer)); (u "state", state);
             (u "created_at", created); (u "updated_at", updated);
             (u "comments", comments); (u "url", html)]).

(** One row of the changed files. *)
Definition changed_file (entry : json) : outcome json :=
  path ← sub "filename" entry;
  previous ← get "previous_filename" entry;
  status ← sub "status" entry;
  additions ← get_default "additions" (JInt 0) entry;
  deletions ← get_default "deletions" (JInt 0) entry;
  patch ← get "patch" entry;
  let is_binary := match patch with JNull => true | _ => false end
    && negb (jeqs_any status [u "added"; u "removed"; u "renamed"; u "copied"]) in
  Ret (JObj [(u "path", path); (u "previous_path", previous); (u "status", status);
             (u "additions", additions); (u "deletions", deletions); (u "is_binary", JBool is_binary)]).

Record Thread := { th_id : json; th_resolved : bool; th_comment_ids : list json }.

(** [(v.get(k) or {})] *)
Definition sub_or (k : pystr) (v : json) : outcome json := x ← get k v; Ret (or_empty x).
(** [(v.get(k) or [])], iterated *)
Definition items_or (k : pystr) (v : json) : outcome (list json) :=
  x ← get k v; iter_json (jor x (JList [])).

Definition thread_of (node : json) : outcome Thread :=
  comments ← sub_or "comments" node;
  comment_nodes ← items_or "nodes" comments;
  ids ← mapO (λ c, id ← get "databaseId" c;
                   match id with
                   | JNull => Ret None
                   | _ => v ← sub "databaseId" c; Ret (Some v)
                   end) comment_nodes;
  id ← sub "id" node;
  resolved ← get "isResolved" node;
  Ret {| th_id := id; th_resolved := truthy resolved; th_comment_ids := omap (λ x, x) ids |}.

Definition threads_of (data : dict) : outcome (list Thread) :=
  repository ← sub_or "repository" (JObj data);
  pull_request ← sub_or "pullRequest" repository;
  review_threads ← sub_or "reviewThreads" pull_request;
  nodes ← items_or "nodes" review_threads;
  mapO thread_of nodes.

(** The threads by comment id: a later thread wins. *)
Definition index_threads (threads : list Thread) : outcome (list (json * Thread)) :=
  foldO (λ d (th : Thread), foldO (λ d id, k ← hashable id; Ret (kset k th d)) d (th_comment_ids th))
    [] threads.

Definition comment_row (c : json) : outcome json :=
  id ← sub "id" c; user ← login_of (JStr (u "?")) c; created ← sub "created_at" c;
  body ← get "body" c; url ← get "html_url" c;
  Ret (JObj [(u "id", id); (u "user", user); (u "created_at", created);
             (u "body", jor body (JStr [])); (u "url", url)]).

Definition review_row (r : json) : outcome json :=
  id ← sub "id" r; user ← login_of (JStr (u "?")) r; state ← get "state" r;
  submitted ← get "submitted_at" r; body ← get "body" r; url ← get "html_url" r;
  Ret (JObj [(u "id", id); (u "user", user); (u "state", state); (u "submitted_at", submitted);
             (u "body", jor body (JStr [])); (u "url", url)]).

Definition review_comment_row (by_id : list (json * Thread)) (rc : json) : outcome json :=
  id ← sub "id" rc; user ← login_of (JStr (u "?")) rc; path ← sub "path" rc;
  line ← get "line" rc; original ← get "original_line" rc;
  side ← get_default "side" (JStr (u "RIGHT")) rc; body ← get "body" rc;
  created ← get "created_at" rc; url ← get "html_url" rc; hunk ← get "diff_hunk" rc;
  reply ← get "in_reply_to_id" rc;
  k ← hashable id;
  let th := kget k by_id in
  Ret (JObj [(u "id", id); (u "user", user); (u "path", path); (u "line", jor line original);
             (u "side", side); (u "body", jor body (JStr [])); (u "created_at", created);
             (u "url", url); (u "diff_hunk", jor hunk (JStr [])); (u "in_reply_to_id", reply);
             (u "thread_id", match th with Some t => th_id t | None => JNull end);
             (u "is_resolved", JBool match th with Some t => th_resolved t | None => false end)]).

(** The reviews shown: all but the viewer's pending one. *)
Definition submitted (reviews : list json) : outcome (list json) :=
  foldO (λ acc r, s ← get "state" r; Ret (if jeqs s "PENDING" then acc else acc ++ [r])) [] reviews.

Definition conversation_of (issue_comments reviews review_comments : list json)
    (threads : list Thread) : outcome json :=
  by_id ← index_threads threads;
  comments ← mapO comment_row issue_comments;
  shown ← submitted reviews;
  review_rows ← mapO review_row shown;
  rcs ← mapO (review_comment_row by_id) review_comments;
  Ret (JObj [(u "comments", JList comments); (u "reviews", JList review_rows);
             (u "review_comments", JList rcs)]).

Section network.
Context {W : Type} (curl : list pystr → M W bytes) `{PyRepr} `{JsonRepr}.

(** An f-string field. *)
Definition fmt (v : json) : pystr := match v with JStr s => s | _ => json_repr v end.
Definition repr (v : json) : pystr := match v with JStr s => str_repr s | _ => json_repr v end.

Definition url_of (path : pystr) : pystr :=
  if startswith "http" path then path else API ++ u "/" ++ lstrip_char 47 path.

Definition gh_json (path : pystr) : M W json :=
  let url := url_of path in
  raw ← curl [url];
  match loads_bytes raw with
  | Loaded v => mret v
  | BadJson => raise (GitHubError (u "non-JSON response from " ++ url ++ u ": " ++ bytes_repr (take 300 raw)))
  | BadUnicode => raise (ValueError [])
  end.

(** [assert isinstance(v, dict)] / [list] *)
Definition assert_dict (v : json) : M W dict :=
  match v with JObj d => mret d | _ => raise AssertionError end.
Definition assert_list (v : json) : M W (list json) :=
  match v with JList l => mret l | _ => raise AssertionError end.

(** The body and status of a reply with the status marker appended. *)
Definition split_status (out : pystr) : outcome (pystr * Z) :=
  match rfind _STATUS_MARKER out with
  | Some idx =>
      match int_of_str (drop (idx + length _STATUS_MARKER) out) with
      | Some status => Ret (take idx out, status)
      | None => Raise (ValueError [])
      end
  | None => Ret (out, 0%Z)
  end.

Definition request_args (method url : pystr) : list pystr :=
  [u "-sS"; u "-w"; _STATUS_MARKER ++ u "%{http_code}"; u "-X"; method;
   u "-H"; u "Content-Type: application/json"; url].

Definition dump_json (v : json) : pystr := dumps float_repr ", " ": " v.

(** What a reply of [gh_request] means. *)
Definition request_result (method path out : pystr) : outcome dict :=
  bs ← split_status out;
  let '(body_text, status) := bs in
  data ← (if strip body_text =? [] then Ret (JObj [])
          else match loads body_text with Some v => Ret v | None => Raise (ValueError []) end);
  if (300 <=? status)%Z then
    let message := match data with JObj d => jget "message" d | _ => JNull end in
    Raise (GitHubError (u "GitHub " ++ method ++ u " " ++ path ++ u " -> " ++ str_of_Z status ++ u ": "
      ++ (if truthy message then fmt message else take 200 body_text)))
  else Ret (match data with JObj d => d | _ => [(u "result", data)] end).

Definition gh_request (method path : pystr) (payload : option json) : M W dict :=
  let args := request_args method (url_of path) in
  let args := match payload with Some p => u "-d" :: dump_json p :: args | None => args end in
  raw ← curl args;
  lift (request_result method path (decode_replace raw)).

(** [e.get("message", e)] *)
Definition error_message (e : json) : outcome pystr :=
  m ← get_default "message" e e; Ret (fmt m).

Definition graphql_result (out : pystr) : outcome dict :=
  bs ← split_status out;
  let '(body_text, status) := bs in
  body ← (if strip body_text =? [] then Ret (JObj [])
          else match loads body_text with
               | Some v => Ret v
               | None => Raise (GitHubError (u "non-JSON GraphQL response: " ++ str_repr (take 300 body_text)))
               end);
  if (300 <=? status)%Z then
    Raise (GitHubError (u "GitHub GraphQL -> " ++ str_of_Z status ++ u ": " ++ take 200 body_text))
  else
    let errors := match body with JObj d => jget "errors" d | _ => JNull end in
    if truthy errors then
      es ← iter_json errors;
      messages ← mapO error_message es;
      Raise (GitHubError (u "GraphQL errors: " ++ join "; " messages))
    else match (match body with JObj d => jget "data" d | _ => JNull end) with
         | JObj data => Ret data
         | _ => Raise (GitHubError (u "GraphQL response missing data: " ++ take 200 body_text))
         end.

Definition gh_graphql (query : pystr) (variables : dict) : M W dict :=
  let payload := JObj [(u "query", JStr query); (u "variables", JObj variables)] in
  raw ← curl (u "-d" :: dump_json payload :: request_args "POST" (API ++ u "/graphql"));
  lift (graphql_result (decode_replace raw)).

Definition get_viewer : M W json :=
  me ← gh_json "user" ≫= assert_dict;
  let login := jget "login" me in
  if truthy login then mret login
  else raise (GitHubError (u "could not resolve viewer login: " ++ json_repr (JObj me))).

Definition search_url (query viewer : pystr) : pystr :=
  u "search/issues?q=is:open+is:pr+" ++ query ++ u ":" ++ viewer ++ u "&per_page=100".

Definition list_prs (viewer : pystr) : M W json :=
  authored ← gh_json (search_url "author" viewer);
  requested ← gh_json (search_url "review-requested" viewer);
  authored ← assert_dict authored;
  requested ← assert_dict requested;
  lift (
    mine ← iter_json (jget_or "items" (JList []) authored);
    mine ← mapO (_summarize_search_item viewer) mine;
    theirs ← iter_json (jget_or "items" (JList []) requested);
    theirs ← mapO (_summarize_search_item viewer) theirs;
    Ret (JObj [(u "viewer", JStr viewer); (u "authored", JList mine); (u "review_requested", JList theirs)])).

Definition pull_url (repo : pystr) (number : Z) : pystr :=
  u "repos/" ++ repo ++ u "/pulls/" ++ str_of_Z number.

(** The row of a pull request from the four replies. *)
Definition status_row (repo : pystr) (number : Z) (pr : dict) (sha : json)
    (check_runs combined : dict) (reviews : list json) : outcome json :=
  title ← getitem "title" pr;
  author ← (getitem "user" pr ≫= sub "login");
  base ← (getitem "base" pr ≫= sub "ref"); base_sha ← (getitem "base" pr ≫= sub "sha");
  head ← getitem "head" pr; head_ref ← sub "ref" head;
  head_repo ← (sub_or "repo" head ≫= get_default "full_name" (JStr repo));
  created ← getitem "created_at" pr; updated ← getitem "updated_at" pr;
  ci ← _ci_verdict check_runs combined;
  decision ← _review_decision reviews;
  url ← getitem "html_url" pr;
  let count k := jget_or k (JInt 0) pr in
  Ret (JObj [(u "repo", JStr repo); (u "number", JInt number); (u "node_id", jget "node_id" pr);
    (u "title", title); (u "body", jor (jget "body" pr) (JStr [])); (u "author", author);
    (u "state", JStr (if truthy (jget "draft" pr) then u "draft" else u "ready"));
    (u "base", base); (u "base_sha", base_sha); (u "head", head_ref); (u "head_sha", sha);
    (u "head_repo", head_repo); (u "created_at", created); (u "updated_at", updated);
    (u "ci", ci); (u "review_decision", JStr decision);
    (u "has_conflicts", JBool (jeqs (jget "mergeable_state" pr) "dirty"));
    (u "mergeable_state", jget "mergeable_state" pr);
    (u "diffstat", JObj [(u "additions", count "additions"); (u "deletions", count "deletions");
       (u "changed_files", count "changed_files"); (u "commits", count "commits")]);
    (u "comment_counts", JObj [(u "general", count "comments"); (u "line_level", count "review_comments");
       (u "reviews", JInt (Z.of_nat (length reviews)))]);
    (u "url", url)]).

Definition enrich_status (repo : pystr) (number : Z) : M W json :=
  pr ← gh_json (pull_url repo number) ≫= assert_dict;
  sha ← lift (getitem "head" pr ≫= sub "sha");
  let commit := u "repos/" ++ repo ++ u "/commits/" ++ fmt sha in
  check_runs ← gh_json (commit ++ u "/check-runs");
  combined ← gh_json (commit ++ u "/status");
  reviews ← gh_json (pull_url repo number ++ u "/reviews");
  check_runs ← assert_dict check_runs;
  combined ← assert_dict combined;
  reviews ← assert_list reviews;
  lift (status_row repo number pr sha check_runs combined reviews).

(** ** Changed files: pages of 100, at most 30 *)

Definition page_url (repo : pystr) (number : Z) (page : nat) : pystr :=
  pull_url repo number ++ u "/files?per_page=100&page=" ++ str_of_N (N.of_nat page).

Fixpoint list_pages (repo : pystr) (number : Z) (pages : list nat) (files : list json) : M W (list json) :=
  match pages with
  | [] => mret files
  | page :: pages' =>
      chunk ← gh_json (page_url repo number page) ≫= assert_list;
      match chunk with
      | [] => mret files
      | _ =>
          rows ← lift (mapO changed_file chunk);
          if (length chunk <? 100)%nat then mret (files ++ rows)
          else list_pages repo number pages' (files ++ rows)
      end
  end.

Definition list_changed_files (repo : pystr) (number : Z) : M W (list json) :=
  list_pages repo number (seq 1 30) [].

(** ** Review threads and the draft state (GraphQL) *)

Definition lines (l : list pystr) : pystr := nl :: concat (map (λ s, s ++ [nl]) l).

Definition _REVIEW_THREADS_QUERY : pystr := lines
  [u "query($owner: String!, $name: String!, $number: Int!) {";
   u "  repository(owner: $owner, name: $name) {";
   u "    pullRequest(number: $number) {";
   u "      reviewThreads(first: 100) {";
   u "        nodes {";
   u "          id";
   u "          isResolved";
   u "          isCollapsed";
   u "          comments(first: 100) { nodes { databaseId path } }";
   u "        }";
   u "      }";
   u "    }";
   u "  }";
   u "}"].

Definition list_review_threads (repo : pystr) (number : Z) : M W (list Thread) :=
  match split_once 47 repo with
  | None => raise (ValueError [])
  | Some (owner, name) =>
      data ← gh_graphql _REVIEW_THREADS_QUERY
        [(u "owner", JStr owner); (u "name", JStr name); (u "number", JInt number)];
      lift (threads_of data)
  end.

Definition mutation (var field reply : pystr) : pystr := lines
  [u "mutation($" ++ var ++ u ": ID!) {";
   u "  " ++ field ++ u "(input: {" ++ var ++ u ": $" ++ var ++ u "}) {";
   u "    " ++ reply;
   u "  }";
   u "}"].

Definition _RESOLVE_THREAD_MUTATION := mutation "threadId" "resolveReviewThread" "thread { id isResolved }".
Definition _UNRESOLVE_THREAD_MUTATION := mutation "threadId" "unresolveReviewThread" "thread { id isResolved }".
Definition _MARK_READY_MUTATION :=
  mutation "pullRequestId" "markPullRequestReadyForReview" "pullRequest { id isDraft }".
Definition _CONVERT_TO_DRAFT_MUTATION :=
  mutation "pullRequestId" "convertPullRequestToDraft" "pullRequest { id isDraft }".

(** [(data.get(field) or {}).get(reply) or {}] *)
Definition mutation_reply (field reply : pystr) (data : dict) : outcome json :=
  x ← sub_or field (JObj data); sub_or reply x.

Definition resolve_review_thread (thread_id : json) : M W json :=
  data ← gh_graphql _RESOLVE_THREAD_MUTATION [(u "threadId", thread_id)];
  lift (mutation_reply "resolveReviewThread" "thread" data).

Definition unresolve_review_thread (thread_id : json) : M W json :=
  data ← gh_graphql _UNRESOLVE_THREAD_MUTATION [(u "threadId", thread_id)];
  lift (mutation_reply "unresolveReviewThread" "thread" data).

Definition get_pr_node_id (repo : pystr) (number : Z) : M W json :=
  pr ← gh_json (pull_url repo number) ≫= assert_dict;
  let node_id := jget "node_id" pr in
  if truthy node_id then mret node_id
  else raise (GitHubError (u "could not resolve the node id for " ++ repo ++ u "#" ++ str_of_Z number)).

Definition mark_pr_ready (pr_node_id : json) : M W json :=
  data ← gh_graphql _MARK_READY_MUTATION [(u "pullRequestId", pr_node_id)];
  lift (mutation_reply "markPullRequestReadyForReview" "pullRequest" data).

Definition convert_pr_to_draft (pr_node_id : json) : M W json :=
  data ← gh_graphql _CONVERT_TO_DRAFT_MUTATION [(u "pullRequestId", pr_node_id)];
  lift (mutation_reply "convertPullRequestToDraft" "pullRequest" data).

(** ** Conversation and write-backs *)

Definition get_conversation (repo : pystr) (number : Z) : M W json :=
  issue_comments ← gh_json (u "repos/" ++ repo ++ u "/issues/" ++ str_of_Z number ++ u "/comments?per_page=100");
  reviews ← gh_json (pull_url repo number ++ u "/reviews?per_page=100");
  review_comments ← gh_json (pull_url repo number ++ u "/comments?per_page=100");
  issue_comments ← assert_list issue_comments;
  reviews ← assert_list reviews;
  review_comments ← assert_list review_comments;
  threads ← try_except (list_review_threads repo number)
              (λ e, match e with GitHubError _ => Some (mret []) | _ => None end);
  lift (conversation_of issue_comments reviews review_comments threads).

Definition add_issue_comment (repo : pystr) (number : Z) (body : json) : M W dict :=
  gh_request "POST" (u "repos/" ++ repo ++ u "/issues/" ++ str_of_Z number ++ u "/comments")
    (Some (JObj [(u "body", body)])).

Definition delete_issue_comment (repo : pystr) (comment_id : Z) : M W unit :=
  gh_request "DELETE" (u "repos/" ++ repo ++ u "/issues/comments/" ++ str_of_Z comment_id) None;; mret tt.

Definition update_pr (repo : pystr) (number : Z) (fields : dict) : M W dict :=
  let allowed := List.filter (λ kv : pystr * json, kv.1 ∈? [u "title"; u "body"]) fields in
  match allowed with
  | [] => raise (GitHubError "nothing to update (expected title and/or body)")
  | _ => gh_request "PATCH" (pull_url repo number) (Some (JObj allowed))
  end.

Definition set_pr_state (repo : pystr) (number : Z) (state : json) : M W dict :=
  if negb (jeqs_any state [u "open"; u "closed"]) then
    raise (GitHubError (u "invalid state: " ++ repr state ++ u " (expected 'open' or 'closed')"))
  else gh_request "PATCH" (pull_url repo number) (Some (JObj [(u "state", state)])).

Definition merge_pr (repo : pystr) (number : Z) (method : json) : M W dict :=
  if negb (jeqs_any method [u "merge"; u "squash"; u "rebase"]) then
    raise (GitHubError (u "invalid merge method: " ++ repr method))
  else gh_request "PUT" (pull_url repo number ++ u "/merge") (Some (JObj [(u "merge_method", method)])).

Definition review_payload (commit_id body event comments : json) : dict :=
  [(u "commit_id", commit_id); (u "comments", comments)]
  ++ (if truthy body then [(u "body", body)] else [])
  ++ (if truthy event && negb (jeqs event "PENDING_CREATE") then [(u "event", event)] else []).

Definition create_review (repo : pystr) (number : Z) (commit_id body event comments : json) : M W dict :=
  gh_request "POST" (pull_url repo number ++ u "/reviews")
    (Some (JObj (review_payload commit_id body event comments))).

Definition delete_pending_review (repo : pystr) (number review_id : Z) : M W unit :=
  gh_request "DELETE" (pull_url repo number ++ u "/reviews/" ++ str_of_Z review_id) None;; mret tt.

(** ** A file at a commit, through the contents API *)

(** Text, or [None] for a binary file. *)
Definition text_of_bytes (data : bytes) : option pystr :=
  if existsb (N.eqb 0) (take 8000 data) then None else Some (decode_replace data).

Definition decode_content (content : json) : outcome (option pystr) :=
  s ← need_str content;
  match b64decode s with
  | Some data => Ret (text_of_bytes data)
  | None => Raise (ValueError [])
  end.

Definition get_file_at_ref (repo path ref : pystr) : M W (option pystr) :=
  meta ← gh_json (u "repos/" ++ repo ++ u "/contents/" ++ path ++ u "?ref=" ++ ref);
  if match meta with JObj d => jeqs (jget "message" d) "Not Found" | _ => false end then mret None
  else
    meta ← assert_dict meta;
    let content := jget "content" meta in
    if truthy content && jeqs (jget "encoding" meta) "base64" then lift (decode_content content)
    else
      let sha := jget "sha" meta in
      if truthy sha then
        blob ← gh_json (u "repos/" ++ repo ++ u "/git/blobs/" ++ fmt sha) ≫= assert_dict;
        if jeqs (jget "encoding" blob) "base64" && truthy (jget "content" blob) then
          lift (content ← getitem "content" blob; decode_content content)
        else mret None
      else mret None.
End network.

(** ** Facts *)

Lemma rfind_cons_nl p c s :
  (∃ q, p = nl :: q) → c ≠ nl → rfind p (c :: s) = S <$> rfind p s.
Proof.
  intros [q ->] Hc. cbn [rfind]. destruct (rfind (nl :: q) s); [done|].
  assert (startswith (nl :: q) (c :: s) = false) as ->; [|done].
  cbn [startswith]. destruct (N.eqb_spec nl c); [congruence | done].
Qed.

Lemma rfind_none_nl p s : (∃ q, p = nl :: q) → nl ∉ s → rfind p s = None.
Proof.
  intros Hp. induction s as [|c s IH]; intros Hs; [by destruct Hp as [q ->]|].
  apply not_elem_of_cons in Hs as [Hc Hs]. rewrite rfind_cons_nl by done. by rewrite IH.
Qed.

Lemma rfind_S p c s i : rfind p s = Some i → rfind p (c :: s) = Some (S i).
Proof. intros E. cbn [rfind]. by rewrite E. Qed.

(** The status follows the last marker, whatever the body holds. *)
Lemma rfind_marker body ds :
  nl ∉ ds → rfind _STATUS_MARKER (body ++ _STATUS_MARKER ++ ds) = Some (length body).
Proof.
  intros Hds. induction body as [|c body IH].
  - simpl app. assert (nl ∉ u "__HTTP_STATUS__" ++ ds) as Hno.
    { rewrite not_elem_of_app. split; [|done]. intros Hin.
      assert (bool_decide (nl ∈ u "__HTTP_STATUS__") = false) as Hb by (vm_compute; reflexivity).
      by apply bool_decide_eq_false in Hb. }
    change (rfind _STATUS_MARKER (nl :: u "__HTTP_STATUS__" ++ ds) = Some 0). cbn [rfind].
    rewrite (rfind_none_nl _ (u "__HTTP_STATUS__" ++ ds)); [|by eexists|done].
    change (nl :: u "__HTTP_STATUS__" ++ ds) with (_STATUS_MARKER ++ ds). by rewrite startswith_app.
  - by apply rfind_S.
Qed.

Lemma split_status_marker body ds status :
  nl ∉ ds → int_of_str ds = Some status →
  split_status (body ++ _STATUS_MARKER ++ ds) = Ret (body, status).
Proof.
  intros Hds Hint. unfold split_status. rewrite rfind_marker by done.
  rewrite app_assoc, <- length_app, drop_app_length, Hint. by rewrite <- app_assoc, take_app_length.
Qed.

(** *** Check runs *)

Inductive run_class := Passed | Failed | Running | Other.
#[export] Instance run_class_eq_dec : EqDecision run_class.
Proof. solve_decision. Defined.

(** How a check run counts. *)
Definition class_of (run : dict) : run_class :=
  if negb (jeqs (jget "status" run) "completed") then Running
  else if jeqs (jget "conclusion" run) "success" then Passed
  else if jeqs_any (jget "conclusion" run) [u "failure"; u "timed_out"; u "cancelled"] then Failed
  else Other.

Definition count (c : run_class) (runs : list dict) : nat :=
  length (List.filter (λ r, class_of r =? c) runs).

Lemma count_runs runs c0 :
  foldO count_run c0 (map JObj runs) =
  Ret {| success := success c0 + count Passed runs; failure := failure c0 + count Failed runs;
         pending := pending c0 + count Running runs; neutral := neutral c0 + count Other runs |}.
Proof.
  revert c0. induction runs as [|r runs IH]; intros c0.
  - destruct c0. unfold count. simpl. by rewrite !Nat.add_0_r.
  - cbn [map foldO].
    assert (∃ c1, count_run c0 (JObj r) = Ret c1 ∧
      success c1 = success c0 + (if class_of r =? Passed then 1 else 0) ∧
      failure c1 = failure c0 + (if class_of r =? Failed then 1 else 0) ∧
      pending c1 = pending c0 + (if class_of r =? Running then 1 else 0) ∧
      neutral c1 = neutral c0 + (if class_of r =? Other then 1 else 0)) as (c1 & -> & E1 & E2 & E3 & E4).
    { unfold count_run, class_of, get, get_default, mbind, outcome_bind.
      change (jget_or "status" JNull r) with (jget "status" r).
      change (jget_or "conclusion" JNull r) with (jget "conclusion" r).
      destruct (negb (jeqs (jget "status" r) "completed")), (jeqs (jget "conclusion" r) "success"),
        (jeqs_any (jget "conclusion" r) [u "failure"; u "timed_out"; u "cancelled"]); eexists; (split; [reflexivity|]); simpl; lia. }
    unfold mbind, outcome_bind. rewrite IH, E1, E2, E3, E4. unfold count. cbn [List.filter].
    f_equal. f_equal; repeat case_match; simpl; lia.
Qed.

Lemma count_pos c runs : (0 <? count c runs)%nat = true ↔ ∃ r, r ∈ runs ∧ class_of r = c.
Proof.
  rewrite Nat.ltb_lt. unfold count. induction runs as [|r runs IH]; simpl.
  - split; [lia|]. intros (r & Hr & _). inv Hr.
  - case_bool_decide as E; simpl.
    + split; [|lia]. intros _. exists r. split; [left | done].
    + rewrite IH. split; intros (r' & Hr & Hc); exists r'; (split; [|done]); [by right|].
      apply elem_of_cons in Hr as [->|Hr]; [done|done].
Qed.

(** *** Reviews *)

(** A review that decides: its author and state. *)
Definition decides (review : dict) : option (pystr * pystr) :=
  state ← as_str (jget "state" review);
  login ← (as_dict (jget "user" review) ≫= λ user, as_str (jget "login" user));
  if (state ∈? decisive) && (login <>? []) then Some (login, state) else None.

(** Reviews as GitHub sends them: the author is absent or has a login name. *)
Definition review_ok (review : dict) : bool :=
  match jget "user" review with
  | JNull => true
  | JObj user => match jget "login" user with JStr _ | JNull => true | _ => false end
  | _ => false
  end.

(** The last decisive state of [login]. *)
Definition last_state (login : pystr) (reviews : list dict) : option pystr :=
  snd <$> last (List.filter (λ d, d.1 =? login) (omap decides reviews)).

Definition str_keys {V} (d : list (json * V)) : Prop :=
  ∀ k v, (k, v) ∈ d → ∃ s, k = JStr s.

Lemma str_keys_kset {V} k (v : V) d : str_keys d → str_keys (kset (JStr k) v d).
Proof.
  intros Hd. induction d as [|[k0 v0] d IH]; simpl.
  - intros k' v' Hin. apply list_elem_of_singleton in Hin. simplify_eq. eauto.
  - assert (str_keys d) as Hd' by (intros ???; eapply Hd; by right).
    case_match; intros k' v' Hin; apply elem_of_cons in Hin as [Hin|Hin]; simplify_eq;
      try (eapply Hd; by left); [by eapply Hd'|by eapply IH].
Qed.

(** Every value of the table is that of one of its keys, found first. *)
Lemma kset_NoDup {V} k (v : V) d :
  str_keys d → NoDup (map fst d) → NoDup (map fst (kset (JStr k) v d)).
Proof.
  induction d as [|[k0 v0] d IH]; intros Hk Hd; simpl; [repeat constructor; set_solver|].
  simpl in Hd. apply NoDup_cons in Hd as [Hk0 Hd].
  assert (str_keys d) as Hk' by (intros ???; eapply Hk; by right).
  destruct (Hk k0 v0) as [s ->]; [left|]. simpl.
  case_bool_decide as E; simpl; [by constructor|]. constructor; [|by apply IH].
  intros Hin. apply Hk0. clear -Hin E Hk'. induction d as [|[k1 v1] d IH]; simpl in *.
  - apply list_elem_of_singleton in Hin. congruence.
  - case_match; simpl in *; [done|]. apply elem_of_cons in Hin as [->|Hin]; [left|right].
    apply IH; [|done]. intros ???; eapply Hk'; by right.
Qed.

Lemma kget_elem {V} s (v : V) d :
  NoDup (map fst d) → (JStr s, v) ∈ d → kget (JStr s) d = Some v.
Proof.
  induction d as [|[k0 v0] d IH]; intros Hd Hin; [inv Hin|]. simpl in *.
  apply NoDup_cons in Hd as [Hk0 Hd]. apply elem_of_cons in Hin as [[= <- <-]|Hin].
  - simpl. by rewrite bool_decide_eq_true_2.
  - destruct k0 as [| | | | |s'| |]; try (by apply IH).
    rewrite bool_decide_eq_false_2; [by apply IH|]. intros <-. apply Hk0.
    apply list_elem_of_fmap. by exists (JStr s, v).
Qed.

Lemma kget_in {V} s (v : V) d : kget (JStr s) d = Some v → v ∈ map snd d.
Proof.
  induction d as [|[k0 v0] d IH]; simpl; [done|]. case_match; intros E; simplify_eq; [left|right]; auto.
Qed.

Lemma jeqs_any_spec v l :
  jeqs_any v l = match as_str v with Some s => s ∈? l | None => false end.
Proof.
  unfold jeqs_any. destruct v as [| | | | |s| |]; simpl; try (induction l; simpl; done).
  induction l as [|x l IH]; simpl; [done|]. rewrite IH.
  destruct (bool_decide_reflect (s = x)) as [->|Hne]; simpl.
  - symmetry. apply bool_decide_eq_true. left.
  - apply bool_decide_ext. rewrite elem_of_cons. naive_solver.
Qed.

Lemma or_empty_obj d : or_empty (JObj d) = JObj d.
Proof. by destruct d. Qed.

Lemma review_step_ok d r :
  review_ok r = true →
  review_step d (JObj r) =
  Ret match decides r with Some (login, st) => kset (JStr login) (JStr st) d | None => d end.
Proof.
  unfold review_ok, review_step, decides, get, get_default, mbind, outcome_bind.
  change (jget_or "state" JNull r) with (jget "state" r).
  change (jget_or "user" JNull r) with (jget "user" r).
  rewrite jeqs_any_spec. intros Hok.
  destruct (jget "user" r) as [| | | | | | |user]; try done.
  { change (or_empty JNull) with (JObj []). simpl. by destruct (as_str (jget "state" r)). }
  rewrite or_empty_obj. change (jget_or "login" JNull user) with (jget "login" user).
  destruct (as_str (jget "state" r)) as [st|] eqn:Est; simpl;
    destruct (jget "login" user) as [| | | | |login| |]; try done; simpl.
  - rewrite andb_comm. destruct (jget "state" r); simplify_eq/=.
    by destruct ((st ∈? decisive) && (login <>? [])).
  - by rewrite andb_false_r.
Qed.

Lemma last_state_snoc login rs r :
  last_state login (rs ++ [r]) =
  match decides r with
  | Some (l, st) => if l =? login then Some st else last_state login rs
  | None => last_state login rs
  end.
Proof.
  unfold last_state. rewrite omap_app, filter_app_bool. simpl.
  destruct (decides r) as [[l st]|]; simpl; [|by rewrite app_nil_r].
  case_bool_decide; simpl; [by rewrite last_snoc | by rewrite app_nil_r].
Qed.

(** The table of the loop holds each user's last decisive state. *)
Lemma review_table rs :
  forallb review_ok rs = true →
  ∃ d, foldO review_step [] (map JObj rs) = Ret d
    ∧ str_keys d ∧ NoDup (map fst d)
    ∧ (∀ login, kget (JStr login) d = JStr <$> last_state login rs).
Proof.
  induction rs as [|r rs IH] using rev_ind; intros Hok.
  { exists []. split_and!; [done | | constructor | done]. intros k v Hin. inv Hin. }
  rewrite forallb_app in Hok. apply andb_true_iff in Hok as [Hok Hr].
  simpl in Hr. rewrite andb_true_r in Hr.
  destruct (IH Hok) as (d & E & Hk & Hnd & Hget).
  rewrite map_app, foldO_app, E. unfold mbind, outcome_bind. cbn [map foldO].
  rewrite review_step_ok by done. unfold mbind, outcome_bind. eexists. split; [reflexivity|].
  destruct (decides r) as [[login st]|] eqn:Ed.
  - split_and!; [by apply str_keys_kset | by apply kset_NoDup |].
    intros login'. rewrite kget_kset, last_state_snoc, Ed, Hget. cbn [key_eqb].
    destruct (bool_decide_reflect (login' = login)) as [->|]; [by rewrite bool_decide_eq_true_2|].
    by rewrite bool_decide_eq_false_2.
  - split_and!; [done..|]. intros login'. by rewrite last_state_snoc, Ed.
Qed.

Lemma table_has (d : list (json * json)) rs st :
  str_keys d → NoDup (map fst d) → (∀ login, kget (JStr login) d = JStr <$> last_state login rs) →
  existsb (λ s, jeqs s st) (map snd d) = true ↔ ∃ login, last_state login rs = Some st.
Proof.
  intros Hk Hnd Hget. rewrite existsb_elem. split.
  - intros (v & ([k v'] & -> & Hin)%list_elem_of_fmap & Hv). destruct (Hk _ _ Hin) as [s ->].
    pose proof (kget_elem _ _ _ Hnd Hin) as E. rewrite Hget in E. exists s. simpl in Hv.
    destruct (last_state s rs); simplify_eq/=. apply bool_decide_eq_true in Hv. congruence.
  - intros [login E]. exists (JStr st). split; [|simpl; by apply bool_decide_eq_true_2].
    apply (kget_in login). by rewrite Hget, E.
Qed.

(** *** Pages *)
Section pages.
Context {W : Type} (curl : list pystr → M W bytes) `{PyRepr} `{JsonRepr}.

Lemma gh_json_loads path w raw w' v :
  curl [url_of path] w = (Ret raw, w') → loads_bytes raw = Loaded v →
  gh_json curl path w = (Ret v, w').
Proof. intros E Ev. unfold gh_json. rewrite (M_bind_ret _ _ _ _ _ E). by rewrite Ev. Qed.

(** GitHub's answer to the request for page [page] of the files [entries]. *)
Definition serves_page (repo : pystr) (number : Z) (entries : list json) (page : nat) : Prop :=
  ∀ w, ∃ raw w', curl [url_of (page_url repo number page)] w = (Ret raw, w')
    ∧ loads_bytes raw = Loaded (JList (take 100 (drop (100 * (page - 1)) entries))).

Lemma list_pages_spec repo number entries rows n k w :
  (∀ page, k < page ≤ k + n → serves_page repo number entries page) →
  mapO changed_file entries = Ret rows →
  (list_pages curl repo number (seq (S k) n) (take (100 * k) rows) w).1
  = Ret (take (100 * (k + n)) rows).
Proof.
  intros Hs Hrows. revert k w Hs. induction n as [|n IH]; intros k w Hs;
    cbn [seq list_pages].
  { rewrite Nat.add_0_r. reflexivity. }
  destruct (Hs (S k) ltac:(lia) w) as (raw & w' & Ecurl & Eload).
  replace (100 * (S k - 1)) with (100 * k) in Eload by lia.
  assert (∀ i j, mapO changed_file (take i (drop j entries)) = Ret (take i (drop j rows))) as Hm.
  { clear -Hrows. revert rows Hrows. induction entries as [|e es IHe]; intros rows Hrows i j; simpl in *.
    - simplify_eq. by rewrite !drop_nil, !take_nil.
    - unfold mbind, outcome_bind in Hrows. destruct (changed_file e) as [r|] eqn:Er; [|done].
      destruct (mapO changed_file es) as [rs|] eqn:Ers; [|done]. simplify_eq.
      destruct j as [|j]; simpl; [|by apply IHe].
      destruct i as [|i]; simpl; [done|]. rewrite Er. simpl.
      specialize (IHe rs eq_refl i 0). rewrite !drop_0 in IHe. by rewrite IHe. }
  assert (length entries = length rows) as Hlen.
  { specialize (Hm (length entries) 0). rewrite !drop_0, take_ge in Hm by lia.
    clear -Hrows. revert rows Hrows. induction entries as [|e es IHe]; intros rows Hrows; simpl in *.
    - by simplify_eq.
    - unfold mbind, outcome_bind in Hrows. destruct (changed_file e); [|done].
      destruct (mapO changed_file es) as [rs|] eqn:Ers; [|done]. simplify_eq. simpl. f_equal. by apply IHe. }
  remember (take 100 (drop (100 * k) entries)) as chunk eqn:Edef.
  assert ((gh_json curl (page_url repo number (S k)) ≫= assert_list) w = (Ret chunk, w')) as Eg.
  { erewrite M_bind_ret; [|by eapply gh_json_loads]. done. }
  rewrite (M_bind_ret _ _ _ _ _ Eg).
  assert (take (100 * k) rows ++ take 100 (drop (100 * k) rows) = take (100 * S k) rows) as Happ.
  { rewrite take_take_drop. f_equal. lia. }
  assert (length chunk = min 100 (length rows - 100 * k)) as Hc.
  { by rewrite Edef, length_take, length_drop, Hlen. }
  destruct chunk as [|e chunk'].
  { cbn [length] in Hc. rewrite !take_ge by lia. reflexivity. }
  assert (mapO changed_file (e :: chunk') = Ret (take 100 (drop (100 * k) rows))) as Hmap
    by (rewrite Edef; apply Hm).
  unfold lift, mbind, M_bind. rewrite Hmap, Happ.
  destruct (Nat.ltb_spec (length (e :: chunk')) 100) as [Hlt|Hge].
  - rewrite !take_ge by lia. reflexivity.
  - rewrite IH; [|intros page Hp; apply Hs; lia]. do 2 f_equal. lia.
Qed.
End pages.

(** *** Threads *)

(** The comment [k] belongs to the thread. *)
Definition has_comment (k : json) (th : Thread) : bool := existsb (key_eqb k) (th_comment_ids th).
Definition hashable_ids (th : Thread) : bool :=
  forallb (λ k, is_Ret (hashable k)) (th_comment_ids th).

Lemma index_ids k th ids (d : list (json * Thread)) :
  forallb (λ k, is_Ret (hashable k)) ids = true →
  ∃ d', foldO (λ d id, k ← hashable id; Ret (kset k th d)) d ids = Ret d'
    ∧ kget k d' = if existsb (key_eqb k) ids then Some th else kget k d.
Proof.
  revert d. induction ids as [|i ids IH]; intros d; simpl; [by exists d|].
  intros [Hi Hids]%andb_true_iff. rewrite (hashable_Ret i Hi). unfold mbind, outcome_bind.
  destruct (IH (kset i th d) Hids) as (d' & E & Hg). exists d'. split; [exact E|].
  rewrite Hg, kget_kset. by destruct (key_eqb k i), (existsb (key_eqb k) ids).
Qed.

Lemma index_threads_ok k threads :
  forallb hashable_ids threads = true →
  ∃ d, index_threads threads = Ret d ∧ kget k d = last (List.filter (has_comment k) threads).
Proof.
  unfold index_threads. induction threads as [|th threads IH] using rev_ind; intros Hok.
  { by exists []. }
  rewrite forallb_app in Hok. apply andb_true_iff in Hok as [Hok Hth]. simpl in Hth.
  rewrite andb_true_r in Hth. destruct (IH Hok) as (d & E & Hg).
  rewrite foldO_app, E. unfold mbind, outcome_bind. cbn [foldO].
  destruct (index_ids k th (th_comment_ids th) d Hth) as (d' & E' & Hg').
  exists d'. unfold mbind, outcome_bind in E'. rewrite E'. unfold mbind, outcome_bind. split; [done|].
  rewrite Hg', Hg, filter_app_bool. unfold has_comment at 3. simpl.
  unfold has_comment at 2. destruct (existsb (key_eqb k) (th_comment_ids th)).
  - by rewrite last_snoc.
  - by rewrite app_nil_r.
Qed.

(** ** Properties *)

(** The CI verdict is failing exactly when some check run failed, timed out
    or was cancelled, or the legacy status (counted only when statuses exist)
    failed; otherwise pending when something is unfinished, otherwise passing
    when something succeeded; and the counts partition the runs. *)
Theorem ci_verdict_spec check_runs runs combined total :
  jget_or "check_runs" (JList []) check_runs = JList (map JObj runs) →
  jget_or "total_count" (JInt 0) combined = JInt total →
  let has c := ∃ r, r ∈ runs ∧ class_of r = c in
  let legacy (s : pystr) := (0 < total)%Z ∧ jget "state" combined = JStr s in
  ∃ v c, _ci_verdict check_runs combined
      = Ret (JObj [(u "verdict", JStr v); (u "counts", counts_json c)])
    ∧ success c + failure c + pending c + neutral c = length runs
    ∧ (v = u "failing" ↔ has Failed ∨ legacy "failure")
    ∧ (v = u "pending" ↔ ¬ (has Failed ∨ legacy "failure") ∧ (has Running ∨ legacy "pending"))
    ∧ (v = u "passing" ↔ ¬ (has Failed ∨ legacy "failure") ∧ ¬ (has Running ∨ legacy "pending")
                          ∧ (has Passed ∨ legacy "success")).
Proof.
  intros Hruns Htotal has legacy. unfold _ci_verdict. rewrite Hruns, Htotal.
  unfold mbind, outcome_bind. cbn [iter_json]. rewrite count_runs.
  assert (gt0 (JInt total) = Ret (0 <? total)%Z) as ->.
  { unfold gt0. cbn [num_of]. f_equal. apply eq_true_iff_eq. rewrite Qltb_lt, Z.ltb_lt.
    change 0%Q with (inject_Z 0). by rewrite <- Zlt_Qlt. }
  set (c := {| success := _ |}).
  set (overall := if (0 <? total)%Z then jget "state" combined else JNull).
  assert (∀ s, jeqs overall s = true ↔ legacy s) as Hleg.
  { intros s. unfold overall, legacy. destruct (Z.ltb_spec 0 total) as [Hlt|Hge].
    - destruct (jget "state" combined); simpl; try (split; [done | by intros [_ ?]]).
      rewrite bool_decide_eq_true. naive_solver.
    - simpl. split; [done|lia]. }
  assert (∀ k n, n = 0 + count k runs → (0 <? n)%nat = true ↔ has k) as Hhas.
  { intros k n ->. apply count_pos. }
  exists (verdict_of c overall), c. split; [done|].
  split.
  { clear. unfold c. simpl. unfold count. induction runs as [|r runs IH]; simpl; [done|].
    destruct (class_of r); repeat case_bool_decide; simplify_eq/=; lia. }
  pose proof (Hhas Failed (failure c) eq_refl) as HF. pose proof (Hhas Running (pending c) eq_refl) as HP.
  pose proof (Hhas Passed (success c) eq_refl) as HS.
  rewrite <- HF, <- HP, <- HS, <- !Hleg, <- !orb_true_iff. unfold verdict_of.
  destruct ((0 <? failure c)%nat || jeqs overall "failure"),
    ((0 <? pending c)%nat || jeqs overall "pending"),
    ((0 <? success c)%nat || jeqs overall "success"); split_and!; (split; [vm_compute; naive_solver | naive_solver]).
Qed.

(** The review decision follows each user's last approving or rejecting
    review: one outstanding rejection blocks, otherwise one approval approves,
    otherwise any review at all counts as commented. *)
Theorem review_decision_spec reviews :
  forallb review_ok reviews = true →
  let some st := ∃ login, last_state login reviews = Some st in
  ∃ v, _review_decision (map JObj reviews) = Ret v
    ∧ (v = u "changes requested" ↔ some (u "CHANGES_REQUESTED"))
    ∧ (v = u "approved" ↔ ¬ some (u "CHANGES_REQUESTED") ∧ some (u "APPROVED"))
    ∧ (v = u "commented" ↔ ¬ some (u "CHANGES_REQUESTED") ∧ ¬ some (u "APPROVED") ∧ reviews ≠ [])
    ∧ (v = u "none" ↔ reviews = []).
Proof.
  intros Hok some. destruct (review_table reviews Hok) as (d & E & Hk & Hnd & Hget).
  unfold _review_decision. rewrite E. unfold mbind, outcome_bind.
  pose proof (table_has d reviews (u "CHANGES_REQUESTED") Hk Hnd Hget) as HC.
  pose proof (table_has d reviews (u "APPROVED") Hk Hnd Hget) as HA.
  fold (some (u "CHANGES_REQUESTED")) in HC. fold (some (u "APPROVED")) in HA.
  assert (reviews = [] → ¬ some (u "CHANGES_REQUESTED") ∧ ¬ some (u "APPROVED")) as Hnil.
  { intros ->. split; by intros [l El]. }
  eexists. split; [reflexivity|]. rewrite <- HC, <- HA in *.
  destruct (existsb (λ s, jeqs s "CHANGES_REQUESTED") (map snd d)),
    (existsb (λ s, jeqs s "APPROVED") (map snd d)), reviews as [|r rs]; simpl;
    split_and!; (split; [vm_compute; naive_solver | naive_solver]).
Qed.

(** Whatever the body of a reply contains, the marker included, the helper
    splits it from the status code that follows the last marker. *)
Theorem split_status_last_marker body digits status :
  nl ∉ digits → int_of_str digits = Some status →
  split_status (body ++ _STATUS_MARKER ++ digits) = Ret (body, status).
Proof. apply split_status_marker. Qed.

Section net_properties.
Context {W : Type} (curl : list pystr → M W bytes) `{PyRepr} `{JsonRepr}.

(** A write request raises [GitHubError] for every status from 300 on whose
    body is JSON, and returns the parsed object otherwise. *)
Theorem gh_request_status method path payload raw digits status body d w w' :
  (∀ args, curl args w = (Ret raw, w')) →
  decode_replace raw = body ++ _STATUS_MARKER ++ digits →
  nl ∉ digits → int_of_str digits = Some status → loads body = Some (JObj d) → strip body ≠ [] →
  ∃ r, gh_request curl method path payload w = (r, w') ∧
    if (300 <=? status)%Z then ∃ msg, r = Raise (GitHubError msg) else r = Ret d.
Proof.
  intros Hcurl Hraw Hnl Hint Hbody Hstrip. unfold gh_request.
  erewrite M_bind_ret; [|apply Hcurl]. unfold lift. eexists. split; [reflexivity|].
  rewrite Hraw. unfold request_result. rewrite split_status_marker with (status := status) by done.
  unfold mbind, outcome_bind. rewrite bool_decide_eq_false_2 by done. rewrite Hbody.
  destruct (300 <=? status)%Z; eauto.
Qed.

(** The files of a pull request are listed completely and in order, through
    however many pages, up to the 3000 files GitHub reports. *)
Theorem changed_files_complete repo number entries rows w :
  (∀ page, 0 < page ≤ 30 → serves_page curl repo number entries page) →
  mapO changed_file entries = Ret rows →
  (list_changed_files curl repo number w).1 = Ret (take 3000 rows).
Proof.
  intros Hs Hrows. unfold list_changed_files.
  pose proof (list_pages_spec curl repo number entries rows 30 0 w) as HL.
  change (100 * 0) with 0 in HL. rewrite take_0 in HL. apply HL; [|done].
  intros page Hp. apply Hs. lia.
Qed.

(** When the thread state cannot be read the conversation is still returned,
    every comment unresolved and without a thread. *)
Theorem conversation_degrades repo number w msg ic rv rc w1 w2 w3 w4 :
  (gh_json curl (u "repos/" ++ repo ++ u "/issues/" ++ str_of_Z number ++ u "/comments?per_page=100")) w
    = (Ret (JList ic), w1) →
  (gh_json curl (pull_url repo number ++ u "/reviews?per_page=100")) w1 = (Ret (JList rv), w2) →
  (gh_json curl (pull_url repo number ++ u "/comments?per_page=100")) w2 = (Ret (JList rc), w3) →
  list_review_threads curl repo number w3 = (Raise (GitHubError msg), w4) →
  get_conversation curl repo number w = (conversation_of ic rv rc [], w4).
Proof.
  intros E1 E2 E3 E4. unfold get_conversation.
  rewrite (M_bind_ret _ _ _ _ _ E1), (M_bind_ret _ _ _ _ _ E2), (M_bind_ret _ _ _ _ _ E3).
  do 3 (erewrite M_bind_ret; [|reflexivity]).
  erewrite M_bind_ret; [reflexivity|]. unfold try_except. by rewrite E4.
Qed.

(** An edit that names neither title nor body, a state other than open and
    closed, and an unknown merge method are refused before any request. *)
Theorem write_guards repo number w :
  (∀ fields, (∀ k v, (k, v) ∈ fields → k ≠ u "title" ∧ k ≠ u "body") →
     ∃ msg, update_pr curl repo number fields w = (Raise (GitHubError msg), w))
  ∧ (∀ state, state ≠ JStr (u "open") → state ≠ JStr (u "closed") →
     ∃ msg, set_pr_state curl repo number state w = (Raise (GitHubError msg), w))
  ∧ (∀ m, m ≠ JStr (u "merge") → m ≠ JStr (u "squash") → m ≠ JStr (u "rebase") →
     ∃ msg, merge_pr curl repo number m w = (Raise (GitHubError msg), w)).
Proof.
  assert (∀ v s, v ≠ JStr s → jeqs v s = false) as Hne.
  { intros v s Hv. destruct v; simpl; try done. apply bool_decide_eq_false. congruence. }
  split; [|split].
  - intros fields Hf. unfold update_pr.
    assert (List.filter (λ kv : pystr * json, kv.1 ∈? [u "title"; u "body"]) fields = []) as ->; [|by eexists].
    induction fields as [|[k v] fields IH]; [done|]. simpl.
    destruct (Hf k v) as [H1 H2]; [left|].
    rewrite bool_decide_eq_false_2 by (rewrite !elem_of_cons, elem_of_nil; naive_solver).
    apply IH. intros ???. eapply Hf. by right.
  - intros state H1 H2. unfold set_pr_state, jeqs_any. simpl. rewrite !Hne by done. by eexists.
  - intros m H1 H2 H3. unfold merge_pr, jeqs_any. simpl. rewrite !Hne by done. by eexists.
Qed.
End net_properties.

(** A review comment is joined to the last thread that lists its id, and to
    none exactly when no thread does. *)
Theorem thread_join k threads :
  forallb hashable_ids threads = true →
  ∃ by_id, index_threads threads = Ret by_id
    ∧ kget k by_id = last (List.filter (has_comment k) threads)
    ∧ (kget k by_id = None ↔ ∀ th, th ∈ threads → has_comment k th = false).
Proof.
  intros Hok. destruct (index_threads_ok k threads Hok) as (d & E & Hg). exists d. split_and!; [done..|].
  rewrite Hg, last_None. split.
  - intros Hf th Hth. destruct (has_comment k th) eqn:Ek; [|done].
    assert (th ∈ List.filter (has_comment k) threads) as Hin.
    { apply list_elem_of_In, filter_In. split; [by apply list_elem_of_In | done]. }
    rewrite Hf in Hin. inv Hin.
  - intros Hno. clear -Hno. induction threads as [|th threads IH]; [done|]. simpl.
    rewrite Hno by left. apply IH. intros. apply Hno. by right.
Qed.

(** ** Concrete runs *)
Module Demo.
#[export] Instance repr : PyRepr := {| str_repr s := s; float_repr _ := [] |}.
#[export] Instance jrepr : JsonRepr := {| json_repr _ := []; bytes_repr _ := [] |}.

(** A transport that always gives the same reply. *)
Definition always (reply : pystr) : list pystr → M unit bytes := λ _, mret reply.

Definition reply (body code : pystr) : pystr := body ++ _STATUS_MARKER ++ code.

Definition run (status conclusion : pystr) : dict :=
  [(u "status", JStr status); (u "conclusion", JStr conclusion)].
Definition review (login state : pystr) : dict :=
  [(u "user", JObj [(u "login", JStr login)]); (u "state", JStr state)].
Definition entry : json := JObj [(u "filename", JStr (u "a.py")); (u "status", JStr (u "modified"))].

(** One changed file on the first page, nothing on the others. *)
Definition one_file : list pystr → M unit bytes := λ args,
  mret (if args =? [url_of (page_url "o/r" 7 1)]
        then bq "[{`filename`: `a.py`, `status`: `modified`}]" else u "[]").
End Demo.
Import Demo.

(** An error reply that is not JSON, such as a gateway's HTML page, makes a
    write request raise a bare [ValueError] instead of [GitHubError]; the
    GraphQL helper turns the same reply into [GitHubError]. *)
Theorem html_error_not_github_error :
  let html := reply "<html>bad gateway</html>" "502" in
  (gh_request (always html) "PATCH" "repos/o/r/pulls/1" None tt).1 = Raise (ValueError [])
  ∧ ∃ msg, (gh_graphql (always html) "q" [] tt).1 = Raise (GitHubError msg).
Proof. vm_compute. split; [reflexivity | by eexists]. Qed.

Lemma ci_verdict_witness :
  ∃ v c, _ci_verdict [(u "check_runs", JList (map JObj [run "completed" "success"; run "completed" "cancelled"]))] []
    = Ret (JObj [(u "verdict", JStr v); (u "counts", counts_json c)]) ∧ v = u "failing".
Proof.
  destruct (ci_verdict_spec [(u "check_runs", JList (map JObj [run "completed" "success"; run "completed" "cancelled"]))]
    [run "completed" "success"; run "completed" "cancelled"] [] 0 eq_refl eq_refl) as (v & c & E & _ & Hf & _).
  exists v, c. split; [exact E|]. apply Hf. left. exists (run "completed" "cancelled").
  split; [right; left | vm_compute; reflexivity].
Defined.

Lemma review_decision_witness :
  ∃ v, _review_decision (map JObj [review "a" "CHANGES_REQUESTED"; review "a" "APPROVED"]) = Ret v
    ∧ v ≠ u "none".
Proof.
  destruct (review_decision_spec [review "a" "CHANGES_REQUESTED"; review "a" "APPROVED"]
    ltac:(vm_compute; reflexivity)) as (v & E & _ & _ & _ & Hn).
  exists v. split; [exact E|]. intros Hv. by apply Hn in Hv.
Defined.

Lemma split_status_witness :
  split_status (reply (reply "x" "1") "201") = Ret (reply "x" "1", 201%Z).
Proof.
  apply (split_status_last_marker (reply "x" "1") "201" 201%Z).
  - apply (bool_decide_unpack _). vm_compute. exact I.
  - vm_compute. reflexivity.
Defined.

Lemma gh_request_status_witness :
  ∃ r, gh_request (always (reply (bq "{`message`: `no`}") "404")) "PATCH" "x" None tt = (r, tt)
    ∧ ∃ msg, r = Raise (GitHubError msg).
Proof.
  exact (gh_request_status (always (reply (bq "{`message`: `no`}") "404")) "PATCH" "x" None
    (reply (bq "{`message`: `no`}") "404") "404" 404%Z (bq "{`message`: `no`}")
    [(u "message", JStr (u "no"))] tt tt (λ _, eq_refl)
    ltac:(vm_compute; reflexivity) ltac:(apply (bool_decide_unpack _); vm_compute; exact I)
    ltac:(vm_compute; reflexivity) ltac:(vm_compute; reflexivity)
    ltac:(apply (bool_decide_unpack _); vm_compute; exact I)).
Defined.

Lemma changed_files_witness :
  (list_changed_files one_file "o/r" 7 tt).1
  = Ret [JObj [(u "path", JStr (u "a.py")); (u "previous_path", JNull); (u "status", JStr (u "modified"));
               (u "additions", JInt 0); (u "deletions", JInt 0); (u "is_binary", JBool true)]].
Proof.
  refine (changed_files_complete one_file "o/r" 7 [entry] _ tt _ ltac:(vm_compute; reflexivity)).
  intros page Hp w. do 31 (destruct page as [|page]; [first [exfalso; lia |
    eexists _, w; split; [reflexivity | vm_compute; reflexivity]]|]). exfalso. lia.
Defined.

Lemma conversation_witness :
  ∃ msg w, list_review_threads (always "[]") "o/r" 7 tt = (Raise (GitHubError msg), w)
    ∧ get_conversation (always "[]") "o/r" 7 tt = (conversation_of [] [] [] [], w).
Proof.
  eexists _, tt. split; [vm_compute; reflexivity|].
  eapply (conversation_degrades (always "[]") "o/r" 7 tt _ [] [] [] tt tt tt tt);
    vm_compute; reflexivity.
Defined.

Lemma write_guards_witness :
  ∃ msg, merge_pr (always []) "o/r" 7 (JStr (u "fast-forward")) tt = (Raise (GitHubError msg), tt).
Proof.
  apply (write_guards (always []) "o/r" 7 tt); apply (bool_decide_unpack (_ ≠ _)) || (intros [=]; done).
Defined.

Lemma thread_join_witness :
  ∃ by_id, index_threads [{| th_id := JNull; th_resolved := true; th_comment_ids := [JInt 5] |}] = Ret by_id
    ∧ kget (JInt 5) by_id = Some {| th_id := JNull; th_resolved := true; th_comment_ids := [JInt 5] |}.
Proof.
  destruct (thread_join (JInt 5) [{| th_id := JNull; th_resolved := true; th_comment_ids := [JInt 5] |}]
    eq_refl) as (d & E & Hg & _).
  exists d. split; [exact E|]. rewrite Hg. vm_compute. reflexivity.
Defined.
