(* ===== verification/GithubTree.v ===== *)
(** * pr_review: the source tree of a pull request

    The second half of [libs/pr_review/src/pr_review/github.py]: fetching and
    caching a tree, reading and listing its files, find-usages over ripgrep's
    output.  The file system, the tar library and ripgrep are a parameter
    ([TreeFs]) on the same abstract world as the transport. *)

From Stdlib Require Import NArith ZArith QArith Lia.
From S2P Require Import Prelude PyStr PyJson PyMonad PyKeyed PyBytes PyPath Github.
From stdpp Require Import options.
#[global] Open Scope nat_scope.
#[local] Open Scope py_scope.

Class TreeFs (W : Type) := {
  fs_exists : path → W → bool;
  fs_is_file : path → W → bool;
  fs_is_dir : path → W → bool;
  (** [path.iterdir()], [path.rglob("*")]: what they yield, in order *)
  fs_iterdir : path → W → list path;
  fs_rglob : path → W → list path;
  (** [path.resolve()]: absolute, links followed *)
  fs_resolve : path → W → path;
  fs_read_bytes : path → W → option bytes;
  (** [false] is [OSError] *)
  fs_mkdir : path → W → bool * W;
  fs_write_bytes : path → bytes → W → bool * W;
  fs_write_text : path → pystr → W → bool * W;
  fs_unlink : path → W → bool * W;
  (** [tarfile.open(p, "r:gz").getmembers()], by name; [inl] is its error *)
  tar_members : path → W → exn + list pystr;
  (** [extractall(dest, filter="data")] *)
  tar_extract : path → path → W → option exn * W;
  (** [subprocess.run([rg, ...], cwd=...)]: return code, output, error text *)
  run_rg : list pystr → path → W → (Z * pystr * pystr) * W }.

Record RepoTree := { t_repo : pystr; t_sha : pystr; t_root : path }.

Definition repo_slug (repo : pystr) : pystr := replace_char slash (u "__") repo.

(** ** Definitions, by shape *)
Section looks.
Context `{UnicodeDB}.

Definition _DEF_KEYWORDS : list pystr :=
  [u "def"; u "class"; u "func"; u "fn"; u "function"; u "struct"; u "interface"; u "type";
   u "enum"; u "impl"; u "trait"; u "const"; u "let"; u "var"; u "module"; u "package"].

(** A word boundary next to a word character. *)
Definition edge (c : option N) : bool := match c with Some c => negb (is_word c) | None => true end.

(** [w] stands here as a whole word. *)
Definition word_here (w : pystr) (prev : option N) (s : pystr) : bool :=
  edge prev && startswith w s && edge (head (drop (length w) s)).

(** [[^=]*\b sym \b] *)
Fixpoint before_equals (sym : pystr) (prev : option N) (s : pystr) : bool :=
  word_here sym prev s
  || match s with
     | c :: s' => negb (c =? 61)%N && before_equals sym (Some c) s'
     | [] => false
     end.

Fixpoint keyword_def (sym : pystr) (prev : option N) (s : pystr) : bool :=
  existsb (λ k, word_here k prev s && before_equals sym (last k) (drop (length k) s)) _DEF_KEYWORDS
  || match s with c :: s' => keyword_def sym (Some c) s' | [] => false end.

Definition define_after_hash (sym s : pystr) : bool :=
  let s := lstrip s in
  startswith "define" s
  && match drop 6 s with
     | c :: s' => is_space c && startswith sym (lstrip s') && edge (head (drop (length sym) (lstrip s')))
     | [] => false
     end.

Fixpoint hash_define (sym s : pystr) : bool :=
  match s with
  | c :: s' => ((c =? 35)%N && define_after_hash sym s') || hash_define sym s'
  | [] => false
  end.

Definition _looks_like_def (text symbol : pystr) : bool :=
  keyword_def symbol None text
  || hash_define symbol text
  || (let s := lstrip text in
      startswith symbol s
      && match lstrip (drop (length symbol) s) with
         | c :: _ => ((c =? 58) || (c =? 61))%N
         | [] => false
         end).
End looks.

(** [_SYMBOL_RE.fullmatch] *)
Definition is_symbol (s : pystr) : bool :=
  match s with
  | c :: s' => (is_letter c || (c =? 95)%N)
               && forallb (λ c, is_letter c || is_digit c || (c =? 95)%N) s'
  | [] => false
  end.

Section tree.
Context {W : Type} (curl : list pystr → M W bytes) `{!TreeFs W} `{PyRepr} `{UnicodeDB}.
Context (REPO_CACHE : path).

(** A call that raises [OSError] when it fails. *)
Definition fs_call (f : W → bool * W) : M W unit := λ w,
  match f w with (true, w') => (Ret tt, w') | (false, w') => (Raise (OSError []), w') end.

(** [next(p for p in dest.iterdir() if p.is_dir())] *)
Definition first_dir (dest : path) : M W path :=
  entries ← gets (fs_iterdir dest);
  dirs ← gets (λ w, List.filter (λ p, fs_is_dir p w) entries);
  match dirs with p :: _ => mret p | [] => raise StopIteration end.

Definition _safe_extract (tarball dest : path) : M W unit :=
  dest_resolved ← gets (fs_resolve dest);
  members ← gets (tar_members tarball);
  match members with
  | inl e => raise e
  | inr names =>
      unsafe ← gets (λ w, List.find (λ n, negb (startswith (path_str dest_resolved)
                                   (path_str (fs_resolve (child dest n) w)))) names);
      match unsafe with
      | Some n => raise (GitHubError (u "unsafe path in tarball: " ++ n))
      | None => λ w, match tar_extract tarball dest w with
                     | (None, w') => (Ret tt, w')
                     | (Some e, w') => (Raise e, w')
                     end
      end
  end.

Definition ensure_repo_tree (repo sha : pystr) : M W RepoTree :=
  let dest := child (child REPO_CACHE (repo_slug repo)) sha in
  let marker := child dest ".extracted" in
  cached ← gets (fs_exists marker);
  if cached : bool then
    root ← first_dir dest; mret {| t_repo := repo; t_sha := sha; t_root := root |}
  else
    fs_call (fs_mkdir dest);;
    let tarball := child dest "src.tar.gz" in
    raw ← curl [u "-L"; API ++ u "/repos/" ++ repo ++ u "/tarball/" ++ sha];
    fs_call (fs_write_bytes tarball raw);;
    _safe_extract tarball dest;;
    fs_call (fs_unlink tarball);;
    fs_call (fs_write_text marker sha);;
    root ← first_dir dest;
    mret {| t_repo := repo; t_sha := sha; t_root := root |}.

Definition read_tree_file (tree : RepoTree) (rel_path : pystr) : M W (option pystr) :=
  target ← gets (fs_resolve (child (t_root tree) rel_path));
  root ← gets (fs_resolve (t_root tree));
  if negb (startswith (path_str root) (path_str target)) then
    raise (GitHubError (u "path escapes tree: " ++ rel_path))
  else
    is_file ← gets (fs_is_file target);
    if negb is_file then mret None
    else
      data ← gets (fs_read_bytes target);
      match data with
      | None => raise (OSError [])
      | Some data => mret (text_of_bytes data)
      end.

(** [str(path.relative_to(root))] for a path below it *)
Definition rel_str (root p : path) : pystr := path_str (Path [] (drop (length (parts root)) (parts p))).

Definition listed (root : path) (w : W) (p : path) : option pystr :=
  let rel := if fs_is_file p w then rel_str root p else [] in
  let skip := contains ".git/" (path_str p)
    || contains "node_modules/" (rel ++ u "/") || contains ".pr-review-prep/" (rel ++ u "/") in
  if (rel <>? []) && negb skip then Some rel else None.

Definition list_tree_files (tree : RepoTree) (w : W) : list pystr :=
  sort_by str_leb (omap (listed (t_root tree) w) (fs_rglob (t_root tree) w)).

(** ** Find usages *)

Record usage := { us_path : pystr; us_line : Z; us_col : json; us_text : pystr; us_is_def : bool }.

Definition need_int (v : json) : outcome Z := match v with JInt z => Ret z | _ => Raise TypeError end.

(** What one line of ripgrep's output adds. *)
Definition usage_of_line (symbol raw : pystr) : outcome (option usage) :=
  match loads raw with
  | None => Ret None
  | Some obj =>
      type ← get "type" obj;
      if negb (jeqs type "match") then Ret None
      else
        data ← sub "data" obj;
        lines ← sub "lines" data; text ← sub "text" lines;
        text ← (match text with JStr s => Ret s | _ => Raise AttributeError end);
        let text := rstrip_char nl text in
        if 0%N ∈? text then Ret None
        else
          submatches ← get "submatches" data;
          let submatches := jor submatches (JList [JObj [(u "start", JInt 0)]]) in
          path ← (sub "path" data ≫= sub "text"); path ← need_str path;
          line ← (sub "line_number" data ≫= need_int);
          first ← (match submatches with JList (m :: _) => Ret m | _ => Raise TypeError end);
          col ← sub "start" first;
          Ret (Some {| us_path := path; us_line := line; us_col := col; us_text := take 240 text;
                       us_is_def := _looks_like_def text symbol |})
  end.

(** The loop over the output: the usages and whether it stopped at the limit. *)
Fixpoint collect_usages (symbol : pystr) (limit : nat) (raws : list pystr) (acc : list usage)
    : outcome (list usage * bool) :=
  match raws with
  | [] => Ret (acc, false)
  | raw :: raws' =>
      x ← usage_of_line symbol raw;
      match x with
      | None => collect_usages symbol limit raws' acc
      | Some us =>
          let acc := acc ++ [us] in
          if (limit <=? length acc)%nat then Ret (acc, true)
          else collect_usages symbol limit raws' acc
      end
  end.

(** The tuple order of [(not is_def, path, line)]. *)
Definition usage_leb (a b : usage) : bool :=
  match us_is_def a, us_is_def b with
  | true, false => true
  | false, true => false
  | _, _ => if us_path a =? us_path b then (us_line a <=? us_line b)%Z
            else str_leb (us_path a) (us_path b)
  end.


Record usages := { u_symbol : pystr; u_total : nat; u_definitions : nat;
                   u_truncated : bool; u_results : list usage }.

Definition usages_of_output (symbol : pystr) (limit : nat) (out : pystr) : outcome usages :=
  r ← collect_usages symbol limit (splitlines out) [];
  let results := sort_by usage_leb r.1 in
  Ret {| u_symbol := symbol; u_total := length results;
         u_definitions := length (List.filter us_is_def results);
         u_truncated := r.2; u_results := results |}.

Definition rg_args (symbol : pystr) : list pystr :=
  [u "--json"; u "--word-regexp"; u "--fixed-strings"; u "--glob"; u "!node_modules"; u "--"; symbol; u "."].

Definition find_usages (tree : RepoTree) (symbol : pystr) (limit : nat) : M W usages :=
  if negb (is_symbol symbol) then raise (GitHubError (u "invalid symbol: " ++ str_repr symbol))
  else λ w,
    let '((code, out, err), w') := run_rg (rg_args symbol) (t_root tree) w in
    if negb ((code =? 0)%Z || (code =? 1)%Z) then
      (Raise (GitHubError (u "ripgrep failed: " ++ take 300 err)), w')
    else (usages_of_output symbol limit out, w').
End tree.

(** ** Facts *)

(** Path, then line. *)
Definition place_leb (p : pystr) (l : Z) (p' : pystr) (l' : Z) : bool :=
  if p =? p' then (l <=? l')%Z else str_leb p p'.

Lemma place_total p l p' l' : place_leb p l p' l' = true ∨ place_leb p' l' p l = true.
Proof.
  unfold place_leb. destruct (decide (p = p')) as [->|Hne].
  - rewrite bool_decide_eq_true_2, !Z.leb_le by done. lia.
  - rewrite !bool_decide_eq_false_2 by congruence. apply str_leb_total.
Qed.

Lemma place_trans p1 l1 p2 l2 p3 l3 :
  place_leb p1 l1 p2 l2 = true → place_leb p2 l2 p3 l3 = true → place_leb p1 l1 p3 l3 = true.
Proof.
  unfold place_leb. destruct (decide (p1 = p2)) as [->|H12].
  - rewrite bool_decide_eq_true_2 by done. case_bool_decide; [rewrite !Z.leb_le; lia | done].
  - rewrite bool_decide_eq_false_2 by done. intros H1.
    destruct (decide (p2 = p3)) as [->|H23].
    + by rewrite (bool_decide_eq_false_2 (p1 = p3)) by done.
    + rewrite (bool_decide_eq_false_2 (p2 = p3)) by done. intros H2.
      case_bool_decide as H13; [|by eapply str_leb_trans]. subst.
      exfalso. apply H12. by apply str_leb_antisym.
Qed.

Lemma usage_leb_total a b : usage_leb a b = true ∨ usage_leb b a = true.
Proof.
  unfold usage_leb. destruct (us_is_def a), (us_is_def b); auto; apply place_total.
Qed.

Lemma usage_leb_trans a b c : usage_leb a b = true → usage_leb b c = true → usage_leb a c = true.
Proof.
  unfold usage_leb. destruct (us_is_def a), (us_is_def b), (us_is_def c); try done; apply place_trans.
Qed.

Lemma collect_limit `{UnicodeDB} symbol limit raws acc r t :
  length acc < limit → collect_usages symbol limit raws acc = Ret (r, t) →
  length r ≤ limit ∧ (t = true → length r = limit) ∧ acc `prefix_of` r.
Proof.
  revert acc. induction raws as [|raw raws IH]; intros acc Hacc; simpl.
  { intros [= <- <-]. split; [lia|]. done. }
  unfold mbind, outcome_bind. destruct (usage_of_line symbol raw) as [[us|]|]; [| by apply IH |done].
  destruct (Nat.leb_spec limit (length (acc ++ [us]))) as [Hl|Hl].
  - intros [= <- <-]. rewrite length_app in *. simpl in *. split_and!; [lia|lia|by eexists].
  - intros Hr. apply IH in Hr as (? & ? & Hp); [|done]. split_and!; [done..|].
    etrans; [by eexists|exact Hp].
Qed.

Lemma startswith_parts p q :
  root p = root q → parts q `prefix_of` parts p → parts q ≠ [] →
  startswith (path_str q) (path_str p) = true.
Proof.
  intros Hr [k Hk] Hne. apply startswith_prefix.
  assert (∀ l : list pystr, l ≠ [] → ∃ r, join [slash] (l ++ k) = join [slash] l ++ r) as Hj.
  { intros l. induction l as [|a l IH]; [done|]. intros _. destruct l as [|b l].
    - destruct k as [|b k]; [exists []; simpl; by rewrite app_nil_r|]. by eexists.
    - destruct (IH ltac:(done)) as [r Er]. exists r.
      change (join [slash] ((a :: b :: l) ++ k)) with (a ++ [slash] ++ join [slash] ((b :: l) ++ k)).
      change (join [slash] (a :: b :: l)) with (a ++ [slash] ++ join [slash] (b :: l)).
      by rewrite Er, <- !app_assoc. }
  destruct (Hj (parts q) Hne) as [r Er]. exists r. unfold path_str. rewrite Hr, Hk.
  destruct (root q) as [|c rt]; [destruct (parts q) as [|a l]; [done|]; by destruct k|].
  all: try (rewrite Er, <- app_assoc; done).
Qed.

Lemma underscore_split o1 o2 r1 r2 :
  95%N ∉ o1 → 95%N ∉ o2 → o1 ++ 95%N :: r1 = o2 ++ 95%N :: r2 → o1 = o2 ∧ r1 = r2.
Proof.
  revert o2. induction o1 as [|c o1 IH]; intros [|d o2] H1 H2; simpl; intros E.
  - by simplify_eq.
  - injection E as <- _. exfalso. apply H2. left.
  - injection E as -> _. exfalso. apply H1. left.
  - injection E as -> E. apply not_elem_of_cons in H1 as [_ H1]. apply not_elem_of_cons in H2 as [_ H2].
    by destruct (IH o2 H1 H2 E) as [-> ->].
Qed.

Lemma replace_char_notin a b s : a ∉ s → replace_char a b s = s.
Proof.
  unfold replace_char. induction s as [|c s IH]; simpl; [done|]. intros Hin.
  destruct (N.eqb_spec c a); [set_solver|]. simpl. rewrite IH; [done|set_solver].
Qed.

Lemma replace_char_app a b s t : replace_char a b (s ++ t) = replace_char a b s ++ replace_char a b t.
Proof. unfold replace_char. by rewrite map_app, concat_app. Qed.

Lemma slug_split o n : slash ∉ o → slash ∉ n → repo_slug (o ++ [slash] ++ n) = o ++ u "__" ++ n.
Proof.
  intros Ho Hn. unfold repo_slug. rewrite !replace_char_app.
  by rewrite (replace_char_notin _ _ o), (replace_char_notin _ _ n) by done.
Qed.

(** ** Properties *)

(** Two repositories share a cache directory only if they are the same:
    GitHub's owner names have no underscore, so the slug separates owner and
    name again. *)
Theorem repo_slug_inj o1 n1 o2 n2 :
  slash ∉ o1 → slash ∉ n1 → slash ∉ o2 → slash ∉ n2 → 95%N ∉ o1 → 95%N ∉ o2 →
  repo_slug (o1 ++ [slash] ++ n1) = repo_slug (o2 ++ [slash] ++ n2) → o1 = o2 ∧ n1 = n2.
Proof.
  intros. rewrite !slug_split in * by done.
  match goal with E : _ ++ u "__" ++ _ = _ |- _ => apply underscore_split in E as [-> E]; [|done..] end.
  split; [done|]. congruence.
Qed.

Section tree_properties.
Context {W : Type} (curl : list pystr → M W bytes) `{!TreeFs W} `{PyRepr} `{UnicodeDB}.

(** A cached tree is returned without any request or change to the disk. *)
Theorem cached_tree_untouched cache repo sha w dir dirs :
  let dest := child (child cache (repo_slug repo)) sha in
  fs_exists (child dest ".extracted") w = true →
  List.filter (λ p, fs_is_dir p w) (fs_iterdir dest w) = dir :: dirs →
  ensure_repo_tree curl cache repo sha w
  = (Ret {| t_repo := repo; t_sha := sha; t_root := dir |}, w).
Proof.
  intros dest Hm Hd. unfold ensure_repo_tree. fold dest. unfold gets. unfold mbind at 1, M_bind at 1.
  rewrite Hm. unfold first_dir, gets, mbind, M_bind. by rewrite Hd.
Qed.

(** A path that resolves inside the tree is never refused, and what is
    returned is the text of that file: absent for a missing or binary file. *)
Theorem read_inside_tree tree rel w :
  let target := fs_resolve (child (t_root tree) rel) w in
  let root := fs_resolve (t_root tree) w in
  is_relative_to target root = true → parts root ≠ [] →
  (fs_is_file target w = true → is_Some (fs_read_bytes target w)) →
  read_tree_file tree rel w =
    (Ret (if fs_is_file target w then fs_read_bytes target w ≫= text_of_bytes else None), w).
Proof.
  intros target root Hrel Hne Hread. unfold read_tree_file, gets, mbind, M_bind. fold target root.
  unfold is_relative_to in Hrel. py_bool.
  rewrite startswith_parts by done. simpl.
  destruct (fs_is_file target w); simpl; [|done].
  destruct (Hread eq_refl) as [d ->]. simpl. by destruct (text_of_bytes d).
Qed.

(** The listing is sorted and holds exactly the relative names of the files
    outside version control, installed packages and preparation data. *)
Theorem list_tree_files_spec tree w :
  sorted_by str_leb (list_tree_files tree w)
  ∧ ∀ rel, rel ∈ list_tree_files tree w ↔
      ∃ p, p ∈ fs_rglob (t_root tree) w ∧ fs_is_file p w = true ∧ rel = rel_str (t_root tree) p
        ∧ rel ≠ [] ∧ contains ".git/" (path_str p) = false
        ∧ contains "node_modules/" (rel ++ u "/") = false
        ∧ contains ".pr-review-prep/" (rel ++ u "/") = false.
Proof.
  split; [apply sort_by_sorted; [apply str_leb_total | apply str_leb_trans]|].
  intros rel. unfold list_tree_files. rewrite sort_by_elem, list_elem_of_omap.
  split; intros (p & Hp & Hl); exists p; (split; [done|]); unfold listed in *.
  - destruct (fs_is_file p w); [|done]. split; [done|].
    destruct (_ && _) eqn:E; [|done]. simplify_eq. py_bool. by split_and!.
  - destruct Hl as (-> & -> & Hne & -> & -> & ->). rewrite bool_decide_eq_false_2 by done. done.
Qed.

(** The usages found are in order, definitions first, at most [limit], and
    the counts agree with them; they are the matches of the output. *)
Theorem usages_spec symbol limit out r :
  0 < limit → usages_of_output symbol limit out = Ret r →
  sorted_by usage_leb (u_results r)
  ∧ u_total r = length (u_results r) ∧ u_total r ≤ limit
  ∧ u_definitions r = length (List.filter us_is_def (u_results r))
  ∧ (u_truncated r = true → u_total r = limit)
  ∧ ∃ found, collect_usages symbol limit (splitlines out) [] = Ret (found, u_truncated r)
      ∧ u_results r ≡ₚ found.
Proof.
  intros Hl. unfold usages_of_output, mbind, outcome_bind.
  destruct (collect_usages symbol limit (splitlines out) []) as [[found t]|] eqn:E; [|done].
  intros [= <-]. simpl. apply collect_limit in E as HL; [|done]. destruct HL as (HL1 & HL2 & _).
  rewrite sort_by_length. split_and!; auto.
  - apply sort_by_sorted; [apply usage_leb_total | apply usage_leb_trans].
  - exists found. split; [done | apply sort_by_perm].
Qed.
End tree_properties.

(** ** Concrete runs *)
Module TreeDemo.
#[export] Instance ascii : UnicodeDB := {| wide_alnum _ := false |}.
#[export] Instance repr : PyRepr := {| str_repr s := s; float_repr _ := [] |}.

(** A disk without links: [..] steps back. *)
Definition normal (p : path) : path :=
  Path (root p) (fold_left (λ acc c, if c =? u ".." then removelast acc else acc ++ [c]) (parts p) []).

Definition disk : list (pystr * pystr) :=
  [(u "/cache/abc/src/a.py", u "print(1)"); (u "/cache/abc-private/key", u "secret");
   (u "/cache/abc/src/my.git/b.py", u "x")].
Definition file_of (p : path) : option pystr :=
  snd <$> List.find (λ f, path_of f.1 =? p) disk.

#[export] Instance fs : TreeFs unit := {|
  fs_exists p _ := true; fs_is_file p _ := match file_of p with Some _ => true | None => false end;
  fs_is_dir p _ := match file_of p with Some _ => false | None => true end;
  fs_iterdir p _ := [child p "src"]; fs_rglob p _ := map (path_of ∘ fst) disk;
  fs_resolve p _ := normal p; fs_read_bytes p _ := file_of p;
  fs_mkdir _ w := (true, w); fs_write_bytes _ _ w := (true, w); fs_write_text _ _ w := (true, w);
  fs_unlink _ w := (true, w); tar_members _ _ := inr [u "../abc-private/new"]; tar_extract _ _ w := (None, w);
  run_rg _ _ w := ((0%Z, [], []), w) |}.

Definition tree : RepoTree := {| t_repo := u "o/r"; t_sha := u "abc"; t_root := path_of "/cache/abc" |}.
Definition no_net : list pystr → M unit bytes := λ _, raise (GitHubError []).

(** A match as ripgrep prints it. *)
Definition match_line (path text line : pystr) : pystr :=
  bq "{`type`:`match`,`data`:{`path`:{`text`:`" ++ path ++ bq "`},`lines`:{`text`:`" ++ text
  ++ bq "`},`line_number`:" ++ line ++ bq ",`submatches`:[{`start`:0}]}}".
End TreeDemo.
Import TreeDemo.

(** The containment test compares strings, not components: a path that
    leaves the tree for a sibling directory whose name extends the tree's is
    accepted, when a file is read and when a tarball is extracted. *)
Theorem sibling_escapes_tree :
  read_tree_file tree "../abc-private/key" tt = (Ret (Some (u "secret")), tt)
  ∧ is_relative_to (normal (child (t_root tree) "../abc-private/key")) (t_root tree) = false
  ∧ _safe_extract (path_of "/cache/abc/src.tar.gz") (t_root tree) tt = (Ret tt, tt)
  ∧ is_relative_to (normal (child (t_root tree) "../abc-private/new")) (t_root tree) = false.
Proof. vm_compute. by split_and!. Qed.

(** A directory whose name merely ends in [.git] is skipped as version
    control data. *)
Theorem git_suffix_skipped :
  listed (t_root tree) tt (path_of "/cache/abc/src/a.py") = Some (u "src/a.py")
  ∧ fs_is_file (path_of "/cache/abc/src/my.git/b.py") tt = true
  ∧ listed (t_root tree) tt (path_of "/cache/abc/src/my.git/b.py") = None.
Proof. vm_compute. by split_and!. Qed.

(** A match whose line holds a raw line or paragraph separator is lost: the
    output is split inside its JSON record. *)
Theorem usage_lost_at_line_separator :
  let out text := match_line "a.py" text "1" in
  (u_total <$> (match usages_of_output "foo" 400 (out (u "foo()")) with Ret r => Some r | _ => None end)) = Some 1
  ∧ (u_total <$> (match usages_of_output "foo" 400 (out (u "foo(" ++ [8232%N] ++ u ")")) with Ret r => Some r | _ => None end)) = Some 0.
Proof. vm_compute. by split. Qed.

(** A match in a file whose name or line is not valid UTF-8, which ripgrep
    reports as bytes instead of text, makes the whole search fail. *)
Theorem non_utf8_match_fails :
  usages_of_output "foo" 400
    (bq "{`type`:`match`,`data`:{`path`:{`text`:`a`},`lines`:{`bytes`:`Zm9v/w==`},`line_number`:1,`submatches`:[]}}")
  = Raise (KeyError (u "text")).
Proof. vm_compute. reflexivity. Qed.

Lemma repo_slug_inj_witness : u "o" = u "o" ∧ u "r__x" = u "r__x".
Proof.
  apply (repo_slug_inj "o" "r__x" "o" "r__x");
    first [apply (bool_decide_unpack (_ ∉ _)); vm_compute; exact I | reflexivity].
Defined.

Lemma cached_tree_witness :
  ensure_repo_tree no_net (path_of "/cache") "o/r" "abc" tt
  = (Ret {| t_repo := u "o/r"; t_sha := u "abc"; t_root := path_of "/cache/o__r/abc/src" |}, tt).
Proof.
  apply (cached_tree_untouched no_net (path_of "/cache") "o/r" "abc" tt (path_of "/cache/o__r/abc/src") []);
    vm_compute; reflexivity.
Defined.

Lemma read_inside_witness :
  read_tree_file tree "src/a.py" tt = (Ret (Some (u "print(1)")), tt).
Proof.
  rewrite (read_inside_tree tree "src/a.py" tt).
  - vm_compute. reflexivity.
  - vm_compute. reflexivity.
  - vm_compute. discriminate.
  - intros _. vm_compute. by eexists.
Defined.

Lemma usages_witness :
  ∃ r, usages_of_output "foo" 400 (match_line "a.py" "foo()" "1") = Ret r ∧ u_total r ≤ 400.
Proof.
  eexists. split; [vm_compute; reflexivity|].
  refine (proj1 (proj2 (proj2 (usages_spec "foo" 400 (match_line "a.py" "foo()" "1") _ ltac:(lia) _)))).
  vm_compute. reflexivity.
Defined.
