(* ===== verification/AgentStream.v ===== *)
(** * pr_review: the streamed agent runs

    [libs/pr_review/src/pr_review/agent_stream.py]: the command line and the
    environment of a headless [claude -p], the rendering of its events and the
    loop that writes the log.  The child process is a parameter: what it prints
    and how it exits. *)

From Stdlib Require Import NArith ZArith QArith Lia.
From S2P Require Import Prelude PyStr PyJson PyMonad PyBytes PyPath.
From stdpp Require Import options.
#[global] Open Scope nat_scope.
#[local] Open Scope py_scope.

Record AgentRun := { run_text : json; cost_usd : json }.

(** ** Rendering *)

Definition ellipsis : pystr := [32; 8230]%N.
Definition cut (width : nat) (line : pystr) : pystr :=
  if (length line <=? width)%nat then line else take width line ++ ellipsis.

Definition first_line (text : pystr) (width : nat) : pystr :=
  let line := match strip text with [] => [] | t => List.hd [] (splitlines t) end in
  cut width line.

Definition tail_lines (text : pystr) (count width : nat) : list pystr :=
  let lines := map rstrip (List.filter (λ ln, strip ln <>? []) (splitlines text)) in
  map (cut width) (last_n count lines).

(** [x.splitlines()], [x.strip()]: only a [str] has them. *)
Definition need_text (v : json) : outcome pystr := match v with JStr s => Ret s | _ => Raise AttributeError end.
Definition concatO {A} (r : outcome (list (list A))) : outcome (list A) := l ← r; Ret (concat l).

Section render.
Context `{JsonRepr}.

Definition render_text_block (block : dict) : outcome (list pystr) :=
  text ← need_text (jor (jget "text" block) (JStr []));
  Ret (map (λ line, [9679; 32]%N ++ strip line) (List.filter (λ line, strip line <>? []) (splitlines text))).

Definition render_tool_use (block : dict) : outcome (list pystr) :=
  let name := jor (jget "name" block) (JStr (u "tool")) in
  match or_empty (jget "input" block) with
  | JObj inp =>
      if jeqs name "Bash" then
        command ← need_text (jor (jget "command" inp) (JStr []));
        Ret [u "$ " ++ first_line command 300]
      else
        let target := jor (jget "file_path" inp) (jor (jget "path" inp) (jor (jget "description" inp) (JStr []))) in
        Ret [rstrip ([187; 32]%N ++ json_str name ++ u " " ++ first_line (json_str target) 200)]
  | _ => Raise AttributeError
  end.

Definition render_assistant_block (block : dict) : outcome (list pystr) :=
  let btype := jget "type" block in
  if jeqs btype "text" then render_text_block block
  else if jeqs btype "tool_use" then render_tool_use block
  else Ret [].

(** [text += ...] and the like, where only two [str] go together *)
Definition result_stdout (result : dict) : outcome json :=
  let text := jor (jget "stdout" result) (JStr []) in
  match dget "stderr" result with
  | Some err =>
      if truthy err then
        match text, err with
        | JStr t, JStr e => Ret (JStr (t ++ (if t =? [] then [] else [nl]) ++ e))
        | JList l, JStr e => Ret (JList (l ++ map (λ c, JStr [c]) (nl :: e)))
        | _, _ => Raise TypeError
        end
      else Ret text
  | None => Ret text
  end.

Definition part_text (p : json) : outcome (list pystr) :=
  match p with
  | JObj d => match jget_or "text" (JStr []) d with JStr t => Ret [t] | _ => Raise TypeError end
  | _ => Ret []
  end.
Definition tool_result_text (block : dict) : outcome pystr :=
  if jeqs (jget "type" block) "tool_result" then
    match jget "content" block with
    | JStr t => Ret t
    | JList l => concatO (concatO (mapO part_text l))
    | _ => Ret []
    end
  else Ret [].

(** [for block in (ev.get('message') or {}).get('content') or []] *)
Fixpoint each_block {A} (f : dict → outcome (list A)) (blocks : list json) : outcome (list A) :=
  match blocks with
  | [] => Ret []
  | b :: blocks' => d ← need_dict b; x ← f d; y ← each_block f blocks'; Ret (x ++ y)
  end.
Definition over_message {A} (f : dict → outcome (list A)) (ev : dict) : outcome (list A) :=
  content ← get "content" (or_empty (jget "message" ev));
  blocks ← iter_json (jor content (JList []));
  each_block f blocks.

Definition render_user (ev : dict) : outcome (list pystr) :=
  text ← match jget "tool_use_result" ev with JObj result => result_stdout result | _ => Ret (JStr []) end;
  text ← (if truthy text then Ret text else t ← over_message tool_result_text ev; Ret (JStr t));
  text ← need_text text;
  Ret (tail_lines text 12 300).

Definition render_stream_event (ev : dict) : outcome (list pystr) :=
  let etype := jget "type" ev in
  if jeqs etype "assistant" then over_message render_assistant_block ev
  else if jeqs etype "user" then render_user ev
  else Ret [].
End render.

(** ** Running *)

Definition _SETTING_SOURCES : pystr := u "user".

Definition _build_argv (prompt model append_system_prompt permission_mode setting_sources : pystr) : list pystr :=
  [u "claude"; u "-p"; prompt; u "--output-format"; u "stream-json"; u "--verbose";
   u "--setting-sources"; setting_sources; u "--model"; model; u "--permission-mode"; permission_mode;
   u "--append-system-prompt"; append_system_prompt].

(** The environment as [os.environ] holds it. *)
Definition _agent_env (environ : list (pystr * pystr)) : list (pystr * pystr) :=
  dset "CODE_GUARDIAN_STOP_HOOK__ENABLED_WHEN" (u "false")
    (dset "MNGR_CLAUDE_SUBAGENT_PROXY_CHILD" (u "1") (ddel "MAIN_CLAUDE_SESSION_ID" environ)).

(** [float(v)] where it is a number; a [str] is read as JSON reads numbers
    (Python also accepts a sign, underscores and more spellings). *)
Definition py_float (v : json) : outcome json :=
  match v with
  | JBool b => Ret (JFloat (if b then 1 else 0))
  | JInt z => if (Z.abs z <? 2 ^ 1024)%Z then Ret (JFloat (inject_Z z)) else Raise (OtherError (u "OverflowError") [])
  | JFloat q => Ret v
  | JNonFinite s => Ret v
  | JStr s =>
      match Loads.number (strip s) with
      | Some (JInt z, []) => Ret (JFloat (inject_Z z))
      | Some (JFloat q, []) => Ret (JFloat q)
      | _ => Raise (ValueError [])
      end
  | _ => Raise TypeError
  end.

(** What the child does: its output, by line, an error reading it, and the
    code it exits with (a run killed by the timer has a negative one). *)
Record process := { p_stdout : list pystr; p_read_error : option exn; p_returncode : option Z }.

Section run.
Context `{JsonRepr}.

(** The loop's state: the log and the last result event. *)
Record stream := { s_log : pystr; s_result : AgentRun }.
Definition log_lines (entries : list pystr) (s : stream) : stream :=
  {| s_log := s_log s ++ concat (map (λ e, e ++ [nl]) entries); s_result := s_result s |}.

(** [except (TypeError, ValueError)] *)
Definition cost_of (ev : dict) : outcome json :=
  match py_float (jor (jget "total_cost_usd" ev) (JFloat 0)) with
  | Raise TypeError | Raise (ValueError _) => Ret (JFloat 0)
  | r => r
  end.

Definition stream_event (ev : dict) : M stream unit :=
  entries ← lift (render_stream_event ev);
  modify (log_lines entries);;
  if jeqs (jget "type" ev) "result" then
    let text := jor (jget "result" ev) (JStr []) in
    modify (λ s, {| s_log := s_log s; s_result := {| run_text := text; cost_usd := cost_usd (s_result s) |} |});;
    cost ← lift (cost_of ev);
    modify (λ s, {| s_log := s_log s; s_result := {| run_text := text; cost_usd := cost |} |})
  else mret tt.

Definition stream_line (raw : pystr) : M stream unit :=
  match strip raw with
  | [] => mret tt
  | line => match loads line with Some (JObj ev) => stream_event ev | _ => mret tt end
  end.

Definition start_stream (header : pystr) : stream :=
  {| s_log := rstrip_char nl header ++ [nl]; s_result := {| run_text := JStr []; cost_usd := JFloat 0 |} |}.

(** [run_streaming_agent] from the moment the child and the log are open: the
    text of the log at the end, and the result. *)
Definition follow_process (header : pystr) (p : process) : outcome AgentRun * pystr :=
  let '(r, s) := (for_each (p_stdout p) stream_line;;
                  match p_read_error p with Some e => raise e | None => mret tt end) (start_stream header) in
  (_ ← r;
   match p_returncode p with
   | None | Some 0%Z => Ret (s_result s)
   | Some code => Raise (AgentError (u "agent exited " ++ str_of_Z code))
   end, s_log s).
End run.

(** [subprocess.Popen], [log_path.parent.mkdir] and [open(log_path, "w")]
    succeed or raise; the log file is written when it was opened. *)
Class ClaudeCli := {
  (** [os.environ] *)
  environ : list (pystr * pystr);
  make_log_dir : path → outcome unit;
  (** argv, working directory, environment, seconds until it is killed *)
  popen : list pystr → path → list (pystr * pystr) → Z → outcome process;
  open_log : path → outcome unit }.

Definition run_streaming_agent `{JsonRepr} `{ClaudeCli} (prompt : pystr) (cwd log_path : path)
    (model append_system_prompt header : pystr) (timeout_s : Z) (permission_mode : pystr)
    : outcome AgentRun * option pystr :=
  let argv := _build_argv prompt model append_system_prompt permission_mode _SETTING_SOURCES in
  match _ ← make_log_dir (parent log_path); p ← popen argv cwd (_agent_env environ) timeout_s;
        _ ← open_log log_path; Ret p with
  | Raise e => (Raise e, None)
  | Ret p => let '(r, log) := follow_process header p in (r, Some log)
  end.

(** ** The log holds one line per entry *)

Lemma one_line_cut w s : one_line s = true → one_line (cut w s) = true.
Proof.
  intros Hs. unfold cut. case_match; [done|]. rewrite one_line_app. apply andb_true_iff. split; [|done].
  eapply one_line_sub; [|exact Hs]. intros c Hc. rewrite <- (take_drop w s). apply elem_of_app. by left.
Qed.
Lemma one_line_rstrip s : one_line s = true → one_line (rstrip s) = true.
Proof. apply one_line_sub, rstrip_sub. Qed.
Lemma one_line_strip s : one_line s = true → one_line (strip s) = true.
Proof. apply one_line_sub. intros c Hc%rstrip_sub. by apply lstrip_sub. Qed.

Section rendered_lines.
Context `{JsonRepr}.

(** Tool names are single lines. *)
Definition plain_tools (ev : dict) : Prop :=
  ∀ content blocks b, get "content" (or_empty (jget "message" ev)) = Ret content →
    iter_json (jor content (JList [])) = Ret blocks → JObj b ∈ blocks →
    one_line (json_str (jor (jget "name" b) (JStr (u "tool")))) = true.

Lemma each_block_Forall {A} (P : A → Prop) f bs r :
  each_block f bs = Ret r → (∀ d x, JObj d ∈ bs → f d = Ret x → Forall P x) → Forall P r.
Proof.
  revert r. induction bs as [|b bs IH]; intros r Hr Hf; cbn [each_block] in Hr; [injection Hr as <-; constructor|].
  inv_Ret Hr. injection Hr as <-. destruct b as [| | | | | | |d]; try done. injection E as <-. apply Forall_app. split.
  - eapply Hf; [left|done].
  - eapply IH; [done|]. intros d' x Hd. apply Hf. by right.
Qed.

Lemma first_line_one_line t w : one_line (first_line t w) = true.
Proof.
  unfold first_line. apply one_line_cut. destruct (strip t) as [|c s]; [done|].
  pose proof (splitlines_one_line (c :: s)) as Hs. destruct (splitlines (c :: s)); [done|]. by inv Hs.
Qed.

Lemma tail_lines_one_line t n w : Forall (λ e, one_line e = true) (tail_lines t n w).
Proof.
  unfold tail_lines. apply Forall_fmap, Forall_forall. intros l Hl. apply one_line_cut.
  destruct (last_n_suffix n (map rstrip (List.filter (λ ln, strip ln <>? []) (splitlines t)))) as [k Hk].
  assert (l ∈ map rstrip (List.filter (λ ln, strip ln <>? []) (splitlines t))) as Hin.
  { rewrite Hk. apply elem_of_app. by right. }
  apply list_elem_of_In, in_map_iff in Hin as (x & <- & Hx). apply filter_In in Hx as [Hx _].
  apply one_line_rstrip. pose proof (splitlines_one_line t) as Hs. rewrite Forall_forall in Hs.
  by apply Hs, list_elem_of_In.
Qed.

Lemma render_one_line ev es :
  plain_tools ev → render_stream_event ev = Ret es → Forall (λ e, one_line e = true) es.
Proof.
  intros Hev. unfold render_stream_event. destruct (jeqs _ "assistant"); [|destruct (jeqs _ "user")].
  - unfold over_message. intros Hr. inv_Ret Hr. eapply each_block_Forall; [exact Hr|]. intros d x Hd Hx.
    unfold render_assistant_block in Hx. destruct (jeqs _ "text"); [|destruct (jeqs _ "tool_use")].
    + unfold render_text_block in Hx. inv_Ret Hx. injection Hx as <-. apply Forall_fmap, Forall_forall.
      intros l Hl. cbn. apply one_line_strip. apply list_elem_of_In, filter_In in Hl as [Hl _].
      pose proof (splitlines_one_line a1) as Hs. rewrite Forall_forall in Hs. by apply Hs, list_elem_of_In.
    + unfold render_tool_use in Hx. destruct (or_empty (jget "input" d)) as [| | | | | | |inp]; try done.
      destruct (jeqs (jor (jget "name" d) _) "Bash").
      * inv_Ret Hx. injection Hx as <-. constructor; [|constructor]. rewrite one_line_app, first_line_one_line. done.
      * injection Hx as <-. constructor; [|constructor]. apply one_line_rstrip. cbn.
        rewrite !one_line_app, first_line_one_line. by rewrite (Hev a a0 d).
    + injection Hx as <-. constructor.
  - unfold render_user. intros Hr. inv_Ret Hr. injection Hr as <-. apply tail_lines_one_line.
  - intros [= <-]. constructor.
Qed.
End rendered_lines.

(** ** What a run leaves *)
Section run_facts.
Context `{JsonRepr}.

(** The events of the output, each line on its own. *)
Definition event_of (raw : pystr) : option dict :=
  match strip raw with [] => None | line => match loads line with Some (JObj ev) => Some ev | _ => None end end.
Definition entries_of (ev : dict) : list pystr := match render_stream_event ev with Ret es => es | Raise _ => [] end.
(** The result after an event: the last [result] event wins. *)
Definition result_after (r : AgentRun) (ev : dict) : AgentRun :=
  if jeqs (jget "type" ev) "result" then
    {| run_text := jor (jget "result" ev) (JStr []);
       cost_usd := match cost_of ev with Ret c => c | Raise _ => cost_usd r end |}
  else r.
(** An event that the loop gets through. *)
Definition clean (ev : dict) : Prop :=
  is_Ret (render_stream_event ev) = true ∧ is_Ret (cost_of ev) = true ∧ plain_tools ev.

Lemma stream_event_clean ev s :
  clean ev →
  stream_event ev s = (Ret tt, {| s_log := s_log s ++ entry_lines (entries_of ev);
                                  s_result := result_after (s_result s) ev |}).
Proof.
  intros (Hr & Hc & _). unfold stream_event, entries_of, result_after.
  destruct (render_stream_event ev) as [es|] eqn:E; [|done].
  unfold mbind, M_bind. cbn. destruct (jeqs _ "result"); [|by destruct s].
  cbn. by destruct (cost_of ev) as [c|].
Qed.

Lemma stream_line_event raw :
  stream_line raw = match event_of raw with Some ev => stream_event ev | None => mret tt end.
Proof.
  unfold stream_line, event_of. destruct (strip raw) as [|c l]; [done|]. by destruct (loads (c :: l)) as [[]|].
Qed.

Lemma stream_lines_clean raws s :
  Forall clean (omap event_of raws) →
  for_each raws stream_line s =
  (Ret tt, {| s_log := s_log s ++ entry_lines (concat (map entries_of (omap event_of raws)));
              s_result := foldl result_after (s_result s) (omap event_of raws) |}).
Proof.
  revert s. induction raws as [|raw raws IH]; intros s Hc.
  { cbn. unfold entry_lines. cbn. rewrite app_nil_r. by destruct s. }
  change (for_each (raw :: raws) stream_line s) with ((stream_line raw;; for_each raws stream_line) s).
  rewrite stream_line_event. cbn [omap list_omap] in Hc |- *. destruct (event_of raw) as [ev|]; [|by apply IH].
  apply Forall_cons in Hc as [Hev Hc]. erewrite M_bind_ret by by apply stream_event_clean.
  rewrite IH by done. cbn [map concat foldl s_log s_result].
  do 2 f_equal. unfold entry_lines. by rewrite map_app, concat_app, app_assoc.
Qed.

(** A run's log has exactly one line per entry: the banner's lines, then the
    entries of every event in order, and the run's result is that of its last
    [result] event, unless the child failed. *)
Theorem log_is_entries header banner p :
  rstrip_char nl header ++ [nl] = entry_lines banner → Forall (λ l, one_line l = true) banner →
  Forall clean (omap event_of (p_stdout p)) → p_read_error p = None →
  let events := omap event_of (p_stdout p) in
  splitlines (follow_process header p).2 = banner ++ concat (map entries_of events) ∧
  (follow_process header p).1 =
    match p_returncode p with
    | None | Some 0%Z => Ret (foldl result_after {| run_text := JStr []; cost_usd := JFloat 0 |} events)
    | Some code => Raise (AgentError (u "agent exited " ++ str_of_Z code))
    end.
Proof.
  intros Hh Hb Hc He events. unfold follow_process. rewrite He.
  erewrite M_bind_ret by by apply stream_lines_clean. cbn [s_log s_result start_stream mret M_ret]. rewrite Hh.
  split; [|by destruct (p_returncode p) as [[]|]]. cbn [snd].
  rewrite splitlines_entries by done. f_equal.
  rewrite <- (app_nil_r (entry_lines _)), splitlines_entries, app_nil_r; [done|].
  apply Forall_concat, Forall_fmap. eapply Forall_impl; [exact Hc|]. intros ev (Hr & _ & Ht). cbn.
  unfold entries_of. destruct (render_stream_event ev) as [es|] eqn:E; [|done]. by eapply render_one_line.
Qed.
End run_facts.

(** The child is marked as a proxied subagent and does not see the session of
    its parent, whatever the environment it inherits. *)
Lemma agent_env_marks env :
  dget "MNGR_CLAUDE_SUBAGENT_PROXY_CHILD" (_agent_env env) = Some (u "1") ∧
  dget "MAIN_CLAUDE_SESSION_ID" (_agent_env env) = None ∧
  dget "CODE_GUARDIAN_STOP_HOOK__ENABLED_WHEN" (_agent_env env) = Some (u "false").
Proof.
  unfold _agent_env. rewrite dget_dset_eq, dget_dset_ne by done. rewrite dget_dset_eq.
  rewrite !dget_dset_ne by done. by rewrite dget_ddel_eq.
Qed.

(** A user message whose content is a text, not a list of blocks. *)
Definition text_content_event : dict :=
  [(u "type", JStr (u "user")); (u "message", JObj [(u "content", JStr (u "go on"))])].
Lemma text_content_fails `{JsonRepr} : render_stream_event text_content_event = Raise AttributeError.
Proof. vm_compute. reflexivity. Qed.

Module StreamDemo.
#[export] Instance repr : JsonRepr := {| json_repr _ := u "?"; bytes_repr _ := u "?" |}.
Definition output : list pystr :=
    [bq "{`type`: `system`}"; u "not json"; [];
     bq "{`type`: `assistant`, `message`: {`content`: [{`type`: `text`, `text`: `Looking.\n\n now`}, {`type`: `tool_use`, `name`: `Bash`, `input`: {`command`: `ls -l\nfalse`}}]}}";
     bq "{`type`: `user`, `tool_use_result`: {`stdout`: `a\n\nb`, `stderr`: `oops`}}";
     bq "{`type`: `result`, `result`: `Done.`, `total_cost_usd`: 0.25}"].
Definition proc : process := {| p_stdout := output; p_read_error := None; p_returncode := Some 0%Z |}.

Example stream_ex :
  follow_process (u "Start") proc =
  (Ret {| run_text := JStr (u "Done."); cost_usd := JFloat (1 # 4) |},
   entry_lines [u "Start"; [9679; 32]%N ++ u "Looking."; [9679; 32]%N ++ u "now"; u "$ ls -l"; u "a"; u "b"; u "oops"]).
Proof. vm_compute. reflexivity. Qed.

Definition events : list dict := Eval vm_compute in omap event_of output.
Lemma output_events : omap event_of output = events.
Proof. vm_compute. reflexivity. Qed.
Lemma demo_clean : Forall clean (omap event_of output).
Proof.
  rewrite output_events. repeat constructor; try (vm_compute; reflexivity);
    intros content blocks b Hc Hb Hin; vm_compute in Hc; injection Hc as <-; vm_compute in Hb; injection Hb as <-;
    rewrite ?elem_of_cons in Hin;
    repeat (destruct Hin as [[= ->]|Hin]; [vm_compute; reflexivity|]); by apply elem_of_nil in Hin.
Qed.
Lemma demo_banner : rstrip_char nl (u "Start") ++ [nl] = entry_lines [u "Start"].
Proof. vm_compute. reflexivity. Qed.
Lemma demo_result :
  foldl result_after {| run_text := JStr []; cost_usd := JFloat 0 |} (omap event_of output) =
  {| run_text := JStr (u "Done."); cost_usd := JFloat (1 # 4) |}.
Proof. vm_compute. reflexivity. Qed.

Lemma log_is_entries_witness :
  splitlines (follow_process (u "Start") proc).2 =
    u "Start" :: concat (map entries_of (omap event_of output)) ∧
  (follow_process (u "Start") proc).1 = Ret {| run_text := JStr (u "Done."); cost_usd := JFloat (1 # 4) |}.
Proof.
  destruct (log_is_entries (u "Start") [u "Start"] proc demo_banner ltac:(repeat constructor) demo_clean eq_refl) as [H1 H2].
  split; [exact H1|]. rewrite H2. cbn [p_returncode p_stdout proc]. by rewrite demo_result.
Defined.
End StreamDemo.
