(* ===== verification/PrepareText.v ===== *)
(** * pr_review: the texts given to the prepare agent

    The constants [_AGENT_PROMPT] and [_AGENT_APPEND_SYSTEM] of
    [libs/pr_review/src/pr_review/prepare.py], piece by piece. *)

From Stdlib Require Import NArith.
From S2P Require Import Prelude PyStr.
From stdpp Require Import options.

Definition _AGENT_PROMPT : pystr :=
  concat
    [u "You are preparing a checked-out copy of a Git repository so that code-intelligence tools can resolve types for its source files, including types from third-party dependencies. The repository may contain JavaScript/TypeScript projects, Python projects, or both. Prepare EVERY language that is present.";
     [10; 10]%N;
     u "Your current working directory is the root of the repository checkout. Put tooling you install under an isolated `.pr-review-prep/` directory at the repo root.";
     [10; 10]%N;
     u "JavaScript / TypeScript -- do this only if the repo has package.json files outside node_modules:";
     [10]%N;
     u "1. Locate every package.json (ignore any under node_modules). Determine the package manager from the lockfile present (package-lock.json -> npm, pnpm-lock.yaml -> pnpm, yarn.lock -> yarn); default to npm if there is no lockfile.";
     [10]%N;
     u "2. Install dependencies in each relevant project directory with that package manager (e.g. `npm install`, `pnpm install --no-frozen-lockfile`). This can take several minutes; let it finish.";
     [10]%N;
     u "3. Install a TypeScript 5.x for the language server in an ISOLATED directory so it does not clobber the repo's own typescript and so we get the classic language service API (TypeScript 7.x does NOT expose it): `npm install --prefix .pr-review-prep typescript@5`. Do NOT rely on `npm install typescript` without a version (that now installs 7.x, which is unusable here).";
     [10]%N;
     u "4. If it helps resolution for plain JavaScript files, add a permissive `jsconfig.json` or `tsconfig.json` at a project root with `allowJs` enabled and `checkJs` disabled. Do NOT overwrite an existing config file.";
     [10]%N;
     u "5. Verify: `node -e ";
     [34]%N;
     u "require.resolve('typescript')";
     [34]%N;
     u "` run with cwd `.pr-review-prep` succeeds, and `require('typescript').createLanguageService` is a function (5.x).";
     [10; 10]%N;
     u "Python -- do this only if the repo has pyproject.toml / setup.py / setup.cfg / requirements*.txt / Pipfile / poetry.lock / uv.lock:";
     [10]%N;
     u "6. Create an ISOLATED virtual environment at `.pr-review-prep/venv`: `uv venv .pr-review-prep/venv`.";
     [10]%N;
     u "7. Install the repo's Python dependencies INTO that venv using the repo's own toolchain -- for a uv project/workspace `VIRTUAL_ENV=.pr-review-prep/venv uv sync --all-packages` (or `uv pip install --python .pr-review-prep/venv ...`); for a requirements file `.pr-review-prep/venv/bin/python -m pip install -r <file>`; for poetry, export to requirements and pip-install. Install the repo's own packages too (editable) so intra-repo imports resolve. Everything MUST land in that venv, never the system interpreter. This can take several minutes; let it finish.";
     [10]%N;
     u "8. Verify: `.pr-review-prep/venv/bin/python -c ";
     [34]%N;
     u "import sys";
     [34]%N;
     u "` runs, and a representative third-party import the repo uses resolves in that venv.";
     [10; 10]%N;
     u "Finally, write a JSON file at `.pr-review-prep/agent_result.json` with these keys (set a language's keys to null / [] if that language is not present):";
     [10]%N;
     u "   - ";
     [34]%N;
     u "package_manager";
     [34]%N;
     u ": JS package manager used (e.g. ";
     [34]%N;
     u "npm";
     [34]%N;
     u " or ";
     [34]%N;
     u "pnpm";
     [34]%N;
     u "), or null";
     [10]%N;
     u "   - ";
     [34]%N;
     u "roots";
     [34]%N;
     u ": array of JS project dirs (relative to repo root) you installed into, or []";
     [10]%N;
     u "   - ";
     [34]%N;
     u "typescript_dir";
     [34]%N;
     u ": ";
     [34]%N;
     u ".pr-review-prep";
     [34]%N;
     u " if you set up TypeScript, else null";
     [10]%N;
     u "   - ";
     [34]%N;
     u "python_venv";
     [34]%N;
     u ": ";
     [34]%N;
     u ".pr-review-prep/venv";
     [34]%N;
     u " if you set up a Python venv, else null";
     [10]%N;
     u "   - ";
     [34]%N;
     u "notes";
     [34]%N;
     u ": a short summary of what you did (both languages) and anything notable";
     [10; 10]%N;
     u "Keep going until the applicable installs succeed and tooling resolves. Then give a concise final summary."].

Definition _AGENT_APPEND_SYSTEM : pystr :=
  concat
    [u "You are preparing a repository checkout for type analysis. Only create or modify files inside the current working directory (the checkout). Do not touch anything outside it, and do NOT modify the host system: no `apt`/`brew`/`curl | sh`, no global or system-wide installs, no changing the installed Node/npm/pnpm/uv/Python versions. Use the package managers already on PATH; if a lockfile's engine constraints reject the available version, install with the engine check relaxed (e.g. `npm install --engine-strict=false`) rather than installing a different runtime. For Python, create and populate a virtualenv inside the checkout (`uv venv` / `uv sync` / the venv's own pip) -- never install into the system interpreter or change global state. The only shell commands you should run are for in-tree dependency installation and verification -- no destructive operations."].
