(* ===== verification/Prepare.v ===== *)
(** * pr_review: preparing a checkout for rich types

    [libs/pr_review/src/pr_review/prepare.py]: the dependency fingerprint, the
    shared store of prepared trees with its eviction, the status of a checkout
    and the run of the install agent.  The state is the file system of [PyFs];
    the agent, the probes of its tools and the launching of the thread are
    parameters. *)

From Stdlib Require Import NArith ZArith QArith Lia.
From S2P Require Import Prelude PyStr PyJson PyDumps PyMonad PyBytes PySha PyPath PyFs GithubTree AgentStream PrepareText.
From stdpp Require Import options.
#[global] Open Scope nat_scope.
#[local] Open Scope py_scope.

Definition PREP_DIRNAME : pystr := u ".pr-review-prep".
Definition _DEP_FILENAMES : list pystr :=
  [u "package.json"; u "package-lock.json"; u "npm-shrinkwrap.json"; u "pnpm-lock.yaml"; u "yarn.lock";
   u "pyproject.toml"; u "uv.lock"; u "poetry.lock"; u "Pipfile"; u "Pipfile.lock"; u "setup.py"; u "setup.cfg"].
(** [fnmatch(name, "requirements*.txt")], the only pattern of [_DEP_FILE_GLOBS] *)
Definition _DEP_FILE_GLOBS (name : pystr) : bool :=
  startswith "requirements" name && endswith ".txt" (drop 12 name).
Definition _ARTIFACT_DIRNAMES : list pystr := [u "node_modules"; PREP_DIRNAME; u ".venv"].
Definition DEFAULT_MODEL : pystr := u "claude-sonnet-4-6".
Definition _ALLOWED_MODELS : list pystr := [u "claude-opus-4-8"; u "claude-sonnet-4-6"; u "claude-haiku-4-5"].
Definition _AGENT_TIMEOUT_S : Z := 1800.
Definition _MAX_STORE_ENTRIES_PER_REPO : nat := 12.

Definition normalize_model (model : json) : pystr :=
  match model with JStr m => if m ∈? _ALLOWED_MODELS then m else DEFAULT_MODEL | _ => DEFAULT_MODEL end.

Definition _prep_dir (tree : RepoTree) : path := child (t_root tree) PREP_DIRNAME.
Definition _status_path (tree : RepoTree) : path := child (_prep_dir tree) "status.json".
Definition _log_path (tree : RepoTree) : path := child (_prep_dir tree) "prepare.log".
Definition _agent_result_path (tree : RepoTree) : path := child (_prep_dir tree) "agent_result.json".

Section prepare.
Context (cwd : loc) (DATA_DIR : path) `{DirOrder} `{PyRepr}.
Abbreviation P := (M fs).

Definition PREP_STORE : path := child DATA_DIR "prep".

(** ** Fingerprints *)

Definition artifact (name : pystr) : bool := name ∈? _ARTIFACT_DIRNAMES.
Definition is_dep_file (name : pystr) : bool := (name ∈? _DEP_FILENAMES) || _DEP_FILE_GLOBS name.

(** The names of the dependency files below [root]. *)
Definition _iter_dep_files (root : path) (f : fs) : list loc :=
  match top_of cwd root f with
  | None => []
  | Some top =>
      flat_map (λ rel, map (λ c, rel ++ [c])
                  (List.filter (λ c, is_dep_file c && negb (is_dir cwd (under root (rel ++ [c])) f)) (entries (top ++ rel) f)))
        (walk artifact f top)
  end.

Definition as_posix (rel : loc) : pystr := join [slash] rel.
Definition digest_input (root : path) (f : fs) (rel : loc) : outcome bytes :=
  name ← encode_utf8 (as_posix rel); data ← read_file cwd (under root rel) f; Ret (name ++ [0%N] ++ data ++ [0%N]).

Definition dep_fingerprint (root : path) (f : fs) : outcome (option pystr) :=
  match _iter_dep_files root f with
  | [] => Ret None
  | files =>
      parts ← mapO (digest_input root f) (sort_by (λ a b, str_leb (as_posix a) (as_posix b)) files);
      Ret (Some (take 32 (hexdigest (concat parts))))
  end.

(** ** The store *)

Definition _repo_store_dir (repo : pystr) : path := child PREP_STORE (repo_slug repo).
Definition _store_entry (repo fingerprint : pystr) : path := child (_repo_store_dir repo) fingerprint.
Definition _store_manifest_path (entry : path) : path := child entry "manifest.json".

(** [json.loads(p.read_text())] *)
Definition load_json (p : path) (f : fs) : outcome json :=
  t ← read_text_of cwd p f; match loads t with Some v => Ret v | None => Raise (ValueError []) end.
(** [except (ValueError, OSError)] *)
Definition value_or_os (e : exn) : bool :=
  match e with ValueError _ | OSError _ | FileNotFoundError => true | _ => false end.

Definition _entry_is_ready (entry : path) (f : fs) : outcome bool :=
  let status := child (child entry "prep") "status.json" in
  if negb (exists_ cwd (_store_manifest_path entry) f && exists_ cwd status f) then Ret false
  else
    match load_json status f with
    | Ret v => state ← get "state" v; Ret (jeqs state "ready")
    | Raise e => if value_or_os e then Ret false else Raise e
    end.

Definition reusable_entry (tree : RepoTree) (f : fs) : outcome (option path) :=
  if negb (is_dir cwd (_repo_store_dir (t_repo tree)) f) then Ret None
  else
    fingerprint ← dep_fingerprint (t_root tree) f;
    match fingerprint with
    | None => Ret None
    | Some fp =>
        let entry := _store_entry (t_repo tree) fp in
        ready ← _entry_is_ready entry f;
        Ret (if ready : bool then Some entry else None)
    end.

(** [sorted(entries, key=mtime, reverse=True)] *)
Definition newest_first (f : fs) : list path → list path :=
  sort_by (λ a b, Qle_bool (default 0%Q (st_mtime cwd b f)) (default 0%Q (st_mtime cwd a f))).
Definition store_entries (repo : pystr) (f : fs) : list path :=
  List.filter (λ e, is_dir cwd e f && negb (startswith ".staging-" (name e))) (iterdir cwd (_repo_store_dir repo) f).
Definition _evict_store (repo : pystr) (keep : nat) : P unit :=
  there ← gets (is_dir cwd (_repo_store_dir repo));
  if negb there then mret tt
  else
    entries ← gets (store_entries repo);
    if (length entries <=? keep)%nat then mret tt
    else
      stale ← gets (λ f, drop keep (newest_first f entries));
      for_each stale (rmtree cwd).

Definition skip_none (c : pystr) : bool := false.

(** The node_modules of the roots, copied into the staging area: the entries
    of the manifest. *)
Fixpoint capture_modules (tree : RepoTree) (modules : path) (idx : nat) (roots : list pystr) : P (list json) :=
  match roots with
  | [] => mret []
  | root :: roots' =>
      nm ← gets (λ f, realpath cwd f (child (child (t_root tree) root) "node_modules"));
      top ← gets (λ f, realpath cwd f (t_root tree));
      match nm, top with
      | Some nm, Some top =>
          let nm := Path (u "/") nm in
          here ← gets (is_dir cwd nm);
          entry ← (if here && is_relative_to nm (Path (u "/") top) then
                     copytree cwd skip_none false nm (child modules (str_of_Z (Z.of_nat idx)));;
                     mret [JObj [(u "root", JStr root); (u "modules", JStr (str_of_Z (Z.of_nat idx)))]]
                   else mret []);
          rest ← capture_modules tree modules (S idx) roots';
          mret (entry ++ rest)
      | _, _ => raise symlink_loop
      end
  end.

(** [except (OSError, shutil.Error)] *)
Definition os_only (e : exn) : bool := match e with OSError _ | FileNotFoundError => true | _ => false end.

Definition _publish (pid : Z) (tree : RepoTree) (fingerprint : pystr) (roots : list pystr) : P unit :=
  let entry := _store_entry (t_repo tree) fingerprint in
  ready ← (λ f, (_entry_is_ready entry f, f));
  if ready : bool then mret tt
  else
    there ← gets (is_dir cwd (_prep_dir tree));
    if negb there then mret tt
    else
      mkdirs cwd (parent entry);;
      let staging := child (parent entry) (u ".staging-" ++ fingerprint ++ u "-" ++ str_of_Z pid) in
      rmtree cwd staging;;
      published ← try_except
        (copytree cwd skip_none false (_prep_dir tree) (child staging "prep");;
         mkdir cwd (child staging "modules");;
         captured ← capture_modules tree (child staging "modules") 0 roots;
         write_text_to cwd (_store_manifest_path staging)
           (dumps_indent 0 (JObj [(u "fingerprint", JStr fingerprint); (u "roots", JList (map JStr roots));
                                  (u "modules", JList captured)]));;
         rmtree cwd entry;;
         replace_dir cwd staging entry;;
         mret true)
        (λ e, if os_only e then Some (rmtree cwd staging;; mret false) else None);
      if published : bool then _evict_store (t_repo tree) _MAX_STORE_ENTRIES_PER_REPO else mret tt.

Definition _link (target source : path) : P unit :=
  there ← gets (λ f, is_symlink cwd target f || exists_ cwd target f);
  (if there : bool then
     real ← gets (λ f, is_dir cwd target f && negb (is_symlink cwd target f));
     if real : bool then rmtree cwd target else unlink cwd target
   else mret tt);;
  mkdirs cwd (parent target);;
  source ← gets (λ f, realpath cwd f source);
  match source with
  | None => raise symlink_loop
  | Some l =>
      try_except (symlink_to cwd target (Path (u "/") l))
        (λ e, match e with OSError m => if m =? u "exists" then Some (mret tt) else None | _ => None end)
  end.

(** [for captured in manifest.get("modules") or []], with its usable entries *)
Definition for_captured (manifest : json) (f : pystr → pystr → P unit) : P unit :=
  modules ← lift (m ← get "modules" manifest; iter_json (jor m (JList [])));
  for_each modules (λ captured,
    root ← lift (get "root" captured); rel ← lift (get "modules" captured);
    match root, rel with JStr root, JStr rel => f root rel | _, _ => mret tt end).

Definition _materialize (tree : RepoTree) (entry : path) : P bool :=
  manifest ← gets (load_json (_store_manifest_path entry));
  match manifest with
  | Raise e => if value_or_os e then mret false else raise e
  | Ret manifest =>
      _link (_prep_dir tree) (child entry "prep");;
      for_captured manifest (λ root rel,
        let src := child (child entry "modules") rel in
        there ← gets (is_dir cwd src);
        if there : bool then _link (child (child (t_root tree) root) "node_modules") src else mret tt);;
      try_except (utime cwd entry) (λ e, if os_only e then Some (mret tt) else None);;
      mret true
  end.

Definition _ready_entries (repo : pystr) (f : fs) : outcome (list path) :=
  if negb (is_dir cwd (_repo_store_dir repo) f) then Ret []
  else
    let dirs := List.filter (λ e, is_dir cwd e f) (iterdir cwd (_repo_store_dir repo) f) in
    ready ← mapO (λ e, _entry_is_ready e f) dirs;
    Ret (newest_first f (map snd (List.filter fst (zip ready dirs)))).

(** ** Seeding from an earlier run *)

Fixpoint first_findings (paths : list path) (f : fs) : outcome dict :=
  match paths with
  | [] => Ret []
  | p :: paths' =>
      if negb (exists_ cwd p f) then first_findings paths' f
      else match load_json p f with
           | Ret (JObj d) => Ret d
           | Ret _ => first_findings paths' f
           | Raise e => if value_or_os e then first_findings paths' f else Raise e
           end
  end.
Definition _prior_findings (entry : path) (f : fs) : outcome dict :=
  first_findings (map (child (child entry "prep")) [u "agent_result.json"; u "status.json"]) f.

Definition seed_ignored (c : pystr) : bool := c ∈? [u "status.json"; u "agent_result.json"; u "prepare.log"].
(** [except (OSError, shutil.Error): pass] *)
Definition best_effort (m : P unit) : P unit := try_except m (λ e, if os_only e then Some (mret tt) else None).

Definition _seed_from_prior (tree : RepoTree) (entry : path) : P dict :=
  findings ← (λ f, (_prior_findings entry f, f));
  loaded ← gets (load_json (_store_manifest_path entry));
  manifest ← match loaded with
             | Ret v => mret v
             | Raise e => if value_or_os e then mret (JObj []) else raise e
             end;
  let prep_src := child entry "prep" in
  there ← gets (is_dir cwd prep_src);
  when there (best_effort (copytree cwd seed_ignored true prep_src (_prep_dir tree)));;
  for_captured manifest (λ root rel,
    let src := child (child entry "modules") rel in
    let dst := child (child (t_root tree) root) "node_modules" in
    wanted ← gets (λ f, is_dir cwd src f && is_dir cwd (child (t_root tree) root) f && negb (exists_ cwd dst f));
    when wanted (best_effort (copytree cwd skip_none false src dst)));;
  mret findings.

Definition text_field (k : pystr) (d : dict) : option pystr :=
  match jget k d with JStr (c :: s) => Some (c :: s) | _ => None end.

(** [[r for r in v or [] if isinstance(r, str)]] *)
Definition str_items (v : json) : outcome (list pystr) :=
  l ← iter_json (jor v (JList [])); Ret (omap as_str (l : list json)).

Definition _seed_hint (findings : dict) : outcome pystr :=
  roots ← str_items (jget "roots" findings);
  Ret (join [nl; nl]
    ([u "This repository was prepared before. That prior preparation's installed dependencies, its typescript@5 sidecar, and (if present) its Python venv at .pr-review-prep/venv have ALREADY been copied into this checkout under .pr-review-prep and the project dirs. Reconcile them with the current manifests -- rerun the package managers' install (npm/pnpm for JS, `VIRTUAL_ENV=.pr-review-prep/venv uv sync` or the venv's pip for Python), which updates incrementally -- instead of installing from scratch, and reuse the existing .pr-review-prep and venv rather than rebuilding them."]
     ++ match text_field "package_manager" findings with
        | Some pm => [u "JS package manager used previously: " ++ pm ++ u "."] | None => [] end
     ++ match roots with [] => [] | _ => [u "JS project roots found previously: " ++ join (u ", ") roots ++ u "."] end
     ++ match text_field "python_venv" findings with
        | Some _ => [u "A Python venv was prepared previously at .pr-review-prep/venv."] | None => [] end
     ++ match text_field "notes" findings with
        | Some notes => [u "Notes from the previous run (repo-specific gotchas):" ++ [nl] ++ notes] | None => [] end)).

Definition _build_prompt (seed_hint : option pystr) : pystr :=
  match seed_hint with
  | None | Some [] => _AGENT_PROMPT
  | Some hint => u "PRIOR PREPARATION CONTEXT (use it to go faster):" ++ [nl] ++ hint ++ [nl; nl] ++ _AGENT_PROMPT
  end.

(** ** Status *)

Definition absent : json := JObj [(u "state", JStr (u "absent"))].
Definition prepare_status (tree : RepoTree) (f : fs) : outcome json :=
  if negb (exists_ cwd (_status_path tree) f) then Ret absent
  else match load_json (_status_path tree) f with
       | Raise (ValueError _) => Ret absent
       | r => r
       end.
Definition is_ready (tree : RepoTree) (f : fs) : outcome bool :=
  status ← prepare_status tree f; state ← get "state" status; Ret (jeqs state "ready").

Definition observe_status (tree : RepoTree) : P json := λ f, (prepare_status tree f, f).
Definition find_reusable (tree : RepoTree) : P (option path) := λ f, (reusable_entry tree f, f).

Definition auto_enable (tree : RepoTree) : P json :=
  current ← observe_status tree;
  state ← lift (get "state" current);
  if negb (jeqs state "absent") then mret current
  else
    entry ← find_reusable tree;
    match entry with
    | None => mret current
    | Some entry =>
        try_except
          (done ← _materialize tree entry; if done : bool then observe_status tree else mret current)
          (λ e, if os_only e then Some (mret current) else None)
    end.

Definition ready_roots (tree : RepoTree) (f : fs) : outcome (list pystr) :=
  status ← prepare_status tree f; state ← get "state" status;
  if negb (jeqs state "ready") then Ret [] else roots ← get "roots" status; str_items roots.

Definition prepared_python_env (tree : RepoTree) (f : fs) : outcome (option pystr) :=
  status ← prepare_status tree f; state ← get "state" status;
  if negb (jeqs state "ready") then Ret None
  else
    venv ← get "python_venv" status;
    match venv with
    | JStr (c :: s) =>
        match realpath cwd f (child (t_root tree) (c :: s)) with
        | Some l => let python := child (child (Path (u "/") l) "bin") "python" in
                    Ret (if exists_ cwd python f then Some (path_str python) else None)
        | None => Raise symlink_loop
        end
    | _ => Ret None
    end.

Definition log_tail (tree : RepoTree) (lines : nat) (f : fs) : outcome pystr :=
  if negb (exists_ cwd (_log_path tree) f) then Ret []
  else b ← read_file cwd (_log_path tree) f;
       Ret (join [nl] (last_n lines (splitlines (universal_newlines (decode_replace b))))).

Definition _write_status (tree : RepoTree) (status : dict) : P unit :=
  mkdirs cwd (_prep_dir tree);; write_text_to cwd (_status_path tree) (dumps_indent 0 (JObj status)).

(** The directories that [os.walk] visits when node_modules and the sidecars are
    taken out of its way. *)
Definition not_descended (c : pystr) : bool := c ∈? [u "node_modules"; PREP_DIRNAME].
Definition walked (tree : RepoTree) (f : fs) : list loc :=
  match top_of cwd (t_root tree) f with Some top => walk not_descended f top | None => [] end.
(** The node_modules of a visited directory, when [os.walk] takes it for one. *)
Definition modules_of (tree : RepoTree) (rel : loc) : path := under (t_root tree) (rel ++ [u "node_modules"]).

Definition _detach_store_links (tree : RepoTree) : P unit :=
  linked ← gets (is_symlink cwd (_prep_dir tree));
  when linked (unlink cwd (_prep_dir tree));;
  visited ← gets (walked tree);
  for_each visited (λ rel,
    let nm := modules_of tree rel in
    there ← gets (λ f, is_dir cwd nm f && is_symlink cwd nm f);
    when there (unlink cwd nm)).

Definition start_prepare (launcher : P unit) (tree : RepoTree) (force : bool) (model : json) : P json :=
  let chosen := normalize_model model in
  current ← observe_status tree;
  state ← lift (get "state" current);
  if negb force && (jeqs state "installing" || jeqs state "ready") then mret current
  else
    reused ← (if force then mret false
              else entry ← find_reusable tree;
                   match entry with Some entry => _materialize tree entry | None => mret false end);
    if reused : bool then observe_status tree
    else
      _detach_store_links tree;;
      let status := [(u "state", JStr (u "installing")); (u "model", JStr chosen); (u "error", JNull)] in
      _write_status tree status;;
      launcher;;
      mret (JObj status).

Definition clear_prepared (tree : RepoTree) : P json :=
  visited ← gets (walked tree);
  for_each visited (λ rel,
    let nm := modules_of tree rel in
    there ← gets (is_dir cwd nm);
    when there
      (linked ← gets (is_symlink cwd nm);
       if linked : bool then unlink cwd nm else rmtree cwd nm));;
  linked ← gets (is_symlink cwd (_prep_dir tree));
  (if linked : bool then unlink cwd (_prep_dir tree) else rmtree cwd (_prep_dir tree));;
  mret absent.

(** ** The run *)

(** The agent on the file system: prompt, working directory, log, model, system
    prompt, header, timeout.  The probes: [subprocess.run]'s return code. *)
Context (agent : pystr → path → path → pystr → pystr → pystr → Z → P AgentRun).
Context (probe : list pystr → option path → P Z).

Definition _run_agent (tree : RepoTree) (model : pystr) (seed_hint : option pystr) : P AgentRun :=
  agent (_build_prompt seed_hint) (t_root tree) (_log_path tree) model _AGENT_APPEND_SYSTEM
    ([9679; 32]%N ++ u "Preparing rich types for " ++ t_repo tree ++ [32; 8212; 32]%N ++ u "this can take a few minutes.")
    _AGENT_TIMEOUT_S.

Definition _read_agent_findings (tree : RepoTree) (f : fs) : outcome dict :=
  if negb (exists_ cwd (_agent_result_path tree) f) then Ret []
  else match load_json (_agent_result_path tree) f with
       | Ret (JObj d) => Ret d
       | Ret _ | Raise (ValueError _) => Ret []
       | Raise e => Raise e
       end.

(** [(tree.root / rel).resolve()], when it is a directory inside the tree *)
Definition inside_dir (tree : RepoTree) (rel : pystr) (f : fs) : outcome (option path) :=
  match realpath cwd f (t_root tree), realpath cwd f (child (t_root tree) rel) with
  | Some top, Some l =>
      let dir := Path (u "/") l in
      Ret (if is_relative_to dir (Path (u "/") top) && is_dir cwd dir f then Some dir else None)
  | _, _ => Raise symlink_loop
  end.

Definition _verify_typescript (tree : RepoTree) (ts_dir : pystr) : P (bool * pystr) :=
  dir ← (λ f, (inside_dir tree ts_dir f, f));
  match dir with
  | None => mret (false, u "typescript_dir " ++ str_repr ts_dir ++ u " is not a directory inside the tree")
  | Some dir =>
      code ← probe [u "node"; u "-e"; u "require.resolve('typescript')"] (Some dir);
      mret (if (code =? 0)%Z then (true, []) else (false, u "typescript is not resolvable in " ++ str_repr ts_dir))
  end.

Definition _verify_python (tree : RepoTree) (venv_rel : pystr) : P (bool * pystr) :=
  dir ← (λ f, (inside_dir tree venv_rel f, f));
  match dir with
  | None => mret (false, u "python_venv " ++ str_repr venv_rel ++ u " is not a directory inside the tree")
  | Some venv =>
      let python := child (child venv "bin") "python" in
      there ← gets (exists_ cwd python);
      if negb there then mret (false, u "python_venv " ++ str_repr venv_rel ++ u " has no bin/python")
      else
        code ← probe [path_str python; u "-c"; u "import sys"] None;
        mret (if (code =? 0)%Z then (true, []) else (false, u "python venv at " ++ str_repr venv_rel ++ u " is not runnable"))
  end.

(** The first failure, if any. *)
Fixpoint verdict (results : list (bool * pystr)) : bool * pystr :=
  match results with
  | [] => (true, [])
  | (false, detail) :: _ => (false, detail)
  | _ :: results' => verdict results'
  end.

Definition _verify (tree : RepoTree) (findings : dict) : P (bool * pystr) :=
  ts ← match text_field "typescript_dir" findings with
       | Some ts_dir => r ← _verify_typescript tree ts_dir; mret [r] | None => mret [] end;
  py ← match text_field "python_venv" findings with
       | Some venv => r ← _verify_python tree venv; mret [r] | None => mret [] end;
  match ts ++ py with
  | [] => mret (false, u "prepare agent reported neither a typescript_dir nor a python_venv")
  | results => mret (verdict results)
  end.

Definition _seed_for_install (tree : RepoTree) (fingerprint : option pystr) (model : pystr) : P (option pystr) :=
  ready ← (λ f, (_ready_entries (t_repo tree) f, f));
  match List.filter (λ e, match fingerprint with Some fp => name e <>? fp | None => true end) ready with
  | [] => mret None
  | prior :: _ =>
      findings ← _seed_from_prior tree prior;
      _write_status tree [(u "state", JStr (u "installing")); (u "model", JStr model); (u "error", JNull)];;
      hint ← lift (_seed_hint findings);
      mret (Some hint)
  end.

(** [except (PrepareError, AgentError, OSError, subprocess.SubprocessError, ValueError)] *)
Definition expected (e : exn) : bool :=
  match e with AgentError _ | OSError _ | FileNotFoundError | TimeoutExpired | ValueError _ => true | _ => false end.

Definition run_status (model : pystr) (findings : dict) (run : AgentRun) (v : bool * pystr) : dict :=
  [(u "state", JStr (if v.1 then u "ready" else u "failed")); (u "model", JStr model);
   (u "package_manager", jget "package_manager" findings); (u "roots", jor (jget "roots" findings) (JList []));
   (u "typescript_dir", jget "typescript_dir" findings); (u "python_venv", jget "python_venv" findings);
   (u "notes", jget "notes" findings); (u "cost_usd", cost_usd run);
   (u "error", if v.1 then JNull else JStr v.2)].

Definition _run_prepare (pid : Z) (tree : RepoTree) (model : pystr) : P unit :=
  fingerprint ← (λ f, (dep_fingerprint (t_root tree) f, f));
  seed_hint ← _seed_for_install tree fingerprint model;
  status ← try_except
    (run ← _run_agent tree model seed_hint;
     findings ← (λ f, (_read_agent_findings tree f, f));
     v ← _verify tree findings;
     mret (run_status model findings run v))
    (λ e, if expected e
          then Some (mret [(u "state", JStr (u "failed")); (u "model", JStr model);
                           (u "error", JStr (take 1000 (exn_str e)))])
          else None);
  _write_status tree status;;
  match fingerprint with
  | Some fp =>
      if jeqs (jget "state" status) "ready" then
        roots ← lift (l ← iter_json (jget "roots" status); Ret (omap as_str (l : list json)));
        _publish pid tree fp roots
      else mret tt
  | None => mret tt
  end.
End prepare.
