(* ===== verification/PrepareFacts.v ===== *)
(** * pr_review: what preparing a checkout guarantees

    The theorems about [Prepare]: the fingerprint depends on the dependency
    files only, eviction keeps the most recently used entries, an install never
    writes into the shared store, a tree is ready only when its tools were
    verified; and where the code falls short of its comments. *)

From Stdlib Require Import NArith ZArith QArith Lia.
From S2P Require Import Prelude PyStr PyJson PyDumps PyMonad PyBytes PySha PyPath PyFs GithubTree AgentStream Prepare.
From stdpp Require Import options.
#[global] Open Scope nat_scope.
#[local] Open Scope py_scope.

(** ** Eviction *)
Section eviction.
Context (cwd : loc) (DATA_DIR : path) `{DirOrderLaws} {PR : PyRepr} (repo : pystr).
Abbreviation base := (_repo_store_dir DATA_DIR repo).
Abbreviation S_ := (loc_of cwd base).

(** A store: a real directory whose entries are no links. *)
Definition plain_store (f : fs) : Prop :=
  solid f S_ ∧ is_dir_node (nodes f !! S_) = true ∧ u ".." ∉ parts base ∧
  (∀ c t, nodes f !! (S_ ++ [c]) ≠ Some (NLink t)) ∧ nodes f !! (S_ ++ [u ".."]) = None.

Definition entry_path (c : pystr) : path := Path (root base) (parts base ++ [c]).

Lemma entry_path_inj c d : entry_path c = entry_path d → c = d.
Proof. unfold entry_path. intros [= E]. by apply app_inj_tail in E as [_ ->]. Qed.

Lemma rmtree_all cs : ∀ f,
  plain_store f → NoDup cs → (∀ c, c ∈ cs → is_dir_node (nodes f !! (S_ ++ [c])) = true) →
  ∃ f', for_each (map entry_path cs) (rmtree cwd) f = (Ret tt, f') ∧ plain_store f' ∧
    ∀ k, k ≠ S_ → nodes f' !! k = if existsb (λ c, bool_decide (S_ ++ [c] `prefix_of` k)) cs then None else nodes f !! k.
Proof.
  induction cs as [|c cs IH]; intros f Hf Hnd Hdir.
  { exists f. split; [done|]. split; [done|]. done. }
  apply NoDup_cons in Hnd as [Hc Hnd]. pose proof Hf as (Hs & Hd & Hup & Hl & Hdd).
  pose proof (Hdir c ltac:(left)) as Hcd.
  assert (c ≠ u "..") as Hne. { intros ->. by rewrite Hdd in Hcd. }
  destruct (nodes f !! (S_ ++ [c])) as [[|t|]|] eqn:Ec; try done.
  cbn [map for_each]. erewrite M_bind_ret by by apply (rmtree_entry cwd f base c Hs Hd Hup Hne t).
  assert (∀ k, k ≠ S_ → nodes (remove_tree (S_ ++ [c]) f) !! k =
            if bool_decide (S_ ++ [c] `prefix_of` k) then None else nodes f !! k) as Hrm.
  { intros k Hk. apply lookup_remove. by rewrite removelast_last. }
  assert (∀ d, S_ ++ [d] ≠ S_) as Hsn.
  { intros d E. apply (f_equal length) in E. rewrite length_app in E. simpl in E. lia. }
  destruct (IH (remove_tree (S_ ++ [c]) f)) as (f' & Hf' & Hp' & Hk').
  - split_and!.
    + by apply solid_remove; [apply not_prefix_snoc|].
    + rewrite dir_remove; [done|apply not_prefix_snoc].
    + done.
    + intros d t'. rewrite Hrm by done. case_bool_decide; [done|apply Hl].
    + rewrite Hrm by done. by case_bool_decide.
  - done.
  - intros d Hin. rewrite Hrm by done. rewrite bool_decide_eq_false_2; [by apply Hdir; right|].
    intros [r Er]. rewrite <- app_assoc in Er. apply app_inv_head in Er. injection Er as <- _. done.
  - exists f'. split; [done|]. split; [done|]. intros k Hk. rewrite Hk' by done. cbn [existsb].
    rewrite Hrm by done. case_bool_decide; cbn [orb]; by destruct (existsb _ cs).
Qed.

Lemma top_of_store f : plain_store f → top_of cwd base f = Some S_.
Proof.
  intros (Hs & Hd & Hup & _). unfold top_of. rewrite stat_solid by done.
  by destruct (nodes f !! S_) as [[]|].
Qed.

Lemma elem_store_entries f e :
  plain_store f →
  e ∈ store_entries cwd DATA_DIR repo f ↔
  ∃ c, e = entry_path c ∧ is_dir_node (nodes f !! (S_ ++ [c])) = true ∧ startswith ".staging-" c = false.
Proof using Type*.
  intros Hf. pose proof Hf as (Hs & Hd & Hup & Hl & Hdd). unfold store_entries, iterdir. rewrite top_of_store by done.
  rewrite list_elem_of_In, filter_In, in_map_iff. split.
  - intros [(c & <- & Hc) He]. apply list_elem_of_In, elem_entries in Hc.
    assert (c ≠ u "..") as Hne. { intros ->. rewrite Hdd in Hc. by destruct Hc. }
    exists c. split; [done|]. apply andb_true_iff in He as [H1 H2]. unfold under in H1, H2.
    rewrite is_dir_entry in H1 by done. unfold name in H2. cbn in H2. rewrite last_last in H2.
    split; [done|]. by apply negb_true_iff in H2.
  - intros (c & -> & Hc & Hst).
    assert (c ≠ u "..") as Hne. { intros ->. by rewrite Hdd in Hc. }
    split.
    + exists c. split; [done|]. apply list_elem_of_In, elem_entries. destruct (nodes f !! (S_ ++ [c])); [by eexists|done].
    + apply andb_true_iff. unfold entry_path. rewrite is_dir_entry by done. split; [done|].
      unfold name. cbn. rewrite last_last. by rewrite Hst.
Qed.

Lemma NoDup_store_entries f : plain_store f → NoDup (store_entries cwd DATA_DIR repo f).
Proof using Type*.
  intros Hf. unfold store_entries, iterdir. rewrite top_of_store by done.
  assert (NoDup (map (λ c, under base [c]) (entries S_ f))) as Hnd.
  { apply (NoDup_fmap_2_strong (λ c, under base [c])); [|apply NoDup_entries].
    intros c d _ _ E. by apply entry_path_inj. }
  revert Hnd. generalize (map (λ c, under base [c]) (entries S_ f)) as l. clear.
  induction 1 as [|e l He _ IH]; [constructor|]. cbn [List.filter]. destruct (_ && _); [|done].
  constructor; [|done]. rewrite list_elem_of_In, filter_In. intros [Hin _]. by apply He, list_elem_of_In.
Qed.

Definition mtime (f : fs) (e : path) : Q := default 0%Q (st_mtime cwd e f).

Lemma newest_first_sorted f l : StronglySorted (λ a b, (mtime f b <= mtime f a)%Q) (newest_first cwd f l).
Proof.
  pose proof (sort_by_sorted (λ a b : path, Qle_bool (mtime f b) (mtime f a))
    ltac:(intros a b; rewrite !Qle_bool_iff; destruct (Qlt_le_dec (mtime f a) (mtime f b)); [right; by apply Qlt_le_weak|by left])
    ltac:(intros a b c; rewrite !Qle_bool_iff; intros ? ?; by eapply Qle_trans) l) as Hs.
  change (newest_first cwd f l) with (sort_by (λ a b, Qle_bool (mtime f b) (mtime f a)) l).
  unfold sorted_by in Hs. revert Hs. generalize (sort_by (λ a b, Qle_bool (mtime f b) (mtime f a)) l) as m.
  induction 1 as [|a m _ IH Ha]; constructor; [done|]. eapply Forall_impl; [exact Ha|]. intros b. cbn. by rewrite Qle_bool_iff.
Qed.

(** The store is bounded and evicts the least recently used: after an eviction
    the entries left are the [keep] most recently used ones, untouched, and
    nothing of the others remains. *)
Theorem evict_keeps_newest keep f :
  plain_store f →
  ∃ f', _evict_store cwd DATA_DIR repo keep f = (Ret tt, f') ∧
    let kept := take keep (newest_first cwd f (store_entries cwd DATA_DIR repo f)) in
    length kept ≤ keep ∧
    (∀ e, e ∈ store_entries cwd DATA_DIR repo f' ↔ e ∈ kept) ∧
    (∀ e old, e ∈ kept → old ∈ store_entries cwd DATA_DIR repo f → old ∉ kept → (mtime f old <= mtime f e)%Q) ∧
    (∀ c k, entry_path c ∈ kept → S_ ++ [c] `prefix_of` k → nodes f' !! k = nodes f !! k).
Proof using Type*.
  intros Hf. set (l := store_entries cwd DATA_DIR repo f). set (s := newest_first cwd f l).
  assert (s ≡ₚ l) as Hperm by apply sort_by_perm.
  assert (∀ e old, e ∈ take keep s → old ∈ l → old ∉ take keep s → (mtime f old <= mtime f e)%Q) as Hold.
  { intros e old He Ho Hn. pose proof (newest_first_sorted f l) as Hs. fold s in Hs. rewrite <- (take_drop keep s) in Hs.
    rewrite <- Hperm, <- (take_drop keep s), elem_of_app in Ho. destruct Ho as [Ho|Ho]; [done|].
    exact (StronglySorted_app_1_elem_of _ _ _ _ _ Hs He Ho). }
  assert (is_dir cwd base f = true) as Hbase.
  { pose proof (top_of_store f Hf) as Ht. unfold top_of in Ht. unfold is_dir. destruct (stat _ _ _) as [[? []]|]; done. }
  unfold _evict_store. erewrite M_bind_ret by reflexivity. rewrite Hbase. cbn [negb].
  erewrite M_bind_ret by reflexivity. fold l. destruct (length l <=? keep)%nat eqn:El.
  { apply Nat.leb_le in El. exists f. split; [done|]. rewrite (take_ge s) by by rewrite Hperm. split_and!; [by rewrite Hperm| | |done].
    - intros e. by rewrite Hperm.
    - intros e old _ Ho Hn. rewrite Hperm in Hn. done. }
  apply Nat.leb_gt in El. erewrite M_bind_ret by reflexivity. fold s.
  assert (∀ e, e ∈ s → ∃ c, e = entry_path c ∧ is_dir_node (nodes f !! (S_ ++ [c])) = true ∧ startswith ".staging-" c = false) as Hs.
  { intros e. rewrite Hperm. by apply elem_store_entries. }
  assert (NoDup s) as Hnd by (rewrite Hperm; by apply NoDup_store_entries).
  assert (∃ cs, drop keep s = map entry_path cs) as [cs Ecs].
  { assert (∀ e, e ∈ drop keep s → ∃ c, e = entry_path c) as Hd.
    { intros e He. destruct (Hs e) as (c & -> & _); [|by exists c].
      rewrite <- (take_drop keep s), elem_of_app. by right. }
    revert Hd. generalize (drop keep s) as m. induction m as [|e m IH]; intros Hd; [by exists []|].
    destruct (Hd e ltac:(left)) as [c ->]. destruct IH as [cs ->]; [intros e He; apply Hd; by right|].
    by exists (c :: cs). }
  assert (∀ c, c ∈ cs ↔ entry_path c ∈ drop keep s) as Hcs.
  { intros c. rewrite Ecs, !list_elem_of_In, in_map_iff. split; [intros ?; by exists c|].
    intros (d & E & Hd). by apply entry_path_inj in E as <-. }
  assert (∀ e, e ∈ take keep s → e ∈ drop keep s → False) as Hdisj.
  { rewrite <- (take_drop keep s) in Hnd. apply NoDup_app in Hnd as (_ & Hnd & _). exact Hnd. }
  rewrite Ecs. destruct (rmtree_all cs f Hf) as (f' & Hf' & Hp' & Hk').
  { apply (NoDup_fmap_1 entry_path). change (entry_path <$> cs) with (map entry_path cs). rewrite <- Ecs.
    rewrite <- (take_drop keep s) in Hnd. by apply NoDup_app in Hnd as (_ & _ & Hnd). }
  { intros c Hc%Hcs. destruct (Hs (entry_path c)) as (d & E & Hd & _); [|by apply entry_path_inj in E as ->].
    rewrite <- (take_drop keep s), elem_of_app. by right. }
  assert (∀ c k, c ∉ cs → S_ ++ [c] `prefix_of` k → nodes f' !! k = nodes f !! k) as Hsame.
  { intros c k Hc [r ->]. rewrite Hk'.
    - enough (existsb (λ c0, bool_decide (S_ ++ [c0] `prefix_of` (S_ ++ [c]) ++ r)) cs = false) as -> by done.
      apply existsb_none. intros d Hd. apply bool_decide_eq_false_2. intros [r' E]. rewrite <- !app_assoc in E.
      apply app_inv_head in E. injection E as -> _. done.
    - intros E. apply (f_equal length) in E. rewrite !length_app in E. simpl in E. lia. }
  assert (∀ c, entry_path c ∈ take keep s → c ∉ cs) as Hkc by (intros c Hc Hin%Hcs; by eapply Hdisj).
  exists f'. split; [done|]. split_and!.
  - rewrite length_take. lia.
  - intros e. rewrite elem_store_entries by done. split.
    + intros (c & -> & Hd & Hst). assert (c ∉ cs) as Hc.
      { intros Hc. rewrite Hk' in Hd.
        - rewrite (proj2 (existsb_elem _ _)) in Hd; [done|]. exists c. split; [done|]. by apply bool_decide_eq_true_2.
        - intros E. apply (f_equal length) in E. rewrite length_app in E. simpl in E. lia. }
      rewrite (Hsame c) in Hd by done.
      assert (entry_path c ∈ s) as Hin.
      { rewrite Hperm. apply elem_store_entries; [done|]. by exists c. }
      rewrite <- (take_drop keep s), elem_of_app in Hin. destruct Hin as [|Hin]; [done|]. by apply Hcs in Hin.
    + intros He. destruct (Hs e) as (c & -> & Hd & Hst).
      { rewrite <- (take_drop keep s), elem_of_app. by left. }
      exists c. split; [done|]. by rewrite (Hsame c) by (done || by apply Hkc).
  - exact Hold.
  - intros c k Hc. apply Hsame. by apply Hkc.
Qed.
End eviction.

(** ** Fingerprints *)

Lemma split_join c l : l ≠ [] → Forall (λ w, c ∉ w) l → split_char c (join [c] l) = l.
Proof.
  intros Hne Hl. induction Hl as [|w l Hw Hl IH]; [done|]. destruct l as [|w2 l].
  - cbn [join]. by apply split_char_one.
  - specialize (IH ltac:(done)). change (join [c] (w :: w2 :: l)) with (w ++ c :: join [c] (w2 :: l)).
    revert IH. generalize (join [c] (w2 :: l)) as s. intros s IH. clear Hl Hne. induction w as [|d w IHw]; cbn [app split_char].
    + by rewrite N.eqb_refl, IH.
    + apply not_elem_of_cons in Hw as [Hd Hw]. rewrite (proj2 (N.eqb_neq d c)) by done. by rewrite IHw.
Qed.

Lemma sorted_perm_unique {A} (leb : A → A → bool) l1 l2 :
  StronglySorted (λ a b, leb a b = true) l1 → StronglySorted (λ a b, leb a b = true) l2 → l1 ≡ₚ l2 →
  (∀ a b, a ∈ l1 → b ∈ l1 → leb a b = true → leb b a = true → a = b) → l1 = l2.
Proof.
  intros H1. revert l2. induction H1 as [|a l1 H1 IH Ha]; intros l2 H2 Hp Hanti; [by apply Permutation_nil_l in Hp|].
  destruct H2 as [|b l2 H2 Hb]; [by apply Permutation_nil_r in Hp|].
  assert (a = b) as <-.
  { assert (a ∈ b :: l2) as Ha2 by (rewrite <- Hp; left). assert (b ∈ a :: l1) as Hb1 by (rewrite Hp; left).
    rewrite Forall_forall in Ha, Hb. apply elem_of_cons in Ha2 as [->|Ha2]; [done|].
    pose proof Hb1 as Hb1'. apply elem_of_cons in Hb1' as [->|Hb1']; [done|]. apply Hanti; [left|done|by apply Ha|by apply Hb]. }
  f_equal. apply IH; [done| |].
  - by apply (Permutation_cons_inv (a := a)).
  - intros x y Hx Hy. apply Hanti; by right.
Qed.

Section fingerprints.
Implicit Types (root : path) (f : fs) (rel : loc).

(** [rel] names a dependency file of the checkout: not below an artifact
    directory, and not a directory itself. *)
Definition dep_at (cwd : loc) root f rel : Prop :=
  ∃ top ds c, top_of cwd root f = Some top ∧ rel = ds ++ [c] ∧ walkable artifact f top ds ∧
    is_Some (nodes f !! (top ++ rel)) ∧ is_dep_file c = true ∧ is_dir cwd (under root rel) f = false.

(** No name of a file holds a slash. *)
Definition proper_names f : Prop := ∀ l n, nodes f !! l = Some n → Forall (λ c, slash ∉ c) l.

Section one.
Context (cwd : loc) `{DirOrderLaws} root f.

Lemma elem_iter_dep_files rel : rel ∈ _iter_dep_files cwd root f ↔ dep_at cwd root f rel.
Proof using Type*.
  unfold _iter_dep_files, dep_at. destruct (top_of cwd root f) as [top|]; [|split; [by intros ?%elem_of_nil|by intros (? & ? & ? & ? & _)]].
  rewrite list_elem_of_In, in_flat_map. split.
  - intros (ds & Hds & Hr). apply in_map_iff in Hr as (c & <- & Hc). apply filter_In in Hc as [Hc Hb].
    apply list_elem_of_In, elem_walk in Hds. apply list_elem_of_In, elem_entries in Hc. rewrite <- app_assoc in Hc.
    apply andb_true_iff in Hb as [Hb1 Hb2]. apply negb_true_iff in Hb2. by exists top, ds, c.
  - intros (? & ds & c & [= <-] & -> & Hw & Hn & Hc & Hd). exists ds. split; [by apply list_elem_of_In, elem_walk|].
    apply in_map_iff. exists c. split; [done|]. apply filter_In. split.
    + apply list_elem_of_In, elem_entries. by rewrite <- app_assoc.
    + by rewrite Hc, Hd.
Qed.

Lemma NoDup_iter_dep_files : NoDup (_iter_dep_files cwd root f).
Proof using Type*.
  unfold _iter_dep_files. destruct (top_of cwd root f) as [top|]; [|constructor].
  pose proof (NoDup_walk artifact f top) as Hw. induction Hw as [|ds l Hds _ IH]; [constructor|]. cbn [flat_map].
  apply NoDup_app. split_and!; [| |done].
  - apply (NoDup_fmap_2_strong (λ c, ds ++ [c])); [intros c d _ _ E; by apply app_inj_tail in E as [_ ->]|].
    assert (∀ (P : pystr → bool) m, NoDup m → NoDup (List.filter P m)) as Hf; [|apply Hf, NoDup_entries].
    intros P m. induction 1 as [|c m Hc _ IHm]; [constructor|]. cbn. destruct (P c); [|done]. constructor; [|done].
    rewrite list_elem_of_In, filter_In. intros [Hin _]. by apply Hc, list_elem_of_In.
  - intros x Hx Hin. apply list_elem_of_In, in_map_iff in Hx as (c & <- & _).
    apply list_elem_of_In, in_flat_map in Hin as (ds' & Hds' & Hin). apply in_map_iff in Hin as (d & E & _).
    apply app_inj_tail in E as [-> _]. by apply Hds, list_elem_of_In.
Qed.

Lemma dep_names rel : proper_names f → dep_at cwd root f rel → rel ≠ [] ∧ Forall (λ c, slash ∉ c) rel.
Proof.
  intros Hp (top & ds & c & _ & -> & _ & [n Hn] & _). split; [by destruct ds|].
  apply Hp in Hn. by apply Forall_app in Hn as [_ Hn].
Qed.

Lemma as_posix_inj r1 r2 :
  r1 ≠ [] → r2 ≠ [] → Forall (λ c, slash ∉ c) r1 → Forall (λ c, slash ∉ c) r2 → as_posix r1 = as_posix r2 → r1 = r2.
Proof. intros H1 H2 H3 H4 E. rewrite <- (split_join slash r1), <- (split_join slash r2) by done. unfold as_posix in E. by rewrite E. Qed.
End one.

(** The fingerprint is a function of the dependency files: two checkouts, in
    whatever places and listed in whatever order, that have the same dependency
    files with the same contents have the same fingerprint, whatever else they
    hold. *)
Theorem fingerprint_by_dep_files cwd1 cwd2 {D1 D2 : DirOrder} {L1 : DirOrderLaws D1} {L2 : DirOrderLaws D2} root1 f1 root2 f2 :
  proper_names f1 → (∀ rel, dep_at cwd1 root1 f1 rel ↔ dep_at cwd2 root2 f2 rel) →
  (∀ rel, dep_at cwd1 root1 f1 rel → read_file cwd1 (under root1 rel) f1 = read_file cwd2 (under root2 rel) f2) →
  dep_fingerprint (H := D1) cwd1 root1 f1 = dep_fingerprint (H := D2) cwd2 root2 f2.
Proof.
  intros Hn Hsame Hread. unfold dep_fingerprint.
  set (l1 := _iter_dep_files (H := D1) cwd1 root1 f1). set (l2 := _iter_dep_files (H := D2) cwd2 root2 f2).
  assert (l1 ≡ₚ l2) as Hp.
  { apply NoDup_Permutation; [by apply NoDup_iter_dep_files|by apply NoDup_iter_dep_files|]. intros rel. unfold l1, l2. by rewrite !elem_iter_dep_files. }
  destruct l1 as [|a l1'] eqn:E1; [apply Permutation_nil_l in Hp as <-; done|].
  destruct l2 as [|b l2'] eqn:E2; [by apply Permutation_nil_r in Hp|]. rewrite <- E1, <- E2 in *.
  set (leb := λ a b, str_leb (as_posix a) (as_posix b)).
  assert (sort_by leb l1 = sort_by leb l2) as ->.
  { assert (∀ l, StronglySorted (λ a b, leb a b = true) (sort_by leb l)) as Hs.
    { intros l. apply (sort_by_sorted leb); [intros; apply str_leb_total|intros x y z; apply str_leb_trans]. }
    apply (sorted_perm_unique leb); [by apply Hs|by apply Hs|by rewrite !sort_by_perm|].
    intros x y Hx Hy Hxy Hyx. rewrite sort_by_elem in Hx, Hy. unfold l1 in Hx, Hy.
    apply (elem_iter_dep_files cwd1 (H := D1)) in Hx, Hy. destruct (dep_names _ _ _ _ Hn Hx), (dep_names _ _ _ _ Hn Hy).
    apply as_posix_inj; [done..|]. by apply str_leb_antisym. }
  assert (∀ l, (∀ rel, rel ∈ l → dep_at cwd1 root1 f1 rel) → mapO (digest_input cwd1 root1 f1) l = mapO (digest_input cwd2 root2 f2) l) as ->.
  { induction l as [|rel l IH]; intros Hl; [done|]. cbn [mapO].
    assert (digest_input cwd1 root1 f1 rel = digest_input cwd2 root2 f2 rel) as ->.
    { unfold digest_input. by rewrite (Hread rel) by (apply Hl; left). }
    rewrite IH; [done|]. intros r Hr. apply Hl. by right. }
  - done.
  - intros rel. rewrite sort_by_elem, <- Hp. by apply (elem_iter_dep_files cwd1 (H := D1)).
Qed.
End fingerprints.

(** ** An install stays in its checkout *)
Section local.
Context (cwd : loc) (DATA_DIR : path) `{DirOrderLaws} {PR : PyRepr} (tree : RepoTree).
Abbreviation R := (loc_of cwd (t_root tree)).
Abbreviation Pl := (R ++ [PREP_DIRNAME]).

(** The checkout is a real directory; its sidecar, when it is one, holds a
    status that is an ordinary file, if any. *)
Definition plain_checkout (f : fs) : Prop :=
  tree_ok f ∧ solid f R ∧ is_dir_node (nodes f !! R) = true ∧ u ".." ∉ parts (t_root tree) ∧
  match nodes f !! Pl with Some (NFile _) => False | _ => True end ∧
  match nodes f !! (Pl ++ [u "status.json"]) with Some (NDir _) | Some (NLink _) => False | _ => True end.
(** Nothing outside the checkout is different. *)
Definition local (f g : fs) : Prop := ∀ k, ¬ R `prefix_of` k → nodes g !! k = nodes f !! k.

(** Unlinking the link [l] of the checkout. *)
Lemma remove_link f l t :
  tree_ok f → nodes f !! l = Some (NLink t) → R `prefix_of` l → l ≠ R →
  let g := remove_tree l f in
  tree_ok g ∧ within g f ∧ local f g ∧ nodes g !! l = None ∧
  (∀ k, is_dir_node (nodes g !! k) = is_dir_node (nodes f !! k)) ∧
  (∀ k t', nodes g !! k = Some (NLink t') ↔ k ≠ l ∧ nodes f !! k = Some (NLink t')).
Proof.
  intros Hok Hl HR Hne g.
  destruct l as [|c l' _] using rev_ind; [by destruct Hne; symmetry; apply prefix_nil_inv|].
  assert (∀ k, l' ++ [c] `prefix_of` k → k ≠ l' ++ [c] → nodes f !! k = None) as Hbelow.
  { intros k [r ->] Hk. destruct r as [|x r]; [by rewrite app_nil_r in Hk|]. clear Hk. revert x.
    induction r as [|y r IH] using rev_ind; intros x.
    - destruct (nodes f !! ((l' ++ [c]) ++ [x])) as [n|] eqn:E; [|done].
      pose proof (Hok (l' ++ [c]) x ltac:(by eexists)) as Hd. by rewrite Hl in Hd.
    - destruct (nodes f !! ((l' ++ [c]) ++ x :: r ++ [y])) as [n|] eqn:E; [|done]. rewrite app_comm_cons, app_assoc in E.
      pose proof (Hok _ _ ltac:(by eexists)) as Hd. by rewrite IH in Hd. }
  assert (∀ k, is_dir_node (nodes g !! k) = is_dir_node (nodes f !! k)) as Hdir.
  { intros k. destruct (decide (l' ++ [c] `prefix_of` k)) as [Hp|Hp]; [|by apply dir_remove].
    assert (is_dir_node (nodes f !! k) = false) as ->.
    { destruct (decide (k = l' ++ [c])) as [->|Hk]; [by rewrite Hl|by rewrite Hbelow]. }
    subst g. unfold remove_tree. rewrite dir_touch. cbn. rewrite map_lookup_filter. destruct (nodes f !! k); cbn; [|done].
    case_guard; done. }
  assert (nodes g !! (l' ++ [c]) = None) as Hgone.
  { subst g. rewrite lookup_remove.
    - by rewrite bool_decide_eq_true_2.
    - rewrite removelast_last. intros E. apply (f_equal length) in E. rewrite length_app in E. simpl in E. lia. }
  split_and!; [|apply within_remove| |done|done|].
  - intros k d Hk. rewrite Hdir. apply (Hok k d). destruct Hk as [n Hn].
    destruct (within_remove _ _ _ _ Hn) as (n' & -> & _). by eexists.
  - intros k Hk. subst g. rewrite lookup_remove.
    + rewrite bool_decide_eq_false_2; [done|]. intros Hp. apply Hk. by etrans.
    + rewrite removelast_last. intros ->. apply Hk. destruct (prefix_snoc_inv _ _ _ HR); done.
  - intros k t'. split.
    + intros Hk. split; [intros ->; congruence|]. destruct (within_remove _ _ _ _ Hk) as (n' & Hn & Hs). cbn in Hs. by subst.
    + intros [Hk Ht]. apply link_remove; [|done]. intros Hp. by rewrite Hbelow in Ht.
Qed.

Lemma local_refl f : local f f. Proof. by intros k. Qed.
Lemma local_trans f g h : local f g → local g h → local f h.
Proof. intros H1 H2 k Hk. by rewrite H2, H1. Qed.

Lemma walkable_solid f rel :
  solid f R → is_dir_node (nodes f !! R) = true → walkable not_descended f R rel →
  solid f (R ++ rel) ∧ is_dir_node (nodes f !! (R ++ rel)) = true.
Proof.
  intros Hs Hd. induction rel as [|c rel IH] using rev_ind; intros Hw; [by rewrite app_nil_r|].
  destruct IH as [IH1 IH2]; [intros ds d [r Hr]; apply Hw; exists (r ++ [c]); by rewrite app_assoc, <- Hr|].
  destruct (Hw rel c ltac:(by exists []; rewrite app_nil_r)) as [_ Hc]. rewrite app_assoc in *.
  split; [by apply solid_snoc|done].
Qed.

(** No ".." entries. *)
Lemma loc_under rel : loc_of cwd (under (t_root tree) rel) = R ++ rel.
Proof. unfold loc_of, under. cbn. unfold base. cbn. by rewrite app_assoc. Qed.

Definition detached (g : fs) (rel : loc) : Prop :=
  ¬ (is_dir cwd (modules_of tree rel) g = true ∧ is_symlink cwd (modules_of tree rel) g = true).

Definition unlink_modules (rel : loc) : M fs unit :=
  let nm := modules_of tree rel in
  there ← gets (λ f, is_dir cwd nm f && is_symlink cwd nm f);
  when there (unlink cwd nm).

Lemma unlink_modules_spec f rel :
  tree_ok f → solid f R → is_dir_node (nodes f !! R) = true → u ".." ∉ parts (t_root tree) → u ".." ∉ rel →
  walkable not_descended f R rel →
  ∃ g, unlink_modules rel f = (Ret tt, g) ∧ tree_ok g ∧ within g f ∧ local f g ∧
    (∀ k, is_dir_node (nodes g !! k) = is_dir_node (nodes f !! k)) ∧ detached g rel.
Proof.
  intros Hok Hs Hd Hup Hrel Hw. destruct (walkable_solid f rel Hs Hd Hw) as [Hs' Hd'].
  rewrite <- loc_under in Hs', Hd'.
  assert (u ".." ∉ parts (under (t_root tree) rel)) as Hup' by (cbn; rewrite elem_of_app; tauto).
  assert (u "node_modules" ≠ u "..") as Hnm by done.
  assert (modules_of tree rel = Path (root (under (t_root tree) rel)) (parts (under (t_root tree) rel) ++ [u "node_modules"])) as Em.
  { unfold modules_of, under. cbn. by rewrite app_assoc. }
  unfold unlink_modules. erewrite M_bind_ret by reflexivity.
  destruct (is_dir cwd (modules_of tree rel) f && is_symlink cwd (modules_of tree rel) f) eqn:E; cbn [when].
  - apply andb_true_iff in E as [_ E]. rewrite Em in E |- *. rewrite symlink_entry in E by done.
    destruct (nodes f !! (loc_of cwd (under (t_root tree) rel) ++ [u "node_modules"])) as [[| |t]|] eqn:El; try done.
    erewrite unlink_entry by done. eexists. split; [done|].
    destruct (remove_link f _ t Hok El) as (H1 & H2 & H3 & H4 & H5 & H6).
    { rewrite loc_under, <- app_assoc. by eexists. }
    { rewrite loc_under. intros E'. apply (f_equal length) in E'. rewrite !length_app in E'. simpl in E'. lia. }
    split_and!; [done..|]. intros [_ Hl]. rewrite Em, symlink_entry in Hl.
    + by rewrite H4 in Hl.
    + intros k c Hk. rewrite H5. by apply Hs'.
    + by rewrite H5.
    + done.
    + done.
  - exists f. split_and!; [done|done|apply within_refl|apply local_refl|done|]. intros [E1 E2]. by rewrite E1, E2 in E.
Qed.

Lemma detached_within f g rel :
  solid f R → is_dir_node (nodes f !! R) = true → u ".." ∉ parts (t_root tree) → u ".." ∉ rel →
  walkable not_descended f R rel →
  within g f → (∀ k, is_dir_node (nodes g !! k) = is_dir_node (nodes f !! k)) → detached f rel → detached g rel.
Proof.
  intros Hs Hd Hup Hrel Hw Hwi Hdir Hdet [H1 H2]. apply Hdet. split; [by eapply is_dir_within|].
  destruct (walkable_solid f rel Hs Hd Hw) as [Hs' Hd']. rewrite <- loc_under in Hs', Hd'.
  assert (u ".." ∉ parts (under (t_root tree) rel)) as Hup' by (cbn; rewrite elem_of_app; tauto).
  assert (u "node_modules" ≠ u "..") as Hnm by done.
  assert (modules_of tree rel = Path (root (under (t_root tree) rel)) (parts (under (t_root tree) rel) ++ [u "node_modules"])) as Em.
  { unfold modules_of, under. cbn. by rewrite app_assoc. }
  rewrite Em in *. rewrite symlink_entry in H2 |- *; try done.
  - destruct (nodes g !! _) as [[| |t]|] eqn:E; try done.
    destruct (Hwi _ _ E) as (n & -> & Hn). cbn in Hn. by subst.
  - intros k c Hk. rewrite Hdir. by apply Hs'.
  - by rewrite Hdir.
Qed.

Lemma unlink_all rels : ∀ f,
  tree_ok f → solid f R → is_dir_node (nodes f !! R) = true → u ".." ∉ parts (t_root tree) →
  (∀ rel, rel ∈ rels → walkable not_descended f R rel ∧ u ".." ∉ rel) →
  ∃ g, for_each rels unlink_modules f = (Ret tt, g) ∧ tree_ok g ∧ within g f ∧ local f g ∧
    (∀ k, is_dir_node (nodes g !! k) = is_dir_node (nodes f !! k)) ∧ (∀ rel, rel ∈ rels → detached g rel).
Proof.
  induction rels as [|rel rels IH]; intros f Hok Hs Hd Hup Hrels.
  { exists f. split_and!; [done|done|apply within_refl|apply local_refl|done|]. intros rel Hin. by apply elem_of_nil in Hin. }
  destruct (Hrels rel ltac:(left)) as [Hw Hrel].
  destruct (unlink_modules_spec f rel Hok Hs Hd Hup Hrel Hw) as (g & Eg & Hok' & Hwi & Hlo & Hdir & Hdet).
  cbn [for_each]. erewrite M_bind_ret by exact Eg.
  assert (solid g R) as Hsg by (intros k c Hk; rewrite Hdir; by apply Hs).
  assert (∀ r, walkable not_descended f R r → walkable not_descended g R r) as Hwg.
  { intros r Hr ds c Hp. rewrite Hdir. by apply Hr. }
  destruct (IH g Hok' Hsg) as (h & Eh & Hok'' & Hwi' & Hlo' & Hdir' & Hdet'); [by rewrite Hdir|done| |].
  { intros r Hr. destruct (Hrels r ltac:(by right)). split; [by apply Hwg|done]. }
  exists h. split; [exact Eh|]. split; [done|]. split; [by eapply within_trans|]. split; [by eapply local_trans|].
  split; [intros k; by rewrite Hdir', Hdir|].
  intros r Hr. apply elem_of_cons in Hr as [->|Hr]; [|by apply Hdet'].
  apply (detached_within g); [done|by rewrite Hdir|done|done|by apply Hwg|done|done|done].
Qed.

(** The checkout with none of its node_modules or its sidecar in the store. *)
Definition own_checkout (g : fs) : Prop :=
  plain_checkout g ∧ (∀ t, nodes g !! Pl ≠ Some (NLink t)) ∧
  ∀ rel, walkable not_descended g R rel → detached g rel.

Lemma plain_within f g :
  plain_checkout f → tree_ok g → within g f → (∀ k, is_dir_node (nodes g !! k) = is_dir_node (nodes f !! k)) → plain_checkout g.
Proof.
  intros (_ & Hs & Hd & Hup & Hp & Hst) Hok Hw Hdir. split_and!; [done|intros k c Hk; rewrite Hdir; by apply Hs|by rewrite Hdir|done| |].
  - destruct (nodes g !! Pl) as [[]|] eqn:E; try done. destruct (Hw _ _ E) as (n & Hn & Hk). cbn in Hk. subst. by rewrite Hn in Hp.
  - destruct (nodes g !! (Pl ++ _)) as [n|] eqn:E; [|done]. destruct (Hw _ _ E) as (n' & Hn & Hk). rewrite Hn in Hst.
    destruct n, n'; simpl in Hk; done.
Qed.

Lemma top_of_checkout f : plain_checkout f → top_of cwd (t_root tree) f = Some R.
Proof.
  intros (_ & Hs & Hd & Hup & _). unfold top_of. rewrite stat_solid by done. by destruct (nodes f !! R) as [[]|].
Qed.

Lemma prep_dir_eq : _prep_dir tree = Path (root (t_root tree)) (parts (t_root tree) ++ [PREP_DIRNAME]).
Proof. unfold _prep_dir. apply child_plain. by apply (bool_decide_unpack _). Qed.

(** Unlinking a linked sidecar. *)
Lemma unlink_sidecar f :
  plain_checkout f →
  ∃ g, when (is_symlink cwd (_prep_dir tree) f) (unlink cwd (_prep_dir tree)) f = (Ret tt, g) ∧
    plain_checkout g ∧ within g f ∧ local f g ∧ (∀ t, nodes g !! Pl ≠ Some (NLink t)).
Proof.
  intros Hf. pose proof Hf as (Hok & Hs & Hd & Hup & _). assert (PREP_DIRNAME ≠ u "..") as Hne by done.
  rewrite prep_dir_eq, symlink_entry by done.
  destruct (nodes f !! Pl) as [[| |t]|] eqn:E; cbn [when].
  3: { erewrite unlink_entry by done. eexists. split; [done|].
       destruct (remove_link f _ t Hok E) as (H1 & H2 & H3 & H4 & H5 & H6).
       - by eexists.
       - intros E'. apply (f_equal length) in E'. rewrite length_app in E'. simpl in E'. lia.
       - split; [by eapply plain_within|]. split; [done|]. split; [done|]. intros t'. by rewrite H4. }
  all: exists f; split; [done|]; split; [done|]; split; [apply within_refl|]; split; [apply local_refl|]; intros t'; by rewrite E.
Qed.

Lemma walked_no_dotdot f rel : no_dotdot f → walkable not_descended f R rel → u ".." ∉ rel.
Proof.
  intros Hn Hw Hin. apply list_elem_of_split in Hin as (l1 & l2 & ->).
  destruct (Hw l1 (u "..") ltac:(exists l2; by rewrite <- app_assoc)) as [_ Hd].
  destruct (nodes f !! (R ++ l1 ++ [u ".."])) as [n|] eqn:E; [|done]. apply Hn in E. apply E.
  rewrite !elem_of_app. right; right. left.
Qed.

Lemma detach_spec f :
  plain_checkout f → no_dotdot f →
  ∃ g, _detach_store_links cwd tree f = (Ret tt, g) ∧ own_checkout g ∧ within g f ∧ local f g.
Proof using Type*.
  intros Hf Hn. destruct (unlink_sidecar f Hf) as (g & Eg & Hg & Hw & Hl & Hp).
  assert (no_dotdot g) as Hng by (intros k n Hk; destruct (Hw _ _ Hk) as (n' & Hk' & _); by eapply Hn).
  pose proof Hg as (Hok & Hs & Hd & Hup & _).
  destruct (unlink_all (walked cwd tree g) g Hok Hs Hd Hup) as (h & Eh & Hok' & Hwi & Hlo & Hdir & Hdet).
  { intros rel. unfold walked. rewrite top_of_checkout by done. intros Hr. apply elem_walk in Hr.
    split; [done|by eapply walked_no_dotdot]. }
  exists h. split; [|split; [split; [|split]|split]].
  - unfold _detach_store_links. erewrite M_bind_ret by reflexivity. erewrite M_bind_ret by exact Eg.
    erewrite M_bind_ret by reflexivity. exact Eh.
  - by eapply plain_within.
  - intros t Ht. destruct (Hwi _ _ Ht) as (n & Hk & Hkn). cbn in Hkn. subst. by eapply Hp.
  - intros rel Hrel. apply Hdet. unfold walked. rewrite top_of_checkout by done. apply elem_walk.
    intros ds c Hp'. rewrite <- Hdir. by apply Hrel.
  - by eapply within_trans.
  - by eapply local_trans.
Qed.

(** ** Writing the status *)

(** The ancestors of the sidecar are there. *)
Lemma mkdirs_sidecar f :
  plain_checkout f → (∀ t, nodes f !! Pl ≠ Some (NLink t)) → no_dotdot f →
  ∃ g, mkdirs cwd (_prep_dir tree) f = (Ret tt, g) ∧ g = (if is_dir_node (nodes f !! Pl) then f else add_entry Pl (NDir (now f)) f).
Proof.
  intros Hf Hl Hn. pose proof Hf as (Hok & Hs & Hd & Hup & Hp & _). assert (PREP_DIRNAME ≠ u "..") as Hne by done.
  rewrite prep_dir_eq. unfold mkdirs. cbn [root parts]. rewrite length_app. cbn [length].
  rewrite Nat.add_1_r, seq_S, map_app. cbn [map]. rewrite Nat.add_0_l.
  assert (∀ l p, Forall (λ p, is_dir cwd p f = true) l → mkdirs_go cwd (l ++ [p]) f = mkdirs_go cwd [p] f) as Happ.
  { induction 1 as [|q l Hq _ IH]; [done|]. cbn [app mkdirs_go]. erewrite M_bind_ret by reflexivity. rewrite Hq.
    erewrite M_bind_ret by reflexivity. exact IH. }
  rewrite Happ.
  - rewrite take_ge by (rewrite length_app; simpl; lia). cbn [mkdirs_go]. erewrite M_bind_ret by reflexivity.
    rewrite is_dir_entry by done. destruct (is_dir_node (nodes f !! Pl)) eqn:E; [by exists f|].
    eexists. split; [|done]. unfold mkdir. erewrite M_bind_ret; [done|]. rewrite entry_loc_solid by done.
    destruct (nodes f !! Pl) as [[| |t]|] eqn:E'; [done|done|by destruct (Hl t)|done].
  - apply Forall_forall. intros q Hq. apply list_elem_of_In, in_map_iff in Hq as (i & <- & Hi).
    apply in_seq in Hi. rewrite take_app_le by lia.
    assert (loc_of cwd (Path (root (t_root tree)) (take (S i) (parts (t_root tree)))) `prefix_of` R) as Hpre.
    { unfold loc_of, base. cbn. apply prefix_app. exists (drop (S i) (parts (t_root tree))). by rewrite take_drop. }
    rewrite is_dir_solid.
    + destruct (parts (t_root tree)) as [|x ps _] using rev_ind; [simpl in Hi; lia|].
      assert (∃ k c, loc_of cwd (Path (root (t_root tree)) (take (S i) (ps ++ [x]))) = k ++ [c]) as (k & c & Ek).
      { unfold loc_of. cbn [parts]. assert (length (take (S i) (ps ++ [x])) ≠ 0) as Ht by (rewrite length_take, length_app; cbn [length]; lia).
        destruct (take (S i) (ps ++ [x])) as [|y l _] using rev_ind; [done|].
        exists (base cwd (Path (root (t_root tree)) (l ++ [y])) ++ l), y. by rewrite app_assoc. }
      rewrite Ek in *. by apply Hs.
    + by eapply solid_prefix.
    + cbn. intros Hin. apply Hup. rewrite <- (take_drop (S i) (parts (t_root tree))), elem_of_app. by left.
Qed.

Definition installing (model : json) : json :=
  JObj [(u "state", JStr (u "installing")); (u "model", JStr (normalize_model model)); (u "error", JNull)].

Lemma installing_bytes model : ∃ b,
  encode_utf8 (dumps_indent 0 (installing model)) = Ret b ∧
  (t ← decode_text b; match loads t with Some v => Ret v | None => Raise (ValueError []) end) = Ret (installing model).
Proof.
  assert (normalize_model model ∈ _ALLOWED_MODELS) as Hm.
  { unfold normalize_model. destruct model as [| | | | |m| |]; try by apply (bool_decide_unpack _).
    case_bool_decide as Hm; [done|by apply (bool_decide_unpack _)]. }
  unfold installing. revert Hm. generalize (normalize_model model). intros m Hm.
  assert (storable_json (JObj [(u "state", JStr (u "installing")); (u "model", JStr m); (u "error", JNull)]) ∧
          is_text (dumps_indent 0 (JObj [(u "state", JStr (u "installing")); (u "model", JStr m); (u "error", JNull)])) ∧
          ∃ b, encode_utf8 (dumps_indent 0 (JObj [(u "state", JStr (u "installing")); (u "model", JStr m); (u "error", JNull)])) = Ret b)
    as (Hst & Ht & b & Hb).
  { unfold _ALLOWED_MODELS in Hm. rewrite !elem_of_cons in Hm. destruct Hm as [->|[->|[->|Hm]]]; [| | |by apply elem_of_nil in Hm].
    all: split; [split; [apply (bool_decide_unpack _); vm_compute; exact I|by repeat split]|].
    all: split; [apply (bool_decide_unpack _); vm_compute; exact I|eexists; vm_compute; reflexivity]. }
  exists b. split; [done|]. rewrite (decode_text_encoded _ _ Hb Ht) by by apply dumps_indent_no_cr.
  cbn [mbind outcome_bind]. by rewrite loads_dumps_indent.
Qed.
Abbreviation St := (Pl ++ [u "status.json"]).

Lemma write_sidecar f b t :
  solid f Pl → nodes f !! Pl = Some (NDir t) → u ".." ∉ parts (t_root tree) →
  match nodes f !! St with Some (NDir _) | Some (NLink _) => False | _ => True end →
  ∃ g, write_file cwd (_status_path tree) b f = (Ret tt, g) ∧ nodes g !! St = Some (NFile b) ∧
    is_dir_node (nodes g !! Pl) = true ∧ ∀ k, k ≠ Pl → k ≠ St → nodes g !! k = nodes f !! k.
Proof.
  intros Hs Hd Hup Hst.
  set (p := Path (root (t_root tree)) (parts (t_root tree) ++ [PREP_DIRNAME])).
  assert (loc_of cwd p = Pl) as Hp by (unfold loc_of, base; cbn; by rewrite app_assoc).
  assert (_status_path tree = Path (root p) (parts p ++ [u "status.json"])) as ->.
  { unfold _status_path. rewrite prep_dir_eq. apply child_plain. by apply (bool_decide_unpack _). }
  unfold write_file. rewrite locate_entry.
  - rewrite Hp. destruct (nodes f !! St) as [[]|] eqn:E; try done.
    + eexists. split; [done|]. split_and!.
      * cbn. by rewrite lookup_insert_eq.
      * cbn. rewrite lookup_insert_ne; [by rewrite Hd|]. intros E'. apply (f_equal length) in E'. rewrite length_app in E'. simpl in E'. lia.
      * intros k _ Hk. cbn. by rewrite lookup_insert_ne.
    + rewrite removelast_last, Hd. cbn [is_dir_node]. eexists. split; [done|]. split_and!.
      * unfold add_entry. rewrite removelast_last, lookup_touch; [cbn; by rewrite lookup_insert_eq|].
        intros E'. apply (f_equal length) in E'. rewrite !length_app in E'. simpl in E'. lia.
      * unfold add_entry. rewrite dir_touch. cbn. rewrite lookup_insert_ne; [by rewrite Hd|].
        intros E'. apply (f_equal length) in E'. rewrite length_app in E'. simpl in E'. lia.
      * intros k H1 H2. unfold add_entry. rewrite removelast_last, lookup_touch by done. cbn. by rewrite lookup_insert_ne.
  - by rewrite Hp.
  - unfold p. cbn. rewrite elem_of_app. intros [?|Hin]; [done|]. revert Hin. by apply (bool_decide_unpack _).
  - done.
  - intros t'. rewrite Hp. intros E. by rewrite E in Hst.
Qed.

(** What happens before the agent is launched. *)
Lemma begin_install model f :
  plain_checkout f → no_dotdot f →
  ∃ g h b, own_checkout g ∧ within g f ∧ local f h ∧
    (∀ k, k ≠ R → k ≠ Pl → k ≠ St → nodes h !! k = nodes g !! k) ∧
    solid h Pl ∧ encode_utf8 (dumps_indent 0 (installing model)) = Ret b ∧ nodes h !! St = Some (NFile b) ∧
    (∀ A (m : M fs A), (_detach_store_links cwd tree;;
       _write_status cwd tree [(u "state", JStr (u "installing")); (u "model", JStr (normalize_model model)); (u "error", JNull)];; m) f = m h).
Proof using Type*.
  intros Hf Hn. destruct (detach_spec f Hf Hn) as (g & Eg & Hg & Hw & Hl).
  pose proof Hg as (Hgp & Hgl & _). pose proof Hgp as (Hok & Hs & Hd & Hup & Hp & Hs').
  assert (no_dotdot g) as Hng by (intros k n Hk; destruct (Hw _ _ Hk) as (n' & Hk' & _); by eapply Hn).
  destruct (installing_bytes model) as (b & Hb & _).
  destruct (mkdirs_sidecar g Hgp Hgl Hng) as (g1 & Eg1 & Hg1).
  assert (PREP_DIRNAME ≠ u "..") as Hpn by done.
  assert (∀ l (c : pystr), l ++ [c] ≠ l) as Hsn.
  { intros l c E. apply (f_equal length) in E. rewrite length_app in E. cbn [length] in E. lia. }
  assert ((∃ t, nodes g1 !! Pl = Some (NDir t)) ∧ (∀ k, k ≠ R → k ≠ Pl → nodes g1 !! k = nodes g !! k) ∧ solid g1 Pl) as ([t Ht] & Hk1 & Hs1).
  { subst g1. destruct (is_dir_node (nodes g !! Pl)) eqn:E.
    - split; [destruct (nodes g !! Pl) as [[]|]; try done; by eexists|]. split; [done|]. by apply solid_snoc.
    - assert (nodes (add_entry Pl (NDir (now g)) g) !! Pl = Some (NDir (now g))) as Hd1.
      { unfold add_entry. rewrite removelast_last, lookup_touch by done. cbn. by rewrite lookup_insert_eq. }
      split; [by eexists|]. split.
      + intros k H1 H2. unfold add_entry. rewrite removelast_last, lookup_touch by done. cbn. by rewrite lookup_insert_ne.
      + apply solid_snoc; [|by rewrite Hd1]. intros k c Hk. unfold add_entry. rewrite dir_touch. cbn.
        rewrite lookup_insert_ne; [by apply Hs|]. intros E'. apply prefix_length in Hk. rewrite <- E', length_app in Hk.
        cbn [length] in Hk. lia. }
  assert (St ≠ Pl) as HSP by (apply Hsn).
  assert (St ≠ R) as HSR. { intros E. apply (f_equal length) in E. rewrite !length_app in E. cbn [length] in E. lia. }
  assert (match nodes g1 !! St with Some (NDir _) | Some (NLink _) => False | _ => True end) as Hs1' by by rewrite Hk1.
  destruct (write_sidecar g1 b t Hs1 Ht Hup Hs1') as (h & Eh & HhS & HhP & Hkh).
  assert (∀ k, k ≠ R → k ≠ Pl → k ≠ St → nodes h !! k = nodes g !! k) as Hhg.
  { intros k H1 H2 H3. rewrite Hkh by done. by apply Hk1. }
  exists g, h, b. split; [exact Hg|]. split; [exact Hw|]. split.
  { intros k Hk. rewrite Hhg.
    - by apply Hl.
    - by intros ->.
    - intros ->. apply Hk. by eexists.
    - intros ->. apply Hk. rewrite <- app_assoc. by eexists. }
  split; [exact Hhg|]. split.
  { intros k c Hk. destruct (decide (k ++ [c] = Pl)) as [->|Hkc]; [done|]. rewrite Hkh; [by apply Hs1|done|].
    intros E. apply prefix_length in Hk. rewrite E, length_app in Hk. cbn [length] in Hk. lia. }
  split; [exact Hb|]. split; [exact HhS|].
  intros A m. erewrite M_bind_ret by exact Eg. erewrite M_bind_ret; [reflexivity|]. unfold _write_status.
  erewrite M_bind_ret by exact Eg1. unfold write_text_to. erewrite M_bind_ret; [exact Eh|].
  change (lift (encode_utf8 (dumps_indent 0 (installing model))) g1 = (Ret b, g1)). by rewrite Hb.
Qed.

Lemma forced_start launcher model d f :
  prepare_status cwd tree f = Ret (JObj d) →
  start_prepare cwd DATA_DIR launcher tree true model f =
    (_detach_store_links cwd tree;;
     _write_status cwd tree [(u "state", JStr (u "installing")); (u "model", JStr (normalize_model model)); (u "error", JNull)];;
     launcher;; mret (installing model)) f.
Proof.
  intros Hst. unfold start_prepare. erewrite M_bind_ret by (unfold observe_status; by rewrite Hst).
  erewrite M_bind_ret by reflexivity. cbn [negb andb]. by erewrite M_bind_ret by reflexivity.
Qed.

(** C31: a forced install never writes through the links into the shared store:
    when the agent is launched, the checkout has its own sidecar directory with
    the status in it, none of its node_modules is a link to a directory, and
    nothing outside the checkout has changed, however the checkout was linked to
    the store before. *)
Theorem install_starts_detached launcher model d f :
  plain_checkout f → no_dotdot f → prepare_status cwd tree f = Ret (JObj d) →
  ∃ g h b, own_checkout g ∧ within g f ∧ local f h ∧
    (∀ k, k ≠ R → k ≠ Pl → k ≠ St → nodes h !! k = nodes g !! k) ∧
    solid h Pl ∧ encode_utf8 (dumps_indent 0 (installing model)) = Ret b ∧ nodes h !! St = Some (NFile b) ∧
    start_prepare cwd DATA_DIR launcher tree true model f = (launcher;; mret (installing model)) h.
Proof using Type*.
  intros Hf Hn Hst. destruct (begin_install model f Hf Hn) as (g & h & b & H1 & H2 & H3 & H4 & H5 & H6 & H7 & H8).
  exists g, h, b. do 7 (split; [done|]). by rewrite (forced_start _ _ d), H8.
Qed.

Lemma status_read h b model :
  solid h Pl → u ".." ∉ parts (t_root tree) → encode_utf8 (dumps_indent 0 (installing model)) = Ret b →
  nodes h !! St = Some (NFile b) → prepare_status cwd tree h = Ret (installing model).
Proof.
  intros Hs Hup Hb Hst.
  set (p := Path (root (t_root tree)) (parts (t_root tree) ++ [PREP_DIRNAME])).
  assert (loc_of cwd p = Pl) as Hp by (unfold loc_of, base; cbn; by rewrite app_assoc).
  assert (_status_path tree = Path (root p) (parts p ++ [u "status.json"])) as Ep.
  { unfold _status_path. rewrite prep_dir_eq. apply child_plain. by apply (bool_decide_unpack _). }
  assert (stat cwd h (_status_path tree) = Some (St, NFile b)) as Hstat.
  { assert (is_dir_node (nodes h !! Pl) = true) as Hd by by apply (Hs R PREP_DIRNAME).
    rewrite Ep, stat_entry; rewrite ?Hp; [by rewrite Hst|done|done| |done|by rewrite Hst].
    unfold p. cbn. rewrite elem_of_app. intros [?|Hin]; [done|]. revert Hin. by apply (bool_decide_unpack _). }
  unfold prepare_status, exists_, load_json, read_text_of, read_file. rewrite Hstat. cbn [negb mbind outcome_bind].
  destruct (installing_bytes model) as (b' & Hb' & Hr). rewrite Hb in Hb'. injection Hb' as <-. by rewrite Hr.
Qed.

(** Starting is idempotent: once an install has been started, however the
    checkout was before, starting it again with whatever model launches nothing,
    changes nothing and answers with the status of the run in flight. *)
Theorem started_once model d f :
  plain_checkout f → no_dotdot f → prepare_status cwd tree f = Ret (JObj d) →
  ∃ h, start_prepare cwd DATA_DIR (mret tt) tree true model f = (Ret (installing model), h) ∧
    local f h ∧ prepare_status cwd tree h = Ret (installing model) ∧
    ∀ launcher model', start_prepare cwd DATA_DIR launcher tree false model' h = (Ret (installing model), h).
Proof using Type*.
  intros Hf Hn Hst. destruct (begin_install model f Hf Hn) as (g & h & b & H1 & H2 & H3 & H4 & H5 & H6 & H7 & H8).
  assert (prepare_status cwd tree h = Ret (installing model)) as Hh by (eapply status_read; [done|apply Hf|done..]).
  exists h. split; [|split; [done|split; [done|]]].
  - by rewrite (forced_start _ _ d), H8.
  - intros launcher model'. unfold start_prepare. erewrite M_bind_ret by (unfold observe_status; by rewrite Hh).
    by erewrite M_bind_ret by reflexivity.
Qed.
End local.

(** ** Verification *)
Section verification.
Context (cwd : loc) {PR : PyRepr} (probe : list pystr → option path → M fs Z) (tree : RepoTree).

(** The claim of a prepared language holds: what it names is a directory inside
    the tree, and the probe run there succeeds. *)
Definition typescript_works (ts_dir : pystr) (f g : fs) : Prop :=
  ∃ dir, inside_dir cwd tree ts_dir f = Ret (Some dir) ∧
    probe [u "node"; u "-e"; u "require.resolve('typescript')"] (Some dir) f = (Ret 0%Z, g).
Definition python_works (venv_rel : pystr) (f g : fs) : Prop :=
  ∃ venv, inside_dir cwd tree venv_rel f = Ret (Some venv) ∧
    exists_ cwd (child (child venv "bin") "python") f = true ∧
    probe [path_str (child (child venv "bin") "python"); u "-c"; u "import sys"] None f = (Ret 0%Z, g).
Definition claim_holds (works : pystr → fs → fs → Prop) (claim : option pystr) (f g : fs) : Prop :=
  match claim with Some c => works c f g | None => g = f end.

Lemma verify_typescript_true d f g detail :
  _verify_typescript cwd probe tree d f = (Ret (true, detail), g) ↔ detail = [] ∧ typescript_works d f g.
Proof.
  unfold _verify_typescript, typescript_works. rewrite M_bind_Ret. split.
  - intros ([dir|] & h & [= Ed <-] & E); [|by inversion E]. apply M_bind_Ret in E as (code & h' & Ep & E).
    destruct (Z.eqb_spec code 0) as [->|]; inversion E; subst. split; [done|]. by exists dir.
  - intros (-> & dir & Ed & Ep). exists (Some dir), f. rewrite Ed. split; [done|]. by erewrite M_bind_ret by exact Ep.
Qed.

Lemma verify_python_true d f g detail :
  _verify_python cwd probe tree d f = (Ret (true, detail), g) ↔ detail = [] ∧ python_works d f g.
Proof.
  unfold _verify_python, python_works. rewrite M_bind_Ret. split.
  - intros ([dir|] & h & [= Ed <-] & E); [|by inversion E]. apply M_bind_Ret in E as (there & h & [= <- <-] & E).
    destruct (exists_ cwd _ f) eqn:Ex; [|by inversion E]. apply M_bind_Ret in E as (code & h' & Ep & E).
    destruct (Z.eqb_spec code 0) as [->|]; inversion E; subst. split; [done|]. by exists dir.
  - intros (-> & dir & Ed & Ex & Ep). exists (Some dir), f. rewrite Ed. split; [done|].
    erewrite M_bind_ret by reflexivity. rewrite Ex. cbn [negb]. by erewrite M_bind_ret by exact Ep.
Qed.

(** One claim: what it adds to the results. *)
Lemma claim_results verify works claim f g l detail :
  (∀ d f g detail, verify d f = (Ret (true, detail), g) ↔ detail = [] ∧ works d f g) →
  (match claim with Some c => r ← verify c; mret [r] | None => mret [] end : M fs (list (bool * pystr))) f = (Ret l, g) →
  verdict l = (true, detail) → l = match claim with Some _ => [(true, [])] | None => [] end ∧ detail = [] ∧ claim_holds works claim f g.
Proof.
  intros Hv. destruct claim as [c|]; [|by intros [= <- <-] [= <-]].
  intros ([[] d] & h & E & [= <- <-])%M_bind_Ret Hd; [|by inversion Hd].
  apply Hv in E as [-> E]. by injection Hd as <-.
Qed.
Lemma claim_run verify works claim f g :
  (∀ d f g detail, verify d f = (Ret (true, detail), g) ↔ detail = [] ∧ works d f g) →
  claim_holds works claim f g →
  (match claim with Some c => r ← verify c; mret [r] | None => mret [] end : M fs (list (bool * pystr))) f
    = (Ret match claim with Some _ => [(true, [])] | None => [] end, g).
Proof.
  intros Hv. destruct claim as [c|]; cbn [claim_holds]; [|by intros ->].
  intros Hw. erewrite M_bind_ret; [reflexivity|]. by apply Hv.
Qed.
Lemma verdict_app l1 l2 : verdict (l1 ++ l2) = match verdict l1 with (true, _) => verdict l2 | r => r end.
Proof. induction l1 as [|[[] d] l1 IH]; cbn; [by destruct (verdict l2) as []|done|done]. Qed.
Lemma verdict_true l d : verdict l = (true, d) → d = [].
Proof. induction l as [|[[] e] l IH]; cbn; [by intros [= <-]|done|done]. Qed.

End verification.

(** ** On concrete file systems *)

Module PrepareDemo.
#[export] Instance order : DirOrder := {| scandir l := l |}.
#[export] Instance order_laws : DirOrderLaws order.
Proof. intros l. reflexivity. Qed.
#[export] Instance repr : PyRepr := {| str_repr s := s; float_repr _ := [] |}.
Definition data : path := path_of "/d".
Definition tree : RepoTree := {| t_repo := u "o/r"; t_sha := u "abc"; t_root := path_of "/t" |}.
Definition dir (t : Z) : node := NDir (inject_Z t).
Definition store : loc := [u "d"; u "prep"; u "o__r"].
Definition text (s : pystr) : node := NFile (match encode_utf8 s with Ret b => b | Raise _ => [] end).

(** A store with two entries, the second used later. *)
Definition two_entries : fs := Fs
  {[ [] := dir 0; [u "d"] := dir 0; [u "d"; u "prep"] := dir 0; store := dir 0;
     store ++ [u "aa"] := dir 3; store ++ [u "bb"] := dir 5; store ++ [u "bb"; u "manifest.json"] := text (u "{}") ]} 7.
Lemma two_entries_plain : plain_store [] data (u "o/r") two_entries.
Proof.
  split; [|split; [by vm_compute|split; [by apply (bool_decide_unpack _); vm_compute|split; [|by vm_compute]]]].
  - change (solid two_entries ((([] ++ [u "d"]) ++ [u "prep"]) ++ [u "o__r"])).
    do 3 (apply solid_snoc; [|by vm_compute]). intros k c [r Hr]. by destruct k.
  - apply no_links_by. by vm_compute.
Qed.
Lemma evict_keeps_newest_witness :
  ∃ f', _evict_store [] data (u "o/r") 1 two_entries = (Ret tt, f') ∧
    let kept := take 1 (newest_first [] two_entries (store_entries [] data (u "o/r") two_entries)) in
    length kept ≤ 1 ∧ (∀ e, e ∈ store_entries [] data (u "o/r") f' ↔ e ∈ kept) ∧
    (∀ e old, e ∈ kept → old ∈ store_entries [] data (u "o/r") two_entries → old ∉ kept →
       (mtime [] two_entries old <= mtime [] two_entries e)%Q) ∧
    (∀ c k, entry_path data (u "o/r") c ∈ kept → loc_of [] (_repo_store_dir data (u "o/r")) ++ [c] `prefix_of` k →
       nodes f' !! k = nodes two_entries !! k).
Proof. apply (evict_keeps_newest [] data (u "o/r") 1 two_entries two_entries_plain). Defined.
Example evicted : nodes (_evict_store [] data (u "o/r") 1 two_entries).2 !! (store ++ [u "aa"]) = None.
Proof. vm_compute. reflexivity. Qed.

(** Two checkouts of the same dependencies: the second is elsewhere, has been
    installed into and has another source file. *)
Definition checkouts : fs := Fs
  {[ [] := dir 0; [u "t"] := dir 0; [u "t"; u "package.json"] := text (u "{}"); [u "t"; u "a.py"] := text (u "1");
     [u "t"; u "web"] := dir 0; [u "t"; u "web"; u "requirements-dev.txt"] := text (u "x");
     [u "s"] := dir 0; [u "s"; u "package.json"] := text (u "{}"); [u "s"; u "web"] := dir 9;
     [u "s"; u "web"; u "requirements-dev.txt"] := text (u "x"); [u "s"; u "web"; u "b.py"] := text (u "2");
     [u "s"; u "node_modules"] := dir 0; [u "s"; u "node_modules"; u "package.json"] := text (u "[]") ]} 7.
Lemma checkouts_same :
  proper_names checkouts ∧
  (∀ rel, dep_at [] (path_of "/t") checkouts rel ↔ dep_at [] (path_of "/s") checkouts rel) ∧
  (∀ rel, dep_at [] (path_of "/t") checkouts rel →
     read_file [] (under (path_of "/t") rel) checkouts = read_file [] (under (path_of "/s") rel) checkouts).
Proof.
  assert (_iter_dep_files [] (path_of "/s") checkouts = _iter_dep_files [] (path_of "/t") checkouts) as E by (vm_compute; reflexivity).
  split; [|split].
  - intros k n Hn. pose proof (map_Forall_by (nodes checkouts) (λ k _, bool_decide (Forall (λ c, slash ∉ c) k)) ltac:(by vm_compute) _ _ Hn) as Hd.
    by apply bool_decide_eq_true in Hd.
  - intros rel. rewrite <- (elem_iter_dep_files [] (path_of "/t")), <- (elem_iter_dep_files [] (path_of "/s")). by rewrite E.
  - intros rel. rewrite <- (elem_iter_dep_files [] (path_of "/t")). intros Hr.
    revert rel Hr. setoid_rewrite list_elem_of_In. apply map_ext_in_iff. vm_compute. reflexivity.
Qed.
Lemma fingerprint_by_dep_files_witness :
  dep_fingerprint [] (path_of "/t") checkouts = dep_fingerprint [] (path_of "/s") checkouts.
Proof.
  apply (fingerprint_by_dep_files [] [] (path_of "/t") checkouts (path_of "/s") checkouts); apply checkouts_same.
Defined.

(** A checkout linked to the store, with a second project whose entry was
    evicted. *)
Definition linked : fs := Fs
  {[ [] := dir 0; [u "d"] := dir 0; [u "d"; u "prep"] := dir 0; [u "d"; u "prep"; u "status.json"] := text (bq "{`state`: `ready`}");
     [u "d"; u "modules"] := dir 0; [u "t"] := dir 0; [u "t"; PREP_DIRNAME] := NLink (path_of "/d/prep");
     [u "t"; u "node_modules"] := NLink (path_of "/d/modules"); [u "t"; u "web"] := dir 0;
     [u "t"; u "web"; u "node_modules"] := NLink (path_of "/d/gone") ]} 7.
Lemma linked_plain :
  plain_checkout [] tree linked ∧ no_dotdot linked ∧ prepare_status [] tree linked = Ret (JObj [(u "state", JStr (u "ready"))]).
Proof.
  split; [split; [|split; [|split; [by vm_compute|split; [|split; by vm_compute]]]]|split].
  - apply tree_ok_by. by vm_compute.
  - change (solid linked ([] ++ [u "t"])). apply solid_snoc; [|by vm_compute]. intros k c [r Hr]. by destruct k.
  - by apply (bool_decide_unpack _); vm_compute.
  - apply no_dotdot_by. by vm_compute.
  - vm_compute. reflexivity.
Qed.
Definition down : M fs unit := os_error.
Definition again (launcher : M fs unit) := start_prepare [] data launcher tree true JNull linked.
Lemma install_starts_detached_witness :
  ∃ g h b, own_checkout [] tree g ∧ within g linked ∧ local [] tree linked h ∧
    (∀ k, k ≠ loc_of [] (t_root tree) → k ≠ loc_of [] (t_root tree) ++ [PREP_DIRNAME] →
          k ≠ (loc_of [] (t_root tree) ++ [PREP_DIRNAME]) ++ [u "status.json"] → nodes h !! k = nodes g !! k) ∧
    solid h (loc_of [] (t_root tree) ++ [PREP_DIRNAME]) ∧
    encode_utf8 (dumps_indent 0 (installing JNull)) = Ret b ∧
    nodes h !! ((loc_of [] (t_root tree) ++ [PREP_DIRNAME]) ++ [u "status.json"]) = Some (NFile b) ∧
    again down = (down;; mret (installing JNull)) h.
Proof. apply (install_starts_detached [] data tree down JNull _ linked (proj1 linked_plain) (proj1 (proj2 linked_plain)) (proj2 (proj2 linked_plain))). Defined.
Lemma started_once_witness :
  ∃ h, again (mret tt) = (Ret (installing JNull), h) ∧ local [] tree linked h ∧ prepare_status [] tree h = Ret (installing JNull) ∧
    ∀ launcher model', start_prepare [] data launcher tree false model' h = (Ret (installing JNull), h).
Proof. apply (started_once [] data tree JNull _ linked (proj1 linked_plain) (proj1 (proj2 linked_plain)) (proj2 (proj2 linked_plain))). Defined.

(** The link into an evicted entry outlives both the detaching and the clearing
    of the checkout: [os.walk] lists it among the files. *)
Example evicted_link_stays :
  let l := [u "t"; u "web"; u "node_modules"] in
  nodes (again (mret tt)).2 !! l = Some (NLink (path_of "/d/gone")) ∧
  nodes (clear_prepared [] tree linked).2 !! l = Some (NLink (path_of "/d/gone")) ∧
  nodes (clear_prepared [] tree linked).2 !! [u "t"; u "node_modules"] = None.
Proof. vm_compute. done. Qed.

(** A repository with a requirements file that is a dangling link: the
    fingerprint fails outside the [try], and the status stays "installing". *)
Definition dangling : fs := Fs
  {[ [] := dir 0; [u "t"] := dir 0; [u "t"; u "requirements.txt"] := NLink (path_of "nowhere") ]} 7.
Definition no_agent : pystr → path → path → pystr → pystr → pystr → Z → M fs AgentRun := λ _ _ _ _ _ _ _, raise (AgentError (u "no agent")).
Definition no_probe : list pystr → option path → M fs Z := λ _ _, mret 1%Z.
Definition started : outcome unit * fs :=
  (start_prepare [] data (mret tt) tree false JNull;; _run_prepare [] data no_agent no_probe 1 tree DEFAULT_MODEL) dangling.
Example run_never_ends :
  started.1 = Raise FileNotFoundError ∧ prepare_status [] tree started.2 = Ret (installing JNull) ∧
  (start_prepare [] data os_error tree false JNull started.2).1 = Ret (installing JNull).
Proof. vm_compute. done. Qed.

(** A captured root that is an absolute path of the first checkout: reusing the
    entry elsewhere links the first checkout's node_modules instead. *)
Definition absolute_root : fs := Fs
  {[ [] := dir 0; [u "t"] := dir 0; [u "first"] := dir 0; [u "first"; u "node_modules"] := dir 0;
     [u "e"] := dir 0; [u "e"; u "prep"] := dir 0; [u "e"; u "modules"] := dir 0; [u "e"; u "modules"; u "0"] := dir 0;
     [u "e"; u "manifest.json"] := text (bq "{`modules`: [{`root`: `/first`, `modules`: `0`}]}") ]} 7.
Example absolute_root_links_elsewhere :
  let g := (_materialize [] tree (path_of "/e") absolute_root).2 in
  nodes g !! [u "first"; u "node_modules"] = Some (NLink (path_of "/e/modules/0")) ∧
  nodes g !! [u "t"; u "node_modules"] = None.
Proof. vm_compute. done. Qed.
End PrepareDemo.
