(* ===== verification/JsTree.v ===== *)
(** * Syntax trees

    What the parser of the code intelligence returns: a tree of typed nodes with
    their place in the source.  A [Node] is a place in such a tree, with the nodes
    above it, so that the code can go to its parent and siblings.  Parsing, and
    finding the smallest node at a point, is third-party ([TreeSitter]). *)

From Stdlib Require Import NArith ZArith Lia.
From S2P Require Import Prelude PyStr PyMonad PyBytes.
From stdpp Require Import options.
#[global] Open Scope nat_scope.
#[local] Open Scope py_scope.

(** A row and a column in bytes, from 0. *)
Abbreviation point := (nat * nat)%type.
Record span := { from_byte : nat; to_byte : nat; from_point : point; to_point : point }.
(** The children with the names of their fields; [named] tells the nodes of the
    grammar from its literal tokens. *)
Inductive syntax := Syntax (label : pystr) (named : bool) (place : span) (kids : list (option pystr * syntax)).
Definition label (t : syntax) : pystr := match t with Syntax l _ _ _ => l end.
Definition named (t : syntax) : bool := match t with Syntax _ n _ _ => n end.
Definition place (t : syntax) : span := match t with Syntax _ _ p _ => p end.
Definition kids (t : syntax) : list (option pystr * syntax) := match t with Syntax _ _ _ k => k end.
Fixpoint height (t : syntax) : nat := match t with Syntax _ _ _ ks => S (list_max (map (λ k, height k.2) ks)) end.

Record Node := { source_of : bytes; here : syntax; above : list (syntax * nat) }.
Definition type (n : Node) : pystr := label (here n).
Definition start_byte (n : Node) : nat := from_byte (place (here n)).
Definition end_byte (n : Node) : nat := to_byte (place (here n)).
Definition start_point (n : Node) : point := from_point (place (here n)).
Definition end_point (n : Node) : point := to_point (place (here n)).

(** [source[start:end]] *)
Definition slice (start stop : nat) (source : bytes) : bytes := take (stop - start) (drop start source).
Definition text (n : Node) : bytes := slice (start_byte n) (end_byte n) (source_of n).
Definition decoded_text (n : Node) : pystr := decode_replace (text n).

Definition child_at (n : Node) (i : nat) (k : option pystr * syntax) : Node :=
  {| source_of := source_of n; here := k.2; above := (here n, i) :: above n |}.
Definition children (n : Node) : list Node := imap (child_at n) (kids (here n)).
Definition named_children (n : Node) : list Node := List.filter (λ c, named (here c)) (children n).
Definition field_at (n : Node) (field : pystr) (i : nat) (k : option pystr * syntax) : option Node :=
  if k.1 =? Some field then Some (child_at n i k) else None.
Definition child_by_field_name (field : pystr) (n : Node) : option Node :=
  head (omap id (imap (field_at n field) (kids (here n)))).

(** The node and what is above it, from the inside out. *)
Fixpoint ups (source : bytes) (l : list (syntax * nat)) : list Node :=
  match l with
  | [] => []
  | (t, _) :: l' => {| source_of := source; here := t; above := l' |} :: ups source l'
  end.
Definition parents (n : Node) : list Node := ups (source_of n) (above n).
Definition ancestors (n : Node) : list Node := n :: parents n.
Definition parent_node (n : Node) : option Node := head (parents n).
(** The siblings before the node, nearest first. *)
Definition prev_siblings (n : Node) : list Node :=
  match above n, parent_node n with
  | (_, i) :: _, Some p => reverse (take i (children p))
  | _, _ => []
  end.

Class TreeSitter := {
  (** the tree of a source text in a grammar *)
  parse_source : pystr → bytes → syntax;
  (** the way down to the smallest node that spans the point, by child indices *)
  descendant_for_point_range : syntax → point → option (list nat) }.
Definition root_node `{TreeSitter} (grammar : pystr) (source : bytes) : Node :=
  {| source_of := source; here := parse_source grammar source; above := [] |}.
Fixpoint descend (n : Node) (way : list nat) : option Node :=
  match way with [] => Some n | i :: way' => c ← children n !! i; descend c way' end.

(** ** Where nodes are *)

Lemma source_children n c : c ∈ children n → source_of c = source_of n.
Proof. unfold children. intros (i & k & -> & _)%elem_of_lookup_imap. done. Qed.
Lemma source_ups src l n : n ∈ ups src l → source_of n = src.
Proof.
  induction l as [|[t i] l IH]; cbn [ups]; intros Hn; [by apply elem_of_nil in Hn|]. by apply elem_of_cons in Hn as [->|Hn]; [|apply IH].
Qed.
Lemma source_ancestors m n : m ∈ ancestors n → source_of m = source_of n.
Proof. intros [->|Hm]%elem_of_cons; [done|]. by apply source_ups in Hm. Qed.
Lemma named_child n c : c ∈ named_children n → c ∈ children n.
Proof. intros [Hc _]%list_elem_of_In%filter_In. by apply list_elem_of_In. Qed.

(** A child is lower. *)
Lemma kid_height t k : k ∈ kids t → height k.2 < height t.
Proof.
  destruct t as [l nm p ks]. cbn [kids height]. intros Hk.
  assert (Forall (λ x, x <= list_max (map (λ k, height k.2) ks)) (map (λ k, height k.2) ks)) as Hmax by by apply list_max_le.
  rewrite Forall_forall in Hmax. specialize (Hmax (height k.2)). apply Nat.lt_succ_r, Hmax, list_elem_of_fmap. by exists k.
Qed.
Lemma child_height n c : c ∈ children n → height (here c) < height (here n).
Proof.
  unfold children. intros (i & k & -> & Hk)%elem_of_lookup_imap. apply kid_height. by apply list_elem_of_lookup_2 in Hk.
Qed.
Lemma field_child f n c : child_by_field_name f n = Some c → c ∈ children n.
Proof.
  unfold child_by_field_name. intros Hc. assert (c ∈ omap id (imap (field_at n f) (kids (here n)))) as Hin.
  { destruct (omap _ _); [done|]. injection Hc as ->. by left. }
  apply list_elem_of_omap in Hin as (o & Ho & Hid). simpl in Hid. subst o.
  apply elem_of_lookup_imap in Ho as (i & k & Hk & Hi). unfold field_at in Hk. case_bool_decide; simplify_eq.
  apply elem_of_lookup_imap. by exists i, k.
Qed.
Lemma source_field f n c : child_by_field_name f n = Some c → source_of c = source_of n.
Proof. intros Hc. by eapply source_children, field_child. Qed.
Lemma field_height f n c : child_by_field_name f n = Some c → height (here c) < height (here n).
Proof. intros Hc. by eapply child_height, field_child. Qed.
