(* ===== verification/JsIntel.v ===== *)
(** * pr_review: JavaScript and TypeScript intelligence

    [libs/pr_review/src/pr_review/jsintel.py]: from a position in a file of a cached
    tree to the declaration of the name there, through the scopes of the file and
    its relative imports, and the hover text of that declaration.  The syntax
    trees are those of [JsTree], the files those of [PyFs]. *)

From Stdlib Require Import NArith ZArith QArith Lia.
From S2P Require Import Prelude PyStr PyMonad PyBytes PyPath PyFs GithubTree JsTree.
From stdpp Require Import options.
#[global] Open Scope nat_scope.
#[local] Open Scope py_scope.

Definition _GRAMMAR_BY_EXT : list (pystr * pystr) :=
  [(u "ts", u "typescript"); (u "mts", u "typescript"); (u "cts", u "typescript"); (u "tsx", u "tsx");
   (u "js", u "javascript"); (u "jsx", u "javascript"); (u "mjs", u "javascript"); (u "cjs", u "javascript")].
Definition _IDENT_TYPES : list pystr :=
  [u "identifier"; u "type_identifier"; u "property_identifier"; u "shorthand_property_identifier";
   u "shorthand_property_identifier_pattern"; u "private_property_identifier"].
Definition _NAMED_DECL_KINDS : list (pystr * pystr) :=
  [(u "function_declaration", u "function"); (u "generator_function_declaration", u "function");
   (u "class_declaration", u "class"); (u "abstract_class_declaration", u "class");
   (u "interface_declaration", u "interface"); (u "type_alias_declaration", u "type");
   (u "enum_declaration", u "enum"); (u "method_definition", u "method")].
Definition _FUNC_TYPES : list pystr :=
  [u "function_declaration"; u "generator_function_declaration"; u "function_expression";
   u "generator_function_expression"; u "arrow_function"; u "method_definition"].
Definition _MODULE_EXTS : list pystr := [u ".ts"; u ".tsx"; u ".mts"; u ".cts"; u ".js"; u ".jsx"; u ".mjs"; u ".cjs"].
Definition variable_groups : list pystr := [u "lexical_declaration"; u "variable_declaration"].
Definition patterns : list pystr := [u "object_pattern"; u "array_pattern"].

(** A table of strings, and [d.get(k)]. *)
Definition lookup_str (k : pystr) (d : list (pystr * pystr)) : option pystr := snd <$> List.find (λ kv, kv.1 =? k) d.
(** [s.strip(chars)] and [s.lstrip(chars)] *)
Fixpoint lstrip_in (chars s : pystr) : pystr :=
  match s with c :: s' => if c ∈? chars then lstrip_in chars s' else s | [] => [] end.
Definition strip_in (chars s : pystr) : pystr := reverse (lstrip_in chars (reverse (lstrip_in chars s))).

Record _Decl := {
  source : bytes; container : Node; name_node : Node; kind : pystr; decl_name : pystr; decl_path : pystr; in_repo : bool }.

Definition _grammar_for (name : pystr) : option pystr := lookup_str (lower_ascii (rsplit_last 46 name)) _GRAMMAR_BY_EXT.

(** ** Points *)
Definition _point (source : bytes) (line column : Z) : outcome point :=
  let row := (line - 1)%Z in
  let lines := split_char 10 source in
  let char_col := Z.to_nat (column - 1) in
  match (if (row <? 0)%Z then None else lines !! Z.to_nat row) with
  | None => Ret (Z.to_nat row, char_col)
  | Some l => b ← encode_utf8 (take char_col (decode_replace l)); Ret (Z.to_nat row, length b)
  end.
Definition _col_char (source : bytes) (p : point) : nat :=
  match split_char 10 source !! p.1 with
  | None => 1
  | Some l => S (length (decode_replace (take p.2 l)))
  end.

(** ** Declarations *)
Definition has_type (types : list pystr) (n : Node) : bool := type n ∈? types.
Definition is_type (t : pystr) (n : Node) : bool := type n =? t.
Definition named_decl (n : Node) : bool := has_type (map fst _NAMED_DECL_KINDS) n.

Definition _string_value (n : Node) : pystr :=
  match List.find (is_type (u "string_fragment")) (named_children n) with
  | Some c => decoded_text c
  | None => strip_in [39; 34; 96]%N (decoded_text n)
  end.

Definition _decl_name_node (decl : Node) : option Node :=
  if named_decl decl then child_by_field_name (u "name") decl
  else if is_type (u "variable_declarator") decl then
    name ← child_by_field_name (u "name") decl; if is_type (u "identifier") name then Some name else None
  else None.

(** Climbing from the parent on: the keyword of the declaration around. *)
Fixpoint keyword_above (l : list Node) : outcome (option pystr) :=
  match l with
  | [] => Ret None
  | current :: l' =>
      if is_type (u "formal_parameters") current || has_type _FUNC_TYPES current then Ret None
      else if has_type variable_groups current then
        match child_by_field_name (u "kind") current with
        | Some keyword => t ← decode_strict (text keyword); Ret (Some t)
        | None => Ret (Some (u "const"))
        end
      else keyword_above l'
  end.
Definition _enclosing_declaration_keyword (n : Node) : outcome (option pystr) := keyword_above (parents n).

Definition parent_kind (decl : Node) : option Node := p ← parent_node decl; child_by_field_name (u "kind") p.
Definition _decl_kind (decl : Node) : outcome pystr :=
  if is_type (u "variable_declarator") decl then
    Ret (match parent_kind decl with
         | Some k => if text k =? u "const" then u "constant" else u "variable"
         | None => u "variable"
         end)
  else if has_type _IDENT_TYPES decl then
    keyword ← _enclosing_declaration_keyword decl;
    Ret (match keyword with
         | Some k => if k =? u "const" then u "constant" else u "variable"
         | None => u "symbol"
         end)
  else Ret (default (u "symbol") (lookup_str (type decl) _NAMED_DECL_KINDS)).

Definition _binding_target (decl : Node) : Node := default decl (_decl_name_node decl).

(** ** Patterns *)
Definition bound (n : Node) : pystr * Node := (decoded_text n, n).
(** What a pattern with a default binds. *)
Definition left_identifier (n : Node) : list (pystr * Node) :=
  match child_by_field_name (u "left") n with
  | Some binder => if is_type (u "identifier") binder then [bound binder] else []
  | None => []
  end.
Section pattern_child.
Context (nested : Node → list (pystr * Node)).
Definition value_bindings (value : Node) : list (pystr * Node) :=
  if is_type (u "identifier") value then [bound value]
  else if has_type patterns value then nested value
  else if is_type (u "assignment_pattern") value then left_identifier value
  else [].
Definition child_bindings (child : Node) : list (pystr * Node) :=
  if has_type [u "shorthand_property_identifier_pattern"; u "identifier"] child then [bound child]
  else if is_type (u "pair_pattern") child then
    match child_by_field_name (u "value") child with Some value => value_bindings value | None => [] end
  else if has_type patterns child then nested child
  else if is_type (u "assignment_pattern") child then left_identifier child
  else if is_type (u "rest_pattern") child then map bound (List.filter (is_type (u "identifier")) (named_children child))
  else [].
End pattern_child.
Fixpoint pattern_ids (fuel : nat) (pattern : Node) : list (pystr * Node) :=
  match fuel with
  | O => []
  | S f => flat_map (child_bindings (pattern_ids f)) (named_children pattern)
  end.
(** The nesting is at most the height of the tree. *)
Definition _pattern_identifiers (pattern : Node) : list (pystr * Node) := pattern_ids (height (here pattern)) pattern.

Definition _require_source (value : option Node) : option pystr :=
  value ← value;
  if negb (is_type (u "call_expression") value) then None
  else
    function ← child_by_field_name (u "function") value;
    if negb (text function =? u "require") then None
    else
      arguments ← child_by_field_name (u "arguments") value;
      _string_value <$> List.find (is_type (u "string")) (named_children arguments).

(** ** Scopes *)
Definition param_ident (param : Node) : option Node :=
  if is_type (u "identifier") param then Some param
  else if has_type [u "required_parameter"; u "optional_parameter"] param then
    pattern ← child_by_field_name (u "pattern") param; if is_type (u "identifier") pattern then Some pattern else None
  else None.
Definition _iter_params (func : Node) : list (pystr * Node * Node) :=
  match child_by_field_name (u "parameters") func with
  | None => []
  | Some params => omap (λ param, ident ← param_ident param; Some (decoded_text ident, ident, param)) (named_children params)
  end.

(** The declaration inside an [export]. *)
Definition unexported (n : Node) : option Node :=
  if is_type (u "export_statement") n then child_by_field_name (u "declaration") n else Some n.
Definition declarator_bindings (declarator : Node) : list (pystr * Node) :=
  if negb (is_type (u "variable_declarator") declarator) then []
  else match child_by_field_name (u "name") declarator with
       | None => []
       | Some name =>
           if is_type (u "identifier") name then [(decoded_text name, declarator)]
           else if has_type patterns name then _pattern_identifiers name
           else []
       end.
Definition statement_bindings (child : Node) : list (pystr * Node) :=
  match unexported child with
  | None => []
  | Some n =>
      if has_type variable_groups n then flat_map declarator_bindings (named_children n)
      else if named_decl n then
        match _decl_name_node n with Some name => [(decoded_text name, n)] | None => [] end
      else []
  end.
Definition _iter_scope_bindings (scope : Node) : list (pystr * Node) := flat_map statement_bindings (named_children scope).

Definition _find_top_binding (root : Node) (name : pystr) : option Node :=
  snd <$> List.find (λ b, b.1 =? name) (_iter_scope_bindings root).
Definition is_default_export (stmt : Node) : bool :=
  is_type (u "export_statement") stmt && existsb (is_type (u "default")) (children stmt).
Definition _find_default_export (root : Node) : option Node :=
  stmt ← List.find is_default_export (named_children root); child_by_field_name (u "declaration") stmt.

(** ** Imports

    From the local name to the module and the name there. *)
Abbreviation imports := (gmap pystr (pystr * pystr)).
Definition setdefault (k : pystr) (v : pystr * pystr) (d : imports) : imports := if d !! k is Some _ then d else <[k := v]> d.
Definition require_declarator (d : imports) (declarator : Node) : imports :=
  if negb (is_type (u "variable_declarator") declarator) then d
  else match _require_source (child_by_field_name (u "value") declarator), child_by_field_name (u "name") declarator with
       | Some spec, Some name =>
           if is_type (u "identifier") name then setdefault (decoded_text name) (spec, u "*") d
           else if has_type patterns name then
             foldl (λ d b, setdefault b.1 (spec, b.1) d) d (_pattern_identifiers name)
           else d
       | _, _ => d
       end.
Definition require_statement (d : imports) (stmt : Node) : imports :=
  match unexported stmt with
  | Some n => if has_type variable_groups n then foldl require_declarator d (named_children n) else d
  | None => d
  end.
Definition _collect_require_imports (root : Node) (d : imports) : imports := foldl require_statement d (named_children root).

Definition import_specifier (spec : pystr) (d : imports) (specifier : Node) : imports :=
  if negb (is_type (u "import_specifier") specifier) then d
  else match child_by_field_name (u "name") specifier with
       | None => d
       | Some name_node =>
           let local := default name_node (child_by_field_name (u "alias") specifier) in
           <[decoded_text local := (spec, decoded_text name_node)]> d
       end.
Definition import_member (spec : pystr) (d : imports) (member : Node) : imports :=
  if is_type (u "identifier") member then <[decoded_text member := (spec, u "default")]> d
  else if is_type (u "namespace_import") member then
    match List.find (is_type (u "identifier")) (named_children member) with
    | Some ident => <[decoded_text ident := (spec, u "*")]> d
    | None => d
    end
  else if is_type (u "named_imports") member then foldl (import_specifier spec) d (named_children member)
  else d.
Definition import_statement (d : imports) (stmt : Node) : imports :=
  if negb (is_type (u "import_statement") stmt) then d
  else match child_by_field_name (u "source") stmt, List.find (is_type (u "import_clause")) (named_children stmt) with
       | Some source, Some clause => foldl (import_member (_string_value source)) d (named_children clause)
       | _, _ => d
       end.
Definition _collect_imports (root : Node) : imports :=
  _collect_require_imports root (foldl import_statement ∅ (named_children root)).

(** ** Resolving *)
Section jsintel.
Context (cwd : loc) `{TreeSitter}.

Definition is_file (p : path) (f : fs) : bool := match stat cwd f p with Some (_, NFile _) => true | _ => false end.
(** [p.resolve()] *)
Definition resolved (p : path) (f : fs) : outcome path :=
  match realpath cwd f p with Some l => Ret (Path (u "/") l) | None => Raise symlink_loop end.

Definition _resolve_in_tree (tree : RepoTree) (rel_path : pystr) (f : fs) : outcome (option (path * pystr)) :=
  match _grammar_for rel_path with
  | None => Ret None
  | Some grammar =>
      abs_path ← resolved (child (t_root tree) rel_path) f;
      root ← resolved (t_root tree) f;
      Ret (if negb (is_relative_to abs_path root) || negb (is_file abs_path f) then None else Some (abs_path, grammar))
  end.

Definition module_candidates (base : path) : list path :=
  base :: map (λ ext, path_of (path_str base ++ ext)) _MODULE_EXTS ++ map (λ ext, child base (u "index" ++ ext)) _MODULE_EXTS.
Fixpoint first_file (root_res : path) (candidates : list path) (f : fs) : outcome (option path) :=
  match candidates with
  | [] => Ret None
  | candidate :: candidates' =>
      target ← resolved candidate f;
      if is_relative_to target root_res && is_file target f then Ret (Some target) else first_file root_res candidates' f
  end.
Definition _resolve_module (tree_root : path) (from_rel spec : pystr) (f : fs) : outcome (option path) :=
  if negb (startswith (u ".") spec || startswith (u "/") spec) then Ret None
  else
    root_res ← resolved tree_root f;
    let base := if startswith (u "/") spec then child tree_root (lstrip_char 47 spec)
                else child (parent (child tree_root from_rel)) spec in
    first_file root_res (module_candidates base) f.

(** The declarations of a scope: its parameters, then what its statements bind;
    each with the node that names it and, for a parameter, its kind. *)
Definition param_decls (scope : Node) : list (pystr * Node * Node) := if has_type _FUNC_TYPES scope then _iter_params scope else [].
Definition block_decls (scope : Node) : list (pystr * Node) :=
  if has_type [u "program"; u "statement_block"; u "class_body"] scope then _iter_scope_bindings scope else [].
Fixpoint resolve_from_scopes (source : bytes) (rel_path name : pystr) (scopes : list Node) : outcome (option _Decl) :=
  match scopes with
  | [] => Ret None
  | scope :: scopes' =>
      match List.find (λ b, b.1.1 =? name) (param_decls scope) with
      | Some (_, param_ident, param_node) =>
          Ret (Some {| source := source; container := param_node; name_node := param_ident; kind := u "parameter";
                       decl_name := name; decl_path := rel_path; in_repo := true |})
      | None =>
          match List.find (λ b, b.1 =? name) (block_decls scope) with
          | Some (_, decl) =>
              k ← _decl_kind decl;
              Ret (Some {| source := source; container := decl; name_node := _binding_target decl; kind := k;
                           decl_name := name; decl_path := rel_path; in_repo := true |})
          | None => resolve_from_scopes source rel_path name scopes'
          end
      end
  end.
Definition _resolve_local (source : bytes) (rel_path : pystr) (ident : Node) (name : pystr) : outcome (option _Decl) :=
  resolve_from_scopes source rel_path name (ancestors ident).

(** [str(target.relative_to(root))] *)
Definition relative_str (target root : path) : pystr := path_str (Path [] (drop (length (parts root)) (parts target))).
Definition _resolve_import (tree : RepoTree) (from_rel : pystr) (entry : pystr * pystr) (local_name : pystr) (f : fs)
    : outcome (option _Decl) :=
  target ← _resolve_module (t_root tree) from_rel entry.1 f;
  match target with
  | None => Ret None
  | Some target =>
      match _grammar_for (name target) with
      | None => Ret None
      | Some grammar =>
          tsource ← read_file cwd target f;
          let troot := root_node grammar tsource in
          target_res ← resolved target f;
          root_res ← resolved (t_root tree) f;
          let decl c n k := {| source := tsource; container := c; name_node := n; kind := k; decl_name := local_name;
                               decl_path := relative_str target_res root_res; in_repo := true |} in
          if entry.2 =? u "*" then Ret (Some (decl troot troot (u "module")))
          else
            match (if entry.2 =? u "default" then _find_default_export troot else _find_top_binding troot entry.2) with
            | None => Ret (Some (decl troot troot (u "module")))
            | Some c => k ← _decl_kind c; Ret (Some (decl c (_binding_target c) k))
            end
      end
  end.

Definition _identifier_at (root : Node) (p : point) : option Node :=
  way ← descendant_for_point_range (here root) p;
  n ← descend root way;
  if has_type _IDENT_TYPES n then Some n else None.

Definition _resolve (tree : RepoTree) (rel_path : pystr) (line column : Z) (f : fs) : outcome (option _Decl) :=
  file ← _resolve_in_tree tree rel_path f;
  match file with
  | None => Ret None
  | Some (abs_path, grammar) =>
      source ← read_file cwd abs_path f;
      let root := root_node grammar source in
      p ← _point source line column;
      match _identifier_at root p with
      | None => Ret None
      | Some ident =>
          let name := decoded_text ident in
          imported ← (match _collect_imports root !! name with
                      | Some entry => _resolve_import tree rel_path entry name f
                      | None => Ret None
                      end);
          match imported with
          | Some d => Ret (Some d)
          | None => _resolve_local source rel_path ident name
          end
      end
  end.
End jsintel.

(** ** Hover *)
Definition _bounded (s : pystr) : pystr :=
  let s := strip s in if (length s <=? 400)%nat then s else rstrip (take 400 s) ++ [32; 8230]%N.

Definition text_of (source : bytes) (start stop : nat) : pystr := strip (decode_replace (slice start stop source)).
(** A short initializer on one line. *)
Definition initializer (source : bytes) (value : option Node) : pystr :=
  match value with
  | Some v =>
      let value_text := text_of source (start_byte v) (end_byte v) in
      if (nl ∉? value_text) && (length value_text <=? 80)%nat then u " = " ++ value_text else []
  | None => []
  end.
Definition up_to_body (source : bytes) (outer n : Node) : pystr :=
  text_of source (start_byte outer) (match child_by_field_name (u "body") n with Some body => start_byte body | None => end_byte outer end).
Definition whole (source : bytes) (n : Node) : pystr := text_of source (start_byte n) (end_byte n).
Definition pattern_signature (source : bytes) (keyword : pystr) (container : Node) : pystr :=
  let name_text := whole source container in
  let declarator := List.find (is_type (u "variable_declarator")) (ancestors container) in
  match declarator, declarator ≫= child_by_field_name (u "name") with
  | Some d, Some pattern =>
      if has_type patterns pattern then
        _bounded (keyword ++ u " "
          ++ (if is_type (u "object_pattern") pattern then u "{ " ++ name_text ++ u " }" else u "[ " ++ name_text ++ u " ]")
          ++ initializer source (child_by_field_name (u "value") d))
      else _bounded (keyword ++ u " " ++ name_text)
  | _, _ => _bounded (keyword ++ u " " ++ name_text)
  end.
Definition strict_or_empty (n : option Node) : outcome pystr := match n with Some n => decode_strict (text n) | None => Ret [] end.
Definition declarator_signature (source : bytes) (container : Node) : outcome pystr :=
  keyword ← (match parent_kind container with Some k => decode_strict (text k) | None => Ret (u "const") end);
  let value := child_by_field_name (u "value") container in
  match value with
  | Some v =>
      if has_type [u "arrow_function"; u "function_expression"] v then
        Ret (_bounded (keyword ++ u " " ++ up_to_body source container v))
      else
        name ← strict_or_empty (child_by_field_name (u "name") container);
        type ← strict_or_empty (child_by_field_name (u "type") container);
        Ret (_bounded (keyword ++ u " " ++ name ++ type ++ initializer source value))
  | None =>
      name ← strict_or_empty (child_by_field_name (u "name") container);
      type ← strict_or_empty (child_by_field_name (u "type") container);
      Ret (_bounded (keyword ++ u " " ++ name ++ type))
  end.
Definition _signature (container : Node) (source : bytes) : outcome pystr :=
  if has_type _FUNC_TYPES container || has_type [u "class_declaration"; u "abstract_class_declaration"] container then
    Ret (_bounded (up_to_body source container container))
  else
    keyword ← (if has_type _IDENT_TYPES container then _enclosing_declaration_keyword container else Ret None);
    match keyword with
    | Some keyword => Ret (pattern_signature source keyword container)
    | None =>
        if is_type (u "variable_declarator") container then declarator_signature source container
        else Ret (_bounded (whole source container))
    end.

Definition clean_line (line : pystr) : pystr := strip (lstrip_char 42 (strip line)).
Definition without_end (s : pystr) : pystr := if endswith (u "*/") s then take (length s - 2) s else s.
Definition nonempty (s : pystr) : bool := s <>? [].
Definition _clean_comment (s : pystr) : pystr :=
  let s := strip s in
  if startswith (u "/*") s then
    strip (join [nl] (List.filter nonempty (map clean_line (splitlines (without_end (drop 2 s))))))
  else if startswith (u "//") s then strip (lstrip_char 47 s)
  else s.

Definition _STATEMENT_WRAPPERS : list pystr :=
  [u "lexical_declaration"; u "variable_declaration"; u "export_statement"; u "variable_declarator";
   u "object_pattern"; u "array_pattern"; u "pair_pattern"].
Fixpoint climb (n : Node) (l : list Node) : Node :=
  match l with
  | p :: l' => if has_type _STATEMENT_WRAPPERS p then climb p l' else n
  | [] => n
  end.
Definition _statement_node (container : Node) : Node := climb container (parents container).
(** The comments right above, from the nearest on. *)
Fixpoint comments_above (anchor_row : nat) (siblings : list Node) : list Node :=
  match siblings with
  | prev :: siblings' =>
      if is_type (u "comment") prev && (anchor_row - (end_point prev).1 <=? 1)%nat then
        prev :: comments_above (start_point prev).1 siblings'
      else []
  | [] => []
  end.
Definition _leading_comment (container : Node) : option pystr :=
  let n := _statement_node container in
  let comments := reverse (comments_above (start_point n).1 (prev_siblings n)) in
  let joined := strip (join [nl] (List.filter nonempty (map (λ c, _clean_comment (decoded_text c)) comments))) in
  if joined =? [] then None else Some joined.

Section intel.
Context (cwd : loc) `{TreeSitter}.
Definition hover_body (signature : pystr) (doc : option pystr) : pystr :=
  let parts := (if signature =? [] then [] else [bq "```typescript" ++ [nl] ++ signature ++ [nl] ++ bq "```"]) ++ option_list doc in
  strip (join [nl; nl] (List.filter nonempty parts)).
Definition hover (tree : RepoTree) (rel_path : pystr) (line column : Z) (f : fs) : outcome (option pystr) :=
  decl ← _resolve cwd tree rel_path line column f;
  match decl with
  | None => Ret None
  | Some d =>
      if kind d =? u "module" then Ret None
      else
        signature ← _signature (container d) (source d);
        let body := hover_body signature (_leading_comment (container d)) in
        Ret (if body =? [] then None else Some body)
  end.

Record Found := { f_in_repo : bool; f_path : pystr; f_line : nat; f_column : nat; f_name : pystr; f_type : pystr }.
Definition found_of (d : _Decl) : Found :=
  let p := start_point (name_node d) in
  {| f_in_repo := in_repo d; f_path := decl_path d; f_line := S p.1; f_column := _col_char (source d) p;
     f_name := decl_name d; f_type := kind d |}.
Definition definition (tree : RepoTree) (rel_path : pystr) (line column : Z) (f : fs) : outcome (option Found) :=
  decl ← _resolve cwd tree rel_path line column f;
  Ret (match decl with Some d => Some (found_of d) | None => None end).
End intel.

(** ** Positions *)

Lemma line_encoded t source row l :
  encode_utf8 t = Ret source → split_char 10 t !! row = Some l → ∃ bl, split_char 10 source !! row = Some bl ∧ encode_utf8 l = Ret bl.
Proof.
  intros Ht Hl. destruct (Forall2_lookup_l _ _ _ _ _ (encode_lines _ _ Ht) Hl) as (bl & Hbl & E). by exists bl.
Qed.
Lemma line_is_text t row l : is_text t → split_char 10 t !! row = Some l → is_text l.
Proof.
  unfold is_text. rewrite !Forall_forall. intros Ht Hl c Hc. apply Ht.
  rewrite <- (join_split_char 10 t). apply list_elem_of_lookup_2 in Hl. revert Hl. generalize (split_char 10 t). intros ls.
  induction ls as [|a ls IH]; [by intros ?%elem_of_nil|]. intros [->|Hl]%elem_of_cons.
  - destruct ls; [done|]. cbn [join]. apply elem_of_app. by left.
  - destruct ls as [|a' ls]; [by apply elem_of_nil in Hl|]. change (c ∈ a ++ [10%N] ++ join [10%N] (a' :: ls)).
    rewrite !elem_of_app. right. right. by apply IH.
Qed.

(** C14: positions of the editor and of the parser agree: in a file of valid
    text, the byte point of a cursor on a line is in that line, and leads back to
    the cursor's column, whatever characters stand before it. *)
Theorem cursor_roundtrip t source row l column :
  encode_utf8 t = Ret source → is_text t → split_char 10 t !! row = Some l → (1 <= column <= Z.of_nat (length l) + 1)%Z →
  ∃ b, _point source (Z.of_nat row + 1) column = Ret (row, b) ∧ _col_char source (row, b) = Z.to_nat column.
Proof.
  intros Ht Htext Hl Hc. destruct (line_encoded _ _ _ _ Ht Hl) as (bl & Hbl & El). pose proof (line_is_text _ _ _ Htext Hl) as Hltext.
  unfold _point, _col_char. cbn [fst snd]. rewrite Hbl. replace (Z.of_nat row + 1 - 1)%Z with (Z.of_nat row) by lia.
  destruct (Z.ltb_spec (Z.of_nat row) 0); [lia|]. rewrite Nat2Z.id, Hbl.
  rewrite (decode_replace_encoded _ _ El Hltext). set (k := Z.to_nat (column - 1)).
  rewrite <- (take_drop k l) in El. apply encode_app in El as (x & y & Ex & _ & ->). rewrite Ex.
  exists (length x). split; [done|]. rewrite take_app_length.
  rewrite (decode_replace_encoded _ _ Ex) by (by apply Forall_take). rewrite length_take. lia.
Qed.

(** ** Patterns *)

(** What a target binds, by the grammar: a name itself; a pattern and a rest what
    their parts bind; a pair what its value binds; a default what stands on its
    left; at any depth and in any combination. *)
Definition name_types : list pystr := [u "shorthand_property_identifier_pattern"; u "identifier"].
Inductive binds : Node → Node → Prop :=
  | binds_name n : type n ∈ name_types → binds n n
  | binds_part p c n : type p ∈ [u "object_pattern"; u "array_pattern"; u "rest_pattern"] → c ∈ named_children p → binds c n → binds p n
  | binds_value p v n : type p = u "pair_pattern" → child_by_field_name (u "value") p = Some v → binds v n → binds p n
  | binds_left p l n : type p = u "assignment_pattern" → child_by_field_name (u "left") p = Some l → binds l n → binds p n.
(** Defaults and rests are on identifiers only, here and below; what else may
    stand in a pattern, such as a comment, binds nothing. *)
Inductive simple : Node → Prop :=
  | simple_name n : type n ∈ name_types → simple n
  | simple_pattern p : type p ∈ patterns → (∀ c, c ∈ named_children p → simple c) → simple p
  | simple_pair p : type p = u "pair_pattern" →
      (∀ v, child_by_field_name (u "value") p = Some v → type v ∈ [u "identifier"; u "object_pattern"; u "array_pattern"; u "assignment_pattern"] ∧ simple v) → simple p
  | simple_default p : type p = u "assignment_pattern" → (∀ l, child_by_field_name (u "left") p = Some l → type l = u "identifier") → simple p
  | simple_rest p : type p = u "rest_pattern" → (∀ c, c ∈ named_children p → type c = u "identifier") → simple p
  | simple_other p : type p ∉ name_types ++ patterns ++ [u "pair_pattern"; u "assignment_pattern"; u "rest_pattern"] → simple p.

Lemma is_type_true t n : is_type t n = true ↔ type n = t.
Proof. apply bool_decide_eq_true. Qed.
Lemma has_type_true ts n : has_type ts n = true ↔ type n ∈ ts.
Proof. apply bool_decide_eq_true. Qed.
Lemma is_type_of t n : type n = t → ∀ t', is_type t' n = (t =? t').
Proof. by intros <-. Qed.
Lemma has_type_of t n : type n = t → ∀ ts, has_type ts n = (t ∈? ts).
Proof. by intros <-. Qed.

(** Decides the tests on a node whose type is known. *)
Ltac closed_tests :=
  repeat match goal with
  | |- context [bool_decide ?P] =>
      let b := eval vm_compute in (bool_decide P) in
      lazymatch b with true => idtac | false => idtac end; change (bool_decide P) with b
  end; cbn [orb andb negb].
Ltac by_type H := rewrite ?(is_type_of _ _ H), ?(has_type_of _ _ H); closed_tests.
Ltac one_of_types H :=
  repeat match type of H with
  | _ ∈ _ :: _ => apply elem_of_cons in H as [H|H]
  | _ ∈ [] => by apply elem_of_nil in H
  end.

Lemma left_bindings n x m : (x, m) ∈ left_identifier n ↔
  child_by_field_name (u "left") n = Some m ∧ is_type (u "identifier") m = true ∧ x = decoded_text m.
Proof.
  unfold left_identifier. destruct (child_by_field_name _ n) as [b|]; [|rewrite elem_of_nil; by split; [|intros (? & _)]].
  destruct (is_type _ b) eqn:E.
  - rewrite list_elem_of_singleton. unfold bound. naive_solver.
  - rewrite elem_of_nil. split; [done|]. intros ([= <-] & Hi & _). congruence.
Qed.
Lemma left_bound p x n : is_type (u "assignment_pattern") p = true → (x, n) ∈ left_identifier p → binds p n ∧ x = decoded_text n.
Proof.
  intros Hp%is_type_true (Hl & Hi%is_type_true & ->)%left_bindings. split; [|done]. eapply binds_left; [done..|].
  apply binds_name. rewrite Hi. by right; left.
Qed.

Lemma value_sound nested v x n :
  (∀ x n, (x, n) ∈ nested v → binds v n ∧ x = decoded_text n) →
  (x, n) ∈ value_bindings nested v → binds v n ∧ x = decoded_text n.
Proof.
  intros Hn. unfold value_bindings. destruct (is_type _ v) eqn:E1.
  - rewrite list_elem_of_singleton. intros [= -> ->]. apply is_type_true in E1. split; [|done]. apply binds_name. rewrite E1. by right; left.
  - destruct (has_type patterns v) eqn:E2; [by intros ?%Hn|].
    destruct (is_type (u "assignment_pattern") v) eqn:E3; [|by intros ?%elem_of_nil].
    by apply left_bound.
Qed.
Lemma child_sound nested c x n :
  (∀ c x n, has_type patterns c = true → (x, n) ∈ nested c → binds c n ∧ x = decoded_text n) →
  (x, n) ∈ child_bindings nested c → binds c n ∧ x = decoded_text n.
Proof.
  intros Hn Hin. unfold child_bindings in Hin.
  destruct (has_type _ c) eqn:E1; [apply list_elem_of_singleton in Hin as [= -> ->]; apply has_type_true in E1; by split; [apply binds_name|]|].
  destruct (is_type (u "pair_pattern") c) eqn:E2.
  - destruct (child_by_field_name _ c) as [v|] eqn:Ev; [|by apply elem_of_nil in Hin].
    destruct (has_type patterns v) eqn:Ep; [|].
    + apply value_sound in Hin as [H1 H2]; [|intros; by apply Hn]. apply is_type_true in E2. by split; [eapply binds_value|].
    + assert ((x, n) ∈ value_bindings (λ _, []) v) as Hv by (revert Hin; unfold value_bindings; by rewrite Ep).
      apply value_sound in Hv as [H1 H2]; [|by intros ?? ?%elem_of_nil]. apply is_type_true in E2. by split; [eapply binds_value|].
  - destruct (has_type patterns c) eqn:E3; [by apply Hn|].
    destruct (is_type (u "assignment_pattern") c) eqn:E4; [by apply left_bound in Hin|].
    destruct (is_type (u "rest_pattern") c) eqn:E5; [|by apply elem_of_nil in Hin].
    apply list_elem_of_fmap in Hin as (g & [= -> ->] & [Hg Ht]%list_elem_of_In%filter_In). apply list_elem_of_In in Hg.
    apply is_type_true in E5, Ht. split; [|done]. eapply binds_part; [by rewrite E5; do 2 right; left|done|].
    apply binds_name. rewrite Ht. by right; left.
Qed.
Lemma pattern_sound f p x n : has_type patterns p = true → (x, n) ∈ pattern_ids f p → binds p n ∧ x = decoded_text n.
Proof.
  revert p x n. induction f as [|f IH]; intros p x n Hp; cbn [pattern_ids]; [by intros ?%elem_of_nil|].
  intros (c & Hc & Hin)%list_elem_of_In%in_flat_map. apply list_elem_of_In in Hc, Hin. apply child_sound in Hin as [H1 H2]; [|exact IH].
  split; [|done]. eapply binds_part; [|done..]. apply has_type_true in Hp. unfold patterns in Hp. set_solver.
Qed.

Lemma pattern_step f p c n : c ∈ named_children p → bound n ∈ child_bindings (pattern_ids f) c → bound n ∈ pattern_ids (S f) p.
Proof. intros Hc Hb. cbn [pattern_ids]. apply list_elem_of_In, in_flat_map. exists c. by split; apply list_elem_of_In. Qed.
Lemma pattern_down f p c : c ∈ named_children p → height (here p) <= f → ∃ f', f = S f' ∧ height (here c) <= f'.
Proof. intros Hc%named_child%child_height Hf. exists (f - 1). lia. Qed.
Lemma pattern_child nested p : type p ∈ patterns → child_bindings nested p = nested p.
Proof. intros Ht. unfold patterns in Ht. unfold child_bindings. one_of_types Ht; by_type Ht; done. Qed.
Lemma value_child nested v : type v ∈ [u "identifier"; u "object_pattern"; u "array_pattern"; u "assignment_pattern"] →
  value_bindings nested v = child_bindings nested v.
Proof. intros Ht. unfold value_bindings, child_bindings. one_of_types Ht; by_type Ht; done. Qed.
Lemma identifier_binds c n : type c = u "identifier" → binds c n → n = c.
Proof. intros Ht Hb. destruct Hb as [n Hn|p c n Hp|p v n Hp|p l n Hp]; [done|..]; rewrite Ht in Hp; by vm_compute in Hp; set_solver. Qed.
(** [simple], by the type of the node. *)
Ltac simple_inv Ht Hs :=
  destruct Hs as [? Hn|? Hn ?|? Hn ?|? Hn ?|? Hn ?|? Hn]; try done; exfalso; unfold name_types, patterns in *;
  repeat match goal with H : type _ ∈ _ |- _ => progress one_of_types H | H : type ?p = _, H' : context [type ?p] |- _ => rewrite H in H' end; try discriminate; try (by apply Hn; set_solver).
Lemma simple_parts p : type p ∈ patterns → simple p → ∀ c, c ∈ named_children p → simple c.
Proof. intros Ht Hs. simple_inv Ht Hs. Qed.
Lemma simple_values p : type p = u "pair_pattern" → simple p → ∀ v, child_by_field_name (u "value") p = Some v →
  type v ∈ [u "identifier"; u "object_pattern"; u "array_pattern"; u "assignment_pattern"] ∧ simple v.
Proof. intros Ht Hs. simple_inv Ht Hs. Qed.
Lemma simple_lefts p : type p = u "assignment_pattern" → simple p → ∀ l, child_by_field_name (u "left") p = Some l → type l = u "identifier".
Proof. intros Ht Hs. simple_inv Ht Hs. Qed.
Lemma simple_rests p : type p = u "rest_pattern" → simple p → ∀ c, c ∈ named_children p → type c = u "identifier".
Proof. intros Ht Hs. simple_inv Ht Hs. Qed.
Lemma child_complete c n : binds c n → simple c → ∀ f, height (here c) <= f → bound n ∈ child_bindings (pattern_ids f) c.
Proof.
  induction 1 as [n Hn|p c n Hp Hc Hb IH|p v n Hp Hv Hb IH|p l n Hp Hl Hb IH]; intros Hs f Hf.
  - unfold child_bindings. rewrite (proj2 (has_type_true name_types n) Hn : has_type [_; _] n = true). by left.
  - assert (type p ∈ patterns ∨ type p = u "rest_pattern") as [Ht|Ht] by (unfold patterns; set_solver).
    + rewrite pattern_child by done. destruct (pattern_down _ _ _ Hc Hf) as (f' & -> & Hf'). apply (pattern_step f' _ _ _ Hc), IH; [|done].
      by apply (simple_parts p Ht Hs).
    + assert (type c = u "identifier") as Hi by (by apply (simple_rests p Ht Hs)). apply identifier_binds in Hb as ->; [|done].
      unfold child_bindings. by_type Ht. apply list_elem_of_fmap. exists c. split; [done|]. apply list_elem_of_In, filter_In.
      split; [by apply list_elem_of_In|by apply is_type_true].
  - destruct (simple_values p Hp Hs v Hv) as [Ht Hs']. unfold child_bindings. by_type Hp. rewrite Hv, value_child by done.
    apply IH; [done|]. apply field_height in Hv. lia.
  - assert (type l = u "identifier") as Hi by (by apply (simple_lefts p Hp Hs)). apply identifier_binds in Hb as ->; [|done].
    unfold child_bindings. by_type Hp. apply left_bindings. by rewrite is_type_true.
Qed.

(** The fuel that is given is enough: more gives the same. *)
Lemma child_bindings_ext nested nested' c : (∀ d, height (here d) <= height (here c) → nested d = nested' d) →
  child_bindings nested c = child_bindings nested' c.
Proof.
  intros Hd. unfold child_bindings. rewrite (Hd c) by done. destruct (child_by_field_name (u "value") c) as [v|] eqn:Ev; [|done].
  unfold value_bindings. rewrite (Hd v); [done|]. apply field_height in Ev. lia.
Qed.
Lemma pattern_ids_fuel p f : height (here p) <= f → pattern_ids f p = _pattern_identifiers p.
Proof.
  unfold _pattern_identifiers. enough (∀ f g p, height (here p) <= f → height (here p) <= g → pattern_ids f p = pattern_ids g p) as He
    by (intros Hf; by apply He). clear. intros f. induction f as [|f IH]; intros g p Hf Hg; [destruct (here p); cbn [height] in Hf; lia|].
  destruct g as [|g]; [destruct (here p); cbn [height] in Hg; lia|]. cbn [pattern_ids]. rewrite !flat_map_concat_map. f_equal.
  apply map_ext_in. intros c Hc%list_elem_of_In%named_child%child_height. apply child_bindings_ext. intros d Hd. apply IH; lia.
Qed.


(** ** Scopes *)

(** A declaration is named by the node it is looked up with. *)
Definition names (x : pystr) (decl : Node) : Prop := decoded_text (_binding_target decl) = x.

Lemma binder_type p n : binds p n → type n ∈ name_types.
Proof. by induction 1. Qed.
Lemma binder_names p n : binds p n → names (decoded_text n) n.
Proof.
  intros Ht%binder_type. unfold name_types in Ht. unfold names, _binding_target, _decl_name_node, named_decl. one_of_types Ht; by_type Ht; done.
Qed.
Lemma declarator_names d x decl : (x, decl) ∈ declarator_bindings d → names x decl.
Proof.
  unfold declarator_bindings. destruct (is_type _ d) eqn:Ed; cbn [negb]; [|by intros ?%elem_of_nil].
  destruct (child_by_field_name (u "name") d) as [nm|] eqn:En; [|by intros ?%elem_of_nil].
  destruct (is_type _ nm) eqn:Ei.
  - intros [= -> ->]%list_elem_of_singleton. apply is_type_true in Ed. unfold names, _binding_target, _decl_name_node, named_decl.
    by_type Ed. rewrite En. cbn [mbind option_bind]. by rewrite Ei.
  - destruct (has_type patterns nm) eqn:Ep; [|by intros ?%elem_of_nil]. intros [Hb ->]%(pattern_sound _ _ _ _ Ep). by eapply binder_names.
Qed.
Lemma scope_names s x decl : (x, decl) ∈ _iter_scope_bindings s → names x decl.
Proof.
  unfold _iter_scope_bindings. intros (c & _ & Hin)%list_elem_of_In%in_flat_map. apply list_elem_of_In in Hin.
  unfold statement_bindings in Hin. destruct (unexported c) as [n|]; [|by apply elem_of_nil in Hin].
  destruct (has_type variable_groups n).
  - apply list_elem_of_In, in_flat_map in Hin as (d & _ & Hin%list_elem_of_In). by eapply declarator_names.
  - destruct (named_decl n); [|by apply elem_of_nil in Hin]. destruct (_decl_name_node n) as [nm|] eqn:En; [|by apply elem_of_nil in Hin].
    apply list_elem_of_singleton in Hin as [= -> ->]. unfold names, _binding_target. by rewrite En.
Qed.
Lemma param_names s x ident param : (x, ident, param) ∈ _iter_params s → x = decoded_text ident.
Proof.
  unfold _iter_params. destruct (child_by_field_name _ s); [|by intros ?%elem_of_nil].
  intros (p & _ & Hp)%list_elem_of_omap. destruct (param_ident p); [|done]. by injection Hp as <- <- <-.
Qed.

(** What a scope declares a name as: the node that names it and the declaration;
    a parameter before what the block declares, the first before the later. *)
Definition declares (s : Node) (x : pystr) : option (Node * Node) :=
  match List.find (λ b, b.1.1 =? x) (param_decls s) with
  | Some (_, ident, param) => Some (ident, param)
  | None => (λ b, (_binding_target b.2, b.2)) <$> List.find (λ b, b.1 =? x) (block_decls s)
  end.
Lemma declares_named s x target decl : declares s x = Some (target, decl) → decoded_text target = x.
Proof.
  unfold declares. destruct (List.find _ (param_decls s)) as [[[y i] p]|] eqn:E.
  - intros [= -> ->]. apply List.find_some in E as [Hin Hx%bool_decide_eq_true]. apply list_elem_of_In in Hin. cbn in Hx. subst y.
    unfold param_decls in Hin. destruct (has_type _ s); [|by apply elem_of_nil in Hin]. by apply param_names in Hin.
  - destruct (List.find _ (block_decls s)) as [[y d]|] eqn:Eb; [|done]. intros [= <- <-].
    apply List.find_some in Eb as [Hin Hx%bool_decide_eq_true]. apply list_elem_of_In in Hin. cbn in Hx. subst y.
    unfold block_decls in Hin. destruct (has_type _ s); [|by apply elem_of_nil in Hin]. by apply scope_names in Hin.
Qed.
Lemma declares_none s x : declares s x = None ↔ x ∉ map (fst ∘ fst) (param_decls s) ++ map fst (block_decls s).
Proof.
  assert (∀ (A : Type) (g : A → pystr) l, List.find (λ b, g b =? x) l = None ↔ x ∉ map g l) as Hf.
  { intros A g l. split.
    - intros E (b & -> & Hin)%list_elem_of_fmap. pose proof (List.find_none _ _ E b ltac:(by apply list_elem_of_In)) as Hb.
      by apply bool_decide_eq_false in Hb.
    - intros Hn. destruct (List.find _ l) as [b|] eqn:E; [|done]. apply List.find_some in E as [Hin Hx%bool_decide_eq_true].
      exfalso. apply Hn, list_elem_of_fmap. exists b. by split; [|apply list_elem_of_In]. }
  unfold declares. rewrite elem_of_app. pose proof (Hf _ (fst ∘ fst) (param_decls s)) as Hp. pose proof (Hf _ fst (block_decls s)) as Hb.
  unfold compose in Hp at 1. cbn beta in Hp. destruct (List.find _ (param_decls s)) as [[[y i] p]|].
  - split; [done|]. intros Hn. exfalso. apply Hn. left. destruct (decide (x ∈ map (fst ∘ fst) (param_decls s))) as [|Hx]; [done|].
    by apply Hp in Hx.
  - destruct (List.find _ (block_decls s)) as [b|].
    + split; [done|]. intros Hn. exfalso. apply Hn. right. destruct (decide (x ∈ map fst (block_decls s))) as [|Hx]; [done|].
      by apply Hb in Hx.
    + split; [|done]. intros _ [Hx|Hx]; [by apply Hp|by apply Hb].
Qed.

(** Within a file names are scoped lexically: the declaration found for an
    identifier is the one of the innermost scope around it that declares the name,
    and the node it leads to is that name; when no scope around declares it,
    nothing is found. *)
Lemma local_innermost source rel_path ident name :
  match _resolve_local source rel_path ident name with
  | Ret (Some d) =>
      decl_name d = name ∧ decoded_text (name_node d) = name
      ∧ ∃ inner s outer, ancestors ident = inner ++ s :: outer
        ∧ (∀ s', s' ∈ inner → name ∉ map (fst ∘ fst) (param_decls s') ++ map fst (block_decls s'))
        ∧ declares s name = Some (name_node d, container d)
  | Ret None => ∀ s, s ∈ ancestors ident → name ∉ map (fst ∘ fst) (param_decls s) ++ map fst (block_decls s)
  | Raise _ => ∃ s target decl e, s ∈ ancestors ident ∧ declares s name = Some (target, decl) ∧ _decl_kind decl = Raise e
  end.
Proof.
  unfold _resolve_local. induction (ancestors ident) as [|s scopes IH]; cbn [resolve_from_scopes]; [by intros s ?%elem_of_nil|].
  assert (declares s name = match List.find (λ b, b.1.1 =? name) (param_decls s) with
    | Some (_, i, p) => Some (i, p) | None => (λ b, (_binding_target b.2, b.2)) <$> List.find (λ b, b.1 =? name) (block_decls s) end) as Ed by done.
  destruct (List.find _ (param_decls s)) as [[[y i] p]|].
  { split; [done|]. split; [by eapply declares_named|]. exists [], s, scopes. split; [done|]. by split; [intros ? ?%elem_of_nil|]. }
  destruct (List.find _ (block_decls s)) as [[y decl]|].
  { cbn in Ed. destruct (_decl_kind decl) as [k|e] eqn:Ek; cbn [mbind outcome_bind].
    - split; [done|]. split; [by eapply declares_named|]. exists [], s, scopes. split; [done|]. by split; [intros ? ?%elem_of_nil|].
    - exists s, (_binding_target decl), decl, e. by split; [left|]. }
  apply declares_none in Ed. destruct (resolve_from_scopes _ _ _ scopes) as [[d|]|e].
  - destruct IH as (Hd & Hn & inner & s' & outer & -> & Hi & Hs). split; [done|]. split; [done|]. exists (s :: inner), s', outer. split; [done|].
    split; [|done]. by intros s'' [->|Hin]%elem_of_cons; [|apply Hi].
  - by intros s' [->|Hin]%elem_of_cons; [|apply IH].
  - destruct IH as (s' & t & decl & e' & Hin & Hd). exists s', t, decl, e'. by split; [right|].
Qed.

(** ** Where definitions are *)
Section inside.
Context (cwd : loc) `{TreeSitter}.

Lemma resolved_loc p f q : resolved cwd p f = Ret q → ∃ l, realpath cwd f p = Some l ∧ q = Path (u "/") l.
Proof. unfold resolved. destruct (realpath cwd f p) as [l|]; [|done]. intros [= <-]. by exists l. Qed.
Lemma relative_locs l top : is_relative_to (Path (u "/") l) (Path (u "/") top) = true ↔ top `prefix_of` l.
Proof. unfold is_relative_to. cbn [root parts]. rewrite (bool_decide_eq_true_2 (u "/" = u "/")) by done. apply bool_decide_eq_true. Qed.
Lemma read_resolved f p q b : linkless f cwd → resolved cwd p f = Ret q → read_file cwd q f = Ret b →
  ∃ l, realpath cwd f p = Some l ∧ q = Path (u "/") l ∧ linkless f l ∧ nodes f !! l = Some (NFile b).
Proof.
  intros Hc (l & Hl & ->)%resolved_loc Hr. pose proof (realpath_linkless _ _ _ _ Hc Hl) as Hk. exists l. split_and!; try done.
  unfold read_file in Hr. destruct (stat cwd f _) as [[l' [b'| |]]|] eqn:Es; try done. injection Hr as ->.
  by apply stat_own in Es as [-> ?].
Qed.

(** What a declaration that is found says of its file. *)
Definition from_file (tree : RepoTree) (rel_path : pystr) (f : fs) (d : _Decl) : Prop :=
  ∃ top l, realpath cwd f (t_root tree) = Some top ∧ top `prefix_of` l ∧ nodes f !! l = Some (NFile (source d)) ∧ in_repo d = true
  ∧ (decl_path d = rel_path ∧ realpath cwd f (child (t_root tree) rel_path) = Some l
     ∨ decl_path d = path_str (Path [] (drop (length top) l))).

Lemma first_file_found root_res candidates f p : first_file cwd root_res candidates f = Ret (Some p) →
  ∃ c, resolved cwd c f = Ret p ∧ is_relative_to p root_res = true.
Proof.
  induction candidates as [|c candidates IH]; cbn [first_file]; [done|]. destruct (resolved cwd c f) as [q|e] eqn:E; [|done].
  cbn [mbind outcome_bind]. destruct (is_relative_to q root_res && is_file cwd q f) eqn:Eq; [|done].
  intros [= <-]. apply andb_true_iff in Eq as [Eq _]. by exists c.
Qed.
Lemma module_found root from_rel spec f p : _resolve_module cwd root from_rel spec f = Ret (Some p) →
  ∃ c top, resolved cwd c f = Ret p ∧ realpath cwd f root = Some top ∧ is_relative_to p (Path (u "/") top) = true.
Proof.
  unfold _resolve_module. destruct (negb _); [done|]. destruct (resolved cwd root f) as [r|e] eqn:E; [|done].
  apply resolved_loc in E as (top & Et & ->). cbn [mbind outcome_bind]. intros (c & Hc & Hr)%first_file_found. by exists c, top.
Qed.
Lemma import_inside tree from_rel entry local_name f d rel_path : linkless f cwd →
  _resolve_import cwd tree from_rel entry local_name f = Ret (Some d) → from_file tree rel_path f d.
Proof.
  intros Hc. unfold _resolve_import. destruct (_resolve_module _ _ _ _ _) as [[target|]|e] eqn:Em; [|done..]. cbn [mbind outcome_bind].
  apply module_found in Em as (c & top & Hcand & Ht & Hrel). destruct (_grammar_for (name target)) as [g|]; [|done].
  destruct (read_file cwd target f) as [b|e] eqn:Eb; [|done]. cbn [mbind outcome_bind].
  destruct (read_resolved _ _ _ _ Hc Hcand Eb) as (l & _ & -> & Hl & Hn). apply relative_locs in Hrel.
  assert (∀ q, resolved cwd (Path (u "/") l) f = Ret q → q = Path (u "/") l) as Hself.
  { intros q (l' & Hl' & ->)%resolved_loc. by apply resolve_own in Hl' as ->. }
  destruct (resolved cwd (Path (u "/") l) f) as [q|e]; [|done]. rewrite (Hself q) by done. cbn [mbind outcome_bind].
  unfold resolved. rewrite Ht. cbn [mbind outcome_bind].
  assert (∀ c' n k, from_file tree rel_path f {| source := b; container := c'; name_node := n; kind := k; decl_name := local_name;
    decl_path := relative_str (Path (u "/") l) (Path (u "/") top); in_repo := true |}) as Hd.
  { intros c' n k. exists top, l. cbn. split_and!; try done. by right. }
  destruct (entry.2 =? u "*"); [by intros [= <-]|].
  destruct (if entry.2 =? u "default" then _ else _) as [c'|]; [|by intros [= <-]].
  destruct (_decl_kind c') as [k|e]; [|done]. by intros [= <-].
Qed.
Lemma local_file source rel_path ident name d : _resolve_local source rel_path ident name = Ret (Some d) →
  JsIntel.source d = source ∧ decl_path d = rel_path ∧ in_repo d = true.
Proof.
  unfold _resolve_local. induction (ancestors ident) as [|s scopes IH]; cbn [resolve_from_scopes]; [done|].
  destruct (List.find _ (param_decls s)) as [[[y i] p]|]; [by intros [= <-]|].
  destruct (List.find _ (block_decls s)) as [[y decl]|]; [|done].
  destruct (_decl_kind decl); [|done]. by intros [= <-].
Qed.

Lemma in_tree_found tree rel_path f p g : _resolve_in_tree cwd tree rel_path f = Ret (Some (p, g)) →
  ∃ top, resolved cwd (child (t_root tree) rel_path) f = Ret p ∧ realpath cwd f (t_root tree) = Some top
    ∧ is_relative_to p (Path (u "/") top) = true ∧ is_file cwd p f = true ∧ _grammar_for rel_path = Some g.
Proof.
  unfold _resolve_in_tree. destruct (_grammar_for rel_path) as [g'|]; [|done].
  destruct (resolved cwd (child _ _) f) as [q|e] eqn:Eq; [|done]. cbn [mbind outcome_bind].
  destruct (resolved cwd (t_root tree) f) as [r|e] eqn:Er; [|done]. cbn [mbind outcome_bind].
  apply resolved_loc in Er as (top & Ht & ->). destruct (negb _ || negb _) eqn:E; [done|].
  intros [= <- <-]. apply orb_false_iff in E as [E1%negb_false_iff E2%negb_false_iff]. by exists top.
Qed.
Lemma resolve_inside tree rel_path line column f d : linkless f cwd →
  _resolve cwd tree rel_path line column f = Ret (Some d) → from_file tree rel_path f d.
Proof.
  intros Hc. unfold _resolve. destruct (_resolve_in_tree _ _ _ _) as [[[p g]|]|e] eqn:Ep; [|done..]. cbn [mbind outcome_bind].
  apply in_tree_found in Ep as (top & Hp & Ht & Hrel & _). destruct (read_file cwd p f) as [b|e] eqn:Eb; [|done]. cbn [mbind outcome_bind].
  destruct (_point b line column) as [pt|e]; [|done]. cbn [mbind outcome_bind]. destruct (_identifier_at _ pt) as [ident|]; [|done].
  destruct (read_resolved _ _ _ _ Hc Hp Eb) as (l & Hl & -> & _ & Hn). apply relative_locs in Hrel.
  destruct (match _collect_imports _ !! _ with Some _ => _ | None => _ end) as [[d'|]|e] eqn:Ei; cbn [mbind outcome_bind]; [|  |done].
  - intros [= <-]. destruct (_ !! _) as [entry|] in Ei; [|done]. by eapply import_inside.
  - intros (Hs & Hpath & Hr)%local_file. exists top, l. rewrite Hs. split_and!; try done. by left.
Qed.

(** *** Imports before scopes *)

(** Where a name imported from a module leads: to the whole module, when that is
    what was imported or the module declares no such name; to its default export;
    to the first declaration of the name at its top level. *)
Definition exported (module : Node) (wanted : pystr) (d : _Decl) : Prop :=
  if wanted =? u "*" then name_node d = module
  else if wanted =? u "default" then container d = default module (_find_default_export module)
  else match List.find (λ b, b.1 =? wanted) (_iter_scope_bindings module) with
       | Some (_, decl) => container d = decl ∧ decoded_text (name_node d) = wanted
       | None => name_node d = module
       end.
(** The module an import names: a file in the tree, of a language that is parsed. *)
Definition module_of (tree : RepoTree) (rel_path spec : pystr) (f : fs) : outcome (option (path * pystr)) :=
  target ← _resolve_module cwd (t_root tree) rel_path spec f;
  Ret (p ← target; g ← _grammar_for (name p); Some (p, g)).
Lemma import_leads tree rel_path entry local f :
  match _resolve_import cwd tree rel_path entry local f with
  | Ret (Some d) => ∃ p g, module_of tree rel_path entry.1 f = Ret (Some (p, g)) ∧ read_file cwd p f = Ret (source d)
      ∧ decl_name d = local ∧ exported (root_node g (source d)) entry.2 d
  | Ret None => module_of tree rel_path entry.1 f = Ret None
  | Raise _ => module_of tree rel_path entry.1 f ≠ Ret None
  end.
Proof.
  unfold _resolve_import, module_of. destruct (_resolve_module _ _ _ _ _) as [[p|]|e]; [|done..]. cbn [mbind outcome_bind option_bind].
  destruct (_grammar_for (name p)) as [g|] eqn:Eg; [|done]. cbn [mbind outcome_bind option_bind].
  destruct (read_file cwd p f) as [b|e] eqn:Eb; [|done]. cbn [mbind outcome_bind].
  destruct (resolved cwd p f) as [q|e]; [|done]. destruct (resolved cwd (t_root tree) f) as [top|e]; [|done]. cbn [mbind outcome_bind].
  destruct (entry.2 =? u "*") eqn:E1; [exists p, g; unfold exported; by rewrite E1|].
  destruct (entry.2 =? u "default") eqn:E2.
  - destruct (_find_default_export (root_node g b)) as [c|] eqn:Ec.
    + destruct (_decl_kind c) as [k|e]; [|done]. exists p, g. unfold exported. cbn [source]. by rewrite E1, E2, Ec.
    + exists p, g. unfold exported. cbn [source]. by rewrite E1, E2, Ec.
  - unfold _find_top_binding. destruct (List.find _ (_iter_scope_bindings (root_node g b))) as [[x c]|] eqn:Ec; cbn [fmap option_fmap option_map snd].
    + pose proof Ec as [Hin Hx%bool_decide_eq_true]%List.find_some. apply list_elem_of_In in Hin. cbn in Hx. subst x.
      destruct (_decl_kind c) as [k|e]; [|done]. exists p, g. unfold exported. cbn [source]. rewrite E1, E2, Ec.
      split_and!; try done. by apply scope_names in Hin.
    + exists p, g. unfold exported. cbn [source]. by rewrite E1, E2, Ec.
Qed.


(** C6: code intelligence does not leave the tree: whatever path is asked for and
    whatever the files import, a definition that is found is in a regular file
    below the root of the tree with every link followed, and the path that is
    reported is the one asked for or that file's path below the root. *)
Theorem definition_stays_in_tree tree rel_path line column f d : linkless f cwd →
  definition cwd tree rel_path line column f = Ret (Some d) →
  f_in_repo d = true ∧
  ∃ top l b, realpath cwd f (t_root tree) = Some top ∧ top `prefix_of` l ∧ nodes f !! l = Some (NFile b)
  ∧ (f_path d = rel_path ∧ realpath cwd f (child (t_root tree) rel_path) = Some l
     ∨ f_path d = path_str (Path [] (drop (length top) l))).
Proof.
  intros Hc. unfold definition. destruct (_resolve _ _ _ _ _ _) as [[d'|]|e] eqn:E; cbn [mbind outcome_bind]; [|done..].
  intros [= <-]. apply resolve_inside in E as (top & l & Ht & Hp & Hn & Hr & Hd); [|done].
  split; [done|]. by exists top, l, (source d').
Qed.
End inside.

(** ** Concrete files *)
Module JsDemo.
Definition point_of (source : bytes) (off : nat) : point :=
  let before := split_char 10 (take off source) in (pred (length before), length (List.last before [])).
Definition at_ (source : bytes) (s e : nat) : span :=
  {| from_byte := s; to_byte := e; from_point := point_of source s; to_point := point_of source e |}.
Section build.
Context (source : bytes).
Definition node (l : String.string) (s e : nat) (ks : list (option pystr * syntax)) : syntax := Syntax (u l) true (at_ source s e) ks.
Definition token (l : String.string) (s e : nat) : option pystr * syntax := (None, Syntax (u l) false (at_ source s e) []).
Definition field (f : String.string) (t : syntax) : option pystr * syntax := (Some (u f), t).
Definition kid (t : syntax) : option pystr * syntax := (None, t).
Definition ident (s e : nat) : syntax := node "identifier" s e [].
Definition quoted (s e : nat) : syntax :=
  node "string" s e [token "'" s (S s); kid (node "string_fragment" (S s) (pred e) []); token "'" (pred e) e].
(** [name = value] with a keyword before *)
Definition group (keyword : String.string) (s e : nat) (declarator : syntax) : syntax :=
  node "lexical_declaration" s e [field "kind" (token keyword s (s + String.length keyword)).2; kid declarator].
End build.
(** The way down to the smallest node at a point. *)
Definition spans (p : point) (t : syntax) : bool :=
  let le a b := (a.1 <? b.1)%nat || ((a.1 =? b.1)%nat && (a.2 <=? b.2)%nat) in
  le (from_point (place t)) p && negb (le (to_point (place t)) p).
Fixpoint way_to (fuel : nat) (t : syntax) (p : point) : list nat :=
  match fuel, list_find (λ k, spans p k.2 = true) (kids t) with
  | S f, Some (i, k) => i :: way_to f k.2 p
  | _, _ => []
  end.

Definition lines (l : list String.string) : bytes := concat (map (λ s, u s ++ [10%N]) l).
Definition a_js : bytes := lines ["const { x: y } = require('./m');"; "y;"]%string.
Definition a_pattern : syntax :=
  let n := node a_js in
  n "object_pattern" 6 14 [token a_js "{" 6 7;
    kid (n "pair_pattern" 8 12 [field "key" (n "property_identifier" 8 9 []); token a_js ":" 9 10; field "value" (ident a_js 11 12)]);
    token a_js "}" 13 14].
Definition a_tree : syntax :=
  let n := node a_js in
  n "program" 0 36
    [kid (group a_js "const" 0 32 (n "variable_declarator" 6 31
       [field "name" a_pattern; token a_js "=" 15 16;
        field "value" (n "call_expression" 17 31 [field "function" (ident a_js 17 24);
          field "arguments" (n "arguments" 24 31 [token a_js "(" 24 25; kid (quoted a_js 25 30); token a_js ")" 30 31])])]));
     kid (n "expression_statement" 33 35 [kid (ident a_js 33 34); token a_js ";" 34 35])].
Definition m_js : bytes := lines ["export const x = 1;"; "export const y = 2;"]%string.
Definition export_const (s : nat) : syntax :=
  node m_js "export_statement" s (s + 19) [token m_js "export" s (s + 6);
    field "declaration" (group m_js "const" (s + 7) (s + 19) (node m_js "variable_declarator" (s + 13) (s + 18)
      [field "name" (ident m_js (s + 13) (s + 14)); token m_js "=" (s + 15) (s + 16); field "value" (node m_js "number" (s + 17) (s + 18) [])]))].
Definition m_tree : syntax := node m_js "program" 0 40 [kid (export_const 0); kid (export_const 20)].
Definition b_js : bytes := lines ["import { y } from './m';"; "function f(y) { y; }"]%string.
Definition b_tree : syntax :=
  let n := node b_js in
  n "program" 0 46
    [kid (n "import_statement" 0 24 [token b_js "import" 0 6;
       kid (n "import_clause" 7 12 [kid (n "named_imports" 7 12 [token b_js "{" 7 8;
         kid (n "import_specifier" 9 10 [field "name" (ident b_js 9 10)]); token b_js "}" 11 12])]);
       token b_js "from" 13 17; field "source" (quoted b_js 18 23); token b_js ";" 23 24]);
     kid (n "function_declaration" 25 45 [token b_js "function" 25 33; field "name" (ident b_js 34 35);
       field "parameters" (n "formal_parameters" 35 38 [token b_js "(" 35 36; kid (ident b_js 36 37); token b_js ")" 37 38]);
       field "body" (n "statement_block" 39 45 [token b_js "{" 39 40;
         kid (n "expression_statement" 41 43 [kid (ident b_js 41 42); token b_js ";" 42 43]); token b_js "}" 44 45])])].
(** A type that is not UTF-8 *)
Definition c_ts : bytes := u "let z: '" ++ [255%N] ++ u "';".
Definition c_tree : syntax :=
  node c_ts "program" 0 11 [kid (group c_ts "let" 0 11 (node c_ts "variable_declarator" 4 10
    [field "name" (ident c_ts 4 5); field "type" (node c_ts "type_annotation" 5 10 [token c_ts ":" 5 6; kid (quoted c_ts 7 10)])]))].

Instance parser : TreeSitter := {|
  parse_source _ source :=
    if source =? a_js then a_tree else if source =? m_js then m_tree else if source =? b_js then b_tree else c_tree;
  descendant_for_point_range t p := Some (way_to (height t) t p) |}.
Definition disk : fs :=
  {| nodes := list_to_map [([u "tree"], NDir 0%Q); ([u "tree"; u "a.js"], NFile a_js); ([u "tree"; u "m.js"], NFile m_js);
       ([u "tree"; u "b.js"], NFile b_js); ([u "tree"; u "c.ts"], NFile c_ts)]; now := 0%Q |}.
Definition tree : RepoTree := {| t_repo := u "o/r"; t_sha := u "abc"; t_root := path_of "/tree" |}.
Definition go (file : String.string) (line column : Z) : outcome (option Found) := definition [] tree (u file) line column disk.
Definition in_file (file : String.string) (line column : nat) (name type : String.string) : Found :=
  {| f_in_repo := true; f_path := u file; f_line := line; f_column := column; f_name := u name; f_type := u type |}.

(** [y] is the [x] of the module, and the [y] of the module is found. *)
Lemma renamed_require_misses : go "a.js" 2 1 = Ret (Some (in_file "m.js" 2 14 "y" "constant")).
Proof. vm_compute. reflexivity. Qed.
(** Inside the function [y] is its parameter, and the import is found. *)
Lemma import_shadows_parameter :
  go "b.js" 2 17 = Ret (Some (in_file "m.js" 2 14 "y" "constant"))
  ∧ match _resolve_local b_js (u "b.js") {| source_of := b_js; here := ident b_js 41 42;
      above := [(default c_tree (snd <$> kids b_tree !! 1), 3); (b_tree, 1)] |} (u "y") with
    | Ret (Some d) => kind d = u "parameter"
    | _ => False
    end.
Proof. split; vm_compute; reflexivity. Qed.
Lemma bad_type_raises : ∃ e, hover [] tree (u "c.ts") 1 5 disk = Raise e.
Proof. eexists. vm_compute. reflexivity. Qed.
Lemma hover_shows_declaration : hover [] tree (u "b.js") 2 10 disk = Ret (Some (bq "```typescript" ++ [nl] ++ u "function f(y)" ++ [nl] ++ bq "```")).
Proof. vm_compute. reflexivity. Qed.

(** [{ a: { b } = {} }]: the inner name is bound, and not found. *)
Definition n_js : bytes := lines ["const { a: { b } = {} } = q;"]%string.
Definition n_pattern : syntax :=
  let n := node n_js in
  n "object_pattern" 6 23
    [kid (n "pair_pattern" 8 21 [field "key" (n "property_identifier" 8 9 []);
       field "value" (n "assignment_pattern" 11 21
         [field "left" (n "object_pattern" 11 16 [kid (n "shorthand_property_identifier_pattern" 13 14 [])]); field "right" (n "object" 19 21 [])])])].
Definition n_node : Node := {| source_of := n_js; here := n_pattern; above := [] |}.
Lemma nested_default_missed : (∃ n, binds n_node n ∧ decoded_text n = u "b") ∧ _pattern_identifiers n_node = [].
Proof.
  split; [|vm_compute; reflexivity].
  destruct (named_children n_node) as [|c cs] eqn:Ec; [by vm_compute in Ec|].
  assert (c ∈ named_children n_node) as Hc by (rewrite Ec; left). vm_compute in Ec. injection Ec as <- <-.
  eexists. split.
  - eapply binds_part; [left|exact Hc|]. eapply binds_value; [vm_compute; reflexivity..|]. eapply binds_left; [vm_compute; reflexivity..|].
    eapply binds_part; [left|vm_compute; left|]. apply binds_name. left.
  - vm_compute. reflexivity.
Qed.

(** [{ x: y }] *)
Definition a_node : Node := {| source_of := a_js; here := a_pattern; above := [] |}.

(** The name after the import, and inside the function that has a parameter of
    that name. *)
Definition b_root : Node := root_node (u "javascript") b_js.
Definition at_name : point := (1, 16).

Lemma definition_stays_in_tree_witness :
  linkless disk [] ∧ go "a.js" 2 1 = Ret (Some (in_file "m.js" 2 14 "y" "constant"))
  ∧ ∃ top l b, realpath [] disk (path_of "/tree") = Some top ∧ top `prefix_of` l ∧ nodes disk !! l = Some (NFile b).
Proof.
  split; [apply linkless_nil|]. assert (go "a.js" 2 1 = Ret (Some (in_file "m.js" 2 14 "y" "constant"))) as E by (vm_compute; reflexivity).
  split; [exact E|]. destruct (definition_stays_in_tree [] tree (u "a.js") 2 1 disk _ (linkless_nil disk) E) as (_ & top & l & b & Ht & Hp & Hn & _).
  exists top, l, b. split; [exact Ht|]. split; [exact Hp|exact Hn].
Defined.

(** Two accented letters before the cursor *)
Lemma cursor_roundtrip_witness :
  _point [195; 169; 195; 169; 32; 120]%N 1 4 = Ret (0, 5) ∧ ∃ b, _point [195; 169; 195; 169; 32; 120]%N 1 4 = Ret (0, b)
  ∧ _col_char [195; 169; 195; 169; 32; 120]%N (0, b) = 4.
Proof.
  split; [vm_compute; reflexivity|].
  apply (cursor_roundtrip [233; 233; 32; 120]%N [195; 169; 195; 169; 32; 120]%N 0 [233; 233; 32; 120]%N 4);
    [vm_compute; reflexivity|repeat constructor|vm_compute; reflexivity|simpl; lia].
Defined.
End JsDemo.
