(* ===== verification/TsIntel.v ===== *)
(** * pr_review: the language services of prepared trees

    [libs/pr_review/src/pr_review/tsintel.py]: one Node process per prepared tree,
    asked over a line protocol, and the registry of these processes that the
    threads of the server share.  A section under the registry's lock, or under a
    server's, is one step; what a process prints is an argument, and that a process
    ends or that time passes are steps of their own. *)

From Stdlib Require Import NArith ZArith QArith Lia.
From S2P Require Import Prelude PyStr PyJson PyDumps PyMonad PyBytes PyPath PyFs GithubTree Prepare.
From stdpp Require Import options.
#[global] Open Scope nat_scope.
#[local] Open Scope py_scope.

Definition _IDLE_SECONDS : Q := 600.
(** A [_Server]: the lines it was sent, [_id], [last_used]. *)
Record _Server := { sent : list pystr; request_id : Z; last_used : Q }.
(** The registry [_servers] by the text of a tree's root; the server objects, with
    the processes that ended by themselves and those that were closed. *)
Record service := Service {
  _servers : list (pystr * nat); objects : gmap nat _Server; spawned : nat;
  exited : gset nat; closed : gset nat; clock : Q }.
Abbreviation T := (M service).

Definition with_servers (f : list (pystr * nat) → list (pystr * nat)) : T unit :=
  modify (λ s, Service (f (_servers s)) (objects s) (spawned s) (exited s) (closed s) (clock s)).
Definition set_object (pid : nat) (o : _Server) : T unit :=
  modify (λ s, Service (_servers s) (<[pid := o]> (objects s)) (spawned s) (exited s) (closed s) (clock s)).
(** Also [_Server.close]: the pipes are closed and the process is told to end. *)
Definition _terminate (pid : nat) : T unit :=
  modify (λ s, Service (_servers s) (objects s) (spawned s) (exited s) ({[pid]} ∪ closed s) (clock s)).
Definition alive (pid : nat) (s : service) : bool := bool_decide (pid ∉ exited s).
Definition key_of (tree : RepoTree) : pystr := path_str (t_root tree).

Section tsintel.
(** The helper script; the first line of the process with these arguments, [None]:
    it cannot be started, [Some None]: it cannot be read; and the line it answers to
    the last of the lines it was sent, [None]: writing or reading fails. *)
Context (cwd : loc) (_HELPER : pystr) `{PyRepr}.
Context (first_line : nat → list pystr → option (option pystr)) (answer : nat → list pystr → option pystr).

(** ** A server *)
Definition _ServerError (m : pystr) : exn := OtherError (u "_ServerError") m.
Definition is_server_error (e : exn) : bool := match e with OtherError n _ => n =? u "_ServerError" | _ => false end.
Definition request_line (payload : dict) (id : Z) : pystr := dumps float_repr ", " ": " (JObj (dset "id" (JInt id) payload)) ++ [nl].
Definition request (pid : nat) (payload : dict) : T dict := λ s,
  match objects s !! pid with
  | None => (Raise (_ServerError (u "language service is not running")), s)
  | Some o =>
      if negb (alive pid s) then (Raise (_ServerError (u "language service is not running")), s)
      else
        let id := (request_id o + 1)%Z in
        let lines := sent o ++ [request_line payload id] in
        let set lines used := Service (_servers s) (<[pid := {| sent := lines; request_id := id; last_used := used |}]> (objects s))
                                (spawned s) (exited s) (closed s) (clock s) in
        if bool_decide (pid ∈ closed s) then (Raise (_ServerError (u "I/O operation on closed file.")), set (sent o) (last_used o))
        else
          match answer pid lines with
          | None => (Raise (_ServerError (u "broken pipe")), set lines (last_used o))
          | Some line =>
              (if line =? [] then Raise (_ServerError (u "no response from language service"))
               else match loads line with
                    | None => Raise (_ServerError (u "unparseable response"))
                    | Some (JObj d) => Ret d
                    | Some _ => Raise (_ServerError (u "non-object response"))
                    end, set lines (clock s))
          end
  end.

(** ** The registry *)
Definition server_ready (line : pystr) : bool :=
  match loads line with Some (JObj d) => truthy (jget "ready" d) | _ => false end.
Definition typescript_dir (tree : RepoTree) (f : fs) : outcome (option path) :=
  status ← prepare_status cwd tree f;
  ts_dir_rel ← get "typescript_dir" status;
  match ts_dir_rel with
  | JStr (c :: r) =>
      match realpath cwd f (child (t_root tree) (c :: r)) with
      | Some l => let ts_dir := Path (u "/") l in Ret (if is_dir cwd ts_dir f then Some ts_dir else None)
      | None => Raise symlink_loop
      end
  | _ => Ret None
  end.
(** [subprocess.Popen]: a new process, if it can be started. *)
Definition popen (args : list pystr) : T (option (nat * option pystr)) := λ s,
  match first_line (spawned s) args with
  | None => (Ret None, s)
  | Some line => (Ret (Some (spawned s, line)), Service (_servers s) (objects s) (S (spawned s)) (exited s) (closed s) (clock s))
  end.
Definition _spawn_server (f : fs) (tree : RepoTree) : T (option nat) :=
  ts_dir ← lift (typescript_dir tree f);
  match ts_dir with
  | None => mret None
  | Some ts_dir =>
      proc ← popen [u "node"; _HELPER; path_str (t_root tree); path_str ts_dir];
      match proc with
      | None => mret None
      | Some (pid, line) =>
          if server_ready (default [] line) then
            now ← gets clock;
            set_object pid {| sent := []; request_id := 0; last_used := now |};;
            mret (Some pid)
          else _terminate pid;; mret None
      end
  end.

(** [server.close()] and [_servers.pop(key)] *)
Definition retire (key : pystr) (pid : nat) : T unit := _terminate pid;; with_servers (ddel key).
Definition stale (pid : nat) (s : service) : bool :=
  negb (alive pid s) || match objects s !! pid with Some o => negb (Qle_bool (clock s - last_used o) _IDLE_SECONDS) | None => true end.
Definition _reap_idle_locked (exclude : pystr) : T unit :=
  items ← gets _servers;
  for_each items (λ kp : pystr * nat,
    old ← gets (stale kp.2);
    when ((kp.1 <>? exclude) && old) (retire kp.1 kp.2)).

Definition _get_server (factory : RepoTree → T (option nat)) (tree : RepoTree) : T (option nat) :=
  let key := key_of tree in
  _reap_idle_locked key;;
  registered ← gets (λ s, dget key (_servers s));
  up ← gets (λ s, match registered with Some pid => alive pid s | None => false end);
  match registered, up with
  | Some pid, true => mret (Some pid)
  | _, _ =>
      match registered with Some pid => retire key pid | None => mret tt end;;
      server ← factory tree;
      match server with
      | None => mret None
      | Some pid => with_servers (dset key pid);; mret (Some pid)
      end
  end.
(** The code takes the server out of the registry under the lock and closes it
    right after; here both are one step.  In between, only a request of a thread
    that was given this server before could still be answered. *)
Definition _drop (tree : RepoTree) : T unit :=
  server ← gets (λ s, dget (key_of tree) (_servers s));
  match server with Some pid => retire (key_of tree) pid | None => mret tt end.
Definition reset : T unit :=
  items ← gets _servers; for_each items (λ kp : pystr * nat, _terminate kp.2);; with_servers (λ _, []).

(** ** Hover and definition *)
Definition query (op : pystr) (rel_path : pystr) (line column : Z) : dict :=
  [(u "op", JStr op); (u "path", JStr rel_path); (u "line", JInt line); (u "col", JInt column)].
(** What a server answered, or [None] with the server dropped. *)
Definition asked (tree : RepoTree) (pid : nat) (payload : dict) : T (option dict) :=
  try_except (d ← request pid payload; mret (Some d))
    (λ e, if is_server_error e then Some (_drop tree;; mret None) else None).
Definition hover_answer (resp : dict) : option json :=
  if truthy (jget "error" resp) then None
  else let contents := jget "contents" resp in if truthy contents then Some (JObj [(u "contents", contents)]) else None.
Definition definition_answer (resp : dict) : option json :=
  if truthy (jget "error" resp) || negb (truthy (jget "found" resp)) then None
  else Some (JObj [(u "in_repo", JBool (truthy (jget "in_repo" resp))); (u "path", jget "path" resp);
                   (u "line", jget_or "line" (JInt 1) resp); (u "column", jget_or "column" (JInt 1) resp);
                   (u "name", jget "name" resp); (u "type", jget "type" resp)]).
Definition intel (op : pystr) (read : dict → option json) (factory : RepoTree → T (option nat)) (tree : RepoTree)
    (rel_path : pystr) (line column : Z) : T (option json) :=
  server ← _get_server factory tree;
  match server with
  | None => mret None
  | Some pid => resp ← asked tree pid (query op rel_path line column); mret (resp ≫= read)
  end.
Definition hover (f : fs) := intel (u "hover") hover_answer (_spawn_server f).
Definition definition (f : fs) := intel (u "def") definition_answer (_spawn_server f).

(** ** The threads *)

(** A thread that wants an answer: before it has a server, with the server it was
    given, and after a request that failed. *)
Inductive phase := Wanting | Given (pid : nat) | Failed | Done.
Record client := { asks : RepoTree; payload : dict; at_phase : phase }.
Definition moved (c : client) (p : phase) : client := {| asks := asks c; payload := payload c; at_phase := p |}.
Inductive step : service * list client → service * list client → Prop :=
  | get_step s cs i c f r s' : cs !! i = Some c → at_phase c = Wanting → _get_server (_spawn_server f) (asks c) s = (r, s') →
      step (s, cs) (s', <[i := moved c (match r with Ret (Some pid) => Given pid | _ => Done end)]> cs)
  | request_step s cs i c pid r s' : cs !! i = Some c → at_phase c = Given pid → request pid (payload c) s = (r, s') →
      step (s, cs) (s', <[i := moved c (match r with Ret _ => Done | Raise _ => Failed end)]> cs)
  | drop_step s cs i c r s' : cs !! i = Some c → at_phase c = Failed → _drop (asks c) s = (r, s') →
      step (s, cs) (s', <[i := moved c Done]> cs)
  | arrive_step s cs c : at_phase c = Wanting → step (s, cs) (s, cs ++ [c])
  | exit_step s cs pid : step (s, cs) (Service (_servers s) (objects s) (spawned s) ({[pid]} ∪ exited s) (closed s) (clock s), cs)
  | tick_step s cs q : step (s, cs) (Service (_servers s) (objects s) (spawned s) (exited s) (closed s) (clock s + q), cs)
  | reset_step s cs r s' : reset s = (r, s') → step (s, cs) (s', cs).
Definition start : service := Service [] ∅ 0 ∅ ∅ 0.
End tsintel.

(** ** No process is lost *)
Abbreviation pids s := (map snd (_servers s)).
(** Every process that was started is registered for one tree, or in the hands of
    the section that runs ([loose]), or was closed. *)
Definition accounted (loose : list nat) (s : service) : Prop :=
  NoDup (map fst (_servers s)) ∧ NoDup (pids s ++ loose) ∧ (∀ p, p ∈ pids s ++ loose → p ∉ closed s)
  ∧ (∀ p, p < spawned s ↔ p ∈ pids s ++ loose ∨ p ∈ closed s).

Lemma dget_in k (d : list (pystr * nat)) p : dget k d = Some p → (k, p) ∈ d.
Proof.
  induction d as [|[k' v] d IH]; cbn [dget]; [done|]. case_bool_decide as E; [intros [= ->]; subst; left|]. intros Hd. right. by apply IH.
Qed.
Lemma ddel_split k p (d : list (pystr * nat)) : NoDup (map fst d) → (k, p) ∈ d →
  ∃ d1 d2, d = d1 ++ (k, p) :: d2 ∧ ddel k d = d1 ++ d2.
Proof.
  intros Hnd Hin. apply list_elem_of_split in Hin as (d1 & d2 & ->). exists d1, d2. split; [done|].
  rewrite map_app in Hnd. apply NoDup_app in Hnd as (_ & Hd & Hnd). cbn [map fst] in Hnd. apply NoDup_cons in Hnd as [Hk _].
  assert (∀ l : list (pystr * nat), k ∉ map fst l → List.filter (λ kv, k <>? kv.1) l = l) as Hkeep.
  { intros l Hl. induction l as [|[k' v] l IH]; [done|]. cbn [List.filter fst]. cbn [map fst] in Hl. apply not_elem_of_cons in Hl as [H1 H2].
    rewrite bool_decide_eq_false_2 by done. cbn [negb]. by rewrite IH. }
  unfold ddel. rewrite List.filter_app. cbn [List.filter fst]. rewrite bool_decide_eq_true_2 by done. cbn [negb].
  rewrite (Hkeep d2) by done. rewrite Hkeep; [done|]. intros Hk1. apply (Hd k Hk1). left.
Qed.
Lemma dget_gone k (d : list (pystr * nat)) : dget k (ddel k d) = None.
Proof.
  unfold ddel. induction d as [|[k' v] d IH]; [done|]. cbn [List.filter fst]. case_bool_decide as E; cbn [negb]; [done|].
  cbn [dget]. by rewrite bool_decide_eq_false_2.
Qed.
Lemma retire_run key pid s : retire key pid s =
  (Ret tt, Service (ddel key (_servers s)) (objects s) (spawned s) (exited s) ({[pid]} ∪ closed s) (clock s)).
Proof. done. Qed.
Lemma retire_accounted loose key pid s : accounted loose s → (key, pid) ∈ _servers s → accounted loose (retire key pid s).2.
Proof.
  intros (Hk & Hp & Hc & Ha) Hin. rewrite retire_run. destruct (ddel_split _ _ _ Hk Hin) as (d1 & d2 & Es & Ed).
  unfold accounted. cbn [snd _servers closed spawned]. rewrite Ed. rewrite Es in Hk, Hp, Hc, Ha. rewrite !map_app in *. cbn [map fst snd] in *.
  split_and!.
  - apply NoDup_app in Hk as (H1 & H2 & [_ H3]%NoDup_cons). apply NoDup_app. split_and!; [done| |done].
    intros x Hx Hx2. apply (H2 x Hx). by right.
  - rewrite <- !app_assoc in *. apply NoDup_app in Hp as (H1 & H2 & [_ H3]%NoDup_cons). apply NoDup_app. split_and!; [done| |done].
    intros x Hx Hx2. apply (H2 x Hx). by right.
  - intros p Hq. rewrite not_elem_of_union, not_elem_of_singleton. split.
    + intros ->. rewrite <- !app_assoc in *. apply NoDup_app in Hp as (_ & H2 & [H3 _]%NoDup_cons).
      apply elem_of_app in Hq as [Hq|Hq]; [apply (H2 pid Hq); left|done].
    + apply Hc. rewrite !elem_of_app, ?elem_of_cons in *. naive_solver.
  - intros p. rewrite Ha. rewrite elem_of_union, elem_of_singleton, !elem_of_app, elem_of_cons. naive_solver.
Qed.
Lemma terminate_accounted pid s : accounted [pid] s → accounted [] (_terminate pid s).2.
Proof.
  intros (Hk & Hp & Hc & Ha). unfold accounted, _terminate, modify. cbn [snd _servers closed spawned]. rewrite app_nil_r.
  apply NoDup_app in Hp as (H1 & H2 & _). split_and!; [done..| |].
  - intros p Hq. rewrite not_elem_of_union, not_elem_of_singleton. split; [intros ->; apply (H2 pid Hq); left|].
    apply Hc, elem_of_app. by left.
  - intros p. rewrite Ha, elem_of_union, elem_of_singleton, elem_of_app, list_elem_of_singleton. naive_solver.
Qed.
(** The loop of the reaper: what is left to look at is still registered. *)
Lemma reap_accounted exclude items s : accounted [] s → NoDup (map fst items) → (∀ kp, kp ∈ items → kp ∈ _servers s) →
  accounted [] (for_each items (λ kp : pystr * nat, old ← gets (stale kp.2); when ((kp.1 <>? exclude) && old) (retire kp.1 kp.2)) s).2
  ∧ (for_each items (λ kp : pystr * nat, old ← gets (stale kp.2); when ((kp.1 <>? exclude) && old) (retire kp.1 kp.2)) s).1 = Ret tt.
Proof.
  revert s. induction items as [|[k p] items IH]; intros s Hs Hnd Hin; [done|].
  cbn [map fst] in Hnd. apply NoDup_cons in Hnd as [Hk Hnd]. cbn [for_each fst snd].
  unfold mbind, M_bind, gets, when at 1. destruct ((k <>? exclude) && stale p s); cbn [mret M_ret].
  - rewrite retire_run. apply IH; [|done|].
    + pose proof (retire_accounted [] k p s Hs (Hin _ ltac:(left))) as Hr. by rewrite retire_run in Hr.
    + intros kp Hkp. cbn [_servers]. unfold ddel. apply list_elem_of_In, filter_In. split; [apply list_elem_of_In, Hin; by right|].
      apply negb_true_iff, bool_decide_eq_false. intros ->. apply Hk, list_elem_of_fmap. by exists kp.
  - apply IH; [done..|]. intros kp Hkp. apply Hin. by right.
Qed.
Lemma registered_accounted key pid s : accounted [pid] s → dget key (_servers s) = None → accounted [] (with_servers (dset key pid) s).2.
Proof.
  intros (Hk & Hp & Hc & Ha) Hn. assert (dset key pid (_servers s) = _servers s ++ [(key, pid)]) as Ed.
  { clear -Hn. induction (_servers s) as [|[k' v] d IH]; [done|]. cbn [dget dset app] in *. case_bool_decide; [done|]. by rewrite IH. }
  assert (key ∉ map fst (_servers s)) as Hkey.
  { clear -Hn. induction (_servers s) as [|[k' v] d IH]; [by intros ?%elem_of_nil|]. cbn [dget map fst] in *. case_bool_decide; [done|].
    apply not_elem_of_cons. split; [done|by apply IH]. }
  unfold accounted, with_servers, modify. cbn [snd _servers closed spawned]. rewrite Ed, !map_app, app_nil_r. cbn [map fst snd].
  split_and!; [|done..]. apply NoDup_app. split_and!; [done| |apply NoDup_singleton].
  intros x Hx ->%list_elem_of_singleton. done.
Qed.

Lemma drop_accounted tree s r s' : accounted [] s → _drop tree s = (r, s') → accounted [] s'.
Proof.
  intros Hs. unfold _drop. unfold mbind, M_bind, gets. destruct (dget _ (_servers s)) as [pid|] eqn:Ed; [|by intros [= <- <-]].
  intros E. pose proof (retire_accounted [] (key_of tree) pid s Hs (dget_in _ _ _ Ed)) as H2. by rewrite E in H2.
Qed.
Lemma terminate_all (items : list (pystr * nat)) s : for_each items (λ kp, _terminate kp.2) s =
  (Ret tt, Service (_servers s) (objects s) (spawned s) (exited s) (list_to_set (map snd items) ∪ closed s) (clock s)).
Proof.
  revert s. induction items as [|[k p] items IH]; intros s; cbn [for_each map snd list_to_set].
  - destruct s. cbn. by rewrite (left_id_L ∅ (∪)).
  - unfold mbind, M_bind. cbn [_terminate modify]. rewrite IH. cbn [_servers objects spawned exited closed clock].
    rewrite (assoc_L (∪)), (comm_L (∪) (list_to_set _) {[p]}). done.
Qed.
Lemma reset_accounted s r s' : accounted [] s → reset s = (r, s') → accounted [] s' ∧ _servers s' = [] ∧ ∀ p, p < spawned s' → p ∈ closed s'.
Proof.
  intros (Hk & Hp & Hc & Ha). unfold reset. unfold mbind, M_bind, gets. rewrite terminate_all. intros [= <- <-].
  rewrite app_nil_r in *.
  assert (∀ p, p < spawned s ↔ p ∈ list_to_set (map snd (_servers s)) ∪ closed s) as Hall.
  { intros p. by rewrite Ha, elem_of_union, elem_of_list_to_set. }
  split; [|split; [done|by intros p Hlt%Hall]]. unfold accounted. cbn. split_and!; [constructor..| |].
  - by intros p ?%elem_of_nil.
  - intros p. rewrite Hall, elem_of_nil. tauto.
Qed.

Section facts.
Context (cwd : loc) (_HELPER : pystr) `{PyRepr}.
Context (first_line : nat → list pystr → option (option pystr)) (answer : nat → list pystr → option pystr).

(** The registry is as it was, and what was started is closed or handed over. *)
Lemma spawn_accounted f tree s r s' : accounted [] s → _spawn_server cwd _HELPER first_line f tree s = (r, s') →
  _servers s' = _servers s ∧ accounted (match r with Ret (Some pid) => [pid] | _ => [] end) s'.
Proof using All.
  intros Hs. unfold _spawn_server, lift. unfold mbind at 1, M_bind at 1. destruct (typescript_dir cwd tree f) as [[d|]|e]; [|by intros [= <- <-]..].
  unfold popen. unfold mbind at 1, M_bind at 1. destruct (first_line _ _) as [line|]; [|by intros [= <- <-]].
  assert (∀ o, accounted [spawned s] (Service (_servers s) o (S (spawned s)) (exited s) (closed s) (clock s))) as Hnew.
  { intros o. destruct Hs as (Hk & Hp & Hc & Ha). unfold accounted. cbn [_servers closed spawned]. rewrite app_nil_r in *.
    assert (spawned s ∉ pids s ∧ spawned s ∉ closed s) as [Hf1 Hf2].
    { split; intros Hin; destruct (Ha (spawned s)) as [_ Hl]; [specialize (Hl (or_introl Hin))|specialize (Hl (or_intror Hin))]; lia. }
    split_and!; [done| | |].
    - apply NoDup_app. split_and!; [done| |apply NoDup_singleton]. by intros x Hx ->%list_elem_of_singleton.
    - intros p [Hq| ->%list_elem_of_singleton]%elem_of_app; [by apply Hc|done].
    - intros p. rewrite elem_of_app, list_elem_of_singleton, Nat.lt_succ_r, Nat.le_lteq, Ha. tauto. }
  destruct (server_ready (default [] line)).
  - intros [= <- <-]. split; [done|]. apply Hnew.
  - intros [= <- <-]. split; [done|]. apply (terminate_accounted (spawned s) (Service _ _ _ _ _ _)), Hnew.
Qed.

Lemma reap_run exclude s : accounted [] s → ∃ s', _reap_idle_locked exclude s = (Ret tt, s') ∧ accounted [] s'.
Proof using All.
  intros Hs. unfold _reap_idle_locked. unfold mbind at 1, M_bind at 1, gets at 1.
  destruct (reap_accounted exclude (_servers s) s Hs) as [Ha Er]; [by destruct Hs|done|].
  destruct (for_each _ _ s) as [r s']. cbn [fst snd] in *. subst r. by exists s'.
Qed.
Lemma get_accounted f tree s r s' : accounted [] s → _get_server (_spawn_server cwd _HELPER first_line f) tree s = (r, s') →
  accounted [] s'.
Proof using All.
  intros Hs. unfold _get_server. destruct (reap_run (key_of tree) s Hs) as (s1 & Er & H1).
  unfold mbind at 1, M_bind at 1. rewrite Er. unfold mbind at 1, M_bind at 1, gets at 1. unfold mbind at 1, M_bind at 1, gets at 1.
  assert (∀ s2, accounted [] s2 → dget (key_of tree) (_servers s2) = None →
    (server ← _spawn_server cwd _HELPER first_line f tree;
     match server with Some pid => with_servers (dset (key_of tree) pid);; mret (Some pid) | None => mret None end) s2 = (r, s') →
    accounted [] s') as Hnew.
  { intros s2 H2 Hn. unfold mbind at 1, M_bind at 1. destruct (_spawn_server _ _ _ f tree s2) as [r3 s3] eqn:E3.
    destruct (spawn_accounted _ _ _ _ _ H2 E3) as [Es H3]. destruct r3 as [[pid|]|e]; [|by intros [= <- <-]..].
    intros [= <- <-]. apply (registered_accounted (key_of tree) pid); [done|]. by rewrite Es. }
  destruct (dget (key_of tree) (_servers s1)) as [pid|] eqn:Ed.
  - destruct (alive pid s1); [by intros [= <- <-]|]. unfold mbind at 1, M_bind at 1. rewrite retire_run.
    apply Hnew; [|apply dget_gone]. pose proof (retire_accounted [] (key_of tree) pid s1 H1 (dget_in _ _ _ Ed)) as H2.
    by rewrite retire_run in H2.
  - unfold mbind at 1, M_bind at 1. cbn [mret M_ret]. by apply Hnew.
Qed.
Lemma request_keeps pid payload s r s' : request answer pid payload s = (r, s') →
  _servers s' = _servers s ∧ spawned s' = spawned s ∧ closed s' = closed s.
Proof using All.
  unfold request. destruct (objects s !! pid) as [o|]; [|by intros [= <- <-]]. destruct (negb _); [by intros [= <- <-]|].
  case_bool_decide; [by intros [= <- <-]|]. destruct (answer _ _); by intros [= <- <-].
Qed.

(** C8: no language service is lost: whatever the threads ask for, however the
    processes behave and end, every process that was started is the registered
    server of one tree or has been closed, and a registered one has not. *)
Theorem no_process_lost s cs : rtc (step cwd _HELPER first_line answer) (start, []) (s, cs) →
  NoDup (map fst (_servers s)) ∧ NoDup (map snd (_servers s))
  ∧ ∀ pid, pid < spawned s → (pid ∈ map snd (_servers s) ∧ pid ∉ closed s) ∨ (pid ∉ map snd (_servers s) ∧ pid ∈ closed s).
Proof using All.
  intros Hr. assert (accounted [] s) as (Hk & Hp & Hc & Ha).
  { remember (start, []) as x eqn:Ex. remember (s, cs) as y eqn:Ey.
    assert (accounted [] x.1) as Hx.
    { subst x. split_and!; [constructor..| |]; cbn; [by intros p ?%elem_of_nil|]. intros p. rewrite elem_of_nil. split; [lia|set_solver]. }
    clear Ex. revert Hx. enough (accounted [] x.1 → accounted [] y.1) as Hy by (subst y; done). clear Ey.
    induction Hr as [x|x y z Hs _ IH]; [done|]. intros Hx. apply IH. clear IH.
    destruct Hs; cbn [fst] in *; try done.
    - by eapply get_accounted.
    - match goal with E : request _ _ _ _ = _ |- _ => destruct (request_keeps _ _ _ _ _ E) as (E1 & E2 & E3) end.
      unfold accounted. rewrite E1, E2, E3. done.
    - by eapply drop_accounted.
    - by eapply reset_accounted. }
  rewrite app_nil_r in *. split_and!; [done..|]. intros pid [Hin|Hin]%Ha; [left; by split; [|apply Hc]|right].
  split; [|done]. intros Hr2. by apply (Hc pid).
Qed.

Lemma request_error pid payload s e s' : request answer pid payload s = (Raise e, s') → is_server_error e = true.
Proof using All.
  unfold request. destruct (objects s !! pid) as [o|]; [|by intros [= <- _]]. destruct (negb _); [by intros [= <- _]|].
  case_bool_decide; [by intros [= <- _]|]. destruct (answer _ _) as [line|]; [|by intros [= <- _]].
  destruct (line =? []); [by intros [= <- _]|]. by destruct (loads line) as [[]|]; intros [= <- _].
Qed.
Lemma get_raises f tree s e s' : accounted [] s → _get_server (_spawn_server cwd _HELPER first_line f) tree s = (Raise e, s') →
  typescript_dir cwd tree f = Raise e.
Proof using All.
  intros Hs. unfold _get_server. destruct (reap_run (key_of tree) s Hs) as (s1 & Er & _).
  unfold mbind at 1, M_bind at 1. rewrite Er. unfold mbind at 1, M_bind at 1, gets at 1. unfold mbind at 1, M_bind at 1, gets at 1.
  assert (∀ s2, (server ← _spawn_server cwd _HELPER first_line f tree;
     match server with Some pid => with_servers (dset (key_of tree) pid);; mret (Some pid) | None => mret None end) s2 = (Raise e, s') →
    typescript_dir cwd tree f = Raise e) as Hnew.
  { intros s2. unfold mbind at 1, M_bind at 1. unfold _spawn_server, lift. unfold mbind at 1, M_bind at 1.
    destruct (typescript_dir cwd tree f) as [[d|]|e']; [|done|by intros [= -> _]].
    unfold popen. unfold mbind at 1, M_bind at 1. destruct (first_line _ _) as [line|]; [|done]. by destruct (server_ready _). }
  destruct (dget (key_of tree) (_servers s1)) as [pid|] eqn:Ed.
  - destruct (alive pid s1); [done|]. unfold mbind at 1, M_bind at 1. rewrite retire_run. apply Hnew.
  - unfold mbind at 1, M_bind at 1. cbn [mret M_ret]. apply Hnew.
Qed.

(** A question to a language service has an answer or falls back: the only
    exceptions are those of looking for the prepared typescript; without a server
    there is no answer; with one, an object it replies is read, and a request that
    fails in any way gives no answer and takes the tree's server out of use. *)
Theorem intel_outcomes op read f tree rel_path line column s r s' : accounted [] s →
  intel answer op read (_spawn_server cwd _HELPER first_line f) tree rel_path line column s = (r, s') →
  match _get_server (_spawn_server cwd _HELPER first_line f) tree s with
  | (Raise e, s1) => r = Raise e ∧ s' = s1 ∧ typescript_dir cwd tree f = Raise e
  | (Ret None, s1) => r = Ret None ∧ s' = s1
  | (Ret (Some pid), s1) =>
      match request answer pid (query op rel_path line column) s1 with
      | (Ret d, s2) => r = Ret (read d) ∧ s' = s2
      | (Raise _, s2) => r = Ret None ∧ dget (key_of tree) (_servers s') = None
      end
  end.
Proof using All.
  intros Hs. unfold intel. unfold mbind at 1, M_bind at 1.
  destruct (_get_server _ tree s) as [[[pid|]|e] s1] eqn:Eg; [|by intros [= <- <-]|].
  - unfold mbind at 1, M_bind at 1. unfold asked, try_except. unfold mbind at 1, M_bind at 1.
    destruct (request _ _ _ s1) as [[d|e] s2] eqn:Er; [by intros [= <- <-]|]. rewrite (request_error _ _ _ _ _ Er).
    unfold _drop, mbind, M_bind, gets. destruct (dget (key_of tree) (_servers s2)) as [old|] eqn:Ed; cbn [mret M_ret].
    + rewrite retire_run. intros [= <- <-]. split; [done|]. apply dget_gone.
    + by intros [= <- <-].
  - intros [= <- <-]. split; [done|]. split; [done|]. by eapply get_raises.
Qed.
End facts.

(** ** Concrete services *)
Module TsDemo.
Definition tree : RepoTree := {| t_repo := u "o/r"; t_sha := u "abc"; t_root := path_of "/tree" |}.
Definition disk (status : pystr) : fs :=
  {| nodes := list_to_map [([u "tree"], NDir 0%Q); ([u "tree"; u ".pr-review-prep"], NDir 0%Q); ([u "tree"; u "node_modules"], NDir 0%Q);
       ([u "tree"; u ".pr-review-prep"; u "status.json"], NFile status)]; now := 0%Q |}.
Definition ready : fs := disk (bq "{`state`: `ready`, `typescript_dir`: `node_modules`}").
Instance repr : PyRepr := {| str_repr s := s; float_repr _ := [] |}.
(** Every process starts; the first answers once. *)
Definition starts (_ : nat) (_ : list pystr) : option (option pystr) := Some (Some (bq "{`ready`: true}")).
Definition replies (pid : nat) (lines : list pystr) : option pystr :=
  if (length lines =? 1)%nat then Some (bq "{`contents`: `const x: number`}") else None.
Abbreviation ask := (hover [] (u "helper.mjs") starts replies ready tree (u "a.ts") 1 7).

Lemma one_answer_then_none :
  (ask start).1 = Ret (Some (JObj [(u "contents", JStr (u "const x: number"))])) ∧ (ask (ask start).2).1 = Ret None
  ∧ _servers (ask (ask start).2).2 = [] ∧ closed (ask (ask start).2).2 = {[0]}.
Proof. split_and!; vm_compute; reflexivity. Qed.

Lemma start_accounted : accounted [] start.
Proof.
  split_and!; [constructor..| |]; cbn; [by intros p ?%elem_of_nil|]. intros p. rewrite elem_of_nil. split; [lia|set_solver].
Qed.
Lemma intel_outcomes_witness :
  accounted [] start ∧ (ask start).1 = Ret (Some (JObj [(u "contents", JStr (u "const x: number"))])) ∧ is_Ret (ask start).1 = true.
Proof.
  split; [exact start_accounted|]. split; [vm_compute; reflexivity|].
  destruct (ask start) as [r s'] eqn:E. pose proof (intel_outcomes [] (u "helper.mjs") starts replies (u "hover") hover_answer ready tree (u "a.ts") 1 7 start r s'
    start_accounted E) as Ho. vm_compute in Ho. destruct Ho as [-> _]. reflexivity.
Defined.

(** Three threads at one tree.  The process of the first two ends; the request of
    the first fails and it drops the server; the third starts a new one; the
    request of the second fails, and it drops the server of the third. *)
Definition wants : client := {| asks := tree; payload := query (u "hover") (u "a.ts") 1 7; at_phase := Wanting |}.
Abbreviation steps := (rtc (step [] (u "helper.mjs") starts replies)).
Lemma drop_closes_replacement : ∃ s cs, steps (start, []) (s, cs)
  ∧ at_phase <$> cs !! 2 = Some (Given 1) ∧ 1 ∈ closed s ∧ 1 ∉ exited s ∧ _servers s = [].
Proof.
  eexists _, _. split.
  - eapply rtc_l; [apply (arrive_step _ _ _ _ _ _ wants); done|]. eapply rtc_l; [apply (arrive_step _ _ _ _ _ _ wants); done|].
    eapply rtc_l; [apply (arrive_step _ _ _ _ _ _ wants); done|].
    eapply rtc_l; [eapply (get_step _ _ _ _ _ _ 0 wants ready); vm_compute; reflexivity|].
    eapply rtc_l; [eapply (get_step _ _ _ _ _ _ 1 wants ready); vm_compute; reflexivity|].
    eapply rtc_l; [apply (exit_step _ _ _ _ _ _ 0)|].
    eapply rtc_l; [eapply (request_step _ _ _ _ _ _ 0 (moved wants (Given 0)) 0); vm_compute; reflexivity|].
    eapply rtc_l; [eapply (drop_step _ _ _ _ _ _ 0 (moved wants Failed)); vm_compute; reflexivity|].
    eapply rtc_l; [eapply (get_step _ _ _ _ _ _ 2 wants ready); vm_compute; reflexivity|].
    eapply rtc_l; [eapply (request_step _ _ _ _ _ _ 1 (moved wants (Given 0)) 0); vm_compute; reflexivity|].
    eapply rtc_l; [eapply (drop_step _ _ _ _ _ _ 1 (moved wants Failed)); vm_compute; reflexivity|]. apply rtc_refl.
  - split_and!; [vm_compute; reflexivity| | |vm_compute; reflexivity].
    + vm_compute. reflexivity.
    + intros Hin. vm_compute in Hin. discriminate.
Qed.
(** A status that is no object *)
Lemma odd_status_raises : ∃ e, (hover [] (u "helper.mjs") starts replies (disk (u "[]")) tree (u "a.ts") 1 7 start).1 = Raise e.
Proof. eexists. vm_compute. reflexivity. Qed.

Lemma no_process_lost_witness : ∃ s cs, steps (start, []) (s, cs) ∧ spawned s = 1
  ∧ (∀ pid, pid < spawned s → (pid ∈ map snd (_servers s) ∧ pid ∉ closed s) ∨ (pid ∉ map snd (_servers s) ∧ pid ∈ closed s)).
Proof.
  eexists _, _.
  match goal with |- ?A ∧ _ => assert A as Hr end.
  { eapply rtc_l; [apply (arrive_step _ _ _ _ _ _ wants); reflexivity|].
    eapply rtc_l; [eapply (get_step _ _ _ _ _ _ 0 wants ready); vm_compute; reflexivity|]. apply rtc_refl. }
  split; [exact Hr|]. split; [vm_compute; reflexivity|].
  exact (proj2 (proj2 (no_process_lost _ _ _ _ _ _ Hr))).
Defined.
End TsDemo.
