(* ===== verification/PyIntel.v ===== *)
(** * pr_review: Python intelligence

    [libs/pr_review/src/pr_review/pyintel.py]: hover and definition over Jedi, which
    is an argument, with the import path pinned to the source roots of the cached
    tree and, for a prepared tree, the environment of its virtual environment.  The
    two caches are the state; each section under a lock reads or writes one entry. *)

From Stdlib Require Import NArith ZArith QArith Lia.
From S2P Require Import Prelude PyStr PyJson PyMonad PyBytes PyPath PyFs GithubTree Prepare.
From stdpp Require Import options.
#[global] Open Scope nat_scope.
#[local] Open Scope py_scope.

Definition _PROJECT_MARKERS : list pystr := [u "pyproject.toml"; u "setup.py"; u "setup.cfg"].
Definition _SKIP_DIRS : list pystr := [u "node_modules"; u ".pr-review-prep"; u ".git"; u ".venv"].

(** What Jedi tells of a name. *)
Record Name := {
  signatures : list pystr; description : pystr; full_name : option pystr; name_of : pystr; docstring : pystr;
  module_path : option pystr; line_of : option Z; column_of : option Z; type_of : pystr }.
(** [jedi.Project] and [jedi.Script]: with [added_sys_path] and an environment, or
    with [sys_path] alone and [smart_sys_path] off. *)
Inductive Project (environment : Type) := Rich (root : pystr) (added_sys_path : list pystr) (env : environment)
                                        | Basic (root : pystr) (sys_path : list pystr).
Arguments Rich {environment}. Arguments Basic {environment}.
Record Script (environment : Type) := { code : pystr; script_path : pystr; project : Project environment }.
Arguments code {environment}. Arguments script_path {environment}. Arguments project {environment}.

Section pyintel.
Context (cwd : loc) `{DirOrder} {environment : Type}.
(** [jedi.create_environment]: [None] when it rejects the interpreter. *)
Context (create_environment : pystr → option environment).
Context (help goto : Script environment → Z → Z → outcome (list Name)).

Record caches := { _roots_cache : gmap pystr (list pystr); _env_cache : gmap pystr environment }.
Abbreviation J := (M caches).

Definition _prepared_environment (f : fs) (tree : RepoTree) : J (option environment) :=
  env_python ← lift (prepared_python_env cwd tree f);
  match env_python with
  | None => mret None
  | Some python =>
      cached ← gets (λ c, _env_cache c !! python);
      match cached with
      | Some env => mret (Some env)
      | None =>
          match create_environment python with
          | None => mret None
          | Some env =>
              modify (λ c, {| _roots_cache := _roots_cache c; _env_cache := <[python := env]> (_env_cache c) |});;
              mret (Some env)
          end
      end
  end.

Definition resolve (p : path) (f : fs) : outcome path :=
  match realpath cwd f p with Some l => Ret (Path (u "/") l) | None => Raise symlink_loop end.
Definition skipped (c : pystr) : bool := c ∈? _SKIP_DIRS.
(** A marker among the [filenames] of a visited directory *)
Definition is_project (d : path) (f : fs) : bool :=
  existsb (λ marker, match lstat cwd f (under d [marker]) with Some _ => negb (is_dir cwd (under d [marker]) f) | None => false end)
    _PROJECT_MARKERS.
Definition project_dirs (d : path) (f : fs) : list path :=
  if is_project d f then d :: (let src := under d [u "src"] in if is_dir cwd src f then [src] else []) else [].
Definition found_roots (root : path) (f : fs) : list path :=
  root :: match top_of cwd root f with
          | Some top => flat_map (λ rel, project_dirs (under root rel) f) (walk skipped f top)
          | None => []
          end.
(** [sorted] of a set *)
Definition sorted_set (l : list pystr) : list pystr := sort_by str_leb (elements (list_to_set l : gset pystr)).
Definition _source_roots (f : fs) (tree : RepoTree) : J (list pystr) :=
  root ← lift (resolve (t_root tree) f);
  let key := path_str root in
  cached ← gets (λ c, _roots_cache c !! key);
  match cached with
  | Some roots => mret roots
  | None =>
      let result := sorted_set (map path_str (found_roots root f)) in
      modify (λ c, {| _roots_cache := <[key := result]> (_roots_cache c); _env_cache := _env_cache c |});;
      mret result
  end.

Definition file_there (p : path) (f : fs) : bool := match stat cwd f p with Some (_, NFile _) => true | _ => false end.
Definition _script (f : fs) (tree : RepoTree) (rel_path : pystr) : J (option (Script environment)) :=
  abs_path ← lift (resolve (child (t_root tree) rel_path) f);
  root ← lift (resolve (t_root tree) f);
  if negb (startswith (path_str root) (path_str abs_path)) || negb (file_there abs_path f) then mret None
  else
    data ← lift (read_file cwd abs_path f);
    let code := universal_newlines (decode_replace data) in
    roots ← _source_roots f tree;
    env ← _prepared_environment f tree;
    let root := path_str (t_root tree) in
    mret (Some {| code := code; script_path := path_str abs_path;
                  project := match env with Some env => Rich root roots env | None => Basic root roots end |}).

(** Jedi columns start at 0; its [ValueError], [IndexError] and [RecursionError]
    are no answer. *)
Definition no_answer (e : exn) : bool :=
  match e with ValueError _ => true | OtherError n _ => (n =? u "IndexError") || (n =? u "RecursionError") | _ => false end.
Definition queried (ask : Script environment → Z → Z → outcome (list Name)) (s : Script environment) (line column : Z)
    : outcome (option (list Name)) :=
  match ask s line (Z.max 0 (column - 1)) with
  | Ret l => Ret (Some l)
  | Raise e => if no_answer e then Ret None else Raise e
  end.
Definition fenced (s : pystr) : pystr := bq "```python" ++ [nl] ++ s ++ [nl] ++ bq "```".
Definition hover_parts (n : Name) : list pystr :=
  match signatures n with
  | s :: _ => [fenced s]
  | [] => match description n with [] => [] | d => [fenced d] end
  end
  ++ match full_name n with
     | Some ((_ :: _) as full) => if full =? name_of n then [] else [bq "`" ++ full ++ bq "`"]
     | _ => []
     end
  ++ match docstring n with [] => [] | d => [strip d] end.
Definition hover_text (n : Name) : pystr := strip (join [nl; nl] (List.filter (λ p, p <>? []) (hover_parts n))).
Definition hover (f : fs) (tree : RepoTree) (rel_path : pystr) (line column : Z) : J (option pystr) :=
  script ← _script f tree rel_path;
  match script with
  | None => mret None
  | Some script =>
      names ← lift (queried help script line column);
      match names with
      | Some (n :: _) => mret (if hover_text n =? [] then None else Some (hover_text n))
      | _ => mret None
      end
  end.

Record Found := { in_repo : bool; found_path : pystr; found_line : Z; found_column : Z; found_name : pystr; found_type : pystr }.
Definition or_else (dflt : Z) (v : option Z) : Z := match v with Some 0%Z | None => dflt | Some z => z end.
Definition relative_to (target root : path) : outcome pystr :=
  if is_relative_to target root then Ret (path_str (Path [] (drop (length (parts root)) (parts target))))
  else Raise (ValueError (u "is not in the subpath of")).
Fixpoint first_definition (f : fs) (tree : RepoTree) (defs : list Name) : outcome (option Found) :=
  match defs with
  | [] => Ret None
  | found :: defs' =>
      match module_path found with
      | None | Some [] => first_definition f tree defs'
      | Some m =>
          target ← resolve (path_of m) f;
          root ← resolve (t_root tree) f;
          let in_repo := startswith (path_str root) (path_str target) in
          p ← (if in_repo then relative_to target root else Ret (path_str target));
          Ret (Some {| in_repo := in_repo; found_path := p; found_line := or_else 1 (line_of found);
                       found_column := or_else 0 (column_of found) + 1; found_name := name_of found; found_type := type_of found |})
      end
  end.
Definition definition (f : fs) (tree : RepoTree) (rel_path : pystr) (line column : Z) : J (option Found) :=
  script ← _script f tree rel_path;
  match script with
  | None => mret None
  | Some script =>
      defs ← lift (queried goto script line column);
      match defs with Some defs => lift (first_definition f tree defs) | None => mret None end
  end.
End pyintel.

(** ** The import path *)
Section roots.
Context (cwd : loc) `{DirOrderLaws} {environment : Type}.

Lemma elem_sorted_set x l : x ∈ sorted_set l ↔ x ∈ l.
Proof. unfold sorted_set. rewrite sort_by_elem, elem_of_elements, elem_of_list_to_set. done. Qed.
Lemma NoDup_sorted_set l : NoDup (sorted_set l).
Proof. unfold sorted_set. rewrite sort_by_perm. apply NoDup_elements. Qed.

(** A directory of the import path: a project's, or the [src] in it. *)
Definition root_of_project (f : fs) (root : path) (top : loc) (x : path) : Prop :=
  ∃ rel, walkable skipped f top rel ∧ is_project cwd (under root rel) f = true
  ∧ (x = under root rel ∨ is_dir cwd (under (under root rel) [u "src"]) f = true ∧ x = under (under root rel) [u "src"]).

(** The import path of a tree is the tree's root, every project below it that
    is reached without links and skipped directories, and the projects' [src]
    directories, each once and in order; it is computed once and given from then
    on. *)
Theorem source_roots_spec f tree root top (c : caches (environment := environment)) :
  resolve cwd (t_root tree) f = Ret root → top_of cwd root f = Some top → _roots_cache c !! path_str root = None →
  ∃ roots c', _source_roots cwd f tree c = (Ret roots, c')
  ∧ (∀ s, s ∈ roots ↔ s = path_str root ∨ ∃ x, root_of_project f root top x ∧ s = path_str x)
  ∧ NoDup roots ∧ sorted_by str_leb roots ∧ _source_roots cwd f tree c' = (Ret roots, c').
Proof using Type*.
  intros Hr Ht Hc. unfold _source_roots, lift. unfold mbind, M_bind. rewrite Hr. unfold gets at 1. rewrite Hc. unfold modify. cbn [mret M_ret].
  eexists _, _. split; [done|]. split_and!.
  - intros s. rewrite elem_sorted_set. unfold found_roots. rewrite Ht. cbn [map]. rewrite elem_of_cons. apply or_iff_compat_l.
    rewrite list_elem_of_fmap. split.
    + intros (x & -> & (rel & Hrel & Hx)%list_elem_of_In%in_flat_map). apply list_elem_of_In, elem_walk in Hrel.
      exists x. split; [|done]. exists rel. split; [done|]. unfold project_dirs in Hx.
      destruct (is_project cwd _ f); [|done]. split; [done|]. destruct Hx as [<-|Hx]; [by left|right].
      destruct (is_dir cwd _ f); [|done]. by destruct Hx as [<-|[]].
    + intros (x & (rel & Hw & Hp & Hx) & ->). exists x. split; [done|]. apply list_elem_of_In, in_flat_map. exists rel.
      split; [by apply list_elem_of_In, elem_walk|]. unfold project_dirs. rewrite Hp.
      destruct Hx as [->|[Hd ->]]; [by left|]. rewrite Hd. by right; left.
  - apply NoDup_sorted_set.
  - apply sort_by_sorted; [apply str_leb_total|apply str_leb_trans].
  - unfold gets. cbn [_roots_cache]. by rewrite lookup_insert_eq.
Qed.
End roots.

(** ** Concrete trees *)
Module PyDemo.
Instance listed : DirOrder := {| scandir l := sort_by str_leb l |}.
Instance listed_laws : DirOrderLaws listed.
Proof. intros l. apply sort_by_perm. Qed.
Definition tree : RepoTree := {| t_repo := u "o/r"; t_sha := u "abc"; t_root := path_of "/cache/abc" |}.
Definition file (l : list String.string) (s : String.string) : loc * node := (map u l, NFile (u s)).
Definition dir (l : list String.string) : loc * node := (map u l, NDir 0%Q).
Definition disk : fs :=
  {| nodes := list_to_map [dir ["cache"]; dir ["cache"; "abc"]; dir ["cache"; "abc"; "lib"]; dir ["cache"; "abc"; "lib"; "src"];
       file ["cache"; "abc"; "lib"; "setup.py"] ""; file ["cache"; "abc"; "lib"; "src"; "m.py"] "x = 1";
       dir ["cache"; "abcd"]; file ["cache"; "abcd"; "secret.py"] "key = 1"]; now := 0%Q |}%string.
Definition no_env (_ : pystr) : option unit := None.
Definition empty : caches (environment := unit) := {| _roots_cache := ∅; _env_cache := ∅ |}.
(** Jedi finds everything in the sibling of the tree. *)
Definition named (m : String.string) : Name :=
  {| signatures := []; description := u "key"; full_name := None; name_of := u "key"; docstring := []; module_path := Some (u m);
     line_of := Some 1%Z; column_of := None; type_of := u "statement" |}.
Definition shows_code (s : Script unit) (_ _ : Z) : outcome (list Name) :=
  Ret [{| signatures := [code s]; description := []; full_name := None; name_of := []; docstring := []; module_path := None;
          line_of := None; column_of := None; type_of := [] |}].
Definition goes (m : String.string) (_ : Script unit) (_ _ : Z) : outcome (list Name) := Ret [named m].

Lemma source_roots_spec_witness :
  ∃ roots c', _source_roots [] disk tree empty = (Ret roots, c') ∧ roots = [u "/cache/abc"; u "/cache/abc/lib"; u "/cache/abc/lib/src"]
  ∧ NoDup roots.
Proof.
  destruct (source_roots_spec [] disk tree (path_of "/cache/abc") [u "cache"; u "abc"] empty) as (roots & c' & E & _ & Hnd & _);
    [vm_compute; reflexivity..|].
  exists roots, c'. split; [exact E|]. split; [|exact Hnd]. vm_compute in E. injection E as <- _. vm_compute. reflexivity.
Defined.

(** A file of another tree whose directory begins with this tree's name *)
Lemma sibling_escapes :
  (hover [] no_env shows_code disk tree (u "../abcd/secret.py") 1 1 empty).1 = Ret (Some (fenced (u "key = 1"))).
Proof. vm_compute. reflexivity. Qed.
(** A definition there is taken for one of the tree, and [relative_to] raises. *)
Lemma sibling_definition_raises :
  ∃ m, (definition [] no_env (goes "/cache/abcd/secret.py") disk tree (u "lib/src/m.py") 1 1 empty).1 = Raise (ValueError m).
Proof. eexists. vm_compute. reflexivity. Qed.
Lemma definition_found :
  (definition [] no_env (goes "/cache/abc/lib/src/m.py") disk tree (u "lib/src/m.py") 1 1 empty).1
  = Ret (Some {| in_repo := true; found_path := u "lib/src/m.py"; found_line := 1; found_column := 1; found_name := u "key"; found_type := u "statement" |}).
Proof. vm_compute. reflexivity. Qed.
End PyDemo.
