(* ===== verification/Runner.v ===== *)
(** * pr_review: the web runner

    [libs/pr_review/src/pr_review/runner.py]: the handlers of the review tool, over
    the GitHub client and the trees ([Github], [GithubTree]), the questions ([Ask]),
    the prepared checkouts ([Prepare]) and the three engines of the code
    intelligence.  Routing and [jsonify] are Flask's: an [endpoint] is a matched
    route with its arguments, a response its status and JSON value. *)

From Stdlib Require Import NArith ZArith QArith Lia.
From S2P Require Import Prelude PyStr PyJson PyMonad PyBytes PyPath PyFs Github GithubTree Ask Prepare JsTree JsIntel TsIntel PyIntel.
From stdpp Require Import options.
#[global] Open Scope nat_scope.
#[local] Open Scope py_scope.

Record response := { code : Z; body : json }.
Definition jsonify (v : json) : response := {| code := 200; body := v |}.
Definition _err (message : pystr) (status : Z) : response := {| code := status; body := JObj [(u "error", JStr message)] |}.
(** [payload]: what [get_json(silent=True)] gives; [query] the arguments; the random
    number and the time a handler would ask for. *)
Record request := { payload : json; query : list (pystr * pystr); hex : pystr; timestamp : pystr }.
Definition arg (name dflt : pystr) (r : request) : pystr := default dflt (dget name (query r)).

(** ** Values of any type *)

(** [v.strip()] *)
Definition strip_json (v : json) : outcome pystr := match v with JStr s => Ret (strip s) | _ => Raise AttributeError end.
(** [k in v] *)
Definition has_key (k : pystr) (v : json) : outcome bool :=
  match v with
  | JObj d => Ret (match dget k d with Some _ => true | None => false end)
  | JList l => Ret (existsb (λ x, jeqs x k) l)
  | JStr s => Ret (contains k s)
  | _ => Raise TypeError
  end.
(** [int(v)] *)
Definition int_json (v : json) : outcome Z :=
  match v with
  | JInt z => Ret z
  | JBool b => Ret (if b then 1 else 0)%Z
  | JFloat q => Ret (Z.quot (Qnum q) (Zpos (Qden q)))
  | JNonFinite n => if n =? u "NaN" then Raise (ValueError []) else Raise (OtherError (u "OverflowError") [])
  | JStr s => match int_of_str s with Some z => Ret z | None => Raise (ValueError []) end
  | _ => Raise TypeError
  end.
Definition string_of (v : json) : outcome pystr := match v with JStr s => Ret s | _ => Raise TypeError end.
(** A value that a method of [str] is called on *)
Definition attr_string (v : json) : outcome pystr := match v with JStr s => Ret s | _ => Raise AttributeError end.

Class Views (W : Type) := {
  (** the file system as [Prepare] and the engines see it, and the questions' *)
  disk_of : W → fs; with_disk : fs → W → W;
  asks_of : W → disk; with_asks : disk → W → W }.

Section runner.
Context {W : Type} (curl : list pystr → M W bytes) `{!TreeFs W} `{!Views W}.
Context `{PyRepr} `{JsonRepr} `{UnicodeDB} `{Listing} `{DirOrder} `{TreeSitter} {environment : Type}.
Context (cwd : loc) (DATA_DIR REPO_CACHE : path) (ask_launcher : disk → outcome disk) (prepare_launcher : M fs unit).
Context (create_environment : pystr → option environment) (help goto : Script environment → Z → Z → outcome (list Name)).
Context (_HELPER : pystr) (first_line : nat → list pystr → option (option pystr)) (answer : nat → list pystr → option pystr).

(** The process: the world outside, the language services, the caches. *)
Record reviewer := Reviewer { world : W; language_services : service; python_caches : caches (environment := environment) }.
Abbreviation R := (M reviewer).
Definition on_world {A} (m : M W A) : R A := λ s,
  let '(r, w) := m (world s) in (r, Reviewer w (language_services s) (python_caches s)).
Definition on_disk {A} (m : M fs A) : R A := on_world (λ w, let '(r, f) := m (disk_of w) in (r, with_disk f w)).
Definition on_services {A} (m : fs → M service A) : R A := λ s,
  let '(r, t) := m (disk_of (world s)) (language_services s) in (r, Reviewer (world s) t (python_caches s)).
Definition on_caches {A} (m : fs → M (caches (environment := environment)) A) : R A := λ s,
  let '(r, c) := m (disk_of (world s)) (python_caches s) in (r, Reviewer (world s) (language_services s) c).

(** [except github.GitHubError as exc: return _err(str(exc), status)] *)
Definition github_errors (status : Z) (m : R response) : R response :=
  try_except m (λ e, match e with GitHubError message => Some (mret (_err message status)) | _ => None end).
Definition jsonified (m : R json) : R response := v ← m; mret (jsonify v).
Abbreviation GH m := (on_world (m : M W _)).
Definition as_obj (m : M W dict) : M W json := d ← m; mret (JObj d).
Definition tree_of (full sha : pystr) : R RepoTree := GH (ensure_repo_tree curl REPO_CACHE full sha).

(** The handlers take their except clause as a parameter: [handle] gives them
    [github_errors], and the theorem on it compares their answers with what
    happens inside the [try]. *)
Section handlers.
Context (guarded : Z → R response → R response).

(** ** Pull requests *)
Definition api_prs : R response :=
  guarded 502 (viewer ← GH (get_viewer curl); jsonified (GH (list_prs curl (json_str viewer)))).
Definition api_pr_status (full : pystr) (number : Z) : R response :=
  guarded 502 (jsonified (GH (enrich_status curl full number))).
Definition api_pr (full : pystr) (number : Z) : R response :=
  guarded 502 (
    status ← GH (enrich_status curl full number);
    files ← GH (list_changed_files curl full number);
    head_repo ← lift (sub "head_repo" status ≫= attr_string);
    head_sha ← lift (sub "head_sha" status ≫= string_of);
    tree ← tree_of head_repo head_sha;
    on_disk (auto_enable cwd DATA_DIR tree);;
    mret (jsonify (JObj [(u "pr", status); (u "files", JList files)]))).
Definition api_conversation (full : pystr) (number : Z) : R response :=
  guarded 502 (jsonified (GH (get_conversation curl full number))).
Definition body_or_empty (r : request) : json := or_empty (payload r).
Definition api_add_comment (full : pystr) (number : Z) (r : request) : R response :=
  body ← lift (v ← get_default "body" (JStr []) (body_or_empty r); strip_json v);
  if body =? [] then mret (_err "comment body is required" 400)
  else guarded 502 (jsonified (GH (as_obj (add_issue_comment curl full number (JStr body))))).
(** [{k: payload[k] for k in ("title", "body") if k in payload}] *)
Definition edit_fields (payload : json) : outcome dict :=
  fields ← mapO (λ k, there ← has_key k payload; if there : bool then v ← sub k payload; Ret [(k, v)] else Ret []) [u "title"; u "body"];
  Ret (concat fields).
Definition api_edit_pr (full : pystr) (number : Z) (r : request) : R response :=
  fields ← lift (edit_fields (body_or_empty r));
  if fields =? [] then mret (_err "expected title and/or body" 400)
  else guarded 502 (jsonified (GH (as_obj (update_pr curl full number fields)))).
Definition one_of (v : json) (l : list pystr) : bool := existsb (jeqs v) l.
Definition api_set_state (full : pystr) (number : Z) (r : request) : R response :=
  state ← lift (get_default "state" (JStr []) (body_or_empty r));
  if negb (one_of state [u "open"; u "closed"]) then mret (_err "state must be 'open' or 'closed'" 400)
  else guarded 502 (jsonified (GH (as_obj (set_pr_state curl full number state)))).
Definition api_merge (full : pystr) (number : Z) (r : request) : R response :=
  method ← lift (get_default "method" (JStr (u "merge")) (body_or_empty r));
  if negb (one_of method [u "merge"; u "squash"; u "rebase"]) then mret (_err "method must be 'merge', 'squash', or 'rebase'" 400)
  else guarded 502 (jsonified (GH (as_obj (merge_pr curl full number method)))).
Definition api_resolve_thread (r : request) : R response :=
  thread_id ← lift (get_default "thread_id" (JStr []) (body_or_empty r));
  if negb (truthy thread_id) then mret (_err "thread_id is required" 400)
  else guarded 502 (jsonified (GH (resolve_review_thread curl thread_id))).
Definition api_unresolve_thread (r : request) : R response :=
  thread_id ← lift (get_default "thread_id" (JStr []) (body_or_empty r));
  if negb (truthy thread_id) then mret (_err "thread_id is required" 400)
  else guarded 502 (jsonified (GH (unresolve_review_thread curl thread_id))).
Definition api_set_draft (full : pystr) (number : Z) (r : request) : R response :=
  there ← lift (has_key "draft" (body_or_empty r));
  if negb there then mret (_err "draft (true or false) is required" 400)
  else
    draft ← lift (sub "draft" (body_or_empty r));
    guarded 502 (
      node_id ← GH (get_pr_node_id curl full number);
      jsonified (GH (if truthy draft then convert_pr_to_draft curl node_id else mark_pr_ready curl node_id))).
Definition api_create_review (full : pystr) (number : Z) (r : request) : R response :=
  let payload := body_or_empty r in
  commit_id ← lift (get_default "commit_id" (JStr []) payload);
  body ← lift (v ← get "body" payload; strip_json (jor v (JStr [])));
  event ← lift (get_default "event" (JStr (u "COMMENT")) payload);
  comments ← lift (get_default "comments" (JList []) payload);
  if negb (truthy commit_id) then mret (_err "commit_id is required" 400)
  else if negb (truthy comments) && (body =? []) then mret (_err "a review needs a body or at least one comment" 400)
  else guarded 502 (jsonified (GH (as_obj (create_review curl full number commit_id (JStr body) event comments)))).

(** ** Questions *)
Definition on_asks {A} (m : M disk A) : R A := on_world (λ w, let '(r, d) := m (asks_of w) in (r, with_asks d w)).
Definition api_list_questions (full : pystr) (number : Z) : R response :=
  questions ← on_asks (λ d, (list_questions DATA_DIR full number d, d));
  mret (jsonify (JObj [(u "questions", JList (map JObj questions))])).
Definition create (tree : RepoTree) (full : pystr) (number : Z) (path : pystr) (line : Z) (side question : pystr) (model : json) (r : request)
    : M disk (option dict) := λ d,
  match create_question DATA_DIR ask_launcher tree full number path line side question model (hex r) (timestamp r) d with
  | Ret (record, d') => (Ret record, d')
  | Raise e => (Raise e, d)
  end.
Definition json_of (record : option dict) : json := match record with Some d => JObj d | None => JNull end.
Definition or_text (k dflt : pystr) (payload : json) : outcome json := v ← get k payload; Ret (jor v (JStr dflt)).
Definition side_of (v : json) : pystr := match v with JStr s => s | _ => [] end.
Definition api_ask (full : pystr) (number : Z) (r : request) : R response :=
  let payload := body_or_empty r in
  path ← lift (or_text "path" [] payload ≫= strip_json);
  question ← lift (or_text "question" [] payload ≫= strip_json);
  head_repo ← lift (or_text "head_repo" full payload);
  head_sha ← lift (or_text "head_sha" [] payload);
  side ← lift (or_text "side" "RIGHT" payload);
  model ← lift (get "model" payload);
  line_value ← lift (get_default "line" (JInt 0) payload);
  match int_json line_value with
  | Raise e => match e with
               | TypeError | ValueError _ => mret (_err "line must be an integer" 400)
               | _ => raise e
               end
  | Ret line =>
      if (path =? []) || (question =? []) then mret (_err "path and question are required" 400)
      else if negb (truthy head_sha) then mret (_err "head_sha is required" 400)
      else if negb (one_of side [u "LEFT"; u "RIGHT"]) then mret (_err "side must be 'LEFT' or 'RIGHT'" 400)
      else guarded 502 (
        repo ← lift (attr_string head_repo);
        sha ← lift (string_of head_sha);
        tree ← tree_of repo sha;
        record ← on_asks (create tree full number path line (side_of side) question model r);
        mret (jsonify (json_of record)))
  end.
Definition api_question_status (full : pystr) (number : Z) (qid : pystr) : R response :=
  result ← on_asks (λ d, (Ret (question_status DATA_DIR full number qid d), d));
  mret (match result with Some record => jsonify (JObj record) | None => _err "question not found" 404 end).
Definition api_delete_question (full : pystr) (number : Z) (qid : pystr) : R response :=
  reply ← on_asks (λ d, let '(reply, d') := delete_question DATA_DIR full number qid d in (Ret reply, d'));
  mret (jsonify (JObj reply)).

(** ** Files *)
Definition or_empty_text (t : option pystr) : pystr := default [] t.
Definition api_pr_file (full : pystr) (r : request) : R response :=
  let path := arg "path" [] r in
  let head_repo := arg "head_repo" full r in
  let head_sha := arg "head_sha" [] r in
  let base_sha := arg "base_sha" [] r in
  let status := arg "status" "modified" r in
  let previous := match arg "previous_path" [] r with [] => path | p => p end in
  if (path =? []) || (head_sha =? []) then mret (_err "path and head_sha are required" 400)
  else guarded 502 (
    tree ← tree_of head_repo head_sha;
    head_content ← (if status =? u "removed" then mret [] else t ← GH (read_tree_file tree path); mret (or_empty_text t));
    base_content ← (if (status <>? u "added") && (base_sha <>? []) then t ← GH (get_file_at_ref curl full previous base_sha); mret (or_empty_text t)
                    else mret []);
    mret (jsonify (JObj [(u "path", JStr path); (u "base", JStr base_content); (u "head", JStr head_content);
      (u "binary", JBool ((head_content =? []) && (status ∉? [u "removed"; u "added"])))]))).
Definition api_repo_tree (full sha : pystr) : R response :=
  guarded 502 (
    tree ← tree_of full sha;
    files ← on_world (gets (list_tree_files tree));
    mret (jsonify (JObj [(u "files", JList (map JStr files))]))).
Definition usage_json (us : usage) : json :=
  JObj [(u "path", JStr (us_path us)); (u "line", JInt (us_line us)); (u "col", us_col us); (u "text", JStr (us_text us));
        (u "is_def", JBool (us_is_def us))].
Definition usages_json (r : usages) : json :=
  JObj [(u "symbol", JStr (u_symbol r)); (u "total", JInt (Z.of_nat (u_total r))); (u "definitions", JInt (Z.of_nat (u_definitions r)));
        (u "truncated", JBool (u_truncated r)); (u "results", JList (map usage_json (u_results r)))].
Definition api_repo_usages (full sha : pystr) (r : request) : R response :=
  let name := arg "name" [] r in
  if name =? [] then mret (_err "name is required" 400)
  else guarded 400 (
    tree ← tree_of full sha;
    found ← GH (find_usages tree name 400);
    mret (jsonify (usages_json found))).
Definition api_repo_file (full sha : pystr) (r : request) : R response :=
  let path := arg "path" [] r in
  if path =? [] then mret (_err "path is required" 400)
  else guarded 502 (
    tree ← tree_of full sha;
    content ← GH (read_tree_file tree path);
    mret (match content with
          | None => _err "file not found or binary" 404
          | Some content => jsonify (JObj [(u "path", JStr path); (u "content", JStr content)])
          end)).

(** ** Code intelligence *)
Definition contents (text : pystr) : json := JObj [(u "contents", JStr text)].
Definition js_found (d : JsIntel.Found) : json :=
  JObj [(u "in_repo", JBool (f_in_repo d)); (u "path", JStr (f_path d)); (u "line", JInt (Z.of_nat (f_line d)));
        (u "column", JInt (Z.of_nat (f_column d))); (u "name", JStr (f_name d)); (u "type", JStr (f_type d))].
Definition py_found (d : PyIntel.Found) : json :=
  JObj [(u "in_repo", JBool (PyIntel.in_repo d)); (u "path", JStr (found_path d)); (u "line", JInt (found_line d));
        (u "column", JInt (found_column d)); (u "name", JStr (found_name d)); (u "type", JStr (found_type d))].
Definition not_found : json := JObj [(u "found", JBool false)].
Definition or_json (result : option json) (dflt : json) : json := default dflt result.
(** The position a request asks about; a bad number or no path is refused. *)
Definition at_position (full sha : pystr) (r : request) (k : RepoTree → pystr → Z → Z → R json) : R response :=
  let path := arg "path" [] r in
  match int_of_str (arg "line" "0" r), int_of_str (arg "col" "0" r) with
  | Some line, Some col =>
      if path =? [] then mret (_err "path is required" 400)
      else guarded 502 (tree ← tree_of full sha; jsonified (k tree path line col))
  | _, _ => mret (_err "line and col must be integers" 400)
  end.
Definition api_pyhover (full sha : pystr) (r : request) : R response :=
  at_position full sha r (λ tree path line col,
    result ← on_caches (λ f, PyIntel.hover cwd create_environment help f tree path line col);
    mret (or_json (contents <$> result) (contents []))).
Definition api_pydef (full sha : pystr) (r : request) : R response :=
  at_position full sha r (λ tree path line col,
    result ← on_caches (λ f, PyIntel.definition cwd create_environment goto f tree path line col);
    mret (or_json (py_found <$> result) not_found)).
Definition tree_ready (tree : RepoTree) : R bool :=
  status ← on_disk (auto_enable cwd DATA_DIR tree); state ← lift (get "state" status); mret (jeqs state "ready").
Definition on_files {A} (m : fs → outcome A) : R A := on_world (λ w, (m (disk_of w), w)).
(** The language service of a prepared tree, then the parser. *)
Definition either_engine (rich : fs → M service (option json)) (basic : fs → outcome (option json)) (dflt : json) (tree : RepoTree) : R json :=
  ready ← tree_ready tree;
  result ← (if ready : bool then on_services rich else mret None);
  match result with
  | Some v => mret v
  | None => result ← on_files basic; mret (or_json result dflt)
  end.
Definition mapped {A} (g : A → json) (r : outcome (option A)) : outcome (option json) := v ← r; Ret (option_map g v).
Definition api_jshover (full sha : pystr) (r : request) : R response :=
  at_position full sha r (λ tree path line col,
    either_engine (λ f, TsIntel.hover cwd _HELPER first_line answer f tree path line col)
      (λ f, mapped contents (JsIntel.hover cwd tree path line col f)) (contents []) tree).
Definition api_jsdef (full sha : pystr) (r : request) : R response :=
  at_position full sha r (λ tree path line col,
    either_engine (λ f, TsIntel.definition cwd _HELPER first_line answer f tree path line col)
      (λ f, mapped js_found (JsIntel.definition cwd tree path line col f)) not_found tree).

(** ** Preparing *)
Definition api_prepare (full sha : pystr) (r : request) : R response :=
  let payload := body_or_empty r in
  force ← lift (get "force" payload);
  model ← lift (get "model" payload);
  guarded 502 (tree ← tree_of full sha; jsonified (on_disk (start_prepare cwd DATA_DIR prepare_launcher tree (truthy force) model))).
(** [status["log_tail"] = ...] *)
Definition with_log (status : json) (tail : pystr) : outcome json :=
  match status with JObj d => Ret (JObj (dset "log_tail" (JStr tail) d)) | _ => Raise TypeError end.
Definition api_prepare_status (full sha : pystr) : R response :=
  guarded 502 (
    tree ← tree_of full sha;
    status ← on_disk (auto_enable cwd DATA_DIR tree);
    tail ← on_files (Prepare.log_tail cwd tree 50);
    jsonified (lift (with_log status tail))).
Definition api_prepare_clear (full sha : pystr) : R response :=
  guarded 502 (tree ← tree_of full sha; jsonified (on_disk (clear_prepared cwd tree))).

(** ** The routes with a handler above *)
Inductive endpoint :=
  | Prs
  | PrStatus (full : pystr) (number : Z) | Pr (full : pystr) (number : Z) | Conversation (full : pystr) (number : Z)
  | AddComment (full : pystr) (number : Z) | EditPr (full : pystr) (number : Z) | SetState (full : pystr) (number : Z)
  | Merge (full : pystr) (number : Z) | ResolveThread | UnresolveThread | SetDraft (full : pystr) (number : Z)
  | CreateReview (full : pystr) (number : Z)
  | ListQuestions (full : pystr) (number : Z) | AskAgent (full : pystr) (number : Z)
  | QuestionStatus (full : pystr) (number : Z) (qid : pystr) | DeleteQuestion (full : pystr) (number : Z) (qid : pystr)
  | PrFile (full : pystr) | TreeFiles (full sha : pystr) | Usages (full sha : pystr) | TreeFile (full sha : pystr)
  | PyHover (full sha : pystr) | PyDef (full sha : pystr) | JsHover (full sha : pystr) | JsDef (full sha : pystr)
  | StartPrepare (full sha : pystr) | PrepareStatus (full sha : pystr) | PrepareClear (full sha : pystr).
Definition handle_with (e : endpoint) (r : request) : R response :=
  match e with
  | Prs => api_prs
  | PrStatus full n => api_pr_status full n | Pr full n => api_pr full n | Conversation full n => api_conversation full n
  | AddComment full n => api_add_comment full n r | EditPr full n => api_edit_pr full n r | SetState full n => api_set_state full n r
  | Merge full n => api_merge full n r | ResolveThread => api_resolve_thread r | UnresolveThread => api_unresolve_thread r
  | SetDraft full n => api_set_draft full n r | CreateReview full n => api_create_review full n r
  | ListQuestions full n => api_list_questions full n | AskAgent full n => api_ask full n r
  | QuestionStatus full n qid => api_question_status full n qid | DeleteQuestion full n qid => api_delete_question full n qid
  | PrFile full => api_pr_file full r | TreeFiles full sha => api_repo_tree full sha | Usages full sha => api_repo_usages full sha r
  | TreeFile full sha => api_repo_file full sha r
  | PyHover full sha => api_pyhover full sha r | PyDef full sha => api_pydef full sha r
  | JsHover full sha => api_jshover full sha r | JsDef full sha => api_jsdef full sha r
  | StartPrepare full sha => api_prepare full sha r | PrepareStatus full sha => api_prepare_status full sha
  | PrepareClear full sha => api_prepare_clear full sha
  end.
End handlers.
Definition handle : endpoint → request → R response := handle_with github_errors.

(** ** Every request is answered *)

(** What a handler asked in [s] comes to, with its except clause and without. *)
Definition in_order (status : Z) (s : reviewer) (o unguarded : outcome response * reviewer) : Prop :=
  o = match unguarded with (Raise (GitHubError m), s') => (Ret (_err m status), s') | _ => unguarded end
  ∧ match unguarded with
    | (Ret resp, s') => code resp = 200%Z ∨ code resp = 404%Z ∨ (code resp = 400%Z ∧ s' = s)
    | (Raise _, _) => True
    end.
Definition bare (status : Z) (m : R response) : R response := m.
Definition returns (Q : response → Prop) (m : R response) : Prop := ∀ s resp s', m s = (Ret resp, s') → Q resp.
Definition found (resp : response) : Prop := code resp = 200%Z ∨ code resp = 404%Z.

Lemma returns_bind {A} Q (m : R A) f : (∀ a, returns Q (f a)) → returns Q (m ≫= f).
Proof using Type. intros Hf s resp s'. unfold mbind, M_bind. destruct (m s) as [[a|e] s1]; [apply Hf|done]. Qed.
Lemma returns_ret Q resp : Q resp → returns Q (mret resp).
Proof using Type. by intros HQ s resp' s' [= <- _]. Qed.
Lemma returns_json m : returns found (jsonified m).
Proof using Type. apply returns_bind. intros v. by apply returns_ret; left. Qed.

Lemma guard_in_order status s m : returns found m → in_order status s (github_errors status m s) (bare status m s).
Proof using Type.
  intros Hm. unfold github_errors, bare, try_except. destruct (m s) as [[resp|e] s1] eqn:E.
  - destruct (Hm _ _ _ E) as [Hc|Hc]; unfold in_order; auto.
  - by destruct e.
Qed.
Lemma refused_in_order status s message :
  in_order status s (@mret _ (M_ret reviewer) _ (_err message 400) s) (@mret _ (M_ret reviewer) _ (_err message 400) s).
Proof using Type. split; [done|]. by right; right. Qed.
Lemma lift_in_order {A} status s (o : outcome A) (k k' : A → R response) :
  (∀ m, o ≠ Raise (GitHubError m)) → (∀ a, in_order status s (k a s) (k' a s)) → in_order status s ((lift o ≫= k) s) ((lift o ≫= k') s).
Proof using Type. intros Ho Hk. unfold lift, mbind, M_bind. destruct o as [a|e]; [apply Hk|]. destruct e; first [by split|by destruct (Ho msg)]. Qed.
Lemma if_in_order status s (b : bool) (m n m' n' : R response) : in_order status s (m s) (m' s) → in_order status s (n s) (n' s) →
  in_order status s ((if b then m else n) s) ((if b then m' else n') s).
Proof using Type. by destruct b. Qed.

(** What the checks of a payload raise *)
Lemma get_default_quiet k d v m : get_default k d v ≠ Raise (GitHubError m).
Proof using Type. by destruct v. Qed.
Lemma get_quiet k v m : get k v ≠ Raise (GitHubError m).
Proof using Type. apply get_default_quiet. Qed.
Lemma sub_quiet k v m : sub k v ≠ Raise (GitHubError m).
Proof using Type. destruct v; try done. cbn. unfold getitem. by destruct (dget k d). Qed.
Lemma has_key_quiet k v m : has_key k v ≠ Raise (GitHubError m).
Proof using Type. by destruct v. Qed.
Lemma strip_quiet v m : strip_json v ≠ Raise (GitHubError m).
Proof using Type. by destruct v. Qed.
Lemma bind_quiet {A B} (o : outcome A) (f : A → outcome B) m : o ≠ Raise (GitHubError m) → (∀ a, f a ≠ Raise (GitHubError m)) →
  (o ≫= f) ≠ Raise (GitHubError m).
Proof using Type. intros Ho Hf. destruct o as [a|e]; [apply Hf|]. intros [= ->]. by apply Ho. Qed.
Lemma mapO_quiet {A B} (f : A → outcome B) l m : (∀ a, f a ≠ Raise (GitHubError m)) → mapO f l ≠ Raise (GitHubError m).
Proof using Type. intros Hf. induction l as [|a l IH]; [done|]. cbn [mapO]. by repeat (apply bind_quiet; [done|intros]). Qed.
Lemma questions_quiet full number d m : list_questions DATA_DIR full number d ≠ Raise (GitHubError m).
Proof using Type.
  unfold list_questions. case_bool_decide; [|done]. cbn [negb]. apply bind_quiet.
  - unfold sort_records. by destruct (comparable _).
  - intros l. apply mapO_quiet. intros r. apply bind_quiet; [|done]. unfold getitem. by destruct (dget _ r).
Qed.
Lemma edit_quiet v m : edit_fields v ≠ Raise (GitHubError m).
Proof using Type.
  apply bind_quiet; [|done]. apply mapO_quiet. intros k. apply bind_quiet; [apply has_key_quiet|]. intros [|]; [|done].
  apply bind_quiet; [apply sub_quiet|done].
Qed.
Lemma text_quiet k d v m : or_text k d v ≠ Raise (GitHubError m).
Proof using Type. apply bind_quiet; [apply get_quiet|done]. Qed.
Create HintDb quiet.
#[local] Hint Resolve get_default_quiet get_quiet sub_quiet has_key_quiet strip_quiet bind_quiet edit_quiet text_quiet questions_quiet : quiet.

Ltac returned :=
  repeat first [ apply returns_json | apply returns_bind; intros ? | apply returns_ret; first [ by left | case_match; first [by right | by left] ] ].
Ltac orderly :=
  repeat first
  [ apply refused_in_order
  | apply lift_in_order; [intros; solve [auto with quiet | repeat (apply bind_quiet; intros); auto with quiet]|intros]
  | apply if_in_order
  | apply guard_in_order; returned ].
Lemma position_in_order full sha r k s : in_order 502 s (at_position github_errors full sha r k s) (at_position bare full sha r k s).
Proof using Type.
  unfold at_position. destruct (int_of_str _); [|apply refused_in_order]. destruct (int_of_str _); [|apply refused_in_order]. orderly.
Qed.
Lemma ask_in_order full number r s : in_order 502 s (api_ask github_errors full number r s) (api_ask bare full number r s).
Proof using Type.
  unfold api_ask. do 7 (apply lift_in_order; [intros; solve [auto with quiet | repeat (apply bind_quiet; intros); auto with quiet]|intros]).
  destruct (int_json _) as [line|e] eqn:E; [orderly|].
  assert (∀ m, e ≠ GitHubError m) as He.
  { intros m ->. match type of E with int_json ?v = _ => destruct v end; try done; cbn in E.
    - by destruct (name =? u "NaN").
    - by destruct (int_of_str s0). }
  destruct e; first [apply refused_in_order|split; [|done]; done|by destruct (He msg)].
Qed.

(** C13: every request is answered in order: an error of GitHub inside a handler's
    [try] is never left to the framework but answered with its own text and 502,
    or 400 by the usages of a name, and leaves what was done before it; every
    other exception goes on to the framework as it is, and what the handler
    returned is answered.  That is 200, 404, or 400 for a bad request; then the
    world is as it was, so that nothing was asked of GitHub ([curl] may record what
    it is asked in [W]) and nothing written. *)
Theorem requests_answered e r s :
  let status := match e with Usages _ _ => 400%Z | _ => 502%Z end in
  let unguarded := handle_with (λ _ m, m) e r s in
  handle e r s = match unguarded with (Raise (GitHubError m), s') => (Ret (_err m status), s') | _ => unguarded end
  ∧ match unguarded with
    | (Ret resp, s') => code resp = 200%Z ∨ code resp = 404%Z ∨ (code resp = 400%Z ∧ s' = s)
    | (Raise _, _) => True
    end.
Proof using Type.
  cbv zeta. change (λ _ m, m) with bare. set (status := match e with Usages _ _ => _ | _ => _ end).
  change (in_order status s (handle e r s) (handle_with bare e r s)). unfold status, handle. clear status.
  destruct e; cbn [handle_with]; first [apply position_in_order | apply ask_in_order | idtac];
    unfold api_prs, api_pr_status, api_pr, api_conversation, api_add_comment, api_edit_pr, api_set_state, api_merge, api_repo_usages,
      api_resolve_thread, api_unresolve_thread, api_set_draft, api_create_review, api_pr_file, api_repo_tree, api_repo_file, api_prepare,
      api_prepare_status, api_prepare_clear; orderly.
  - unfold api_list_questions, on_asks, on_world, mbind, M_bind. destruct (list_questions _ _ _ _) as [l|x] eqn:E; [by split; [|left]|].
    destruct x; try done. by apply questions_quiet in E.
  - unfold api_question_status, on_asks, on_world, mbind, M_bind. destruct (question_status _ _ _ _ _); split; [done|by left|done|by right; left].
  - unfold api_delete_question, on_asks, on_world, mbind, M_bind. destruct (delete_question _ _ _ _ _). by split; [|left].
Qed.

(** ** Two engines *)

(** A JavaScript question has an answer whenever an engine has one: that of the
    language service when the tree is prepared and the service answers; else that
    of the parser; when neither has one, the reply that says so.  What the service
    did to its registry stays, whichever engine answers. *)
Theorem engines_fall_back rich basic dflt tree s :
  let run := either_engine rich basic dflt tree s in
  match tree_ready tree s with
  | (Raise e, s1) => run = (Raise e, s1)
  | (Ret ready, s1) =>
      let service := if ready then rich (disk_of (world s1)) (language_services s1) else (Ret None, language_services s1) in
      language_services run.2 = service.2
      ∧ run.1 = match service.1 with
                | Raise e => Raise e
                | Ret (Some v) => Ret v
                | Ret None => v ← basic (disk_of (world s1)); Ret (default dflt v)
                end
  end.
Proof using Type.
  unfold either_engine, mbind, M_bind. destruct (tree_ready tree s) as [[ready|e] s1]; [|done]. destruct ready.
  - unfold on_services. destruct (rich _ _) as [[[v|]|e] t]; cbn [fst snd]; [done| |done].
    unfold on_files, on_world. cbn [world language_services]. by destruct (basic _) as [v|e].
  - unfold on_files, on_world, mret, M_ret. by destruct (basic _) as [v|e].
Qed.

(** A comment that is [null] is no missing comment but an exception, and so is a
    payload that is no object. *)
Lemma null_comment_raises full number r s : payload r = JObj [(u "body", JNull)] →
  handle (AddComment full number) r s = (Raise AttributeError, s).
Proof using Type. intros E. unfold handle. cbn [handle_with]. unfold api_add_comment, body_or_empty. by rewrite E. Qed.
Lemma list_payload_raises full number r s : payload r = JList [JInt 1] → handle (Merge full number) r s = (Raise AttributeError, s).
Proof using Type. intros E. unfold handle. cbn [handle_with]. unfold api_merge, body_or_empty. by rewrite E. Qed.
Lemma infinite_line_raises full number r s : payload r = JObj [(u "line", JNonFinite (u "Infinity"))] →
  ∃ e, handle (AskAgent full number) r s = (Raise e, s) ∧ e = OtherError (u "OverflowError") [].
Proof using Type.
  intros E. unfold handle. cbn [handle_with]. unfold api_ask, body_or_empty. rewrite E. eexists. split; [|reflexivity]. vm_compute. reflexivity.
Qed.
End runner.
