(* ===== verification/BackupConfig.v ===== *)
(** * host_backup: configuration

    [libs/host_backup/src/host_backup/config.py]: the settings records, the
    loading of [backup.toml] and [restic.env], the parser of [KEY=value] files
    and the writer of the default files.  The TOML library and pydantic's
    validation are parameters ([TomlLib]). *)

From Stdlib Require Import NArith ZArith QArith Lia.
From S2P Require Import Prelude PyStr PyJson PyPath PyMonad Host.
From stdpp Require Import options.
#[global] Open Scope nat_scope.
#[local] Open Scope py_scope.

Definition BACKUP_TOML_PATH : path := path_of "runtime/backup.toml".
Definition RESTIC_ENV_PATH : path := path_of "runtime/secrets/restic.env".
Definition PRUNE_TIMESTAMP_PATH : path := path_of "runtime/last-restic-prune".

Inductive SnapshotMethod := BTRFS_LOCAL | OUTER_TRIGGER | DIRECT.

#[export] Instance SnapshotMethod_eq_dec : EqDecision SnapshotMethod.
Proof. solve_decision. Defined.

(** [method.value] *)
Definition method_value (m : SnapshotMethod) : pystr :=
  match m with
  | BTRFS_LOCAL => "BTRFS_LOCAL" | OUTER_TRIGGER => "OUTER_TRIGGER" | DIRECT => "DIRECT"
  end.

Record SnapshotSettings := {
  method : SnapshotMethod;
  btrfs_mount_path : option path;
  host_subvolume_path : option path;
  snapshot_current_path : option path;
  snapshot_read_path : option path;
  trigger_dir : option path;
  outer_helper_timeout_seconds : Q;
  max_local_snapshots : nat }.

(** The defaults of the optional fields. *)
Definition default_snapshot_settings (m : SnapshotMethod) : SnapshotSettings :=
  {| method := m; btrfs_mount_path := None; host_subvolume_path := None;
     snapshot_current_path := None; snapshot_read_path := None; trigger_dir := None;
     outer_helper_timeout_seconds := 120; max_local_snapshots := 5 |}.

Record RetentionSettings := {
  keep_hourly : Z;
  keep_daily : Z;
  keep_weekly : Z;
  keep_monthly : Z;
  prune_interval_hours : Q }.

Definition default_retention : RetentionSettings :=
  {| keep_hourly := 24; keep_daily := 30; keep_weekly := 12; keep_monthly := 24;
     prune_interval_hours := 24 |}.

Definition default_excludes : list pystr :=
  [u "**/.venv"; u "**/node_modules"; u "**/__pycache__"; u "**/.pytest_cache";
   u "**/.ruff_cache"; u "**/target"; u "**/dist"; u "**/build"; u "**/.next"; u "**/.cache"].

Record BackupConfig := {
  backup_interval_seconds : Q;
  minimum_backup_gap_seconds : Q;
  config_poll_interval_seconds : Q;
  snapshot : SnapshotSettings;
  retention : RetentionSettings;
  excludes : list pystr }.

Definition default_config (s : SnapshotSettings) : BackupConfig :=
  {| backup_interval_seconds := 3600; minimum_backup_gap_seconds := 60;
     config_poll_interval_seconds := 15; snapshot := s; retention := default_retention;
     excludes := default_excludes |}.

(** Items of a TOML document under construction. *)
Inductive toml_item := TComment (text : pystr) | TNewline | TEntry (key : pystr) (v : json).

Class TomlLib := {
  (** [tomllib.loads]; [None] is [TOMLDecodeError] *)
  toml_loads : pystr → option dict;
  (** [BackupConfig.model_validate]; [None] is its [ValueError] *)
  model_validate : dict → option BackupConfig;
  (** [tomlkit.parse] and [tomlkit.dumps] *)
  tomlkit_parse : pystr → option (list toml_item);
  tomlkit_dumps : list toml_item → pystr }.

(** ** [parse_restic_env_file] *)

(** Quoted values are unquoted. *)
Definition unquote (value : pystr) : pystr :=
  match value with
  | c :: rest =>
      if (2 <=? length value)%nat && ((c =? 34)%N || (c =? 39)%N)
         && (List.last value 0%N =? c)%N
      then removelast rest else value
  | [] => value
  end.

(** One line: the binding it adds, if any. *)
Definition parse_env_line (raw_line : pystr) : option (pystr * pystr) :=
  let line := strip raw_line in
  if (line =? []) || startswith "#" line then None
  else
    let line := if startswith "export " line then lstrip (drop 7 line) else line in
    match find "=" line with
    | None => None
    | Some i =>
        let key := strip (take i line) in
        let value := strip (drop (S i) line) in
        if key =? [] then None else Some (key, unquote value)
    end.

Definition parse_restic_env_file (content : pystr) : list (pystr * pystr) :=
  fold_left (λ result raw_line,
    match parse_env_line raw_line with
    | Some (key, value) => dset key value result
    | None => result
    end) (splitlines content) [].

Definition _required_keys : list pystr := [u "RESTIC_REPOSITORY"; u "RESTIC_PASSWORD"].

Definition missing_required_restic_keys (env : list (pystr * pystr)) : list pystr :=
  List.filter (λ key, match dget key env with Some v => v =? [] | None => true end) _required_keys.

Section config.
Context `{Host} `{TomlLib}.

Definition load_backup_config (h : host) : outcome BackupConfig :=
  if negb (path_exists BACKUP_TOML_PATH h) then
    Raise (BackupConfigError (u "Backup config not found at " ++ path_str BACKUP_TOML_PATH))
  else match read_text BACKUP_TOML_PATH h ≫= toml_loads with
       | None => Raise (BackupConfigError (u "Failed to read/parse " ++ path_str BACKUP_TOML_PATH))
       | Some raw =>
           match model_validate raw with
           | None => Raise (BackupConfigError (u "Invalid backup config in " ++ path_str BACKUP_TOML_PATH))
           | Some c => Ret c
           end
       end.

Definition load_restic_env (h : host) : outcome (list (pystr * pystr)) :=
  if negb (path_exists RESTIC_ENV_PATH h) then Ret []
  else match read_text RESTIC_ENV_PATH h with
       | None => Raise (BackupConfigError (u "Failed to read " ++ path_str RESTIC_ENV_PATH))
       | Some text => Ret (parse_restic_env_file text)
       end.

Definition get_events_dir (h : host) : option path :=
  match getenv "MNGR_AGENT_STATE_DIR" h with
  | None => None
  | Some s => if s =? [] then None else Some (child (child (path_of s) "events") "backup")
  end.
End config.

(** ** The default files *)

Definition path_entry (key : pystr) (p : option path) : list toml_item :=
  match p with Some p => [TEntry key (JStr (path_str p))] | None => [] end.

Definition _snapshot_to_toml_table (s : SnapshotSettings) : list toml_item :=
  [TEntry "method" (JStr (method_value (method s)))]
  ++ path_entry "btrfs_mount_path" (btrfs_mount_path s)
  ++ path_entry "host_subvolume_path" (host_subvolume_path s)
  ++ path_entry "snapshot_current_path" (snapshot_current_path s)
  ++ path_entry "snapshot_read_path" (snapshot_read_path s)
  ++ path_entry "trigger_dir" (trigger_dir s)
  ++ [TEntry "outer_helper_timeout_seconds" (JFloat (outer_helper_timeout_seconds s))]
  ++ (if method s =? OUTER_TRIGGER
      then [TEntry "max_local_snapshots" (JInt (Z.of_nat (max_local_snapshots s)))] else []).

(** The entries of a table as the dictionary they denote. *)
Definition table_dict (items : list toml_item) : dict :=
  fold_left (λ d it, match it with TEntry k v => dset k v d | _ => d end) items [].

(** [doc[key] = v]: an entry already there is replaced in place. *)
Fixpoint doc_set (key : pystr) (v : json) (doc : list toml_item) : list toml_item :=
  match doc with
  | [] => [TEntry key v]
  | TEntry k w :: doc' => if key =? k then TEntry k v :: doc' else TEntry k w :: doc_set key v doc'
  | it :: doc' => it :: doc_set key v doc'
  end.

(** The lines of the template. *)
Definition _DEFAULT_RESTIC_ENV_TEMPLATE : pystr :=
  concat (map (λ l, u l ++ [nl])
    ["# Restic backup repository + secrets."%string;
     "#"%string;
     "# In the minds app this whole file is written for you when you pick a backup"%string;
     "# provider on the create form; you should not need to edit it by hand."%string;
     "#"%string;
     "# host_backup will not run until both RESTIC_REPOSITORY and RESTIC_PASSWORD"%string;
     "# are set."%string;
     "#"%string;
     "# RESTIC_REPOSITORY is the repository address restic backs up to, e.g."%string;
     "# 's3:https://<account>.r2.cloudflarestorage.com/<bucket>' for Cloudflare R2."%string;
     "#"%string;
     "# RESTIC_PASSWORD is this workspace's repository password."%string;
     "#"%string;
     "# AWS_ACCESS_KEY_ID / AWS_SECRET_ACCESS_KEY are the credentials for an"%string;
     "# S3/R2 backend. Other backends read other env vars -- see"%string;
     "# https://restic.readthedocs.io/en/stable/040_backup.html#environment-variables"%string;
     ""%string;
     "# RESTIC_REPOSITORY="%string;
     "# RESTIC_PASSWORD="%string;
     "# AWS_ACCESS_KEY_ID="%string;
     "# AWS_SECRET_ACCESS_KEY="%string]).

Section writers.
Context `{TomlLib}.

Definition render_default_backup_doc (s : SnapshotSettings) : list toml_item :=
  [TComment "Backup script configuration. Read by libs/host_backup.";
   TComment "Settings in [snapshot] are overwritten by bootstrap on every boot;";
   TComment "all other sections are preserved if you edit them.";
   TNewline;
   TEntry "backup_interval_seconds" (JInt 3600);
   TEntry "minimum_backup_gap_seconds" (JInt 60);
   TEntry "config_poll_interval_seconds" (JInt 15);
   TEntry "snapshot" (JObj (table_dict (_snapshot_to_toml_table s)));
   TComment "Repository + credentials live in runtime/secrets/restic.env (RESTIC_REPOSITORY,";
   TComment "RESTIC_PASSWORD, and any backend creds), not here.";
   TEntry "retention" (JObj [(u "keep_hourly", JInt 24); (u "keep_daily", JInt 30);
     (u "keep_weekly", JInt 12); (u "keep_monthly", JInt 24); (u "prune_interval_hours", JInt 24)]);
   TEntry "excludes" (JList (map JStr default_excludes))].

Definition render_default_backup_toml (s : SnapshotSettings) : pystr :=
  tomlkit_dumps (render_default_backup_doc s).

(** [None] is tomlkit's parse error. *)
Definition merge_snapshot_into_existing_toml (existing_text : pystr) (s : SnapshotSettings)
    : option pystr :=
  doc ← tomlkit_parse existing_text;
  Some (tomlkit_dumps (doc_set "snapshot" (JObj (table_dict (_snapshot_to_toml_table s))) doc)).
End writers.

(** ** Facts *)

Fixpoint doc_get (key : pystr) (doc : list toml_item) : option json :=
  match doc with
  | [] => None
  | TEntry k v :: doc' => if key =? k then Some v else doc_get key doc'
  | _ :: doc' => doc_get key doc'
  end.

Definition doc_comments (doc : list toml_item) : list toml_item :=
  List.filter (λ it, match it with TEntry _ _ => false | _ => true end) doc.

Lemma doc_set_get_eq k v doc : doc_get k (doc_set k v doc) = Some v.
Proof.
  induction doc as [|it doc IH]; simpl; [by rewrite bool_decide_eq_true_2|].
  destruct it as [t| |k' w]; simpl; try done.
  case_bool_decide as E; simpl; [by rewrite bool_decide_eq_true_2 | by rewrite bool_decide_eq_false_2].
Qed.

Lemma doc_set_get_ne k k' v doc : k ≠ k' → doc_get k (doc_set k' v doc) = doc_get k doc.
Proof.
  intros Hne. induction doc as [|it doc IH]; simpl; [by rewrite bool_decide_eq_false_2|].
  destruct it as [t| |k2 w]; simpl; try done.
  case_bool_decide as E; simpl; [|by rewrite IH]. subst. by rewrite bool_decide_eq_false_2.
Qed.

Lemma doc_set_comments k v doc : doc_comments (doc_set k v doc) = doc_comments doc.
Proof.
  induction doc as [|it doc IH]; simpl; [done|]. unfold doc_comments in *.
  destruct it as [t| |k2 w]; simpl; try (by rewrite IH). by case_bool_decide.
Qed.

Lemma merge_preserves `{TomlLib} text s doc :
  tomlkit_parse text = Some doc →
  ∃ doc', merge_snapshot_into_existing_toml text s = Some (tomlkit_dumps doc')
    ∧ doc_get "snapshot" doc' = Some (JObj (table_dict (_snapshot_to_toml_table s)))
    ∧ (∀ k, k ≠ u "snapshot" → doc_get k doc' = doc_get k doc)
    ∧ doc_comments doc' = doc_comments doc.
Proof.
  intros E. unfold merge_snapshot_into_existing_toml. rewrite E. simpl. eexists.
  split; [done|]. split; [apply doc_set_get_eq|]. split; [|apply doc_set_comments].
  intros k Hk. by apply doc_set_get_ne.
Qed.

(** *** The env file *)

Lemma parse_env_go lines acc k :
  dget k (fold_left (λ result raw_line,
    match parse_env_line raw_line with
    | Some (key, value) => dset key value result
    | None => result
    end) lines acc) =
  match List.find (λ kv, k =? kv.1) (reverse (omap parse_env_line lines)) with
  | Some kv => Some kv.2
  | None => dget k acc
  end.
Proof.
  revert acc. induction lines as [|l lines IH]; intros acc; simpl; [done|].
  rewrite IH. destruct (parse_env_line l) as [[key value]|]; [|done].
  rewrite reverse_cons, list_find_app. destruct (List.find _ _) as [kv|]; [done|]. simpl.
  rewrite dget_dset. by case_bool_decide.
Qed.

(** The binding of a key is the one of its last line. *)
Lemma parse_restic_env_last content k :
  dget k (parse_restic_env_file content) =
  snd <$> List.find (λ kv, k =? kv.1) (reverse (omap parse_env_line (splitlines content))).
Proof. unfold parse_restic_env_file. rewrite parse_env_go. by destruct (List.find _ _). Qed.

Lemma missing_keys_nil env :
  missing_required_restic_keys env = [] ↔
  ∀ k, k ∈ _required_keys → ∃ v, dget k env = Some v ∧ v ≠ [].
Proof.
  unfold missing_required_restic_keys. split.
  - intros Hf k Hk. destruct (dget k env) as [v|] eqn:E.
    + exists v. split; [done|]. intros ->.
      assert (k ∈ List.filter (λ key, match dget key env with Some v => v =? [] | None => true end) _required_keys) as Hin; [|rewrite Hf in Hin; by inv Hin].
      apply list_elem_of_In, filter_In. split; [by apply list_elem_of_In|]. by rewrite E.
    + assert (k ∈ List.filter (λ key, match dget key env with Some v => v =? [] | None => true end) _required_keys) as Hin; [|rewrite Hf in Hin; by inv Hin].
      apply list_elem_of_In, filter_In. split; [by apply list_elem_of_In|]. by rewrite E.
  - intros Hall. destruct (List.filter _ _) as [|k l] eqn:E; [done|]. exfalso.
    assert (k ∈ k :: l) as Hin by left. rewrite <- E in Hin.
    apply list_elem_of_In, filter_In in Hin as [Hk Hb]. apply list_elem_of_In in Hk.
    destruct (Hall k Hk) as (v & Hv & Hne). rewrite Hv in Hb. by py_bool.
Qed.

Example parse_env_ex :
  parse_restic_env_file (join [nl] [u "# c"; u "export A = 'x=y' "; u "B="; u "=v"; u "A=2"])
  = [(u "A", u "2"); (u "B", u "")].
Proof. vm_compute. reflexivity. Qed.
