(* ===== verification/BackupEvents.v ===== *)
(** * host_backup: service state and the event log

    [libs/host_backup/src/host_backup/events.py] and the [_LoopState] of
    [runner.py].  The log is the sequence of events appended to
    [events.jsonl]; [event_schema] transcribes the documented payload of every
    event type. *)

From Stdlib Require Import NArith ZArith QArith Lia.
From S2P Require Import Prelude PyStr PyJson PyPath PyMonad Host BackupConfig.
From stdpp Require Import options.
#[global] Open Scope nat_scope.
#[local] Open Scope py_scope.

Inductive BackupEventType :=
  | BACKUP_STARTED | SNAPSHOT_CREATED | SNAPSHOT_FAILED | SNAPSHOT_DELETED
  | RESTIC_BACKUP_SUCCEEDED | RESTIC_BACKUP_FAILED | FORGET_COMPLETED | PRUNE_COMPLETED
  | PRUNE_SKIPPED | CONFIG_RELOADED | REPO_INIT_ATTEMPTED | REPO_INIT_SUCCEEDED
  | TICK_SKIPPED_DUE_TO_MISSING_SECRETS | TICK_ERROR.

#[export] Instance BackupEventType_eq_dec : EqDecision BackupEventType.
Proof. solve_decision. Defined.

Definition all_event_types : list BackupEventType :=
  [BACKUP_STARTED; SNAPSHOT_CREATED; SNAPSHOT_FAILED; SNAPSHOT_DELETED;
   RESTIC_BACKUP_SUCCEEDED; RESTIC_BACKUP_FAILED; FORGET_COMPLETED; PRUNE_COMPLETED;
   PRUNE_SKIPPED; CONFIG_RELOADED; REPO_INIT_ATTEMPTED; REPO_INIT_SUCCEEDED;
   TICK_SKIPPED_DUE_TO_MISSING_SECRETS; TICK_ERROR].

Definition event_value (t : BackupEventType) : pystr :=
  match t with
  | BACKUP_STARTED => "BACKUP_STARTED"
  | SNAPSHOT_CREATED => "SNAPSHOT_CREATED"
  | SNAPSHOT_FAILED => "SNAPSHOT_FAILED"
  | SNAPSHOT_DELETED => "SNAPSHOT_DELETED"
  | RESTIC_BACKUP_SUCCEEDED => "RESTIC_BACKUP_SUCCEEDED"
  | RESTIC_BACKUP_FAILED => "RESTIC_BACKUP_FAILED"
  | FORGET_COMPLETED => "FORGET_COMPLETED"
  | PRUNE_COMPLETED => "PRUNE_COMPLETED"
  | PRUNE_SKIPPED => "PRUNE_SKIPPED"
  | CONFIG_RELOADED => "CONFIG_RELOADED"
  | REPO_INIT_ATTEMPTED => "REPO_INIT_ATTEMPTED"
  | REPO_INIT_SUCCEEDED => "REPO_INIT_SUCCEEDED"
  | TICK_SKIPPED_DUE_TO_MISSING_SECRETS => "TICK_SKIPPED_DUE_TO_MISSING_SECRETS"
  | TICK_ERROR => "TICK_ERROR"
  end.

Definition event_type_of (s : pystr) : option BackupEventType :=
  List.find (λ t, event_value t =? s) all_event_types.

Definition BACKUP_EVENT_SOURCE : pystr := "backup".
Definition envelope_keys : list pystr := [u "timestamp"; u "type"; u "event_id"; u "source"].

(** The payload fields of the typed event classes, in order. *)
Definition event_schema (t : BackupEventType) : list pystr :=
  match t with
  | BACKUP_STARTED => [u "tick_id"; u "trigger_reason"]
  | SNAPSHOT_CREATED => [u "tick_id"; u "method"; u "snapshot_path"; u "duration_seconds";
      u "helper_exit_code"; u "helper_stdout"; u "helper_stderr"]
  | SNAPSHOT_FAILED => [u "tick_id"; u "method"; u "error_message"]
  | SNAPSHOT_DELETED => [u "tick_id"; u "method"; u "snapshot_path"; u "success"; u "error_message"]
  | RESTIC_BACKUP_SUCCEEDED => [u "tick_id"; u "snapshot_id"; u "source_path";
      u "duration_seconds"; u "stdout"; u "stderr"]
  | RESTIC_BACKUP_FAILED => [u "tick_id"; u "source_path"; u "exit_code";
      u "duration_seconds"; u "stdout"; u "stderr"]
  | FORGET_COMPLETED | PRUNE_COMPLETED =>
      [u "tick_id"; u "exit_code"; u "duration_seconds"; u "stdout"; u "stderr"]
  | PRUNE_SKIPPED => [u "tick_id"; u "age_hours"; u "interval_hours"]
  | CONFIG_RELOADED => [u "tick_id"; u "backup_toml_mtime"; u "restic_env_mtime"]
  | REPO_INIT_ATTEMPTED => [u "tick_id"; u "repository_url"]
  | REPO_INIT_SUCCEEDED => [u "tick_id"; u "repository_url"; u "stdout"; u "stderr"]
  | TICK_SKIPPED_DUE_TO_MISSING_SECRETS => [u "tick_id"; u "missing_keys"]
  | TICK_ERROR => [u "tick_id"; u "error_type"; u "error_message"; u "traceback"]
  end.

Section service.
Context `{Host}.

(** [_LoopState] *)
Record LoopState := {
  events_dir : option path;
  last_backup_toml_mtime : option Q;
  last_restic_env_mtime : option Q;
  last_tick_end_monotonic : option Q;
  last_known_config : option BackupConfig;
  current_tick_id : pystr }.

(** What the service reads and writes: its loop state, the operating system
    and the lines appended to the event log. *)
Record svc := { sv_loop : LoopState; sv_host : host; sv_log : list dict }.

Definition set_host (h : host) (s : svc) : svc :=
  {| sv_loop := sv_loop s; sv_host := h; sv_log := sv_log s |}.
Definition set_loop (l : LoopState) (s : svc) : svc :=
  {| sv_loop := l; sv_host := sv_host s; sv_log := sv_log s |}.
Definition append_log (e : dict) (s : svc) : svc :=
  {| sv_loop := sv_loop s; sv_host := sv_host s; sv_log := sv_log s ++ [e] |}.

Abbreviation SM := (M svc).

Definition new_event_id : SM pystr :=
  x ← fresh_uuid sv_host set_host; mret (u "evt-" ++ x).

Definition now_iso (h : host) : pystr := utc_strftime "%Y-%m-%dT%H:%M:%S.%f000Z" h.

Definition dict_update (d fields : dict) : dict :=
  fold_left (λ d kv, dset kv.1 kv.2 d) fields d.

Definition make_event (event_type : BackupEventType) (fields : dict) : SM dict :=
  ts ← observe sv_host now_iso;
  id ← new_event_id;
  mret (dict_update
    [(u "timestamp", JStr ts); (u "type", JStr (event_value event_type));
     (u "event_id", JStr id); (u "source", JStr BACKUP_EVENT_SOURCE)] fields).

(** Appends one line, or drops the event when the directory is unset or not
    writable; it never raises. *)
Definition write_event (dir : option path) (event : dict) : SM unit :=
  match dir with
  | None => mret tt
  | Some dir => λ s,
      let '(ok, h) := mkdir_p dir (sv_host s) in
      if negb ok then (Ret tt, set_host h s)
      else if append_ok (child dir "events.jsonl") h
           then (Ret tt, append_log event (set_host h s))
           else (Ret tt, set_host h s)
  end.

(** [write_event(state.events_dir, make_event(t, tick_id=..., ...))] *)
Definition emit (t : BackupEventType) (fields : dict) : SM unit :=
  l ← gets sv_loop;
  e ← make_event t ((u "tick_id", JStr (current_tick_id l)) :: fields);
  write_event (events_dir l) e.

Definition _safe_mtime (p : path) (h : host) : option Q := stat_mtime p h.

Definition opt_float (q : option Q) : json := match q with Some q => JFloat q | None => JNull end.

(** ** Facts: what emitting leaves *)

Definition event_type (e : dict) : option BackupEventType :=
  as_str (jget "type" e) ≫= event_type_of.

(** An event of type [t] for tick [tick], with exactly the documented keys. *)
Definition conforms (tick : pystr) (t : BackupEventType) (e : dict) : Prop :=
  dkeys e = envelope_keys ++ event_schema t
  ∧ event_type e = Some t
  ∧ dget "tick_id" e = Some (JStr tick)
  ∧ dget "source" e = Some (JStr BACKUP_EVENT_SOURCE).

(** The new log entries of a run, by type: all for the tick of the state the
    run started in. *)
Definition logged (s s' : svc) (ts : list BackupEventType) : Prop :=
  ∃ evs, sv_log s' = sv_log s ++ evs
    ∧ Forall2 (conforms (current_tick_id (sv_loop s))) ts evs.

Lemma event_value_of t : event_type_of (event_value t) = Some t.
Proof. by destruct t; vm_compute. Qed.

Lemma dict_update_new (d fields : dict) :
  NoDup (dkeys fields) → (∀ k, k ∈ dkeys fields → k ∉ dkeys d) →
  dict_update d fields = d ++ fields.
Proof.
  unfold dict_update. revert d. induction fields as [|[k v] fields IH]; intros d Hnd Hout; simpl.
  - by rewrite app_nil_r.
  - simpl in Hnd. apply NoDup_cons in Hnd as [Hk Hnd].
    assert (dset k v d = d ++ [(k, v)]) as ->.
    { assert (k ∉ dkeys d) as Hk' by (apply Hout; left). clear -Hk'.
      induction d as [|[k' v'] d IH]; simpl; [done|].
      apply not_elem_of_cons in Hk' as [Hne Hk']. rewrite bool_decide_eq_false_2 by done.
      by rewrite IH. }
    rewrite IH; [by rewrite <- app_assoc|done|].
    intros k' Hk'. unfold dkeys. rewrite map_app, elem_of_app. simpl.
    intros [Hin|Hin]; [by apply (Hout k'); [right|]|]. set_solver.
Qed.

(** [emit] adds at most one event, and exactly one when the log is writable. *)
Definition log_ready (s : svc) : Prop :=
  ∃ dir, events_dir (sv_loop s) = Some dir
    ∧ ∀ h, (mkdir_p dir h).1 = true ∧ append_ok (child dir "events.jsonl") (mkdir_p dir h).2 = true.

#[local] Arguments dict_update : simpl never.

(** The event [emit t fields] writes in state [s], up to its timestamp and id. *)
Definition event_of (s : svc) (t : BackupEventType) (fields : dict) (ts id : pystr) : dict :=
  [(u "timestamp", JStr ts); (u "type", JStr (event_value t)); (u "event_id", JStr id);
   (u "source", JStr BACKUP_EVENT_SOURCE); (u "tick_id", JStr (current_tick_id (sv_loop s)))]
  ++ fields.

Lemma emit_log t fields s :
  dkeys ((u "tick_id", JNull) :: fields) = event_schema t →
  ∃ s' ts id, emit t fields s = (Ret tt, s') ∧ sv_loop s' = sv_loop s
    ∧ (sv_log s' = sv_log s ∨ sv_log s' = sv_log s ++ [event_of s t fields ts id])
    ∧ (log_ready s → sv_log s' = sv_log s ++ [event_of s t fields ts id]).
Proof.
  intros Hkeys. unfold emit, make_event, new_event_id, fresh_uuid, observe, gets, mbind, M_bind.
  simpl. destruct (uuid4 (sv_host s)) as [x h] eqn:Eu. simpl.
  set (e := dict_update _ _).
  assert (e = event_of s t fields (now_iso (sv_host s)) (u "evt-" ++ x)) as ->.
  { apply dict_update_new; simpl in *; rewrite Hkeys.
    - destruct t; vm_compute; by repeat (constructor; [set_solver|]); constructor.
    - intros k Hk Hin. destruct t; vm_compute in Hk, Hin; set_solver. }
  set (e := event_of _ _ _ _ _).
  unfold write_event. destruct (events_dir (sv_loop s)) as [dir|] eqn:Ed.
  - simpl. destruct (mkdir_p dir h) as [ok h'] eqn:Em. destruct ok; simpl.
    + destruct (append_ok _ h') eqn:Ea; do 3 eexists; split_and!; eauto.
      intros (dir' & Hd & Hr). simplify_eq. destruct (Hr h) as [_ Hr2].
      rewrite Em in Hr2. simpl in Hr2. congruence.
    + do 3 eexists. split_and!; eauto. intros (dir' & Hd & Hr). simplify_eq.
      destruct (Hr h) as [Hr1 _]. by rewrite Em in Hr1.
  - do 3 eexists. split_and!; eauto. intros (dir' & Hd & _). congruence.
Unshelve. all: exact [].
Qed.

Lemma event_of_conforms s t fields ts id :
  dkeys ((u "tick_id", JNull) :: fields) = event_schema t →
  conforms (current_tick_id (sv_loop s)) t (event_of s t fields ts id).
Proof.
  intros Hkeys. split; [|split; [|split; done]].
  - unfold dkeys, event_of. rewrite map_app. simpl in *. by rewrite <- Hkeys.
  - unfold event_type, event_of, jget. simpl. apply event_value_of.
Qed.

Lemma emit_spec t fields s :
  dkeys ((u "tick_id", JNull) :: fields) = event_schema t →
  ∃ s', emit t fields s = (Ret tt, s') ∧ sv_loop s' = sv_loop s
    ∧ (logged s s' [] ∨ logged s s' [t]) ∧ (log_ready s → logged s s' [t]).
Proof.
  intros Hkeys. destruct (emit_log t fields s Hkeys) as (s' & ts & id & E & Hl & Hlog & Hr).
  assert (sv_log s' = sv_log s ++ [event_of s t fields ts id] → logged s s' [t]) as Hone.
  { intros Es. exists [event_of s t fields ts id]. split; [done|].
    constructor; [by apply event_of_conforms | done]. }
  exists s'. split_and!; auto. destruct Hlog as [Es|Es]; [left|right; auto].
  exists []. by rewrite app_nil_r.
Qed.

Lemma logged_nil s : logged s s [].
Proof. exists []. by rewrite app_nil_r. Qed.

Lemma logged_app s1 s2 s3 ts1 ts2 :
  current_tick_id (sv_loop s1) = current_tick_id (sv_loop s2) →
  logged s1 s2 ts1 → logged s2 s3 ts2 → logged s1 s3 (ts1 ++ ts2).
Proof.
  intros Et (e1 & H1 & F1) (e2 & H2 & F2). exists (e1 ++ e2).
  split; [by rewrite H2, H1, app_assoc|]. rewrite <- Et in F2. by apply Forall2_app.
Qed.
End service.

Abbreviation SM := (M svc).
