(* ===== verification/BackupRestic.v ===== *)
(** * host_backup: the restic wrappers

    [libs/host_backup/src/host_backup/restic.py]. *)

From Stdlib Require Import NArith ZArith QArith Lia.
From S2P Require Import Prelude PyStr PyJson PyPath PyMonad PyRegex Host BackupConfig BackupEvents.
From stdpp Require Import options.
#[global] Open Scope nat_scope.
#[local] Open Scope py_scope.

Definition _REPO_MISSING_PATTERNS : list pystr :=
  [u "unable to open config file"; u "repository does not exist";
   u "does not appear to be a repository"].

Definition is_repo_missing_error (err : pystr) : bool :=
  existsb (λ p, contains p (map fold_char err)) _REPO_MISSING_PATTERNS.

Definition _RESTIC_TIMEOUT_SECONDS : Q := 3600.

(** [extract_snapshot_id_from_backup_output]: the last summary line wins. *)
Definition summary_id (line : pystr) : option pystr :=
  let line := strip line in
  if line =? [] then None
  else match loads line with
       | Some (JObj payload) =>
           if jeqs (jget "message_type" payload) "summary"
           then as_str (jget "snapshot_id" payload) else None
       | _ => None
       end.

Definition first_some {A B} (f : A → option B) (l : list A) : option B :=
  fold_right (λ a acc, match f a with Some b => Some b | None => acc end) None l.

Definition extract_snapshot_id_from_backup_output (out : pystr) : pystr :=
  default [] (first_some summary_id (reverse (splitlines out))).

Section restic.
Context `{Host}.

Abbreviation run_sv := (sub_run sv_host set_host).

Definition run_restic (args : list pystr) (env_overrides : list (pystr * pystr))
    (timeout_seconds : Q) : SM CompletedProcess :=
  run_sv (u "restic" :: args) env_overrides (Some timeout_seconds).

Definition probe_repo (env : list (pystr * pystr)) : SM CompletedProcess :=
  run_restic [u "cat"; u "config"] env 60.

Definition init_repo (env : list (pystr * pystr)) : SM CompletedProcess :=
  run_restic [u "init"] env 120.

Definition backup (source_path : path) (excl : list pystr) (tag : pystr)
    (env : list (pystr * pystr)) : SM CompletedProcess :=
  run_restic ([u "backup"; u "--json"; path_str source_path; u "--tag"; tag]
              ++ map (λ p, u "--exclude=" ++ p) excl) env _RESTIC_TIMEOUT_SECONDS.

Definition forget (r : RetentionSettings) (env : list (pystr * pystr)) : SM CompletedProcess :=
  run_restic [u "forget"; u "--keep-hourly"; str_of_Z (keep_hourly r);
              u "--keep-daily"; str_of_Z (keep_daily r);
              u "--keep-weekly"; str_of_Z (keep_weekly r);
              u "--keep-monthly"; str_of_Z (keep_monthly r)] env 600.

Definition prune (env : list (pystr * pystr)) : SM CompletedProcess :=
  run_restic [u "prune"] env _RESTIC_TIMEOUT_SECONDS.
End restic.

(** ** Facts *)

Lemma first_some_app {A B} (f : A → option B) l1 l2 :
  first_some f (l1 ++ l2) = match first_some f l1 with Some b => Some b | None => first_some f l2 end.
Proof.
  induction l1 as [|a l1 IH]; simpl; [done|]. by destruct (f a).
Qed.

(** The id reported is that of the last line that carries one, [""] when none
    does. *)
Lemma extract_last_summary out :
  extract_snapshot_id_from_backup_output out =
  default [] (last (omap summary_id (splitlines out))).
Proof.
  unfold extract_snapshot_id_from_backup_output. f_equal.
  induction (splitlines out) as [|l ls IH] using rev_ind; [done|].
  rewrite reverse_app, omap_app. simpl. destruct (summary_id l) as [b|]; simpl.
  - by rewrite last_snoc.
  - by rewrite app_nil_r.
Qed.

Example extract_ex :
  extract_snapshot_id_from_backup_output
    (join [nl] [bq "{`message_type`:`summary`,`snapshot_id`:`s1`}"; u "junk"]) = u "s1".
Proof. vm_compute. reflexivity. Qed.
