(* ===== verification/BackupSnapshot.v ===== *)
(** * host_backup: snapshot mechanisms

    [libs/host_backup/src/host_backup/snapshot.py]: the three snapshot takers
    ([BtrfsLocalSnapshotTaker], [OuterTriggerSnapshotTaker],
    [DirectSnapshotTaker]), the request/result protocol with the outer helper
    and the keep-N garbage collection.  Validation of the helper's
    [result.json] is pydantic's, a parameter ([HelperLib]). *)

From Stdlib Require Import NArith ZArith QArith Qround Lqa Lia.
From S2P Require Import Prelude PyStr PyJson PyPath PyMonad Host BackupConfig BackupEvents.
From stdpp Require Import options.
#[global] Open Scope nat_scope.
#[local] Open Scope py_scope.

Record SnapshotResult := {
  sr_method : SnapshotMethod;
  sr_snapshot_path : pystr;
  sr_read_path : path;
  sr_duration_seconds : Q;
  sr_helper_exit_code : option Z;
  sr_helper_stdout : pystr;
  sr_helper_stderr : pystr }.

(** [_HelperResult] *)
Record HelperResult := {
  hr_request_id : pystr;
  hr_operation : pystr;
  hr_exit_code : Z;
  hr_stdout : pystr;
  hr_stderr : pystr;
  hr_snapshot_path : pystr }.

Class HelperLib := {
  (** [_HelperResult.model_validate]; [None] is its [ValueError] *)
  helper_validate : dict → option HelperResult }.

(** ** Snapshot names: [%Y-%m-%dT%H:%M:%S.%fZ] *)

Definition _SNAPSHOT_NAME_FORMAT : pystr := "%Y-%m-%dT%H:%M:%S.%fZ".

Definition is_leap (y : N) : bool :=
  ((y mod 4 =? 0) && (negb (y mod 100 =? 0) || (y mod 400 =? 0)))%N.

Definition days_in_month (y m : N) : N :=
  (if m =? 2 then (if is_leap y then 29 else 28)
   else if (m =? 4) || (m =? 6) || (m =? 9) || (m =? 11) then 30 else 31)%N.

(** A field of [lo..hi] digits followed by the separator [sep] (either case
    of a letter: the pattern is compiled with IGNORECASE). *)
Definition field (lo hi : nat) (sep : N) (s : pystr) : option (pystr * pystr) :=
  let '(ds, r) := Loads.span_digits s in
  if (lo <=? length ds)%nat && (length ds <=? hi)%nat then
    match r with
    | c :: r' => if (c =? sep)%N || (is_upper sep && (c =? sep + 32)%N) then Some (ds, r') else None
    | [] => None
    end
  else None.

(** [%f] counts microseconds, padded on the right. *)
Definition micros (ds : pystr) : N := (digits_to_N ds * 10 ^ N.of_nat (6 - length ds))%N.

(** [_parse_snapshot_timestamp]: the instant, as the number of microseconds
    its fields order it by; [None] is [strptime]'s [ValueError]. *)
Definition _parse_snapshot_timestamp (name : pystr) : option N :=
  '(y, s1) ← field 4 4 45 name;
  '(mo, s2) ← field 1 2 45 s1;
  '(d, s3) ← (match s2 with 32%N :: s2' => field 1 1 84 s2' | _ => field 1 2 84 s2 end);
  '(h, s4) ← field 1 2 58 s3;
  '(mi, s5) ← field 1 2 58 s4;
  '(se, s6) ← field 1 2 46 s5;
  '(us, s7) ← field 1 6 90 s6;
  let y := digits_to_N y in let mo := digits_to_N mo in let d := digits_to_N d in
  let h := digits_to_N h in let mi := digits_to_N mi in let se := digits_to_N se in
  if (s7 =? []) && ((1 <=? y) && (1 <=? mo) && (mo <=? 12) && (1 <=? d)
      && (d <=? days_in_month y mo) && (h <=? 23) && (mi <=? 59) && (se <=? 59))%N
  then Some ((((((y * 12 + (mo - 1)) * 32 + d) * 24 + h) * 60 + mi) * 60 + se) * 1000000 + micros us)%N
  else None.

(** The timestamped names among [entries], oldest first. *)
Definition timestamped (entries : list pystr) : list (N * pystr) :=
  omap (λ n, (λ t, (t, n)) <$> _parse_snapshot_timestamp n) entries.

Definition older (a b : N * pystr) : bool := (a.1 <=? b.1)%N.

Definition order_names (entries : list pystr) : list pystr :=
  map snd (sort_by older (timestamped entries)).

Section takers.
Context `{Host} `{HelperLib} `{PyRepr}.

Abbreviation run_sv := (sub_run sv_host set_host).
Abbreviation obs := (observe sv_host).
Abbreviation os_sv := (os_call sv_host set_host).

Definition _BTRFS_TIMEOUT_SECONDS : Q := 60.
Definition _HELPER_POLL_INTERVAL_SECONDS : Q := 1.

(** ** [make_snapshot_taker] *)

Definition settings_field (s : SnapshotSettings) (n : pystr) : option path :=
  if n =? "host_subvolume_path" then host_subvolume_path s
  else if n =? "snapshot_current_path" then snapshot_current_path s
  else if n =? "snapshot_read_path" then snapshot_read_path s
  else trigger_dir s.

(** [str] of a list of identifiers. *)
Definition names_repr (l : list pystr) : pystr :=
  u "[" ++ join ", " (map (λ n, u "'" ++ n ++ u "'") l) ++ u "]".

Definition _require_paths (s : SnapshotSettings) (field_names : list pystr) : outcome unit :=
  let missing := List.filter (λ n, match settings_field s n with None => true | _ => false end) field_names in
  match missing with
  | [] => Ret tt
  | _ => Raise (SnapshotError (u "snapshot.method=" ++ method_value (method s)
           ++ u " requires fields " ++ names_repr missing ++ u " in backup.toml"))
  end.

Definition required_fields (m : SnapshotMethod) : list pystr :=
  match m with
  | BTRFS_LOCAL => [u "host_subvolume_path"; u "snapshot_current_path"]
  | OUTER_TRIGGER => [u "host_subvolume_path"; u "snapshot_current_path";
                      u "snapshot_read_path"; u "trigger_dir"]
  | DIRECT => []
  end.

(** The taker is determined by the settings' method. *)
Definition make_snapshot_taker (s : SnapshotSettings) : outcome SnapshotMethod :=
  _require_paths s (required_fields (method s));; Ret (method s).

Definition need_path (p : option path) : SM path :=
  match p with Some p => mret p | None => raise AssertionError end.

(** ** btrfs_local *)

Definition delete_snapshot (s : SnapshotSettings) : SM unit :=
  match snapshot_current_path s with
  | None => mret tt
  | Some target =>
      ex ← obs (path_exists target);
      if negb ex then mret tt
      else
        result ← run_sv [u "sudo"; u "btrfs"; u "subvolume"; u "delete"; path_str target] []
                   (Some _BTRFS_TIMEOUT_SECONDS);
        if (returncode result =? 0)%Z then mret tt
        else raise (SnapshotError (u "btrfs subvolume delete failed (rc="
               ++ str_of_Z (returncode result) ++ u "): stderr=" ++ str_repr (strip (stderr result))))
  end.

Definition btrfs_take_snapshot (s : SnapshotSettings) : SM SnapshotResult :=
  delete_snapshot s;;
  start ← obs monotonic;
  source ← need_path (host_subvolume_path s);
  target ← need_path (snapshot_current_path s);
  os_sv (mkdir_p (parent target));;
  result ← run_sv [u "sudo"; u "btrfs"; u "subvolume"; u "snapshot"; u "-r";
                   path_str source; path_str target] [] (Some _BTRFS_TIMEOUT_SECONDS);
  if negb (returncode result =? 0)%Z then
    raise (SnapshotError (u "btrfs subvolume snapshot failed (rc="
      ++ str_of_Z (returncode result) ++ u "): stderr=" ++ str_repr (strip (stderr result))))
  else
    now ← obs monotonic;
    mret {| sr_method := BTRFS_LOCAL; sr_snapshot_path := path_str target;
            sr_read_path := default target (snapshot_read_path s);
            sr_duration_seconds := (now - start)%Q; sr_helper_exit_code := None;
            sr_helper_stdout := stdout result; sr_helper_stderr := stderr result |}.

Definition btrfs_cleanup (s : SnapshotSettings) : SM (list pystr) :=
  existed ← (match snapshot_current_path s with
             | None => mret None
             | Some t => ex ← obs (path_exists t); mret (if ex : bool then Some t else None)
             end);
  delete_snapshot s;;
  mret (match existed with Some t => [path_str t] | None => [] end).

(** ** outer_trigger *)

Definition _iso_now : SM pystr := obs (utc_strftime _SNAPSHOT_NAME_FORMAT).

(** [None]: the file is missing, cut short or of another shape.  A result that is
    no text, on which the code would raise [UnicodeDecodeError], is left out with
    [read_text]. *)
Definition _parse_helper_result (p : path) (h : host) : option HelperResult :=
  text ← read_text p h;
  payload ← loads text;
  d ← as_dict payload;
  helper_validate d.

(** The polling loop, at most [fuel] rounds. *)
Fixpoint poll_result (fuel : nat) (result_path : path) (request_id : pystr)
    (timeout deadline : Q) : SM HelperResult :=
  match fuel with
  | O => raise OutOfFuel
  | S f =>
      parsed ← obs (_parse_helper_result result_path);
      match (r ← parsed; if hr_request_id r =? request_id then Some r else None) with
      | Some r => mret r
      | None =>
          now ← obs monotonic;
          if Qle_bool deadline now then
            raise (SnapshotError (u "Timed out after " ++ float_repr timeout
              ++ u "s waiting for outer helper result for request_id=" ++ request_id))
          else
            host_step sv_host set_host (sleep _HELPER_POLL_INTERVAL_SECONDS);;
            poll_result f result_path request_id timeout deadline
      end
  end.

(** The rounds that fit in the timeout. *)
Definition poll_fuel (timeout : Q) : nat := S (Z.to_nat (Qceiling timeout)).

Definition _do_request (s : SnapshotSettings) (operation request_id : pystr)
    (target : option pystr) : SM HelperResult :=
  dir ← need_path (trigger_dir s);
  os_sv (mkdir_p dir);;
  now ← _iso_now;
  let request_payload : dict :=
    [(u "request_id", JStr request_id); (u "operation", JStr operation); (u "timestamp_iso", JStr now)]
    ++ match target with Some t => [(u "target", JStr t)] | None => [] end in
  let request_path := child dir "request.json" in
  let result_path := child dir "result.json" in
  let tmp_path := child dir "request.json.tmp" in
  os_sv (write_text tmp_path (dumps float_repr ", " ": " (JObj request_payload)));;
  os_sv (rename tmp_path request_path);;
  start ← obs monotonic;
  let timeout := outer_helper_timeout_seconds s in
  poll_result (poll_fuel timeout) result_path request_id timeout (start + timeout)%Q.

Definition outer_take_snapshot (s : SnapshotSettings) : SM SnapshotResult :=
  read ← need_path (snapshot_read_path s);
  current ← need_path (snapshot_current_path s);
  start ← obs monotonic;
  snapshot_name ← _iso_now;
  result ← _do_request s "snapshot" snapshot_name None;
  now ← obs monotonic;
  if negb (hr_exit_code result =? 0)%Z then
    raise (SnapshotError (u "outer helper snapshot failed (rc=" ++ str_of_Z (hr_exit_code result)
      ++ u "): stderr=" ++ str_repr (strip (hr_stderr result))))
  else
    let outer_path := if hr_snapshot_path result =? [] then path_str (child (parent current) snapshot_name)
                      else hr_snapshot_path result in
    mret {| sr_method := OUTER_TRIGGER; sr_snapshot_path := outer_path;
            sr_read_path := child (parent read) snapshot_name;
            sr_duration_seconds := (now - start)%Q;
            sr_helper_exit_code := Some (hr_exit_code result);
            sr_helper_stdout := hr_stdout result; sr_helper_stderr := hr_stderr result |}.

Definition _list_snapshot_names (read_dir : path) (h : host) : list pystr :=
  match listdir read_dir h with
  | None => []
  | Some entries => order_names entries
  end.

(** The deletion loop of [cleanup_after_backup]. *)
Fixpoint delete_names (s : SnapshotSettings) (outer_dir : path) (names : list pystr)
    (deleted : list pystr) : SM (list pystr) :=
  match names with
  | [] => mret deleted
  | n :: names' =>
      id ← fresh_uuid sv_host set_host;
      result ← _do_request s "cleanup" id (Some n);
      if negb (hr_exit_code result =? 0)%Z then
        raise (SnapshotCleanupError
          (u "outer helper cleanup failed (rc=" ++ str_of_Z (hr_exit_code result)
             ++ u "): stderr=" ++ str_repr (strip (hr_stderr result)))
          deleted (path_str (child outer_dir n)))
      else delete_names s outer_dir names' (deleted ++ [path_str (child outer_dir n)])
  end.

(** The names beyond the newest [max_local]. *)
Definition surplus (max_local : nat) (names : list pystr) : list pystr :=
  take (length names - max_local) names.

Definition outer_cleanup (s : SnapshotSettings) : SM (list pystr) :=
  read ← need_path (snapshot_read_path s);
  current ← need_path (snapshot_current_path s);
  names ← obs (_list_snapshot_names (parent read));
  delete_names s (parent current) (surplus (max_local_snapshots s) names) [].

(** ** direct *)

Definition direct_take_snapshot (s : SnapshotSettings) : SM SnapshotResult :=
  let read_path := default (path_of "/mngr") (snapshot_read_path s) in
  mret {| sr_method := DIRECT; sr_snapshot_path := path_str read_path; sr_read_path := read_path;
          sr_duration_seconds := 0; sr_helper_exit_code := None;
          sr_helper_stdout := []; sr_helper_stderr := [] |}.

(** ** The interface *)

Definition take_snapshot (taker : SnapshotMethod) (s : SnapshotSettings) : SM SnapshotResult :=
  match taker with
  | BTRFS_LOCAL => btrfs_take_snapshot s
  | OUTER_TRIGGER => outer_take_snapshot s
  | DIRECT => direct_take_snapshot s
  end.

Definition cleanup_after_backup (taker : SnapshotMethod) (s : SnapshotSettings) : SM (list pystr) :=
  match taker with
  | BTRFS_LOCAL => btrfs_cleanup s
  | OUTER_TRIGGER => outer_cleanup s
  | DIRECT => mret []
  end.
End takers.

#[global] Arguments delete_snapshot : simpl never.
#[global] Arguments _do_request : simpl never.
#[global] Arguments poll_fuel : simpl never.

(** ** Facts *)

(** Leaves the event log and the loop state alone. *)
Definition quiet `{Host} (s s' : svc) : Prop :=
  sv_log s' = sv_log s ∧ sv_loop s' = sv_loop s.

#[export] Instance quiet_preorder `{Host} : PreOrder quiet.
Proof. split; [by intros s | intros s1 s2 s3 [] []; split; congruence]. Qed.

Section quiet.
Context `{Host} `{HelperLib} `{PyRepr}.

Lemma quiet_sub_run argv env t : stepwise quiet (sub_run sv_host set_host argv env t).
Proof.
  intros s. unfold sub_run.
  destruct (run_cmd argv env t (sv_host s)) as [[[]|p] h]; done.
Qed.

Lemma quiet_os f : stepwise quiet (os_call sv_host set_host f).
Proof. intros s. unfold os_call. by destruct (f (sv_host s)) as [[] h]. Qed.

Lemma quiet_host_step f : stepwise quiet (host_step sv_host set_host f).
Proof. done. Qed.

Lemma quiet_uuid : stepwise quiet (fresh_uuid sv_host set_host).
Proof. intros s. unfold fresh_uuid. by destruct (uuid4 (sv_host s)). Qed.

Lemma quiet_need p : stepwise quiet (need_path p).
Proof. intros s. by destruct p. Qed.

Lemma quiet_observe {A} (f : host → A) : stepwise quiet (observe sv_host f).
Proof. done. Qed.


(** Follows the structure of a program whose primitive steps are quiet. *)
#[local] Ltac quiet_with known :=
  repeat first
    [ known | apply quiet_sub_run | apply quiet_os | apply quiet_host_step | apply quiet_uuid
    | apply quiet_need | apply quiet_observe
    | apply stepwise_bind; [exact _ | | intros ?]
    | apply stepwise_ret; exact _ | apply stepwise_raise; exact _ | apply stepwise_lift; exact _
    | case_match ].
#[local] Ltac quiet_tac := quiet_with fail.

Lemma quiet_poll fuel rp id timeout deadline :
  stepwise quiet (poll_result fuel rp id timeout deadline).
Proof. induction fuel as [|f IH]; simpl; quiet_with ltac:(apply IH). Qed.

Lemma quiet_request s op id t : stepwise quiet (_do_request s op id t).
Proof. unfold _do_request, _iso_now. quiet_with ltac:(apply quiet_poll). Qed.

Lemma quiet_delete s : stepwise quiet (delete_snapshot s).
Proof. unfold delete_snapshot. quiet_tac. Qed.

Lemma quiet_delete_names s outer names deleted : stepwise quiet (delete_names s outer names deleted).
Proof.
  revert deleted. induction names as [|n names IH]; intros deleted; simpl;
    quiet_with ltac:(first [apply quiet_request | apply IH]).
Qed.

Lemma quiet_take m s : stepwise quiet (take_snapshot m s).
Proof.
  destruct m; simpl.
  - unfold btrfs_take_snapshot. quiet_with ltac:(apply quiet_delete).
  - unfold outer_take_snapshot, _iso_now. quiet_with ltac:(apply quiet_request).
  - unfold direct_take_snapshot. quiet_tac.
Qed.

Lemma quiet_cleanup m s : stepwise quiet (cleanup_after_backup m s).
Proof.
  destruct m; simpl.
  - unfold btrfs_cleanup. quiet_with ltac:(apply quiet_delete).
  - unfold outer_cleanup. quiet_with ltac:(apply quiet_delete_names).
  - quiet_tac.
Qed.
End quiet.

(** ** The request protocol *)
Section protocol.
Context `{Host} `{HelperLib} `{PyRepr}.

(** How a request can end: with the helper's answer to this very request, read
    from the result file of the final state, or with one of these exceptions. *)
Definition answered (rp : path) (id : pystr) (s : svc) (r : HelperResult) : Prop :=
  hr_request_id r = id ∧ _parse_helper_result rp (sv_host s) = Some r.

Lemma poll_result_spec fuel rp id timeout deadline s :
  match poll_result fuel rp id timeout deadline s with
  | (Ret r, s') => answered rp id s' r
  | (Raise (SnapshotError _), s') => (deadline <= monotonic (sv_host s'))%Q
  | (Raise e, _) => e = OutOfFuel
  end.
Proof.
  revert s. induction fuel as [|f IH]; intros s; [done|].
  cbn [poll_result]. unfold observe, gets, mbind at 1, M_bind at 1.
  destruct (_parse_helper_result rp (sv_host s)) as [r|] eqn:Er; simpl.
  - case_bool_decide as Eid; simpl; [by split|].
    unfold observe, gets, mbind, M_bind. destruct (Qle_bool deadline _) eqn:Eq; simpl.
    + by apply Qle_bool_iff.
    + apply IH.
  - unfold observe, gets, mbind, M_bind. destruct (Qle_bool deadline _) eqn:Eq; simpl.
    + by apply Qle_bool_iff.
    + apply IH.
Qed.

(** Every round but the last sleeps a second, so the rounds of [poll_fuel]
    outlast the deadline. *)
Lemma poll_result_fuel `{!HostLaws _} fuel rp id timeout deadline s :
  (deadline <= monotonic (sv_host s) + inject_Z (Z.of_nat fuel) - 1)%Q →
  (0 < fuel)%nat →
  (poll_result fuel rp id timeout deadline s).1 ≠ Raise OutOfFuel.
Proof.
  revert s. induction fuel as [|f IH]; intros s Hd Hf; [lia|].
  cbn [poll_result]. unfold observe, gets, mbind at 1, M_bind at 1.
  match goal with |- context [match ?x with Some r => mret r | None => _ end] => destruct x as [r|] end;
    simpl; [done|].
  unfold observe, gets, mbind, M_bind. destruct (Qle_bool deadline _) eqn:Eq; simpl; [done|].
  assert (monotonic (sv_host s) < deadline)%Q as Hlt.
  { apply Qnot_le_lt. intros Hle. apply Qle_bool_iff in Hle. congruence. }
  rewrite Nat2Z.inj_succ in Hd. unfold Z.succ in Hd. rewrite inject_Z_plus in Hd.
  change (inject_Z 1) with 1%Q in Hd.
  apply IH.
  - simpl. pose proof (sleep_monotonic _HELPER_POLL_INTERVAL_SECONDS (sv_host s)) as Hs.
    unfold _HELPER_POLL_INTERVAL_SECONDS in *. lra.
  - destruct f as [|f]; [|lia]. change (inject_Z (Z.of_nat 0)) with 0%Q in Hd. lra.
Qed.

Lemma poll_fuel_enough `{!HostLaws _} rp id timeout s :
  (poll_result (poll_fuel timeout) rp id timeout (monotonic (sv_host s) + timeout)%Q s).1
    ≠ Raise OutOfFuel.
Proof.
  apply poll_result_fuel; unfold poll_fuel; [|lia].
  rewrite Nat2Z.inj_succ. unfold Z.succ. rewrite inject_Z_plus.
  pose proof (Qle_ceiling timeout) as Hc.
  assert (inject_Z (Qceiling timeout) <= inject_Z (Z.of_nat (Z.to_nat (Qceiling timeout))))%Q as Hz.
  { rewrite <- Zle_Qle. lia. }
  change (inject_Z 1) with 1%Q. lra.
Qed.

#[local] Arguments poll_result : simpl never.

(** The exceptions of a request. *)
Definition request_exn (e : exn) : bool :=
  match e with AssertionError | OSError _ | SnapshotError _ | OutOfFuel => true | _ => false end.

Lemma do_request_spec s op id t st :
  match _do_request s op id t st with
  | (Ret r, st') => ∃ dir, trigger_dir s = Some dir ∧ answered (child dir "result.json") id st' r
  | (Raise e, _) => request_exn e = true
  end.
Proof.
  unfold _do_request, need_path. destruct (trigger_dir s) as [dir|]; [|done].
  unfold _iso_now, os_call, observe, gets, mbind, M_bind. simpl.
  destruct (mkdir_p dir (sv_host st)) as [[] h1]; simpl; [|done].
  match goal with |- context [write_text ?a ?b ?c] => destruct (write_text a b c) as [[] h2] end; simpl; [|done].
  match goal with |- context [rename ?a ?b ?c] => destruct (rename a b c) as [[] h3] end; simpl; [|done].
  match goal with |- context [poll_result ?f ?a ?b ?c ?d ?e] =>
    pose proof (poll_result_spec f a b c d e) as HP; destruct (poll_result f a b c d e) as [[r|e'] s'] end.
  - eauto.
  - by destruct e'; simplify_eq.
Qed.

Lemma do_request_terminates `{!HostLaws _} s op id t st :
  (_do_request s op id t st).1 ≠ Raise OutOfFuel.
Proof.
  unfold _do_request, need_path. destruct (trigger_dir s) as [dir|]; [|done].
  unfold _iso_now, os_call, observe, gets, mbind, M_bind. simpl.
  destruct (mkdir_p dir (sv_host st)) as [[] h1]; simpl; [|done].
  match goal with |- context [write_text ?a ?b ?c] => destruct (write_text a b c) as [[] h2] end; simpl; [|done].
  match goal with |- context [rename ?a ?b ?c] => destruct (rename a b c) as [[] h3] end; simpl; [|done].
  match goal with |- context [poll_result _ ?a ?b ?c _ ?e] => apply (poll_fuel_enough a b c e) end.
Qed.

(** ** Deleting by name *)

(** Deletions are in order and stop at the first failure: a run that returns
    deleted every name; a run whose helper refuses one reports exactly the
    names before it as deleted and that one as failed. *)
Lemma delete_names_spec s outer names deleted st :
  match (delete_names s outer names deleted st).1 with
  | Ret d => d = deleted ++ map (λ n, path_str (child outer n)) names
  | Raise (SnapshotCleanupError _ d failed) =>
      ∃ pre n post, names = pre ++ n :: post
        ∧ d = deleted ++ map (λ n, path_str (child outer n)) pre
        ∧ failed = path_str (child outer n)
  | Raise e => request_exn e = true
  end.
Proof.
  revert deleted st. induction names as [|n names IH]; intros deleted st; simpl.
  { by rewrite app_nil_r. }
  unfold mbind, M_bind, fresh_uuid. destruct (uuid4 (sv_host st)) as [x h].
  pose proof (do_request_spec s "cleanup" x (Some n) (set_host h st)) as HR.
  destruct (_do_request s "cleanup" x (Some n) (set_host h st)) as [[r|e] st'];
    [|simpl; by destruct e].
  destruct (negb (hr_exit_code r =? 0)%Z).
  { simpl. exists [], n, names. simpl. by rewrite app_nil_r. }
  specialize (IH (deleted ++ [path_str (child outer n)]) st').
  destruct (delete_names s outer names _ st') as [[d|[]] st'']; simpl in *; try done.
  - by rewrite IH, <- app_assoc.
  - destruct IH as (pre & n' & post & -> & -> & ->). exists (n :: pre), n', post.
    by rewrite <- app_assoc.
Qed.

Lemma delete_names_terminates `{!HostLaws _} s outer names deleted st :
  (delete_names s outer names deleted st).1 ≠ Raise OutOfFuel.
Proof.
  revert deleted st. induction names as [|n names IH]; intros deleted st; simpl; [done|].
  unfold mbind, M_bind, fresh_uuid. destruct (uuid4 (sv_host st)) as [x h].
  pose proof (do_request_terminates s "cleanup" x (Some n) (set_host h st)) as HR.
  destruct (_do_request s "cleanup" x (Some n) (set_host h st)) as [[r|e] st']; simpl in *; [|by intros [= ->]].
  destruct (negb (hr_exit_code r =? 0)%Z); [done | apply IH].
Qed.
End protocol.

(** ** What is kept *)

Lemma timestamped_elem t n entries :
  (t, n) ∈ timestamped entries → n ∈ entries ∧ _parse_snapshot_timestamp n = Some t.
Proof.
  unfold timestamped. intros (x & Hx & E)%list_elem_of_omap. simpl in E.
  destruct (_parse_snapshot_timestamp x) as [t'|] eqn:Et; simplify_eq/=. done.
Qed.

Lemma order_names_elem n entries :
  n ∈ order_names entries ↔ n ∈ entries ∧ is_Some (_parse_snapshot_timestamp n).
Proof.
  unfold order_names. rewrite list_elem_of_fmap. split.
  - intros ([t n'] & -> & Hin). apply sort_by_elem in Hin.
    apply timestamped_elem in Hin as [? E]. simpl. rewrite E. eauto.
  - intros [Hin [t E]]. exists (t, n). split; [done|]. apply sort_by_elem.
    unfold timestamped. apply list_elem_of_omap. exists n. by rewrite E.
Qed.

Lemma older_total a b : older a b = true ∨ older b a = true.
Proof. unfold older. rewrite !N.leb_le. lia. Qed.
Lemma older_trans a b c : older a b = true → older b c = true → older a c = true.
Proof. unfold older. rewrite !N.leb_le. lia. Qed.

Lemma sorted_by_app {A} (leb : A → A → bool) l1 l2 a b :
  sorted_by leb (l1 ++ l2) → a ∈ l1 → b ∈ l2 → leb a b = true.
Proof.
  unfold sorted_by. intros Hs Ha Hb. induction l1 as [|x l1 IH]; [inv Ha|].
  simpl in Hs. inv Hs. apply elem_of_cons in Ha as [->|Ha]; [|by apply IH].
  rewrite Forall_forall in *. set_solver.
Qed.

(** The names dropped are the oldest, and at most [n] are kept. *)
Lemma surplus_split k entries :
  let names := order_names entries in
  let kept := drop (length names - k) names in
  names = surplus k names ++ kept
  ∧ length kept = min k (length names)
  ∧ ∀ a b ta tb, a ∈ surplus k names → b ∈ kept →
      _parse_snapshot_timestamp a = Some ta → _parse_snapshot_timestamp b = Some tb → (ta <= tb)%N.
Proof.
  simpl. split; [unfold surplus; by rewrite take_drop|]. split; [rewrite length_drop; lia|].
  intros a b ta tb Ha Hb Eta Etb. unfold surplus in Ha.
  unfold order_names in Ha, Hb. rewrite <- fmap_take in Ha. rewrite <- fmap_drop in Hb.
  rewrite length_map in Ha, Hb.
  apply list_elem_of_fmap in Ha as ([ta' a'] & -> & Ha). apply list_elem_of_fmap in Hb as ([tb' b'] & -> & Hb).
  assert (older (ta', a') (tb', b') = true) as Ho.
  { eapply sorted_by_app; [|exact Ha|exact Hb]. rewrite take_drop.
    apply sort_by_sorted; auto using older_total. apply older_trans. }
  assert (ta' = ta) as ->.
  { apply elem_of_take in Ha as (i & Ha & _). apply list_elem_of_lookup_2, sort_by_elem, timestamped_elem in Ha as [_ Ha].
    simpl in *. congruence. }
  assert (tb' = tb) as ->.
  { rewrite list_elem_of_lookup in Hb. destruct Hb as (i & Hb). rewrite lookup_drop in Hb.
    apply list_elem_of_lookup_2, sort_by_elem, timestamped_elem in Hb as [_ Hb]. simpl in *. congruence. }
  by apply N.leb_le.
Qed.

(** The cleanup of the outer helper keeps the newest [max_local] snapshots.
    The names split into the surplus and those kept, none kept is older than one
    of the surplus, and the helper is asked to delete the surplus, oldest first:
    all of it when the cleanup returns, and up to the reported failure when it
    raises a cleanup error; any other error is one of the request itself. *)
Theorem outer_cleanup_keeps_newest `{Host} `{HelperLib} `{PyRepr} s read current st :
  snapshot_read_path s = Some read → snapshot_current_path s = Some current →
  let names := _list_snapshot_names (parent read) (sv_host st) in
  let kept := drop (length names - max_local_snapshots s) names in
  let paths := map (λ n, path_str (child (parent current) n)) in
  names = surplus (max_local_snapshots s) names ++ kept
  ∧ length kept = min (max_local_snapshots s) (length names)
  ∧ (∀ a b ta tb, a ∈ surplus (max_local_snapshots s) names → b ∈ kept →
       _parse_snapshot_timestamp a = Some ta → _parse_snapshot_timestamp b = Some tb → (ta <= tb)%N)
  ∧ match (outer_cleanup s st).1 with
    | Ret d => d = paths (surplus (max_local_snapshots s) names)
    | Raise (SnapshotCleanupError _ d failed) =>
        ∃ pre n post, surplus (max_local_snapshots s) names = pre ++ n :: post
          ∧ d = paths pre ∧ paths [n] = [failed]
    | Raise e => request_exn e = true
    end.
Proof.
  intros Er Ec names kept paths.
  assert (∃ entries, names = order_names entries) as [entries Ee].
  { unfold names, _list_snapshot_names. destruct (listdir (parent read) (sv_host st)) as [es|]; [by exists es|].
    exists []. vm_compute. reflexivity. }
  destruct (surplus_split (max_local_snapshots s) entries) as (Hs1 & Hs2 & Hs3). rewrite <- Ee in Hs1, Hs2, Hs3.
  split_and!; [done..|].
  pose proof (delete_names_spec s (parent current) (surplus (max_local_snapshots s) names) [] st) as Hd.
  assert ((outer_cleanup s st).1 = (delete_names s (parent current) (surplus (max_local_snapshots s) names) [] st).1) as ->.
  { unfold outer_cleanup, need_path. rewrite Er, Ec. reflexivity. }
  destruct (delete_names _ _ _ _ _).1 as [d|[]]; try done.
  destruct Hd as (pre & n & post & E & -> & ->). by exists pre, n, post.
Qed.
