(* ===== verification/BackupRunner.v ===== *)
(** * host_backup: the tick loop

    [libs/host_backup/src/host_backup/runner.py]: the decision whether a tick
    is due, the steps of a tick with the event each one logs, and the outer
    loop with its recovery handler.  [traced] is a small logic for the sequence
    of events a computation appends. *)

From Stdlib Require Import NArith ZArith QArith Lqa Lia.
From S2P Require Import Prelude PyStr PyJson PyPath PyMonad Host BackupConfig BackupEvents BackupRestic BackupSnapshot.
From stdpp Require Import options.
#[global] Open Scope nat_scope.
#[local] Open Scope py_scope.

Class Traceback := {
  (** [traceback.format_exception], joined *)
  format_exception : exn → pystr }.

Definition opt_int (z : option Z) : json := match z with Some z => JInt z | None => JNull end.

(** Python's [max] on floats: the first argument unless the second is greater. *)
Definition Qmax2 (a b : Q) : Q := if Qltb a b then b else a.

Section runner.
Context `{Host} `{TomlLib} `{HelperLib} `{PyRepr} `{Traceback}.

Abbreviation obs := (observe sv_host).
Abbreviation os_sv := (os_call sv_host set_host).
Abbreviation sleep_for d := (host_step sv_host set_host (sleep d)).
Abbreviation upd_loop f := (modify (λ s : svc, set_loop (f (sv_loop s)) s)).

(** ** Is a tick due? *)

Definition _should_tick_now (state : LoopState) (config : option BackupConfig)
    (backup_mtime env_mtime : option Q) (now : Q) : bool * pystr :=
  match config with
  | None => (false, u "no_config")
  | Some config =>
      match last_tick_end_monotonic state with
      | None => (true, u "startup")
      | Some last_end =>
          let elapsed_since_last_tick_end := (now - last_end)%Q in
          let changed (new old : option Q) :=
            match new, old with Some a, Some b => negb (Qeq_bool a b) | _, _ => false end in
          if Qltb elapsed_since_last_tick_end (minimum_backup_gap_seconds config) then
            (false, u "min_gap_not_elapsed")
          else if changed backup_mtime (last_backup_toml_mtime state) then (true, u "config_change")
          else if changed env_mtime (last_restic_env_mtime state) then (true, u "config_change")
          else if Qle_bool (backup_interval_seconds config) elapsed_since_last_tick_end then
            (true, u "interval")
          else (false, u "interval_not_elapsed")
      end
  end.

Definition with_config (c : BackupConfig) (l : LoopState) : LoopState :=
  {| events_dir := events_dir l; last_backup_toml_mtime := last_backup_toml_mtime l;
     last_restic_env_mtime := last_restic_env_mtime l;
     last_tick_end_monotonic := last_tick_end_monotonic l;
     last_known_config := Some c; current_tick_id := current_tick_id l |}.

Definition start_tick (id : pystr) (bm em : option Q) (l : LoopState) : LoopState :=
  {| events_dir := events_dir l; last_backup_toml_mtime := bm; last_restic_env_mtime := em;
     last_tick_end_monotonic := last_tick_end_monotonic l;
     last_known_config := last_known_config l; current_tick_id := id |}.

Definition end_tick (now : Q) (l : LoopState) : LoopState :=
  {| events_dir := events_dir l; last_backup_toml_mtime := last_backup_toml_mtime l;
     last_restic_env_mtime := last_restic_env_mtime l; last_tick_end_monotonic := Some now;
     last_known_config := last_known_config l; current_tick_id := current_tick_id l |}.

(** [_LoopState()] *)
Definition new_loop_state (h : host) : LoopState :=
  {| events_dir := get_events_dir h; last_backup_toml_mtime := None;
     last_restic_env_mtime := None; last_tick_end_monotonic := None;
     last_known_config := None; current_tick_id := u "no-tick" |}.

Definition _safe_load_config : SM (option BackupConfig) :=
  loaded ← obs load_backup_config;
  match loaded with
  | Ret config => upd_loop (with_config config);; mret (Some config)
  | Raise (BackupConfigError _) => gets (λ s, last_known_config (sv_loop s))
  | Raise e => raise e
  end.

(** ** The steps of a tick *)

Definition _check_secrets_present : SM (option (list (pystr * pystr))) :=
  loaded ← obs load_restic_env;
  env ← lift loaded;
  match missing_required_restic_keys env with
  | [] => mret (Some env)
  | missing =>
      emit TICK_SKIPPED_DUE_TO_MISSING_SECRETS [(u "missing_keys", JList (map JStr missing))];;
      mret None
  end.

Definition is_SnapshotError (e : exn) : bool :=
  match e with SnapshotError _ | SnapshotCleanupError _ _ _ => true | _ => false end.

Definition _take_snapshot (config : BackupConfig) : SM (option SnapshotResult) :=
  let settings := snapshot config in
  taken ← try_except
    (taker ← lift (make_snapshot_taker settings); r ← take_snapshot taker settings; mret (Some r))
    (λ e, if is_SnapshotError e
          then Some (emit SNAPSHOT_FAILED
                 [(u "method", JStr (method_value (method settings)));
                  (u "error_message", JStr (exn_str e))];; mret None)
          else None);
  match taken with
  | None => mret None
  | Some result =>
      emit SNAPSHOT_CREATED
        [(u "method", JStr (method_value (sr_method result)));
         (u "snapshot_path", JStr (sr_snapshot_path result));
         (u "duration_seconds", JFloat (sr_duration_seconds result));
         (u "helper_exit_code", opt_int (sr_helper_exit_code result));
         (u "helper_stdout", JStr (sr_helper_stdout result));
         (u "helper_stderr", JStr (sr_helper_stderr result))];;
      mret (Some result)
  end.

Definition _emit_snapshot_deleted (snap : SnapshotResult) (snapshot_path : pystr)
    (success : bool) (error_message : pystr) : SM unit :=
  emit SNAPSHOT_DELETED
    [(u "method", JStr (method_value (sr_method snap)));
     (u "snapshot_path", JStr snapshot_path);
     (u "success", JBool success);
     (u "error_message", JStr error_message)].

Definition emit_deletions (snap : SnapshotResult) (paths : list pystr) : SM unit :=
  for_each paths (λ p, _emit_snapshot_deleted snap p true []).

Definition _cleanup_snapshot (config : BackupConfig) (snap : SnapshotResult) : SM unit :=
  let settings := snapshot config in
  deleted_paths ← try_except
    (taker ← lift (make_snapshot_taker settings);
     d ← cleanup_after_backup taker settings; mret (Some d))
    (λ e, match e with
          | SnapshotCleanupError msg deleted failed_target =>
              Some (emit_deletions snap deleted;;
                    _emit_snapshot_deleted snap failed_target false msg;; mret None)
          | SnapshotError msg =>
              Some (_emit_snapshot_deleted snap (sr_snapshot_path snap) false msg;; mret None)
          | _ => None
          end);
  match deleted_paths with
  | None => mret tt
  | Some paths => emit_deletions snap paths
  end.

Definition completed (result : CompletedProcess) (duration : Q) : dict :=
  [(u "exit_code", JInt (returncode result)); (u "duration_seconds", JFloat duration);
   (u "stdout", JStr (stdout result)); (u "stderr", JStr (stderr result))].

Definition _run_restic_backup (config : BackupConfig) (snap : SnapshotResult)
    (env_overrides : list (pystr * pystr)) : SM bool :=
  tag ← obs (utc_strftime "%Y-%m-%dT%H:%M:%SZ");
  start ← obs monotonic;
  result ← backup (sr_read_path snap) (excludes config) tag env_overrides;
  finish ← obs monotonic;
  let duration := (finish - start)%Q in
  if negb (returncode result =? 0)%Z then
    emit RESTIC_BACKUP_FAILED
      ((u "source_path", JStr (path_str (sr_read_path snap))) :: completed result duration);;
    mret false
  else
    emit RESTIC_BACKUP_SUCCEEDED
      [(u "snapshot_id", JStr (extract_snapshot_id_from_backup_output (stdout result)));
       (u "source_path", JStr (path_str (sr_read_path snap)));
       (u "duration_seconds", JFloat duration);
       (u "stdout", JStr (stdout result)); (u "stderr", JStr (stderr result))];;
    mret true.

Definition _run_forget (config : BackupConfig) (env_overrides : list (pystr * pystr)) : SM unit :=
  start ← obs monotonic;
  result ← forget (retention config) env_overrides;
  finish ← obs monotonic;
  emit FORGET_COMPLETED (completed result (finish - start)%Q).

Definition _touch_prune_timestamp : SM unit :=
  try_except
    (os_sv (mkdir_p (parent PRUNE_TIMESTAMP_PATH));;
     now ← obs utc_isoformat;
     os_sv (write_text PRUNE_TIMESTAMP_PATH now))
    (λ e, match e with OSError _ => Some (mret tt) | _ => None end).

Definition run_prune (env_overrides : list (pystr * pystr)) : SM unit :=
  start ← obs monotonic;
  result ← prune env_overrides;
  finish ← obs monotonic;
  emit PRUNE_COMPLETED (completed result (finish - start)%Q);;
  when (returncode result =? 0)%Z _touch_prune_timestamp.

Definition _maybe_run_prune (config : BackupConfig) (env_overrides : list (pystr * pystr)) : SM unit :=
  let interval_seconds := (prune_interval_hours (retention config) * 3600)%Q in
  last_prune ← obs (_safe_mtime PRUNE_TIMESTAMP_PATH);
  now ← obs wall_time;
  match last_prune with
  | Some last_prune =>
      let age_seconds := (now - last_prune)%Q in
      if Qltb age_seconds interval_seconds then
        emit PRUNE_SKIPPED
          [(u "age_hours", JFloat (age_seconds / 3600)%Q);
           (u "interval_hours", JFloat (prune_interval_hours (retention config)))]
      else run_prune env_overrides
  | None => run_prune env_overrides
  end.

(** ** One tick *)

Definition _run_one_tick (config : BackupConfig) (trigger_reason : pystr) : SM unit :=
  backup_mtime ← obs (λ h, default 0%Q (_safe_mtime BACKUP_TOML_PATH h));
  env_mtime ← obs (_safe_mtime RESTIC_ENV_PATH);
  emit CONFIG_RELOADED
    [(u "backup_toml_mtime", JFloat backup_mtime); (u "restic_env_mtime", opt_float env_mtime)];;
  emit BACKUP_STARTED [(u "trigger_reason", JStr trigger_reason)];;
  env ← _check_secrets_present;
  match env with
  | None => mret tt
  | Some env_overrides =>
      snapshot_result ← _take_snapshot config;
      match snapshot_result with
      | None => mret tt
      | Some snap =>
          backup_succeeded ←
            try_finally (_run_restic_backup config snap env_overrides)
              (_cleanup_snapshot config snap);
          if negb backup_succeeded then mret tt
          else
            _run_forget config env_overrides;;
            _maybe_run_prune config env_overrides
      end
  end.

(** ** The loop *)

Definition _service_iteration : SM unit :=
  config ← _safe_load_config;
  let poll_interval := match config with Some c => config_poll_interval_seconds c | None => 15%Q end in
  backup_mtime ← obs (_safe_mtime BACKUP_TOML_PATH);
  env_mtime ← obs (_safe_mtime RESTIC_ENV_PATH);
  now ← obs monotonic;
  state ← gets sv_loop;
  let '(should_tick, reason) := _should_tick_now state config backup_mtime env_mtime now in
  if negb should_tick then sleep_for poll_interval
  else
    id ← fresh_uuid sv_host set_host;
    upd_loop (start_tick id backup_mtime env_mtime);;
    match config with
    | None => sleep_for poll_interval
    | Some config =>
        _run_one_tick config reason;;
        finish ← obs monotonic;
        upd_loop (end_tick finish)
    end.

Definition _emit_tick_error (e : exn) : SM unit :=
  emit TICK_ERROR
    [(u "error_type", JStr (exn_type_name e)); (u "error_message", JStr (exn_str e));
     (u "traceback", JStr (format_exception e))].

Definition _max_safe_gap (state : LoopState) : Q :=
  match last_known_config state with
  | None => 15
  | Some c => Qmax2 (minimum_backup_gap_seconds c) (config_poll_interval_seconds c)
  end.

(** One turn of [while True]; [true] is the [return] of the interrupt handler. *)
Definition loop_turn : SM bool :=
  try_except (_service_iteration;; mret false)
    (λ e, match e with
          | KeyboardInterrupt => Some (mret true)
          | e => Some (_emit_tick_error e;;
                       gap ← gets (λ s, _max_safe_gap (sv_loop s));
                       sleep_for gap;; mret false)
          end).

(** The service as it starts on the operating system [h]. *)
Definition boot (h : host) : svc := {| sv_loop := new_loop_state h; sv_host := h; sv_log := [] |}.

(** [_run_loop], observed for at most [n] turns; [true] if it returned. *)
Fixpoint _run_loop (n : nat) : SM bool :=
  match n with
  | O => mret false
  | S n => stop ← loop_turn; if stop : bool then mret true else _run_loop n
  end.
End runner.

(** ** A logic of event traces *)
Section traced.
Context `{Host}.

(** From a state with a writable log, [m] leaves the loop state alone and logs
    events of the types [ts], with [Q] relating its result to them. *)
Definition traced {A} (m : SM A) (Q : outcome A → list BackupEventType → Prop) : Prop :=
  ∀ s, log_ready s → ∃ ts, sv_loop (m s).2 = sv_loop s ∧ logged s (m s).2 ts ∧ Q (m s).1 ts.

Lemma log_ready_loop s s' : sv_loop s' = sv_loop s → log_ready s → log_ready s'.
Proof. unfold log_ready. by intros ->. Qed.

Lemma traced_ret {A} (a : A) (Q : outcome A → list BackupEventType → Prop) :
  Q (Ret a) [] → traced (mret a) Q.
Proof. intros HQ s Hs. exists []. split; [done|]. split; [apply logged_nil | done]. Qed.

Lemma traced_quiet {A} (m : SM A) (P : outcome A → Prop) (Q : outcome A → list BackupEventType → Prop) :
  stepwise quiet m → (∀ s, P (m s).1) → (∀ r, P r → Q r []) → traced m Q.
Proof.
  intros Hm HP HQ s Hs. exists []. destruct (Hm s) as [Hlog Hloop].
  split; [done|]. split; [|by apply HQ].
  exists []. by rewrite app_nil_r, Hlog.
Qed.

Lemma traced_emit t fields (Q : outcome unit → list BackupEventType → Prop) :
  dkeys ((u "tick_id", JNull) :: fields) = event_schema t → Q (Ret tt) [t] → traced (emit t fields) Q.
Proof.
  intros Hk HQ s Hs. destruct (emit_spec t fields s Hk) as (s' & E & Hl & _ & Hlog).
  exists [t]. rewrite E. simpl. split; [done|]. auto.
Qed.

Lemma traced_bind {A B} (m : SM A) (f : A → SM B) Q1 Q :
  traced m Q1 →
  (∀ a ts1, Q1 (Ret a) ts1 → traced (f a) (λ r ts2, Q r (ts1 ++ ts2))) →
  (∀ e ts1, Q1 (Raise e) ts1 → Q (Raise e) ts1) →
  traced (m ≫= f) Q.
Proof.
  intros Hm Hf He s Hs. destruct (Hm s Hs) as (ts1 & Hl1 & Hlog1 & HQ1).
  unfold mbind, M_bind. destruct (m s) as [[a|e] s1]; simpl in *; [|by exists ts1; auto].
  destruct (Hf a ts1 HQ1 s1) as (ts2 & Hl2 & Hlog2 & HQ2); [by eapply log_ready_loop|].
  exists (ts1 ++ ts2). split; [congruence|]. split; [|done].
  apply (logged_app _ s1); [by rewrite Hl1 | done | done].
Qed.

Lemma traced_try {A} (m : SM A) h Q1 Q :
  traced m Q1 →
  (∀ a ts, Q1 (Ret a) ts → Q (Ret a) ts) →
  (∀ e ts, h e = None → Q1 (Raise e) ts → Q (Raise e) ts) →
  (∀ e k ts1, h e = Some k → Q1 (Raise e) ts1 → traced k (λ r ts2, Q r (ts1 ++ ts2))) →
  traced (try_except m h) Q.
Proof.
  intros Hm Hret Hno Hk s Hs. destruct (Hm s Hs) as (ts1 & Hl1 & Hlog1 & HQ1).
  unfold try_except. destruct (m s) as [[a|e] s1]; simpl in *; [by exists ts1; auto|].
  destruct (h e) as [k|] eqn:Eh; simpl; [|by exists ts1; eauto].
  destruct (Hk e k ts1 Eh HQ1 s1) as (ts2 & Hl2 & Hlog2 & HQ2); [by eapply log_ready_loop|].
  exists (ts1 ++ ts2). split; [congruence|]. split; [|done].
  apply (logged_app _ s1); [by rewrite Hl1 | done | done].
Qed.

Lemma traced_finally {A} (m : SM A) f Q1 Q :
  traced m Q1 →
  (∀ r ts1, Q1 r ts1 → traced f (λ r' ts2,
     Q (match r' with Ret _ => r | Raise e => Raise e end) (ts1 ++ ts2))) →
  traced (try_finally m f) Q.
Proof.
  intros Hm Hf s Hs. destruct (Hm s Hs) as (ts1 & Hl1 & Hlog1 & HQ1).
  unfold try_finally. destruct (m s) as [r s1]; simpl in *.
  destruct (Hf r ts1 HQ1 s1) as (ts2 & Hl2 & Hlog2 & HQ2); [by eapply log_ready_loop|].
  exists (ts1 ++ ts2). destruct (f s1) as [[?|?] s2]; simpl in *;
    (split; [congruence|]; split; [|done]; apply (logged_app _ s1); [by rewrite Hl1 | done | done]).
Qed.

Lemma traced_weaken {A} (m : SM A) (Q Q' : outcome A → list BackupEventType → Prop) :
  traced m Q → (∀ r ts, Q r ts → Q' r ts) → traced m Q'.
Proof. intros Hm HQ s Hs. destruct (Hm s Hs) as (ts & ? & ? & ?). eauto. Qed.

(** Reads and quiet steps, whatever they return. *)
Lemma traced_bind_quiet {A B} (m : SM A) (f : A → SM B) Q :
  stepwise quiet m → (∀ a, traced (f a) Q) → (∀ e, Q (Raise e) []) → traced (m ≫= f) Q.
Proof.
  intros Hm Hf He. eapply traced_bind with (Q1 := λ _ ts, ts = []).
  - eapply (traced_quiet m (λ _, True)); auto.
  - intros a ts ->. apply Hf.
  - by intros e ts ->.
Qed.

Lemma traced_bind_pure {A B} (f : svc → A) (k : A → SM B) Q :
  (∀ a, traced (k a) Q) → traced (gets f ≫= k) Q.
Proof. intros Hk s Hs. apply (Hk (f s) s Hs). Qed.

(** The log only ever grows, by well-formed events of the current tick, and
    the loop state is left alone; whether or not the log is writable. *)
Definition grows (s s' : svc) : Prop := sv_loop s' = sv_loop s ∧ ∃ ts, logged s s' ts.

#[export] Instance grows_preorder : PreOrder grows.
Proof.
  split.
  - intros s. split; [done|]. exists []. apply logged_nil.
  - intros s1 s2 s3 [E1 [t1 L1]] [E2 [t2 L2]]. split; [congruence|]. exists (t1 ++ t2).
    apply (logged_app _ s2); [by rewrite E1 | done | done].
Qed.

Lemma grows_quiet {A} (m : SM A) : stepwise quiet m → stepwise grows m.
Proof.
  intros Hm s. destruct (Hm s) as [Hlog Hloop]. split; [done|].
  exists [], []. by rewrite app_nil_r, Hlog.
Qed.

Lemma grows_emit t fields :
  dkeys ((u "tick_id", JNull) :: fields) = event_schema t → stepwise grows (emit t fields).
Proof.
  intros Hk s. destruct (emit_spec t fields s Hk) as (s' & E & Hl & Hlog & _).
  rewrite E. simpl. split; [done|]. destruct Hlog; eauto.
Qed.

Lemma halts_sub_run argv env t : halts (sub_run sv_host set_host argv env t).
Proof. intros s. unfold sub_run. by destruct (run_cmd argv env t (sv_host s)) as [[[]|p] h]. Qed.
Lemma halts_os f : halts (os_call sv_host set_host f).
Proof. intros s. unfold os_call. by destruct (f (sv_host s)) as [[] h]. Qed.
Lemma halts_uuid : halts (fresh_uuid sv_host set_host).
Proof. intros s. unfold fresh_uuid. by destruct (uuid4 (sv_host s)). Qed.
Lemma halts_emit t fields :
  dkeys ((u "tick_id", JNull) :: fields) = event_schema t → halts (emit t fields).
Proof. intros Hk s. by destruct (emit_spec t fields s Hk) as (s' & -> & _). Qed.
End traced.

(** ** The events of a tick *)

(** The restic step. *)
Inductive backup_trace : outcome bool → list BackupEventType → Prop :=
  | bt_succeeded : backup_trace (Ret true) [RESTIC_BACKUP_SUCCEEDED]
  | bt_failed : backup_trace (Ret false) [RESTIC_BACKUP_FAILED]
  | bt_raised e : backup_trace (Raise e) [].

(** Forgetting and pruning. *)
Inductive tail_trace : outcome unit → list BackupEventType → Prop :=
  | tl_forget_raised e : tail_trace (Raise e) []
  | tl_skipped : tail_trace (Ret tt) [FORGET_COMPLETED; PRUNE_SKIPPED]
  | tl_prune_raised e : tail_trace (Raise e) [FORGET_COMPLETED]
  | tl_pruned r : tail_trace r [FORGET_COMPLETED; PRUNE_COMPLETED].

(** How many deletions a method can report. *)
Definition deletions_ok (m : SnapshotMethod) (n : nat) : Prop :=
  match m with DIRECT => n = 0 | BTRFS_LOCAL => n ≤ 1 | OUTER_TRIGGER => True end.

Inductive tick_trace (m : SnapshotMethod) : outcome unit → list BackupEventType → Prop :=
  | tt_env_unreadable e : tick_trace m (Raise e) [CONFIG_RELOADED; BACKUP_STARTED]
  | tt_no_secrets :
      tick_trace m (Ret tt) [CONFIG_RELOADED; BACKUP_STARTED; TICK_SKIPPED_DUE_TO_MISSING_SECRETS]
  | tt_snapshot_failed : tick_trace m (Ret tt) [CONFIG_RELOADED; BACKUP_STARTED; SNAPSHOT_FAILED]
  | tt_snapshot_crashed e :
      is_SnapshotError e = false → tick_trace m (Raise e) [CONFIG_RELOADED; BACKUP_STARTED]
  | tt_crashed ob e bs n :
      backup_trace ob bs → deletions_ok m n →
      tick_trace m (Raise e)
        ([CONFIG_RELOADED; BACKUP_STARTED; SNAPSHOT_CREATED] ++ bs ++ replicate n SNAPSHOT_DELETED)
  | tt_backup_failed n :
      deletions_ok m n →
      tick_trace m (Ret tt)
        ([CONFIG_RELOADED; BACKUP_STARTED; SNAPSHOT_CREATED; RESTIC_BACKUP_FAILED]
         ++ replicate n SNAPSHOT_DELETED)
  | tt_backup_ok n r ts :
      deletions_ok m n → tail_trace r ts →
      tick_trace m r
        ([CONFIG_RELOADED; BACKUP_STARTED; SNAPSHOT_CREATED; RESTIC_BACKUP_SUCCEEDED]
         ++ replicate n SNAPSHOT_DELETED ++ ts).

Section tick_facts.
Context `{Host} `{TomlLib} `{HelperLib} `{PyRepr} `{Traceback}.

#[local] Ltac emits := apply traced_emit; [reflexivity | simpl].

Lemma quiet_restic args env t : stepwise quiet (run_restic args env t).
Proof. apply quiet_sub_run. Qed.

Lemma traced_deletions snap paths :
  traced (emit_deletions snap paths)
    (λ r ts, r = Ret tt ∧ ts = replicate (length paths) SNAPSHOT_DELETED).
Proof.
  unfold emit_deletions. induction paths as [|p paths IH]; simpl; [by apply traced_ret|].
  eapply traced_bind with (Q1 := λ r ts, r = Ret tt ∧ ts = [SNAPSHOT_DELETED]).
  - by emits.
  - intros [] ts [_ ->]. eapply traced_weaken; [apply IH|]. by intros r ts [-> ->].
  - by intros e ts [].
Qed.

(** Whether the taker can be built depends on the settings only. *)
Lemma make_snapshot_taker_Ret s m : make_snapshot_taker s = Ret m → m = method s.
Proof. unfold make_snapshot_taker. intros E. destruct (_require_paths _ _); by simplify_eq/=. Qed.

Lemma make_snapshot_taker_Raise s e : make_snapshot_taker s = Raise e → is_SnapshotError e = true.
Proof.
  unfold make_snapshot_taker, _require_paths. case_match; simpl; intros E; by simplify_eq/=.
Qed.

Lemma traced_check_secrets :
  traced _check_secrets_present (λ r ts,
    match r with
    | Ret (Some env) => ts = [] ∧ missing_required_restic_keys env = []
    | Ret None => ts = [TICK_SKIPPED_DUE_TO_MISSING_SECRETS]
    | Raise _ => ts = []
    end).
Proof.
  unfold _check_secrets_present. apply traced_bind_pure. intros loaded.
  apply traced_bind_quiet; [apply stepwise_lift; exact _ | | done]. intros env.
  destruct (missing_required_restic_keys env) as [|k ks] eqn:Ek; [by apply traced_ret|].
  eapply traced_bind with (Q1 := λ r ts, r = Ret tt ∧ ts = [TICK_SKIPPED_DUE_TO_MISSING_SECRETS]).
  - by emits.
  - intros [] ts [_ ->]. by apply traced_ret.
  - by intros e ts [].
Qed.

Lemma traced_take config :
  traced (_take_snapshot config) (λ r ts,
    match r with
    | Ret (Some _) => ts = [SNAPSHOT_CREATED] ∧ make_snapshot_taker (snapshot config) = Ret (method (snapshot config))
    | Ret None => ts = [SNAPSHOT_FAILED]
    | Raise e => ts = [] ∧ is_SnapshotError e = false
    end).
Proof.
  unfold _take_snapshot.
  eapply traced_bind with (Q1 := λ r ts,
    match r with
    | Ret (Some _) => ts = [] ∧ make_snapshot_taker (snapshot config) = Ret (method (snapshot config))
    | Ret None => ts = [SNAPSHOT_FAILED]
    | Raise e => ts = [] ∧ is_SnapshotError e = false
    end).
  - eapply traced_try with (Q1 := λ r ts, ts = [] ∧
      match r with
      | Ret (Some _) => make_snapshot_taker (snapshot config) = Ret (method (snapshot config))
      | Ret None => False
      | Raise e => True
      end).
    + destruct (make_snapshot_taker (snapshot config)) as [m|e] eqn:Em.
      * pose proof (make_snapshot_taker_Ret _ _ Em) as ->.
        apply (traced_bind_quiet (lift (Ret _))); [apply stepwise_lift; exact _ | | done].
        intros taker. apply traced_bind_quiet; [apply quiet_take | | done].
        intros r. by apply traced_ret.
      * apply (traced_quiet _ (λ r, r = Raise e)); [|by intros ? | by intros ? ->].
        apply stepwise_bind; [exact _ | apply stepwise_lift; exact _ |]. intros m.
        apply stepwise_bind; [exact _ | apply quiet_take | intros r; apply stepwise_ret; exact _].
    + by intros [r|] ts [-> HQ].
    + intros e ts He [-> _]. by destruct (is_SnapshotError e).
    + intros e k ts Hk [-> _]. destruct (is_SnapshotError e); [|done]. injection Hk as <-.
      eapply traced_bind with (Q1 := λ r ts, r = Ret tt ∧ ts = [SNAPSHOT_FAILED]).
      * by emits.
      * intros [] ts [_ ->]. by apply traced_ret.
      * by intros ? ts [].
  - intros [r|] ts HQ; [|subst ts; by apply traced_ret]. destruct HQ as [-> Hm].
    eapply traced_bind with (Q1 := λ r ts, r = Ret tt ∧ ts = [SNAPSHOT_CREATED]).
    + by emits.
    + intros [] ts [_ ->]. by apply traced_ret.
    + by intros ? ts [].
  - done.
Qed.

(** What a method's cleanup can return, and the exceptions it reports. *)
Lemma btrfs_cleanup_result s st d : (btrfs_cleanup s st).1 = Ret d → length d ≤ 1.
Proof.
  unfold btrfs_cleanup, mbind, M_bind. intros E.
  match type of E with context [match ?x with _ => _ end] => destruct x as [[ex|e] s1] end; [|done].
  destruct (delete_snapshot s s1) as [[[]|e] s2]; [|done]. destruct ex; simplify_eq/=; lia.
Qed.

Lemma delete_snapshot_exn s st m d f :
  (delete_snapshot s st).1 ≠ Raise (SnapshotCleanupError m d f).
Proof.
  unfold delete_snapshot. destruct (snapshot_current_path s) as [t|]; [|done].
  unfold observe, gets, mbind, M_bind. destruct (path_exists t _); simpl; [|done].
  unfold sub_run. destruct (run_cmd _ _ _ _) as [[[]|p] h]; simpl; [done|done|].
  by destruct (returncode p =? 0)%Z.
Qed.

Lemma btrfs_cleanup_exn s st m d f :
  (btrfs_cleanup s st).1 ≠ Raise (SnapshotCleanupError m d f).
Proof.
  unfold btrfs_cleanup, mbind, M_bind. intros E.
  destruct (snapshot_current_path s) as [t|]; simpl in E;
    match type of E with context [delete_snapshot s ?x] => pose proof (delete_snapshot_exn s x m d f);
      destruct (delete_snapshot s x) as [[[]|e] s2] end; simplify_eq/=; done.
Qed.

Lemma cleanup_counts m s st :
  match (cleanup_after_backup m s st).1 with
  | Ret d => deletions_ok m (length d)
  | Raise (SnapshotCleanupError _ d _) => deletions_ok m (S (length d))
  | Raise (SnapshotError _) => deletions_ok m 1
  | Raise _ => True
  end.
Proof.
  destruct m; simpl; [| |done].
  - destruct (btrfs_cleanup s st).1 as [d|e] eqn:E; [by eapply btrfs_cleanup_result|].
    destruct e; try done. by apply btrfs_cleanup_exn in E.
  - by destruct (outer_cleanup s st).1 as [d|[]].
Qed.

Lemma deletions_ok_0 m : deletions_ok m 0.
Proof. destruct m; simpl; auto. Qed.

Lemma traced_cleanup config snap :
  make_snapshot_taker (snapshot config) = Ret (method (snapshot config)) →
  traced (_cleanup_snapshot config snap) (λ r ts,
    ∃ n, deletions_ok (method (snapshot config)) n ∧ ts = replicate n SNAPSHOT_DELETED).
Proof.
  intros Hm. unfold _cleanup_snapshot. rewrite Hm.
  set (mth := method (snapshot config)).
  eapply traced_bind with (Q1 := λ r ts,
    match r with
    | Ret (Some d) => ts = [] ∧ deletions_ok mth (length d)
    | _ => ∃ n, deletions_ok mth n ∧ ts = replicate n SNAPSHOT_DELETED
    end).
  - eapply traced_try with (Q1 := λ r ts, ts = [] ∧
      match r with
      | Ret (Some d) => deletions_ok mth (length d)
      | Ret None => False
      | Raise (SnapshotCleanupError _ d _) => deletions_ok mth (S (length d))
      | Raise (SnapshotError _) => deletions_ok mth 1
      | Raise e => True
      end).
    + apply (traced_quiet _ (λ r, match r with
        | Ret (Some d) => deletions_ok mth (length d)
        | Ret None => False
        | Raise (SnapshotCleanupError _ d _) => deletions_ok mth (S (length d))
        | Raise (SnapshotError _) => deletions_ok mth 1
        | Raise e => True end)); [| |done].
      * apply stepwise_bind; [exact _ | apply stepwise_lift; exact _ |]. intros m.
        apply stepwise_bind; [exact _ | apply quiet_cleanup | intros r; apply stepwise_ret; exact _].
      * intros s. unfold lift, mbind, M_bind. pose proof (cleanup_counts mth (snapshot config) s) as Hc.
        by destruct (cleanup_after_backup mth (snapshot config) s) as [[d|e] s'].
    + by intros [d|] ts [-> Hd].
    + intros e ts He [-> _]. exists 0. split; [apply deletions_ok_0 | done].
    + intros e k ts Hk [-> Hd]. destruct e; simplify_eq.
      * eapply traced_bind with (Q1 := λ r ts, r = Ret tt ∧ ts = [SNAPSHOT_DELETED]).
        -- by emits.
        -- intros [] ts [_ ->]. apply traced_ret. by exists 1.
        -- by intros ? ts [].
      * eapply traced_bind; [apply traced_deletions | | by intros ? ? []].
        intros [] ts [_ ->].
        eapply traced_bind with (Q1 := λ r ts, r = Ret tt ∧ ts = [SNAPSHOT_DELETED]).
        -- by emits.
        -- intros [] ts [_ ->]. apply traced_ret. exists (S (length deleted)).
           split; [done|]. rewrite app_nil_r. change [SNAPSHOT_DELETED] with (replicate 1 SNAPSHOT_DELETED).
           rewrite app_nil_l, <- replicate_add. f_equal. lia.
        -- by intros ? ts [].
  - intros [d|] ts HQ.
    + destruct HQ as [-> Hd]. eapply traced_weaken; [apply traced_deletions|].
      intros r ts [-> ->]. eauto.
    + apply traced_ret. by rewrite app_nil_r.
  - by intros e ts HQ.
Qed.

Lemma traced_backup config snap env :
  traced (_run_restic_backup config snap env) backup_trace.
Proof.
  unfold _run_restic_backup. do 2 (apply traced_bind_pure; intros ?).
  apply traced_bind_quiet; [apply quiet_restic | | constructor]. intros result.
  apply traced_bind_pure; intros finish.
  destruct (negb (returncode result =? 0)%Z).
  - eapply traced_bind with (Q1 := λ r ts, r = Ret tt ∧ ts = [RESTIC_BACKUP_FAILED]).
    + by emits.
    + intros [] ts [_ ->]. apply traced_ret. constructor.
    + by intros ? ts [].
  - eapply traced_bind with (Q1 := λ r ts, r = Ret tt ∧ ts = [RESTIC_BACKUP_SUCCEEDED]).
    + by emits.
    + intros [] ts [_ ->]. apply traced_ret. constructor.
    + by intros ? ts [].
Qed.

Lemma traced_forget config env :
  traced (_run_forget config env) (λ r ts,
    match r with Ret _ => ts = [FORGET_COMPLETED] | Raise _ => ts = [] end).
Proof.
  unfold _run_forget. apply traced_bind_pure; intros start.
  apply traced_bind_quiet; [apply quiet_restic | | done]. intros result.
  apply traced_bind_pure; intros finish. by emits.
Qed.

Lemma quiet_touch : stepwise quiet _touch_prune_timestamp.
Proof.
  unfold _touch_prune_timestamp. apply stepwise_try; [exact _ | |].
  - apply stepwise_bind; [exact _ | apply quiet_os |]. intros _.
    apply stepwise_bind; [exact _ | apply quiet_observe |]. intros now. apply quiet_os.
  - intros e k. destruct e; intros E; simplify_eq. apply stepwise_ret; exact _.
Qed.

Lemma traced_run_prune env :
  traced (run_prune env) (λ r ts, ts = [PRUNE_COMPLETED] ∨ ts = [] ∧ is_Ret r = false).
Proof.
  unfold run_prune. apply traced_bind_pure; intros start.
  apply traced_bind_quiet; [apply quiet_restic | | by right]. intros result.
  apply traced_bind_pure; intros finish.
  eapply traced_bind with (Q1 := λ r ts, r = Ret tt ∧ ts = [PRUNE_COMPLETED]).
  - by emits.
  - intros [] ts [_ ->]. apply (traced_quiet _ (λ _, True)); [|done|by left].
    apply stepwise_when; [exact _ | apply quiet_touch].
  - by intros ? ts [].
Qed.

Lemma traced_tail config env :
  traced (_run_forget config env;; _maybe_run_prune config env) tail_trace.
Proof.
  eapply traced_bind; [apply traced_forget | | intros e ts ->; constructor].
  intros [] ts ->. unfold _maybe_run_prune. do 2 (apply traced_bind_pure; intros ?).
  assert (traced (run_prune env) (λ r ts2, tail_trace r ([FORGET_COMPLETED] ++ ts2))) as Hp.
  { eapply traced_weaken; [apply traced_run_prune|].
    intros r ts [-> | [-> Hr]]; [constructor|]. destruct r; [done | constructor]. }
  case_match; [|done]. case_match; [|done]. emits. constructor.
Qed.

(** The whole tick. *)
Lemma traced_tick config reason :
  traced (_run_one_tick config reason) (tick_trace (method (snapshot config))).
Proof.
  unfold _run_one_tick. do 2 (apply traced_bind_pure; intros ?).
  eapply traced_bind with (Q1 := λ r ts, r = Ret tt ∧ ts = [CONFIG_RELOADED]); [by emits | | by intros ? ? []].
  intros [] ts [_ ->].
  eapply traced_bind with (Q1 := λ r ts, r = Ret tt ∧ ts = [BACKUP_STARTED]); [by emits | | by intros ? ? []].
  intros [] ts [_ ->].
  eapply traced_bind; [apply traced_check_secrets | | intros e ts ->; constructor].
  intros [env|] ts Henv; [|subst ts; apply traced_ret; constructor].
  destruct Henv as [-> _].
  eapply traced_bind; [apply traced_take | | intros e ts [-> He]; by constructor].
  intros [snap|] ts Hsnap; [|subst ts; apply traced_ret; constructor].
  destruct Hsnap as [-> Hmk].
  eapply traced_bind with (Q1 := λ r ts, ∃ bs n r', ts = bs ++ replicate n SNAPSHOT_DELETED
     ∧ backup_trace r' bs ∧ deletions_ok (method (snapshot config)) n
     ∧ (r = r' ∨ is_Ret r = false)).
  - eapply traced_finally; [apply traced_backup|]. intros r ts Hb.
    eapply traced_weaken; [by apply traced_cleanup|].
    intros r' ts' (n & Hn & ->). exists ts, n, r. split_and!; auto. destruct r'; auto.
  - intros ok ts (bs & n & r' & -> & Hb & Hn & [<-|]); [|done].
    destruct ok; inv Hb; simpl.
    + eapply traced_weaken; [apply traced_tail|]. intros r ts Ht.
      by apply (tt_backup_ok _ n r ts).
    + apply traced_ret. rewrite app_nil_r. by apply (tt_backup_failed _ n).
  - intros e ts (bs & n & r' & -> & Hb & Hn & _). by apply (tt_crashed _ r').
Qed.
End tick_facts.

(** ** Well-formedness, termination and the loop *)
Section loop_facts.
Context `{Host} `{TomlLib} `{HelperLib} `{PyRepr} `{Traceback}.

#[local] Ltac grows_with known :=
  repeat lazymatch goal with
  | |- stepwise grows (mbind _ _) => apply stepwise_bind; [exact _ | | intros ?]
  | |- stepwise grows (mret _) => apply stepwise_ret; exact _
  | |- stepwise grows (lift _) => apply stepwise_lift; exact _
  | |- stepwise grows (gets _) => apply stepwise_gets; exact _
  | |- stepwise grows (observe _ _) => apply stepwise_gets; exact _
  | |- stepwise grows (emit _ _) => apply grows_emit; reflexivity
  | |- stepwise grows (run_restic _ _ _) => apply grows_quiet, quiet_restic
  | |- stepwise grows (take_snapshot _ _) => apply grows_quiet, quiet_take
  | |- stepwise grows (cleanup_after_backup _ _) => apply grows_quiet, quiet_cleanup
  | |- stepwise grows _touch_prune_timestamp => apply grows_quiet, quiet_touch
  | |- stepwise grows (for_each _ _) => apply stepwise_for; [exact _ | intros ?]
  | |- stepwise grows (when _ _) => apply stepwise_when; [exact _ | ]
  | |- stepwise grows (try_except _ _) =>
      apply stepwise_try; [exact _ | | intros ?e ?k ?Hk; destruct e; simplify_eq/=]
  | |- stepwise grows (try_finally _ _) => apply stepwise_finally; [exact _ | | ]
  | |- stepwise grows (match _ with _ => _ end) => case_match
  | |- stepwise grows _ => known
  end.

Lemma grows_check : stepwise grows _check_secrets_present.
Proof. unfold _check_secrets_present, observe. grows_with fail. Qed.
Lemma grows_take config : stepwise grows (_take_snapshot config).
Proof. unfold _take_snapshot. grows_with fail. Qed.
Lemma grows_cleanup config snap : stepwise grows (_cleanup_snapshot config snap).
Proof.
  unfold _cleanup_snapshot, emit_deletions, _emit_snapshot_deleted. grows_with fail.
Qed.
Lemma grows_backup config snap env : stepwise grows (_run_restic_backup config snap env).
Proof. unfold _run_restic_backup, backup. grows_with fail. Qed.
Lemma grows_forget config env : stepwise grows (_run_forget config env).
Proof. unfold _run_forget, forget. grows_with fail. Qed.
Lemma grows_prune config env : stepwise grows (_maybe_run_prune config env).
Proof. unfold _maybe_run_prune, run_prune, prune. grows_with fail. Qed.

Lemma grows_tick config reason : stepwise grows (_run_one_tick config reason).
Proof.
  unfold _run_one_tick, observe.
  grows_with ltac:(first [apply grows_check | apply grows_take | apply grows_cleanup
    | apply grows_backup | apply grows_forget | apply grows_prune]).
Qed.

Lemma halts_of_exn {A} (m : SM A) (P : exn → bool) :
  P OutOfFuel = false → (∀ s e, (m s).1 = Raise e → P e = true) → halts m.
Proof. intros HP Hm s E. apply Hm in E. congruence. Qed.

#[local] Ltac halts_with known :=
  repeat lazymatch goal with
  | |- halts (mbind _ _) => apply halts_bind; [ | intros ?]
  | |- halts (mret _) => apply halts_ret
  | |- halts (raise _) => apply halts_raise; done
  | |- halts (gets _) => apply halts_gets
  | |- halts (observe _ _) => apply halts_gets
  | |- halts (modify _) => apply halts_modify
  | |- halts (host_step _ _ _) => apply halts_modify
  | |- halts (sub_run _ _ _ _ _) => apply halts_sub_run
  | |- halts (os_call _ _ _) => apply halts_os
  | |- halts (fresh_uuid _ _) => apply halts_uuid
  | |- halts (emit _ _) => apply halts_emit; reflexivity
  | |- halts (for_each _ _) => apply halts_for; intros ?
  | |- halts (try_except _ _) =>
      apply halts_try; [ | intros ?e ?k ?Hk; destruct e; repeat case_match; simplify_eq]
  | |- halts (try_finally _ _) => apply halts_finally
  | |- halts (match _ with _ => _ end) => case_match
  | |- halts _ => known
  end.

Lemma halts_delete s : halts (delete_snapshot s).
Proof. unfold delete_snapshot. halts_with fail. Qed.

Lemma halts_request `{!HostLaws _} s op id t : halts (_do_request s op id t).
Proof. intros st. apply do_request_terminates. Qed.

Lemma halts_need p : halts (need_path p).
Proof. by intros s; destruct p. Qed.

Lemma halts_take `{!HostLaws _} m s : halts (take_snapshot m s).
Proof.
  destruct m; simpl; unfold btrfs_take_snapshot, outer_take_snapshot, _iso_now, direct_take_snapshot;
    halts_with ltac:(first [apply halts_delete | apply halts_request | apply halts_need]).
Qed.

Lemma halts_cleanup_after `{!HostLaws _} m s : halts (cleanup_after_backup m s).
Proof.
  destruct m; simpl; unfold btrfs_cleanup, outer_cleanup;
    halts_with ltac:(first [apply halts_delete | apply halts_need
      | intros st; apply delete_names_terminates]).
Qed.

Lemma load_restic_env_exn (h : host) e : load_restic_env h = Raise e → e ≠ OutOfFuel.
Proof. unfold load_restic_env. repeat case_match; intros; by simplify_eq. Qed.

Lemma load_backup_config_exn (h : host) e :
  load_backup_config h = Raise e → ∃ msg, e = BackupConfigError msg.
Proof. unfold load_backup_config. repeat case_match; intros; simplify_eq; eauto. Qed.

Lemma halts_tick `{!HostLaws _} config reason : halts (_run_one_tick config reason).
Proof.
  unfold _run_one_tick.
  assert (halts _check_secrets_present) as Hc.
  { intros s. unfold _check_secrets_present, observe, gets, lift. unfold mbind at 1, M_bind at 1.
    unfold mbind at 1, M_bind at 1. destruct (load_restic_env (sv_host s)) as [env|e] eqn:E.
    - match goal with |- (?m s).1 ≠ _ => assert (halts m) as Hm; [|apply Hm] end. halts_with fail.
    - simpl. intros [= ->]. by apply load_restic_env_exn in E. }
  unfold _take_snapshot, _cleanup_snapshot, _run_restic_backup, _run_forget, _maybe_run_prune,
    run_prune, _touch_prune_timestamp, emit_deletions, _emit_snapshot_deleted, when, backup, forget,
    prune, run_restic.
  halts_with ltac:(first [apply Hc | apply halts_take | apply halts_cleanup_after]).
  all: intros s0 E; unfold lift in E; simpl in E; apply make_snapshot_taker_Raise in E; done.
Qed.
End loop_facts.

(** ** Properties *)
Section properties.
Context `{Host} `{TomlLib} `{HelperLib} `{PyRepr} `{Traceback}.

(** C1: every tick that can write its log follows the documented sequence of
    events (configuration, start, then secrets, snapshot, backup, deletions,
    forget, prune, each step only after the one before it), in the same tick
    id and with the documented payload fields, on every way a tick can end. *)
Theorem tick_events config reason s :
  log_ready s →
  ∃ ts, sv_loop (_run_one_tick config reason s).2 = sv_loop s
    ∧ logged s (_run_one_tick config reason s).2 ts
    ∧ tick_trace (method (snapshot config)) (_run_one_tick config reason s).1 ts.
Proof. apply traced_tick. Qed.

(** A tick always ends: its polling loops are cut short by their own
    deadline, never by the bound of the model. *)
Theorem tick_terminates `{!HostLaws _} config reason s :
  (_run_one_tick config reason s).1 ≠ Raise OutOfFuel.
Proof. apply halts_tick. Qed.

(** A tick fires exactly when a configuration is known and either no tick
    has completed yet, or the minimum gap has elapsed and a watched file
    changed or the backup interval is over. *)
Theorem should_tick_iff state config bm em now :
  (_should_tick_now state config bm em now).1 = true ↔
  ∃ c, config = Some c ∧
    match last_tick_end_monotonic state with
    | None => True
    | Some t =>
        (minimum_backup_gap_seconds c <= now - t)%Q
        ∧ ((∃ a b, bm = Some a ∧ last_backup_toml_mtime state = Some b ∧ ~ (a == b)%Q)
           ∨ (∃ a b, em = Some a ∧ last_restic_env_mtime state = Some b ∧ ~ (a == b)%Q)
           ∨ (backup_interval_seconds c <= now - t)%Q)
    end.
Proof.
  assert (∀ new old : option Q,
    match new, old with Some a, Some b => negb (Qeq_bool a b) | _, _ => false end = true ↔
    ∃ a b, new = Some a ∧ old = Some b ∧ ~ (a == b)%Q) as Hch.
  { intros [a|] [b|]; split; try (done || intros (?&?&?&?&?); done).
    - intros Hn. exists a, b. split_and!; auto. intros E. apply Qeq_bool_iff in E.
      rewrite E in Hn. done.
    - intros (?&?&?&?&Hn). simplify_eq. destruct (Qeq_bool _ _) eqn:E; [|done].
      by apply Qeq_bool_iff in E. }
  unfold _should_tick_now. destruct config as [c|]; [|split; [done|by intros (?&?&?)]].
  destruct (last_tick_end_monotonic state) as [t|]; simpl; [|split; eauto].
  pose proof (Hch bm (last_backup_toml_mtime state)) as Hb.
  pose proof (Hch em (last_restic_env_mtime state)) as He.
  destruct (Qltb _ _) eqn:Eg.
  - split; [done|]. intros (c' & [= <-] & Hge & _). apply Qltb_lt in Eg. exfalso. lra.
  - apply Qltb_ge in Eg.
    destruct (match bm with Some _ => _ | None => _ end); simpl;
      [split; [|done]; intros _; exists c; split_and!; auto; left; by apply Hb|].
    destruct (match em with Some _ => _ | None => _ end); simpl;
      [split; [|done]; intros _; exists c; split_and!; auto; right; left; by apply He|].
    destruct (Qle_bool _ _) eqn:E3; simpl; split; try done.
    + intros _. exists c. split_and!; auto. right. right. by apply Qle_bool_iff.
    + intros (c' & [= <-] & _ & [Hx|[Hx|Hx]]).
      * by apply Hb.
      * by apply He.
      * apply Qle_bool_iff in Hx. congruence.
Qed.

(** Within the minimum gap after a tick, an iteration runs nothing: it
    remembers the configuration it read, sleeps the poll interval and leaves
    log and tick state alone. *)
Theorem iteration_min_gap s c t :
  load_backup_config (sv_host s) = Ret c →
  last_tick_end_monotonic (sv_loop s) = Some t →
  (monotonic (sv_host s) - t < minimum_backup_gap_seconds c)%Q →
  _service_iteration s =
    (Ret tt, set_host (sleep (config_poll_interval_seconds c) (sv_host s))
               (set_loop (with_config c (sv_loop s)) s)).
Proof.
  intros Hc Ht Hgap. unfold _service_iteration, _safe_load_config, observe, gets, modify, mbind, M_bind.
  rewrite Hc. simpl. unfold _should_tick_now. simpl. rewrite Ht.
  assert (Qltb (monotonic (sv_host s) - t) (minimum_backup_gap_seconds c) = true) as ->
    by by apply Qltb_lt.
  done.
Qed.

(** When [backup.toml] cannot be loaded the last good configuration stays
    in force, and nothing is logged. *)
Theorem unreadable_config_keeps_last s :
  is_Ret (load_backup_config (sv_host s)) = false →
  _safe_load_config s = (Ret (last_known_config (sv_loop s)), s).
Proof.
  unfold _safe_load_config, observe, gets, mbind, M_bind.
  destruct (load_backup_config (sv_host s)) as [|e] eqn:E; [done|]. intros _.
  by apply load_backup_config_exn in E as [msg ->].
Qed.

(** The loop survives every failure of an iteration: it logs one
    [TICK_ERROR] for the current tick, sleeps the safety gap and goes on; only
    [KeyboardInterrupt] ends it. *)
Theorem loop_survives s :
  match _service_iteration s with
  | (Ret _, s1) => loop_turn s = (Ret false, s1)
  | (Raise KeyboardInterrupt, s1) => loop_turn s = (Ret true, s1)
  | (Raise e, s1) =>
      ∃ s2 h, loop_turn s = (Ret false, s2)
        ∧ sv_host s2 = sleep (_max_safe_gap (sv_loop s1)) h
        ∧ sv_loop s2 = sv_loop s1
        ∧ (log_ready s1 → logged s1 s2 [TICK_ERROR])
  end.
Proof.
  unfold loop_turn, try_except.
  destruct (_service_iteration s) as [[[]|e] s1] eqn:Es;
    [by rewrite (M_bind_ret _ _ _ _ _ Es)|].
  assert (∀ e, ∃ s2 h,
    (_emit_tick_error e;; gap ← gets (λ s : svc, _max_safe_gap (sv_loop s));
       host_step sv_host set_host (sleep gap);; mret false) s1 = (Ret false, s2)
    ∧ sv_host s2 = sleep (_max_safe_gap (sv_loop s1)) h
    ∧ sv_loop s2 = sv_loop s1 ∧ (log_ready s1 → logged s1 s2 [TICK_ERROR])) as Hrec.
  { intros e'. unfold _emit_tick_error, mbind, M_bind.
    match goal with |- context [emit TICK_ERROR ?f s1] =>
      destruct (emit_spec TICK_ERROR f s1 eq_refl) as (s2 & -> & Hl & _ & Hlog) end.
    do 2 eexists. split_and!; [reflexivity | simpl; by rewrite Hl | done |].
    intros Hr. destruct (Hlog Hr) as (evs & E & F). by exists evs. }
  destruct e; rewrite (M_bind_raise _ _ _ _ _ Es); first [done | apply (Hrec _)].
Qed.

(** The content of a [SNAPSHOT_DELETED] event. *)
Definition deletion_report (e : dict) : option (pystr * bool * pystr) :=
  match dget "snapshot_path" e, dget "success" e, dget "error_message" e with
  | Some (JStr p), Some (JBool ok), Some (JStr msg) => Some (p, ok, msg)
  | _, _, _ => None
  end.

(** A run that reports exactly [l], in order. *)
Definition reports (s s' : svc) (l : list (pystr * bool * pystr)) : Prop :=
  sv_loop s' = sv_loop s ∧
  ∃ evs, sv_log s' = sv_log s ++ evs ∧ map deletion_report evs = map Some l.

Lemma reports_nil s s' : quiet s s' → reports s s' [].
Proof. intros [Hlog Hl]. split; [done|]. exists []. by rewrite app_nil_r. Qed.

Lemma reports_app s1 s2 s3 l1 l2 : reports s1 s2 l1 → reports s2 s3 l2 → reports s1 s3 (l1 ++ l2).
Proof.
  intros [E1 (v1 & L1 & R1)] [E2 (v2 & L2 & R2)]. split; [congruence|]. exists (v1 ++ v2).
  rewrite L2, L1, <- app_assoc, !map_app. by rewrite R1, R2.
Qed.

Lemma reports_one snap p ok msg s :
  log_ready s → ∃ s', _emit_snapshot_deleted snap p ok msg s = (Ret tt, s') ∧ reports s s' [(p, ok, msg)].
Proof.
  intros Hs. unfold _emit_snapshot_deleted.
  match goal with |- context [emit SNAPSHOT_DELETED ?f s] =>
    destruct (emit_log SNAPSHOT_DELETED f s eq_refl) as (s' & ts & id & -> & Hl & _ & Hlog) end.
  exists s'. split; [done|]. split; [done|]. eexists. split; [by apply Hlog|]. done.
Qed.

Lemma reports_deletions snap paths s :
  log_ready s → ∃ s', emit_deletions snap paths s = (Ret tt, s')
    ∧ reports s s' (map (λ p, (p, true, [])) paths).
Proof.
  revert s. induction paths as [|p paths IH]; intros s Hs.
  { exists s. split; [done|]. by apply reports_nil. }
  destruct (reports_one snap p true [] s Hs) as (s1 & E1 & R1).
  destruct (IH s1) as (s2 & E2 & R2); [eapply log_ready_loop; [apply R1|done]|].
  exists s2. split; [|by apply (reports_app s s1 s2 [_])].
  unfold emit_deletions in *. simpl. by rewrite (M_bind_ret _ _ _ _ _ E1).
Qed.

(** The log accounts for the cleanup exactly: one successful deletion event
    per deleted snapshot, in order, then, if the helper refused one, a failure
    event that names it; any other snapshot error is one failure event. *)
Theorem cleanup_reports config snap s :
  log_ready s →
  make_snapshot_taker (snapshot config) = Ret (method (snapshot config)) →
  let done_ := map (λ p : pystr, (p, true, [] : pystr)) in
  match (cleanup_after_backup (method (snapshot config)) (snapshot config) s).1,
        _cleanup_snapshot config snap s with
  | Ret d, (r, s') => r = Ret tt ∧ reports s s' (done_ d)
  | Raise (SnapshotCleanupError msg d failed), (r, s') =>
      r = Ret tt ∧ reports s s' (done_ d ++ [(failed, false, msg)])
  | Raise (SnapshotError msg), (r, s') =>
      r = Ret tt ∧ reports s s' [(sr_snapshot_path snap, false, msg)]
  | Raise e, (r, s') => r = Raise e ∧ reports s s' []
  end.
Proof.
  intros Hs Hm. simpl. unfold _cleanup_snapshot. rewrite Hm.
  set (mth := method (snapshot config)).
  pose proof (quiet_cleanup mth (snapshot config) s) as Hq.
  unfold try_except, lift, mbind, M_bind.
  destruct (cleanup_after_backup mth (snapshot config) s) as [[d|e] s1]; simpl in Hq |- *;
    apply reports_nil in Hq;
    assert (log_ready s1) as Hs1 by (eapply log_ready_loop; [apply Hq | done]).
  - destruct (reports_deletions snap d s1 Hs1) as (s2 & -> & R). split; [done|].
    by apply (reports_app _ _ _ [] _ Hq).
  - destruct e; simpl; try by split.
    + destruct (reports_one snap (sr_snapshot_path snap) false msg s1 Hs1) as (s2 & -> & R).
      split; [done|]. by apply (reports_app _ _ _ [] _ Hq).
    + destruct (reports_deletions snap deleted s1 Hs1) as (s2 & -> & R2).
      assert (log_ready s2) as Hs2 by (eapply log_ready_loop; [apply R2 | done]).
      destruct (reports_one snap failed_target false msg s2 Hs2) as (s3 & -> & R3).
      split; [done|]. apply (reports_app _ _ _ [] _ Hq). by apply (reports_app _ s2).
Qed.

(** ** The log of a run *)

Definition well_formed_event (e : dict) : Prop := ∃ tick t, conforms tick t e.
Definition log_ok (s : svc) : Prop := Forall well_formed_event (sv_log s).

Lemma grows_log_ok s s' : grows s s' → log_ok s → log_ok s'.
Proof.
  intros [_ (ts & evs & E & F)] Hs. unfold log_ok. rewrite E. apply Forall_app. split; [done|].
  clear -F. induction F; constructor; [by do 2 eexists | done].
Qed.

Definition keeps_log (s s' : svc) : Prop := log_ok s → log_ok s'.

#[local] Instance keeps_log_preorder : PreOrder keeps_log.
Proof. split; unfold keeps_log; [by intros s | naive_solver]. Qed.

Lemma keeps_grows {A} (m : SM A) : stepwise grows m → stepwise keeps_log m.
Proof. intros Hm s Hs. eapply grows_log_ok; [apply Hm | done]. Qed.

Lemma keeps_quiet {A} (m : SM A) : stepwise quiet m → stepwise keeps_log m.
Proof. intros Hm. by apply keeps_grows, grows_quiet. Qed.

Lemma keeps_gets {A} (f : svc → A) : stepwise keeps_log (gets f).
Proof. by intros s Hs. Qed.

Lemma keeps_sleep d : stepwise keeps_log (host_step sv_host set_host (sleep d)).
Proof. by intros s Hs. Qed.

Lemma keeps_log_iteration : stepwise keeps_log _service_iteration.
Proof.
  assert (stepwise keeps_log _safe_load_config) as Hcfg.
  { intros s. unfold _safe_load_config, observe, gets, modify, raise, mbind, M_bind, keeps_log, log_ok. simpl.
    destruct (load_backup_config (sv_host s)) as [c|[]]; done. }
  unfold _service_iteration.
  apply stepwise_bind; [exact _ | exact Hcfg | intros config].
  do 4 (apply stepwise_bind; [exact _ | apply keeps_gets | intros ?]).
  destruct (_should_tick_now _ _ _ _ _) as [[] reason]; simpl; [|apply keeps_sleep].
  apply stepwise_bind; [exact _ | apply keeps_quiet, quiet_uuid | intros id].
  apply stepwise_bind; [exact _ | by intros s Hs | intros _].
  destruct config as [c|]; [|apply keeps_sleep].
  apply stepwise_bind; [exact _ | apply keeps_grows, grows_tick | intros _].
  apply stepwise_bind; [exact _ | apply keeps_gets | intros ?].
  by intros s Hs.
Qed.

Lemma keeps_log_turn : stepwise keeps_log loop_turn.
Proof.
  unfold loop_turn. apply stepwise_try; [exact _ | |].
  - apply stepwise_bind; [exact _ | apply keeps_log_iteration | intros _; by intros s Hs].
  - intros e k Hk. assert (∀ e', stepwise keeps_log (_emit_tick_error e';;
      gap ← gets (λ s : svc, _max_safe_gap (sv_loop s));
      host_step sv_host set_host (sleep gap);; mret false)) as Hrec.
    { intros e'. apply stepwise_bind; [exact _ | by apply keeps_grows, grows_emit | intros _].
      by intros s Hs. }
    destruct e; injection Hk as <-; first [apply (Hrec _) | by intros s Hs].
Qed.

(** Whatever happens over any number of turns, the loop never raises, and
    every line of the event log has the envelope and exactly the documented
    payload keys of its type. *)
Theorem run_log_well_formed n h :
  is_Ret (_run_loop n (boot h)).1 = true ∧ log_ok (_run_loop n (boot h)).2.
Proof.
  assert (log_ok (boot h)) as Hs by constructor. revert Hs. generalize (boot h) as s.
  induction n as [|n IH]; intros s Hs; [done|]. simpl.
  pose proof (keeps_log_turn s Hs) as Hs'.
  pose proof (loop_survives s) as Hr.
  assert (∃ b, (loop_turn s).1 = Ret b) as [b Hb].
  { destruct (_service_iteration s) as [[[]|e] s1]; [by rewrite Hr; eexists|].
    destruct e; first [by rewrite Hr; eexists | destruct Hr as (?&?&->&_); by eexists]. }
  unfold mbind, M_bind. destruct (loop_turn s) as [r s1]; simpl in *. subst r.
  destruct b; [done | by apply IH].
Qed.
End properties.

(** ** Concrete runs *)
Module Demo.
#[export] Instance repr : PyRepr := {| str_repr s := s; float_repr _ := [] |}.
#[export] Instance tb : Traceback := {| format_exception _ := [] |}.

Definition settings (m : SnapshotMethod) : SnapshotSettings := {|
  method := m; btrfs_mount_path := None;
  host_subvolume_path := Some (path_of "/mnt/sub");
  snapshot_current_path := Some (path_of "/mnt/snapshots/current");
  snapshot_read_path := Some (path_of "/read/snapshots/current");
  trigger_dir := Some (path_of "/trigger");
  outer_helper_timeout_seconds := 2; max_local_snapshots := 1 |}.

#[export] Instance toml : TomlLib := {|
  toml_loads _ := Some []; model_validate _ := Some (default_config (settings DIRECT));
  tomlkit_parse _ := None; tomlkit_dumps _ := [] |}.

(** Credentials on disk; every program succeeds. *)
Definition env_text : pystr := join [nl] [u "RESTIC_REPOSITORY=r"; u "RESTIC_PASSWORD=p"].
Definition healthy : Host := {|
  host := Q; monotonic h := h; wall_time h := h; utc_strftime f _ := f; utc_isoformat _ := [];
  sleep d h := (h + d)%Q; uuid4 h := (u "0", h);
  getenv _ _ := None; stat_mtime _ _ := None;
  path_exists _ _ := true;
  read_text p _ := Some (if p =? RESTIC_ENV_PATH then env_text else []);
  write_text _ _ h := (true, h); mkdir_p _ h := (true, h); rename _ _ h := (true, h);
  unlink _ h := (true, h); touch _ h := (true, h); listdir _ _ := Some [];
  append_ok _ _ := true;
  run_cmd _ _ _ h := (inr {| returncode := 0; stdout := []; stderr := [] |}, h) |}.

(** A helper that has answered the request [id0] and nothing else. *)
Definition stuck_helper : Host := {|
  host := Q * N; monotonic h := h.1; wall_time h := h.1; utc_strftime f _ := f;
  utc_isoformat _ := []; sleep d h := ((h.1 + d)%Q, h.2);
  uuid4 h := (u "id" ++ str_of_N h.2, (h.1, h.2 + 1)%N);
  getenv _ _ := None; stat_mtime _ _ := None; path_exists _ _ := false;
  read_text p _ := if p =? path_of "/trigger/result.json"
                   then Some (bq "{`request_id`: `id0`}") else None;
  write_text _ _ h := (true, h); mkdir_p _ h := (true, h); rename _ _ h := (true, h);
  unlink _ h := (true, h); touch _ h := (true, h);
  listdir _ _ := Some [u "2024-01-03T00:00:00.000000Z"; u "2024-01-01T00:00:00.000000Z";
                       u "lost+found"; u "2024-01-02T00:00:00.000000Z"];
  append_ok _ _ := true;
  run_cmd _ _ _ h := (inr {| returncode := 0; stdout := []; stderr := [] |}, h) |}.

#[export] Instance helper : HelperLib := {|
  helper_validate d :=
    id ← dget "request_id" d ≫= as_str;
    Some {| hr_request_id := id; hr_operation := []; hr_exit_code := 0; hr_stdout := [];
            hr_stderr := []; hr_snapshot_path := [] |} |}.

Definition loop0 : LoopState := {|
  events_dir := Some (path_of "/events"); last_backup_toml_mtime := None;
  last_restic_env_mtime := None; last_tick_end_monotonic := Some 0%Q;
  last_known_config := None; current_tick_id := u "t1" |}.

Definition st `{Host} (h : host) : svc := {| sv_loop := loop0; sv_host := h; sv_log := [] |}.

Lemma healthy_ready : log_ready (H := healthy) (st (H := healthy) 0%Q).
Proof. by exists (path_of "/events"). Qed.

Lemma stuck_ready : log_ready (H := stuck_helper) (st (H := stuck_helper) (0%Q, 0%N)).
Proof. by exists (path_of "/events"). Qed.

Lemma healthy_laws : HostLaws healthy.
Proof. constructor. intros d h. simpl. lra. Qed.
End Demo.
Import Demo.

(** A healthy tick without snapshots, event by event. *)
Example demo_tick :
  map event_type (sv_log (_run_one_tick (H := healthy) (default_config (settings DIRECT))
    "startup" (st (H := healthy) 0%Q)).2)
  = map Some [CONFIG_RELOADED; BACKUP_STARTED; SNAPSHOT_CREATED; RESTIC_BACKUP_SUCCEEDED;
              FORGET_COMPLETED; PRUNE_COMPLETED].
Proof. vm_compute. reflexivity. Qed.

Lemma tick_events_witness :
  log_ready (H := healthy) (st (H := healthy) 0%Q) ∧
  ∃ ts, sv_loop (_run_one_tick (H := healthy) (default_config (settings DIRECT)) "startup" (st (H := healthy) 0%Q)).2 = loop0
    ∧ logged (H := healthy) (st (H := healthy) 0%Q)
        (_run_one_tick (H := healthy) (default_config (settings DIRECT)) "startup" (st (H := healthy) 0%Q)).2 ts
    ∧ tick_trace DIRECT
        (_run_one_tick (H := healthy) (default_config (settings DIRECT)) "startup" (st (H := healthy) 0%Q)).1 ts.
Proof.
  split; [apply healthy_ready|].
  exact (tick_events (H := healthy) (default_config (settings DIRECT)) "startup" (st (H := healthy) 0%Q) healthy_ready).
Defined.

Lemma tick_terminates_witness :
  (_run_one_tick (H := stuck_helper) (default_config (settings OUTER_TRIGGER)) "startup"
     (st (H := stuck_helper) (0%Q, 0%N))).1 ≠ Raise OutOfFuel.
Proof.
  apply (tick_terminates (H := stuck_helper) (HostLaws0 := ltac:(constructor; intros d h; simpl; lra))).
Defined.

Lemma iteration_min_gap_witness :
  (monotonic (Host := healthy) 10%Q - 0 < 60)%Q ∧
  (_service_iteration (H := healthy) (st (H := healthy) 10%Q)).1 = Ret tt ∧
  sv_log (_service_iteration (H := healthy) (st (H := healthy) 10%Q)).2 = [].
Proof.
  split; [simpl; lra|].
  rewrite (iteration_min_gap (H := healthy) (H0 := toml) (st (H := healthy) 10%Q) (default_config (settings DIRECT)) 0%Q
    ltac:(vm_compute; reflexivity) eq_refl ltac:(simpl; lra)).
  by split.
Defined.

Lemma unreadable_config_witness :
  _safe_load_config (H := stuck_helper) (st (H := stuck_helper) (0%Q, 0%N))
  = (Ret None, st (H := stuck_helper) (0%Q, 0%N)).
Proof.
  apply (unreadable_config_keeps_last (H := stuck_helper) (H0 := toml) (st (H := stuck_helper) (0%Q, 0%N))).
  vm_compute. reflexivity.
Defined.

Definition demo_snapshot : SnapshotResult := {|
  sr_method := OUTER_TRIGGER; sr_snapshot_path := u "/mnt/snapshots/fresh";
  sr_read_path := path_of "/read/snapshots/fresh"; sr_duration_seconds := 0;
  sr_helper_exit_code := None; sr_helper_stdout := []; sr_helper_stderr := [] |}.

Lemma cleanup_reports_witness :
  ∃ s', _cleanup_snapshot (H := healthy) (default_config (settings OUTER_TRIGGER)) demo_snapshot
          (st (H := healthy) 0%Q) = (Ret tt, s')
    ∧ reports (H := healthy) (st (H := healthy) 0%Q) s' [].
Proof.
  pose proof (cleanup_reports (H := healthy) (default_config (settings OUTER_TRIGGER)) demo_snapshot
    (st (H := healthy) 0%Q) healthy_ready ltac:(vm_compute; reflexivity)) as HR.
  cbv zeta in HR.
  destruct (_cleanup_snapshot _ _ _) as [r s'].
  assert ((cleanup_after_backup (H := healthy) OUTER_TRIGGER (settings OUTER_TRIGGER)
    (st (H := healthy) 0%Q)).1 = Ret []) as E by (vm_compute; reflexivity).
  change (method (snapshot (default_config (settings OUTER_TRIGGER)))) with OUTER_TRIGGER in HR.
  change (snapshot (default_config (settings OUTER_TRIGGER))) with (settings OUTER_TRIGGER) in HR.
  rewrite E in HR. destruct HR as [-> HR]. eauto.
Defined.

(** A keep-N cleanup that times out part-way loses its account.  With two
    surplus snapshots, the oldest deleted and the second request never
    answered, the log holds a single failure event that names the snapshot
    just taken: the deletion that succeeded is not reported, and the snapshot
    named is not the one whose deletion failed. *)
Theorem timed_out_cleanup_misreports :
  let s := _cleanup_snapshot (H := stuck_helper) (default_config (settings OUTER_TRIGGER)) demo_snapshot
             (st (H := stuck_helper) (0%Q, 0%N)) in
  s.1 = Ret tt
  ∧ surplus 1 (_list_snapshot_names (H := stuck_helper) (path_of "/read/snapshots") (0%Q, 0%N))
    = [u "2024-01-01T00:00:00.000000Z"; u "2024-01-02T00:00:00.000000Z"]
  ∧ map (option_map (λ r, (r.1.1, r.1.2)) ∘ deletion_report) (sv_log s.2)
    = [Some (u "/mnt/snapshots/fresh", false)].
Proof. vm_compute. split_and!; reflexivity. Qed.

Lemma outer_cleanup_witness :
  let st := st (H := stuck_helper) (0%Q, 0%N) in
  let names := _list_snapshot_names (H := stuck_helper) (path_of "/read/snapshots") (0%Q, 0%N) in
  names = surplus 1 names ++ [u "2024-01-03T00:00:00.000000Z"].
Proof.
  intros st names.
  exact (proj1 (outer_cleanup_keeps_newest (H := stuck_helper) (settings OUTER_TRIGGER)
    (path_of "/read/snapshots/current") (path_of "/mnt/snapshots/current") st eq_refl eq_refl)).
Defined.
