(* ===== verification/BackupCli.v ===== *)
(** * host_backup: the [host-backup-now] command

    [libs/host_backup/src/host_backup/cli.py]: wait for the tick in flight,
    touch [backup.toml], wait for the next completion in the event log.  The
    byte offsets the command reads from and the decoding of what it reads are
    modelled; the file system is [Host] with the byte-level calls of
    [FileBytes]. *)

From Stdlib Require Import NArith ZArith QArith Qround Lqa Lia.
From S2P Require Import Prelude PyStr PyJson PyPath PyMonad PyBytes Host BackupConfig BackupEvents BackupSnapshot BackupRunner.
From stdpp Require Import options.
#[global] Open Scope nat_scope.
#[local] Open Scope py_scope.

Class FileBytes `{Host} := {
  (** [path.stat().st_size]; [None] is [OSError] *)
  file_size : path → host → option N;
  (** the bytes from an offset on, at most so many; [None] is [OSError] *)
  read_bytes : path → N → N → host → option bytes;
  (** [os.utime(path, (t, t))]; [false] is [OSError] *)
  utime : path → Q → host → bool * host }.

(** ** Reading the log *)

Definition is_finished_type (v : json) : bool :=
  existsb (λ t, jeqs v (event_value t))
    [RESTIC_BACKUP_SUCCEEDED; RESTIC_BACKUP_FAILED; TICK_SKIPPED_DUE_TO_MISSING_SECRETS; TICK_ERROR].

Definition is_completion (event : dict) : bool :=
  existsb (λ t, jeqs (jget "type" event) (event_value t)) [RESTIC_BACKUP_SUCCEEDED; RESTIC_BACKUP_FAILED].

(** What one line says: the tick it starts ([inl]) or finishes ([inr]). *)
Definition line_verdict (raw : pystr) : option (pystr + pystr) :=
  event ← loads raw ≫= as_dict;
  if negb (jeqs (jget "source" event) BACKUP_EVENT_SOURCE) then None
  else
    tick_id ← dget "tick_id" event ≫= as_str;
    if jeqs (jget "type" event) (event_value BACKUP_STARTED) then Some (inl tick_id)
    else if is_finished_type (jget "type" event) then Some (inr tick_id) else None.

(** The two sets of the scan, line by line. *)
Definition scan_step (acc : gset pystr * gset pystr) (raw : pystr) : gset pystr * gset pystr :=
  match line_verdict raw with
  | Some (inl t) => ({[t]} ∪ acc.1, acc.2)
  | Some (inr t) => (acc.1, {[t]} ∪ acc.2)
  | None => acc
  end.

Definition scan_lines (max_lines : nat) (lines : list pystr) : gset pystr :=
  let '(started, finished) := fold_left scan_step (last_n max_lines lines) (∅, ∅) in
  started ∖ finished.

Section cli.
Context `{Host} `{!FileBytes}.

Abbreviation obs f := (observe (λ h : host, h) f).
Abbreviation hset := (λ (h _ : host), h).

Definition _scan_for_inflight_tick_ids (events_path : path) (max_lines : nat) (h : host) : gset pystr :=
  if negb (path_exists events_path h) then ∅
  else match read_text events_path h with
       | None => ∅
       | Some text => scan_lines max_lines (splitlines text)
       end.

Definition _safe_file_size (p : path) (h : host) : N := default 0%N (file_size p h).

Definition events_of_text (text : pystr) : list dict :=
  omap (λ line, if strip line =? [] then None else loads line ≫= as_dict) (splitlines text).

Definition _read_new_events (events_path : path) (last_size new_size : N) (h : host) : list dict :=
  match read_bytes events_path last_size (new_size - last_size) h with
  | None => []
  | Some blob => events_of_text (decode_replace blob)
  end.

Definition DEFAULT_TIMEOUT_SECONDS : Q := 1800.
Definition _POLL_INTERVAL_SECONDS : Q := 1 # 2.

Definition _bump_config_mtime : M host unit :=
  ex ← obs (path_exists BACKUP_TOML_PATH);
  if negb ex then
    os_call (λ h, h) hset (mkdir_p (parent BACKUP_TOML_PATH));;
    os_call (λ h, h) hset (touch BACKUP_TOML_PATH)
  else
    now ← obs wall_time;
    os_call (λ h, h) hset (utime BACKUP_TOML_PATH now).

(** The ticks an event finishes are no longer pending. *)
Definition discard (pending : gset pystr) (event : dict) : gset pystr :=
  match dget "tick_id" event ≫= as_str with
  | Some t => if is_finished_type (jget "type" event) then pending ∖ {[t]} else pending
  | None => pending
  end.

Fixpoint wait_inflight (fuel : nat) (events_path : path) (deadline : Q)
    (last_size : N) (pending : gset pystr) : M host (gset pystr) :=
  if decide (pending = ∅) then mret pending
  else match fuel with
  | O => raise OutOfFuel
  | S f =>
      now ← obs monotonic;
      if Qle_bool deadline now then mret pending
      else
        new_size ← obs (_safe_file_size events_path);
        if (last_size <? new_size)%N then
          events ← obs (_read_new_events events_path last_size new_size);
          modify (sleep _POLL_INTERVAL_SECONDS);;
          wait_inflight f events_path deadline new_size (fold_left discard events pending)
        else
          modify (sleep _POLL_INTERVAL_SECONDS);;
          wait_inflight f events_path deadline last_size pending
  end.

(** The half-second rounds up to a deadline. *)
Definition rounds (deadline now : Q) : nat := S (Z.to_nat (Qceiling (2 * (deadline - now)))).

Definition _wait_for_no_inflight_backup (events_path : path) (initial_size : N) (deadline : Q)
    : M host (gset pystr) :=
  pending ← obs (_scan_for_inflight_tick_ids events_path 200);
  now ← obs monotonic;
  wait_inflight (rounds deadline now) events_path deadline initial_size pending.

Fixpoint wait_completion (fuel : nat) (events_path : path) (deadline : Q) (last_size : N)
    : M host (option dict) :=
  match fuel with
  | O => raise OutOfFuel
  | S f =>
      now ← obs monotonic;
      if negb (Qltb now deadline) then mret None
      else
        new_size ← obs (_safe_file_size events_path);
        events ← obs (λ h, if (last_size <? new_size)%N
                           then _read_new_events events_path last_size new_size h else []);
        match List.find is_completion events with
        | Some event => mret (Some event)
        | None =>
            modify (sleep _POLL_INTERVAL_SECONDS);;
            wait_completion f events_path deadline
              (if (last_size <? new_size)%N then new_size else last_size)
        end
  end.

Definition _wait_for_next_completion (events_path : path) (initial_size : N) (deadline : Q)
    : M host (option dict) :=
  now ← obs monotonic;
  wait_completion (rounds deadline now) events_path deadline initial_size.

(** The exit code, and the event printed. *)
Definition backup_now_main (timeout_seconds : Q) : M host (Z * option dict) :=
  dir ← obs get_events_dir;
  match dir with
  | None => mret (2%Z, None)
  | Some events_dir =>
      let events_path := child events_dir "events.jsonl" in
      now ← obs monotonic;
      let deadline := (now + timeout_seconds)%Q in
      initial_size ← obs (_safe_file_size events_path);
      _wait_for_no_inflight_backup events_path initial_size deadline;;
      _bump_config_mtime;;
      size ← obs (_safe_file_size events_path);
      completion ← _wait_for_next_completion events_path size deadline;
      match completion with
      | None => mret (2%Z, None)
      | Some c =>
          mret (if jeqs (jget "type" c) (event_value RESTIC_BACKUP_SUCCEEDED) then 0%Z else 1%Z, Some c)
      end
  end.
End cli.

(** ** Facts *)

Lemma scan_fold lines s f t :
  (t ∈ (fold_left scan_step lines (s, f)).1 ↔
     t ∈ s ∨ ∃ l, l ∈ lines ∧ line_verdict l = Some (inl t)) ∧
  (t ∈ (fold_left scan_step lines (s, f)).2 ↔
     t ∈ f ∨ ∃ l, l ∈ lines ∧ line_verdict l = Some (inr t)).
Proof.
  revert s f. induction lines as [|l lines IH]; intros s f; simpl; [set_solver|].
  destruct (scan_step (s, f) l) as [s' f'] eqn:E.
  assert ((t ∈ s' ↔ t ∈ s ∨ line_verdict l = Some (inl t)) ∧
          (t ∈ f' ↔ t ∈ f ∨ line_verdict l = Some (inr t))) as [Hs Hf].
  { unfold scan_step in E. destruct (line_verdict l) as [[t'|t']|]; simplify_eq/=; set_solver. }
  destruct (IH s' f') as [-> ->]. rewrite Hs, Hf. setoid_rewrite elem_of_cons. naive_solver.
Qed.

Lemma scan_lines_elem n lines t :
  t ∈ scan_lines n lines ↔
    (∃ l, l ∈ last_n n lines ∧ line_verdict l = Some (inl t)) ∧
    ¬ (∃ l, l ∈ last_n n lines ∧ line_verdict l = Some (inr t)).
Proof.
  unfold scan_lines. destruct (scan_fold (last_n n lines) ∅ ∅ t) as [Hs Hf].
  destruct (fold_left scan_step (last_n n lines) (∅, ∅)) as [s f]. simpl in *.
  rewrite elem_of_difference, Hs, Hf. set_solver.
Qed.

Section cli_facts.
Context `{Host} `{!FileBytes}.

Lemma wait_inflight_spec fuel p deadline sz pending h :
  match wait_inflight fuel p deadline sz pending h with
  | (Ret rest, h') => rest ⊆ pending ∧ (rest = ∅ ∨ (deadline <= monotonic h')%Q)
  | (Raise e, _) => e = OutOfFuel
  end.
Proof.
  revert sz pending h. induction fuel as [|f IH]; intros sz pending h; simpl;
    (destruct (decide (pending = ∅)); [simpl; auto|]); [done|].
  unfold observe, gets, mbind, M_bind. destruct (Qle_bool deadline _) eqn:Eq; simpl.
  { apply Qle_bool_iff in Eq. auto. }
  destruct (_ <? _)%N; simpl.
  - match goal with |- context [wait_inflight f p deadline ?a ?b ?c] =>
      specialize (IH a b c); destruct (wait_inflight f p deadline a b c) as [[l|e] h'] end; [|done].
    destruct IH as [Hsub ?]. split; [|done]. etrans; [exact Hsub|].
    clear. generalize (_read_new_events p sz (_safe_file_size p h) h) as evs.
    intros evs. revert pending. induction evs as [|e evs IH]; intros pending; simpl; [done|].
    etrans; [apply IH|]. unfold discard. repeat case_match; set_solver.
  - match goal with |- context [wait_inflight f p deadline ?a ?b ?c] =>
      specialize (IH a b c); destruct (wait_inflight f p deadline a b c) as [[l|e] h'] end; done.
Qed.

(** Each round sleeps half a second. *)
Lemma round_step `{!HostLaws _} f deadline h :
  (2 * (deadline - monotonic h) <= inject_Z (Z.of_nat (S f)))%Q →
  (2 * (deadline - monotonic (sleep _POLL_INTERVAL_SECONDS h)) <= inject_Z (Z.of_nat f))%Q.
Proof.
  rewrite Nat2Z.inj_succ. unfold Z.succ. rewrite inject_Z_plus. change (inject_Z 1) with 1%Q.
  pose proof (sleep_monotonic _POLL_INTERVAL_SECONDS h) as Hs. unfold _POLL_INTERVAL_SECONDS in *. lra.
Qed.

Lemma rounds_enough deadline now :
  (2 * (deadline - now) <= inject_Z (Z.of_nat (Z.to_nat (Qceiling (2 * (deadline - now))))))%Q.
Proof.
  eapply Qle_trans; [apply Qle_ceiling|]. rewrite <- Zle_Qle. lia.
Qed.

Lemma wait_inflight_halts `{!HostLaws _} f p deadline sz pending h :
  (2 * (deadline - monotonic h) <= inject_Z (Z.of_nat f))%Q →
  (wait_inflight (S f) p deadline sz pending h).1 ≠ Raise OutOfFuel.
Proof.
  revert sz pending h. induction f as [|f IH]; intros sz pending h Hd;
    [|remember (S f) as k eqn:Ek]; cbn [wait_inflight];
    (case_decide; [done|]); unfold observe, gets, modify, mbind, M_bind;
    destruct (Qle_bool deadline _) eqn:Eq; try done.
  - exfalso. change (inject_Z (Z.of_nat 0)) with 0%Q in Hd.
    assert (deadline <= monotonic h)%Q as Hle%Qle_bool_iff by lra. congruence.
  - subst k. destruct (_ <? _)%N; apply IH, round_step, Hd.
Qed.

Lemma wait_completion_halts `{!HostLaws _} f p deadline sz h :
  (2 * (deadline - monotonic h) <= inject_Z (Z.of_nat f))%Q →
  (wait_completion (S f) p deadline sz h).1 ≠ Raise OutOfFuel.
Proof.
  revert sz h. induction f as [|f IH]; intros sz h Hd;
    [|remember (S f) as k eqn:Ek]; cbn [wait_completion];
    unfold observe, gets, modify, mbind, M_bind;
    destruct (negb (Qltb _ deadline)) eqn:Eq; try done;
    match goal with |- context [List.find ?a ?b] => destruct (List.find a b) end; try done.
  - exfalso. change (inject_Z (Z.of_nat 0)) with 0%Q in Hd. apply negb_false_iff, Qltb_lt in Eq. lra.
  - subst k. apply IH, round_step, Hd.
Qed.

Lemma wait_completion_event fuel p deadline sz h c h' :
  wait_completion fuel p deadline sz h = (Ret (Some c), h') → is_completion c = true.
Proof.
  revert sz h. induction fuel as [|f IH]; intros sz h; simpl; [done|].
  unfold observe, gets, modify, mbind, M_bind.
  destruct (negb _); [done|].
  match goal with |- context [List.find ?a ?b] => destruct (List.find a b) eqn:Ef end; [|apply IH].
  intros [= <- _]. apply find_some in Ef as [_ Ef]. exact Ef.
Qed.

Lemma bump_exn h : (_bump_config_mtime h).1 ≠ Raise OutOfFuel.
Proof.
  unfold _bump_config_mtime, os_call, observe, gets, mbind, M_bind.
  destruct (path_exists BACKUP_TOML_PATH h); simpl.
  - by destruct (utime BACKUP_TOML_PATH (wall_time h) h) as [[] h1].
  - destruct (mkdir_p (parent BACKUP_TOML_PATH) h) as [[] h1]; simpl; [|done].
    by destruct (touch BACKUP_TOML_PATH h1) as [[] h2].
Qed.

(** ** Properties *)

(** A tick counts as in flight exactly when one of the last lines of the
    log says it started and none of them says it finished. *)
Theorem inflight_iff p max_lines h text t :
  path_exists p h = true → read_text p h = Some text →
  t ∈ _scan_for_inflight_tick_ids p max_lines h ↔
    (∃ l, l ∈ last_n max_lines (splitlines text) ∧ line_verdict l = Some (inl t)) ∧
    ¬ (∃ l, l ∈ last_n max_lines (splitlines text) ∧ line_verdict l = Some (inr t)).
Proof.
  intros He Ht. unfold _scan_for_inflight_tick_ids. rewrite He, Ht. apply scan_lines_elem.
Qed.

(** The command always ends, within its deadline. *)
Theorem backup_now_terminates `{!HostLaws _} timeout h :
  (backup_now_main timeout h).1 ≠ Raise OutOfFuel.
Proof.
  unfold backup_now_main. unfold mbind at 1, M_bind at 1, observe, gets.
  destruct (get_events_dir h) as [dir|]; [|done].
  unfold _wait_for_no_inflight_backup, _wait_for_next_completion, rounds, observe, gets, mbind, M_bind.
  match goal with |- context [wait_inflight (S ?f) ?p ?d ?sz ?pe ?h] =>
    pose proof (wait_inflight_halts f p d sz pe h (rounds_enough _ _)) as Hw;
    destruct (wait_inflight (S f) p d sz pe h) as [[l|e] h1] end; [|simpl in *; congruence].
  pose proof (bump_exn h1) as Hb. destruct (_bump_config_mtime h1) as [[[]|e] h2]; [|simpl in *; congruence].
  match goal with |- context [wait_completion (S ?f) ?p ?d ?sz ?h] =>
    pose proof (wait_completion_halts f p d sz h (rounds_enough _ _)) as Hc;
    destruct (wait_completion (S f) p d sz h) as [[[c|]|e] h3] end; simpl in *; congruence.
Qed.

(** Exit code 0 means a successful backup was seen, 1 a failed one, and 2
    that nothing was. *)
Theorem backup_now_exit timeout h code c h' :
  backup_now_main timeout h = (Ret (code, c), h') →
  match c with
  | None => code = 2%Z
  | Some e => (jget "type" e = JStr (event_value RESTIC_BACKUP_SUCCEEDED) ∧ code = 0%Z)
              ∨ (jget "type" e = JStr (event_value RESTIC_BACKUP_FAILED) ∧ code = 1%Z)
  end.
Proof.
  unfold backup_now_main, _wait_for_next_completion, observe, gets.
  unfold mbind, M_bind at 1. destruct (get_events_dir h) as [dir|]; [|by intros [= <- <- _]].
  unfold M_bind.
  match goal with |- context [_wait_for_no_inflight_backup ?a ?b ?c ?d] =>
    destruct (_wait_for_no_inflight_backup a b c d) as [[l|e] h1] end; [|done].
  destruct (_bump_config_mtime h1) as [[[]|e] h2]; [|done].
  match goal with |- context [wait_completion ?f ?p ?d ?sz ?h] =>
    destruct (wait_completion f p d sz h) as [[[e|]|e] h3] eqn:Ec end; [| |done].
  - apply wait_completion_event in Ec. unfold is_completion, jeqs in *. simpl in Ec.
    destruct (jget "type" e) eqn:Et; try done.
    intros [= <- <- _]. rewrite orb_false_r in Ec.
    apply orb_true_iff in Ec as [Ec|Ec]; apply bool_decide_eq_true in Ec as ->.
    + left. split; [exact Et | by rewrite bool_decide_eq_true_2].
    + right. split; [exact Et | by rewrite bool_decide_eq_false_2].
  - by intros [= <- <- _].
Qed.

(** The wait for ticks in flight ends with none of them left or at the
    deadline. *)
Theorem wait_inflight_result fuel p deadline sz pending h rest h' :
  wait_inflight fuel p deadline sz pending h = (Ret rest, h') →
  rest ⊆ pending ∧ (rest = ∅ ∨ (deadline <= monotonic h')%Q).
Proof. intros E. pose proof (wait_inflight_spec fuel p deadline sz pending h) as Hs. by rewrite E in Hs. Qed.
End cli_facts.

(** The types the command takes for the end of a tick. *)
Definition finishes (t : BackupEventType) : bool := is_finished_type (JStr (event_value t)).

(** Among the ticks that end normally the command recognises all as
    finished, except those whose snapshot failed: these stay in flight. *)
Theorem unfinished_ticks m ts :
  tick_trace m (Ret tt) ts →
  existsb finishes ts = false ↔ ts = [CONFIG_RELOADED; BACKUP_STARTED; SNAPSHOT_FAILED].
Proof.
  intros Ht. inv Ht; (split; [intros E; vm_compute in E; done | intros E; try done]).
Qed.

(** ** Concrete runs *)

Definition demo_line (tick type : pystr) : pystr :=
  bq "{`type`: `" ++ type ++ bq "`, `source`: `backup`, `tick_id`: `" ++ tick ++ bq "`}".

(** The log of a tick whose snapshot failed, a clock at ten seconds. *)
Definition failed_tick_log : pystr :=
  join [nl] (map (demo_line (u "t1") ∘ event_value) [CONFIG_RELOADED; BACKUP_STARTED; SNAPSHOT_FAILED]).

Definition failed_tick : Host := {|
  host := Q; monotonic h := h; wall_time h := h; utc_strftime f _ := f; utc_isoformat _ := [];
  sleep d h := (h + d)%Q; uuid4 h := (u "0", h);
  getenv _ _ := Some (u "/state"); stat_mtime _ _ := None;
  path_exists _ _ := true; read_text _ _ := Some failed_tick_log;
  write_text _ _ h := (true, h); mkdir_p _ h := (true, h); rename _ _ h := (true, h);
  unlink _ h := (true, h); touch _ h := (true, h); listdir _ _ := Some [];
  append_ok _ _ := true;
  run_cmd _ _ _ h := (inr {| returncode := 0; stdout := []; stderr := [] |}, h) |}.

(** A successful backup of another tick is appended at second five. *)
#[export] Instance failed_tick_bytes : @FileBytes failed_tick :=
  @Build_FileBytes failed_tick
    (λ (_ : path) (h : Q), Some (if Qle_bool 5 h then 300 else 200)%N)
    (λ (_ : path) (_ _ : N) (_ : Q), Some (demo_line (u "t2") (event_value RESTIC_BACKUP_SUCCEEDED)))
    (λ (_ : path) (_ h : Q), (true, h)).

Lemma failed_tick_laws : HostLaws failed_tick.
Proof. constructor. intros d h. simpl. lra. Qed.

Lemma failed_tick_pending :
  u "t1" ∈ _scan_for_inflight_tick_ids (H := failed_tick) (path_of "/log") 200 0%Q.
Proof. vm_compute. repeat constructor. Qed.

(** After a tick whose snapshot failed the command still takes that tick
    for one in flight. *)
Theorem snapshot_failed_stays_inflight :
  u "t1" ∈ _scan_for_inflight_tick_ids (H := failed_tick) (path_of "/log") 200 0%Q.
Proof. exact failed_tick_pending. Qed.

(** The command then waits for the phantom tick until its deadline and reports
    a time-out, although a backup succeeded meanwhile. *)
Example demo_times_out :
  (backup_now_main (H := failed_tick) 10 0%Q).1 = Ret (2%Z, None).
Proof. vm_compute. reflexivity. Qed.

Lemma inflight_iff_witness :
  path_exists (Host := failed_tick) (path_of "/log") 0%Q = true
  ∧ ∃ l, l ∈ last_n 200 (splitlines failed_tick_log) ∧ line_verdict l = Some (inl (u "t1")).
Proof.
  split; [reflexivity|].
  exact (proj1 (proj1 (inflight_iff (H := failed_tick) (path_of "/log") 200 0%Q failed_tick_log (u "t1")
    eq_refl eq_refl) failed_tick_pending)).
Defined.

Lemma backup_now_terminates_witness :
  (backup_now_main (H := failed_tick) 10 0%Q).1 ≠ Raise OutOfFuel.
Proof. apply (backup_now_terminates (H := failed_tick) (HostLaws0 := failed_tick_laws)). Defined.

Lemma backup_now_exit_witness :
  (backup_now_main (H := failed_tick) 10 0%Q).1 = Ret (2%Z, None) ∧ 2%Z = 2%Z.
Proof.
  split; [exact demo_times_out|].
  apply (backup_now_exit (H := failed_tick) 10 0%Q 2%Z None
    (backup_now_main (H := failed_tick) 10 0%Q).2).
  vm_compute. reflexivity.
Defined.

Lemma unfinished_ticks_witness :
  existsb finishes [CONFIG_RELOADED; BACKUP_STARTED; SNAPSHOT_FAILED] = false.
Proof. apply (unfinished_ticks DIRECT _ (tt_snapshot_failed DIRECT)). reflexivity. Defined.
