(* ===== verification/Bootstrap.v ===== *)
(** * The first boot of the container

    [libs/bootstrap/src/bootstrap/manager.py]: the host environment file, the
    initial chat agent, the worktree of the runtime branch and the default backup
    configuration, over the file system of [PyFs].  [git], [mngr], [findmnt] and
    [supervisord] are programs that may do anything to it ([Programs]). *)

From Stdlib Require Import NArith ZArith QArith Lia.
From S2P Require Import Prelude PyStr PyJson PyMonad PyBytes PyPath Host PyFs BackupConfig.
From stdpp Require Import options.
#[global] Open Scope nat_scope.
#[local] Open Scope py_scope.

(** The environment of the process, and [subprocess.run(argv, cwd=...)]. *)
Class Programs := {
  environ : pystr → option pystr;
  sys_run : list pystr → option path → M fs CompletedProcess }.

Definition SUPERVISORD_CONF : path := path_of "supervisord.conf".
Definition SUPERVISOR_LOG_DIR : path := path_of "/var/log/supervisor".
Definition RUNTIME_DIR : path := path_of "runtime".
Definition RUNTIME_PREEXISTING_DIR : path := path_of "runtime.preexisting".
Definition RUNTIME_BACKUP_USER_NAME : pystr := u "runtime-backup".
Definition RUNTIME_BACKUP_USER_EMAIL : pystr := u "runtime-backup@mindsbackup.local".
Definition INITIAL_CHAT_SIGNAL : path := child RUNTIME_DIR "initial_chat_created".
Definition INITIAL_CHAT_AGENT_ID_FILENAME : pystr := u "initial_chat_agent_id".
Definition _GIT_GLOBAL_CONFIG_ARGVS : list (list pystr) :=
  [[u "config"; u "--global"; u "--replace-all"; u "url.https://github.com/.insteadOf"; u "git@github.com:"];
   [u "config"; u "--global"; u "--add"; u "url.https://github.com/.insteadOf"; u "ssh://git@github.com/"];
   [u "config"; u "--global"; u "core.hooksPath"; u "/mngr/code/scripts/git_hooks"]].

(** ** The environment file of the host *)

Definition dq : N := 34.
Definition bs : N := 92.
(** [s.replace(bq, q)]: an escaped double quote is a double quote *)
Fixpoint unescape (s : pystr) : pystr :=
  match s with
  | c :: s' =>
      if (c =? bs)%N then match s' with
                          | d :: s'' => if (d =? dq)%N then dq :: unescape s'' else c :: unescape s'
                          | [] => [c]
                          end
      else c :: unescape s'
  | [] => []
  end.

(** One line: the binding it adds, if any. *)
Definition env_line (raw_line : pystr) : option (pystr * pystr) :=
  let line := strip raw_line in
  if (line =? []) || startswith "#" line then None
  else
    match find "=" line with
    | None => None
    | Some i =>
        let key := strip (take i line) in
        let value := drop (S i) line in
        if key =? [] then None
        else Some (key, if (2 <=? length value)%nat && (hd 0%N value =? dq)%N && (List.last value 0%N =? dq)%N
                        then unescape (removelast (tl value)) else value)
    end.
Definition _parse_env_file (content : pystr) : list (pystr * pystr) :=
  fold_left (λ result raw_line, match env_line raw_line with
                                | Some (key, value) => dset key value result | None => result end)
            (splitlines content) [].

Definition quotable (c : N) : bool := c ∈? [32; dq; 39; nl]%N.
Definition _format_env_value (value : pystr) : pystr :=
  if existsb quotable value then [dq] ++ replace_char dq [bs; dq] value ++ [dq] else value.
Definition env_text (kv : pystr * pystr) : pystr := kv.1 ++ u "=" ++ _format_env_value kv.2.
Definition _format_env_file (env : list (pystr * pystr)) : pystr := join [nl] (map env_text env) ++ [nl].

Section bootstrap.
Context (cwd : loc) `{DirOrder} `{Programs} `{JsonRepr} `{TomlLib}.
Abbreviation B := (M fs).

Definition getenv_or_empty (k : pystr) : pystr := default [] (environ k).
(** [except OSError] *)
Definition os_error_only (e : exn) : bool := match e with OSError _ | FileNotFoundError => true | _ => false end.
Definition best_effort (m : B unit) : B unit := try_except m (λ e, if os_error_only e then Some (mret tt) else None).
Definition look {A} (g : fs → outcome A) : B A := λ f, (g f, f).

Definition _resolve_services_claude_config_dir : option path :=
  match getenv_or_empty "MNGR_AGENT_STATE_DIR" with
  | [] => None
  | state_dir => Some (child (child (child (path_of state_dir) "plugin") "claude") "anthropic")
  end.

Definition _ensure_host_claude_config_dir (target : path) : B unit :=
  match getenv_or_empty "MNGR_HOST_DIR" with
  | [] => mret tt
  | host_dir =>
      let env_path := child (path_of host_dir) "env" in
      let target_str := path_str target in
      there ← gets (exists_ cwd env_path);
      content ← (if there : bool then gets (λ f, Some (read_text_of cwd env_path f)) else mret None);
      match content with
      | Some (Raise e) => if os_error_only e then mret tt else raise e
      | _ =>
          let existing := match content with Some (Ret text) => _parse_env_file text | _ => [] end in
          if bool_decide (dget "CLAUDE_CONFIG_DIR" existing = Some target_str) then mret tt
          else
            mkdirs cwd (parent env_path);;
            write_text_to cwd env_path (_format_env_file (dset "CLAUDE_CONFIG_DIR" target_str existing))
      end
  end.

(** ** The initial chat agent *)

(** [json.loads(p.read_text())]; [None] when it is not there or one of the
    exceptions caught. *)
Definition read_data (p : path) (f : fs) : outcome (option json) :=
  if negb (exists_ cwd p f) then Ret None
  else match read_text_of cwd p f with
       | Ret t => Ret (loads t)
       | Raise e => if os_error_only e then Ret None else Raise e
       end.

Definition _read_host_name (f : fs) : outcome (option pystr) :=
  match getenv_or_empty "MNGR_HOST_DIR" with
  | [] => Ret None
  | host_dir =>
      data ← read_data (child (path_of host_dir) "data.json") f;
      match data with
      | None => Ret None
      | Some data => name ← get "host_name" data; Ret (match name with JStr (c :: s) => Some (c :: s) | _ => None end)
      end
  end.

(** [str(v)] *)
Definition str_of (v : json) : pystr := match v with JStr s => s | _ => json_repr v end.
Definition _read_main_agent_labels (f : fs) : outcome (list (pystr * pystr)) :=
  match getenv_or_empty "MNGR_HOST_DIR", getenv_or_empty "MNGR_AGENT_ID" with
  | [], _ | _, [] => Ret []
  | host_dir, agent_id =>
      data ← read_data (child (child (child (path_of host_dir) "agents") agent_id) "data.json") f;
      match data with
      | None => Ret []
      | Some data =>
          labels ← get "labels" data;
          Ret (match labels with JObj d => map (λ kv, (kv.1, str_of kv.2)) d | _ => [] end)
      end
  end.

Definition _resolve_initial_chat_workspace_label (labels : list (pystr * pystr)) (f : fs) : outcome (option pystr) :=
  match dget "workspace" labels with
  | Some (c :: s) => Ret (Some (c :: s))
  | _ => _read_host_name f
  end.
Definition label_args (name : pystr) (v : option pystr) : list pystr :=
  match v with Some (c :: s) => [u "--label"; name ++ u "=" ++ c :: s] | _ => [] end.
Definition _build_create_chat_command (host_name : pystr) (labels : list (pystr * pystr)) (f : fs) : outcome (list pystr) :=
  workspace ← _resolve_initial_chat_workspace_label labels f;
  Ret ([u "mngr"; u "create"; host_name; u "--transfer"; u "none"; u "--template"; u "chat"; u "--message"; u "/welcome";
        u "--no-connect"; u "--format"; u "json"]
       ++ label_args "workspace" workspace ++ label_args "project" (dget "project" labels)).

Definition _parse_created_agent_id (out : pystr) : option pystr :=
  match loads out with
  | Some (JObj d) => match jget "agent_id" d with JStr s => Some s | _ => None end
  | _ => None
  end.

Definition _persist_initial_chat_agent_id (agent_id : pystr) : B unit :=
  match getenv_or_empty "MNGR_HOST_DIR" with
  | [] => mret tt
  | host_dir => best_effort (write_text_to cwd (child (path_of host_dir) INITIAL_CHAT_AGENT_ID_FILENAME) agent_id)
  end.

Definition _create_initial_chat_agent (host_name : pystr) (labels : list (pystr * pystr)) : B bool :=
  cmd ← look (_build_create_chat_command host_name labels);
  result ← sys_run cmd None;
  if negb (returncode result =? 0)%Z then mret false
  else
    match _parse_created_agent_id (stdout result) with
    | Some agent_id => _persist_initial_chat_agent_id agent_id
    | None => mret tt
    end;;
    mret true.

Definition _touch_signal : B unit := mkdirs cwd (parent INITIAL_CHAT_SIGNAL);; write_text_to cwd INITIAL_CHAT_SIGNAL [].

Definition _initialize_workspace_main_branch : B unit :=
  match getenv_or_empty "MNGR_AGENT_WORK_DIR" with
  | [] => mret tt
  | work_dir =>
      let git args := sys_run (u "git" :: args) (Some (path_of work_dir)) in
      email ← git [u "config"; u "user.email"];
      when (negb (returncode email =? 0)%Z) (git [u "config"; u "user.email"; u "bootstrap@minds.local"];; mret tt);;
      name ← git [u "config"; u "user.name"];
      when (negb (returncode name =? 0)%Z) (git [u "config"; u "user.name"; u "minds-bootstrap"];; mret tt);;
      git [u "add"; u "-A"];;
      git [u "commit"; u "--allow-empty"; u "--no-verify"; u "-m"; u "Initial workspace commit"];;
      git [u "branch"; u "-D"; u "main"];;
      git [u "branch"; u "-M"; u "main"];;
      mret tt
  end.

Definition _maybe_create_initial_chat : B unit :=
  there ← gets (exists_ cwd INITIAL_CHAT_SIGNAL);
  if there : bool then mret tt
  else
    host_name ← look _read_host_name;
    match host_name with
    | None => mret tt
    | Some host_name =>
        _initialize_workspace_main_branch;;
        labels ← look _read_main_agent_labels;
        created ← _create_initial_chat_agent host_name labels;
        if created : bool then _touch_signal else mret tt
    end.

Definition _bootstrap_init_chat_dir : B unit :=
  match _resolve_services_claude_config_dir with
  | Some config_dir => _ensure_host_claude_config_dir config_dir
  | None => mret tt
  end;;
  _maybe_create_initial_chat.

(** ** The worktree of the runtime branch *)

Definition _git_main (args : list pystr) : B CompletedProcess := sys_run (u "git" :: args) None.
Definition _git_runtime (args : list pystr) : B CompletedProcess := sys_run (u "git" :: u "-C" :: path_str RUNTIME_DIR :: args) None.
Definition ok (p : CompletedProcess) : bool := (returncode p =? 0)%Z.

(** Moving one entry back, unless the worktree has it. *)
Definition restore_entry (entry : path) : B unit :=
  let target := under RUNTIME_DIR [name entry] in
  there ← gets (exists_ cwd target);
  if there : bool then mret tt else move cwd entry target.
Definition _restore_preexisting_into_worktree : B unit :=
  there ← gets (exists_ cwd RUNTIME_PREEXISTING_DIR);
  if negb there then mret tt
  else
    entries ← gets (iterdir cwd RUNTIME_PREEXISTING_DIR);
    for_each entries restore_entry;;
    best_effort (rmdir cwd RUNTIME_PREEXISTING_DIR).

Definition _stage_preexisting_aside : B unit :=
  there ← gets (exists_ cwd RUNTIME_PREEXISTING_DIR);
  when there (rmtree_strict cwd RUNTIME_PREEXISTING_DIR);;
  move cwd RUNTIME_DIR RUNTIME_PREEXISTING_DIR.

Definition _runtime_dir_has_files (f : fs) : bool :=
  exists_ cwd RUNTIME_DIR f && match iterdir cwd RUNTIME_DIR f with [] => false | _ => true end.

Definition _create_orphan_runtime_worktree (branch : pystr) : B CompletedProcess :=
  empty_tree ← _git_main [u "hash-object"; u "-w"; u "-t"; u "tree"; u "/dev/null"];
  if negb (ok empty_tree) then mret empty_tree
  else
    orphan_commit ← _git_main [u "-c"; u "user.name=" ++ RUNTIME_BACKUP_USER_NAME; u "-c"; u "user.email=" ++ RUNTIME_BACKUP_USER_EMAIL;
      u "commit-tree"; strip (stdout empty_tree); u "-m"; u "runtime backup: init"];
    if negb (ok orphan_commit) then mret orphan_commit
    else
      branch_result ← _git_main [u "branch"; branch; strip (stdout orphan_commit)];
      if negb (ok branch_result) then mret branch_result
      else _git_main [u "worktree"; u "add"; path_str RUNTIME_DIR; branch].

(** After the worktree was added. *)
Definition configure_worktree (branch remote_ref : pystr) (has_remote : bool) : B unit :=
  _git_runtime [u "config"; u "user.name"; RUNTIME_BACKUP_USER_NAME];;
  _git_runtime [u "config"; u "user.email"; RUNTIME_BACKUP_USER_EMAIL];;
  (if has_remote then _git_runtime [u "branch"; u "--set-upstream-to"; remote_ref];; mret tt
   else
     write_text_to cwd (child RUNTIME_DIR ".gitignore") (u "secrets" ++ [nl]);;
     _git_runtime [u "add"; u ".gitignore"];;
     _git_runtime [u "commit"; u "--allow-empty"; u "-m"; u "runtime backup: init"];; mret tt);;
  _restore_preexisting_into_worktree;;
  match getenv_or_empty "GH_TOKEN" with
  | [] => mret tt
  | _ => (if has_remote then _git_runtime [u "push"] else _git_runtime [u "push"; u "--set-upstream"; u "origin"; branch]);; mret tt
  end.
(** When it could not be added: the staged files come back. *)
Definition unstage (staged_aside : bool) : B unit :=
  if staged_aside then
    there ← gets (exists_ cwd RUNTIME_DIR);
    if negb there then move cwd RUNTIME_PREEXISTING_DIR RUNTIME_DIR else _restore_preexisting_into_worktree
  else mret tt.

Definition _init_runtime_worktree : B unit :=
  match getenv_or_empty "MNGR_AGENT_ID" with
  | [] => mret tt
  | agent_id =>
      let branch := u "mindsbackup/" ++ agent_id in
      there ← gets (exists_ cwd (child RUNTIME_DIR ".git"));
      if there : bool then _restore_preexisting_into_worktree
      else
        fetch_result ← _git_main [u "fetch"; u "origin"; branch];
        let remote_ref := u "origin/" ++ branch in
        has_remote ← (if ok fetch_result then r ← _git_main [u "rev-parse"; u "--verify"; remote_ref]; mret (ok r) else mret false);
        staged_aside ← gets _runtime_dir_has_files;
        when staged_aside _stage_preexisting_aside;;
        result ← (if has_remote : bool then _git_main [u "worktree"; u "add"; u "-B"; branch; path_str RUNTIME_DIR; remote_ref]
                  else _create_orphan_runtime_worktree branch);
        if negb (ok result) then unstage staged_aside else configure_worktree branch remote_ref has_remote
  end.

(** ** The backup configuration *)

Definition _findmnt_fstype (p : path) : B pystr :=
  result ← sys_run [u "findmnt"; u "-n"; u "-o"; u "FSTYPE"; path_str p] None;
  mret (if ok result then strip (stdout result) else []).

Definition settings (m : SnapshotMethod) (mount subvolume current read trigger : option path) : SnapshotSettings :=
  {| method := m; btrfs_mount_path := mount; host_subvolume_path := subvolume; snapshot_current_path := current;
     snapshot_read_path := read; trigger_dir := trigger;
     outer_helper_timeout_seconds := outer_helper_timeout_seconds (default_snapshot_settings m);
     max_local_snapshots := max_local_snapshots (default_snapshot_settings m) |}.
Definition detect_snapshot_settings (trigger_dir host_dir : path) : B SnapshotSettings :=
  trigger ← gets (is_dir cwd trigger_dir);
  if trigger : bool then
    mret (settings OUTER_TRIGGER (Some (path_of "/mngr-btrfs")) (Some (path_of "/mngr-btrfs/<host_id_hex>"))
            (Some (path_of "/mngr-btrfs/snapshots/current")) (Some (path_of "/mngr-snapshots/current")) (Some trigger_dir))
  else
    fstype ← _findmnt_fstype host_dir;
    let current := child (child host_dir "snapshots") "current" in
    mret (if fstype =? u "btrfs" then settings BTRFS_LOCAL (Some host_dir) (Some host_dir) (Some current) (Some current) None
          else settings DIRECT None None None (Some host_dir) None).

(** The template, written when there is no file; whether it was. *)
Definition write_default_restic_env_template (p : path) : B bool :=
  there ← gets (exists_ cwd p);
  if there : bool then mret false else mkdirs cwd (parent p);; write_text_to cwd p _DEFAULT_RESTIC_ENV_TEMPLATE;; mret true.

Definition init_backup_config_with_settings (s : SnapshotSettings) (backup_toml_path restic_env_path : path) : B unit :=
  mkdirs cwd (parent backup_toml_path);;
  there ← gets (exists_ cwd backup_toml_path);
  go_on ← (if there : bool then
      existing ← gets (read_text_of cwd backup_toml_path);
      match existing with
      | Raise e => match e with OSError _ | FileNotFoundError | ValueError _ => mret false | _ => raise e end
      | Ret existing =>
          match merge_snapshot_into_existing_toml existing s with
          | None => mret false
          | Some merged => (if merged =? existing then mret tt else write_text_to cwd backup_toml_path merged);; mret true
          end
      end
    else try_except (write_text_to cwd backup_toml_path (render_default_backup_toml s);; mret true)
           (λ e, if os_error_only e then Some (mret false) else None));
  if go_on : bool then best_effort (write_default_restic_env_template restic_env_path;; mret tt) else mret tt.

Definition _init_backup_config : B unit :=
  snapshot ← try_except (s ← detect_snapshot_settings (path_of "/mngr-snapshot") (path_of "/mngr"); mret (Some s))
    (λ e, if os_error_only e then Some (mret None) else None);
  match snapshot with
  | None => mret tt
  | Some s => init_backup_config_with_settings s BACKUP_TOML_PATH RESTIC_ENV_PATH
  end.

(** ** The boot *)

Definition _configure_git_global : B unit := for_each _GIT_GLOBAL_CONFIG_ARGVS (λ argv, sys_run (u "git" :: argv) None;; mret tt).
Definition _ensure_supervisor_log_dir : B unit := best_effort (mkdirs cwd SUPERVISOR_LOG_DIR).
(** What the process becomes. *)
Definition supervisord_argv : list pystr := [u "supervisord"; u "-n"; u "-c"; path_str SUPERVISORD_CONF].
Definition main : B (list pystr) :=
  _configure_git_global;; _init_runtime_worktree;; _bootstrap_init_chat_dir;; _init_backup_config;; _ensure_supervisor_log_dir;;
  mret supervisord_argv.
End bootstrap.
