(* ===== verification/BootstrapFacts.v ===== *)
(** * What the first boot guarantees

    The theorems about [Bootstrap]: the environment file is read back as it was
    written, setting one variable keeps the others, the files of the runtime
    directory survive the making of its worktree, and the initial chat is created
    once; and where the code falls short of its comments. *)

From Stdlib Require Import NArith ZArith QArith Lia.
From S2P Require Import Prelude PyStr PyJson PyDumps PyMonad PyBytes PyPath Host PyFs BackupConfig Bootstrap.
From stdpp Require Import options.
#[global] Open Scope nat_scope.
#[local] Open Scope py_scope.

(** ** The environment file *)

Definition key_ok (k : pystr) : bool :=
  match k with c :: _ => negb (is_space c) && negb (c =? 35)%N | [] => false end
  && negb (is_space (List.last k 0%N)) && one_line k && (61%N ∉? k).
(** A value is one line; one that is not quoted does not end with a space. *)
Definition value_ok (v : pystr) : bool :=
  one_line v && (existsb quotable v || match v with [] => true | _ => negb (is_space (List.last v 0%N)) end).
Definition env_ok (env : list (pystr * pystr)) : Prop :=
  NoDup (dkeys env) ∧ Forall (λ kv, key_ok kv.1 = true ∧ value_ok kv.2 = true) env.

Lemma unescape_escaped v : unescape (replace_char dq [bs; dq] v) = v.
Proof.
  unfold replace_char. induction v as [|c v IH]; [done|]. cbn [map concat].
  destruct (N.eqb_spec c dq) as [->|Hc]; cbn [app unescape].
  - change (bs =? bs)%N with true. change (dq =? dq)%N with true. cbv iota. by rewrite IH.
  - destruct (N.eqb_spec c bs) as [->|Hb]; [|by rewrite IH].
    destruct (concat (map (λ c, if (c =? dq)%N then [bs; dq] else [c]) v)) as [|d r] eqn:E; [by rewrite <- IH|].
    assert (d ≠ dq) as Hd.
    { intros ->. destruct v as [|e v]; [done|]. cbn [map concat] in E. destruct (N.eqb_spec e dq); cbn in E; injection E as E _; done. }
    apply N.eqb_neq in Hd as ->. by rewrite IH.
Qed.

Lemma last_snoc_N (l : pystr) c : List.last (l ++ [c]) 0%N = c.
Proof. apply List.last_last. Qed.

(** A written value is read back, and its text ends with no space. *)
Lemma value_text v :
  value_ok v = true →
  let t := _format_env_value v in
  one_line t = true ∧ (t = [] ∨ is_space (List.last t 0%N) = false) ∧
  (if (2 <=? length t)%nat && (hd 0%N t =? dq)%N && (List.last t 0%N =? dq)%N then unescape (removelast (tl t)) else t) = v.
Proof.
  intros [Hl Hv]%andb_true_iff. unfold _format_env_value. destruct (existsb quotable v) eqn:E; cbn [orb] in Hv.
  - split_and!.
    + rewrite !one_line_app. assert (one_line (replace_char dq [bs; dq] v) = true) as ->; [|done].
      unfold one_line, replace_char in *. rewrite !forallb_forall in *. intros c Hc.
      apply in_concat in Hc as (x & Hx & Hc). apply in_map_iff in Hx as (d & <- & Hd).
      destruct (d =? dq)%N; [destruct Hc as [<-|[<-|[]]]; done|destruct Hc as [<-|[]]; by apply Hl].
    + right. rewrite app_assoc, last_snoc_N. done.
    + rewrite app_assoc, last_snoc_N, <- app_assoc. rewrite !length_app. cbn [length app hd tl].
      change (dq =? dq)%N with true. rewrite !andb_true_r, removelast_last, unescape_escaped.
      rewrite (proj2 (Nat.leb_le _ _)); [done|lia].
  - split; [done|]. split; [destruct v; [by left|right; by apply negb_true_iff]|].
    assert (∀ c, c ∈ v → quotable c = false) as Hq.
    { intros c Hc. apply not_true_iff_false. intros Hq. apply not_true_iff_false in E. apply E, existsb_exists.
      exists c. split; [by apply list_elem_of_In|done]. }
    destruct v as [|c v]; [done|]. cbn [hd]. assert (c ≠ dq) as Hc; [|apply N.eqb_neq in Hc as ->; by rewrite andb_false_r].
    intros ->. by specialize (Hq dq ltac:(left)).
Qed.

Lemma env_line_text k v : key_ok k = true → value_ok v = true → env_line (env_text (k, v)) = Some (k, v) ∧ one_line (env_text (k, v)) = true.
Proof.
  intros Hk Hv. unfold key_ok in Hk. apply andb_true_iff in Hk as [[[Hk1 Hk2]%andb_true_iff Hk3]%andb_true_iff Hk4].
  apply negb_true_iff in Hk2, Hk4. apply bool_decide_eq_false in Hk4.
  destruct k as [|c k]; [done|]. apply andb_true_iff in Hk1 as [Hc1 Hc2]. apply negb_true_iff in Hc1, Hc2.
  destruct (value_text v Hv) as (H1 & H2 & H3). unfold env_text. cbn [fst snd].
  set (t := _format_env_value v) in *. split; [|rewrite !one_line_app, Hk3, H1; done].
  unfold env_line.
  assert (strip ((c :: k) ++ u "=" ++ t) = (c :: k) ++ u "=" ++ t) as ->.
  { destruct H2 as [H2|H2].
    - rewrite H2. by apply (strip_ends _ c (k ++ u "=") 61%N (c :: k)).
    - destruct t as [|d t' _] using rev_ind; [by apply (strip_ends _ c (k ++ u "=") 61%N (c :: k))|].
      rewrite last_snoc_N in H2. apply (strip_ends _ c (k ++ u "=" ++ t' ++ [d]) d ((c :: k) ++ u "=" ++ t')); [done| |done|done].
      by rewrite <- !app_assoc. }
  cbn [app]. rewrite bool_decide_eq_false_2 by done. cbn [orb].
  change (startswith "#" (c :: k ++ u "=" ++ t)) with (startswith [35%N] (c :: k ++ u "=" ++ t)). cbn [startswith].
  rewrite N.eqb_sym in Hc2. rewrite Hc2. cbn [andb].
  assert (find "=" (c :: k ++ u "=" ++ t) = Some (length (c :: k))) as ->.
  { change (c :: k ++ u "=" ++ t) with ((c :: k) ++ 61%N :: t). change (u "=") with [61%N].
    revert Hk4. generalize (c :: k). induction l as [|d l IH]; intros Hin; [done|].
    apply not_elem_of_cons in Hin as [Hd Hin]. cbn [app find startswith length].
    apply N.eqb_neq in Hd as ->. cbn [andb]. by rewrite IH. }
  rewrite app_comm_cons, take_app_length.
  assert (drop (S (length (c :: k))) ((c :: k) ++ u "=" ++ t) = t) as ->.
  { change (u "=" ++ t) with (61%N :: t). rewrite drop_app_ge by lia. by replace (S (length (c :: k)) - length (c :: k)) with 1 by lia. }
  assert (strip (c :: k) = c :: k) as ->.
  { destruct (exists_last (l := c :: k) ltac:(done)) as (l & d & E). rewrite E in Hk2. rewrite last_snoc_N in Hk2.
    by apply (strip_ends _ c k d l). }
  rewrite bool_decide_eq_false_2 by done. by rewrite H3.
Qed.

(** An environment file is read back as it was written, quotes and spaces
    included, provided that each value is one line and that no unquoted value
    ends in whitespace. *)
Lemma parse_formatted env : env_ok env → _parse_env_file (_format_env_file env) = env.
Proof.
  intros [Hnd Henv]. unfold _parse_env_file, _format_env_file.
  destruct env as [|kv env]; [done|].
  rewrite join_entry_lines by done.
  rewrite <- (app_nil_r (entry_lines _)), splitlines_entries.
  - change (splitlines []) with (@nil pystr). rewrite app_nil_r. rewrite <- (set_all_new (kv :: env) []) at 2 by done.
    generalize (@nil (pystr * pystr)) as acc. clear Hnd. revert Henv. generalize (kv :: env).
    induction l as [|[k v] l IH]; intros Hl acc; [done|]. apply Forall_cons in Hl as [[Hk Hv] Hl]. cbn [map fold_left].
    rewrite (proj1 (env_line_text k v Hk Hv)). by apply IH.
  - apply Forall_forall. intros x Hx. apply list_elem_of_In, in_map_iff in Hx as ([k v] & <- & Hin).
    rewrite Forall_forall in Henv. destruct (Henv (k, v)) as [Hk Hv]; [by apply list_elem_of_In|]. by apply env_line_text.
Qed.

Section host_env.
Context (cwd : loc) `{Programs}.

Lemma format_no_cr env : env_ok env → 13%N ∉ _format_env_file env.
Proof.
  intros [_ Henv]. unfold _format_env_file. rewrite elem_of_app. intros [Hin|Hin]; [|by apply list_elem_of_singleton in Hin].
  revert Hin. apply join_no_cr; [by rewrite list_elem_of_singleton|]. apply Forall_forall. intros t Ht.
  apply list_elem_of_In, in_map_iff in Ht as ([k v] & <- & Hin). rewrite Forall_forall in Henv.
  destruct (Henv (k, v)) as [Hk Hv]; [by apply list_elem_of_In|]. destruct (env_line_text k v Hk Hv) as [_ Hl].
  intros Hc. unfold one_line in Hl. rewrite forallb_forall in Hl. specialize (Hl 13%N ltac:(by apply list_elem_of_In)). done.
Qed.

Lemma dset_same {V} k (v : V) d : dget k d = Some v → dset k v d = d.
Proof.
  induction d as [|[k' v'] d IH]; cbn; [done|]. case_bool_decide as E; [by intros [= ->]|]. intros Hd. by rewrite IH.
Qed.

Lemma env_ok_dset env k v : env_ok env → key_ok k = true → value_ok v = true → env_ok (dset k v env).
Proof.
  intros [Hnd Henv] Hk Hv. split.
  - clear Henv. induction env as [|[k' v'] env IH]; cbn in *; [apply NoDup_singleton|].
    apply NoDup_cons in Hnd as [Hk' Hnd]. case_bool_decide as E; cbn; [by constructor|]. constructor; [|by apply IH].
    intros Hin. apply Hk'. clear -Hin E. induction env as [|[k2 v2] env IH]; cbn in *.
    + apply elem_of_cons in Hin as [->|Hin]; [done|by apply elem_of_nil in Hin].
    + case_bool_decide; cbn in *; [done|]. apply elem_of_cons in Hin as [->|Hin]; [left|right; by apply IH].
  - clear Hnd. induction Henv as [|[k' v'] env [H1 H2] Henv IH]; cbn; [by constructor|].
    case_bool_decide; constructor; done.
Qed.

(** Making the host export its Claude directory sets that one variable:
    whatever well-formed environment file was there, the new one reads back as
    the same variables in the same order with this one set, and nothing else of
    the file system changes. *)
Theorem ensure_sets_one_variable host_dir target env f b0 :
  let dir := path_of host_dir in
  let file := loc_of cwd dir ++ [u "env"] in
  let env' := dset "CLAUDE_CONFIG_DIR" (path_str target) env in
  environ "MNGR_HOST_DIR" = Some host_dir → host_dir ≠ [] →
  solid f (loc_of cwd dir) → u ".." ∉ parts dir →
  env_ok env → value_ok (path_str target) = true →
  encodable (_format_env_file env) = true → encodable (_format_env_file env') = true →
  encode_utf8 (_format_env_file env) = Ret b0 → nodes f !! file = Some (NFile b0) →
  ∃ g b t, _ensure_host_claude_config_dir cwd target f = (Ret tt, g) ∧
    nodes g !! file = Some (NFile b) ∧ decode_text b = Ret t ∧ _parse_env_file t = env' ∧
    ∀ k, k ≠ file → nodes g !! k = nodes f !! k.
Proof.
  intros dir file env' Henv Hne Hs Hup Hok Hv He He' Hb0 Hf.
  assert (key_ok "CLAUDE_CONFIG_DIR" = true) as Hk by (vm_compute; reflexivity).
  pose proof (env_ok_dset env _ _ Hok Hk Hv) as Hok'.
  assert (∀ env b, env_ok env → encodable (_format_env_file env) = true → encode_utf8 (_format_env_file env) = Ret b →
            decode_text b = Ret (_format_env_file env)) as Hdec.
  { intros e b H1 H2 H3. apply decode_text_encoded; [done|by apply encodable_encodes|by apply format_no_cr]. }
  assert (plain_name (u "env")) as Hpn by by apply (bool_decide_unpack _).
  assert (u "env" ≠ u "..") as Hnd by done.
  assert (child dir "env" = under dir [u "env"]) as Ec by by apply child_plain.
  destruct (overwrite cwd f dir (u "env") b0 b0 Hs Hup Hnd Hf) as (_ & Hread & Hex).
  unfold _ensure_host_claude_config_dir, getenv_or_empty. rewrite Henv. cbn [default].
  destruct host_dir as [|c0 hd]; [done|]. cbn [id]. fold dir. rewrite Ec.
  erewrite M_bind_ret by (unfold gets; by rewrite Hex). erewrite M_bind_ret by reflexivity.
  unfold read_text_of. rewrite Hread. cbn [mbind outcome_bind]. rewrite (Hdec _ _ Hok He Hb0).
  rewrite (parse_formatted env Hok). case_bool_decide as Hsame.
  - exists f, b0, (_format_env_file env). split; [done|]. split; [done|]. split; [by apply Hdec|]. split; [|done].
    rewrite parse_formatted by done. symmetry. by apply dset_same.
  - destruct (encodable_encodes _ He') as [_ [b Hb]].
    exists (put file (NFile b) f), b, (_format_env_file env'). split; [|split_and!].
    + assert (parent (under dir [u "env"]) = dir) as -> by (unfold under; rewrite parent_snoc; by destruct dir).
      erewrite M_bind_ret by by apply mkdirs_there. unfold write_text_to.
      erewrite M_bind_ret by (unfold lift; fold env'; by rewrite Hb).
      by apply (overwrite cwd f dir (u "env") b0 b).
    + cbn. by rewrite lookup_insert_eq.
    + by apply Hdec.
    + by apply parse_formatted.
    + intros k Hk'. cbn. by rewrite lookup_insert_ne.
Qed.
End host_env.

(** ** Restoring what was staged aside *)
Section restoring.
Context (cwd : loc) `{DirOrderLaws}.
Abbreviation RT := (cwd ++ [u "runtime"]).
Abbreviation PRE := (cwd ++ [u "runtime.preexisting"]).

(** The worktree and the directory staged aside are real directories, and no
    entry of the worktree itself is a link. *)
Definition plain_runtime (f : fs) : Prop :=
  tree_ok f ∧ no_dotdot f ∧ solid f RT ∧ solid f PRE ∧ ∀ c t, nodes f !! (RT ++ [c]) ≠ Some (NLink t).

Lemma runtime_parts : RUNTIME_DIR = Path [] [u "runtime"] ∧ RUNTIME_PREEXISTING_DIR = Path [] [u "runtime.preexisting"].
Proof. split; vm_compute; reflexivity. Qed.
Lemma loc_runtime : loc_of cwd RUNTIME_DIR = RT ∧ loc_of cwd RUNTIME_PREEXISTING_DIR = PRE.
Proof. by rewrite !(proj1 runtime_parts), !(proj2 runtime_parts). Qed.

(** What is at [k] after the entries [M] were moved. *)
Definition after_moving (f : fs) (M : list pystr) (k : loc) : option node :=
  match drop (length RT) k with
  | c :: r => if bool_decide (c ∈ M)
              then if bool_decide (RT `prefix_of` k) then nodes f !! (PRE ++ c :: r)
                   else if bool_decide (PRE `prefix_of` k) then None else nodes f !! k
              else nodes f !! k
  | [] => nodes f !! k
  end.
Definition moved (f : fs) (M : list pystr) (g : fs) : Prop :=
  (∀ k, k ≠ RT → k ≠ PRE → nodes g !! k = after_moving f M k) ∧
  is_dir_node (nodes g !! RT) = true ∧ is_dir_node (nodes g !! PRE) = true.

Lemma not_RT_PRE r1 r2 : RT ++ r1 ≠ PRE ++ r2.
Proof. rewrite <- !app_assoc. intros E%app_inv_head. by injection E. Qed.
Lemma after_RT f M c r : after_moving f M (RT ++ c :: r) = if bool_decide (c ∈ M) then nodes f !! (PRE ++ c :: r) else nodes f !! (RT ++ c :: r).
Proof. unfold after_moving. rewrite drop_app_length. case_bool_decide; [|done]. rewrite bool_decide_eq_true_2; [done|by eexists]. Qed.
Lemma after_PRE f M c r : after_moving f M (PRE ++ c :: r) = if bool_decide (c ∈ M) then None else nodes f !! (PRE ++ c :: r).
Proof.
  unfold after_moving. assert (length RT = length PRE) as -> by (by rewrite !length_app). rewrite drop_app_length.
  case_bool_decide; [|done]. rewrite bool_decide_eq_false_2; [|intros [x E]; by apply (not_RT_PRE x (c :: r))].
  rewrite bool_decide_eq_true_2; [done|by eexists].
Qed.
Lemma after_other f M k : ¬ RT `prefix_of` k → ¬ PRE `prefix_of` k → after_moving f M k = nodes f !! k.
Proof. intros H1 H2. unfold after_moving. repeat case_match; try done; by case_bool_decide. Qed.
Lemma ne_cons {A} (l : list A) c r : l ++ c :: r ≠ l.
Proof. intros E. apply (f_equal length) in E. rewrite length_app in E. cbn [length] in E. lia. Qed.
Lemma snoc_app {A} (l : list A) c r : (l ++ [c]) ++ r = l ++ c :: r.
Proof. by rewrite <- app_assoc. Qed.
Lemma ne_RT c r : RT ++ c :: r ≠ RT ∧ RT ++ c :: r ≠ PRE ∧ PRE ++ c :: r ≠ RT ∧ PRE ++ c :: r ≠ PRE.
Proof.
  split_and!; [apply ne_cons| | |apply ne_cons].
  - intros E. apply (not_RT_PRE (c :: r) []). by rewrite app_nil_r.
  - intros E. apply (not_RT_PRE [] (c :: r)). by rewrite app_nil_r.
Qed.

Lemma moved_solid f M g : plain_runtime f → moved f M g → solid g RT ∧ solid g PRE.
Proof.
  intros (_ & _ & H1 & H2 & _) (Hk & HR & HP).
  assert (∀ k c x, k ++ [c] `prefix_of` cwd ++ [x] → k ++ [c] ≠ cwd ++ [x] → ¬ RT `prefix_of` k ++ [c] ∧ ¬ PRE `prefix_of` k ++ [c]) as Hpre.
  { intros k c x Hp Hne. apply prefix_snoc_inv in Hp as [Hp|]; [|done]. apply prefix_length in Hp. rewrite length_app in Hp.
    cbn [length] in Hp. split; intros Hq%prefix_length; rewrite !length_app in Hq; cbn [length] in Hq; lia. }
  split; intros k c Hp.
  - destruct (decide (k ++ [c] = RT)) as [->|Hne]; [done|]. destruct (Hpre k c _ Hp Hne) as [N1 N2].
    rewrite Hk, after_other; [by apply H1|done..|]. by intros E; rewrite E in N2.
  - destruct (decide (k ++ [c] = PRE)) as [->|Hne]; [done|]. destruct (Hpre k c _ Hp Hne) as [N1 N2].
    rewrite Hk, after_other; [by apply H2|done..| |done]. by intros E; rewrite E in N1.
Qed.

Lemma restore_step f M g c :
  plain_runtime f → moved f M g → c ∉ M → is_Some (nodes f !! (PRE ++ [c])) →
  ∃ h, restore_entry cwd (under RUNTIME_PREEXISTING_DIR [c]) g = (Ret tt, h) ∧
    moved f (if nodes f !! (RT ++ [c]) is Some _ then M else c :: M) h.
Proof.
  intros Hf Hg Hc [n Hn]. pose proof Hf as (Hok & Hdd & _ & _ & Hlinks). destruct (moved_solid f M g Hf Hg) as [HsR HsP].
  pose proof Hg as (Hk & HdR & HdP). destruct loc_runtime as [HR HP].
  assert (c ≠ u "..") as Hne. { intros ->. apply Hdd in Hn. apply Hn, elem_of_app. right. left. }
  assert (u ".." ∉ parts RUNTIME_DIR ∧ u ".." ∉ parts RUNTIME_PREEXISTING_DIR) as [HuR HuP].
  { rewrite (proj1 runtime_parts), (proj2 runtime_parts). split; apply (bool_decide_unpack _); vm_compute; exact I. }
  assert (∀ r, nodes g !! (RT ++ c :: r) = nodes f !! (RT ++ c :: r)) as HgR.
  { intros r. rewrite Hk, after_RT by apply ne_RT. by rewrite bool_decide_eq_false_2. }
  assert (∀ r, nodes g !! (PRE ++ c :: r) = nodes f !! (PRE ++ c :: r)) as HgP.
  { intros r. rewrite Hk, after_PRE by apply ne_RT. by rewrite bool_decide_eq_false_2. }
  assert (name (under RUNTIME_PREEXISTING_DIR [c]) = c) as Hname by apply name_snoc.
  assert (stat cwd g (under RUNTIME_DIR [c]) = (λ n, (RT ++ [c], n)) <$> nodes f !! (RT ++ [c])) as Hstat.
  { unfold under. rewrite <- HR in *. rewrite stat_entry; try done; rewrite ?HgR; done. }
  unfold restore_entry. rewrite Hname. erewrite M_bind_ret by reflexivity. unfold exists_. rewrite Hstat.
  destruct (nodes f !! (RT ++ [c])) as [m|] eqn:Em; cbn [fmap option_fmap option_map]; [by exists g|].
  unfold move, is_dir. rewrite Hstat. cbn [fmap option_fmap option_map]. unfold rename_to, under.
  rewrite <- HP in *. rewrite lstat_entry by done. rewrite HP in *. rewrite HgP, Hn. cbn [fmap option_fmap option_map].
  rewrite <- HR in *. rewrite entry_loc_solid by done. rewrite HR in *.
  rewrite bool_decide_eq_false_2 by (intros [x E]; rewrite <- !app_assoc in E; apply app_inv_head in E; by injection E).
  rewrite HgR, Em. eexists. split; [reflexivity|].
  assert (∀ r, nodes g !! ((RT ++ [c]) ++ r) = None) as Hfresh.
  { intros r. rewrite (snoc_app RT c r), HgR. destruct r as [|x r]; [done|].
    rewrite <- (snoc_app RT). apply below_missing; [done|by rewrite Em|done]. }
  split; [|split].
  - intros k H1 H2. rewrite lookup_move; [|done|by rewrite removelast_last|by rewrite removelast_last].
    destruct (decide (RT ++ [c] `prefix_of` k)) as [[r ->]|Hp1].
    { rewrite bool_decide_eq_true_2 by by eexists. rewrite drop_app_length, (snoc_app PRE c r), (snoc_app RT c r).
      rewrite HgP, after_RT, bool_decide_eq_true_2 by left. done. }
    rewrite bool_decide_eq_false_2 by done. destruct (decide (PRE ++ [c] `prefix_of` k)) as [[r ->]|Hp2].
    { rewrite bool_decide_eq_true_2 by by eexists. rewrite (snoc_app PRE c r). by rewrite after_PRE, bool_decide_eq_true_2 by left. }
    rewrite bool_decide_eq_false_2, Hk by done. unfold after_moving.
    destruct (drop (length RT) k) as [|d r] eqn:Ed; [done|]. destruct (decide (d = c)) as [->|Hdc].
    + assert (¬ RT `prefix_of` k) as N1. { intros [x ->]. rewrite drop_app_length in Ed. subst x. apply Hp1. exists r. by rewrite (snoc_app RT). }
      assert (¬ PRE `prefix_of` k) as N2.
      { intros [x ->]. assert (length RT = length PRE) as El by (by rewrite !length_app). rewrite El, drop_app_length in Ed. subst x.
        apply Hp2. exists r. by rewrite (snoc_app PRE). }
      rewrite !(bool_decide_eq_false_2 (_ `prefix_of` _)) by done. by repeat case_bool_decide.
    + assert (bool_decide (d ∈ c :: M) = bool_decide (d ∈ M)) as ->; [|done].
      apply bool_decide_ext. rewrite elem_of_cons. naive_solver.
  - rewrite dir_move; [done| |]; intros Hp%prefix_length; rewrite !length_app in Hp; cbn [length] in Hp; lia.
  - rewrite dir_move; [done| |]; intros Hp%prefix_length; rewrite !length_app in Hp; cbn [length] in Hp; lia.
Qed.

Lemma restore_all f cs : plain_runtime f → ∀ M g, moved f M g → NoDup cs →
  (∀ c, c ∈ cs → c ∉ M ∧ is_Some (nodes f !! (PRE ++ [c]))) →
  ∃ h M', for_each (map (λ c, under RUNTIME_PREEXISTING_DIR [c]) cs) (restore_entry cwd) g = (Ret tt, h) ∧ moved f M' h ∧
    ∀ c, c ∈ M' ↔ c ∈ M ∨ (c ∈ cs ∧ nodes f !! (RT ++ [c]) = None).
Proof.
  intros Hf. induction cs as [|c cs IH]; intros M g Hg Hnd Hcs.
  { exists g, M. split; [done|]. split; [done|]. intros c. rewrite elem_of_nil. naive_solver. }
  apply NoDup_cons in Hnd as [Hc Hnd]. destruct (Hcs c ltac:(left)) as [HcM Hs].
  destruct (restore_step f M g c Hf Hg HcM Hs) as (h & Eh & Hh). cbn [map for_each]. erewrite M_bind_ret by exact Eh.
  destruct (IH _ h Hh Hnd) as (k & M' & Ek & Hk & HM').
  - intros d Hd. destruct (Hcs d ltac:(by right)) as [HdM Hds]. split; [|done].
    destruct (nodes f !! (RT ++ [c])); [done|]. rewrite elem_of_cons. intros [->|?]; done.
  - exists k, M'. split; [done|]. split; [done|]. intros d. rewrite HM', !elem_of_cons.
    destruct (nodes f !! (RT ++ [c])) eqn:E; rewrite ?elem_of_cons; naive_solver.
Qed.

Lemma runtime_no_dotdot : u ".." ∉ parts RUNTIME_DIR ∧ u ".." ∉ parts RUNTIME_PREEXISTING_DIR.
Proof. rewrite (proj1 runtime_parts), (proj2 runtime_parts). split; apply (bool_decide_unpack _); vm_compute; exact I. Qed.

Lemma gone_below f k : tree_ok f → ∀ c r, nodes f !! (k ++ [c]) = None → nodes f !! (k ++ c :: r) = None.
Proof. intros Hok c r E. destruct r; [done|]. rewrite <- (snoc_app k). apply below_missing; [done|by rewrite E|done]. Qed.
(** Removing the directory when it is empty changes nothing below it. *)
Lemma rmdir_pre g t :
  solid g PRE → nodes g !! PRE = Some (NDir t) → is_dir_node (nodes g !! cwd) = true →
  ∃ h, best_effort (rmdir cwd RUNTIME_PREEXISTING_DIR) g = (Ret tt, h) ∧
    ∀ k, k ≠ PRE → k ≠ cwd → nodes h !! k = nodes g !! k.
Proof.
  intros Hs Ht Hd. assert (u "runtime.preexisting" ≠ u "..") as Hne by done.
  assert (lstat cwd g RUNTIME_PREEXISTING_DIR = Some (PRE, NDir t)) as El.
  { rewrite (proj2 runtime_parts). pose proof (lstat_entry cwd g (Path [] []) (u "runtime.preexisting")) as E.
    unfold loc_of, base in E. cbn [root parts] in E. rewrite app_nil_r in E. cbn [app] in E. rewrite E; [by rewrite Ht| |done| |done].
    - eapply solid_prefix; [|exact Hs]. by eexists.
    - by intros ?%elem_of_nil. }
  unfold best_effort, try_except, rmdir. rewrite El. destruct (Nat.eqb_spec (length (below PRE g)) 1) as [Hlen|]; [|by exists g].
  eexists. split; [reflexivity|]. intros k H1 H2. rewrite lookup_remove by by rewrite removelast_last.
  case_bool_decide as Hp; [|done]. destruct Hp as [r ->]. destruct (nodes g !! (PRE ++ r)) as [n|] eqn:En; [exfalso|done].
  assert ((PRE, NDir t) ∈ below PRE g ∧ (PRE ++ r, n) ∈ below PRE g) as [Hb1 Hb2].
  { rewrite !elem_below. split; split; [done|done|by eexists|done]. }
  destruct (below PRE g) as [|x [|y l]]; try done. apply list_elem_of_singleton in Hb1 as <-.
  apply list_elem_of_singleton in Hb2. injection Hb2 as E _. by apply H1.
Qed.

(** C24: restoring what an interrupted initialisation staged aside loses nothing,
    when both directories are real ones reached without a link and no entry of the
    worktree itself is a link: it returns; each staged entry the worktree does not
    have yet is moved there with all that is below it, each one it has stays where
    it is, and nothing outside the two directories changes, but for the entry of
    the working directory itself. *)
Theorem restore_spec f :
  plain_runtime f →
  ∃ g, _restore_preexisting_into_worktree cwd f = (Ret tt, g) ∧
    (∀ c r, nodes g !! (RT ++ c :: r) = if nodes f !! (RT ++ [c]) is Some _ then nodes f !! (RT ++ c :: r) else nodes f !! (PRE ++ c :: r)) ∧
    (∀ c r, nodes g !! (PRE ++ c :: r) = if nodes f !! (RT ++ [c]) is Some _ then nodes f !! (PRE ++ c :: r) else None) ∧
    (∀ k, ¬ RT `prefix_of` k → ¬ PRE `prefix_of` k → k ≠ cwd → nodes g !! k = nodes f !! k).
Proof using Type*.
  intros Hf. pose proof Hf as (Hok & Hdd & HsR & HsP & _). destruct loc_runtime as [HR HP]. destruct runtime_no_dotdot as [HuR HuP].
  assert (is_dir_node (nodes f !! RT) = true ∧ is_dir_node (nodes f !! PRE) = true) as [HdR HdP] by (split; [by apply HsR|by apply HsP]).
  assert (moved f [] f) as Hm.
  { split; [|done]. intros k _ _. unfold after_moving. case_match; [done|]. by rewrite bool_decide_eq_false_2 by by intros ?%elem_of_nil. }
  assert (top_of cwd RUNTIME_PREEXISTING_DIR f = Some PRE) as Htop.
  { unfold top_of. rewrite stat_solid by (rewrite ?HP; done). rewrite HP. by destruct (nodes f !! PRE) as [[]|]. }
  destruct (restore_all f (entries PRE f) Hf [] f Hm (NoDup_entries PRE f)) as (g & M & Eg & Hg & HM).
  { intros c Hc. split; [by intros ?%elem_of_nil|]. by apply elem_entries. }
  assert (∀ c, c ∈ M ↔ is_Some (nodes f !! (PRE ++ [c])) ∧ nodes f !! (RT ++ [c]) = None) as HM'.
  { intros c. rewrite HM, elem_entries. split; [by intros [?%elem_of_nil|]|by right]. }
  pose proof Hg as (Hk & HgR & HgP). destruct (moved_solid f M g Hf Hg) as [HsgR HsgP].
  assert (∀ p, ¬ cwd ++ [p] `prefix_of` cwd) as Hcwd by (intros p; apply not_prefix_snoc).
  assert (is_dir_node (nodes g !! cwd) = true) as Hgc.
  { rewrite Hk, after_other; [|apply Hcwd|apply Hcwd| |].
    - apply (Hok cwd (u "runtime")). destruct (nodes f !! RT); [by eexists|done].
    - intros E. apply (Hcwd (u "runtime")). by rewrite <- E.
    - intros E. apply (Hcwd (u "runtime.preexisting")). by rewrite <- E. }
  destruct (nodes g !! PRE) as [[|t|]|] eqn:Et; try done.
  destruct (rmdir_pre g t HsgP Et Hgc) as (h & Eh & Hh).
  pose proof (gone_below f RT Hok) as HnR. pose proof (gone_below f PRE Hok) as HnP.
  assert (∀ p c r, (cwd ++ [p]) ++ c :: r ≠ cwd) as Hnc.
  { intros p c r E. apply (f_equal length) in E. rewrite !length_app in E. cbn [length] in E. lia. }
  exists h. split; [|split; [|split]].
  - unfold _restore_preexisting_into_worktree. erewrite M_bind_ret by reflexivity.
    assert (exists_ cwd RUNTIME_PREEXISTING_DIR f = true) as ->.
    { unfold exists_. rewrite stat_solid by (rewrite ?HP; done). rewrite HP. by destruct (nodes f !! PRE). }
    cbn [negb]. erewrite M_bind_ret by reflexivity. unfold iterdir. rewrite Htop. by erewrite M_bind_ret by exact Eg.
  - intros c r. rewrite Hh by (apply ne_RT || apply Hnc). rewrite Hk, after_RT by apply ne_RT. case_bool_decide as Hc.
    + apply HM' in Hc as [_ ->]. done.
    + destruct (nodes f !! (RT ++ [c])) eqn:E; [done|]. rewrite HnR by done. symmetry. apply HnP.
      destruct (nodes f !! (PRE ++ [c])) eqn:E2; [|done]. destruct Hc. apply HM'. by rewrite E2.
  - intros c r. rewrite Hh by (apply ne_RT || apply Hnc). rewrite Hk, after_PRE by apply ne_RT. case_bool_decide as Hc.
    + by apply HM' in Hc as [_ ->].
    + destruct (nodes f !! (RT ++ [c])) eqn:E; [done|]. apply HnP.
      destruct (nodes f !! (PRE ++ [c])) eqn:E2; [|done]. destruct Hc. apply HM'. by rewrite E2.
  - intros k H1 H2 H3. assert (k ≠ PRE ∧ k ≠ RT) as [N1 N2] by (split; intros ->; [by apply H2|by apply H1]).
    rewrite Hh, Hk by done. by apply after_other.
Qed.
End restoring.

(** ** On concrete file systems *)
Module BootDemo.
#[export] Instance order : DirOrder := {| scandir l := l |}.
#[export] Instance order_laws : DirOrderLaws order.
Proof. intros l. reflexivity. Qed.
#[export] Instance programs : Programs := {|
  environ k := if bool_decide (k = u "MNGR_HOST_DIR") then Some (u "/h") else None;
  sys_run _ _ := mret {| returncode := 0; stdout := []; stderr := [] |} |}.
#[export] Instance jrepr : JsonRepr := {| json_repr _ := u "?"; bytes_repr _ := u "?" |}.
Definition dir : node := NDir 0.
Definition text (s : pystr) : node := NFile (match encode_utf8 s with Ret b => b | Raise _ => [] end).

Definition env : list (pystr * pystr) := [(u "A", bq "say `hi there`"); (u "CLAUDE_CONFIG_DIR", u "/old"); (u "B", u "x=y")].
Definition host : fs := Fs {[ [] := dir; [u "h"] := dir; [u "h"; u "env"] := text (_format_env_file env) ]} 1.
Definition target : path := path_of "/new dir".
Lemma host_ok :
  solid host [u "h"] ∧ env_ok env ∧ nodes host !! [u "h"; u "env"] = Some (text (_format_env_file env)) ∧
  (∃ b, encode_utf8 (_format_env_file env) = Ret b ∧ text (_format_env_file env) = NFile b).
Proof.
  split; [|split; [|split]].
  - change (solid host ([] ++ [u "h"])). apply solid_snoc; [|by vm_compute]. intros k c [r Hr]. by destruct k.
  - split; [apply (bool_decide_unpack _); vm_compute; exact I|]. repeat constructor; vm_compute; reflexivity.
  - vm_compute. reflexivity.
  - eexists. split; vm_compute; reflexivity.
Qed.
Lemma ensure_sets_one_variable_witness :
  ∃ g b t, _ensure_host_claude_config_dir [] target host = (Ret tt, g) ∧
    nodes g !! [u "h"; u "env"] = Some (NFile b) ∧ decode_text b = Ret t ∧
    _parse_env_file t = dset "CLAUDE_CONFIG_DIR" (path_str target) env ∧
    ∀ k, k ≠ [u "h"; u "env"] → nodes g !! k = nodes host !! k.
Proof.
  destruct host_ok as (H1 & H2 & H3 & b & H4 & H5). rewrite H5 in H3.
  assert (path_of "/h" = Path [47%N] [u "h"]) as Hp by (vm_compute; reflexivity).
  assert (loc_of [] (path_of "/h") ++ [u "env"] = [u "h"; u "env"]) as Hl by (rewrite Hp; reflexivity).
  rewrite <- Hl in *.
  apply (ensure_sets_one_variable [] (u "/h") target env host b); try done; try (vm_compute; reflexivity).
  rewrite Hp. apply (bool_decide_unpack _); vm_compute; exact I.
Defined.

(** A crash between the making of the worktree and the restoring. *)
Definition staged : fs := Fs
  {[ [] := dir; [u "runtime"] := dir; [u "runtime"; u ".git"] := text (u "gitdir"); [u "runtime"; u ".gitignore"] := text (u "secrets");
     [u "runtime.preexisting"] := dir; [u "runtime.preexisting"; u ".gitignore"] := text (u "*");
     [u "runtime.preexisting"; u "tickets"] := dir; [u "runtime.preexisting"; u "tickets"; u "t1"] := text (u "a") ]} 1.
Lemma staged_plain : plain_runtime [] staged.
Proof.
  split; [apply tree_ok_by; by vm_compute|split; [apply no_dotdot_by; by vm_compute|split; [|split]]].
  - apply solid_snoc; [|by vm_compute]. intros k c [r Hr]. by destruct k.
  - apply solid_snoc; [|by vm_compute]. intros k c [r Hr]. by destruct k.
  - apply no_links_by. by vm_compute.
Qed.
Lemma restore_spec_witness :
  ∃ g, _restore_preexisting_into_worktree [] staged = (Ret tt, g) ∧
    (∀ c r, nodes g !! (([] ++ [u "runtime"]) ++ c :: r) =
       if nodes staged !! (([] ++ [u "runtime"]) ++ [c]) is Some _ then nodes staged !! (([] ++ [u "runtime"]) ++ c :: r)
       else nodes staged !! (([] ++ [u "runtime.preexisting"]) ++ c :: r)) ∧
    (∀ c r, nodes g !! (([] ++ [u "runtime.preexisting"]) ++ c :: r) =
       if nodes staged !! (([] ++ [u "runtime"]) ++ [c]) is Some _ then nodes staged !! (([] ++ [u "runtime.preexisting"]) ++ c :: r) else None) ∧
    (∀ k, ¬ [] ++ [u "runtime"] `prefix_of` k → ¬ [] ++ [u "runtime.preexisting"] `prefix_of` k → k ≠ [] → nodes g !! k = nodes staged !! k).
Proof. apply (restore_spec [] staged staged_plain). Defined.
Example restored :
  nodes (_restore_preexisting_into_worktree [] staged).2 !! [u "runtime"; u "tickets"; u "t1"] = Some (text (u "a")) ∧
  nodes (_restore_preexisting_into_worktree [] staged).2 !! [u "runtime.preexisting"; u ".gitignore"] = Some (text (u "*")).
Proof. vm_compute. done. Qed.

(** Values of more than one line, which are quoted when written, are cut when
    the file is rewritten. *)
Example multiline_value_cut :
  _parse_env_file (_format_env_file [(u "KEY", u "one" ++ [nl] ++ u "two")]) = [(u "KEY", bq "`one")].
Proof. vm_compute. reflexivity. Qed.

(** What an interrupted initialisation had staged aside is deleted when the
    runtime directory has files again. *)
Definition staged_twice : fs := Fs
  {[ [] := dir; [u "runtime"] := dir; [u "runtime"; u "new"] := text (u "n");
     [u "runtime.preexisting"] := dir; [u "runtime.preexisting"; u "ticket"] := text (u "a") ]} 1.
Example staged_content_lost :
  _runtime_dir_has_files [] staged_twice = true ∧
  let g := (_stage_preexisting_aside [] staged_twice).2 in
  nodes g !! [u "runtime.preexisting"; u "new"] = Some (text (u "n")) ∧
  map fst (List.filter (λ kn, match kn.2 with NFile [97%N] => true | _ => false end) (map_to_list (nodes g))) = [].
Proof. vm_compute. done. Qed.

(** A data.json that holds a list: the boot ends before supervisord. *)
Definition bad_data : fs := Fs {[ [] := dir; [u "h"] := dir; [u "h"; u "data.json"] := text (u "[]") ]} 1.
Example bad_data_stops_boot : (_bootstrap_init_chat_dir [] bad_data).1 = Raise AttributeError.
Proof. vm_compute. reflexivity. Qed.
End BootDemo.
