(* ===== verification/TaskFiles.v ===== *)
(** * The task files of the workers

    The frontmatter of a worker's task file, as two scripts read it:
    [.agents/shared/scripts/parse_task_frontmatter.py], which hands the fields to
    a shell, and the readers of
    [.agents/skills/launch-task/scripts/create_worker.py], which also parses the
    reports.  PyYAML and [glob] are parameters.  [sh_eval] is a reference reading
    of what a POSIX shell does with the lines printed. *)

From Stdlib Require Import NArith ZArith QArith Lia ZifyBool ZifyN.
From S2P Require Import Prelude PyStr PyJson PyMonad PyBytes PyPath PyFs.
From stdpp Require Import options.
#[global] Open Scope nat_scope.
#[local] Open Scope py_scope.

(** What [yaml.safe_load] returns. *)
Inductive yaml := YNull | YStr (s : pystr) | YMap (l : list (yaml * yaml)) | YOther (type_name : pystr).
Class YamlLib := {
  (** [inr exc] is [yaml.YAMLError], with its text *)
  safe_load : pystr → yaml + pystr }.

Definition type_name (v : yaml) : pystr :=
  match v with YNull => u "NoneType" | YStr _ => u "str" | YMap _ => u "dict" | YOther t => t end.
(** [d.get(key)] for a string key *)
Fixpoint yget (key : pystr) (d : list (yaml * yaml)) : option yaml :=
  match d with
  | [] => None
  | (YStr k, v) :: d' => if key =? k then Some v else yget key d'
  | _ :: d' => yget key d'
  end.

Definition fence : pystr := u "---".
(** [lines.index("---", 1)], as the lines before and after it *)
Fixpoint until_fence (lines : list pystr) : option (list pystr * list pystr) :=
  match lines with
  | [] => None
  | l :: lines' =>
      if l =? fence then Some ([], lines')
      else match until_fence lines' with Some (a, b) => Some (l :: a, b) | None => None end
  end.
(** [s.strip("\n")] *)
Definition strip_char (c : N) (s : pystr) : pystr := rstrip_char c (lstrip_char c s).

Section files.
Context (cwd : loc) `{YamlLib}.

(** ** parse_task_frontmatter.py *)
Definition _REQUIRED_FIELDS : list pystr := [u "lead_agent"; u "finish_report_path"].

Definition is_ident_start (c : N) : bool := is_letter c || (c =? 95)%N.
Definition is_ident_char (c : N) : bool := is_ident_start c || is_digit c.
(** [_SHELL_IDENTIFIER_RE.match(key)]: the dollar sign also matches before a
    final newline. *)
Definition ident (s : pystr) : bool := match s with c :: s' => is_ident_start c && forallb is_ident_char s' | [] => false end.
Definition _SHELL_IDENTIFIER_RE (key : pystr) : bool :=
  ident key || (ident (removelast key) && (List.last key 0%N =? nl)%N).

(** [glob_matches] is [sorted(glob.glob(pattern))]. *)
Definition resolve (glob_matches : list pystr) (pattern : pystr) : outcome path :=
  match glob_matches with
  | [] => Raise (ValueError (u "no task file matches pattern: " ++ pattern))
  | [m] => Ret (path_of m)
  | ms => Raise (ValueError (u "pattern matches " ++ str_of_Z (Z.of_nat (length ms)) ++ u " files (want exactly 1): " ++ join (u ", ") ms))
  end.

Definition _split_frontmatter (text : pystr) : outcome (list (yaml * yaml)) :=
  match splitlines text with
  | [] => Raise (ValueError (u "task file must start with `---` frontmatter delimiter"))
  | first :: rest =>
      if strip first <>? fence then Raise (ValueError (u "task file must start with `---` frontmatter delimiter"))
      else
        match until_fence rest with
        | None => Raise (ValueError (u "task file frontmatter is not terminated with `---`"))
        | Some (fm, _) =>
            match safe_load (join [nl] fm) with
            | inr exc => Raise (ValueError (u "task file frontmatter is not valid YAML: " ++ exc))
            | inl (YMap d) => Ret d
            | inl _ => Raise (ValueError (u "task file frontmatter must be a YAML mapping"))
            end
        end
  end.

Fixpoint check_required (fields : list pystr) (d : list (yaml * yaml)) : outcome unit :=
  match fields with
  | [] => Ret tt
  | field :: fields' =>
      match yget field d with
      | None => Raise (ValueError (u "frontmatter is missing required field `" ++ field ++ u "`"))
      | Some (YStr []) => Raise (ValueError (u "frontmatter." ++ field ++ u " must not be empty"))
      | Some (YStr _) => check_required fields' d
      | Some v => Raise (ValueError (u "frontmatter." ++ field ++ u " must be a string, got " ++ type_name v))
      end
  end.
(** The items whose value is a non-empty string. *)
Definition string_items (d : list (yaml * yaml)) : list (yaml * pystr) :=
  omap (λ kv, match kv.2 with YStr (c :: s) => Some (kv.1, c :: s) | _ => None end) d.
(** The keys that are no required field: a key that is no string cannot be
    matched. *)
Fixpoint check_keys (items : list (yaml * pystr)) : outcome (list (pystr * pystr)) :=
  match items with
  | [] => Ret []
  | (YStr key, v) :: items' =>
      if (key ∈? _REQUIRED_FIELDS) || _SHELL_IDENTIFIER_RE key then rest ← check_keys items'; Ret ((key, v) :: rest)
      else Raise (ValueError (u "frontmatter key `" ++ key ++ u "` is not a valid shell identifier (must match ^[A-Za-z_][A-Za-z0-9_]*$); rename it using snake_case so downstream `eval` can consume the rendered KEY=value line."))
  | _ => Raise TypeError
  end.
Definition parse (task_file : path) (f : fs) : outcome (list (pystr * pystr)) :=
  match stat cwd f task_file with
  | Some (_, NFile _) =>
      text ← read_text_of cwd task_file f;
      d ← _split_frontmatter text;
      check_required _REQUIRED_FIELDS d;;
      check_keys (string_items d)
  | _ => Raise (ValueError (u "task file not found: " ++ path_str task_file))
  end.

(** [shlex.quote(s)] *)
Definition shell_safe (c : N) : bool := is_letter c || is_digit c || (c ∈? u "_@%+=:,./-").
Definition shlex_quote (s : pystr) : pystr :=
  match s with
  | [] => u "''"
  | _ => if forallb shell_safe s then s else u "'" ++ replace_char 39 [39; 34; 39; 34; 39]%N s ++ u "'"
  end.
Definition render_line (kv : pystr * pystr) : pystr := upper_ascii kv.1 ++ u "=" ++ shlex_quote kv.2.
(** The keys in the order they are printed. *)
Definition ordered (fields : list (pystr * pystr)) : list pystr :=
  _REQUIRED_FIELDS ++ sort_by str_leb (List.filter (λ k, k ∉? _REQUIRED_FIELDS) (dkeys fields)).
Definition rendered_fields (fields : list (pystr * pystr)) : list (pystr * pystr) :=
  omap (λ k, match dget k fields with Some v => Some (k, v) | None => None end) (ordered fields).
Definition _render (fields : list (pystr * pystr)) : pystr := join [nl] (map render_line (rendered_fields fields)) ++ [nl].

(** The exit code, with what is printed on stdout. *)
Definition task_main (glob_matches : list pystr) (pattern : pystr) (f : fs) : outcome (Z * pystr) :=
  match task_file ← resolve glob_matches pattern; parse task_file f with
  | Ret fields => Ret (0%Z, _render fields)
  | Raise (ValueError _) => Ret (1%Z, [])
  | Raise e => Raise e
  end.
End files.

(** ** What a shell makes of it *)

(** One command line [NAME=word] as a POSIX shell reads it: the value up to an
    unquoted newline, and the rest; [None] when it is more than an assignment of
    literal text. *)
Inductive quoting := Plain | Single | Double.
Fixpoint sh_word (m : quoting) (s : pystr) : option (pystr * pystr) :=
  match s with
  | [] => None
  | c :: s' =>
      let lit m := match sh_word m s' with Some (w, rest) => Some (c :: w, rest) | None => None end in
      match m with
      | Plain =>
          if (c =? nl)%N then Some ([], s')
          else if (c =? 39)%N then sh_word Single s'
          else if (c =? 34)%N then sh_word Double s'
          else if shell_safe c then lit Plain else None
      | Single => if (c =? 39)%N then sh_word Plain s' else lit Single
      | Double => if (c =? 34)%N then sh_word Plain s' else if c ∈? [36; 92; 96]%N then None else lit Double
      end
  end.
Fixpoint sh_eval (fuel : nat) (s : pystr) : option (list (pystr * pystr)) :=
  match s, fuel with
  | [], _ => Some []
  | _, O => None
  | _, S fuel =>
      match split_once 61 s with
      | Some (name, s') =>
          if ident name then
            match sh_word Plain s' with
            | Some (v, rest) => match sh_eval fuel rest with Some l => Some ((name, v) :: l) | None => None end
            | None => None
            end
          else None
      | None => None
      end
  end.
(** The value of a variable after the assignments: the last one counts. *)
Definition sh_value (name : pystr) (l : list (pystr * pystr)) : option pystr := dget name (reverse l).

(** ** Facts *)

Lemma shell_safe_plain c : shell_safe c = true → (c =? nl)%N = false ∧ (c =? 39)%N = false ∧ (c =? 34)%N = false.
Proof.
  intros Hc. assert (∀ d, shell_safe d = false → (c =? d)%N = false) as Hne.
  { intros d Hd. destruct (N.eqb_spec c d) as [->|]; [congruence|done]. }
  split_and!; apply Hne; vm_compute; reflexivity.
Qed.

Lemma sh_word_safe v rest : forallb shell_safe v = true → sh_word Plain (v ++ nl :: rest) = Some (v, rest).
Proof.
  induction v as [|c v IH]; [done|]. cbn [forallb]. intros [Hc Hv]%andb_true_iff. cbn [app sh_word].
  destruct (shell_safe_plain c Hc) as (-> & -> & ->). by rewrite Hc, IH.
Qed.

Definition prepend (v : pystr) (r : option (pystr * pystr)) : option (pystr * pystr) :=
  match r with Some (w, rest) => Some (v ++ w, rest) | None => None end.

(** Inside single quotes: a quote is spelled by closing, double-quoting it and
    opening again. *)
Lemma sh_word_quoted v s :
  sh_word Single (replace_char 39 [39; 34; 39; 34; 39]%N v ++ 39%N :: s) = prepend v (sh_word Plain s).
Proof.
  unfold replace_char. induction v as [|c v IH]; cbn [map concat].
  - cbn [app sh_word]. by destruct (sh_word Plain s) as [[]|].
  - rewrite <- app_assoc. destruct (N.eqb_spec c 39) as [->|Hc].
    + change (sh_word Single ([39; 34; 39; 34; 39]%N ++ concat (map (λ c, if (c =? 39)%N then [39; 34; 39; 34; 39]%N else [c]) v) ++ 39%N :: s))
        with (match sh_word Single (concat (map (λ c, if (c =? 39)%N then [39; 34; 39; 34; 39]%N else [c]) v) ++ 39%N :: s) with
              | Some (w, rest) => Some (39%N :: w, rest) | None => None end).
      rewrite IH. by destruct (sh_word Plain s) as [[]|].
    + cbn [app sh_word]. apply N.eqb_neq in Hc as ->. rewrite IH. by destruct (sh_word Plain s) as [[]|].
Qed.

Lemma sh_word_quote v rest : sh_word Plain (shlex_quote v ++ nl :: rest) = Some (v, rest).
Proof.
  unfold shlex_quote. destruct v as [|c v]; [done|]. destruct (forallb shell_safe (c :: v)) eqn:E; [by apply sh_word_safe|].
  change (u "'") with [39%N]. cbn [app]. rewrite <- !app_assoc. cbn [app].
  change (sh_word Plain (39%N :: replace_char 39 [39; 34; 39; 34; 39]%N (c :: v) ++ 39%N :: nl :: rest))
    with (sh_word Single (replace_char 39 [39; 34; 39; 34; 39]%N (c :: v) ++ 39%N :: nl :: rest)).
  rewrite sh_word_quoted. change (sh_word Plain (nl :: rest)) with (Some (@nil N, rest)). cbn [prepend]. by rewrite app_nil_r.
Qed.

Lemma upper_char c :
  (is_ident_char c = true → let d := (if is_lower c then c - 32 else c)%N in is_ident_char d = true ∧ d ≠ 61%N) ∧
  (is_ident_start c = true → is_ident_start (if is_lower c then c - 32 else c)%N = true).
Proof.
  unfold is_ident_char, is_ident_start, is_letter. cbv zeta. destruct (is_lower c) eqn:E; unfold is_lower, is_upper, is_digit in *; lia.
Qed.
Lemma upper_ident k : ident k = true → ident (upper_ascii k) = true ∧ 61%N ∉ upper_ascii k.
Proof.
  intros Hk. destruct k as [|c k]; [done|]. cbn [ident] in Hk. apply andb_true_iff in Hk as [Hc1 Hk].
  assert (is_ident_char c = true) as Hc2 by (unfold is_ident_char; by rewrite Hc1). split.
  - cbn [upper_ascii map ident]. apply andb_true_iff. split.
    + by apply upper_char.
    + rewrite forallb_forall in *. intros d Hd. apply in_map_iff in Hd as (e & <- & He). by apply upper_char, Hk.
  - unfold upper_ascii. intros Hin. apply list_elem_of_In, in_map_iff in Hin as (e & E & He).
    destruct (proj1 (upper_char e)) as [_ Hne]; [|by apply Hne]. destruct He as [->|He]; [done|]. rewrite forallb_forall in Hk. by apply Hk.
Qed.

Lemma split_once_first c a b : c ∉ a → split_once c (a ++ c :: b) = Some (a, b).
Proof.
  intros Ha. unfold split_once. assert (find [c] (a ++ c :: b) = Some (length a)) as ->.
  { induction a as [|d a IH]; cbn [app find startswith]; [by rewrite N.eqb_refl|].
    apply not_elem_of_cons in Ha as [Hd Ha]. apply N.eqb_neq in Hd. rewrite Hd. cbn [andb]. by rewrite IH. }
  rewrite take_app_length. f_equal. f_equal. rewrite drop_app_ge by lia. by replace (S (length a) - length a) with 1 by lia.
Qed.

(** The lines printed are read as the assignments they stand for. *)
Lemma sh_eval_lines kvs :
  Forall (λ kv, ident kv.1 = true) kvs →
  ∀ fuel, length kvs < fuel → sh_eval fuel (entry_lines (map render_line kvs)) = Some (map (λ kv, (upper_ascii kv.1, kv.2)) kvs).
Proof.
  induction 1 as [|[k v] kvs Hk _ IH]; intros fuel Hf; [by destruct fuel|]. destruct fuel as [|fuel]; [lia|].
  destruct (upper_ident k Hk) as [Hid H61]. unfold entry_lines. cbn [map concat]. fold (entry_lines (map render_line kvs)).
  unfold render_line at 1. cbn [fst snd]. rewrite <- !app_assoc. cbn [app].
  destruct (upper_ascii k ++ u "=" ++ shlex_quote v ++ nl :: entry_lines (map render_line kvs)) as [|x s] eqn:E; [by destruct (upper_ascii k)|].
  cbn [sh_eval]. rewrite <- E. change (u "=" ++ shlex_quote v ++ nl :: entry_lines (map render_line kvs))
    with (61%N :: (shlex_quote v ++ nl :: entry_lines (map render_line kvs))).
  rewrite split_once_first by done. rewrite Hid, sh_word_quote. rewrite IH by (cbn [length] in Hf; lia). done.
Qed.

Lemma dget_unique {V} (d : list (pystr * V)) k v : NoDup (dkeys d) → (k, v) ∈ d → dget k d = Some v.
Proof.
  induction d as [|[k' v'] d IH]; intros Hnd Hin; [by apply elem_of_nil in Hin|]. cbn in *. apply NoDup_cons in Hnd as [Hk Hnd].
  apply elem_of_cons in Hin as [[= -> ->]|Hin]; [by rewrite bool_decide_eq_true_2|].
  rewrite bool_decide_eq_false_2; [by apply IH|]. intros ->. apply Hk. unfold dkeys. apply list_elem_of_In, in_map_iff.
  exists (k', v). split; [done|]. by apply list_elem_of_In.
Qed.
Lemma elem_dkeys {V} (d : list (pystr * V)) k : k ∈ dkeys d ↔ ∃ v, (k, v) ∈ d.
Proof.
  unfold dkeys. rewrite list_elem_of_In, in_map_iff. split.
  - intros ([k' v] & <- & Hin). exists v. by apply list_elem_of_In.
  - intros [v Hin]. exists (k, v). split; [done|]. by apply list_elem_of_In.
Qed.

(** The fields printed are the fields, in some order. *)
Lemma rendered_perm fields :
  NoDup (dkeys fields) → Forall (λ r, r ∈ dkeys fields) _REQUIRED_FIELDS → rendered_fields fields ≡ₚ fields.
Proof.
  intros Hnd Hreq. assert (NoDup (ordered fields)) as Ho.
  { unfold ordered. apply NoDup_app. split; [apply (bool_decide_unpack _); vm_compute; exact I|]. split.
    - intros k Hk. rewrite sort_by_elem, list_elem_of_In, filter_In. intros [_ Hn]. by rewrite bool_decide_eq_true_2 in Hn.
    - rewrite sort_by_perm. revert Hnd. generalize (dkeys fields). induction l as [|k l IH]; [done|].
      intros [Hk Hl]%NoDup_cons. cbn. destruct (negb _); [|by apply IH]. constructor; [|by apply IH].
      rewrite list_elem_of_In, filter_In. intros [Hin _]. by apply Hk, list_elem_of_In. }
  assert (∀ k, k ∈ dkeys fields → k ∈ ordered fields) as Hin.
  { intros k Hk. unfold ordered. rewrite elem_of_app. destruct (decide (k ∈ _REQUIRED_FIELDS)) as [Hr|Hr]; [by left|right].
    rewrite sort_by_elem, list_elem_of_In, filter_In. split; [by apply list_elem_of_In|]. by rewrite bool_decide_eq_false_2. }
  apply NoDup_Permutation.
  - unfold rendered_fields. clear Hin Hreq. revert Ho. generalize (ordered fields). induction l as [|k l IH]; [constructor|].
    intros [Hk Hl]%NoDup_cons. cbn [omap list_omap]. destruct (dget k fields) as [v|]; [|by apply IH]. constructor; [|by apply IH].
    intros Hi. apply list_elem_of_omap in Hi as (k' & Hk' & E). destruct (dget k' fields); [|done]. injection E as -> _. done.
  - apply (NoDup_fmap_1 fst). exact Hnd.
  - intros [k v]. unfold rendered_fields. rewrite list_elem_of_omap. split.
    + intros (k' & _ & E). destruct (dget k' fields) as [w|] eqn:Ed; [|done]. injection E as -> ->. by apply dget_elem.
    + intros Hkv. exists k. split; [apply Hin; apply elem_dkeys; by exists v|]. by rewrite (dget_unique _ k v).
Qed.

Section parsed.
Context (cwd : loc) `{YamlLib}.

Lemma check_required_ok fields d : check_required fields d = Ret tt → Forall (λ r, ∃ c s, yget r d = Some (YStr (c :: s))) fields.
Proof.
  induction fields as [|r fields IH]; [constructor|]. cbn. destruct (yget r d) as [[| [|c s]| |]|] eqn:E; try done.
  intros Hr. constructor; [by eexists _, _|by apply IH].
Qed.
Lemma yget_items r d c s : yget r d = Some (YStr (c :: s)) → (YStr r, c :: s) ∈ string_items d.
Proof.
  unfold string_items. induction d as [|[k v] d IH]; [done|]. intros Hd. cbn [omap list_omap snd fst].
  assert (yget r ((k, v) :: d) = match k with YStr k' => if r =? k' then Some v else yget r d | _ => yget r d end) as E by done.
  rewrite E in Hd. destruct k as [|k'| |]; try (specialize (IH Hd); destruct v as [|[]| |]; try done; by right).
  case_bool_decide as Er; [|specialize (IH Hd); destruct v as [|[]| |]; try done; by right].
  injection Hd as ->. subst. left.
Qed.
Lemma check_keys_ok items fields :
  check_keys items = Ret fields →
  (∀ k v, (k, v) ∈ fields ↔ (YStr k, v) ∈ items) ∧ Forall (λ kv, kv.1 ∈ _REQUIRED_FIELDS ∨ _SHELL_IDENTIFIER_RE kv.1 = true) fields.
Proof.
  revert fields. induction items as [|[k v] items IH]; intros fields; cbn [check_keys].
  { intros [= <-]. split; [|constructor]. intros k v. by rewrite !elem_of_nil. }
  destruct k as [|k| |]; try done. destruct (_ || _) eqn:Eo; [|done]. intros Hf. inv_Ret Hf. injection Hf as <-.
  destruct (IH _ E) as [H1 H2]. split.
  - intros k' v'. rewrite !elem_of_cons, H1. naive_solver.
  - constructor; [|done]. cbn. apply orb_true_iff in Eo as [Eo|Eo]; [left; by apply bool_decide_eq_true in Eo|by right].
Qed.

(** C26: what the lead writes is what the worker gets: when a task file is
    accepted, no two of its keys differ in case only and no key holds a newline
    (a final one is accepted, [newline_key_runs]), the lines printed are read by a
    shell as assignments of literal text, one per field, each field's variable has
    exactly its value, quotes and newlines included, and the required ones are
    there and not empty. *)
Theorem task_fields_evaluated task_file f fields :
  parse cwd task_file f = Ret fields → NoDup (map upper_ascii (dkeys fields)) → Forall (λ k, nl ∉ k) (dkeys fields) →
  ∃ l, sh_eval (S (length fields)) (_render fields) = Some l ∧ length l = length fields ∧
    (∀ k v, (k, v) ∈ fields → sh_value (upper_ascii k) l = Some v) ∧
    (∀ r, r ∈ _REQUIRED_FIELDS → ∃ c s, sh_value (upper_ascii r) l = Some (c :: s)).
Proof.
  intros Hp Hup Hnl. unfold parse in Hp. destruct (stat cwd f task_file) as [[? [data| |]]|]; try done.
  inv_Ret Hp. destruct a1. apply check_required_ok in E1. destruct (check_keys_ok _ _ Hp) as [Hitems Hkeys].
  assert (NoDup (dkeys fields)) as Hnd by by apply (NoDup_fmap_1 upper_ascii).
  assert (Forall (λ r, ∃ c s, (r, c :: s) ∈ fields) _REQUIRED_FIELDS) as Hreq.
  { eapply Forall_impl; [exact E1|]. intros r (c & s & Hr). exists c, s. by apply Hitems, yget_items. }
  assert (rendered_fields fields ≡ₚ fields) as Hperm.
  { apply rendered_perm; [done|]. eapply Forall_impl; [exact Hreq|]. intros r (c & s & Hr). apply elem_dkeys. by exists (c :: s). }
  assert (Forall (λ kv : pystr * pystr, ident kv.1 = true) (rendered_fields fields)) as Hid.
  { rewrite Hperm. apply Forall_forall. intros [k v] Hkv. rewrite Forall_forall in Hkeys. destruct (Hkeys _ Hkv) as [Hr|Hr]; cbn in *.
    - revert Hr. unfold _REQUIRED_FIELDS. rewrite !elem_of_cons, elem_of_nil. intros [->|[->|[]]]; vm_compute; reflexivity.
    - unfold _SHELL_IDENTIFIER_RE in Hr. apply orb_true_iff in Hr as [Hr|Hr]; [done|]. apply andb_true_iff in Hr as [_ Hr%N.eqb_eq].
      rewrite Forall_forall in Hnl. destruct (Hnl k); [apply elem_dkeys; by exists v|]. destruct k as [|c k]; [done|].
      rewrite <- Hr. apply list_elem_of_In. destruct (exists_last (l := c :: k) ltac:(done)) as (w & d & El). rewrite El, List.last_last.
      apply in_app_iff. right. by left. }
  exists (map (λ kv, (upper_ascii kv.1, kv.2)) (rendered_fields fields)).
  assert (∀ k v, (k, v) ∈ fields → sh_value (upper_ascii k) (map (λ kv, (upper_ascii kv.1, kv.2)) (rendered_fields fields)) = Some v) as Hval.
  { intros k v Hkv. unfold sh_value. apply dget_unique.
    - unfold dkeys. rewrite reverse_Permutation, map_map. cbn. rewrite Hperm. unfold dkeys in Hup. by rewrite map_map in Hup.
    - apply elem_of_reverse, list_elem_of_In, in_map_iff. exists (k, v). split; [done|]. apply list_elem_of_In. by rewrite Hperm. }
  split_and!.
  - unfold _render. rewrite join_entry_lines.
    + apply sh_eval_lines; [done|]. rewrite Hperm. lia.
    + apply Forall_cons in Hreq as [(c & s & Hr) _]. rewrite <- Hperm in Hr. by destruct (rendered_fields fields); [apply elem_of_nil in Hr|].
  - by rewrite length_map, Hperm.
  - exact Hval.
  - intros r Hr. rewrite Forall_forall in Hreq. destruct (Hreq r Hr) as (c & s & Hrs). exists c, s. by apply Hval.
Qed.
End parsed.

(** ** On concrete task files *)
Module TaskDemo.
(** A loader that knows four files by their first line. *)
Definition lead : list (yaml * yaml) := [(YStr (u "lead_agent"), YStr (u "me")); (YStr (u "finish_report_path"), YStr (u "r.md"))].
#[export] Instance lib : YamlLib := {| safe_load s :=
  if startswith "good" s then inl (YMap (lead ++ [(YStr (u "note"), YStr (u "it's" ++ [nl] ++ u "$HOME")); (YStr (u "n"), YOther (u "int"))]))
  else if startswith "twice" s then inl (YMap (lead ++ [(YStr (u "LEAD_AGENT"), YStr (u "other"))]))
  else if startswith "newline" s then inl (YMap (lead ++ [(YStr (u "touch" ++ [nl]), YStr (u "v"))]))
  else inr (u "bad") |}.
Definition text (s : pystr) : node := NFile (match encode_utf8 s with Ret b => b | Raise _ => [] end).
Definition task (first : pystr) : fs := Fs {[ [] := NDir 0%Q; [u "task.md"] := text (join [nl] [u "---"; first; u "---"; u "Do it."]) ]} 1.
Definition fields (first : pystr) : outcome (list (pystr * pystr)) := parse [] (path_of "task.md") (task first).

Lemma good_fields : fields (u "good") = Ret [(u "lead_agent", u "me"); (u "finish_report_path", u "r.md"); (u "note", u "it's" ++ [nl] ++ u "$HOME")].
Proof. vm_compute. reflexivity. Qed.
Definition good : list (pystr * pystr) := [(u "lead_agent", u "me"); (u "finish_report_path", u "r.md"); (u "note", u "it's" ++ [nl] ++ u "$HOME")].
Lemma good_keys : NoDup (map upper_ascii (dkeys good)) ∧ Forall (λ k, nl ∉ k) (dkeys good).
Proof. split; apply (bool_decide_unpack _); vm_compute; exact I. Qed.
Lemma task_fields_evaluated_witness :
  ∃ l, sh_eval (S (length good)) (_render good) = Some l ∧ length l = length good ∧
    (∀ k v, (k, v) ∈ good → sh_value (upper_ascii k) l = Some v) ∧
    (∀ r, r ∈ _REQUIRED_FIELDS → ∃ c s, sh_value (upper_ascii r) l = Some (c :: s)).
Proof. apply (task_fields_evaluated [] (path_of "task.md") (task (u "good")) good good_fields (proj1 good_keys) (proj2 good_keys)). Defined.

(** A key that differs from a required one in case only takes its place. *)
Example required_field_overridden :
  match fields (u "twice") with
  | Ret fs => (l ← sh_eval 4 (_render fs); sh_value "LEAD_AGENT" l) = Some (u "other")
  | Raise _ => False
  end.
Proof. vm_compute. reflexivity. Qed.
(** A key with a final newline is accepted, and the line it makes is a command. *)
Example newline_key_runs :
  match fields (u "newline") with
  | Ret fs => sh_eval 4 (_render fs) = None ∧ contains ([nl] ++ u "TOUCH" ++ [nl] ++ u "=v") (_render fs) = true
  | Raise _ => False
  end.
Proof. vm_compute. done. Qed.
End TaskDemo.
