(* ===== verification/AgentManager.v ===== *)
(** * The agent manager

    [SI/agent_manager.py]: the agents the interface knows, kept up to date from
    the stream of [mngr observe], from creations and from destructions, by
    threads that share the manager under its lock; and
    [SI/agent_discovery.py], finding an agent's files and messaging it.

    Every operation is a [prog]: its critical sections are atomic, everything it
    asks of files, children and mngr is a [question].  The order of the entries of
    a [dict] is left out where it is a [gmap]; log messages are left out. *)

From Stdlib Require Import NArith ZArith QArith Lia.
From S2P Require Import Prelude PyStr PyJson PyMonad PyKeyed PyBytes PyPath PyThreads ActivityState WsBroadcaster LayoutServer TaskFiles.
From stdpp Require Import options.
#[global] Open Scope nat_scope.
#[local] Open Scope py_scope.

Definition _APPLICATIONS_TOML_FILENAME : pystr := u "runtime/applications.toml".
Definition _APPLICATIONS_TOML_BASENAME : pystr := u "applications.toml".
Definition _DEFAULT_MNGR_BINARY : pystr := u "mngr".
Definition _COMPLETION_SIGNAL_PUT_TIMEOUT_SECONDS : Q := 5.
Definition _LOG_QUEUE_SIZE : nat := 10000.

Abbreviation label_map := (list (pystr * pystr)).

(** ** Commands *)

Definition inherit_label (key : pystr) (from : label_map) : list pystr :=
  match dget key from with Some v => [u "--label"; key ++ u "=" ++ v] | None => [] end.

Definition _build_worktree_create_command (mngr_binary name agent_id current_branch new_branch : pystr)
    (parent_labels : label_map) : list pystr :=
  [mngr_binary; u "create"; name; u "--id"; agent_id; u "--transfer"; u "git-worktree";
   u "--branch"; current_branch ++ u ":" ++ new_branch; u "--template"; u "worktree";
   u "--label"; u "user_created=true"; u "--label"; u "workspace=" ++ name; u "--no-connect"]
  ++ inherit_label (u "project") parent_labels.

Definition _build_chat_create_command (mngr_binary name agent_id : pystr) (primary_labels : label_map) : list pystr :=
  [mngr_binary; u "create"; name; u "--id"; agent_id; u "--transfer"; u "none"; u "--template"; u "chat"; u "--no-connect"]
  ++ concat (map (λ key, inherit_label key primary_labels) [u "workspace"; u "project"]).

Definition _build_observe_command_argv (mngr_binary : pystr) : list pystr :=
  [mngr_binary; u "observe"; u "--discovery-only"].

(** ** What mngr tells *)

Record DiscoveredAgent := {
  host_id : pystr; agent_id : pystr; agent_name : pystr; provider_name : pystr;
  d_labels : label_map; d_work_dir : option path }.
Inductive discovery_event :=
  | FullDiscoverySnapshotEvent (agents : list DiscoveredAgent)
  | AgentDiscoveryEvent (agent : DiscoveredAgent)
  | AgentDestroyedEvent (agent_id : pystr)
  | HostDestroyedEvent (agent_ids : list pystr)
  | OtherEvent.

Record AgentMatch := { m_agent_id : pystr; m_agent_name : pystr; m_host_id : pystr; m_host_name : pystr; m_provider_name : pystr }.
Definition _UNUSED_HOST_NAME : pystr := u "unknown".
Definition _build_agent_match (agent : DiscoveredAgent) : AgentMatch :=
  {| m_agent_id := agent_id agent; m_agent_name := agent_name agent; m_host_id := host_id agent;
     m_host_name := _UNUSED_HOST_NAME; m_provider_name := provider_name agent |}.

(** What [list_agents] of mngr tells of an agent. *)
Record AgentDetails := { x_id : pystr; x_name : pystr; x_state : option pystr; x_labels : label_map; x_work_dir : pystr }.
Record AgentInfo := {
  i_id : pystr; i_name : pystr; i_state : pystr; i_labels : label_map; i_work_dir : option pystr;
  agent_state_dir : path; claude_config_dir : path }.

(** ** The manager's state *)

Record proto_agent := { p_agent_id : pystr; p_name : pystr; creation_type : pystr; parent_agent_id : option pystr }.
(** [revision] counts the writes to [_agents]; a broadcast of agents is logged
    with the revision it shows. *)
Inductive message :=
  | AgentsUpdated (revision : nat) (agents : gmap pystr AgentStateItem)
  | ApplicationsUpdated (applications : list ApplicationEntry)
  | ProtoAgentCreated (p : proto_agent)
  | ProtoAgentCompleted (agent_id : pystr) (success : bool) (error : option pystr).

Record registry := {
  core : manager; (** [_agents] and the activity caches *)
  revision : nat;
  _match_by_agent_id : gmap pystr AgentMatch;
  _applications : list ApplicationEntry;
  _app_observers : gmap pystr nat;
  _proto_agents : gmap pystr proto_agent;
  _log_queues : gmap pystr nat;
  log_lines : gmap nat (list (option pystr)); (** what each log queue holds *)
  fresh_log : nat;
  observing : bool; (** [_observe_cg] is not [None] *)
  _shutdown_event : bool;
  _broadcaster : WsBroadcaster.broadcaster;
  sent : list message; (** every broadcast so far *)
  delivered : list (qid * pystr); (** what the WebSocket of each client was sent *)
}.

Definition new_manager : manager :=
  {| _activity_tracked_agents := ∅; _has_unmatched_tool_use_by_agent := ∅; _last_event_type_by_agent := ∅;
     _last_event_timestamp_by_agent := ∅; _activity_state_by_agent := ∅; _agents := ∅; ActivityState.agents_updated := [] |}.
Definition build (b : WsBroadcaster.broadcaster) : registry :=
  {| core := new_manager; revision := 0; _match_by_agent_id := ∅; _applications := []; _app_observers := ∅;
     _proto_agents := ∅; _log_queues := ∅; log_lines := ∅; fresh_log := 0; observing := false; _shutdown_event := false;
     _broadcaster := b; sent := []; delivered := [] |}.

(** A write that may change [_agents] is a new revision. *)
Definition with_core (bump : bool) (m : manager) (r : registry) : registry :=
  {| core := m; revision := if bump then S (revision r) else revision r; _match_by_agent_id := _match_by_agent_id r; _applications := _applications r;
     _app_observers := _app_observers r; _proto_agents := _proto_agents r; _log_queues := _log_queues r;
     log_lines := log_lines r; fresh_log := fresh_log r; observing := observing r; _shutdown_event := _shutdown_event r;
     _broadcaster := _broadcaster r; sent := sent r; delivered := delivered r |}.
Definition with_matches (x : gmap pystr AgentMatch) (r : registry) : registry :=
  {| core := core r; revision := revision r; _match_by_agent_id := x; _applications := _applications r;
     _app_observers := _app_observers r; _proto_agents := _proto_agents r; _log_queues := _log_queues r;
     log_lines := log_lines r; fresh_log := fresh_log r; observing := observing r; _shutdown_event := _shutdown_event r;
     _broadcaster := _broadcaster r; sent := sent r; delivered := delivered r |}.
Definition with_applications (x : list ApplicationEntry) (r : registry) : registry :=
  {| core := core r; revision := revision r; _match_by_agent_id := _match_by_agent_id r; _applications := x;
     _app_observers := _app_observers r; _proto_agents := _proto_agents r; _log_queues := _log_queues r;
     log_lines := log_lines r; fresh_log := fresh_log r; observing := observing r; _shutdown_event := _shutdown_event r;
     _broadcaster := _broadcaster r; sent := sent r; delivered := delivered r |}.
Definition with_observers (x : gmap pystr nat) (r : registry) : registry :=
  {| core := core r; revision := revision r; _match_by_agent_id := _match_by_agent_id r; _applications := _applications r;
     _app_observers := x; _proto_agents := _proto_agents r; _log_queues := _log_queues r;
     log_lines := log_lines r; fresh_log := fresh_log r; observing := observing r; _shutdown_event := _shutdown_event r;
     _broadcaster := _broadcaster r; sent := sent r; delivered := delivered r |}.
Definition with_creations (p : gmap pystr proto_agent) (q : gmap pystr nat) (r : registry) : registry :=
  {| core := core r; revision := revision r; _match_by_agent_id := _match_by_agent_id r; _applications := _applications r;
     _app_observers := _app_observers r; _proto_agents := p; _log_queues := q;
     log_lines := log_lines r; fresh_log := fresh_log r; observing := observing r; _shutdown_event := _shutdown_event r;
     _broadcaster := _broadcaster r; sent := sent r; delivered := delivered r |}.
Definition with_log (q : nat) (l : list (option pystr)) (r : registry) : registry :=
  {| core := core r; revision := revision r; _match_by_agent_id := _match_by_agent_id r; _applications := _applications r;
     _app_observers := _app_observers r; _proto_agents := _proto_agents r; _log_queues := _log_queues r;
     log_lines := <[q := l]> (log_lines r); fresh_log := Nat.max (S q) (fresh_log r); observing := observing r; _shutdown_event := _shutdown_event r;
     _broadcaster := _broadcaster r; sent := sent r; delivered := delivered r |}.
Definition with_flags (o d : bool) (r : registry) : registry :=
  {| core := core r; revision := revision r; _match_by_agent_id := _match_by_agent_id r; _applications := _applications r;
     _app_observers := _app_observers r; _proto_agents := _proto_agents r; _log_queues := _log_queues r;
     log_lines := log_lines r; fresh_log := fresh_log r; observing := o; _shutdown_event := d;
     _broadcaster := _broadcaster r; sent := sent r; delivered := delivered r |}.
Definition deliver (q : qid) (text : pystr) (r : registry) : registry :=
  {| core := core r; revision := revision r; _match_by_agent_id := _match_by_agent_id r; _applications := _applications r;
     _app_observers := _app_observers r; _proto_agents := _proto_agents r; _log_queues := _log_queues r;
     log_lines := log_lines r; fresh_log := fresh_log r; observing := observing r; _shutdown_event := _shutdown_event r;
     _broadcaster := _broadcaster r; sent := sent r; delivered := delivered r ++ [(q, text)] |}.
Definition with_sent (b : WsBroadcaster.broadcaster) (l : list message) (r : registry) : registry :=
  {| core := core r; revision := revision r; _match_by_agent_id := _match_by_agent_id r; _applications := _applications r;
     _app_observers := _app_observers r; _proto_agents := _proto_agents r; _log_queues := _log_queues r;
     log_lines := log_lines r; fresh_log := fresh_log r; observing := observing r; _shutdown_event := _shutdown_event r;
     _broadcaster := b; sent := l; delivered := delivered r |}.

Definition agents_of (r : registry) : gmap pystr AgentStateItem := _agents (core r).
Definition set_agents (f : gmap pystr AgentStateItem → gmap pystr AgentStateItem) (m : manager) : manager :=
  {| _activity_tracked_agents := _activity_tracked_agents m; _has_unmatched_tool_use_by_agent := _has_unmatched_tool_use_by_agent m;
     _last_event_type_by_agent := _last_event_type_by_agent m; _last_event_timestamp_by_agent := _last_event_timestamp_by_agent m;
     _activity_state_by_agent := _activity_state_by_agent m; _agents := f (_agents m); ActivityState.agents_updated := ActivityState.agents_updated m |}.
Definition on_agents (f : gmap pystr AgentStateItem → gmap pystr AgentStateItem) (r : registry) : registry :=
  with_core true (set_agents f (core r)) r.
(** [_activity_tracked_agents.add], and the [clear]s of [stop] *)
Definition track (agent_id : pystr) (m : manager) : manager :=
  {| _activity_tracked_agents := {[agent_id]} ∪ _activity_tracked_agents m; _has_unmatched_tool_use_by_agent := _has_unmatched_tool_use_by_agent m;
     _last_event_type_by_agent := _last_event_type_by_agent m; _last_event_timestamp_by_agent := _last_event_timestamp_by_agent m;
     _activity_state_by_agent := _activity_state_by_agent m; _agents := _agents m; ActivityState.agents_updated := ActivityState.agents_updated m |}.
Definition clear_activity (m : manager) : manager :=
  {| _activity_tracked_agents := ∅; _has_unmatched_tool_use_by_agent := ∅;
     _last_event_type_by_agent := ∅; _last_event_timestamp_by_agent := _last_event_timestamp_by_agent m;
     _activity_state_by_agent := ∅; _agents := _agents m; ActivityState.agents_updated := ActivityState.agents_updated m |}.
Definition log_update (A : gmap pystr AgentStateItem) (m : manager) : manager :=
  {| _activity_tracked_agents := _activity_tracked_agents m; _has_unmatched_tool_use_by_agent := _has_unmatched_tool_use_by_agent m;
     _last_event_type_by_agent := _last_event_type_by_agent m; _last_event_timestamp_by_agent := _last_event_timestamp_by_agent m;
     _activity_state_by_agent := _activity_state_by_agent m; _agents := _agents m; ActivityState.agents_updated := ActivityState.agents_updated m ++ [A] |}.

(** ** The world *)

Record process := { returncode : Z; stdout : pystr; stderr : pystr }.
Inductive question :=
  | PathExists (p : path)
  | IsDir (p : path)
  | Mtime (p : path) (** [p.stat().st_mtime] *)
  | MakeDirs (p : path)
  | ReadText (p : path)
  | ListAgents (** [list_agents], and [mngr_ctx.config.default_host_dir] *)
  | NewAgentId
  | NewName (** [generate_agent_name(COOLNAME)] *)
  | SetOrder (s : gset pystr) (** the order in which Python iterates over a set *)
  | Command (argv : list pystr) (timeout : option Q) (** [run_local_command_modern_version] *)
  | Create (argv : list pystr) (cwd : path) (** the same, with the lines given to its callback *)
  | StartThread (name : pystr)
  | NewObserver (agent_id : pystr) (dir : path)
  | StartObserver (o : nat)
  | StopObserver (o : nat)
  | StartObserve (argv : list pystr) (cwd : path)
  | CloseGroups (** [ConcurrencyGroup.__exit__] *)
  | MngrContext
  | FindLocations (agent_id : pystr)
  | SendTo (matches : list AgentMatch) (message : pystr) (** the agents that got it *)
  | StartAgent (name : pystr) (** [find_one_agent] and [resolve_to_started_host_and_running_agent] *)
  | WsSend (client : qid) (text : pystr). (** [websocket.send]; [ConnectionClosed] is an [OtherError] *)
Definition answer (q : question) : Type :=
  match q with
  | PathExists _ | IsDir _ => bool
  | Mtime _ => Q
  | MakeDirs _ | StartThread _ | StartObserver _ | StopObserver _ | StartObserve _ _ | CloseGroups | MngrContext | StartAgent _ | WsSend _ _ => unit
  | ReadText _ | NewAgentId | NewName => pystr
  | ListAgents => path * list AgentDetails
  | SetOrder _ | SendTo _ _ => list pystr
  | Command _ _ => process
  | Create _ _ => list pystr * outcome Z
  | NewObserver _ _ => nat
  | FindLocations _ => list AgentMatch
  end.
Abbreviation P := (prog registry question answer).

Class Mngr := {
  (** what [build] reads of the environment *)
  _own_agent_id : pystr;
  _own_work_dir : pystr;
  _mngr_binary : pystr;
  _host_dir : path;
  user_home : path;
  mngr_host_dir : pystr; (** [os.environ.get("MNGR_HOST_DIR", "")] *)
  (** mngr, pydantic, tomllib and the clock *)
  parse_discovery_event_line : pystr → outcome (option discovery_event);
  parse_env_file : pystr → label_map;
  is_ConcurrencyGroupError : exn → bool;
  is_MngrError : exn → bool;
  is_RuntimeError : exn → bool;
  toml_loads : pystr → outcome dict;
  epoch : pystr → outcome Q }.

(** ** Broadcasts *)

Section messages.
Context `{PyRepr}.

(** [serialize_agent] with the order of the entries left out *)
Definition agents_list (A : gmap pystr AgentStateItem) : list json := map (λ kv, JObj (serialize_agent kv.2)) (map_to_list A).
Definition application_json (a : ApplicationEntry) : json := JObj [(u "name", JStr (app_name a)); (u "url", JStr (url a))].
Definition message_dict (m : message) : dict :=
  match m with
  | AgentsUpdated _ A => agents_updated (agents_list A)
  | ApplicationsUpdated l => applications_updated (map application_json l)
  | ProtoAgentCreated p => proto_agent_created (p_agent_id p) (p_name p) (creation_type p) (parent_agent_id p)
  | ProtoAgentCompleted i ok e => proto_agent_completed i ok e
  end.
Definition text_of (m : message) : pystr := dumps float_repr ", " ": " (JObj (message_dict m)).
Definition send (m : message) (r : registry) : registry :=
  let r' := with_sent (broadcast_text (text_of m) (_broadcaster r)) (sent r ++ [m]) r in
  match m with AgentsUpdated _ A => with_core false (log_update A (core r')) r' | _ => r' end.

(** ** Queues of creation logs *)

Definition line_text (line : pystr) : pystr := dumps float_repr ", " ": " (JObj [(u "line", JStr line)]).
Definition done_text (success : bool) (error : option pystr) : pystr :=
  dumps float_repr ", " ": " (JObj [(u "done", JBool true); (u "success", JBool success); (u "error", opt_str error)]).
(** [put_nowait]; [false] is [queue.Full]. *)
Definition log_put (log_queue : nat) (message : option pystr) : M registry bool := λ r,
  let l := default [] (log_lines r !! log_queue) in
  if (length l <? _LOG_QUEUE_SIZE)%nat then (Ret true, with_log log_queue (l ++ [message]) r) else (Ret false, r).
End messages.

Section operations.
Context `{PyRepr} `{Mngr}.

Definition ask (q : question) : P (answer q) := PyThreads.ask q.
Definition update (f : registry → registry) : P unit := locked (modify f).
Definition read {X} (f : registry → X) : P X := locked (gets f).
Definition broadcast_message (m : message) : P unit := update (send m).
(** [self._broadcaster.broadcast_agents_updated(self.get_agents_serialized())]: two critical sections *)
Definition broadcast_agents : P unit :=
  shown ← read (λ r, (revision r, agents_of r));
  broadcast_message (AgentsUpdated shown.1 shown.2).

Definition _safe_log_put (log_queue : nat) (message : option pystr) : P unit := locked (log_put log_queue message);; mret tt.
(** A [put] that blocks: a second try when the consumer has made room, or at the deadline. *)
Definition _completion_signal_put (log_queue : nat) (message : option pystr) : P unit :=
  fits ← locked (log_put log_queue message);
  if (fits : bool) then mret tt else locked (log_put log_queue message);; mret tt.

(** ** Looking things up *)

Definition get_agents : P (list AgentStateItem) := read (λ r, map snd (map_to_list (agents_of r))).
Definition get_agent_by_id (agent_id : pystr) : P (option AgentStateItem) := read (λ r, agents_of r !! agent_id).
Definition get_agent_matches_by_id (agent_id : pystr) : P (list AgentMatch) :=
  read (λ r, match _match_by_agent_id r !! agent_id with Some m => [m] | None => [] end).
Definition get_applications : P (list ApplicationEntry) := read _applications.
Definition get_service_url (service_name : pystr) : P (option pystr) :=
  read (λ r, url <$> List.find (λ a, app_name a =? service_name) (_applications r)).
Definition list_service_names : P (list pystr) := read (λ r, sort_by str_leb (map app_name (_applications r))).
Definition get_proto_agents : P (list proto_agent) := read (λ r, map snd (map_to_list (_proto_agents r))).
Definition get_log_queue (agent_id : pystr) : P (option nat) := read (λ r, _log_queues r !! agent_id).

Definition _get_agent_state_dir (agent_id : pystr) : path := child (child _host_dir "agents") agent_id.

(** ** Finding the agents and their files, and messaging them *)

Definition _get_mngr_context : P unit :=
  after (ask MngrContext) (λ r, match r with Ret _ => mret tt | Raise e => ask CloseGroups;; raises e end).
(** [mngr_ctx, cg = _get_mngr_context()  try: p  finally: cg.__exit__(...)] *)
Definition in_context {R : Type} (p : P R) : P R :=
  _get_mngr_context;; after p (λ r, ask CloseGroups;; Done r).

Definition _read_claude_config_dir_from_env (env_file : path) : P (option path) :=
  there ← ask (PathExists env_file);
  if negb there then mret None
  else
    text ← catching (t ← ask (ReadText env_file); mret (Some (t : pystr))) (λ e, if is_OSError e then Some (mret None) else None);
    mret (t ← (text : option pystr); match dget "CLAUDE_CONFIG_DIR" (parse_env_file t) with
                    | Some v => if v =? [] then None else Some (path_of v)
                    | None => None end).

Definition read_claude_config_dir_from_env_file (agent_state_dir : path) : P path :=
  per_agent ← _read_claude_config_dir_from_env (child agent_state_dir "env");
  match per_agent with
  | Some d => mret d
  | None =>
      host_level ← (if mngr_host_dir =? [] then mret None
                    else _read_claude_config_dir_from_env (child (path_of mngr_host_dir) "env"));
      match host_level with
      | Some d => mret d
      | None =>
          let conventional := child (child (child agent_state_dir "plugin") "claude") "anthropic" in
          there ← ask (PathExists conventional);
          mret (if (there : bool) then conventional else child user_home ".claude")
      end
  end.

Fixpoint agent_infos (default_host_dir : path) (found : list AgentDetails) : P (list AgentInfo) :=
  match found with
  | [] => mret []
  | d :: found' =>
      let dir := child (child default_host_dir "agents") (x_id d) in
      config ← read_claude_config_dir_from_env_file dir;
      rest ← agent_infos default_host_dir found';
      mret ({| i_id := x_id d; i_name := x_name d; i_state := default (u "unknown") (x_state d); i_labels := x_labels d;
               i_work_dir := Some (x_work_dir d); agent_state_dir := dir; claude_config_dir := config |} :: rest)
  end.
Definition discover_agents : P (list AgentInfo) :=
  result ← in_context (ask ListAgents);
  agent_infos result.1 result.2.
Definition start_agent (agent_name : pystr) : P unit := in_context (ask (StartAgent agent_name)).

Definition get_agent_info_by_id (agent_id : pystr) : P (option AgentInfo) :=
  agent_state ← get_agent_by_id agent_id;
  match agent_state with
  | None => mret None
  | Some a =>
      let state_dir := _get_agent_state_dir (ActivityState.id a) in
      config ← read_claude_config_dir_from_env_file state_dir;
      mret (Some {| i_id := ActivityState.id a; i_name := ActivityState.name a; i_state := ActivityState.state a;
                    i_labels := labels a; i_work_dir := work_dir a; agent_state_dir := state_dir; claude_config_dir := config |})
  end.

Definition _send_message_to_agent (agent_id message : pystr) (known_locations : list AgentMatch) : P bool :=
  reached ← (match known_locations with [] => mret [] | _ => ask (SendTo known_locations message) end);
  match reached with
  | _ :: _ => mret true
  | [] =>
      matches ← ask (FindLocations agent_id);
      reached ← ask (SendTo matches message);
      mret (match reached with [] => false | _ => true end)
  end.
Definition send_message (agent_id message : pystr) (known_locations : list AgentMatch) : P bool :=
  in_context (_send_message_to_agent agent_id message known_locations).
Definition send_message_to_agent (agent_id message : pystr) : P bool :=
  known ← get_agent_matches_by_id agent_id;
  send_message agent_id message known.

(** ** The activity indicator, section by section *)

Definition _read_process_started_at (agent_id : pystr) : P (option Q) :=
  catching (t ← ask (Mtime (child (_get_agent_state_dir agent_id) "claude_process_started")); mret (Some t))
    (λ e, if is_OSError e then Some (mret None) else None).

(** Whether the state changed. *)
Definition recompute_section (agent_id : pystr) (process_started_at : option Q) : M registry bool := λ r,
  let m := core r in
  if agent_id ∉? _activity_tracked_agents m then (Ret false, r)
  else match agents_of r !! agent_id with
  | None => (Ret false, r)
  | Some a =>
      match cached_state epoch agent_id process_started_at a m with
      | Raise e => (Raise e, r)
      | Ret new_state =>
          if (_activity_state_by_agent m !! agent_id =? Some new_state)
             && (activity_state a =? Some (activity_value new_state))
          then (Ret false, r)
          else (Ret true, with_core true (set_activity agent_id new_state a m) r)
      end
  end.
Definition _recompute_activity_state (agent_id : pystr) (broadcast_on_change : bool) : P unit :=
  process_started_at ← _read_process_started_at agent_id;
  changed ← locked (recompute_section agent_id process_started_at);
  whenp (changed && broadcast_on_change) broadcast_agents.

(** The signals are stored; [false] when nothing changed or the agent is not tracked. *)
Definition signals_section (agent_id : pystr) (pending : bool) (last_type : json) (last_timestamp : option pystr) : M registry bool := λ r,
  let m := core r in
  if agent_id ∉? _activity_tracked_agents m then (Ret false, r)
  else if (default false (_has_unmatched_tool_use_by_agent m !! agent_id) =? pending)
          && py_eqb (default JNull (_last_event_type_by_agent m !! agent_id)) last_type then (Ret false, r)
  else (Ret true, with_core false (set_signals agent_id pending last_type last_timestamp m) r).
Definition update_session_events (agent_id : pystr) (events : list dict) : P unit :=
  new_pending ← Done (has_unmatched_tool_use events);
  changed ← locked (signals_section agent_id new_pending (last_event_type events) (last_event_timestamp events));
  whenp changed (_recompute_activity_state agent_id true).

Definition reset_section (agent_id : pystr) : M registry bool := λ r,
  if agent_id ∉? _activity_tracked_agents (core r) then (Ret false, r)
  else (Ret true, with_core false (set_signals agent_id false JNull None (core r)) r).
Definition reset_activity_state (agent_id : pystr) : P unit :=
  tracked ← locked (reset_section agent_id);
  whenp tracked (_recompute_activity_state agent_id true).

Definition _ensure_activity_tracking (agent_id : pystr) : P unit :=
  there ← ask (PathExists (_get_agent_state_dir agent_id));
  if negb there then mret tt
  else
    update (λ r, with_core false (track agent_id (core r)) r);;
    _recompute_activity_state agent_id false.

Definition _stop_activity_tracking (agent_id : pystr) : P unit :=
  update (λ r, with_core false (ActivityState._stop_activity_tracking agent_id (core r)).2 r).

(** ** The registered applications *)

(** [none] when the name or the url is empty. *)
Definition read_entry (entry : json) : outcome (option ApplicationEntry) :=
  name ← get_default "name" (JStr []) entry;
  url ← get_default "url" (JStr []) entry;
  if truthy name && truthy url then
    match name, url with
    | JStr n, JStr l => Ret (Some {| app_name := n; url := l |})
    | _, _ => Raise (ValueError (u "validation error for ApplicationEntry"))
    end
  else Ret None.
(** The entries before the first that raises, and what it raises. *)
Fixpoint read_entries (entries : list json) (apps : list ApplicationEntry) : list ApplicationEntry * option exn :=
  match entries with
  | [] => (apps, None)
  | entry :: entries' =>
      match read_entry entry with
      | Ret (Some a) => read_entries entries' (apps ++ [a])
      | Ret None => read_entries entries' apps
      | Raise e => (apps, Some e)
      end
  end.
Definition is_parse_error (e : exn) : bool := match e with ValueError _ | KeyError _ => true | _ => is_OSError e end.
Definition read_toml (toml_path : path) : P (list json) :=
  text ← ask (ReadText toml_path);
  data ← Done (toml_loads text);
  Done (iter_json (jget_or "applications" (JList []) data)).
Definition parse_applications (toml_path : path) : P (list ApplicationEntry) :=
  there ← ask (PathExists toml_path);
  if negb there then mret []
  else
    after (read_toml toml_path) (λ r,
      let '(apps, err) := match r with Ret entries => read_entries entries [] | Raise e => ([], Some e) end in
      match err with
      | Some e => if is_parse_error e then mret apps else raises e
      | None => mret apps
      end).
Definition _read_applications (toml_path : path) : P unit :=
  apps ← parse_applications toml_path;
  update (with_applications apps).

(** [os.path.basename(p)] *)
Definition basename (p : pystr) : pystr := List.last (split_char slash p) [].
(** [_ApplicationsFileHandler._maybe_fire]: whether [on_change] is called. *)
Definition _maybe_fire (is_directory : bool) (src_path : pystr) (dest_path : option pystr) : bool :=
  negb is_directory
  && existsb (λ p, basename p =? _APPLICATIONS_TOML_BASENAME) (src_path :: option_list dest_path).

Definition add_observer (agent_id : pystr) (observer : nat) : M registry bool := λ r,
  match _app_observers r !! agent_id with
  | Some _ => (Ret false, r)
  | None => (Ret true, with_observers (<[agent_id := observer]> (_app_observers r)) r)
  end.
Definition _start_app_watcher (agent_id : pystr) (work_dir : path) : P unit :=
  watched ← read (λ r, bool_decide (is_Some (_app_observers r !! agent_id)));
  if (watched : bool) then mret tt
  else
    let toml_path := child work_dir _APPLICATIONS_TOML_FILENAME in
    let watch_dir := parent toml_path in
    there ← ask (PathExists watch_dir);
    whenp (negb there) (ask (MakeDirs watch_dir));;
    _read_applications toml_path;;
    observer ← ask (NewObserver agent_id watch_dir);
    catching
      (ask (StartObserver observer);;
       added ← locked (add_observer agent_id observer);
       whenp (negb added) (ask (StopObserver observer)))
      (λ e, if is_OSError e then Some (mret tt) else None).

Definition pop_observer (agent_id : pystr) : M registry (option nat) := λ r,
  (Ret (_app_observers r !! agent_id), with_observers (delete agent_id (_app_observers r)) r).
Definition _stop_app_watcher (agent_id : pystr) : P unit :=
  observer ← locked (pop_observer agent_id);
  match observer with Some o => ask (StopObserver o) | None => mret tt end.

Definition broadcast_applications : P unit :=
  apps ← read _applications;
  broadcast_message (ApplicationsUpdated apps).
Definition _on_applications_changed (agent_id : pystr) : P unit :=
  work_dir ← read (λ r, a ← agents_of r !! agent_id; work_dir a);
  match work_dir with
  | None => mret tt
  | Some d =>
      _read_applications (child (path_of d) _APPLICATIONS_TOML_FILENAME);;
      broadcast_applications
  end.

(** ** The events of mngr observe *)

Definition item_of (a : DiscoveredAgent) : AgentStateItem :=
  {| ActivityState.id := agent_id a; ActivityState.name := agent_name a; state := u "RUNNING"; labels := d_labels a;
     work_dir := path_str <$> d_work_dir a; activity_state := None |}.
Definition item_of_info (a : AgentInfo) : AgentStateItem :=
  {| ActivityState.id := i_id a; ActivityState.name := i_name a; state := i_state a; labels := i_labels a;
     work_dir := i_work_dir a; activity_state := None |}.
(** A [dict] filled in order: of two entries with one id the later stays. *)
Definition by_id {X Y : Type} (key : X → pystr) (value : X → Y) (l : list X) : gmap pystr Y :=
  foldl (λ m x, <[key x := value x]> m) ∅ l.

Definition watch_own (agent_id : pystr) (dir : option path) : P unit :=
  if agent_id =? _own_agent_id
  then match dir with Some d => _start_app_watcher agent_id d | None => mret tt end
  else mret tt.
(** [agent.work_dir] of an entry; the empty string is false. *)
Definition work_path (a : AgentStateItem) : option path :=
  match work_dir a with Some d => if d =? [] then None else Some (path_of d) | None => None end.
Definition drop_agent (agent_id : pystr) : P unit :=
  _stop_app_watcher agent_id;;
  _stop_activity_tracking agent_id.

Definition snapshot_section (new_agents : gmap pystr AgentStateItem) (new_matches : gmap pystr AgentMatch) : M registry (gset pystr) := λ r,
  (Ret (dom (agents_of r)), with_matches new_matches (on_agents (λ _, new_agents) r)).
Definition _handle_full_snapshot (agents : list DiscoveredAgent) : P unit :=
  let new_agents := by_id agent_id item_of agents in
  let new_matches := by_id agent_id _build_agent_match agents in
  old_ids ← locked (snapshot_section new_agents new_matches);
  let new_ids := dom new_agents in
  order ← ask (SetOrder new_ids);
  each order (λ i, watch_own i (new_agents !! i ≫= work_path);; _ensure_activity_tracking i);;
  gone ← ask (SetOrder (old_ids ∖ new_ids));
  each gone drop_agent;;
  broadcast_agents.

Definition _handle_agent_discovered (agent : DiscoveredAgent) : P unit :=
  let i := agent_id agent in
  update (λ r, with_matches (<[i := _build_agent_match agent]> (_match_by_agent_id r)) (on_agents (<[i := item_of agent]>) r));;
  watch_own i (work_path (item_of agent));;
  _ensure_activity_tracking i;;
  broadcast_agents.

Definition pop_agent (agent_id : pystr) : P unit :=
  update (λ r, with_matches (delete agent_id (_match_by_agent_id r)) (on_agents (delete agent_id) r)).
Definition _handle_agent_destroyed (agent_id : pystr) : P unit :=
  pop_agent agent_id;; drop_agent agent_id;; broadcast_agents.
Definition remove_agent (agent_id : pystr) : P unit :=
  pop_agent agent_id;; drop_agent agent_id;; broadcast_agents.
Definition _handle_host_destroyed (agent_ids : list pystr) : P unit :=
  each agent_ids (λ i, pop_agent i;; drop_agent i);;
  broadcast_agents.

Definition _handle_discovery_event (event : discovery_event) : P unit :=
  match event with
  | FullDiscoverySnapshotEvent agents => _handle_full_snapshot agents
  | AgentDiscoveryEvent agent => _handle_agent_discovered agent
  | AgentDestroyedEvent i => _handle_agent_destroyed i
  | HostDestroyedEvent ids => _handle_host_destroyed ids
  | OtherEvent => mret tt
  end.

Definition MngrError (msg : pystr) : exn := OtherError (u "MngrError") msg.
Definition _handle_observe_output_line (line : pystr) (is_stdout : bool) : P unit :=
  let stripped := strip line in
  if (stripped =? []) || negb is_stdout then mret tt
  else
    event ← Done (parse_discovery_event_line stripped);
    match event with
    | Some event => _handle_discovery_event event
    | None => raises (MngrError (u "parse_discovery_event_line returned None for non-empty line: " ++ str_repr (take 200 stripped)))
    end.

(** ** Creating agents *)

(** What [_resolve_agent_work_dir] and the lookup of the labels read under the lock. *)
Definition _resolve_agent_work_dir (agent_id : pystr) (r : registry) : option pystr :=
  match agents_of r !! agent_id ≫= work_dir with
  | Some d => Some d
  | None => if (agent_id =? _own_agent_id) && (_own_work_dir <>? []) then Some _own_work_dir else None
  end.
Definition parent_section (agent_id : pystr) (r : registry) : option pystr * label_map :=
  (_resolve_agent_work_dir agent_id r, default [] (labels <$> agents_of r !! agent_id)).

(** [result.stdout.strip()]; a failed command raises, the check is on. *)
Definition _get_current_branch (work_dir : path) : P pystr :=
  result ← ask (Command [u "git"; u "-C"; path_str work_dir; u "branch"; u "--show-current"] None);
  if (returncode result =? 0)%Z then mret (strip (stdout result))
  else raises (OtherError (u "ProcessError") (stderr result)).

Definition forget_creation (agent_id : pystr) (r : registry) : registry :=
  with_creations (delete agent_id (_proto_agents r)) (delete agent_id (_log_queues r)) r.
Definition finish_section (i name : pystr) (dir : path) (l : label_map) (success : bool) (r : registry) : registry :=
  let r' := forget_creation i r in
  if success then
    on_agents (<[i := {| ActivityState.id := i; ActivityState.name := name; state := u "RUNNING"; labels := l;
                         work_dir := Some (path_str dir); activity_state := None |}]>) r'
  else r'.

(** The two handlers of [_run_creation]: the inner one of the command, the outer one of everything. *)
Definition command_result (agent_id : pystr) (cmd : list pystr) (work_dir : path) (log_queue : nat) : P (bool * option pystr) :=
  catching
    (result ← ask (Create cmd work_dir);
     each result.1 (λ line, _safe_log_put log_queue (Some (line_text (rstrip_char nl line))));;
     returncode ← Done result.2;
     mret (if (returncode =? 0)%Z then (true, None)
           else (false, Some (u "mngr create exited with code " ++ str_of_Z returncode))))
    (λ e, if is_OSError e || is_ConcurrencyGroupError e then Some (mret (false, Some (exn_str e))) else None).
Definition creation_result (agent_id name : pystr) (cmd : list pystr) (work_dir : path) (log_queue : nat) (l : label_map)
    : P (bool * option pystr) :=
  catching
    (_safe_log_put log_queue (Some (line_text (u "[cwd: " ++ path_str work_dir ++ u "] " ++ join (u " ") (map shlex_quote cmd))));;
     result ← command_result agent_id cmd work_dir log_queue;
     update (finish_section agent_id name work_dir l result.1);;
     mret result)
    (λ e, if is_Exception e then
            Some (update (forget_creation agent_id);;
                  mret (false, Some (u "Unexpected " ++ exn_type_name e ++ u ": " ++ exn_str e)))
          else None).
Definition _run_creation (agent_id name : pystr) (cmd : list pystr) (work_dir : path) (log_queue : nat) (l : label_map) : P unit :=
  result ← creation_result agent_id name cmd work_dir log_queue l;
  _completion_signal_put log_queue (Some (done_text result.1 result.2));;
  _completion_signal_put log_queue None;;
  whenp result.1 (_ensure_activity_tracking agent_id;; broadcast_agents);;
  broadcast_message (ProtoAgentCompleted agent_id result.1 result.2).

Definition _launch_creation_thread (agent_id name : pystr) (cmd : list pystr) (work_dir : path) (log_queue : nat) (l : label_map) : P unit :=
  ask (StartThread (u "create-" ++ take 8 agent_id));;
  start_thread (_run_creation agent_id name cmd work_dir log_queue l).

(** [queue.Queue(maxsize=10000)], and the entries of the creation *)
Definition proto_section (p : proto_agent) : M registry nat := λ r,
  let q := fresh_log r in
  (Ret q, with_log q [] (with_creations (<[p_agent_id p := p]> (_proto_agents r)) (<[p_agent_id p := q]> (_log_queues r)) r)).
Definition announce_creation (p : proto_agent) : P nat :=
  log_queue ← locked (proto_section p);
  broadcast_message (ProtoAgentCreated p);;
  mret log_queue.

Definition AgentCreationError (msg : pystr) : exn := ValueError msg.
Definition create_worktree_agent (name selected_agent_id : pystr) : P pystr :=
  agent_id ← ask NewAgentId;
  found ← read (parent_section selected_agent_id);
  match found.1 with
  | None => raises (AgentCreationError (u "Cannot determine work directory for agent " ++ selected_agent_id))
  | Some work_dir =>
      current_branch ← _get_current_branch (path_of work_dir);
      let cmd := _build_worktree_create_command _mngr_binary name agent_id current_branch (u "mngr/" ++ name) found.2 in
      log_queue ← announce_creation {| p_agent_id := agent_id; p_name := name; creation_type := u "worktree"; parent_agent_id := None |};
      let l := [(u "user_created", u "true"); (u "workspace", name)]
               ++ match dget "project" found.2 with Some v => [(u "project", v)] | None => [] end in
      _launch_creation_thread agent_id name cmd (path_of work_dir) log_queue l;;
      mret agent_id
  end.
Definition create_chat_agent (name : pystr) : P pystr :=
  agent_id ← ask NewAgentId;
  found ← read (parent_section _own_agent_id);
  match found.1 with
  | None => raises (AgentCreationError (u "Cannot determine work directory for primary agent " ++ _own_agent_id))
  | Some work_dir =>
      let cmd := _build_chat_create_command _mngr_binary name agent_id found.2 in
      log_queue ← announce_creation {| p_agent_id := agent_id; p_name := name; creation_type := u "chat"; parent_agent_id := None |};
      let l := omap (λ key, v ← dget key found.2; Some (key, v)) [u "workspace"; u "project"] in
      _launch_creation_thread agent_id name cmd (path_of work_dir) log_queue l;;
      mret agent_id
  end.

(** ** Discovering agents, starting and stopping *)

Definition is_discovery_error (e : exn) : bool :=
  is_OSError e || match e with ValueError _ => true | _ => false end || is_RuntimeError e || is_MngrError e.
Definition tolerating {R : Type} (errors : exn → bool) (dflt : R) (p : P R) : P R :=
  catching p (λ e, if errors e then Some (mret dflt) else None).

Definition _initial_discover : P unit :=
  tolerating is_discovery_error tt
    (agents ← discover_agents;
     update (on_agents (λ m, foldl (λ m a, <[i_id a := item_of_info a]> m) m agents));;
     each agents (λ a, watch_own (i_id a) (work_path (item_of_info a));; _ensure_activity_tracking (i_id a))).

Definition refresh_section (new_agents : gmap pystr AgentStateItem) : M registry (gset pystr) := λ r,
  (Ret (dom (agents_of r)), on_agents (λ _, new_agents) r).
Definition refresh_with (agents : list AgentInfo) : P unit :=
  let new_agents := by_id i_id item_of_info agents in
  old_ids ← locked (refresh_section new_agents);
  order ← ask (SetOrder (dom new_agents));
  each order _ensure_activity_tracking;;
  gone ← ask (SetOrder (old_ids ∖ dom new_agents));
  each gone drop_agent;;
  broadcast_agents.
Definition _refresh_agents : P unit := tolerating is_discovery_error tt (agents ← discover_agents; refresh_with agents).

Definition _resolve_observe_cwd : P path :=
  if _own_work_dir =? [] then mret user_home
  else
    is_dir ← ask (IsDir (path_of _own_work_dir));
    mret (if (is_dir : bool) then path_of _own_work_dir else user_home).
Definition is_start_error (e : exn) : bool :=
  is_OSError e || match e with OtherError n _ => n =? u "InvalidConcurrencyGroupStateError" | _ => false end.
Definition _start_observe : P unit :=
  update (λ r, with_flags true (_shutdown_event r) r);;
  started ← catching
    (cwd ← _resolve_observe_cwd; ask (StartObserve (_build_observe_command_argv _mngr_binary) cwd);; mret true)
    (λ e, if is_start_error e then Some (ask CloseGroups;; mret false) else None);
  if (started : bool) then ask (StartThread (u "observe-watchdog"))
  else update (λ r, with_flags false (_shutdown_event r) r).

Definition start : P unit := _initial_discover;; _start_observe.
Definition start_without_observe : P unit := _initial_discover.
Definition stop : P unit :=
  update (λ r, with_flags (observing r) true r);;
  was_observing ← read observing;
  whenp was_observing (ask CloseGroups;; update (λ r, with_flags false (_shutdown_event r) r));;
  ask CloseGroups;;
  observers ← read (λ r, map snd (map_to_list (_app_observers r)));
  each observers (λ o, ask (StopObserver o));;
  update (with_observers ∅);;
  update (λ r, with_core false (clear_activity (core r)) r).
End operations.
