(* ===== verification/AgentServer.v ===== *)
(** * The endpoints for agents

    The routes of [SI/server.py] over the agent manager: sending a message,
    interrupting, creating, destroying and starting agents; the WebSocket of
    the interface and the log of a creation.  A request body is the JSON value
    [request.get_json()] gives; the request models of pydantic are a parameter. *)

From Stdlib Require Import NArith ZArith QArith Lia.
From S2P Require Import Prelude PyStr PyJson PyMonad PyKeyed PyBytes PyPath PyThreads ActivityState WsBroadcaster LayoutServer TaskFiles AgentManager.
From stdpp Require Import options.
#[global] Open Scope nat_scope.
#[local] Open Scope py_scope.

(** Making a model of [models.py], by its name: the fields of the
    instance, or a [ValidationError], which is a [ValueError]. *)
Class Pydantic := { validate : pystr → dict → outcome dict }.

Section endpoints.
Context `{PyRepr} `{Mngr} `{Pydantic}.

Definition ok_response : response := _json_response (JObj [(u "status", JStr "ok")]) 200.
Definition _find_agent (agent_id : pystr) : P (option AgentInfo) := get_agent_info_by_id agent_id.

(** Only a [dict] can be unpacked into the fields of a model. *)
Definition instance (model : pystr) (body : json) : outcome dict :=
  match body with JObj d => validate model d | _ => Raise TypeError end.
Definition field (k : pystr) (d : dict) : outcome pystr := v ← getitem k d; need_str v.

Definition _send_message_endpoint (agent_id : pystr) (body : json) : P response :=
  info ← _find_agent agent_id;
  match info with
  | None => mret (_agent_not_found_response agent_id)
  | Some a =>
      message ← Done (d ← instance "SendMessageRequest" body; field "message" d);
      success ← send_message_to_agent (i_id a) message;
      mret (if (success : bool) then ok_response
            else error_response (u "Failed to send message to agent '" ++ i_name a ++ u "' (0 successful agents)") 500)
  end.

Definition is_primary (l : label_map) : bool := bool_decide (dget "is_primary" l = Some (u "true")).
Definition refusal (verb name : pystr) : response :=
  error_response (u "Refusing to " ++ verb ++ u " agent '" ++ name ++ u "': it carries the is_primary=true label (services agent for this workspace)") 400.
Definition failure (verb name : pystr) (r : process) : response :=
  error_response (u "Failed to " ++ verb ++ u " agent '" ++ name ++ u "': " ++ strip (stderr r)) 500.

Definition interrupt_argv (agent_name : pystr) : list pystr := [u "mngr"; u "start"; agent_name; u "--restart"; u "--no-resume"].
Definition _interrupt_agent_endpoint (agent_id : pystr) : P response :=
  info ← _find_agent agent_id;
  match info with
  | None => mret (_agent_not_found_response agent_id)
  | Some a =>
      if is_primary (i_labels a) then mret (refusal "interrupt" (i_name a))
      else
        result ← ask (Command (interrupt_argv (i_name a)) (Some 60%Q));
        if (returncode result =? 0)%Z then
          reset_activity_state agent_id;;
          mret ok_response
        else mret (failure "interrupt" (i_name a) result)
  end.

Definition _build_destroy_command (agent_name : pystr) : list pystr := [u "mngr"; u "destroy"; agent_name; u "--force"].
Definition _destroy_agent (agent_id : pystr) : P response :=
  agent_state ← get_agent_by_id agent_id;
  match agent_state with
  | None => mret (_agent_not_found_response agent_id)
  | Some a =>
      if is_primary (labels a) then mret (refusal "destroy" (ActivityState.name a))
      else
        result ← ask (Command (_build_destroy_command (ActivityState.name a)) (Some 30%Q));
        if (returncode result =? 0)%Z then
          remove_agent agent_id;;
          mret ok_response
        else mret (failure "destroy" (ActivityState.name a) result)
  end.

Definition _start_agent (agent_id : pystr) : P response :=
  info ← _find_agent agent_id;
  match info with
  | None => mret (_agent_not_found_response agent_id)
  | Some a =>
      catching (start_agent (i_name a);; mret ok_response)
        (λ e, if is_MngrError e then
                Some (mret (error_response (u "Failed to start agent '" ++ i_name a ++ u "': " ++ exn_str e) 500))
              else None)
  end.

Definition _random_name_endpoint : P response :=
  name ← ask NewName;
  mret (_json_response (JObj [(u "name", JStr name)]) 200).

(** [AgentCreationError], [ValidationError] and the like are [ValueError]s. *)
Definition created_or_refused (p : P pystr) : P response :=
  catching (agent_id ← p; mret (_json_response (JObj [(u "agent_id", JStr agent_id)]) 201))
    (λ e, if is_OSError e || match e with ValueError _ => true | _ => false end
          then Some (mret (error_response (exn_str e) 400)) else None).
Definition _create_worktree_agent (body : json) : P response :=
  created_or_refused
    (request ← Done (d ← instance "CreateWorktreeRequest" body; name ← field "name" d; selected ← field "selected_agent_id" d; Ret (name, selected));
     create_worktree_agent request.1 (if request.2 =? [] then _own_agent_id else request.2)).
Definition _create_chat_agent (body : json) : P response :=
  created_or_refused (name ← Done (d ← instance "CreateChatRequest" body; field "name" d); create_chat_agent name).

(** ** WebSockets *)

Definition is_ConnectionClosed (e : exn) : bool := match e with OtherError n _ => n =? u "ConnectionClosed" | _ => false end.
Definition ws_send (q : qid) (text : pystr) : P unit :=
  ask (WsSend q text);;
  update (deliver q text).
Definition with_broadcaster (f : WsBroadcaster.broadcaster → WsBroadcaster.broadcaster) (r : registry) : registry :=
  with_sent (f (_broadcaster r)) (sent r) r.
(** [register()], and [queue.get(timeout=1)]; [None] is [queue.Empty]. *)
Definition ws_register : M registry qid := λ r, (Ret (fresh_queue (_broadcaster r)), with_broadcaster register r).
Definition ws_get (q : qid) : M registry (option (option pystr)) := λ r,
  (Ret (head (items (_broadcaster r) q)), with_broadcaster (λ b, do_step b (Get q)) r).

(** What a client is shown when it has registered. *)
Definition ws_welcome (q : qid) : P unit :=
  shown ← read (λ r, (revision r, agents_of r));
  ws_send q (text_of (AgentsUpdated shown.1 shown.2));;
  apps ← read _applications;
  ws_send q (text_of (ApplicationsUpdated apps));;
  protos ← get_proto_agents;
  each protos (λ p, ws_send q (text_of (ProtoAgentCreated p))).
(** [turns] turns of the loop, which has no other bound. *)
Fixpoint ws_loop (turns : nat) (q : qid) : P unit :=
  match turns with
  | 0 => raises OutOfFuel
  | S turns' =>
      message ← locked (ws_get q);
      match message with
      | None => ws_loop turns' q
      | Some None => mret tt
      | Some (Some text) => ws_send q text;; ws_loop turns' q
      end
  end.
Definition ws_serve (turns : nat) (q : qid) : P unit := ws_welcome q;; ws_loop turns q.
Definition _run_ws_broadcast_loop (turns : nat) : P unit :=
  q ← locked ws_register;
  after (catching (ws_serve turns q) (λ e, if is_ConnectionClosed e then Some (mret tt) else None))
    (λ r, update (with_broadcaster (unregister q));; Done r).

(** The log of a creation; its reader is the only one that takes from the queue. *)
Definition log_get (log_queue : nat) : M registry (option (option pystr)) := λ r,
  let l := default [] (log_lines r !! log_queue) in
  (Ret (head l), with_log log_queue (tail l) r).
Fixpoint log_loop (turns : nat) (ws : qid) (log_queue : nat) : P unit :=
  match turns with
  | 0 => raises OutOfFuel
  | S turns' =>
      message ← locked (log_get log_queue);
      match message with
      | None => log_loop turns' ws log_queue
      | Some None => mret tt
      | Some (Some text) => ws_send ws text;; log_loop turns' ws log_queue
      end
  end.
Definition not_found_text : pystr :=
  dumps float_repr ", " ": " (JObj [(u "done", JBool true); (u "success", JBool false); (u "error", JStr "Proto-agent not found")]).
Definition _run_proto_agent_logs_loop (turns : nat) (ws : qid) (log_queue : option nat) : P unit :=
  catching
    (match log_queue with None => ws_send ws not_found_text | Some q => log_loop turns ws q end)
    (λ e, if is_ConnectionClosed e then Some (mret tt) else None).
Definition _proto_agent_logs_endpoint (turns : nat) (ws : qid) (agent_id : pystr) : P unit :=
  log_queue ← get_log_queue agent_id;
  _run_proto_agent_logs_loop turns ws log_queue.
End endpoints.
