(* ===== verification/ManagerFacts.v ===== *)
(** * What the agent manager guarantees

    A thread on its own does what [ActivityState] says of the indicator; threads
    together, in any order of their critical sections, never leave a change of
    the agents untold and complete every creation they announced. *)

From Stdlib Require Import NArith ZArith QArith Lia.
From S2P Require Import Prelude PyStr PyJson PyMonad PyKeyed PyBytes PyPath PyThreads ActivityState WsBroadcaster LayoutServer TaskFiles AgentManager.
From stdpp Require Import relations options.
#[global] Open Scope nat_scope.
#[local] Open Scope py_scope.

(** ** A thread on its own *)
Section alone.
Context `{PyRepr} `{Mngr} (o : registry → ∀ q, outcome (answer q)).

Definition core_after {R : Type} (p : P R) (r : registry) : outcome R * manager :=
  let '(x, r') := alone o p r in (x, core r').

Lemma core_send m r : core (send m r) = match m with AgentsUpdated _ A => log_update A (core r) | _ => core r end.
Proof. by destruct m. Qed.

Lemma recompute_core i (p : option Q) b r :
  (∀ r', alone o (_read_process_started_at i) r' = (Ret p, r')) →
  core_after (_recompute_activity_state i b) r = ActivityState._recompute_activity_state epoch i p b (core r).
Proof.
  intros Hp. unfold core_after, _recompute_activity_state. rewrite alone_bind, Hp, alone_bind, alone_locked.
  unfold recompute_section, ActivityState._recompute_activity_state, agents_of.
  destruct (negb _); [done|]. destruct (_agents (core r) !! i) as [a|]; [|done].
  destruct (cached_state _ _ _ _ _) as [s|e]; [|done].
  destruct (_ && _); [done|]. by destruct b.
Qed.

Lemma update_core i (p : option Q) events r :
  (∀ r', alone o (_read_process_started_at i) r' = (Ret p, r')) →
  core_after (update_session_events i events) r = ActivityState.update_session_events epoch i p events (core r).
Proof.
  intros Hp. unfold core_after, update_session_events, ActivityState.update_session_events. rewrite alone_bind.
  cbn [alone]. destruct (has_unmatched_tool_use events) as [pend|e]; [|done].
  rewrite alone_bind, alone_locked. unfold signals_section, lift, gets, mbind, M_bind.
  destruct (negb _); [done|]. destruct (_ && _); [done|]. unfold modify. cbn [whenp]. exact (recompute_core i p true (with_core false _ r) Hp).
Qed.

Lemma reset_core i (p : option Q) r :
  (∀ r', alone o (_read_process_started_at i) r' = (Ret p, r')) →
  core_after (reset_activity_state i) r = ActivityState.reset_activity_state epoch i p (core r).
Proof.
  intros Hp. unfold core_after, reset_activity_state, ActivityState.reset_activity_state. rewrite alone_bind, alone_locked.
  unfold gets, modify, reset_section, mbind, M_bind. destruct (negb _); [done|]. exact (recompute_core i p true (with_core false _ r) Hp).
Qed.

Lemma ensure_core i (p : option Q) (b : bool) r :
  (∀ r', alone o (_read_process_started_at i) r' = (Ret p, r')) → o r (PathExists (_get_agent_state_dir i)) = Ret b →
  core_after (_ensure_activity_tracking i) r = ActivityState._ensure_activity_tracking epoch i b p (core r).
Proof.
  intros Hp Hb. unfold core_after, _ensure_activity_tracking, ActivityState._ensure_activity_tracking. rewrite alone_bind.
  unfold ask, PyThreads.ask. cbn [alone]. rewrite Hb. destruct b; [|done]. cbn [negb]. rewrite alone_bind. unfold update. rewrite alone_locked.
  unfold modify, mbind, M_bind. exact (recompute_core i p false (with_core false _ r) Hp).
Qed.

(** The two models of these operations agree: a thread that is not interrupted
    does to the caches of the indicator, to the agents and to the log of their
    broadcasts what the operations of [ActivityState] do. *)
Lemma lone_thread_agrees i (p : option Q) (b : bool) events r :
  (∀ r', alone o (_read_process_started_at i) r' = (Ret p, r')) → o r (PathExists (_get_agent_state_dir i)) = Ret b →
  core_after (update_session_events i events) r = ActivityState.update_session_events epoch i p events (core r)
  ∧ core_after (reset_activity_state i) r = ActivityState.reset_activity_state epoch i p (core r)
  ∧ core_after (_ensure_activity_tracking i) r = ActivityState._ensure_activity_tracking epoch i b p (core r)
  ∧ core_after (_stop_activity_tracking i) r = ActivityState._stop_activity_tracking i (core r).
Proof. intros Hp Hb. split; [by apply update_core|]. split; [by apply reset_core|]. by split; [apply ensure_core|]. Qed.
End alone.

(** ** The threads of the server *)
Inductive call :=
  | ObserveLines (lines : list (pystr * bool)) (** one reader, line after line *)
  | SessionEvents (agent_id : pystr) (events : list dict)
  | ResetActivity (agent_id : pystr)
  | Remove (agent_id : pystr)
  | CreateWorktree (name selected_agent_id : pystr)
  | CreateChat (name : pystr)
  | Refresh
  | ApplicationsChanged (agent_id : pystr)
  | Message (agent_id text : pystr)
  | Resolve (agent_id : pystr).

Section pools.
Context `{PyRepr} `{Mngr}.

Definition thread_of (c : call) : P unit :=
  match c with
  | ObserveLines lines => each lines (λ l, _handle_observe_output_line l.1 l.2)
  | SessionEvents i events => update_session_events i events
  | ResetActivity i => reset_activity_state i
  | Remove i => remove_agent i
  | CreateWorktree name i => create_worktree_agent name i;; mret tt
  | CreateChat name => create_chat_agent name;; mret tt
  | Refresh => _refresh_agents
  | ApplicationsChanged i => _on_applications_changed i
  | Message i text => send_message_to_agent i text;; mret tt
  | Resolve i => get_agent_info_by_id i;; mret tt
  end.

(** ** The world as the manager expects it *)

Definition only_raises (f : exn → bool) {X} (a : outcome X) : Prop := match a with Ret _ => True | Raise e => f e = true end.
Definition is_object (v : json) : bool := match v with JObj _ => true | _ => false end.
(** An [applications.toml] that [tomllib] rejects, or an array of tables. *)
Definition sound_toml (text : pystr) : bool :=
  match (data ← toml_loads text; iter_json (jget_or "applications" (JList []) data)) with
  | Ret entries => forallb is_object entries
  | Raise e => is_parse_error e
  end.
(** Looking at files may fail where the code expects it; a command that creates
    an agent may fail in any way; mngr, git and the rest may do as they like. *)
Definition calm (_ : registry) (q : question) : outcome (answer q) → Prop :=
  match q with
  | Mtime _ | StartObserver _ => only_raises is_OSError
  | ReadText _ => λ a, match a with Ret t => sound_toml t = true | Raise e => is_parse_error e = true end
  | Create _ _ => λ a, only_raises is_Exception a ∧ ∀ x, a = Ret x → only_raises is_Exception x.2
  | PathExists _ | MakeDirs _ | NewObserver _ _ | StopObserver _ | SetOrder _ | StartThread _ | WsSend _ _ => λ a, is_Ret a = true
  | _ => λ _, True
  end.
(** [datetime.fromisoformat] raises nothing else. *)
Definition sane_clock : Prop := ∀ s e, epoch s = Raise e → ∃ m, e = ValueError m.

Lemma cached_state_total i p a m : sane_clock → ∃ s, cached_state epoch i p a m = Ret s.
Proof.
  intros Hc. unfold cached_state, parse_iso_timestamp_to_epoch.
  destruct (mjoin _) as [s|]; [|by eexists]. destruct (s =? []); [by eexists|].
  destruct (epoch s) as [q|e] eqn:E; [by eexists|]. destruct (Hc s e E) as [? ->]. by eexists.
Qed.

(** ** Telling every change *)

Definition told_all (b : WsBroadcaster.broadcaster) (l : list message) : WsBroadcaster.broadcaster :=
  foldl (λ b m, broadcast_text (text_of m) b) b l.

(** A client that has registered when [v_from] messages had been sent and the
    agents were at revision [v_base]: what it was shown on joining, how many
    messages it has taken from its queue, the one it is sending, those it has sent. *)
Record viewer := {
  v_from : nat; v_base : nat; v_snap : option (nat * gmap pystr AgentStateItem); v_taken : nat;
  v_pending : option pystr; v_got : list pystr }.
(** What a thread owes the clients: nothing, a broadcast of revision [v] or
    later, or the broadcast of what it has read; and what the thread of a client knows. *)
Inductive debt :=
  | Free
  | Owes (v : nat)
  | Shows (d : option nat) (v : nat) (A : gmap pystr AgentStateItem)
  | Client (q : qid) (c : viewer).
Definition covers (g : debt) (w : nat) : Prop :=
  match g with Owes v => v = w | Shows d _ _ => d = Some w | _ => False end.
Definition is_client (g : debt) : bool := match g with Client _ _ => true | _ => false end.
(** The queue of a client, and the revision at which it registered. *)
Definition who (g : debt) : option (qid * nat) := match g with Client q c => Some (q, v_base c) | _ => None end.

Definition current (r : registry) (v : nat) (A : gmap pystr AgentStateItem) : Prop :=
  v <= revision r ∧ (v = revision r → A = agents_of r).
(** The queue holds what was sent since, unless so much was sent that it may have overflowed. *)
Definition follows (r : registry) (q : qid) (c : viewer) : Prop :=
  _CLIENT_QUEUE_MAX_SIZE <= length (sent r) ∨
  (q ∈ _client_queues (_broadcaster r) ∧ v_from c + v_taken c <= length (sent r) ∧
   items (_broadcaster r) q = map (λ m, Some (text_of m)) (drop (v_from c + v_taken c) (sent r)) ∧
   ∀ m, m ∈ take (v_taken c) (drop (v_from c) (sent r)) → text_of m ∈ v_got c ∨ v_pending c = Some (text_of m)).
Definition informed (r : registry) (q : qid) (c : viewer) : Prop :=
  (v_from c <= length (sent r) ∧ ∀ v A, AgentsUpdated v A ∈ take (v_from c) (sent r) → v <= v_base c) ∧ v_base c <= revision r ∧
  match v_snap c with None => True | Some (v, A) => v_base c <= v ∧ current r v A end ∧
  ∀ t, t ∈ v_got c → (q, t) ∈ delivered r.
Definition fits (r : registry) (g : debt) : Prop :=
  match g with
  | Free => True
  | Owes v => v <= revision r
  | Shows d v A => current r v A ∧ (∀ x, d = Some x → x <= v)
  | Client q c => follows r q c ∧ informed r q c
  end.
Definition told (r : registry) : Prop := ∃ A, AgentsUpdated (revision r) A ∈ sent r.
Definition honest (r : registry) : Prop := ∀ v A, AgentsUpdated v A ∈ sent r → current r v A.
Definition sound (r : registry) : Prop := honest r ∧ WsBroadcaster.ok (_broadcaster r).

(** What a step may send, and to whom it goes. *)
Definition tells (r r' : registry) (l : list message) : Prop :=
  sent r' = sent r ++ l ∧ _broadcaster r' = told_all (_broadcaster r) l ∧ delivered r' = delivered r.
Definition pass (r : registry) (g : debt) (r' : registry) (g' : debt) : Prop :=
  who g' = who g ∧ (if is_client g then sent r' = sent r else ∃ l, tells r r' l) ∧
  ((revision r' = revision r ∧ agents_of r' = agents_of r ∧ (covers g (revision r) → covers g' (revision r) ∨ told r'))
   ∨ (revision r' = S (revision r) ∧ covers g' (revision r'))).
(** [ids]: the threads of clients, at most one. *)
Definition account (ids : list (qid * nat)) (v0 : nat) (r : registry) (gs : list debt) : Prop :=
  omap who gs = ids ∧ v0 <= revision r ∧ (revision r = v0 ∨ told r ∨ ∃ g, g ∈ gs ∧ covers g (revision r)).
(** The thread of a client has nothing in flight. *)
Definition paid (g : debt) : Prop :=
  match g with
  | Free => True
  | Client _ c => v_pending c = None ∧ ∃ v A, v_snap c = Some (v, A) ∧ text_of (AgentsUpdated v A) ∈ v_got c
  | _ => False
  end.
Definition share (g g1 g2 : debt) : Prop := g1 = Free ∧ g2 = g.

Abbreviation safe_debt := (safe calm sound fits pass paid share).

Lemma current_stable r r' v A :
  (revision r' = revision r ∧ agents_of r' = agents_of r) ∨ revision r' = S (revision r) → current r v A → current r' v A.
Proof. intros [[Hr Ha]|Hr] [Hv HA]; unfold current; rewrite Hr; [rewrite Ha; done|]. split; [lia|]. intros ->. lia. Qed.

Lemma told_ok l : ∀ b, WsBroadcaster.ok b → WsBroadcaster.ok (told_all b l).
Proof. induction l as [|m l IH]; intros b Hb; [done|]. apply IH. by apply (ok_step b (Broadcast (text_of m))). Qed.

(** A connected client with room gets every message. *)
Lemma told_view q l : ∀ b, WsBroadcaster.ok b → q ∈ _client_queues b →
  length (items b q) + length l <= _CLIENT_QUEUE_MAX_SIZE →
  q ∈ _client_queues (told_all b l) ∧ items (told_all b l) q = items b q ++ map (λ m, Some (text_of m)) l.
Proof.
  induction l as [|m l IH]; intros b Hb Hq Hl; [by rewrite app_nil_r|]. cbn [told_all foldl map].
  assert (view (broadcast_text (text_of m) b) q = client_step q (view b q) (Broadcast (text_of m))) as Hv by (by apply view_broadcast).
  unfold view in Hv. cbn [client_step connected held fulls] in Hv. rewrite (bool_decide_eq_true_2 (q ∈ _client_queues b)) in Hv by done.
  simpl in Hl. cbn [negb] in Hv. rewrite (proj2 (Nat.ltb_lt _ _)) in Hv by lia. injection Hv as Hq' Hi _.
  apply bool_decide_eq_true_1 in Hq'.
  destruct (IH (broadcast_text (text_of m) b)) as [H1 H2]; [by apply (ok_step b (Broadcast (text_of m)))|done|rewrite Hi, length_app; simpl; lia|].
  split; [exact H1|]. unfold told_all in H2. rewrite H2, Hi, <- app_assoc. done.
Qed.

Lemma follows_stable r r' l q c : WsBroadcaster.ok (_broadcaster r) → tells r r' l → follows r q c → follows r' q c.
Proof.
  intros Hok (Hs & Hb & _) [Hbig|(Hq & Hn & Hi & Hgot)]; unfold follows; rewrite Hs, length_app; [left; lia|].
  destruct (decide (_CLIENT_QUEUE_MAX_SIZE <= length (sent r) + length l)) as [Hbig|Hsmall]; [by left|right].
  destruct (told_view q l (_broadcaster r) Hok Hq) as [H1 H2]; [rewrite Hi, length_map, length_drop; lia|].
  split; [by rewrite Hb|]. split; [lia|]. split.
  - rewrite Hb, H2, Hi, drop_app_le, map_app by lia. done.
  - intros m. rewrite drop_app_le, take_app_le by (rewrite ?length_drop; lia). apply Hgot.
Qed.

Lemma informed_stable r r' q c :
  (∃ l, sent r' = sent r ++ l) → delivered r' = delivered r →
  (revision r' = revision r ∧ agents_of r' = agents_of r) ∨ revision r' = S (revision r) → informed r q c → informed r' q c.
Proof.
  intros [l Hs] Hd Hr (Hf & Hb & Hsnap & Hg). split; [|split; [destruct Hr as [[-> _]| ->]; lia|split; [|by rewrite Hd]]].
  - rewrite Hs, length_app, take_app_le by lia. split; [lia|apply Hf].
  - destruct (v_snap c) as [[v A]|]; [|done]. destruct Hsnap. split; [done|]. by eapply current_stable.
Qed.

Lemma pass_moves r g r' g' : pass r g r' g' →
  (revision r' = revision r ∧ agents_of r' = agents_of r) ∨ revision r' = S (revision r).
Proof. intros (_ & _ & [(? & ? & _)|(? & _)]); auto. Qed.

Lemma fits_stable s g s' g' h : sound s → pass s g s' g' → (is_client h = true → is_client g = false) → fits s h → fits s' h.
Proof.
  intros [_ Hok] Hp Hh Hf. pose proof (pass_moves _ _ _ _ Hp) as Hm. destruct h as [|v|d v A|q c]; simpl in *.
  - done.
  - destruct Hm as [[-> _]| ->]; lia.
  - destruct Hf as [Hc Hd]. split; [|done]. by eapply current_stable.
  - destruct Hp as (_ & Hs & _). rewrite (Hh eq_refl) in Hs. destruct Hs as [l Ht]. destruct Hf as [Hfo Hin].
    split; [by eapply follows_stable|]. eapply informed_stable; [by exists l; apply Ht|apply Ht|done|done].
Qed.

Lemma who_client g : is_Some (who g) ↔ is_client g = true.
Proof. destruct g; simpl; split; try done; try (by intros []); by eexists. Qed.
Lemma no_client gs : omap who gs = [] → Forall (λ g, is_client g = false) gs.
Proof.
  intros Hw. apply Forall_forall. intros g Hg. destruct (is_client g) eqn:E; [|done].
  apply who_client in E as [x Hx]. assert (x ∈ omap who gs) as Hin by (apply list_elem_of_omap; by exists g).
  rewrite Hw in Hin. by apply elem_of_nil in Hin.
Qed.

Lemma others_fit ids v0 s l g r s' g' :
  length ids <= 1 → sound s → Forall (fits s) (l ++ g :: r) → account ids v0 s (l ++ g :: r) → pass s g s' g' → Forall (fits s') (l ++ r).
Proof.
  intros Hn Hs Hf (H1 & _ & _) Hp. apply Forall_forall. intros h Hh.
  eapply fits_stable; [done|done| |].
  - intros Hc. destruct (is_client g) eqn:Hg; [|done]. exfalso. apply who_client in Hg as [x Hx].
    assert (Forall (λ g, is_client g = false) (l ++ r)) as Hno.
    { apply no_client. rewrite omap_app in *. assert (omap who (g :: r) = x :: omap who r) as Hgr by (simpl; by rewrite Hx).
      rewrite Hgr in H1. subst ids. rewrite length_app in Hn. cbn [length] in Hn. apply nil_length_inv. rewrite length_app. lia. }
    eapply Forall_forall in Hno; [|exact Hh]. congruence.
  - eapply Forall_forall; [exact Hf|]. set_solver.
Qed.

Lemma account_pass ids v0 s l g r s' g' :
  account ids v0 s (l ++ g :: r) → pass s g s' g' → account ids v0 s' (l ++ g' :: r).
Proof.
  intros (H1 & Hv0 & Ha) (Hcl & Hsub & Hp). unfold account in *. rewrite omap_app in *. simpl in *. rewrite Hcl. split; [done|].
  assert (sent s ⊆ sent s') as Hin.
  { destruct (is_client g); [by rewrite Hsub|]. destruct Hsub as (x & -> & _). set_solver. }
  destruct Hp as [(Hr & _ & Hg)|(Hr & Hg)]; (split; [lia|]); unfold told in *; [rewrite Hr|right; right; exists g'; split; [set_solver|done]].
  destruct Ha as [Ha|[(A & HA)|(h & Hh & Hc)]]; [by left|right; left; exists A; by apply Hin|].
  apply elem_of_app in Hh as [Hh|[->|Hh]%elem_of_cons].
  - right; right. exists h. split; [set_solver|done].
  - destruct (Hg Hc) as [Hg'|(A & HA)]; [right; right; exists g'; split; [set_solver|done]|]. right; left. exists A. by rewrite <- Hr.
  - right; right. exists h. split; [set_solver|done].
Qed.

Lemma account_share ids v0 s l g r g1 g2 :
  account ids v0 s (l ++ g :: r) → share g g1 g2 → account ids v0 s (l ++ g2 :: r ++ [g1]).
Proof.
  unfold account. intros (H1 & Hv0 & Ha) [-> ->]. rewrite omap_app in *. simpl in *. rewrite omap_app. simpl. rewrite app_nil_r.
  split; [done|]. split; [done|].
  destruct Ha as [Ha|[Ha|(h & Hh & Hc)]]; [by left|by right; left|]. right; right. exists h. split; [set_solver|done].
Qed.

(** What a critical section does to the agents: nothing, or a new revision. *)
Definition silent (l : list message) : Prop := Forall (λ m, match m with AgentsUpdated _ _ => False | _ => True end) l.
Definition quiet (r r' : registry) : Prop :=
  revision r' = revision r ∧ agents_of r' = agents_of r ∧ ∃ l, tells r r' l ∧ silent l.
Definition loud (r r' : registry) : Prop :=
  revision r' = S (revision r) ∧ sent r' = sent r ∧ _broadcaster r' = _broadcaster r ∧ delivered r' = delivered r.
Definition plain (g : debt) : Prop := match g with Free | Owes _ => True | _ => False end.

Lemma silent_not l v A : silent l → AgentsUpdated v A ∉ l.
Proof. intros Hl Hin. eapply Forall_forall in Hl; [|exact Hin]. done. Qed.

Lemma quiet_pass g r r' : sound r → fits r g → is_client g = false → quiet r r' → pass r g r' g ∧ sound r' ∧ fits r' g.
Proof.
  intros [Hh Hok] Hf Hg (Hr & Ha & l & (Hs & Hb & Hd) & Hl).
  assert (pass r g r' g) as Hp by (split; [done|rewrite Hg; split; [by exists l|left; auto]]). split; [done|]. split; [|by eapply fits_stable].
  split; [|rewrite Hb; by apply told_ok]. intros v A. rewrite Hs, elem_of_app. intros [Hin|Hin]; [|by apply silent_not in Hin].
  unfold current. rewrite Hr, Ha. by apply Hh.
Qed.

Lemma loud_pass g r r' : sound r → is_client g = false → loud r r' → pass r g r' (Owes (revision r')) ∧ sound r' ∧ fits r' (Owes (revision r')).
Proof.
  intros [Hh Hok] Hg (Hr & Hs & Hb & Hd). split; [|split; [split|simpl; done]].
  - split; [by destruct g|]. rewrite Hg. split; [|right; done]. exists []. split; [by rewrite app_nil_r|done].
  - intros v A. rewrite Hs. intros Hin. destruct (Hh v A Hin). unfold current. lia.
  - by rewrite Hb.
Qed.

Lemma quiet_safe {R : Type} (p : P R) g : is_client g = false → within quiet p → safe_debt g p (λ _ g', g' = g).
Proof. intros Hg. apply safe_within. intros s s' Hh Hf Hq. by apply quiet_pass. Qed.
Lemma plain_not_client g : plain g → is_client g = false.
Proof. by destruct g. Qed.

(** [p] ends well and leaves at most a broadcast owed; with [settles], none. *)
Definition stirs {R : Type} (p : P R) : Prop := ∀ g, plain g → safe_debt g p (λ r g', is_Ret r = true ∧ plain g').
Definition settles {R : Type} (p : P R) : Prop := ∀ g, plain g → safe_debt g p (λ r g', is_Ret r = true ∧ g' = Free).

Lemma safe_answer {R : Type} q (k : answer q → P R) g Φ :
  (∀ s a, calm s q a → match a with Ret x => safe_debt g (k x) Φ | Raise e => Φ (Raise e) g end) → safe_debt g (ask q ≫= k) Φ.
Proof. intros Hk. apply safe_bind. intros s a _ _ Ha. apply Hk in Ha. by destruct a. Qed.
Lemma stirs_ret {R : Type} (x : R) : stirs (mret x).
Proof. by intros g Hg. Qed.
Lemma stirs_bind {R R' : Type} (p : P R) (k : R → P R') : stirs p → (∀ x, stirs (k x)) → stirs (p ≫= k).
Proof.
  intros Hp Hk g Hg. apply safe_bind. eapply safe_mono; [by apply Hp|]. intros [x|e] g' [Hr Hg']; [|done]. by apply Hk.
Qed.
Lemma settles_bind {R R' : Type} (p : P R) (k : R → P R') : stirs p → (∀ x, settles (k x)) → settles (p ≫= k).
Proof.
  intros Hp Hk g Hg. apply safe_bind. eapply safe_mono; [by apply Hp|]. intros [x|e] g' [Hr Hg']; [|done]. by apply Hk.
Qed.
Lemma stirs_each {X} (l : list X) (f : X → P unit) : (∀ x, stirs (f x)) → stirs (each l f).
Proof. intros Hf. induction l as [|x l IH]; [apply stirs_ret|]. by apply stirs_bind. Qed.
Lemma stirs_ask q : (∀ s a, calm s q a → is_Ret a = true) → stirs (ask q).
Proof. intros Hq g Hg s a _ _ Ha. split; [by eapply Hq|done]. Qed.
Lemma safe_section {R : Type} (m : M registry R) g Φ :
  is_client g = false →
  (∀ r, (quiet r (m r).2 ∧ Φ (m r).1 g) ∨ (loud r (m r).2 ∧ Φ (m r).1 (Owes (S (revision r))))) →
  safe_debt g (locked m) Φ.
Proof.
  intros Hg Hm. apply safe_locked. intros s Hi Ho. destruct (Hm s) as [[Hq HΦ]|[Hl HΦ]].
  - exists g. by destruct (quiet_pass g _ _ Hi Ho Hg Hq) as (? & ? & ?).
  - exists (Owes (S (revision s))). rewrite <- (proj1 Hl) in *. by destruct (loud_pass g _ _ Hi Hg Hl) as (? & ? & ?).
Qed.
Lemma stirs_locked {R : Type} (m : M registry R) :
  (∀ r, is_Ret (m r).1 = true ∧ (quiet r (m r).2 ∨ loud r (m r).2)) → stirs (locked m).
Proof. intros Hm g Hg. apply safe_section; [by apply plain_not_client|]. intros r. destruct (Hm r) as [Hr [Hq|Hl]]; [left|right]; split_and!; done. Qed.
Lemma stirs_when b (p : P unit) : stirs p → stirs (whenp b p).
Proof. destruct b; [done|]. intros _. apply stirs_ret. Qed.
Lemma settles_stirs {R : Type} (p : P R) : settles p → stirs p.
Proof. intros Hp g Hg. eapply safe_mono; [by apply Hp|]. by intros r g' [? ->]. Qed.

Lemma quiet_refl r : quiet r r.
Proof. split; [done|]. split; [done|]. exists []. split; [|constructor]. split; [by rewrite app_nil_r|done]. Qed.

(** The two sections of a broadcast, between which others may write. *)
Lemma broadcast_settles : settles broadcast_agents.
Proof.
  intros g Hg. unfold broadcast_agents, read, broadcast_message, update. apply safe_bind, safe_locked.
  intros r Hr Hf. cbn [gets fst snd].
  exists (Shows (match g with Owes x => Some x | _ => None end) (revision r) (agents_of r)).
  assert (current r (revision r) (agents_of r)) as Hc by done.
  assert (is_client g = false) as Hg' by (by apply plain_not_client).
  split; [|split; [exact Hr|split; [split; [exact Hc|]|]]].
  - split; [by destruct g|]. rewrite Hg'. split; [exists []; split; [by rewrite app_nil_r|done]|]. left. split; [done|]. split; [done|].
    intros Hcov. left. destruct g; simpl in *; [done|by subst|done|done].
  - intros x. destruct g; simpl in *; try done. by intros [= ->].
  - apply safe_locked. cbn [gets modify fst snd]. intros r' [Hr' Hok] [Hc' Hd]. exists Free.
    assert (tells r' (send (AgentsUpdated (revision r) (agents_of r)) r') [AgentsUpdated (revision r) (agents_of r)]) as Ht by done.
    split; [|split; [split|done]].
    + split; [done|]. split; [by eexists|]. left. split; [done|]. split; [done|]. intros Hd'. right. exists (agents_of r). simpl in *. specialize (Hd _ Hd'). destruct Hc' as [Hle _].
      assert (revision r = revision r') as <- by lia. set_solver.
    + intros v A. simpl. rewrite elem_of_app, list_elem_of_singleton. intros [Hin|[= -> ->]]; [by apply Hr'|exact Hc'].
    + rewrite (proj1 (proj2 Ht)). by apply told_ok.
Qed.

Lemma mtime_stirs i : stirs (_read_process_started_at i).
Proof.
  intros g Hg. apply safe_catching, safe_bind, safe_ask. intros s [t|e] _ _ Ha; simpl in *; [done|]. by rewrite Ha.
Qed.

Lemma recompute_section_spec i p r : sane_clock →
  let '(x, r') := recompute_section i p r in
  (x = Ret false ∧ r' = r) ∨ (x = Ret true ∧ loud r r').
Proof.
  intros Hc. unfold recompute_section. destruct (negb _); [by left|]. destruct (agents_of r !! i) as [a|]; [|by left].
  destruct (cached_state_total i p a (core r) Hc) as [s ->]. destruct (_ && _); [by left|]. by right.
Qed.

Lemma recompute_stirs i b : sane_clock → stirs (_recompute_activity_state i b).
Proof.
  intros Hc. unfold _recompute_activity_state. apply stirs_bind; [apply mtime_stirs|]. intros p.
  apply stirs_bind; [|intros x; apply stirs_when, settles_stirs, broadcast_settles].
  apply stirs_locked. intros r. pose proof (recompute_section_spec i p r Hc) as Hs.
  destruct (recompute_section i p r) as [x r']. destruct Hs as [[-> ->]|[-> Hl]]; (split; [done|]); [left; apply quiet_refl|by right].
Qed.

(** A change that is broadcast by the recomputation itself. *)
Lemma recompute_clears i : sane_clock → safe_debt Free (_recompute_activity_state i true) (λ r g', is_Ret r = true ∧ g' = Free).
Proof.
  intros Hc. unfold _recompute_activity_state. apply safe_bind, safe_catching, safe_bind, safe_ask.
  intros s a _ _ Ha. assert (∀ p, safe_debt Free (changed ← locked (recompute_section i p); whenp (changed && true) broadcast_agents)
    (λ r g', is_Ret r = true ∧ g' = Free)) as Hp.
  { intros p. apply safe_bind, safe_section; [done|]. intros r. pose proof (recompute_section_spec i p r Hc) as Hs.
    destruct (recompute_section i p r) as [x r']. destruct Hs as [[-> ->]|[-> Hl]]; [left; split; [apply quiet_refl|done]|right].
    split; [done|]. by apply broadcast_settles. }
  destruct a as [t|e]; [exact (Hp (Some t))|]. change (is_OSError e = true) in Ha. cbv beta iota. rewrite Ha. exact (Hp None).
Qed.

Lemma read_entries_objects l : forallb is_object l = true → ∀ apps,
  match (read_entries l apps).2 with Some e => is_parse_error e = true | None => True end.
Proof.
  induction l as [|v l IH]; intros Hl apps; [done|]. simpl in Hl. apply andb_true_iff in Hl as [Hv Hl].
  destruct v as [| | | | | | |d]; try discriminate Hv. simpl. unfold read_entry, get_default, mbind, outcome_bind.
  destruct (_ && _); [|by apply IH].
  destruct (jget_or "name" _ d); try done. destruct (jget_or "url" _ d); try done. by apply IH.
Qed.

Lemma parse_stirs p : stirs (parse_applications p).
Proof.
  unfold parse_applications. apply stirs_bind; [by apply stirs_ask|]. intros there. destruct (negb there); [apply stirs_ret|].
  intros g Hg. apply safe_after. unfold read_toml. apply safe_bind. intros s [t|e] _ _ Ha; cbn [calm] in Ha; [|simpl; by rewrite Ha].
  unfold sound_toml in Ha. cbn [safe]. destruct (toml_loads t) as [data|e]; [|simpl in *; by rewrite Ha].
  cbn [safe after mbind prog_bind]. unfold mbind, outcome_bind in Ha. destruct (iter_json _) as [entries|e]; [|by rewrite Ha].
  pose proof (read_entries_objects entries Ha []) as He. destruct (read_entries entries []) as [apps [e|]]; simpl in *; [by rewrite He|done].
Qed.

Lemma quiet_update f : (∀ r, quiet r (f r)) → stirs (update f).
Proof. intros Hf. apply stirs_locked. intros r. split; [done|left; apply Hf]. Qed.
Lemma loud_update f : (∀ r, loud r (f r)) → stirs (update f).
Proof. intros Hf. apply stirs_locked. intros r. split; [done|right; apply Hf]. Qed.
Lemma quiet_same r r' :
  revision r' = revision r → agents_of r' = agents_of r → sent r' = sent r → _broadcaster r' = _broadcaster r → delivered r' = delivered r → quiet r r'.
Proof. intros Hr Ha Hs Hb Hd. split; [done|]. split; [done|]. exists []. split; [|constructor]. split; [by rewrite app_nil_r|done]. Qed.
Lemma read_stirs {X} (f : registry → X) : stirs (read f).
Proof. apply stirs_locked. intros r. split; [done|left; apply quiet_refl]. Qed.

Lemma read_applications_stirs p : stirs (_read_applications p).
Proof. apply stirs_bind; [apply parse_stirs|]. intros apps. apply quiet_update. intros r. by apply quiet_same. Qed.

Lemma start_watcher_stirs i d : stirs (_start_app_watcher i d).
Proof.
  unfold _start_app_watcher. apply stirs_bind; [apply read_stirs|]. intros []; [apply stirs_ret|].
  apply stirs_bind; [by apply stirs_ask|]. intros there. apply stirs_bind; [by apply stirs_when, stirs_ask|].
  intros []. apply stirs_bind; [apply read_applications_stirs|]. intros []. apply stirs_bind; [by apply stirs_ask|]. intros ob g Hg.
  assert (stirs (added ← locked (add_observer i ob); whenp (negb added) (ask (StopObserver ob)))) as Hadd.
  { apply stirs_bind; [|intros; by apply stirs_when, stirs_ask]. apply stirs_locked. intros r. unfold add_observer.
    destruct (_app_observers r !! i); (split; [done|left; by apply quiet_same]). }
  apply safe_catching, safe_bind, safe_ask. intros s [t|e] _ _ Ha.
  - eapply safe_mono; [by apply Hadd|]. by intros [?|e] g' [? ?].
  - change (is_OSError e = true) in Ha. by rewrite Ha.
Qed.

Lemma watch_own_stirs i d : stirs (watch_own i d).
Proof. unfold watch_own. destruct (_ =? _); [|apply stirs_ret]. destruct d; [apply start_watcher_stirs|apply stirs_ret]. Qed.
Lemma stop_watcher_stirs i : stirs (_stop_app_watcher i).
Proof.
  apply stirs_bind; [|intros []; [by apply stirs_ask|apply stirs_ret]].
  apply stirs_locked. intros r. split; [done|left; by apply quiet_same].
Qed.
Lemma drop_agent_stirs i : stirs (drop_agent i).
Proof. apply stirs_bind; [apply stop_watcher_stirs|]. intros []. apply quiet_update. intros r. by apply quiet_same. Qed.
Lemma pop_agent_stirs i : stirs (pop_agent i).
Proof. by apply loud_update. Qed.
Lemma ensure_stirs i : sane_clock → stirs (_ensure_activity_tracking i).
Proof.
  intros Hc. apply stirs_bind; [by apply stirs_ask|]. intros there. destruct (negb there); [apply stirs_ret|].
  apply stirs_bind; [|intros []; by apply recompute_stirs]. apply quiet_update. intros r. by apply quiet_same.
Qed.

(** *** The handlers *)
Lemma snapshot_settles agents : sane_clock → settles (_handle_full_snapshot agents).
Proof.
  intros Hc. unfold _handle_full_snapshot. cbv zeta. apply settles_bind; [apply stirs_locked; intros r; split; [done|by right]|]. intros old.
  apply settles_bind; [by apply stirs_ask|]. intros order. apply settles_bind.
  { apply stirs_each. intros i. apply stirs_bind; [apply watch_own_stirs|]. intros []. by apply ensure_stirs. }
  intros []. apply settles_bind; [by apply stirs_ask|]. intros gone.
  apply settles_bind; [apply stirs_each, drop_agent_stirs|]. intros []. apply broadcast_settles.
Qed.

Lemma discovered_settles a : sane_clock → settles (_handle_agent_discovered a).
Proof.
  intros Hc. unfold _handle_agent_discovered. cbv zeta. apply settles_bind; [by apply loud_update|]. intros [].
  apply settles_bind; [apply watch_own_stirs|]. intros []. apply settles_bind; [by apply ensure_stirs|]. intros []. apply broadcast_settles.
Qed.

Lemma gone_settles i : settles (remove_agent i).
Proof.
  apply settles_bind; [apply pop_agent_stirs|]. intros []. apply settles_bind; [apply drop_agent_stirs|]. intros []. apply broadcast_settles.
Qed.

Lemma host_settles l : settles (_handle_host_destroyed l).
Proof.
  apply settles_bind; [|intros []; apply broadcast_settles]. apply stirs_each. intros i.
  apply stirs_bind; [apply pop_agent_stirs|]. intros []. apply drop_agent_stirs.
Qed.

(** An operation that starts without a debt ends without one, however it ends. *)
Definition frees {R : Type} (p : P R) : Prop := safe_debt Free p (λ _ g', g' = Free).
Lemma settles_frees {R : Type} (p : P R) : settles p → frees p.
Proof. intros Hp. eapply safe_mono; [by apply (Hp Free)|]. by intros r g' [_ ?]. Qed.
Lemma frees_quiet {R : Type} (p : P R) : within quiet p → frees p.
Proof. by apply quiet_safe. Qed.
Lemma frees_bind {R R' : Type} (p : P R) (k : R → P R') : frees p → (∀ x, frees (k x)) → frees (p ≫= k).
Proof. intros Hp Hk. apply safe_bind. eapply safe_mono; [apply Hp|]. intros [x|e] g' ->; [apply Hk|done]. Qed.

Lemma event_frees e : sane_clock → frees (_handle_discovery_event e).
Proof.
  intros Hc. destruct e; [by apply settles_frees, snapshot_settles|by apply settles_frees, discovered_settles
    |apply settles_frees, gone_settles|apply settles_frees, host_settles|done].
Qed.
Lemma line_frees line b : sane_clock → frees (_handle_observe_output_line line b).
Proof.
  intros Hc. unfold _handle_observe_output_line. cbv zeta. destruct (_ || _); [done|].
  apply frees_bind; [by apply frees_quiet|]. intros [e|]; [by apply event_frees|done].
Qed.
Lemma refresh_settles agents : sane_clock → settles (refresh_with agents).
Proof.
  intros Hc. unfold refresh_with. cbv zeta. apply settles_bind; [apply stirs_locked; intros r; split; [done|by right]|]. intros old.
  apply settles_bind; [by apply stirs_ask|]. intros order. apply settles_bind; [by apply stirs_each; intros i; apply ensure_stirs|].
  intros []. apply settles_bind; [by apply stirs_ask|]. intros gone.
  apply settles_bind; [apply stirs_each, drop_agent_stirs|]. intros []. apply broadcast_settles.
Qed.
Lemma config_within rel d : within rel (read_claude_config_dir_from_env_file d).
Proof.
  unfold read_claude_config_dir_from_env_file, _read_claude_config_dir_from_env.
  within_go ltac:(done).
Qed.
Lemma discover_within rel : within rel discover_agents.
Proof.
  unfold discover_agents, in_context, _get_mngr_context. apply within_bind; [within_go ltac:(done)|]. intros [h l]. simpl.
  induction l as [|d l IH]; cbn [agent_infos]; within_go ltac:(first [done|apply config_within|apply IH]).
Qed.
Lemma refresh_frees : sane_clock → frees _refresh_agents.
Proof.
  intros Hc. apply safe_catching, safe_bind. eapply safe_mono; [by apply quiet_safe, discover_within|].
  intros [agents|e] g ->; [|by destruct (is_discovery_error e)].
  eapply safe_mono; [by apply (refresh_settles agents Hc Free)|]. by intros [x|e] g' [? ->].
Qed.
Lemma session_frees i events : sane_clock → frees (update_session_events i events).
Proof.
  intros Hc. unfold update_session_events. apply frees_bind; [by apply frees_quiet|]. intros pend.
  apply frees_bind; [|intros []; [|done]; eapply safe_mono; [by apply recompute_clears|by intros ? ? [_ ?]]].
  apply frees_quiet, within_locked. intros r. unfold signals_section.
  destruct (negb _); [apply quiet_refl|]. destruct (_ && _); [apply quiet_refl|by apply quiet_same].
Qed.
Lemma reset_frees i : sane_clock → frees (reset_activity_state i).
Proof.
  intros Hc. unfold reset_activity_state.
  apply frees_bind; [|intros []; [|done]; eapply safe_mono; [by apply recompute_clears|by intros ? ? [_ ?]]].
  apply frees_quiet, within_locked. intros r. unfold reset_section. destruct (negb _); [apply quiet_refl|by apply quiet_same].
Qed.

(** *** Creations *)
Lemma log_put_quiet q m r : quiet r (log_put q m r).2.
Proof. unfold log_put. destruct (_ <? _)%nat; [by apply quiet_same|apply quiet_refl]. Qed.
Lemma send_quiet m r : match m with AgentsUpdated _ _ => False | _ => True end → quiet r (send m r).
Proof.
  intros Hm. split; [by destruct m|]. split; [by destruct m|]. exists [m]. split; [|constructor; [exact Hm|constructor]].
  by destruct m.
Qed.
Lemma safe_log_put_quiet q m : within quiet (_safe_log_put q m).
Proof. unfold _safe_log_put. within_go ltac:(intros r; apply log_put_quiet). Qed.
Lemma completion_put_quiet q m : within quiet (_completion_signal_put q m).
Proof. unfold _completion_signal_put. within_go ltac:(intros r; apply log_put_quiet). Qed.
Lemma send_within m : match m with AgentsUpdated _ _ => False | _ => True end → within quiet (broadcast_message m).
Proof. intros Hm. apply within_locked. intros r. by apply send_quiet. Qed.

Lemma log_line_ends q m g : is_client g = false → safe_debt g (_safe_log_put q m) (λ r g', r = Ret tt ∧ g' = g).
Proof.
  intros Hg. unfold _safe_log_put. apply safe_bind, safe_section; [done|]. intros r. left. split; [apply log_put_quiet|].
  unfold log_put. by destruct (_ <? _)%nat.
Qed.
Lemma safe_next {R : Type} (p : P unit) (k : P R) g Φ :
  safe_debt g p (λ r g', r = Ret tt ∧ g' = g) → safe_debt g k Φ → safe_debt g (p ;; k) Φ.
Proof. intros Hp Hk. apply safe_bind. eapply safe_mono; [exact Hp|]. by intros r g' [-> ->]. Qed.

(** What the outer handler sees of the command: a result, or an exception it catches. *)
Lemma command_ends i cmd d q :
  safe_debt Free (command_result i cmd d q) (λ r g', g' = Free ∧ only_raises is_Exception r).
Proof.
  apply safe_catching, safe_answer. intros s [[lines rc]|e] [Ha Hrc]; cbn [fst snd].
  - specialize (Hrc _ eq_refl). cbn [snd] in Hrc. clear Ha. apply safe_next.
    { induction lines as [|x lines IH]; [done|]. apply safe_next; [by apply log_line_ends|exact IH]. }
    destruct rc as [z|e]; [by destruct (z =? 0)%Z|]. cbn. destruct (_ || _); done.
  - simpl in Ha. destruct (_ || _); done.
Qed.

Lemma creation_ends i n cmd d q l :
  safe_debt Free (creation_result i n cmd d q l) (λ r g', ∃ x, r = Ret x ∧ plain g' ∧ (x.1 = false → g' = Free)).
Proof.
  apply safe_catching, safe_next; [by apply (log_line_ends _ _ Free)|]. apply safe_bind.
  eapply safe_mono; [apply command_ends|]. intros [[ok e]|e] g' [-> Hr].
  - apply safe_bind. apply safe_section; [done|]. intros r. unfold finish_section. destruct ok; [right|left]; (split; [|by eexists]); [done|by apply quiet_same].
  - simpl in Hr. rewrite Hr. apply safe_bind, safe_section; [done|]. intros r. left. split; [by apply quiet_same|]. by eexists.
Qed.

Lemma completion_put_ends q m g : is_client g = false → safe_debt g (_completion_signal_put q m) (λ r g', r = Ret tt ∧ g' = g).
Proof.
  intros Hg. assert (safe_debt g (locked (log_put q m) ;; mret tt) (λ r g', r = Ret tt ∧ g' = g)) as Hagain by (by apply log_line_ends).
  unfold _completion_signal_put. apply safe_bind, safe_section; [done|]. intros r. left. split; [apply log_put_quiet|].
  unfold log_put at 1. destruct (_ <? _)%nat; [done|apply Hagain].
Qed.

Lemma run_creation_frees i n cmd d q l : sane_clock → frees (_run_creation i n cmd d q l).
Proof.
  intros Hc. apply safe_bind. eapply safe_mono; [apply creation_ends|]. intros r g' ([ok e] & -> & Hg & Hok). cbn [fst snd] in *.
  assert (is_client g' = false) as Hg' by (by apply plain_not_client).
  apply safe_next; [by apply completion_put_ends|]. apply safe_next; [by apply completion_put_ends|]. apply safe_bind.
  eapply (safe_mono _ _ _ _ _ _ _ _ (λ r g', is_Ret r = true ∧ g' = Free)).
  - destruct ok; [|by rewrite Hok by done]. apply settles_bind; [by apply ensure_stirs| |done]. intros []. apply broadcast_settles.
  - intros [x|e'] g'' [? ->]; [|done]. by apply frees_quiet, send_within.
Qed.

Lemma launch_frees i n cmd d q l : sane_clock → frees (_launch_creation_thread i n cmd d q l).
Proof.
  intros Hc. apply safe_answer. intros s [x|e] Ha; [|done]. exists Free, Free. split_and!; [done..| |done].
  eapply safe_mono; [by apply run_creation_frees|]. by intros ? ? ->.
Qed.
Lemma announce_frees p : frees (announce_creation p).
Proof.
  apply frees_quiet. unfold announce_creation. apply within_bind; [|intros q; apply within_bind; [by apply send_within|done]].
  apply within_locked. intros r. by apply quiet_same.
Qed.
Lemma create_worktree_frees n i : sane_clock → frees (create_worktree_agent n i).
Proof.
  intros Hc. unfold create_worktree_agent. apply frees_bind; [done|]. intros j. apply frees_bind; [by apply frees_quiet, within_locked; intros r; apply quiet_refl|].
  intros [[d|] l]; [|done]. cbn [fst snd]. apply frees_bind.
  { unfold _get_current_branch. apply frees_bind; [done|]. intros x. by destruct (_ =? _)%Z. }
  intros b. cbv zeta. apply frees_bind; [apply announce_frees|]. intros q. by apply frees_bind; [apply launch_frees|].
Qed.
Lemma create_chat_frees n : sane_clock → frees (create_chat_agent n).
Proof.
  intros Hc. unfold create_chat_agent. apply frees_bind; [done|]. intros j. apply frees_bind; [by apply frees_quiet, within_locked; intros r; apply quiet_refl|].
  intros [[d|] l]; [|done]. cbn [fst snd]. cbv zeta. apply frees_bind; [apply announce_frees|]. intros q. by apply frees_bind; [apply launch_frees|].
Qed.

(** *** All of them together *)
Lemma lookup_within rel i : (∀ r, rel r r) → within rel (get_agent_info_by_id i).
Proof.
  intros Hr. unfold get_agent_info_by_id, get_agent_by_id, read. within_go ltac:(first [done|apply config_within]).
Qed.
Lemma message_within rel i t : (∀ r, rel r r) → within rel (send_message_to_agent i t).
Proof.
  intros Hr. unfold send_message_to_agent, get_agent_matches_by_id, read, send_message, in_context, _get_mngr_context, _send_message_to_agent.
  within_go ltac:(done).
Qed.
Lemma applications_within rel i :
  (∀ r, rel r r) → (∀ l r, rel r (with_applications l r)) → (∀ l r, rel r (send (ApplicationsUpdated l) r)) →
  within rel (_on_applications_changed i).
Proof.
  intros Hr Ha Hs. unfold _on_applications_changed, _read_applications, parse_applications, read_toml, broadcast_applications, broadcast_message, update, read.
  within_go ltac:(first [done|intros r; first [apply Hr|apply Ha|apply Hs]]).
Qed.

Lemma call_frees c : sane_clock → frees (thread_of c).
Proof.
  intros Hc. destruct c as [lines|i events|i|i|n i|n| |i|i t|i]; cbn [thread_of].
  - induction lines as [|l lines IH]; [done|]. apply frees_bind; [by apply line_frees|]. by intros [].
  - by apply session_frees.
  - by apply reset_frees.
  - apply settles_frees, gone_settles.
  - by apply frees_bind; [apply create_worktree_frees|].
  - by apply frees_bind; [apply create_chat_frees|].
  - by apply refresh_frees.
  - apply frees_quiet, applications_within; [apply quiet_refl|by intros; apply quiet_same|by intros; apply send_quiet].
  - apply frees_bind; [|done]. apply frees_quiet, message_within, quiet_refl.
  - apply frees_bind; [|done]. apply frees_quiet, lookup_within, quiet_refl.
Qed.

Abbreviation in_balance ids v0 := (balanced calm sound fits pass paid share (account ids v0)).

Lemma run_balanced ids v0 c c' : length ids <= 1 → rtc (pstep calm) c c' → in_balance ids v0 c → in_balance ids v0 c'.
Proof.
  intros Hn. apply balanced_run; [intros ? ? ? ? ? ? _ _; apply account_pass|intros ? ? ? ? ? ?; apply account_share|].
  intros s l g r s' g' Hi Hf. by apply (others_fit ids v0).
Qed.
Lemma no_clients (l : list debt) : Forall (eq Free) l → omap who l = [].
Proof. by induction 1 as [|g l <- _ IH]. Qed.
Lemma calls_balanced cs r0 : sane_clock → sound r0 → in_balance [] (revision r0) (r0, map thread_of cs).
Proof.
  intros Hc Hh. apply (balanced_start _ _ _ _ _ _ _ _ _ Free); [done|done| |].
  - apply Forall_map, Forall_true. intros c. eapply safe_mono; [by apply call_frees|]. by intros ? ? ->.
  - split; [|split; [done|by left]]. apply no_clients, Forall_replicate. done.
Qed.
Lemma account_settled ids v0 r gs : honest r → Forall paid gs → account ids v0 r gs →
  revision r = v0 ∨ AgentsUpdated (revision r) (agents_of r) ∈ sent r.
Proof.
  intros Hh Hp (_ & _ & [Ha|[(A & HA)|(g & Hg & Hcov)]]); [by left| |].
  - right. destruct (Hh _ _ HA) as [_ HA']. by rewrite <- HA' by done.
  - eapply Forall_forall in Hg; [|exact Hp]. by destruct g.
Qed.

(** C36: no change of the agents is lost on the clients: whatever the threads of
    the server do and in whichever order their critical sections run, once they
    have all returned the latest revision of the agents has been broadcast, with
    the agents as they are; the outside may fail where the code expects it to
    ([calm]). *)
Theorem every_change_told cs r0 r ts :
  sane_clock → sound r0 → rtc (pstep calm) (r0, map thread_of cs) (r, ts) → finished ts →
  revision r = revision r0 ∨ AgentsUpdated (revision r) (agents_of r) ∈ sent r.
Proof.
  intros Hc Hh Hrun Hfin. pose proof (calls_balanced cs r0 Hc Hh) as Hb.
  eapply run_balanced in Hb; [|simpl; lia|exact Hrun]. apply balanced_finished in Hb as ([Hh' _] & gs & Hp & _ & Ha); [|done].
  by eapply account_settled.
Qed.
End pools.
