(* ===== verification/CreationFacts.v ===== *)
(** * Creations always complete

    However a creation ends, and whatever other threads do meanwhile, the
    clients are told once that it is over and no trace of it stays behind. *)

From Stdlib Require Import NArith ZArith QArith Lia.
From S2P Require Import Prelude PyStr PyJson PyMonad PyKeyed PyBytes PyPath PyThreads ActivityState WsBroadcaster LayoutServer TaskFiles AgentManager ManagerFacts.
From stdpp Require Import relations options.
#[global] Open Scope nat_scope.
#[local] Open Scope py_scope.

Section creations.
Context `{PyRepr} `{Mngr} (i : pystr).

Definition is_created (m : message) : bool := match m with ProtoAgentCreated p => p_agent_id p =? i | _ => false end.
Definition is_completed (m : message) : bool := match m with ProtoAgentCompleted j _ _ => j =? i | _ => false end.
Definition created (r : registry) : nat := length (List.filter is_created (sent r)).
Definition completed (r : registry) : nat := length (List.filter is_completed (sent r)).

(** What a thread still has to do for the creation: remove the entry, complete it. *)
Record todo := { entries : nat; completions : nat }.
Definition nothing : todo := {| entries := 0; completions := 0 |}.
Definition pass (r : registry) (g : todo) (r' : registry) (g' : todo) : Prop :=
  created r' + completed r + completions g = created r + completed r' + completions g' ∧
  (is_Some (_proto_agents r' !! i) → 1 <= entries g' ∨ (is_Some (_proto_agents r !! i) ∧ entries g <= entries g')).
Definition share (g g1 g2 : todo) : Prop :=
  entries g = entries g1 + entries g2 ∧ completions g = completions g1 + completions g2.
Definition account (r : registry) (gs : list todo) : Prop :=
  created r = completed r + sum_list (map completions gs) ∧
  (is_Some (_proto_agents r !! i) → 1 <= sum_list (map entries gs)).

Abbreviation safe_todo := (safe calm (λ _, True) (λ _ _, True) pass (λ g, g = nothing) share).

Lemma sum_mid (f : todo → nat) l g r : sum_list (map f (l ++ g :: r)) = f g + sum_list (map f (l ++ r)).
Proof. induction l as [|x l IH]; simpl in *; lia. Qed.

Lemma todo_account_pass s l g r s' g' : account s (l ++ g :: r) → pass s g s' g' → account s' (l ++ g' :: r).
Proof.
  unfold account, pass. rewrite !sum_mid. intros [Hc He] [Hc' He']. split; [lia|].
  intros Hs. destruct (He' Hs) as [?|[Hs' ?]]; [lia|]. specialize (He Hs'). lia.
Qed.
Lemma todo_account_share s l g r g1 g2 : account s (l ++ g :: r) → share g g1 g2 → account s (l ++ g2 :: r ++ [g1]).
Proof.
  unfold account. intros [Hc He] [Hs1 Hs2]. rewrite sum_mid in Hc, He. rewrite !sum_mid, !app_assoc, !sum_mid, !app_nil_r.
  split; [lia|]. intros Hs. specialize (He Hs). lia.
Qed.

(** Sections that have nothing to do with the creation of [i]. *)
Definition apart (r r' : registry) : Prop :=
  created r' = created r ∧ completed r' = completed r ∧ (_proto_agents r' !! i = _proto_agents r !! i ∨ _proto_agents r' !! i = None).
Lemma apart_refl r : apart r r.
Proof. by split_and!; [..|left]. Qed.
Lemma apart_same r r' : sent r' = sent r → _proto_agents r' = _proto_agents r → apart r r'.
Proof. unfold apart, created, completed. intros -> ->. by split_and!; [..|left]. Qed.
Lemma apart_pass g r r' : apart r r' → pass r g r' g ∧ True ∧ True.
Proof.
  intros (Hc & Hd & Hp). split_and!; [|done..]. split; [lia|]. intros Hs. right. split; [|lia].
  destruct Hp as [<-|Hn]; [done|]. by rewrite Hn in Hs; destruct Hs.
Qed.
Lemma apart_safe {R : Type} (p : P R) g : within apart p → safe_todo g p (λ _ g', g' = g).
Proof. apply safe_within. intros s s' _ _. apply apart_pass. Qed.
Lemma apart_ends {R : Type} (p : P R) g Φ : within apart p → ends calm p Φ → safe_todo g p (λ r g', g' = g ∧ Φ r).
Proof. apply safe_within_ends. intros s s' _ _. apply apart_pass. Qed.

Lemma send_apart m r : is_created m = false → is_completed m = false → apart r (send m r).
Proof.
  intros Hc Hd. assert (sent (send m r) = sent r ++ [m]) as Hs by (by destruct m).
  assert (_proto_agents (send m r) = _proto_agents r) as Hp by (by destruct m).
  unfold apart, created, completed. rewrite Hs, Hp, !List.filter_app. simpl. rewrite Hc, Hd, !app_nil_r. by split_and!; [..|left].
Qed.
Lemma put_apart q m r : apart r (log_put q m r).2.
Proof. unfold log_put. destruct (_ <? _)%nat; by apply apart_same. Qed.
Lemma recompute_apart j p r : apart r (recompute_section j p r).2.
Proof.
  unfold recompute_section. destruct (negb _); [apply apart_refl|]. destruct (agents_of r !! j); [|apply apart_refl].
  destruct (cached_state _ _ _ _ _); [|apply apart_refl]. destruct (_ && _); [apply apart_refl|by apply apart_same].
Qed.
Lemma signals_apart j b t m r : apart r (signals_section j b t m r).2.
Proof. unfold signals_section. destruct (negb _); [apply apart_refl|]. destruct (_ && _); [apply apart_refl|by apply apart_same]. Qed.
Lemma reset_apart j r : apart r (reset_section j r).2.
Proof. unfold reset_section. destruct (negb _); [apply apart_refl|by apply apart_same]. Qed.
Lemma add_observer_apart j o r : apart r (add_observer j o r).2.
Proof. unfold add_observer. destruct (_app_observers r !! j); [apply apart_refl|by apply apart_same]. Qed.
End creations.

Create HintDb apart discriminated.
#[export] Hint Constants Opaque : apart.
(** A section of the manager's operations. *)
Ltac apart_section :=
  lazymatch goal with
  | |- within _ (AgentManager.ask _) => intros ?; exact I
  | |- ∀ _ : registry, _ =>
      intros ?; lazymatch goal with
      | |- apart _ _ (modify (send _) _).2 => apply send_apart; reflexivity
      | |- apart _ _ (modify _ _).2 => apply apart_same; reflexivity
      | |- apart _ _ (gets _ _).2 => apply apart_refl
      | |- apart _ _ (log_put _ _ _).2 => apply put_apart
      | |- apart _ _ (recompute_section _ _ _).2 => apply recompute_apart
      | |- apart _ _ (signals_section _ _ _ _ _).2 => apply signals_apart
      | |- apart _ _ (reset_section _ _).2 => apply reset_apart
      | |- apart _ _ (add_observer _ _ _).2 => apply add_observer_apart
      | |- apart _ _ (pop_observer _ _).2 => apply apart_same; reflexivity
      | |- apart _ _ (snapshot_section _ _ _).2 => apply apart_same; reflexivity
      | |- apart _ _ (refresh_section _ _).2 => apply apart_same; reflexivity
      end
  | |- _ => solve [auto with apart]
  end.
Ltac apart_go := within_go ltac:(idtac; apart_section).

Section creations.
Context `{PyRepr} `{Mngr} (i : pystr).

Lemma broadcast_apart : within (apart i) broadcast_agents.
Proof.
  unfold broadcast_agents, read, broadcast_message, update. apart_go.
Qed.
Lemma mtime_within rel j : within rel (_read_process_started_at j).
Proof. unfold _read_process_started_at. apart_go. Qed.
End creations.
#[export] Hint Resolve broadcast_apart mtime_within config_within : apart.

Section creations.
Context `{PyRepr} `{Mngr} (i : pystr).

Lemma recompute_within j b : within (apart i) (_recompute_activity_state j b).
Proof. unfold _recompute_activity_state. apart_go. Qed.
Lemma read_applications_within p : within (apart i) (_read_applications p).
Proof. unfold _read_applications, parse_applications, read_toml, update. apart_go. Qed.
Lemma stop_watcher_within j : within (apart i) (_stop_app_watcher j).
Proof. unfold _stop_app_watcher. apart_go. Qed.
Lemma pop_agent_within j : within (apart i) (pop_agent j).
Proof. unfold pop_agent, update. apart_go. Qed.
End creations.
#[export] Hint Resolve recompute_within read_applications_within stop_watcher_within pop_agent_within : apart.

Section creations.
Context `{PyRepr} `{Mngr} (i : pystr).

Lemma start_watcher_within j d : within (apart i) (_start_app_watcher j d).
Proof. unfold _start_app_watcher, read. apart_go. Qed.
Lemma drop_agent_within j : within (apart i) (drop_agent j).
Proof. unfold drop_agent, _stop_activity_tracking, update. apart_go. Qed.
Lemma ensure_within j : within (apart i) (_ensure_activity_tracking j).
Proof. unfold _ensure_activity_tracking, update. apart_go. Qed.
End creations.
#[export] Hint Resolve start_watcher_within drop_agent_within ensure_within : apart.

Section creations.
Context `{PyRepr} `{Mngr} (i : pystr).
Abbreviation safe_todo := (safe calm (λ _, True) (λ _ _, True) (pass i) (λ g, g = nothing) share).

Lemma watch_own_within j d : within (apart i) (watch_own j d).
Proof. unfold watch_own. apart_go. Qed.
Hint Resolve watch_own_within : apart.
Lemma event_within e : within (apart i) (_handle_discovery_event e).
Proof.
  destruct e; cbn [_handle_discovery_event];
    unfold _handle_full_snapshot, _handle_agent_discovered, _handle_agent_destroyed, _handle_host_destroyed, update; cbv zeta; apart_go.
Qed.
Hint Resolve event_within : apart.
Lemma line_within line b : within (apart i) (_handle_observe_output_line line b).
Proof. unfold _handle_observe_output_line. cbv zeta. apart_go. Qed.
Lemma refresh_within : within (apart i) _refresh_agents.
Proof.
  unfold _refresh_agents, tolerating. apply within_catching; [|intros e k; by destruct (is_discovery_error e); intros [= <-]].
  apply within_bind; [apply discover_within|]. intros agents. unfold refresh_with. cbv zeta. apart_go.
Qed.
Lemma session_within j events : within (apart i) (update_session_events j events).
Proof. unfold update_session_events. apart_go. Qed.
Lemma reset_within j : within (apart i) (reset_activity_state j).
Proof. unfold reset_activity_state. apart_go. Qed.
Lemma remove_within j : within (apart i) (remove_agent j).
Proof. unfold remove_agent. apart_go. Qed.
Lemma completion_put_within q m : within (apart i) (_completion_signal_put q m).
Proof. unfold _completion_signal_put. apart_go. Qed.
Lemma log_line_within q m : within (apart i) (_safe_log_put q m).
Proof. unfold _safe_log_put. apart_go. Qed.

Hint Resolve log_line_within completion_put_within : apart.

(** *** The creation itself *)
Lemma log_line_returns q m : ends calm (_safe_log_put q m) (λ r, is_Ret r = true).
Proof. intros r. cbn. unfold log_put. by destruct (_ <? _)%nat. Qed.
Lemma completion_put_returns q m : ends calm (_completion_signal_put q m) (λ r, is_Ret r = true).
Proof.
  intros r. cbn. unfold log_put at 1. destruct (_ <? _)%nat; cbn; [done|]. intros r'. unfold log_put. by destruct (_ <? _)%nat.
Qed.
Lemma lines_return l q : ends calm (each l (λ line, _safe_log_put q (Some (line_text (rstrip_char nl line))))) (λ r, is_Ret r = true).
Proof. induction l as [|x l IH]; [done|]. apply ends_next; [apply log_line_returns|exact IH]. Qed.
Lemma command_returns cmd d q : ends calm (command_result i cmd d q) (only_raises is_Exception).
Proof.
  unfold command_result. apply ends_after, ends_bind. intros s [[lines rc]|e] [Ha Hrc]; cbn [ends].
  - specialize (Hrc _ eq_refl). cbn [snd fst] in *. apply ends_next; [apply lines_return|].
    destruct rc as [z|e]; [by destruct (z =? 0)%Z|]. cbn. by destruct (_ || _).
  - simpl in Ha. by destruct (_ || _).
Qed.
Lemma recompute_returns b : sane_clock → ends calm (_recompute_activity_state i b) (λ r, is_Ret r = true).
Proof.
  intros Hc. assert (∀ p, ends calm (changed ← locked (recompute_section i p); whenp (changed && b) broadcast_agents) (λ r, is_Ret r = true)) as Hrest.
  { intros p. apply ends_bind. intros r. pose proof (recompute_section_spec i p r Hc) as Hs.
    destruct (recompute_section i p r) as [x r']. cbn [ends fst].
    destruct Hs as [[-> ->]|[-> Hl]]; [done|]. by destruct b. }
  unfold _recompute_activity_state. apply ends_bind, ends_after, ends_bind. intros s [t|e] Ha; [apply (Hrest (Some t))|].
  change (is_OSError e = true) in Ha. cbn [ends]. rewrite Ha. apply (Hrest None).
Qed.
Lemma ensure_returns : sane_clock → ends calm (_ensure_activity_tracking i) (λ r, is_Ret r = true).
Proof.
  intros Hc. unfold _ensure_activity_tracking. apply ends_bind. intros s [there|e] Ha; [|done]. cbn [ends].
  destruct (negb there); [done|]. apply ends_next; [done|]. by apply recompute_returns.
Qed.

Definition both : todo := {| entries := 1; completions := 1 |}.
Definition to_complete : todo := {| entries := 0; completions := 1 |}.

(** A step apart from the creation that returns. *)
Lemma todo_next {R : Type} (p : P unit) (k : P R) g Φ :
  within (apart i) p → ends calm p (λ r, is_Ret r = true) → safe_todo g k Φ → safe_todo g (p ;; k) Φ.
Proof.
  intros Hw He Hk. apply safe_bind. eapply safe_mono; [by apply apart_ends|]. by intros [[]|e] g' [-> ?].
Qed.
Lemma todo_section {R : Type} (m : M registry R) g g' Φ :
  (∀ r, pass i r g (m r).2 g' ∧ Φ (m r).1 g') → safe_todo g (locked m) Φ.
Proof. intros Hm. apply safe_locked. intros r _ _. exists g'. by destruct (Hm r). Qed.

Lemma forget_pass r r' : sent r' = sent r → _proto_agents r' !! i = None → pass i r both r' to_complete.
Proof.
  intros Hs Hp. unfold pass, created, completed. rewrite Hs, Hp. split; [simpl; lia|]. by intros [].
Qed.

Lemma creation_spec n cmd d q l :
  safe_todo both (creation_result i n cmd d q l) (λ r g', ∃ x, r = Ret x ∧ g' = to_complete).
Proof.
  apply safe_catching, todo_next; [apply log_line_within|apply log_line_returns|]. apply safe_bind.
  eapply safe_mono; [apply apart_ends; [|apply command_returns]|].
  { unfold command_result. apart_go. }
  intros [x|e] g' [-> Hr].
  - apply safe_bind, (todo_section _ _ to_complete). intros r. split; [|by eexists].
    apply forget_pass; [destruct x as [[] ?]; reflexivity|]. destruct x as [[] ?]; apply lookup_delete_eq.
  - simpl in Hr. rewrite Hr. apply safe_bind, (todo_section _ _ to_complete). intros r. split; [|by eexists].
    apply forget_pass; [reflexivity|]. apply lookup_delete_eq.
Qed.

Lemma run_creation_spec n cmd d q l : sane_clock → safe_todo both (_run_creation i n cmd d q l) (λ _ g', g' = nothing).
Proof.
  intros Hc. apply safe_bind. eapply safe_mono; [apply creation_spec|]. intros r g' ([ok e] & -> & ->). cbn [fst snd].
  apply todo_next; [apply completion_put_within|apply completion_put_returns|].
  apply todo_next; [apply completion_put_within|apply completion_put_returns|].
  apply todo_next.
  - destruct ok; [|done]. cbn [whenp]. apart_go.
  - destruct ok; [|done]. apply ends_next; [by apply ensure_returns|done].
  - apply (todo_section _ _ nothing). intros r. split; [|done]. unfold pass, created, completed.
    change (sent (modify (send (ProtoAgentCompleted i ok e)) r).2) with (sent r ++ [ProtoAgentCompleted i ok e]).
    rewrite !List.filter_app, !length_app. cbn. rewrite bool_decide_eq_true_2 by done. simpl. split; [lia|].
    intros Hs. right. by split.
Qed.

(** A creation of another agent *)
Lemma run_other_within j n cmd d q l : j ≠ i → within (apart i) (_run_creation j n cmd d q l).
Proof.
  intros Hj. assert (∀ r, _proto_agents (forget_creation j r) !! i = _proto_agents r !! i) as Hf by (intros r; by apply lookup_delete_ne).
  unfold _run_creation, creation_result, command_result. within_go ltac:(idtac; lazymatch goal with
    | |- within _ (update (finish_section _ _ _ _ _)) => apply within_locked; intros r
    | |- within _ (update (forget_creation _)) => apply within_locked; intros r
    | |- within _ (broadcast_message _) => apply within_locked; intros r
    | |- _ => apart_section end).
  - lazymatch goal with x : (bool * _)%type |- _ => destruct x as [[] ?] end; (split; [reflexivity|split; [reflexivity|left; apply Hf]]).
  - split; [reflexivity|split; [reflexivity|left; apply Hf]].
  - apply send_apart; [reflexivity|]. by apply bool_decide_eq_false.
Qed.

(** *** Calls *)
Definition owes_nothing {R : Type} (p : P R) : Prop := safe_todo nothing p (λ _ g', g' = nothing).
Lemma nothing_bind {R R' : Type} (p : P R) (k : R → P R') :
  owes_nothing p → (∀ x, owes_nothing (k x)) → owes_nothing (p ≫= k).
Proof. intros Hp Hk. apply safe_bind. eapply safe_mono; [apply Hp|]. intros [x|e] g' ->; [apply Hk|done]. Qed.
Lemma nothing_apart {R : Type} (p : P R) : within (apart i) p → owes_nothing p.
Proof. apply apart_safe. Qed.

(** From the entry to the thread that will remove it. *)
Lemma announce_spec p : p_agent_id p = i → safe_todo nothing (announce_creation p) (λ r g', is_Ret r = true ∧ g' = both).
Proof.
  intros Hp. unfold announce_creation. apply safe_bind, (todo_section _ _ {| entries := 1; completions := 0 |}).
  intros r. split; [split; [done|by left; simpl; lia]|]. cbn [fst proto_section].
  apply safe_bind, (todo_section _ _ both). intros r'. split; [|done]. unfold pass, created, completed.
  change (sent (modify (send (ProtoAgentCreated p)) r').2) with (sent r' ++ [ProtoAgentCreated p]).
  rewrite !List.filter_app, !length_app. cbn. rewrite bool_decide_eq_true_2 by done. simpl. split; [lia|].
  intros Hs. left. lia.
Qed.
Lemma announce_other_within p : p_agent_id p ≠ i → within (apart i) (announce_creation p).
Proof.
  intros Hp. unfold announce_creation. apply within_bind.
  - apply within_locked. intros r. split; [done|split; [done|left]]. by apply lookup_insert_ne.
  - intros q. apply within_bind; [|done]. apply within_locked. intros r. apply send_apart; [by apply bool_decide_eq_false|done].
Qed.

(** The entry is made, announced and handed to a thread that completes it. *)
Lemma creation_owes_nothing {X : Type} p n cmd d l (x : X) :
  sane_clock →
  owes_nothing (q ← announce_creation p; _launch_creation_thread (p_agent_id p) n cmd d q l;; mret x).
Proof.
  intros Hc. destruct (decide (p_agent_id p = i)) as [Hp|Hp].
  - apply safe_bind. eapply safe_mono; [by apply announce_spec|]. intros [q|e] g' [Hr ->]; [clear Hr|done].
    apply safe_bind. unfold _launch_creation_thread. apply safe_bind. intros s [y|e] _ _ Ha; [|done].
    exists both, nothing. split; [done|]. split; [done|]. split; [|done]. rewrite Hp.
    by apply run_creation_spec.
  - apply nothing_bind; [by apply nothing_apart, announce_other_within|]. intros q. apply nothing_bind; [|done].
    apply nothing_bind; [done|]. intros y. exists nothing, nothing. split; [done|]. split; [done|]. split; [|done].
    apply nothing_apart. by apply run_other_within.
Qed.

Lemma call_owes_nothing c : sane_clock → owes_nothing (thread_of c).
Proof.
  intros Hc. destruct c as [lines|j events|j|j|n j|n| |j|j t|j]; cbn [thread_of].
  - apply nothing_apart, within_each. intros x. apply line_within.
  - apply nothing_apart, session_within.
  - apply nothing_apart, reset_within.
  - apply nothing_apart, remove_within.
  - apply nothing_bind; [|done]. unfold create_worktree_agent. apply nothing_bind; [done|]. intros a.
    apply nothing_bind; [by apply nothing_apart, within_locked; intros r; apply apart_refl|]. intros [[d|] l]; [|done]. cbn [fst snd].
    apply nothing_bind; [unfold _get_current_branch; apply nothing_bind; [done|]; intros x; by destruct (_ =? _)%Z|].
    intros b. cbv zeta. by apply (creation_owes_nothing {| p_agent_id := a |}).
  - apply nothing_bind; [|done]. unfold create_chat_agent. apply nothing_bind; [done|]. intros a.
    apply nothing_bind; [by apply nothing_apart, within_locked; intros r; apply apart_refl|]. intros [[d|] l]; [|done]. cbn [fst snd].
    cbv zeta. by apply (creation_owes_nothing {| p_agent_id := a |}).
  - apply nothing_apart, refresh_within.
  - apply nothing_apart, applications_within; intros; [apply apart_refl|by apply apart_same|by apply send_apart].
  - apply nothing_bind; [|done]. apply nothing_apart, message_within, apart_refl.
  - apply nothing_bind; [|done]. apply nothing_apart, lookup_within, apart_refl.
Qed.

(** C35: a creation always completes: however the command that creates the agent
    ends, and in whichever order the threads of the server run, once they have all
    returned the clients have been told of the end of every creation they were told
    of, exactly as often, and no creation is still listed; besides that command,
    the outside may fail where the code expects it to ([calm]). *)
Theorem creations_complete cs r0 r ts :
  sane_clock → created i r0 = completed i r0 → _proto_agents r0 !! i = None →
  rtc (pstep calm) (r0, map thread_of cs) (r, ts) → finished ts →
  created i r = completed i r ∧ _proto_agents r !! i = None.
Proof.
  intros Hc Hbal Hnone Hrun Hfin.
  assert (balanced calm (λ _, True) (λ _ _, True) (pass i) (λ g, g = nothing) share (account i) (r0, map thread_of cs)) as Hb.
  { apply (balanced_start _ _ _ _ _ _ _ _ _ nothing); [done|done|by apply Forall_map, Forall_true; intros c; apply call_owes_nothing|].
    split; [rewrite Hbal; clear; induction cs; simpl in *; lia|]. rewrite Hnone. by intros []. }
  eapply balanced_run in Hb; [|intros ? ? ? ? ? ? _ _; apply todo_account_pass|intros ? ? ? ? ? ?; apply todo_account_share
    |intros; by apply Forall_true|exact Hrun].
  apply balanced_finished in Hb as (_ & gs & Hp & _ & Ha & He); [|done].
  assert (sum_list (map completions gs) = 0 ∧ sum_list (map entries gs) = 0) as [Hs1 Hs2].
  { clear -Hp. induction Hp as [|g gs -> _ IH]; simpl; lia. }
  split; [lia|]. destruct (_proto_agents r !! i) as [p|]; [|done]. specialize (He ltac:(by eexists)). lia.
Qed.
End creations.
