(* ===== verification/ClientFacts.v ===== *)
(** * What the clients of the server see

    A client of the WebSocket registers, is shown the agents and then gets what
    is broadcast; here it is shown to miss nothing. *)

From Stdlib Require Import NArith ZArith QArith Lia.
From S2P Require Import Prelude PyStr PyJson PyMonad PyKeyed PyBytes PyPath PyThreads ActivityState WsBroadcaster LayoutServer TaskFiles AgentManager AgentServer ManagerFacts.
From stdpp Require Import relations options.
#[global] Open Scope nat_scope.
#[local] Open Scope py_scope.

Section clients.
Context `{PyRepr} `{Mngr} (q : qid).
Abbreviation safe_debt := (safe calm sound fits pass paid share).

Definition shown (v : nat) (A : gmap pystr AgentStateItem) (c : viewer) : viewer :=
  {| v_from := v_from c; v_base := v_base c; v_snap := Some (v, A); v_taken := v_taken c; v_pending := v_pending c; v_got := v_got c |}.
Definition taking (t : pystr) (n : nat) (c : viewer) : viewer :=
  {| v_from := v_from c; v_base := v_base c; v_snap := v_snap c; v_taken := n; v_pending := Some t; v_got := v_got c |}.
Definition got (t : pystr) (c : viewer) : viewer :=
  {| v_from := v_from c; v_base := v_base c; v_snap := v_snap c; v_taken := v_taken c; v_pending := None; v_got := v_got c ++ [t] |}.

Lemma client_pass r r' c c' :
  v_base c' = v_base c → sent r' = sent r → revision r' = revision r → agents_of r' = agents_of r → pass r (Client q c) r' (Client q c').
Proof. intros Hb Hs Hr Ha. split; [cbn [who]; by rewrite Hb|]. split; [exact Hs|]. left. split; [done|]. split; [done|]. by intros []. Qed.
Lemma sound_same r r' :
  sent r' = sent r → revision r' = revision r → agents_of r' = agents_of r → WsBroadcaster.ok (_broadcaster r') → sound r → sound r'.
Proof. intros Hs Hr Ha Hb [Hh _]. split; [|done]. intros v A. unfold current. rewrite Hs, Hr, Ha. apply Hh. Qed.

Lemma client_read {X} (f : registry → X) c Φ :
  (∀ r, sound r → fits r (Client q c) → ∃ c', v_base c' = v_base c ∧ fits r (Client q c') ∧ Φ (Ret (f r)) (Client q c')) →
  safe_debt (Client q c) (read f) Φ.
Proof.
  intros Hf. apply safe_locked. intros r Hr Hc. destruct (Hf r Hr Hc) as (c' & Hb & Hc' & HΦ). exists (Client q c').
  split; [by apply client_pass|]. by split; [exact Hr|].
Qed.

Lemma ws_send_safe t c : v_pending c = None ∨ v_pending c = Some t →
  safe_debt (Client q c) (ws_send q t) (λ r g', r = Ret tt ∧ g' = Client q (got t c)).
Proof.
  intros Hp. apply safe_bind. intros s [[]|e] _ _ Ha; [|done]. apply safe_locked. intros r Hr [Hf Hi].
  exists (Client q (got t c)). split; [by apply client_pass|]. split; [by apply (sound_same r); [..|apply Hr|]|]. split; [|done]. split.
  - destruct Hf as [Hbig|(H1 & H2 & H3 & H4)]; [by left|right]. split; [done|]. split; [done|]. split; [done|].
    intros m Hm. left. cbn [v_got got]. apply elem_of_app. destruct (H4 m Hm) as [?|Hpm]; [by left|right].
    destruct Hp as [Hp|Hp]; rewrite Hp in Hpm; simplify_eq. by apply list_elem_of_singleton.
  - destruct Hi as (Hi1 & Hi2 & Hi3 & Hi4). split; [done|]. split; [done|]. split; [done|].
    cbn [v_got got]. intros t'. rewrite elem_of_app, list_elem_of_singleton. simpl. rewrite elem_of_app, list_elem_of_singleton.
    intros [Ht| ->]; [left; by apply Hi4|by right].
Qed.

Lemma ws_send_next {R : Type} t (k : P R) c Φ :
  v_pending c = None ∨ v_pending c = Some t → safe_debt (Client q (got t c)) k Φ → safe_debt (Client q c) (ws_send q t ;; k) Φ.
Proof. intros Hp Hk. apply safe_bind. eapply safe_mono; [by apply ws_send_safe|]. by intros r g' [-> ->]. Qed.

(** The client has been shown the agents and has nothing in flight. *)
Definition welcomed (c : viewer) : Prop := paid (Client q c).
Lemma welcomed_got t c : (v_pending c = None ∨ v_pending c = Some t) →
  (∃ v A, v_snap c = Some (v, A) ∧ (text_of (AgentsUpdated v A) ∈ v_got c ∨ text_of (AgentsUpdated v A) = t)) → welcomed (got t c).
Proof.
  intros _ (v & A & Hs & Ht). split; [done|]. exists v, A. split; [done|]. cbn [v_got got]. apply elem_of_app.
  destruct Ht as [Ht|<-]; [by left|right; by apply list_elem_of_singleton].
Qed.

Lemma ws_get_safe c Φ :
  welcomed c →
  (∀ c', welcomed c' → Φ (Ret None) (Client q c')) →
  Φ (Ret (Some None)) (Client q c) →
  (∀ t n, Φ (Ret (Some (Some t))) (Client q (taking t n c))) →
  safe_debt (Client q c) (locked (ws_get q)) Φ.
Proof.
  intros Hw HNone Hend Hsome. apply safe_locked. intros r Hr [Hf Hi]. pose proof Hr as [_ Hok].
  assert (WsBroadcaster.ok (do_step (_broadcaster r) (Get q))) as Hok' by (by apply ok_step).
  assert (sound (ws_get q r).2) as Hr' by (by apply (sound_same r)).
  assert (∀ c', v_base c' = v_base c → pass r (Client q c) (ws_get q r).2 (Client q c')) as Hp by (intros c' ?; by apply client_pass).
  destruct Hf as [Hbig|(H1 & H2 & H3 & H4)].
  - assert (∀ t n, fits (ws_get q r).2 (Client q (taking t n c))) as Hft by (intros t n; split; [by left|exact Hi]).
    assert (fits (ws_get q r).2 (Client q c)) as Hfc by (split; [by left|exact Hi]).
    cbn [ws_get fst]. destruct (head (items (_broadcaster r) q)) as [[t|]|].
    + exists (Client q (taking t (v_taken c) c)). auto.
    + exists (Client q c). auto.
    + exists (Client q c). auto.
  - assert (q < fresh_queue (_broadcaster r)) as Hq by (by apply ok_known in H1).
    assert (_client_queues (do_step (_broadcaster r) (Get q)) = _client_queues (_broadcaster r)) as Hcl.
    { simpl. by rewrite (proj2 (Nat.ltb_lt _ _)) by done. }
    assert (items (do_step (_broadcaster r) (Get q)) q = tail (items (_broadcaster r) q)) as Hit.
    { simpl. rewrite (proj2 (Nat.ltb_lt _ _)) by done. by rewrite items_with_queue, decide_True. }
    cbn [ws_get fst]. rewrite H3. destruct (drop (v_from c + v_taken c) (sent r)) as [|m l] eqn:Ed; cbn [map head].
    + exists (Client q c). split; [by apply Hp|]. split; [done|]. split; [|by apply HNone]. split; [|exact Hi]. right.
      cbn [ws_get snd with_broadcaster with_sent _broadcaster sent]. rewrite Hcl, Hit, H3, Ed. done.
    + exists (Client q (taking (text_of m) (S (v_taken c)) c)). split; [by apply Hp|]. split; [done|]. split; [|apply Hsome].
      split; [|exact Hi]. right. cbn [ws_get snd with_broadcaster with_sent _broadcaster sent taking v_from v_taken v_got v_pending].
      rewrite Hcl, Hit, H3. cbn [map tail].
      assert (drop (v_from c + S (v_taken c)) (sent r) = l) as Hl.
      { replace (v_from c + S (v_taken c)) with ((v_from c + v_taken c) + 1) by lia. by rewrite <- drop_drop, Ed. }
      assert (length (drop (v_from c + v_taken c) (sent r)) = S (length l)) as Hlen by (by rewrite Ed).
      rewrite length_drop in Hlen. split; [done|]. split; [lia|]. split; [by rewrite Hl|].
      assert (drop (v_from c) (sent r) !! v_taken c = Some m) as Hm.
      { rewrite lookup_drop. rewrite <- (Nat.add_0_r (v_from c + v_taken c)), <- lookup_drop, Ed. done. }
      intros m'. rewrite (take_S_r _ _ m Hm), elem_of_app, list_elem_of_singleton. intros [Hin| ->]; [|by right].
      destruct (H4 m' Hin) as [?|Hpm]; [by left|]. destruct Hw as [Hw _]. by rewrite Hw in Hpm.
Qed.

Lemma ws_loop_safe turns : ∀ c, welcomed c → safe_debt (Client q c) (ws_loop turns q) (λ _, paid).
Proof.
  induction turns as [|turns IH]; intros c Hw; [exact Hw|]. cbn [ws_loop]. apply safe_bind, ws_get_safe; [done|by intros c' ?; apply IH|exact Hw|].
  intros t n. apply ws_send_next; [by right|]. apply IH. apply welcomed_got; [by right|].
  destruct Hw as (_ & v & A & Hs & Ht). exists v, A. auto.
Qed.

Lemma ws_each_safe {X} (l : list X) (text : X → pystr) : ∀ c, welcomed c →
  safe_debt (Client q c) (each l (λ x, ws_send q (text x))) (λ r g', r = Ret tt ∧ ∃ c', g' = Client q c' ∧ welcomed c').
Proof.
  induction l as [|x l IH]; intros c Hw; [by split; [|exists c]|]. cbn [each]. apply ws_send_next; [left; apply Hw|].
  apply IH, welcomed_got; [left; apply Hw|]. destruct Hw as (_ & v & A & Hs & Ht). exists v, A. auto.
Qed.

Lemma ws_serve_safe turns c : v_pending c = None → v_snap c = None → safe_debt (Client q c) (ws_serve turns q) (λ _, paid).
Proof.
  intros Hp Hs. unfold ws_serve, ws_welcome. apply safe_bind. apply safe_bind, client_read. intros r Hr [Hf Hi].
  exists (shown (revision r) (agents_of r) c). split; [done|]. split.
  { split; [exact Hf|]. destruct Hi as (H1 & H2 & H3 & H4). by split; [|split; [|split; [split|]]]. }
  cbn [fst snd]. apply ws_send_next; [by left|].
  set (c1 := got _ _). assert (welcomed c1) as Hw.
  { apply welcomed_got; [by left|]. exists (revision r), (agents_of r). split; [done|]. by right. }
  apply safe_bind, client_read. intros r2 _ Hf2. exists c1. split; [done|]. split; [done|]. apply ws_send_next; [by left|].
  set (c2 := got _ c1). assert (welcomed c2) as Hw2 by (apply welcomed_got; [by left|]; destruct Hw as (_ & v & A & ? & ?); exists v, A; auto).
  apply safe_bind, client_read. intros r3 _ Hf3. exists c2. split; [done|]. split; [done|].
  eapply safe_mono; [by apply ws_each_safe|]. intros x g' (-> & c' & -> & Hw'). by apply ws_loop_safe.
Qed.

(** Registering, at the end of a pool that has run so far. *)
Definition joins (r : registry) : viewer :=
  {| v_from := length (sent r); v_base := revision r; v_snap := None; v_taken := 0; v_pending := None; v_got := [] |}.
Lemma joins_fits r : sound r → q = fresh_queue (_broadcaster r) → fits (with_broadcaster register r) (Client q (joins r)).
Proof.
  intros [Hh _] ->. split.
  - right. simpl. split; [apply elem_of_app; right; by apply list_elem_of_singleton|]. split; [lia|].
    rewrite Nat.add_0_r, drop_all. split; [|by intros m ?%elem_of_nil]. unfold items. simpl. by rewrite lookup_insert_eq.
  - split; [|split; [done|split; [done|by intros t ?%elem_of_nil]]]. split; [done|]. simpl. rewrite firstn_all. intros v A Hin. by apply (Hh v A).
Qed.
Lemma joins_balanced turns v0 r ts : sound r → q = fresh_queue (_broadcaster r) →
  balanced calm sound fits pass paid share (account [] v0) (r, ts) →
  balanced calm sound fits pass paid share (account [(q, revision r)] v0) (with_broadcaster register r, ts ++ [ws_serve turns q]).
Proof.
  intros Hr Hq (_ & gs & Hsafe & Hfit & Hcl & Hv & Ha). simpl in Hsafe, Hfit.
  split; [by apply (sound_same r); [..|apply (ok_step _ Register), Hr|]|].
  exists (gs ++ [Client q (joins r)]). split; [|split].
  - apply Forall2_app; [done|]. constructor; [by apply ws_serve_safe|done].
  - apply Forall_app. split; [|constructor; [by apply joins_fits|done]]. apply no_client in Hcl.
    clear -Hfit Hcl. induction Hfit as [|g gs Hg _ IH]; [done|]. apply Forall_cons in Hcl as [Hn Hnc]. constructor; [|by apply IH].
    by destruct g.
  - split; [by rewrite omap_app, Hcl|]. split; [done|].
    destruct Ha as [Ha|[Ha|(g & Hg & Hc)]]; [by left|by right; left|right; right]. exists g. split; [set_solver|done].
Qed.
End clients.

Section client.
Context `{PyRepr} `{Mngr}.

Lemma client_caught_up r q c :
  follows r q c → informed r q c → paid (Client q c) → items (_broadcaster r) q = [] → length (sent r) < _CLIENT_QUEUE_MAX_SIZE →
  honest r → (revision r = v_base c ∨ AgentsUpdated (revision r) (agents_of r) ∈ sent r) →
  (q, text_of (AgentsUpdated (revision r) (agents_of r))) ∈ delivered r.
Proof.
  intros [Hbig|(_ & Hn & Hi & Hgot)] ((Hf1 & Hf2) & Hb & Hsnap & Hd) (Hp & v & A & Hs & Ht) Hempty Hsmall Hh Htold; [lia|].
  rewrite Hs in Hsnap. destruct Hsnap as [Hbv [Hv HA]].
  assert (revision r <= v_base c → (q, text_of (AgentsUpdated (revision r) (agents_of r))) ∈ delivered r) as Hold.
  { intros Hle. assert (v = revision r) as -> by lia. rewrite <- HA by done. by apply Hd. }
  destruct Htold as [Hr|Hin]; [apply Hold; lia|].
  rewrite <- (take_drop (v_from c) (sent r)), elem_of_app in Hin. destruct Hin as [Hin|Hin]; [by apply Hold, (Hf2 _ _ Hin)|].
  rewrite Hi in Hempty. apply map_eq_nil in Hempty.
  assert (length (sent r) <= v_from c + v_taken c) as Hall by (apply (f_equal length) in Hempty; rewrite length_drop in Hempty; simpl in Hempty; lia).
  apply Hd. destruct (Hgot (AgentsUpdated (revision r) (agents_of r))) as [?|Hpe]; [|done|by rewrite Hp in Hpe].
  rewrite take_ge; [done|]. rewrite length_drop. lia.
Qed.

(** C2: a client of the WebSocket misses nothing: it may join at any moment,
    while the threads of the server are at work; when they have all returned and
    the client has emptied its queue, it has been sent the agents as they are, on
    joining or later.  The threads get [calm] answers from outside, and fewer
    messages are sent than the client's queue holds. *)
Theorem client_up_to_date cs r0 r1 ts1 turns r ts :
  sane_clock → sound r0 → rtc (pstep calm) (r0, map thread_of cs) (r1, ts1) →
  let q := fresh_queue (_broadcaster r1) in
  rtc (pstep calm) (with_broadcaster register r1, ts1 ++ [ws_serve turns q]) (r, ts) → finished ts →
  items (_broadcaster r) q = [] → length (sent r) < _CLIENT_QUEUE_MAX_SIZE →
  (q, text_of (AgentsUpdated (revision r) (agents_of r))) ∈ delivered r.
Proof.
  intros Hc Hr0 Hrun1 q Hrun2 Hfin Hempty Hsmall.
  pose proof (run_balanced [] _ _ _ ltac:(simpl; lia) Hrun1 (calls_balanced cs r0 Hc Hr0)) as Hb1.
  pose proof Hb1 as (Hr1 & gs1 & _ & _ & _ & Hv0 & _). simpl in Hr1, Hv0.
  apply (joins_balanced q turns) in Hb1; [|done|done].
  eapply run_balanced in Hb1; [|simpl; lia|exact Hrun2].
  apply balanced_finished in Hb1 as ([Hh Hok] & gs & Hp & Hf & Ha); [|done]. pose proof Ha as (Hids & Hv & _).
  assert ((q, revision r1) ∈ omap who gs) as (g & Hg & Hw)%list_elem_of_omap by (rewrite Hids; by apply list_elem_of_singleton).
  destruct g as [| | |q' c]; try done. injection Hw as -> Hbase.
  pose proof (proj1 (Forall_forall _ _) Hf _ Hg) as [Hfo Hin]. pose proof (proj1 (Forall_forall _ _) Hp _ Hg) as Hpaid.
  eapply client_caught_up; try done. apply account_settled in Ha as [Ha|Ha]; [left|by right|done|done].
  destruct Hin as (_ & Hle & _). lia.
Qed.
End client.
