(* ===== verification/EndpointFacts.v ===== *)
(** * What the endpoints for agents do

    Each endpoint on its own, on every branch: destroying, interrupting and
    messaging an agent. *)

From Stdlib Require Import NArith ZArith QArith Lia.
From S2P Require Import Prelude PyStr PyJson PyMonad PyKeyed PyBytes PyPath PyThreads ActivityState WsBroadcaster LayoutServer TaskFiles AgentManager AgentServer ManagerFacts.
From stdpp Require Import options.
#[global] Open Scope nat_scope.
#[local] Open Scope py_scope.

(** The structure of a thread that asks nothing it may not ask. *)
Ltac asking_go :=
  lazymatch goal with
  | |- asking _ (mret _) => exact I
  | |- asking _ (Done _) => exact I
  | |- asking _ (locked _) => intros ?; exact I
  | |- asking _ (AgentManager.ask _) => split; [exact I|intros ?; exact I]
  | |- asking _ (_ ≫= _) => apply asking_bind; [asking_go|intros ?; asking_go]
  | |- asking _ (after _ _) => apply asking_after; [asking_go|intros ?; asking_go]
  | |- asking _ (catching _ _) => apply asking_after; [asking_go|intros [?|?]; [exact I|asking_go]]
  | |- asking _ (default _ (if ?b then _ else _)) => destruct b; unfold default, Datatypes.id; asking_go
  | |- asking _ (whenp ?b _) => destruct b; cbn [whenp]; [asking_go|exact I]
  | |- asking _ (if ?b then _ else _) => destruct b; asking_go
  | |- asking _ (let _ := _ in _) => cbv zeta; asking_go
  | |- asking _ (match ?x with _ => _ end) => destruct x; asking_go
  end.

Section endpoints.
Context `{PyRepr} `{Mngr} `{Pydantic} (o : registry → ∀ q, outcome (answer q)).

(** The commands among what is asked. *)
Definition commands (l : list question) : list (list pystr) := omap (λ q, match q with Command argv _ => Some argv | _ => None end) l.
Lemma commands_app l l' : commands (l ++ l') = commands l ++ commands l'.
Proof. apply omap_app. Qed.

Definition no_command (q : question) : Prop := match q with Command _ _ => False | _ => True end.
Lemma commands_none {R : Type} (p : P R) r : asking no_command p → commands (asked o p r) = [].
Proof.
  intros Hp. apply (asking_asked o _ _) with (s := r) in Hp. induction Hp as [|q l Hq _ IH]; [done|]. by destruct q.
Qed.
Lemma remove_agent_asks i : asking no_command (remove_agent i).
Proof.
  unfold remove_agent, pop_agent, drop_agent, _stop_app_watcher, _stop_activity_tracking, broadcast_agents, broadcast_message, update, read. asking_go.
Qed.
Lemma alone_read {X} (f : registry → X) r : alone o (read f) r = (Ret (f r), r).
Proof. done. Qed.
Lemma alone_update f r : alone o (update f) r = (Ret tt, f r).
Proof. done. Qed.

(** ** Destroying *)

(** [r'] is [r] without the agent, and the clients have been told last. *)
Record without (i : pystr) (r r' : registry) : Prop := {
  without_agents : agents_of r' = delete i (agents_of r);
  without_match : _match_by_agent_id r' = delete i (_match_by_agent_id r);
  without_observer : _app_observers r' = delete i (_app_observers r);
  without_activity : i ∉ _activity_tracked_agents (core r') ∧ _activity_state_by_agent (core r') !! i = None;
  without_told : sent r' = sent r ++ [AgentsUpdated (revision r') (agents_of r')] }.

Lemma remove_agent_spec i r : (∀ r' x, o r' (StopObserver x) = Ret tt) →
  ∃ r', alone o (remove_agent i) r = (Ret tt, r') ∧ without i r r'.
Proof.
  intros Hs. unfold remove_agent, pop_agent, drop_agent, _stop_app_watcher, _stop_activity_tracking, broadcast_agents, broadcast_message.
  rewrite alone_bind, alone_update, alone_bind, alone_bind, alone_bind, alone_locked.
  set (r1 := with_matches _ _). cbn [pop_observer fst snd].
  assert (alone o (match _app_observers r1 !! i with Some x => AgentManager.ask (StopObserver x) | None => mret tt end)
    (with_observers (delete i (_app_observers r1)) r1) = (Ret tt, with_observers (delete i (_app_observers r1)) r1)) as ->.
  { destruct (_app_observers r1 !! i) as [x|]; [|done]. unfold AgentManager.ask, PyThreads.ask. cbn [alone]. by rewrite Hs. }
  rewrite alone_update, alone_bind, alone_read, alone_update. eexists. split; [done|].
  split; [done|done|done| |done]. split; [|by apply lookup_delete_eq]. cbn. set_solver.
Qed.

(** Destroying an agent, on every branch: an unknown agent is 404 and the
    primary agent is refused with 400, with no command run and nothing changed; a
    failing [mngr destroy] is 500 and changes nothing; otherwise the agent is gone
    from every table of the manager and the clients have been told. *)
Theorem destroy_outcomes i r : (∀ r' x, o r' (StopObserver x) = Ret tt) →
  match agents_of r !! i with
  | None => alone o (_destroy_agent i) r = (Ret (_agent_not_found_response i), r) ∧ commands (asked o (_destroy_agent i) r) = []
  | Some a =>
      let argv := _build_destroy_command (ActivityState.name a) in
      if is_primary (labels a) then
        alone o (_destroy_agent i) r = (Ret (refusal "destroy" (ActivityState.name a)), r) ∧ commands (asked o (_destroy_agent i) r) = []
      else
        commands (asked o (_destroy_agent i) r) = [argv] ∧
        match o r (Command argv (Some 30%Q)) with
        | Raise e => alone o (_destroy_agent i) r = (Raise e, r)
        | Ret result =>
            if (returncode result =? 0)%Z then ∃ r', alone o (_destroy_agent i) r = (Ret ok_response, r') ∧ without i r r'
            else alone o (_destroy_agent i) r = (Ret (failure "destroy" (ActivityState.name a) result), r)
        end
  end.
Proof.
  intros Hs. unfold _destroy_agent, get_agent_by_id. rewrite alone_bind, asked_bind, alone_read, commands_app. cbn [asked app].
  destruct (agents_of r !! i) as [a|]; [|done]. cbv zeta. destruct (is_primary (labels a)); [done|].
  rewrite alone_bind, asked_bind, commands_app. unfold AgentManager.ask, PyThreads.ask. cbn [alone asked].
  destruct (o r _) as [result|e]; [|done]. destruct (_ =? _)%Z; [|done].
  destruct (remove_agent_spec i r Hs) as (r' & E & Hw). rewrite alone_bind, asked_bind, commands_app, E, (commands_none (remove_agent i)) by apply remove_agent_asks.
  split; [done|by exists r'].
Qed.

(** ** Interrupting *)

(** The clients have been told of what changed, if anything did. *)
Definition told_since (r r' : registry) : Prop :=
  (agents_of r' = agents_of r ∧ sent r' = sent r) ∨ sent r' = sent r ++ [AgentsUpdated (revision r') (agents_of r')].

Lemma reset_spec i (p : option Q) r : (∀ r', alone o (_read_process_started_at i) r' = (Ret p, r')) →
  ∃ r', alone o (reset_activity_state i) r = (Ret tt, r') ∧ told_since r r' ∧
    agents_of r' = if i ∈? _activity_tracked_agents (core r) then alter (with_activity IDLE) i (agents_of r) else agents_of r.
Proof.
  intros Hp. unfold reset_activity_state. rewrite alone_bind, alone_locked. unfold reset_section.
  destruct (i ∈? _activity_tracked_agents (core r)) eqn:Ht; cbn [negb]; [|by exists r; split; [|split; [left|]]].
  cbn [whenp]. unfold _recompute_activity_state. rewrite alone_bind, Hp, alone_bind, alone_locked. unfold recompute_section.
  cbn [core with_core set_signals _activity_tracked_agents agents_of]. rewrite Ht. cbn [negb].
  change (agents_of (with_core false _ r)) with (agents_of r). destruct (agents_of r !! i) as [a|] eqn:Ha.
  2:{ eexists. split; [done|]. split; [by left|]. change (agents_of r = alter (with_activity IDLE) i (agents_of r)). rewrite alter_id; [done|]. by rewrite Ha. }
  assert (cached_state epoch i p a (set_signals i false JNull None (core r)) = Ret IDLE) as ->.
  { unfold cached_state. simpl. rewrite !lookup_insert_eq. simpl. unfold mbind, outcome_bind.
    f_equal. unfold derive_activity_state. simpl. by destruct (negb _). }
  destruct (_ && _) eqn:Hsame.
  - eexists. split; [done|]. split; [by left|]. apply andb_true_iff in Hsame as [_ Hsame%bool_decide_eq_true].
    change (agents_of r = alter (with_activity IDLE) i (agents_of r)). symmetry. apply alter_id.
    intros b. rewrite Ha. intros [= <-]. destruct a. unfold with_activity. simpl in *. by rewrite Hsame.
  - eexists. split; [done|]. split; [by right|].
    change (<[i := with_activity IDLE a]> (agents_of r) = alter (with_activity IDLE) i (agents_of r)).
    apply map_eq. intros j. destruct (decide (i = j)) as [<-|Hj]; [by rewrite lookup_insert_eq, lookup_alter_eq, Ha|by rewrite lookup_insert_ne, lookup_alter_ne].
Qed.

Lemma lookup_spec i r :
  (alone o (get_agent_info_by_id i) r).2 = r ∧
  match agents_of r !! i with
  | None => alone o (get_agent_info_by_id i) r = (Ret None, r)
  | Some a => ∀ x, (alone o (get_agent_info_by_id i) r).1 = Ret x →
      ∃ info, x = Some info ∧ i_id info = ActivityState.id a ∧ i_name info = ActivityState.name a ∧ i_labels info = labels a
  end.
Proof.
  split; [symmetry; apply (within_alone o eq); [apply _|by apply lookup_within]|].
  unfold get_agent_info_by_id, get_agent_by_id. rewrite alone_bind, alone_read.
  destruct (agents_of r !! i) as [a|]; [|done]. cbv zeta. intros x. rewrite alone_bind.
  destruct (alone o (read_claude_config_dir_from_env_file _) r) as [[d|e] r']; [|done]. intros [= <-]. by eexists.
Qed.
Lemma lookup_asks i : asking no_command (get_agent_info_by_id i).
Proof.
  unfold get_agent_info_by_id, get_agent_by_id, read_claude_config_dir_from_env_file, _read_claude_config_dir_from_env, read.
  asking_go.
Qed.
Lemma reset_asks i : asking no_command (reset_activity_state i).
Proof.
  unfold reset_activity_state, _recompute_activity_state, _read_process_started_at, broadcast_agents, broadcast_message, update, read. asking_go.
Qed.

(** Interrupting an agent, on every branch: an unknown agent is 404 and the
    primary agent is refused, with no command run; otherwise one
    [mngr start --restart] is run, and when it succeeds a tracked agent is IDLE,
    no other agent has changed and the clients have been told. *)
Theorem interrupt_outcomes i (p : option Q) r : (∀ r', alone o (_read_process_started_at i) r' = (Ret p, r')) →
  let x := alone o (_interrupt_agent_endpoint i) r in
  let ran := commands (asked o (_interrupt_agent_endpoint i) r) in
  match (alone o (get_agent_info_by_id i) r).1, agents_of r !! i with
  | Raise e, _ => x = (Raise e, r) ∧ ran = []
  | Ret _, None => x = (Ret (_agent_not_found_response i), r) ∧ ran = []
  | Ret _, Some a =>
      let argv := interrupt_argv (ActivityState.name a) in
      if is_primary (labels a) then x = (Ret (refusal "interrupt" (ActivityState.name a)), r) ∧ ran = []
      else
        ran = [argv] ∧
        match o r (Command argv (Some 60%Q)) with
        | Raise e => x = (Raise e, r)
        | Ret result =>
            if (returncode result =? 0)%Z then
              ∃ r', x = (Ret ok_response, r') ∧ told_since r r' ∧
                agents_of r' = if i ∈? _activity_tracked_agents (core r) then alter (with_activity IDLE) i (agents_of r) else agents_of r
            else x = (Ret (failure "interrupt" (ActivityState.name a) result), r)
        end
  end.
Proof.
  intros Hp. cbv zeta. destruct (lookup_spec i r) as [Hr Hl]. unfold _interrupt_agent_endpoint, _find_agent.
  rewrite alone_bind, asked_bind, commands_app, (commands_none (get_agent_info_by_id i)) by apply lookup_asks.
  destruct (alone o (get_agent_info_by_id i) r) as [[y|e] r1]; cbn [fst snd] in *; subst r1; [|done].
  destruct (agents_of r !! i) as [a|]; [|by injection Hl as ->].
  destruct (Hl y eq_refl) as (info & -> & _ & -> & ->). destruct (is_primary (labels a)); [done|].
  rewrite alone_bind, asked_bind, commands_app. unfold AgentManager.ask, PyThreads.ask. cbn [alone asked].
  destruct (o r _) as [result|e]; [|done]. destruct (_ =? _)%Z; [|done].
  destruct (reset_spec i p r Hp) as (r' & E & Hw). rewrite alone_bind, asked_bind, commands_app, E, (commands_none (reset_activity_state i)) by apply reset_asks.
  split; [done|by exists r'].
Qed.

(** ** Messaging *)

Definition reaches (r : registry) (q : question) : bool :=
  match q with SendTo l t => match o r (SendTo l t) with Ret (_ :: _) => true | _ => false end | _ => false end.
Definition known_locations (i : pystr) (r : registry) : list AgentMatch := option_list (_match_by_agent_id r !! i).

(** What was asked for a message whose agent is known at [known]. *)
Record messaged (i text : pystr) (known : list AgentMatch) (r : registry) (x : outcome bool) (asks : list question) : Prop := {
  messaged_once : length (List.filter (reaches r) asks) <= 1;
  messaged_result : ∀ b, x = Ret b → b = existsb (reaches r) asks;
  messaged_as_is : ∀ l t, SendTo l t ∈ asks → t = text ∧ (l = known ∨ o r (FindLocations i) = Ret l);
  messaged_found : FindLocations i ∈ asks → known = [] ∨ reaches r (SendTo known text) = false }.
Lemma none_reached r asks : existsb (reaches r) asks = false → List.filter (reaches r) asks = [].
Proof. induction asks as [|q asks IH]; [done|]. cbn [existsb List.filter]. by destruct (reaches r q). Qed.
(** Nothing has reached the agent before [asks'], which asks for its locations first. *)
Lemma messaged_later i text known r x asks asks' :
  existsb (reaches r) asks = false → (∀ l t, SendTo l t ∈ asks → t = text ∧ l = known) →
  known = [] ∨ reaches r (SendTo known text) = false →
  length (List.filter (reaches r) asks') <= 1 → (∀ b, x = Ret b → b = existsb (reaches r) asks') →
  (∀ l t, SendTo l t ∈ asks' → t = text ∧ o r (FindLocations i) = Ret l) →
  messaged i text known r x (asks ++ asks').
Proof.
  intros Hn Hs Hk Hc Hx Hl. split; [| | |done].
  - by rewrite List.filter_app, none_reached.
  - intros b Hb. rewrite existsb_app, Hn. by apply Hx.
  - intros l t [Hin|Hin]%elem_of_app; [destruct (Hs l t Hin)|destruct (Hl l t Hin)]; auto.
Qed.
(** What is left when the known location did not do. *)
Definition search (i text : pystr) : P bool :=
  matches ← AgentManager.ask (FindLocations i); reached ← AgentManager.ask (SendTo matches text);
  mret (match reached with [] => false | _ => true end).
Lemma search_messaged i text known r asks :
  existsb (reaches r) asks = false → (∀ l t, SendTo l t ∈ asks → t = text ∧ l = known) →
  known = [] ∨ reaches r (SendTo known text) = false →
  messaged i text known r (alone o (search i text) r).1 (asks ++ asked o (search i text) r).
Proof.
  intros Hn Hs Hk. unfold search, AgentManager.ask, PyThreads.ask. rewrite alone_bind, asked_bind. cbn [alone asked app].
  destruct (o r (FindLocations i)) as [l|e] eqn:El; cbn [fst].
  2:{ apply messaged_later; simpl; try done; [lia|]. by intros l t [?|?%elem_of_nil]%elem_of_cons. }
  rewrite alone_bind, asked_bind. cbn [alone asked app].
  apply messaged_later; [done|done|done| | |].
  - cbn [List.filter reaches]. destruct (o r (SendTo l text)) as [[|a m]|]; simpl; lia.
  - intros b. cbn [existsb reaches]. destruct (o r (SendTo l text)) as [[|a m]|]; by intros [= <-].
  - intros l' t. destruct (o r (SendTo l text)); cbn [asked app];
      by intros [?|[[= -> ->]|?%elem_of_nil]%elem_of_cons]%elem_of_cons.
Qed.
Lemma send_messaged i text known r :
  messaged i text known r (alone o (_send_message_to_agent i text known) r).1 (asked o (_send_message_to_agent i text known) r).
Proof.
  unfold _send_message_to_agent. fold (search i text). rewrite alone_bind, asked_bind. destruct known as [|m known].
  { apply (search_messaged i text [] r []); [done|by intros l t ?%elem_of_nil|by left]. }
  unfold AgentManager.ask, PyThreads.ask. cbn [alone asked].
  destruct (o r (SendTo (m :: known) text)) as [[|a reached]|e] eqn:E.
  - apply (search_messaged i text (m :: known) r [SendTo (m :: known) text]); [by simpl; rewrite E| |right; by simpl; rewrite E].
    by intros l t [[= -> ->]|?%elem_of_nil]%elem_of_cons.
  - split; simpl; rewrite ?E; [simpl; lia|by intros b [= <-]| |].
    + intros l t [[= -> ->]|?%elem_of_nil]%elem_of_cons; [auto|done].
    + by intros [?|?%elem_of_nil]%elem_of_cons.
  - split; simpl; rewrite ?E; [simpl; lia|done| |].
    + intros l t [[= -> ->]|?%elem_of_nil]%elem_of_cons; [auto|done].
    + by intros [?|?%elem_of_nil]%elem_of_cons.
Qed.

Definition idle (q : question) : Prop := match q with SendTo _ _ | FindLocations _ => False | _ => True end.
Lemma idle_unreached r l : Forall idle l → existsb (reaches r) l = false.
Proof. by induction 1 as [|[] l]. Qed.
Lemma messaged_wrap i text known r x x' pre asks post :
  messaged i text known r x asks → Forall idle pre → Forall idle post → (x' = x ∨ ∃ e, x' = Raise e) →
  messaged i text known r x' (pre ++ asks ++ post).
Proof.
  intros [M1 M2 M3 M4] Hpre Hpost Hx. pose proof (idle_unreached r pre Hpre) as Np. pose proof (idle_unreached r post Hpost) as Nq.
  rewrite Forall_forall in Hpre, Hpost. split.
  - rewrite !List.filter_app, (none_reached r pre), (none_reached r post), app_nil_r by done. exact M1.
  - intros b. destruct Hx as [->|[e ->]]; [|done]. intros Hb. rewrite !existsb_app, Np, Nq, orb_false_r. by apply M2.
  - intros l t. rewrite !elem_of_app. intros [Hin|[Hin|Hin]]; [by apply Hpre in Hin|by apply M3|by apply Hpost in Hin].
  - rewrite !elem_of_app. intros [Hin|[Hin|Hin]]; [by apply Hpre in Hin|by apply M4|by apply Hpost in Hin].
Qed.
Lemma context_spec r :
  (alone o _get_mngr_context r = (Ret tt, r) ∨ ∃ e, alone o _get_mngr_context r = (Raise e, r)) ∧ Forall idle (asked o _get_mngr_context r).
Proof.
  unfold _get_mngr_context, AgentManager.ask, PyThreads.ask. cbn [after alone asked]. destruct (o r MngrContext) as [[]|e].
  - split; [by left|by repeat constructor].
  - cbn. split; [|by destruct (o r CloseGroups); repeat constructor]. right. by destruct (o r CloseGroups) as [?|?]; eexists.
Qed.

(** C16: a message reaches its agent at most once: it is sent as it is, to the
    location the stream of events told or else to those that discovery finds;
    discovery is asked only when the known location did not do; and what is
    returned tells whether the message has reached the agent. *)
Theorem message_reaches_once i text r :
  let p := send_message_to_agent i text in
  (alone o p r).2 = r ∧ messaged i text (known_locations i r) r (alone o p r).1 (asked o p r).
Proof.
  cbv zeta. split; [symmetry; apply (within_alone o eq); [apply _|by apply message_within]|].
  unfold send_message_to_agent, get_agent_matches_by_id. rewrite alone_bind, asked_bind, alone_read. cbn [asked read app].
  change (match _match_by_agent_id r !! i with Some m => [m] | None => [] end) with (known_locations i r).
  unfold send_message, in_context. rewrite alone_bind, asked_bind. cbn [asked read locked app].
  destruct (context_spec r) as [[->|[e ->]] Hidle]; cbn [fst].
  2:{ rewrite app_nil_r. rewrite <- (app_nil_r (asked o _ r)). apply (messaged_wrap _ _ _ _ (Raise e) _ _ [] []); auto. split; [simpl; lia|done| |].
      - by intros l t ?%elem_of_nil.
      - by intros ?%elem_of_nil. }
  rewrite alone_after, asked_after. set (send := _send_message_to_agent _ _ _).
  assert ((alone o send r).2 = r) as -> by (symmetry; apply (within_alone o eq); [apply _|]; unfold send, _send_message_to_agent; within_go ltac:(done)).
  unfold AgentManager.ask, PyThreads.ask. cbn [alone asked after mbind prog_bind].
  eapply messaged_wrap; [by apply send_messaged|done| |].
  - destruct (o r CloseGroups); by repeat constructor.
  - destruct (o r CloseGroups) as [?|e]; [by left|right; by exists e].
Qed.
End endpoints.
