(* ===== verification/ManagerDemo.v ===== *)
(** * A server with its threads at work

    A concrete world for the agent manager, schedules of its threads that show
    the theorems of [ManagerFacts] and [CreationFacts] at work, and what the
    manager does when the world is not as they expect. *)

From Stdlib Require Import NArith ZArith QArith Lia.
From S2P Require Import Prelude PyStr PyJson PyMonad PyKeyed PyBytes PyPath PyThreads ActivityState WsBroadcaster LayoutServer TaskFiles AgentManager AgentServer ManagerFacts CreationFacts ClientFacts EndpointFacts.
From stdpp Require Import relations options.
#[global] Open Scope nat_scope.
#[local] Open Scope py_scope.

Module ManagerDemo.
#[local] Instance repr : PyRepr := {| str_repr s := s; float_repr _ := u "0.0" |}.
Definition agent (i : pystr) : DiscoveredAgent :=
  {| host_id := u "h"; agent_id := i; agent_name := i; provider_name := u "local"; d_labels := []; d_work_dir := Some (path_of "/w") |}.
(** A line of mngr observe is [+a] for a discovered agent, [-a] for a destroyed one. *)
Definition parse_line (s : pystr) : outcome (option discovery_event) :=
  match s with
  | 43%N :: i => Ret (Some (AgentDiscoveryEvent (agent i)))
  | 45%N :: i => Ret (Some (AgentDestroyedEvent i))
  | _ => Ret (Some OtherEvent)
  end.
Definition bad_toml : dict := [(u "applications", JList [JStr "web"])].
#[local] Instance mngr : Mngr :=
  {| _own_agent_id := u "me"; _own_work_dir := u "/w"; _mngr_binary := u "mngr"; _host_dir := path_of "/host";
     user_home := path_of "/home"; mngr_host_dir := []; parse_discovery_event_line := parse_line;
     parse_env_file _ := []; is_ConcurrencyGroupError _ := false; is_MngrError _ := false; is_RuntimeError _ := false;
     toml_loads t := if t =? u "bad" then Ret bad_toml else Raise (ValueError []);
     epoch _ := Raise (ValueError []) |}.

Lemma clock : sane_clock.
Proof. intros s e [= <-]. by eexists. Qed.

Definition r0 : registry := build new_broadcaster.
(** The disk of an agent is there, but it has no marker. *)
Definition world (_ : registry) (q : question) : outcome (answer q) :=
  match q with
  | Mtime _ => Raise (OSError [])
  | PathExists p => Ret (bool_decide (p = child (path_of "/host/agents") "a") || bool_decide (p = path_of "/w/runtime"))
  | Create _ _ => Ret ([u "made"], Ret 0%Z)
  | NewAgentId => Ret (u "a")
  | SetOrder s => Ret (elements s)
  | IsDir _ => Ret true
  | MakeDirs _ | StartThread _ | StartObserver _ | StopObserver _ | StartObserve _ _ | CloseGroups | MngrContext | StartAgent _ | WsSend _ _ => Ret tt
  | ReadText _ | NewName => Ret []
  | ListAgents => Ret (path_of "/host", [])
  | SendTo _ _ => Ret []
  | Command _ _ => Ret {| returncode := 0; stdout := []; stderr := [] |}
  | NewObserver _ _ => Ret 0
  | FindLocations _ => Ret []
  end.
Lemma world_calm r q : calm r q (world r q).
Proof. destruct q; try done. split; [done|]. by intros x [= <-]. Qed.

Definition start_pool (cs : list call) : registry * list (P unit) := (r0, map thread_of cs).
Definition turns (n : nat) : list nat := concat (repeat (seq 0 4) n).
Definition is_done (p : P unit) : bool := match p with Done _ => true | _ => false end.
Lemma is_done_finished ts : forallb is_done ts = true → finished ts.
Proof.
  intros Hd. apply Forall_forall. intros p Hp. rewrite forallb_forall in Hd. apply list_elem_of_In, Hd in Hp. destruct p; try done. by eexists.
Qed.

(** Two threads: the reader of mngr observe, and a creation. *)
Definition calls : list call := [ObserveLines [(u "+a", true); (u "-a", true)]; CreateChat (u "n")].
Definition final : registry * list (P unit) := play world (turns 40) (start_pool calls).
Definition stale : registry * list (P unit) :=
  play world (repeat 0 6 ++ repeat 1 20 ++ repeat 0 2) (start_pool [ObserveLines [(u "+a", true)]; Remove (u "a")]).

(** The last message shows an agent that is gone: the list is read in one
    critical section and sent in another. *)
Theorem stale_list_sent_last :
  finished stale.2 ∧ rtc (pstep calm) (start_pool [ObserveLines [(u "+a", true)]; Remove (u "a")]) stale ∧
  agents_of stale.1 = ∅ ∧ ∃ v A, last (sent stale.1) = Some (AgentsUpdated v A) ∧ dom A = {[u "a"]}.
Proof.
  split; [apply is_done_finished; vm_compute; reflexivity|]. split; [apply play_steps; apply world_calm|].
  split; [vm_compute; reflexivity|]. eexists _, _. split; [vm_compute; reflexivity|]. vm_compute. reflexivity.
Qed.

(** Looking for the directory of the agent that was just created fails: the
    thread dies before the clients are told that the creation is over. *)
Definition unreadable (r : registry) (q : question) : outcome (answer q) :=
  match q with PathExists _ => Raise (OSError (u "Permission denied")) | q => world r q end.
Definition unfinished : registry * list (P unit) := play unreadable (turns 40) (start_pool [CreateChat (u "n")]).
Theorem creation_never_completed :
  finished unfinished.2 ∧ created (u "a") unfinished.1 = 1 ∧ completed (u "a") unfinished.1 = 0 ∧
  is_Some (agents_of unfinished.1 !! u "a").
Proof.
  split; [apply is_done_finished; vm_compute; reflexivity|]. split; [vm_compute; reflexivity|].
  split; [vm_compute; reflexivity|]. apply (bool_decide_unpack _). vm_compute. exact I.
Qed.

(** An entry of [applications.toml] that is no table: the reader of mngr observe
    ends with the error, the agents it found are never told, nor is what follows. *)
Definition odd_toml (r : registry) (q : question) : outcome (answer q) :=
  match q with PathExists _ => Ret true | ReadText _ => Ret (u "bad") | q => world r q end.
Definition deaf : registry * list (P unit) := play odd_toml (turns 40) (start_pool [ObserveLines [(u "+me", true); (u "+a", true)]]).
Theorem odd_entry_ends_reader :
  deaf.2 = [Done (Raise AttributeError)] ∧ dom (agents_of deaf.1) = {[u "me"]} ∧ sent deaf.1 = [].
Proof. split; [vm_compute; reflexivity|]. split; vm_compute; reflexivity. Qed.

(** Two clients of the log of one creation take from one queue: when the first
    has been told that the creation is over, the second waits for ever. *)
Definition logged : registry := with_log 0 [Some (u "line"); Some (u "done"); None] r0.
Lemma drained_waits turns ws q : ∀ r, log_lines r !! q = Some [] → (alone world (log_loop turns ws q) r).1 = Raise OutOfFuel.
Proof.
  induction turns as [|turns IH]; intros r Hr; [done|]. cbn [log_loop]. rewrite alone_bind, alone_locked. unfold log_get. rewrite Hr. cbn [default head tail].
  apply IH. simpl. apply lookup_insert_eq.
Qed.
Theorem second_log_client_waits turns :
  let first := alone world (log_loop 3 1 0) logged in
  first.1 = Ret tt ∧ delivered first.2 = [(1, u "line"); (1, u "done")] ∧ (alone world (log_loop turns 2 0) first.2).1 = Raise OutOfFuel.
Proof. split; [vm_compute; reflexivity|]. split; [vm_compute; reflexivity|]. apply drained_waits. vm_compute. reflexivity. Qed.

(** One agent with an activity. *)
Definition busy : registry := with_core true (track (u "a") (core (on_agents (<[u "a" := with_activity THINKING (item_of (agent (u "a")))]>) r0))) r0.
Lemma destroy_outcomes_witness : ∃ r', alone world (_destroy_agent (u "a")) busy = (Ret ok_response, r') ∧ without (u "a") busy r'.
Proof. exact (proj2 (destroy_outcomes world (u "a") busy (λ _ _, eq_refl))). Defined.
Lemma interrupt_outcomes_witness :
  ∃ r', alone world (_interrupt_agent_endpoint (u "a")) busy = (Ret ok_response, r') ∧ told_since busy r'
    ∧ agents_of r' = alter (with_activity IDLE) (u "a") (agents_of busy).
Proof. exact (proj2 (interrupt_outcomes world (u "a") None busy (λ _, eq_refl))). Defined.
Example busy_agent : activity_state <$> agents_of busy !! u "a" = Some (Some (u "THINKING")).
Proof. vm_compute. reflexivity. Qed.

Lemma every_change_told_witness :
  revision final.1 = revision r0 ∨ AgentsUpdated (revision final.1) (agents_of final.1) ∈ sent final.1.
Proof.
  apply (every_change_told calls r0 final.1 final.2).
  - exact clock.
  - split; [|apply ok_new]. by intros v A ?%elem_of_nil.
  - rewrite <- surjective_pairing. apply play_steps, world_calm.
  - apply is_done_finished. vm_compute. reflexivity.
Defined.

Lemma creations_complete_witness :
  created (u "a") final.1 = completed (u "a") final.1 ∧ _proto_agents final.1 !! u "a" = None.
Proof.
  apply (creations_complete (u "a") calls r0 final.1 final.2).
  - exact clock.
  - reflexivity.
  - reflexivity.
  - rewrite <- surjective_pairing. apply play_steps, world_calm.
  - apply is_done_finished. vm_compute. reflexivity.
Defined.
(** One creation was announced. *)
Example final_created : created (u "a") final.1 = 1.
Proof. vm_compute. reflexivity. Qed.

(** A client that joins after twelve turns of the two threads. *)
Definition early : registry * list (P unit) := play world (turns 3) (start_pool calls).
Definition watched : registry * list (P unit) :=
  play world (concat (repeat (seq 0 6) 60)) (with_broadcaster register early.1, early.2 ++ [ws_serve 20 (fresh_queue (_broadcaster early.1))]).
Lemma client_up_to_date_witness :
  (fresh_queue (_broadcaster early.1), text_of (AgentsUpdated (revision watched.1) (agents_of watched.1))) ∈ delivered watched.1.
Proof.
  apply (client_up_to_date calls r0 early.1 early.2 20 watched.1 watched.2).
  - exact clock.
  - split; [|apply ok_new]. by intros v A ?%elem_of_nil.
  - rewrite <- surjective_pairing. apply play_steps, world_calm.
  - rewrite <- surjective_pairing. apply play_steps, world_calm.
  - apply is_done_finished. vm_compute. reflexivity.
  - vm_compute. reflexivity.
  - apply (bool_decide_unpack _). vm_compute. exact I.
Defined.
End ManagerDemo.
