(* ===== verification/Worker.v ===== *)
(** * Launching workers

    [.agents/skills/launch-task/scripts/create_worker.py]: the launch of a worker,
    the wait for its report and the blocking path that does both and destroys the
    worker.  The commands run are recorded in a trace.  [mngr], the clock and what
    other processes do to the files meanwhile are parameters ([Machine]). *)

From Stdlib Require Import NArith ZArith QArith Lia Lqa.
From S2P Require Import Prelude PyStr PyJson PyMonad PyBytes PyPath PyFs TaskFiles.
From stdpp Require Import options.
#[global] Open Scope nat_scope.
#[local] Open Scope py_scope.

(** ** Durations *)

(** A [float]: finite ones are the rational they denote. *)
Inductive pyfloat := Fin (q : Q) | PInf | NInf | NaN.
(** The digits ahead, single underscores between them skipped. *)
Fixpoint span_us (after_digit : bool) (s : pystr) : pystr * pystr :=
  match s with
  | c :: s' =>
      if is_digit c then let '(ds, rest) := span_us true s' in (c :: ds, rest)
      else if after_digit && (c =? 95)%N && match s' with d :: _ => is_digit d | [] => false end then span_us false s'
      else ([], s)
  | [] => ([], [])
  end.
(** [float(s)]; [None] is its [ValueError] *)
Definition float_exponent (s : pystr) : option (Z * pystr) :=
  match s with
  | c :: s' =>
      if c ∈? u "eE" then
        let '(sg, s'') := Loads.sign true s' in
        match span_us false s'' with ([], _) => None | (ds, rest) => Some (sg * Z.of_N (digits_to_N ds), rest)%Z end
      else Some (0%Z, s)
  | [] => Some (0%Z, [])
  end.
Definition float_of_str (s : pystr) : option pyfloat :=
  let '(sg, s) := Loads.sign true (strip s) in
  if lower_ascii s ∈? [u "inf"; u "infinity"] then Some (if (0 <=? sg)%Z then PInf else NInf)
  else if lower_ascii s =? u "nan" then Some NaN
  else
    let '(ip, rest) := span_us false s in
    let '(fp, rest) := match rest with c :: rest' => if (c =? 46)%N then span_us false rest' else ([], rest) | [] => ([], []) end in
    match ip ++ fp, float_exponent rest with
    | c :: ds, Some (e, []) => Some (Fin (Loads.decimal (sg * Z.of_N (digits_to_N (c :: ds))) (e - Z.of_nat (length fp))))
    | _, _ => None
    end.

Definition ArgumentTypeError (msg : pystr) : exn := OtherError (u "ArgumentTypeError") msg.
Definition not_positive (x : pyfloat) : bool := match x with Fin q => Qle_bool q 0 | NInf => true | PInf | NaN => false end.
Definition scale (k : positive) (x : pyfloat) : pyfloat := match x with Fin q => Fin (q * inject_Z (Zpos k)) | _ => x end.
Definition unit_of (c : N) : option positive :=
  if (c =? 115)%N then Some 1%positive else if (c =? 109)%N then Some 60%positive else if (c =? 104)%N then Some 3600%positive else None.
Definition _parse_duration `{PyRepr} (value : pystr) : outcome pyfloat :=
  let text := lower_ascii (strip value) in
  match text with
  | [] => Raise (ArgumentTypeError (u "duration must not be empty"))
  | _ =>
      let unit := unit_of (List.last text 0%N) in
      let number := match unit with Some _ => removelast text | None => text end in
      match float_of_str number with
      | None => Raise (ArgumentTypeError (u "invalid duration " ++ str_repr value ++ u "; use e.g. '30m', '90s', '1h', or seconds"))
      | Some magnitude =>
          if not_positive magnitude then Raise (ArgumentTypeError (u "duration must be positive: " ++ str_repr value))
          else Ret (scale (default 1%positive unit) magnitude)
      end
  end.
Definition _DEFAULT_TIMEOUT : pystr := u "30m".
Definition _DEFAULT_POLL_INTERVAL : pystr := u "5s".
Definition _AWAIT_TIMEOUT_RC : Z := 124.

(** ** Frontmatter and reports *)

Record ReportResult := { report_type : option pystr; name : option pystr; body : pystr; raw : pystr }.

(** The world: processes run one after another, and files that others may
    change while this one sleeps. *)
Class Machine := {
  machine : Type;
  disk : machine → fs;
  set_disk : fs → machine → machine;
  (** the return code of a command *)
  run_cmd : list pystr → machine → outcome Z * machine;
  (** [time.monotonic()], [time.sleep(d)] *)
  clock : machine → Q;
  pause : Q → machine → machine;
  environ : pystr → option pystr }.
Class MachineLaws `(Machine) := pause_clock d m : (clock m + d <= clock (pause d m))%Q.

Section worker.
Context (cwd : loc) `{YamlLib} `{Machine} `{PyRepr}.

Record wstate := { mach : machine; trace : list (list pystr); out : pystr }.
Abbreviation W := (M wstate).
Definition files (s : wstate) : fs := disk (mach s).
Definition look {A} (g : fs → outcome A) : W A := λ s, (g (files s), s).
Definition print (t : pystr) : W unit := modify (λ s, {| mach := mach s; trace := trace s; out := out s ++ t |}).
Definition on_disk {A} (m : M fs A) : W A := λ s,
  let '(r, f) := m (files s) in (r, {| mach := set_disk f (mach s); trace := trace s; out := out s |}).
(** [runner.run(argv, check=check)]: the return code *)
Definition runner_run (argv : list pystr) (check : bool) : W Z := λ s,
  let '(r, m) := run_cmd argv (mach s) in
  (match r with
   | Ret rc => if check && negb (rc =? 0)%Z then Raise (OtherError (u "CalledProcessError") (join (u " ") argv)) else Ret rc
   | Raise e => Raise e
   end, {| mach := m; trace := trace s ++ [argv]; out := out s |}).

Definition _normalize_dir (value : pystr) : pystr := rstrip_char slash value ++ u "/".

(** [Raise] is [yaml.YAMLError]. *)
Definition split_frontmatter (text : pystr) : outcome (option (list (yaml * yaml)) * pystr) :=
  match splitlines text with
  | [] => Ret (None, [])
  | first :: rest =>
      if strip first <>? fence then Ret (None, [])
      else
        match until_fence rest with
        | None => Ret (None, [])
        | Some (fm, after) =>
            let body := strip_char nl (join [nl] after) in
            match safe_load (join [nl] fm) with
            | inr exc => Raise (OtherError (u "YAMLError") exc)
            | inl (YMap d) => Ret (Some d, body)
            | inl _ => Ret (None, body)
            end
        end
  end.

Definition _read_frontmatter_field (task_file : path) (key : pystr) (f : fs) : outcome (option pystr) :=
  text ← read_text_of cwd task_file f;
  match split_frontmatter text with
  | Raise _ => Raise (ValueError (path_str task_file ++ u ": frontmatter block is present but contains invalid YAML"))
  | Ret (None, _) => Ret None
  | Ret (Some d, _) =>
      match yget key d with
      | None | Some YNull => Ret None
      | Some (YStr (c :: s)) => Ret (Some (c :: s))
      | Some _ => Raise (ValueError (u "frontmatter." ++ key ++ u " must be a non-empty string"))
      end
  end.
Definition _read_source_artifacts_dir (task_file : path) (f : fs) : outcome (option path) :=
  value ← _read_frontmatter_field task_file "source_artifacts_dir" f; Ret (option_map path_of value).
Definition _read_finish_report_path (task_file : path) (f : fs) : outcome path :=
  value ← _read_frontmatter_field task_file "finish_report_path" f;
  match value with
  | None => Raise (ValueError (u "frontmatter is missing required field `finish_report_path`"))
  | Some value => Ret (path_of value)
  end.

Definition yaml_str (v : option yaml) : option pystr := match v with Some (YStr s) => Some s | _ => None end.
Definition parse_report (text : pystr) : ReportResult :=
  match split_frontmatter text with
  | Ret (Some d, body) => {| report_type := yaml_str (yget "type" d); name := yaml_str (yget "name" d); body := body; raw := text |}
  | _ => {| report_type := None; name := None; body := text; raw := text |}
  end.

(** ** Launching *)

Definition is_file (p : path) (f : fs) : bool := match stat cwd f p with Some (_, NFile _) => true | _ => false end.

Definition common_transcript (state_dir : path) : path := child (child state_dir "commands") "common_transcript.sh".
Definition _flush_common_transcript (state_dir : option path) : W unit :=
  match state_dir with
  | None => mret tt
  | Some dir =>
      there ← gets (λ s, is_file (common_transcript dir) (files s));
      if there : bool then runner_run [path_str (common_transcript dir); u "--single-pass"] false;; mret tt else mret tt
  end.

Definition rsync_argv (name : pystr) (source_dir : path) : list pystr :=
  let rel := _normalize_dir (path_str source_dir) in
  let local_source := if existsb (λ p, startswith p rel) [u "/"; u "./"; u "../"; u "~/"] then rel else u "./" ++ rel in
  [u "mngr"; u "rsync"; local_source; name ++ u ":" ++ rel; u "--uncommitted-changes=merge"].
Definition rsync_dir (name : pystr) (source_dir : path) : W unit := runner_run (rsync_argv name source_dir) true;; mret tt.

Definition create_argv (name template workspace : pystr) : list pystr :=
  [u "mngr"; u "create"; name; u "-t"; template; u "--label"; u "workspace=" ++ workspace].
Definition message_argv (name : pystr) (task_file : path) : list pystr :=
  [u "mngr"; u "message"; name; u "--message-file"; path_str task_file].

Definition launch (name template : pystr) (runtime_dir task_file : path) (workspace : pystr) (state_dir : option path) : W Z :=
  there ← gets (λ s, is_dir cwd runtime_dir (files s));
  if negb there then mret 2%Z
  else
    there ← gets (λ s, is_file task_file (files s));
    if negb there then mret 2%Z
    else
      artifacts_dir ← look (_read_source_artifacts_dir task_file);
      missing ← gets (λ s, match artifacts_dir with Some d => negb (is_dir cwd d (files s)) | None => false end);
      if missing : bool then mret 2%Z
      else
        runner_run (create_argv name template workspace) true;;
        rsync_dir name runtime_dir;;
        match artifacts_dir with Some d => rsync_dir name d | None => mret tt end;;
        _flush_common_transcript state_dir;;
        runner_run (message_argv name task_file) true;;
        print (u "create_worker: worker " ++ name ++ u " launched and runtime synced" ++ [nl]);;
        mret 0%Z.

(** ** Waiting *)

Definition add_to (t : Q) (x : pyfloat) : pyfloat := match x with Fin q => Fin (t + q) | _ => x end.
(** [t >= x] *)
Definition reached (t : Q) (x : pyfloat) : bool := match x with Fin q => Qle_bool q t | NInf => true | PInf | NaN => false end.
Definition sleeper (x : pyfloat) : W unit :=
  match x with
  | Fin q => modify (λ s, {| mach := pause q (mach s); trace := trace s; out := out s |})
  | PInf | NInf => raise (OtherError (u "OverflowError") (u "timestamp too large to convert to C PyTime_t"))
  | NaN => raise (ValueError (u "Invalid value NaN (not a number)"))
  end.

(** The loop: the report when it is there, [None] when the deadline passed. *)
Fixpoint poll_report (fuel : nat) (report_path : path) (deadline poll_interval : pyfloat) : W (option pystr) :=
  match fuel with
  | O => raise OutOfFuel
  | S fuel =>
      there ← gets (λ s, is_file report_path (files s));
      if there : bool then text ← look (read_text_of cwd report_path); mret (Some text)
      else
        late ← gets (λ s, reached (clock (mach s)) deadline);
        if late : bool then mret None
        else sleeper poll_interval;; poll_report fuel report_path deadline poll_interval
  end.
(** What [await_report] writes to its stream, and what it returns. *)
Definition await_report (fuel : nat) (report_path : path) (timeout_seconds poll_interval_seconds : pyfloat) : W (Z * pystr) :=
  deadline ← gets (λ s, add_to (clock (mach s)) timeout_seconds);
  found ← poll_report fuel report_path deadline poll_interval_seconds;
  mret (match found with Some text => (0%Z, text) | None => (_AWAIT_TIMEOUT_RC, []) end).

Definition destroy_argv (name : pystr) : list pystr := [u "mngr"; u "destroy"; name; u "--force"].
Definition destroy (name : pystr) : W unit := runner_run (destroy_argv name) true;; mret tt.

Definition _emit_run_result (payload : dict) (result_path : option path) : W unit :=
  let line := dumps float_repr ", " ": " (JObj payload) in
  print (line ++ [nl]);;
  match result_path with
  | Some p => on_disk (mkdirs cwd (parent p);; write_text_to cwd p line)
  | None => mret tt
  end.

Definition opt_str (v : option pystr) : json := match v with Some s => JStr s | None => JNull end.
Definition timed_out_payload (worker : pystr) : dict :=
  [(u "timed_out", JBool true); (u "type", JNull); (u "name", JNull); (u "body", JStr []);
   (u "branch", JStr (u "mngr/" ++ worker)); (u "raw_report", JStr [])].
Definition report_payload (worker : pystr) (report : ReportResult) : dict :=
  [(u "timed_out", JBool false); (u "type", opt_str (report_type report)); (u "name", opt_str (name report));
   (u "body", JStr (body report)); (u "branch", JStr (u "mngr/" ++ worker)); (u "raw_report", JStr (raw report))].

Definition launch_sync (fuel : nat) (worker template : pystr) (runtime_dir task_file : path) (workspace : pystr)
    (timeout_seconds poll_interval_seconds : pyfloat) (destroy_on_finish : bool) (state_dir result_path : option path) : W Z :=
  report_path ← look (_read_finish_report_path task_file);
  launch_rc ← launch worker template runtime_dir task_file workspace state_dir;
  if negb (launch_rc =? 0)%Z then mret launch_rc
  else
    awaited ← await_report fuel report_path timeout_seconds poll_interval_seconds;
    if negb (awaited.1 =? 0)%Z then _emit_run_result (timed_out_payload worker) result_path;; mret awaited.1
    else
      let report := parse_report awaited.2 in
      when destroy_on_finish (destroy worker);;
      _emit_run_result (report_payload worker report) result_path;;
      mret 0%Z.

(** ** The subcommands *)

Definition workspace_name : pystr := default (u "default") (environ "MINDS_WORKSPACE_NAME").
Definition lead_state_dir : option path := match environ "MNGR_AGENT_STATE_DIR" with Some (c :: s) => Some (path_of (c :: s)) | _ => None end.
Inductive command :=
  | CLaunch (worker template : pystr) (runtime_dir task_file : path)
  | CAwait (task_file : path) (timeout poll_interval : pyfloat)
  | CLaunchSync (worker template : pystr) (runtime_dir task_file : path) (timeout poll_interval : pyfloat) (keep_agent : bool) (result_json : option path)
  | CDestroy (worker : pystr).
Definition _run_await (fuel : nat) (task_file : path) (timeout poll_interval : pyfloat) : W Z :=
  report_path ← look (_read_finish_report_path task_file);
  r ← await_report fuel report_path timeout poll_interval;
  print r.2;; mret r.1.
Definition _run_launch_sync (fuel : nat) (worker template : pystr) (runtime_dir task_file : path) (timeout poll_interval : pyfloat)
    (keep_agent : bool) (result_json : option path) : W Z :=
  look (_read_finish_report_path task_file);;
  launch_sync fuel worker template runtime_dir task_file workspace_name timeout poll_interval (negb keep_agent) lead_state_dir result_json.
Definition main (fuel : nat) (c : command) : W Z :=
  match c with
  | CLaunch worker template runtime_dir task_file => launch worker template runtime_dir task_file workspace_name lead_state_dir
  | CAwait task_file timeout poll_interval => _run_await fuel task_file timeout poll_interval
  | CLaunchSync worker template runtime_dir task_file timeout poll_interval keep_agent result_json =>
      _run_launch_sync fuel worker template runtime_dir task_file timeout poll_interval keep_agent result_json
  | CDestroy worker => destroy worker;; mret 0%Z
  end.
End worker.
