(* ===== verification/WorkerFacts.v ===== *)
(** * What launching a worker guarantees

    The theorems about [Worker]: the commands run, in order, and the result
    reported, for each way a blocking launch can end; and that waiting ends. *)

From Stdlib Require Import NArith ZArith QArith Qround Lia Lqa.
From S2P Require Import Prelude PyStr PyJson PyMonad PyBytes PyPath PyFs TaskFiles Worker.
From stdpp Require Import options.
#[global] Open Scope nat_scope.
#[local] Open Scope py_scope.

Section facts.
Context (cwd : loc) `{YamlLib} {MA : Machine} `{PyRepr}.
Implicit Types (s : wstate) (worker template workspace : pystr).

(** [m] only adds to the commands run and to the output, in a way [P] tells. *)
Definition emits {A} (m : M wstate A) (P : list (list pystr) → pystr → outcome A → Prop) : Prop :=
  ∀ s r s', m s = (r, s') → ∃ cmds text, trace s' = trace s ++ cmds ∧ out s' = out s ++ text ∧ P cmds text r.
(** All of [cmds] and then [line], unless a command fails. *)
Definition finishes {A} (cmds : list (list pystr)) (line : pystr) (a : A) (c : list (list pystr)) (t : pystr) (r : outcome A) : Prop :=
  (∃ e, r = Raise e ∧ c `prefix_of` cmds ∧ t = []) ∨ (r = Ret a ∧ c = cmds ∧ t = line).

Lemma emits_weaken {A} (m : M wstate A) P Q : emits m P → (∀ c t r, P c t r → Q c t r) → emits m Q.
Proof. intros Hm HPQ s r s' E. destruct (Hm s r s' E) as (c & t & H1 & H2 & H3). exists c, t. auto. Qed.
Lemma emits_run argv check : emits (runner_run argv check) (λ c t _, c = [argv] ∧ t = []).
Proof.
  intros s r s'. unfold runner_run. destruct (run_cmd argv (mach s)) as [? m]. intros [= _ <-].
  exists [argv], []. by rewrite app_nil_r.
Qed.
Lemma emits_ret {A} (a : A) : emits (mret a) (λ c t r, c = [] ∧ t = [] ∧ r = Ret a).
Proof. intros s r s' [= <- <-]. exists [], []. by rewrite !app_nil_r. Qed.
Lemma emits_print line : emits (print line) (λ c t r, c = [] ∧ t = line ∧ r = Ret tt).
Proof. intros s r s' [= <- <-]. exists [], line. by rewrite app_nil_r. Qed.
Lemma emits_then {A B} (m : M wstate A) (k : A → M wstate B) P Q :
  emits m P → (∀ a, emits (k a) (Q a)) →
  emits (m ≫= k) (λ c t r, (∃ e, r = Raise e ∧ P c t (Raise e)) ∨
                            ∃ a c1 c2 t1 t2, c = c1 ++ c2 ∧ t = t1 ++ t2 ∧ P c1 t1 (Ret a) ∧ Q a c2 t2 r).
Proof.
  intros Hm Hk s r s' E. unfold mbind, M_bind in E. destruct (m s) as [[a|e] s1] eqn:E1; destruct (Hm _ _ _ E1) as (c1 & t1 & H1 & H2 & H3).
  - destruct (Hk a _ _ _ E) as (c2 & t2 & H4 & H5 & H6). exists (c1 ++ c2), (t1 ++ t2). rewrite H4, H5, H1, H2, !app_assoc.
    split_and!; [done|done|]. right. by exists a, c1, c2, t1, t2.
  - injection E as <- <-. exists c1, t1. split_and!; [done|done|]. left. by exists e.
Qed.
Lemma emits_gets {A B} (f : wstate → A) (k : A → M wstate B) P : (∀ a, emits (k a) P) → emits (gets f ≫= k) P.
Proof. intros Hk s r s' E. erewrite M_bind_ret in E by reflexivity. by apply (Hk (f s)). Qed.

(** A step before the rest; [X] tells what of the rest depends on the state. *)
Lemma emits_seq {A B C} (m : M wstate A) (k : M wstate B) cs (X : C → Prop) (ks : C → list (list pystr)) line b :
  emits m (λ c t _, c = cs ∧ t = []) → emits k (λ c t r, ∃ x, X x ∧ finishes (ks x) line b c t r) → (∃ x, X x) →
  emits (m;; k) (λ c t r, ∃ x, X x ∧ finishes (cs ++ ks x) line b c t r).
Proof.
  intros Hm Hk [x0 Hx0]. eapply emits_weaken; [apply emits_then; [exact Hm|intros a; exact Hk]|].
  intros c t r [(e & -> & -> & ->)|(a & c1 & c2 & t1 & t2 & -> & -> & [-> ->] & x & Hx & Hf)].
  - exists x0. split; [done|]. left. exists e. split_and!; [done|by eexists|done].
  - exists x. split; [done|]. destruct Hf as [(e & -> & Hp & ->)|(-> & -> & ->)]; [left|by right].
    exists e. split_and!; [done|by apply prefix_app|done].
Qed.

(** The commands of a launch; [flush] is the converter of the lead's
    transcript, when it is there. *)
Definition lifecycle worker template workspace (runtime_dir task_file : path) (artifacts : option path) (flush : list (list pystr))
    : list (list pystr) :=
  [create_argv worker template workspace] ++ [rsync_argv worker runtime_dir]
  ++ match artifacts with Some d => [rsync_argv worker d] | None => [] end ++ flush ++ [message_argv worker task_file].
Definition flush_of (state_dir : option path) (flush : list (list pystr)) : Prop :=
  flush = [] ∨ ∃ d, state_dir = Some d ∧ flush = [[path_str (common_transcript d); u "--single-pass"]].
Definition launched_line worker : pystr := u "create_worker: worker " ++ worker ++ u " launched and runtime synced" ++ [nl].

Lemma emits_flush state_dir : emits (_flush_common_transcript cwd state_dir) (λ c t _, flush_of state_dir c ∧ t = []).
Proof.
  unfold _flush_common_transcript. destruct state_dir as [d|].
  - apply emits_gets. intros [].
    + eapply emits_weaken; [apply emits_then; [apply emits_run|intros a; apply emits_ret]|].
      intros c t r [(e & -> & -> & ->)|(a & c1 & c2 & t1 & t2 & -> & -> & [-> ->] & -> & -> & ->)];
        (split; [right; by exists d|done]).
    + eapply emits_weaken; [apply emits_ret|]. intros c t r (-> & -> & _). split; [by left|done].
  - eapply emits_weaken; [apply emits_ret|]. intros c t r (-> & -> & _). split; [by left|done].
Qed.
Lemma emits_rsync worker d : emits (rsync_dir worker d) (λ c t _, c = [rsync_argv worker d] ∧ t = []).
Proof.
  unfold rsync_dir. eapply emits_weaken; [apply emits_then; [apply emits_run|intros a; apply emits_ret]|].
  by intros c t r [(e & -> & -> & ->)|(a & c1 & c2 & t1 & t2 & -> & -> & [-> ->] & -> & -> & ->)].
Qed.

(** Once the arguments are checked: the whole lifecycle, in order, as far as the
    first command that fails. *)
Lemma emits_lifecycle worker template workspace runtime_dir task_file artifacts state_dir :
  emits (runner_run (create_argv worker template workspace) true;;
         rsync_dir worker runtime_dir;;
         match artifacts with Some d => rsync_dir worker d | None => mret tt end;;
         _flush_common_transcript cwd state_dir;;
         runner_run (message_argv worker task_file) true;;
         print (launched_line worker);;
         mret 0%Z)
    (λ c t r, ∃ flush, flush_of state_dir flush ∧
       finishes (lifecycle worker template workspace runtime_dir task_file artifacts flush) (launched_line worker) 0%Z c t r).
Proof.
  assert (∃ x, flush_of state_dir x) as Hx by (exists []; by left).
  assert (emits (match artifacts with Some d => rsync_dir worker d | None => mret tt end)
            (λ c t _, c = match artifacts with Some d => [rsync_argv worker d] | None => [] end ∧ t = [])) as Hmid.
  { destruct artifacts; [apply emits_rsync|]. eapply emits_weaken; [apply emits_ret|]. by intros c t r (-> & -> & _). }
  unfold lifecycle. apply (emits_seq _ _ _ _ (λ fl, _)); [apply emits_run| |done].
  apply (emits_seq _ _ _ _ (λ fl, _)); [apply emits_rsync| |done].
  apply (emits_seq _ _ _ _ (λ fl, _)); [apply Hmid| |done].
  eapply emits_weaken; [apply emits_then; [apply emits_flush|intros x; apply emits_then; [apply emits_run|intros y; apply emits_then; [apply emits_print|intros z; apply emits_ret]]]|].
  cbn. intros c t r [(e & -> & Hfl & ->)|([] & fl & c2 & t1 & t2 & -> & -> & [Hfl ->] & Hr)].
  { exists c. split; [done|]. left. exists e. split_and!; [done|by eexists|done]. }
  exists fl. split; [done|]. destruct Hr as [(e & -> & -> & ->)|(a & c3 & c4 & t3 & t4 & -> & -> & [-> ->] & Hr)].
  { left. by exists e. }
  right. destruct Hr as [(e & -> & _ & _ & [=])|([] & c5 & c6 & t5 & t6 & -> & -> & (-> & -> & _) & -> & -> & ->)].
  by rewrite !app_nil_r.
Qed.

(** Every way a launch can end: refused before anything ran, or as far as the
    commands went. *)
Lemma launch_cases worker template runtime_dir task_file workspace state_dir s r s' :
  launch cwd worker template runtime_dir task_file workspace state_dir s = (r, s') →
  ((r = Ret 2%Z ∨ ∃ e, r = Raise e) ∧ s' = s) ∨
  ∃ artifacts flush cmds text, _read_source_artifacts_dir cwd task_file (files s) = Ret artifacts ∧ flush_of state_dir flush ∧
    trace s' = trace s ++ cmds ∧ out s' = out s ++ text ∧
    finishes (lifecycle worker template workspace runtime_dir task_file artifacts flush) (launched_line worker) 0%Z cmds text r.
Proof.
  unfold launch. intros E. erewrite M_bind_ret in E by reflexivity.
  destruct (is_dir cwd runtime_dir (files s)); cbn [negb] in E; [|left; injection E as <- <-; split; [by left|done]].
  erewrite M_bind_ret in E by reflexivity.
  destruct (is_file cwd task_file (files s)); cbn [negb] in E; [|left; injection E as <- <-; split; [by left|done]].
  destruct (_read_source_artifacts_dir cwd task_file (files s)) as [artifacts|e] eqn:Ea.
  2: { left. erewrite M_bind_raise in E by (unfold look; by rewrite Ea). injection E as <- <-. split; [right; by exists e|done]. }
  erewrite M_bind_ret in E by (unfold look; by rewrite Ea). erewrite M_bind_ret in E by reflexivity.
  destruct (match artifacts with Some d => negb (is_dir cwd d (files s)) | None => false end); [left; injection E as <- <-; split; [by left|done]|].
  right. exists artifacts. destruct (emits_lifecycle worker template workspace runtime_dir task_file artifacts state_dir s r s' E)
    as (c & t & H1 & H2 & flush & H3 & H4). by exists flush, c, t.
Qed.

(** ** Waiting *)

Lemma sleeper_state x s : trace (sleeper x s).2 = trace s ∧ out (sleeper x s).2 = out s.
Proof. by destruct x. Qed.

Lemma poll_quiet fuel report deadline interval s r s' :
  poll_report cwd fuel report deadline interval s = (r, s') →
  trace s' = trace s ∧ out s' = out s ∧
  match r with
  | Ret (Some text) => is_file cwd report (files s') = true ∧ read_text_of cwd report (files s') = Ret text
  | Ret None => is_file cwd report (files s') = false ∧ reached (clock (mach s')) deadline = true
  | Raise e =>
      (is_file cwd report (files s') = true ∧ read_text_of cwd report (files s') = Raise e)
      ∨ e = OutOfFuel ∨ ∃ s1, (sleeper interval s1).1 = Raise e
  end.
Proof.
  revert s. induction fuel as [|fuel IH]; intros s; cbn [poll_report]; [by intros [= <- <-]; auto|]. intros E.
  erewrite M_bind_ret in E by reflexivity. destruct (is_file cwd report (files s)) eqn:Ef.
  - destruct (read_text_of cwd report (files s)) as [text|e] eqn:Er.
    + erewrite M_bind_ret in E by (unfold look; by rewrite Er). injection E as <- <-. done.
    + erewrite M_bind_raise in E by (unfold look; by rewrite Er). injection E as <- <-. auto.
  - erewrite M_bind_ret in E by reflexivity. destruct (reached (clock (mach s)) deadline) eqn:El; [by injection E as <- <-|].
    destruct (sleeper interval s) as [[[]|e] s1] eqn:Es; pose proof (sleeper_state interval s) as [Ht Ho]; rewrite Es in Ht, Ho; cbn in Ht, Ho.
    + erewrite M_bind_ret in E by exact Es. apply IH in E as (H1 & H2 & H3). split_and!; [congruence|congruence|done].
    + erewrite M_bind_raise in E by exact Es. injection E as <- <-. split_and!; [done|done|]. right. right. exists s. by rewrite Es.
Qed.

Lemma poll_ends `{!MachineLaws MA} report d p : (0 < p)%Q → ∀ fuel s,
  (d <= clock (mach s) + p * inject_Z (Z.of_nat fuel))%Q →
  (poll_report cwd (S fuel) report (Fin d) (Fin p) s).1 ≠ Raise OutOfFuel.
Proof.
  intros Hp. induction fuel as [|fuel IH]; intros s Hd; cbn [poll_report]; erewrite M_bind_ret by reflexivity;
    destruct (is_file cwd report (files s)).
  1, 3: destruct (read_text_of cwd report (files s)) as [text|e] eqn:Er;
    [by erewrite M_bind_ret by (unfold look; by rewrite Er)|erewrite M_bind_raise by (unfold look; by rewrite Er)].
  1, 2: cbn; intros [= ->]; unfold read_text_of, read_file in Er; destruct (stat cwd (files s) report) as [[? []]|]; try done;
    cbn [mbind outcome_bind] in Er; unfold decode_text in Er; by destruct (decode_utf8 _ _ _ _).
  - erewrite M_bind_ret by reflexivity. cbn [reached]. assert (Qle_bool d (clock (mach s)) = true) as ->; [|done].
    apply Qle_bool_iff. change (inject_Z (Z.of_nat 0)) with 0%Q in Hd. lra.
  - erewrite M_bind_ret by reflexivity. destruct (reached (clock (mach s)) (Fin d)); [done|]. erewrite M_bind_ret by reflexivity.
    apply IH. cbn [mach]. pose proof (pause_clock p (mach s)) as Hc. rewrite Nat2Z.inj_succ, <- Z.add_1_r, inject_Z_plus in Hd.
    change (inject_Z 1) with 1%Q in Hd. lra.
Qed.

(** C21: waiting for a report ends, and ends right, when the timeout is finite and
    the interval positive: it returns or fails after at most one poll more than
    fit the timeout.  0 means that the report is there and gives its text, 124 that
    it is not there and that the timeout has passed; it fails only when the report
    is there and cannot be read, and with that error. *)
Theorem await_ends `{!MachineLaws MA} report t p fuel s :
  (0 < p)%Q → (t <= p * inject_Z (Z.of_nat fuel))%Q →
  ∃ r s', await_report cwd (S fuel) report (Fin t) (Fin p) s = (r, s') ∧ r ≠ Raise OutOfFuel ∧ trace s' = trace s ∧ out s' = out s ∧
    match r with
    | Ret (rc, text) =>
        (rc = 0%Z ∧ is_file cwd report (files s') = true ∧ read_text_of cwd report (files s') = Ret text) ∨
        (rc = _AWAIT_TIMEOUT_RC ∧ text = [] ∧ is_file cwd report (files s') = false ∧ (clock (mach s) + t <= clock (mach s'))%Q)
    | Raise e => is_file cwd report (files s') = true ∧ read_text_of cwd report (files s') = Raise e
    end.
Proof using Type.
  intros Hp Ht. unfold await_report. erewrite M_bind_ret by reflexivity. cbn [add_to].
  assert ((poll_report cwd (S fuel) report (Fin (clock (mach s) + t)) (Fin p) s).1 ≠ Raise OutOfFuel) as Hend by (apply poll_ends; [done|lra]).
  destruct (poll_report cwd (S fuel) report (Fin (clock (mach s) + t)) (Fin p) s) as [r s'] eqn:E.
  destruct (poll_quiet _ _ _ _ _ _ _ E) as (H1 & H2 & H3). destruct r as [[text|]|e].
  - exists (Ret (0%Z, text)), s'. erewrite M_bind_ret by exact E. split_and!; [done|done|done|done|]. by left.
  - exists (Ret (_AWAIT_TIMEOUT_RC, [])), s'. erewrite M_bind_ret by exact E. split_and!; [done|done|done|done|]. right.
    destruct H3 as [H3 H4]. cbn [reached] in H4. apply Qle_bool_iff in H4. done.
  - exists (Raise e), s'. erewrite M_bind_raise by exact E. cbn [fst] in Hend.
    assert (e ≠ OutOfFuel) as He by congruence. destruct H3 as [[H3 H4]|[?|(s1 & [=])]]; [|done].
    split_and!; [done|congruence|done..].
Qed.

(** ** The blocking launch *)

Definition result_line (payload : dict) : pystr := dumps float_repr ", " ": " (JObj payload) ++ [nl].
Lemma emits_disk {A} (m : M fs A) : emits (on_disk m) (λ c t _, c = [] ∧ t = []).
Proof. intros s r s'. unfold on_disk. destruct (m (files s)) as [x f]. intros [= <- <-]. exists [], []. by rewrite !app_nil_r. Qed.
(** The line is printed; writing it to a file may fail. *)
Lemma emits_result payload p : emits (_emit_run_result cwd payload p)
  (λ c t r, c = [] ∧ t = result_line payload ∧ (r = Ret tt ∨ p ≠ None ∧ ∃ e, r = Raise e)).
Proof.
  unfold _emit_run_result. eapply emits_weaken.
  - apply emits_then; [apply emits_print|]. intros x. instantiate (1 := λ _ c t r, c = [] ∧ t = [] ∧ (r = Ret tt ∨ p ≠ None ∧ ∃ e, r = Raise e)).
    destruct p; [|eapply emits_weaken; [apply emits_ret|]; intros c t r (-> & -> & ->); auto].
    intros s r s' E. destruct (emits_disk _ _ _ _ E) as (c & t & H1 & H2 & -> & ->). exists [], []. split_and!; try done.
    destruct r as [[]|e]; [by left|right]. split; [done|by exists e].
  - intros c t r [(e & -> & _ & _ & [=])|(a & c1 & c2 & t1 & t2 & -> & -> & (-> & -> & _) & -> & -> & Hr)]. split; [done|]. by rewrite app_nil_r.
Qed.
Lemma emits_destroy worker : emits (destroy worker) (λ c t _, c = [destroy_argv worker] ∧ t = []).
Proof.
  unfold destroy. eapply emits_weaken; [apply emits_then; [apply emits_run|intros a; apply emits_ret]|].
  by intros c t r [(e & -> & -> & ->)|(a & c1 & c2 & t1 & t2 & -> & -> & [-> ->] & -> & -> & ->)].
Qed.
Lemma await_cases fuel report t p s r s' : await_report cwd fuel report t p s = (r, s') →
  trace s' = trace s ∧ out s' = out s ∧
  match r with
  | Ret (rc, text) =>
      (rc = 0%Z ∧ is_file cwd report (files s') = true ∧ read_text_of cwd report (files s') = Ret text)
      ∨ (rc = _AWAIT_TIMEOUT_RC ∧ is_file cwd report (files s') = false ∧ reached (clock (mach s')) (add_to (clock (mach s)) t) = true)
  | Raise _ => True
  end.
Proof.
  unfold await_report. intros E. erewrite M_bind_ret in E by reflexivity.
  destruct (poll_report cwd fuel report (add_to (clock (mach s)) t) p s) as [[[text|]|e] s2] eqn:Ep; destruct (poll_quiet _ _ _ _ _ _ _ Ep) as (H1 & H2 & H3).
  - erewrite M_bind_ret in E by exact Ep. injection E as <- <-. split_and!; [done|done|by left].
  - erewrite M_bind_ret in E by exact Ep. injection E as <- <-. split_and!; [done|done|by right].
  - erewrite M_bind_raise in E by exact Ep. by injection E as <- <-.
Qed.

(** How a blocking launch ends after the wait, from the state [s2] it ended in. *)
Definition reported worker (destroying : bool) (result_path : option path) (text : pystr) s2 (r : outcome Z) s' : Prop :=
  let line := result_line (report_payload worker (parse_report text)) in
  raw (parse_report text) = text
  ∧ trace s' = trace s2 ++ (if destroying then [destroy_argv worker] else [])
  ∧ (r = Ret 0%Z ∧ out s' = out s2 ++ line
     ∨ ∃ e, r = Raise e ∧ (destroying = true ∧ out s' = out s2 ∨ result_path ≠ None ∧ out s' = out s2 ++ line)).
Definition gave_up worker (result_path : option path) s2 (r : outcome Z) s' : Prop :=
  trace s' = trace s2 ∧ out s' = out s2 ++ result_line (timed_out_payload worker)
  ∧ (r = Ret _AWAIT_TIMEOUT_RC ∨ result_path ≠ None ∧ ∃ e, r = Raise e).

Lemma report_end worker destroying result_path text s2 r s' :
  (when destroying (destroy worker);; _emit_run_result cwd (report_payload worker (parse_report text)) result_path;; mret 0%Z) s2 = (r, s') →
  reported worker destroying result_path text s2 r s'.
Proof.
  intros E. split; [unfold parse_report; by destruct (split_frontmatter text) as [[[d|] body']|]|].
  destruct (when destroying (destroy worker) s2) as [d s3] eqn:Ed.
  assert (trace s3 = trace s2 ++ (if destroying then [destroy_argv worker] else []) ∧ out s3 = out s2 ∧ (destroying = true ∨ d = Ret tt)) as (Ht & Ho & Hd).
  { destruct destroying; cbn [when] in Ed; [|injection Ed as <- <-; by rewrite app_nil_r; auto].
    destruct (emits_destroy _ _ _ _ Ed) as (c & t & H1 & H2 & -> & ->). rewrite H1, H2, app_nil_r. auto. }
  destruct d as [[]|e].
  2: { erewrite M_bind_raise in E by exact Ed. injection E as <- <-. split; [done|]. right. exists e. split; [done|]. left. by destruct Hd. }
  erewrite M_bind_ret in E by exact Ed. destruct (_emit_run_result cwd (report_payload worker (parse_report text)) result_path s3) as [x s4] eqn:Ee.
  destruct (emits_result _ _ _ _ _ Ee) as (c & t & H1 & H2 & -> & -> & Hr). rewrite app_nil_r in H1.
  destruct Hr as [->|(Hp & e & ->)].
  - erewrite M_bind_ret in E by exact Ee. injection E as <- <-. rewrite H1, H2, Ho. auto.
  - erewrite M_bind_raise in E by exact Ee. injection E as <- <-. rewrite H1, H2, Ho. split; [done|]. right. exists e. auto.
Qed.
Lemma timeout_end worker result_path s2 r s' :
  (_emit_run_result cwd (timed_out_payload worker) result_path;; mret _AWAIT_TIMEOUT_RC) s2 = (r, s') → gave_up worker result_path s2 r s'.
Proof.
  intros E. destruct (_emit_run_result cwd (timed_out_payload worker) result_path s2) as [x s4] eqn:Ee.
  destruct (emits_result _ _ _ _ _ Ee) as (c & t & H1 & H2 & -> & -> & Hr). rewrite app_nil_r in H1.
  destruct Hr as [->|(Hp & e & ->)].
  - erewrite M_bind_ret in E by exact Ee. injection E as <- <-. by split_and!; [| |left].
  - erewrite M_bind_raise in E by exact Ee. injection E as <- <-. split_and!; [done|done|]. right. split; [done|by exists e].
Qed.

(** C33: how a blocking launch ends.  Refused, or its task file unreadable: the
    result is 2 or an error, nothing was run and nothing printed.  A command
    fails: the error is raised, the commands before it and no others were run, and
    nothing was printed.  Otherwise all commands of the launch were run, in order
    and once each, and it waits for the report file that the task file names.  The
    wait fails: so does the launch.  It times out: 124, the worker is not
    destroyed, and the result printed says so.  The report is there: the worker is
    destroyed if asked for, and then the result is printed, which is the parsed
    report and holds the whole text of that file; an error then is one of the
    destroying command, before anything is printed, or of the result file. *)
Theorem sync_outcomes fuel worker template runtime_dir task_file workspace t p destroy_on_finish state_dir result_path s r s' :
  launch_sync cwd fuel worker template runtime_dir task_file workspace t p destroy_on_finish state_dir result_path s = (r, s') →
  (s' = s ∧ (r = Ret 2%Z ∨ ∃ e, r = Raise e)) ∨
  ∃ report artifacts flush, _read_finish_report_path cwd task_file (files s) = Ret report ∧
    _read_source_artifacts_dir cwd task_file (files s) = Ret artifacts ∧ flush_of state_dir flush ∧
    let cmds := lifecycle worker template workspace runtime_dir task_file artifacts flush in
    (∃ e c, r = Raise e ∧ c `prefix_of` cmds ∧ trace s' = trace s ++ c ∧ out s' = out s) ∨
    ∃ s1 a s2, launch cwd worker template runtime_dir task_file workspace state_dir s = (Ret 0%Z, s1) ∧
      trace s1 = trace s ++ cmds ∧ out s1 = out s ++ launched_line worker ∧
      await_report cwd fuel report t p s1 = (a, s2) ∧ trace s2 = trace s1 ∧ out s2 = out s1 ∧
      match a with
      | Raise e => r = Raise e ∧ s' = s2
      | Ret (rc, text) =>
          (rc = 0%Z ∧ is_file cwd report (files s2) = true ∧ read_text_of cwd report (files s2) = Ret text
           ∧ reported worker destroy_on_finish result_path text s2 r s')
          ∨ (rc = _AWAIT_TIMEOUT_RC ∧ is_file cwd report (files s2) = false
             ∧ reached (clock (mach s2)) (add_to (clock (mach s1)) t) = true ∧ gave_up worker result_path s2 r s')
      end.
Proof.
  unfold launch_sync. intros E. destruct (_read_finish_report_path cwd task_file (files s)) as [report|e] eqn:Er.
  2: { erewrite M_bind_raise in E by (unfold look; by rewrite Er). injection E as <- <-. left. split; [done|]. right. by exists e. }
  erewrite M_bind_ret in E by (unfold look; by rewrite Er).
  destruct (launch cwd worker template runtime_dir task_file workspace state_dir s) as [rc s1] eqn:El.
  destruct (launch_cases _ _ _ _ _ _ _ _ _ El) as [[[->|(e & ->)] ->]|(artifacts & flush & cmds & text & Ha & Hfl & Ht & Ho & Hf)].
  { erewrite M_bind_ret in E by exact El. injection E as <- <-. left. auto. }
  { erewrite M_bind_raise in E by exact El. injection E as <- <-. left. split; [done|]. right. by exists e. }
  right. exists report, artifacts, flush. split_and!; [done..|].
  destruct Hf as [(e & -> & Hp & ->)|(-> & -> & ->)].
  { erewrite M_bind_raise in E by exact El. injection E as <- <-. left. exists e, cmds. by rewrite Ho, app_nil_r. }
  right. erewrite M_bind_ret in E by exact El. cbn [Z.eqb negb] in E.
  destruct (await_report cwd fuel report t p s1) as [a s2] eqn:Ea. destruct (await_cases _ _ _ _ _ _ _ Ea) as (H1 & H2 & H3).
  exists s1, a, s2. split_and!; [done..|]. destruct a as [[rc text]|e].
  2: { erewrite M_bind_raise in E by exact Ea. by injection E as <- <-. }
  erewrite M_bind_ret in E by exact Ea. cbn [fst snd] in E. destruct H3 as [(-> & Hi & Hr)|(-> & Hi & Hr)]; cbn [Z.eqb negb] in E.
  - left. split_and!; [done..|]. by apply report_end.
  - right. split_and!; [done..|]. by apply timeout_end.
Qed.
End facts.

(** A timeout that is no number never passes. *)
Lemma nan_never_passes cwd `{YamlLib} {MA : Machine} report p fuel s :
  (∀ d m, disk (pause d m) = disk m) → is_file cwd report (files s) = false →
  (poll_report cwd fuel report NaN (Fin p) s).1 = Raise OutOfFuel.
Proof.
  intros Hd. revert s. induction fuel as [|fuel IH]; intros s Hf; [done|]. cbn [poll_report]. erewrite M_bind_ret by reflexivity.
  rewrite Hf. erewrite M_bind_ret by reflexivity. cbn [reached]. erewrite M_bind_ret by reflexivity. apply IH.
  unfold files in *. cbn [mach]. by rewrite Hd.
Qed.

(** ** On a concrete machine *)
Module WorkerDemo.
#[export] Instance repr : PyRepr := {| str_repr s := s; float_repr _ := u "0.5" |}.
#[export] Instance lib : YamlLib := {| safe_load s :=
  if startswith "task" s then inl (YMap [(YStr (u "finish_report_path"), YStr (u "r.md"))])
  else inl (YMap [(YStr (u "type"), YStr (u "done")); (YStr (u "name"), YOther (u "int"))]) |}.
Definition text (s : pystr) : node := NFile (match encode_utf8 s with Ret b => b | Raise _ => [] end).
Definition report : pystr := join [nl] [u "---"; u "type: done"; u "---"; []; u "All is well."].
(** The report is written twelve seconds after the start. *)
Definition time_passes (d : Q) (f : fs) : fs :=
  let t := (now f + d)%Q in
  {| nodes := if Qle_bool 12 t then <[[u "r.md"] := text report]> (nodes f) else nodes f; now := t |}.
#[export] Instance machine_of : Machine := {|
  machine := fs; disk f := f; set_disk f _ := f; clock := now; pause := time_passes; environ _ := None;
  run_cmd argv f := (Ret (if bool_decide (argv = destroy_argv "bad") then 1%Z else 0%Z), f) |}.
#[export] Instance machine_laws : MachineLaws machine_of.
Proof. intros d f. apply Qle_refl. Qed.
Definition start : wstate := {|
  mach := Fs {[ [] := NDir 0; [u "run"] := NDir 0; [u "task.md"] := text (join [nl] [u "---"; u "task"; u "---"]) ]} 0;
  trace := []; out := [] |}.
Definition sync (worker : pystr) (timeout : Q) (fuel : nat) :=
  launch_sync [] fuel worker "subskill" (path_of "run") (path_of "task.md") "w" (Fin timeout) (Fin 5) true None None start.

Lemma await_ends_witness :
  ∃ r s', await_report [] 5 (path_of "r.md") (Fin 20) (Fin 5) start = (r, s') ∧ r ≠ Raise OutOfFuel ∧ trace s' = trace start ∧ out s' = out start ∧
    match r with
    | Ret (rc, text) =>
        (rc = 0%Z ∧ is_file [] (path_of "r.md") (files s') = true ∧ read_text_of [] (path_of "r.md") (files s') = Ret text) ∨
        (rc = _AWAIT_TIMEOUT_RC ∧ text = [] ∧ is_file [] (path_of "r.md") (files s') = false ∧ (clock (mach start) + 20 <= clock (mach s'))%Q)
    | Raise e => is_file [] (path_of "r.md") (files s') = true ∧ read_text_of [] (path_of "r.md") (files s') = Raise e
    end.
Proof. apply (await_ends [] (path_of "r.md") 20 5 4 start); vm_compute; congruence. Defined.

Definition finished : wstate := (sync "w1" 60 20).2.
Lemma sync_done : sync "w1" 60 20 = (Ret 0%Z, finished).
Proof. vm_compute. reflexivity. Qed.
Lemma awaited :
  (await_report [] 20 (path_of "r.md") (Fin 60) (Fin 5) (launch [] "w1" "subskill" (path_of "run") (path_of "task.md") "w" None start).2).1
  = Ret (0%Z, report).
Proof. vm_compute. reflexivity. Qed.
Lemma sync_outcomes_witness :
  ∃ s2, trace finished = trace start ++ lifecycle "w1" "subskill" "w" (path_of "run") (path_of "task.md") None [] ++ [destroy_argv "w1"]
  ∧ read_text_of [] (path_of "r.md") (files s2) = Ret report
  ∧ out finished = out start ++ launched_line "w1" ++ result_line (report_payload "w1" (parse_report report)).
Proof.
  destruct (sync_outcomes [] 20 "w1" "subskill" (path_of "run") (path_of "task.md") "w" (Fin 60) (Fin 5) true None None start (Ret 0%Z) finished sync_done)
    as [[Es _]|(rp & artifacts & flush & Er & Ea & Hfl & [(e & c & [=] & _)|(s1 & a & s2 & El & Ht & Ho & Ew & Ht2 & Ho2 & Hend)])].
  { apply (f_equal trace) in Es. vm_compute in Es. discriminate. }
  assert (_read_finish_report_path [] (path_of "task.md") (files start) = Ret (path_of "r.md")) as Er' by (vm_compute; reflexivity).
  assert (_read_source_artifacts_dir [] (path_of "task.md") (files start) = Ret None) as Ea' by (vm_compute; reflexivity).
  rewrite Er in Er'. injection Er' as ->. rewrite Ea in Ea'. injection Ea' as ->. destruct Hfl as [->|(d & [=] & _)].
  destruct a as [[rc text]|e]; [|by destruct Hend as [[=] _]]. destruct Hend as [(-> & _ & Hr & _ & Htr & Hout)|(-> & _ & _ & _ & _ & [[=]|[[] _]])]; [|done].
  destruct Hout as [[_ Hout]|(e & [=] & _)]. exists s2. split; [by rewrite Htr, Ht2, Ht, <- app_assoc|].
  pose proof awaited as Ew'. rewrite El in Ew'. cbn [snd] in Ew'. rewrite Ew in Ew'. injection Ew' as ->.
  split; [exact Hr|by rewrite Hout, Ho2, Ho, <- app_assoc].
Defined.
Example sync_timed_out : (sync "w1" 10 20).1 = Ret 124%Z.
Proof. vm_compute. reflexivity. Qed.
(** When the destroying command fails, the collected report is not reported. *)
Example failed_destroy_loses_report :
  (sync "bad" 60 20).1 = Raise (OtherError (u "CalledProcessError") (u "mngr destroy bad --force")) ∧
  out (sync "bad" 60 20).2 = launched_line "bad".
Proof. vm_compute. done. Qed.

Example duration_minutes : _parse_duration (u " 30m") = Ret (Fin 1800).
Proof. vm_compute. reflexivity. Qed.
Example duration_nan : _parse_duration (u "nan") = Ret NaN ∧ _parse_duration (u "-1") ≠ Ret NaN ∧ _parse_duration (u "1_0.5s") = Ret (Fin (21 # 2)).
Proof. vm_compute. split_and!; congruence. Qed.
End WorkerDemo.
