(* ===== verification/Reveal.v ===== *)
(** * Revealing changes of the interface

    [.agents/skills/update-system-interface/scripts/reveal_system_interface.py]:
    the reveal of a merged change with its rollback, and the preview of a change
    before it is merged.  Commands, servers, ports, HTTP requests and the clock
    are a parameter ([Box]); what is done to them is recorded in a log.  The
    messages on stderr are left out. *)

From Stdlib Require Import NArith ZArith QArith Lia.
From S2P Require Import Prelude PyStr PyJson PyDumps PyMonad PyBytes PyPath PyFs.
From stdpp Require Import options.
#[global] Open Scope nat_scope.
#[local] Open Scope py_scope.

Definition DEFAULT_WORKSPACE_URL : pystr := u "http://127.0.0.1:8000".
Definition ENV_WORKSPACE_URL : pystr := u "MINDS_WORKSPACE_SERVER_URL".
Definition ENV_MNGR_AGENT_ID : pystr := u "MNGR_AGENT_ID".
Definition MNGR_AGENT_ID_HEADER : pystr := u "X-Mngr-Agent-Id".
Definition APP_DIR : pystr := u "apps/system_interface".
Definition FRONTEND_DIR : pystr := APP_DIR ++ u "/frontend".
Definition TOOL_NAME : pystr := u "system-interface".
Definition RELOAD_OP : pystr := u "reload_system_interface".
Definition PREVIEW_SERVICE_NAME : pystr := u "si-preview".
Definition PREVIEW_INNER_SERVICE_NAME : pystr := u "si-preview-app".
Definition PREVIEW_WRAPPER_SCRIPT : pystr := u "preview_wrapper_server.py".
Definition PREVIEW_STATE_ROOT : pystr := u "runtime/system-interface-preview".
Definition PREVIEW_STATE_FILENAME : pystr := u "preview.json".
Definition PREVIEW_LOG_FILENAME : pystr := u "preview.log".
Definition PREVIEW_WRAPPER_LOG_FILENAME : pystr := u "preview-wrapper.log".
Definition FORWARD_PORT_CMD : list pystr := [u "uv"; u "run"; u "python3"; u "scripts/forward_port.py"].
Definition HEALTH_PATH : pystr := u "/api/agents".
Definition SERVE_PATH : pystr := u "/".
Definition _HEALTH_ATTEMPTS : nat := 30.
Definition _HEALTH_INTERVAL_SECONDS : Q := 1.
Definition _PREFLIGHT_ATTEMPTS : nat := 30.
Definition _PREFLIGHT_INTERVAL_SECONDS : Q := 1.
Definition _PREVIEW_ATTEMPTS : nat := 60.
Definition _PREVIEW_INTERVAL_SECONDS : Q := 1.

(** ** What changed *)

Record ChangeSet := { frontend_src : bool; frontend_manifest : bool; backend_src : bool; backend_manifest : bool }.
Definition frontend (c : ChangeSet) : bool := frontend_src c || frontend_manifest c.
Definition backend (c : ChangeSet) : bool := backend_src c || backend_manifest c.
Definition any (c : ChangeSet) : bool := frontend c || backend c.
Definition no_changes : ChangeSet :=
  {| frontend_src := false; frontend_manifest := false; backend_src := false; backend_manifest := false |}.

Definition _is_test_file (path : pystr) : bool :=
  let name := rsplit_last slash path in endswith (u "_test.py") name || startswith (u "test_") name.
(** The body of the loop of [classify_changes]. *)
Definition classify_one (c : ChangeSet) (path : pystr) : ChangeSet :=
  if path ∈? [FRONTEND_DIR ++ u "/package.json"; FRONTEND_DIR ++ u "/package-lock.json"] then
    {| frontend_src := frontend_src c; frontend_manifest := true; backend_src := backend_src c; backend_manifest := backend_manifest c |}
  else if startswith (FRONTEND_DIR ++ u "/src/") path then
    {| frontend_src := true; frontend_manifest := frontend_manifest c; backend_src := backend_src c; backend_manifest := backend_manifest c |}
  else if (path =? APP_DIR ++ u "/pyproject.toml") || (path =? u "uv.lock") then
    {| frontend_src := frontend_src c; frontend_manifest := frontend_manifest c; backend_src := backend_src c; backend_manifest := true |}
  else if startswith (APP_DIR ++ u "/imbue/") path && endswith (u ".py") path && negb (_is_test_file path) then
    {| frontend_src := frontend_src c; frontend_manifest := frontend_manifest c; backend_src := true; backend_manifest := backend_manifest c |}
  else c.
Definition classify_changes (paths : list pystr) : ChangeSet := fold_left classify_one paths no_changes.

(** ** The machine *)

Record CompletedProcess := { returncode : Z; stdout : pystr; stderr : pystr }.
(** What [urlopen] comes to: a response, an [HTTPError], any other exception
    ([URLError] is an [OSError]). *)
Inductive reply := Opened (status : Z) | HTTPError (code : Z) | Failed (e : exn).
Abbreviation environment := (list (pystr * pystr)).

Class Box := {
  box : Type;
  disk : box → fs;
  set_disk : fs → box → box;
  (** [subprocess.run(argv, cwd=cwd, capture_output=True, text=True)] *)
  run_cmd : list pystr → path → box → outcome CompletedProcess * box;
  (** [urlopen] of a GET, and of a POST of a JSON body with headers *)
  urlopen_get : pystr → box → reply * box;
  urlopen_post : pystr → json → environment → box → reply * box;
  (** [Popen(argv, cwd=cwd, env=env)], a pid; its signals; waiting ten seconds *)
  Popen : list pystr → path → environment → option path → bool → box → outcome Z * box;
  send_terminate : Z → box → box;
  send_kill : Z → box → box;
  wait_10 : Z → box → outcome unit * box;
  (** a socket bound to port 0, and closed *)
  ephemeral_port : box → outcome Z * box;
  sleep_ : Q → box → box;
  environ : environment;
  executable : pystr;
  script_dir : path }.

(** What was done, with how it ended. *)
Inductive action :=
  | Ran (argv : list pystr) (dir : path) (rc : option Z)
  | Got (url : pystr) (status : option Z)
  | Posted (url : pystr) (status : option Z)
  | Spawned_ (argv : list pystr) (pid : Z)
  | Detached (argv : list pystr) (pid : Z)
  | Terminated (pid : Z).

Section reveal.
Context (cwd : loc) `{Box} `{JsonRepr} `{PyRepr}.

(** [pids] and [services] are the locals of [preview] that its handler reads. *)
Record rstate := { bx : box; log : list action; pids : list Z; services : list pystr }.
Abbreviation R := (M rstate).
Definition files (s : rstate) : fs := disk (bx s).
Definition with_box (b : box) (s : rstate) : rstate := {| bx := b; log := log s; pids := pids s; services := services s |}.
Definition note (a : action) : R unit := modify (λ s, {| bx := bx s; log := log s ++ [a]; pids := pids s; services := services s |}).
Definition on_disk {A} (m : M fs A) : R A := λ s, let '(r, f) := m (files s) in (r, with_box (set_disk f (bx s)) s).
(** A step of the machine. *)
Definition step {A} (m : box → A * box) : R A := λ s, let '(a, b) := m (bx s) in (Ret a, with_box b s).

(** [Runner.run], without [check] *)
Definition run (argv : list pystr) (dir : path) : R CompletedProcess :=
  r ← step (run_cmd argv dir);
  note (Ran argv dir match r with Ret p => Some (returncode p) | Raise _ => None end);;
  lift r.
(** The same with [check=True]. *)
Definition check_run (argv : list pystr) (dir : path) : R CompletedProcess :=
  p ← run argv dir;
  if (returncode p =? 0)%Z then mret p else raise (OtherError (u "CalledProcessError") (join (u " ") argv)).

Definition status_of (r : reply) : outcome (option Z) :=
  match r with
  | Opened z | HTTPError z => Ret (Some z)
  | Failed e => if is_OSError e then Ret None else Raise e
  end.
Definition get_status (url : pystr) : R (option Z) :=
  r ← step (urlopen_get url);
  note (Got url match status_of r with Ret s => s | Raise _ => None end);;
  lift (status_of r).
Definition post_json (url : pystr) (payload : json) (headers : environment) : R (option Z) :=
  r ← step (urlopen_post url payload headers);
  note (Posted url match status_of r with Ret s => s | Raise _ => None end);;
  lift (status_of r).

Definition spawn (argv : list pystr) (dir : path) (env : environment) : R Z :=
  r ← step (Popen argv dir env None false); pid ← lift r; note (Spawned_ argv pid);; mret pid.
Definition terminate (pid : Z) : R unit :=
  step (λ b, (tt, send_terminate pid b));;
  note (Terminated pid);;
  try_except (r ← step (wait_10 pid); lift r)
    (λ e, match e with TimeoutExpired => Some (step (λ b, (tt, send_kill pid b))) | _ => None end).
(** [open(p, "ab")]: made if missing. *)
Definition open_append (p : path) : M fs unit := λ f,
  match stat cwd f p with
  | Some (_, NFile _) => (Ret tt, f)
  | Some _ => os_error f
  | None => write_file cwd p [] f
  end.
Definition spawn_detached (argv : list pystr) (dir : path) (env : environment) (log_path : path) : R Z :=
  on_disk (open_append log_path);;
  r ← step (Popen argv dir env (Some log_path) true); pid ← lift r; note (Detached argv pid);; mret pid.
Definition find_free_port : R Z := r ← step ephemeral_port; lift r.
Definition sleeper (d : Q) : R unit := step (λ b, (tt, sleep_ d b)).

(** ** git *)

Definition diff_argv (rollback_to : pystr) : list pystr :=
  [u "git"; u "diff"; u "--no-renames"; u "--name-status"; rollback_to; u "HEAD"].
(** The loop over the lines of the output. *)
Definition name_status_line (line : pystr) : option (pystr * pystr) :=
  match strip line with
  | [] => None
  | _ => match split_char 9 line with
         | f :: g :: fields => Some (strip f, strip (List.last (g :: fields) []))
         | _ => None
         end
  end.
Definition _diff_name_status (repo_root : path) (rollback_to : pystr) : R (list (pystr * pystr)) :=
  result ← check_run (diff_argv rollback_to) repo_root;
  mret (omap name_status_line (splitlines (stdout result))).

Definition PreconditionError : exn := OtherError (u "PreconditionError")
  (u "working tree has uncommitted changes; refusing to reveal so a rollback can never clobber unrelated work. Commit or stash, then re-run.").
Definition status_argv : list pystr := [u "git"; u "status"; u "--porcelain"].
Definition _assert_clean_tree (repo_root : path) : R unit :=
  result ← check_run status_argv repo_root;
  match strip (stdout result) with [] => mret tt | _ => raise PreconditionError end.

(** ** The reveal *)

Definition _run_checked (argv : list pystr) (dir : path) (what : pystr) (live_service_restarted : bool) : R unit :=
  result ← run argv dir;
  if (returncode result =? 0)%Z then mret tt
  else raise (RevealFailed (what ++ u " failed (exit " ++ str_of_Z (returncode result) ++ u "): " ++ strip (stderr result)) live_service_restarted).

Fixpoint wait_healthy (url : pystr) (attempts : nat) (interval : Q) : R bool :=
  match attempts with
  | O => mret false
  | S attempts' =>
      status ← get_status url;
      if bool_decide (status = Some 200%Z) then mret true
      else when (0 <? attempts')%nat (sleeper interval);; wait_healthy url attempts' interval
  end.

Definition local_url (port : Z) : pystr := u "http://127.0.0.1:" ++ str_of_Z port.
Definition at_port (port : Z) (env : environment) : environment :=
  dset "SYSTEM_INTERFACE_PORT" (str_of_Z port) (dset "SYSTEM_INTERFACE_HOST" (u "127.0.0.1") env).
Definition _preflight_ok (repo_root : path) : R bool :=
  port ← find_free_port;
  spawned ← spawn [TOOL_NAME] (child repo_root APP_DIR) (at_port port environ);
  try_finally (wait_healthy (local_url port ++ HEALTH_PATH) _PREFLIGHT_ATTEMPTS _PREFLIGHT_INTERVAL_SECONDS) (terminate spawned).

Definition agent_id : pystr := default [] (dget ENV_MNGR_AGENT_ID environ).
Definition _broadcast_reload (base_url : pystr) : R unit :=
  post_json (base_url ++ u "/api/layout/broadcast")
    (JObj [(u "op", JStr RELOAD_OP); (u "args", JObj []); (u "agent_id", JStr agent_id)])
    [(u "Content-Type", u "application/json"); (MNGR_AGENT_ID_HEADER, agent_id)];; mret tt.

Definition npm_ci : list pystr := [u "npm"; u "ci"].
Definition uv_install : list pystr := [u "uv"; u "tool"; u "install"; u "-e"; APP_DIR; u "--reinstall"].
Definition npm_build : list pystr := [u "npm"; u "run"; u "build"].
Definition restart_argv : list pystr := [u "mngr"; u "start"; u "--restart"; u "system-services"].
Definition _refresh_dependencies (changes : ChangeSet) (repo_root : path) : R unit :=
  when (frontend_manifest changes) (_run_checked npm_ci (child repo_root FRONTEND_DIR) "npm ci" false);;
  when (backend_manifest changes) (_run_checked uv_install repo_root "uv tool install --reinstall" false).

Definition _apply_reveal (changes : ChangeSet) (repo_root : path) (base_url : pystr) : R unit :=
  _refresh_dependencies changes repo_root;;
  when (frontend changes) (_run_checked npm_build (child repo_root FRONTEND_DIR) "npm run build" false);;
  when (backend changes)
    (ok ← _preflight_ok repo_root;
     if negb ok then raise (RevealFailed (u "merged backend failed to boot in a pre-flight check; live service not restarted") false)
     else
       _run_checked restart_argv repo_root "mngr start --restart" true;;
       healthy ← wait_healthy (base_url ++ HEALTH_PATH) _HEALTH_ATTEMPTS _HEALTH_INTERVAL_SECONDS;
       if negb healthy then raise (RevealFailed (u "backend did not become healthy after restart") true) else mret tt);;
  when (frontend changes) (_broadcast_reload base_url).

Definition rm_argv (path : pystr) : list pystr := [u "git"; u "rm"; u "--force"; u "--ignore-unmatch"; path].
Definition checkout_argv (rollback_to path : pystr) : list pystr := [u "git"; u "checkout"; rollback_to; u "--"; path].
Definition restore_one (rollback_to : pystr) (repo_root : path) (sp : pystr * pystr) : R unit :=
  (if startswith (u "A") sp.1 then check_run (rm_argv sp.2) repo_root
   else check_run (checkout_argv rollback_to sp.2) repo_root);; mret tt.
Definition _restore_tree (name_status : list (pystr * pystr)) (rollback_to : pystr) (repo_root : path) : R unit :=
  for_each name_status (restore_one rollback_to repo_root).

Definition commit_argv (message : pystr) : list pystr := [u "git"; u "commit"; u "--no-verify"; u "-m"; message].
Definition _commit_rollback (repo_root : path) (rollback_to reason : pystr) : R unit :=
  check_run (commit_argv (u "Roll back system-interface reveal (restore to " ++ take 12 rollback_to ++ u ")" ++ [nl; nl] ++ reason)) repo_root;;
  mret tt.

Definition _recover_running_state (changes : ChangeSet) (repo_root : path) (base_url : pystr) (live_service_restarted : bool) : R bool :=
  recovered ← try_except
    (_refresh_dependencies changes repo_root;;
     when (frontend changes) (_run_checked npm_build (child repo_root FRONTEND_DIR) "npm run build" false);;
     healthy ←
       (if backend changes then
          when live_service_restarted (_run_checked restart_argv repo_root "mngr start --restart" false);;
          wait_healthy (base_url ++ HEALTH_PATH) _HEALTH_ATTEMPTS _HEALTH_INTERVAL_SECONDS
        else wait_healthy (base_url ++ SERVE_PATH) _HEALTH_ATTEMPTS _HEALTH_INTERVAL_SECONDS);
     mret (Some healthy))
    (λ e, match e with RevealFailed _ _ => Some (mret None) | _ => None end);
  match recovered with
  | None => mret false
  | Some healthy => when (healthy && frontend changes) (_broadcast_reload base_url);; mret healthy
  end.

Definition resolve_base (base_url : option pystr) : pystr :=
  rstrip_char slash match base_url with
                    | Some (c :: s) => c :: s
                    | _ => default DEFAULT_WORKSPACE_URL (dget ENV_WORKSPACE_URL environ)
                    end.
Definition reveal (rollback_to : pystr) (repo_root : path) (base_url : option pystr) : R Z :=
  let base := resolve_base base_url in
  _assert_clean_tree repo_root;;
  name_status ← _diff_name_status repo_root rollback_to;
  let changes := classify_changes (map snd name_status) in
  if negb (any changes) then mret 0%Z
  else
    try_except (_apply_reveal changes repo_root base;; mret 0%Z)
      (λ e, match e with
            | RevealFailed msg live_service_restarted => Some (
                _restore_tree name_status rollback_to repo_root;;
                _commit_rollback repo_root rollback_to (u "Reveal failed and was auto-reverted: " ++ msg);;
                recovered ← _recover_running_state changes repo_root base live_service_restarted;
                mret (if recovered : bool then 2%Z else 3%Z))
            | _ => None
            end).

(** ** The preview *)

Definition _preview_state_dir (repo_root : path) (slug : pystr) : path := child (child repo_root PREVIEW_STATE_ROOT) slug.
Definition _preview_state_path (repo_root : path) (slug : pystr) : path := child (_preview_state_dir repo_root slug) PREVIEW_STATE_FILENAME.

(** [f"-{pid}"] of a value read from JSON *)
Definition pid_str (pid : json) : pystr := match pid with JInt z => str_of_Z z | v => json_str v end.
Definition kill_argv (pid : json) : list pystr := [u "kill"; u "-TERM"; u "-" ++ pid_str pid].
Definition remove_argv (service : pystr) : list pystr := FORWARD_PORT_CMD ++ [u "--remove"; u "--name"; service].
Definition register_argv (service url : pystr) : list pystr := FORWARD_PORT_CMD ++ [u "--name"; service; u "--url"; url].
Definition _teardown_preview (repo_root : path) (pids services : json) : R unit :=
  pids ← lift (iter_json pids);
  for_each pids (λ pid, run (kill_argv pid) repo_root;; mret tt);;
  services ← lift (iter_json services);
  for_each services (λ service, name ← lift (need_str service); run (remove_argv name) repo_root;; mret tt).

(** [state.get(many)], or the list of [state[one]] *)
Definition recorded (many one : String.string) (state : json) : outcome json :=
  v ← get (u many) state;
  match v with
  | JNull => w ← get (u one) state; Ret (JList match w with JNull => [] | w => [w] end)
  | v => Ret v
  end.
Definition unpreview (slug : pystr) (repo_root : path) : R Z :=
  let state_path := _preview_state_path repo_root slug in
  there ← gets (λ s, exists_ cwd state_path (files s));
  if negb there then mret 0%Z
  else
    text ← gets (λ s, read_text_of cwd state_path (files s));
    match (t ← text; match loads t with Some v => Ret v | None => Raise (OSError []) end) with
    | Raise e => if is_OSError e then mret 1%Z else raise e
    | Ret state =>
        pids ← lift (recorded "pids" "pid" state);
        services ← lift (recorded "services" "service" state);
        _teardown_preview repo_root pids services;;
        on_disk (rmtree cwd (_preview_state_dir repo_root slug));;
        mret 0%Z
    end.

Definition reset_locals : R unit := modify (λ s, {| bx := bx s; log := log s; pids := []; services := [] |}).
Definition add_pid (pid : Z) : R unit := modify (λ s, {| bx := bx s; log := log s; pids := pids s ++ [pid]; services := services s |}).
Definition add_service (name : pystr) : R unit := modify (λ s, {| bx := bx s; log := log s; pids := pids s; services := services s ++ [name] |}).

Definition preview_env (port : Z) : environment := filter (λ kv, kv.1 ≠ ENV_MNGR_AGENT_ID) (at_port port environ).
Definition wrapper_argv (port : Z) (slug : pystr) : list pystr :=
  [executable; path_str (child script_dir PREVIEW_WRAPPER_SCRIPT); u "--port"; str_of_Z port;
   u "--inner-service"; PREVIEW_INNER_SERVICE_NAME; u "--title"; slug].
Definition saved_state (slug work_dir : pystr) (state_dir : path) (inner_port wrapper_port : Z) (s : rstate) : dict :=
  [(u "slug", JStr slug); (u "work_dir", JStr work_dir); (u "inner_port", JInt inner_port); (u "wrapper_port", JInt wrapper_port);
   (u "pids", JList (map JInt (pids s))); (u "services", JList (map JStr (services s))); (u "service", JStr PREVIEW_SERVICE_NAME);
   (u "inner_log", JStr (path_str (child state_dir PREVIEW_LOG_FILENAME)));
   (u "wrapper_log", JStr (path_str (child state_dir PREVIEW_WRAPPER_LOG_FILENAME)))].

(** One server with its route: booted, probed and registered. *)
Definition serve (argv : list pystr) (dir : path) (env : environment) (log_path : path) (port : Z) (probe service what failed : pystr)
    (repo_root : path) : R unit :=
  pid ← spawn_detached argv dir env log_path;
  add_pid pid;;
  healthy ← wait_healthy (local_url port ++ probe) _PREVIEW_ATTEMPTS _PREVIEW_INTERVAL_SECONDS;
  if negb healthy then
    raise (RevealFailed (failed ++ u " did not become healthy on port " ++ str_of_Z port ++ u " (see " ++ path_str log_path ++ u ")") false)
  else
    _run_checked (register_argv service (u "http://localhost:" ++ str_of_Z port)) repo_root what false;;
    add_service service.

Definition stand_up (slug work_dir : pystr) (worker_app_dir state_dir repo_root : path) : R unit :=
  inner_port ← find_free_port;
  serve [u "uv"; u "run"; TOOL_NAME] worker_app_dir (preview_env inner_port) (child state_dir PREVIEW_LOG_FILENAME) inner_port HEALTH_PATH
    PREVIEW_INNER_SERVICE_NAME "forward_port register (inner)" "preview instance" repo_root;;
  wrapper_port ← find_free_port;
  serve (wrapper_argv wrapper_port slug) repo_root environ (child state_dir PREVIEW_WRAPPER_LOG_FILENAME) wrapper_port SERVE_PATH
    PREVIEW_SERVICE_NAME "forward_port register (wrapper)" "preview wrapper" repo_root;;
  state ← gets (saved_state slug work_dir state_dir inner_port wrapper_port);
  on_disk (write_text_to cwd (_preview_state_path repo_root slug) (dumps_indent 0 (JObj state))).

(** [except (RevealError, OSError)] *)
Definition reveal_or_os (e : exn) : bool :=
  match e with RevealFailed _ _ => true | OtherError n _ => n =? "PreconditionError" | e => is_OSError e end.
Definition preview (slug work_dir : pystr) (repo_root : path) : R Z :=
  let worker_app_dir := child (path_of work_dir) APP_DIR in
  there ← gets (λ s, is_dir cwd worker_app_dir (files s));
  if negb there then mret 1%Z
  else
    unpreview slug repo_root;;
    let state_dir := _preview_state_dir repo_root slug in
    on_disk (mkdirs cwd state_dir);;
    reset_locals;;
    try_except (stand_up slug work_dir worker_app_dir state_dir repo_root;; mret 0%Z)
      (λ e, if reveal_or_os e then Some (
              pids ← gets pids; services ← gets services;
              _teardown_preview repo_root (JList (map JInt pids)) (JList (map JStr services));;
              on_disk (rmtree cwd state_dir);;
              mret 1%Z)
            else None).

(** ** The subcommands *)

Inductive command :=
  | CReveal (rollback_to : pystr)
  | CPreview (slug work_dir : pystr)
  | CUnpreview (slug : pystr).
(** [except PreconditionError], [except CalledProcessError] *)
Definition reported (e : exn) : bool := match e with OtherError n _ => n ∈? [u "PreconditionError"; u "CalledProcessError"] | _ => false end.
Definition main (c : command) (repo_root : path) : R Z :=
  try_except
    match c with
    | CReveal rollback_to => reveal rollback_to repo_root None
    | CPreview slug work_dir => preview slug work_dir repo_root
    | CUnpreview slug => unpreview slug repo_root
    end
    (λ e, if reported e then Some (mret 1%Z) else None).
End reveal.
