(* ===== verification/RevealFacts.v ===== *)
(** * What a reveal guarantees

    The log of a reveal read as the history of the interface: which code is in
    the served tree, which the live service runs, which the bundle was built from,
    and whether the last look at the live service found it healthy.  Then, with
    what git documents, that a rollback restores the known-good tree. *)

From Stdlib Require Import NArith ZArith QArith Lia.
From S2P Require Import Prelude PyStr PyJson PyMonad PyBytes PyPath PyFs Reveal.
From stdpp Require Import options.
#[global] Open Scope nat_scope.
#[local] Open Scope py_scope.

(** ** The history of the interface *)

Inductive code := Good | Merged.
(** [trial]: a throwaway server is up, so that probes are not of the live one;
    [vetted]: one of them was found healthy. *)
Record ui := { served : code; running : code; bundle : code; confirmed : bool; trial : bool; vetted : bool; restarts : nat }.
Definition merged_ui : ui := {| served := Merged; running := Good; bundle := Good; confirmed := false; trial := false; vetted := false; restarts := 0 |}.

Definition is_commit (argv : list pystr) : bool := take 2 argv =? [u "git"; u "commit"].
Definition is_restart (argv : list pystr) : bool := take 2 argv =? [u "mngr"; u "start"].
Definition is_build (argv : list pystr) : bool := take 3 argv =? [u "npm"; u "run"; u "build"].
Definition is_ok (status : option Z) : bool := bool_decide (status = Some 200%Z).
(** The service is taken to run the served code as soon as its restart is tried. *)
Definition ui_step (x : ui) (a : action) : ui :=
  match a with
  | Ran argv _ rc =>
      if is_restart argv then
        {| served := served x; running := served x; bundle := bundle x; confirmed := false; trial := trial x; vetted := vetted x; restarts := S (restarts x) |}
      else if is_commit argv && bool_decide (rc = Some 0%Z) then
        {| served := Good; running := running x; bundle := bundle x; confirmed := confirmed x; trial := trial x; vetted := vetted x; restarts := restarts x |}
      else if is_build argv && bool_decide (rc = Some 0%Z) then
        {| served := served x; running := running x; bundle := served x; confirmed := confirmed x; trial := trial x; vetted := vetted x; restarts := restarts x |}
      else x
  | Got _ status =>
      if trial x then
        {| served := served x; running := running x; bundle := bundle x; confirmed := confirmed x; trial := true; vetted := vetted x || is_ok status; restarts := restarts x |}
      else {| served := served x; running := running x; bundle := bundle x; confirmed := is_ok status; trial := false; vetted := vetted x; restarts := restarts x |}
  | Spawned_ _ _ => {| served := served x; running := running x; bundle := bundle x; confirmed := confirmed x; trial := true; vetted := vetted x; restarts := restarts x |}
  | Terminated _ => {| served := served x; running := running x; bundle := bundle x; confirmed := confirmed x; trial := false; vetted := vetted x; restarts := restarts x |}
  | Posted _ _ | Detached _ _ => x
  end.
Definition ui_of (l : list action) : ui := fold_left ui_step l merged_ui.
(** Merged code runs only if a throwaway server with it was healthy. *)
Definition safe (x : ui) : Prop := running x = Merged → vetted x = true.
Definition always_safe (l : list action) : Prop := ∀ l1, l1 `prefix_of` l → safe (ui_of l1).

(** The machine raises no exception of the script's own. *)
Definition foreign {A} (r : outcome A) : Prop := match r with Raise (RevealFailed _ _) => False | _ => True end.
Class BoxLaws `(Box) := {
  run_foreign argv dir b : foreign (run_cmd argv dir b).1;
  get_foreign url b : foreign (status_of (urlopen_get url b).1);
  post_foreign url v headers b : foreign (status_of (urlopen_post url v headers b).1);
  popen_foreign argv dir env l d b : foreign (Popen argv dir env l d b).1;
  wait_foreign pid b : foreign (wait_10 pid b).1;
  port_foreign b : foreign (ephemeral_port b).1 }.

Section facts.
Context `{HB : Box} `{!BoxLaws HB}.
Context (start : list action).
Implicit Types (s : rstate) (P : ui → Prop) (F : bool → ui → Prop).

(** The history since [start] is safe and has come to a point where [P] holds. *)
Definition at_ui P : rstate → Prop := λ s, ∃ l, log s = start ++ l ∧ always_safe l ∧ P (ui_of l).
(** [F b] is where [m] may have stopped with a [RevealFailed] of flag [b]. *)
Definition ends {A} (Q : A → ui → Prop) F (r : outcome A) : rstate → Prop :=
  match r with
  | Ret a => at_ui (Q a)
  | Raise (RevealFailed _ b) => at_ui (F b)
  | Raise _ => at_ui (λ _, True)
  end.
Definition spec {A} P (m : M rstate A) (Q : A → ui → Prop) F : Prop := triple (at_ui P) m (ends Q F).

Lemma at_ui_mono P Q s : (∀ x, P x → Q x) → at_ui P s → at_ui Q s.
Proof. intros HPQ (l & ? & ? & ?). exists l. auto. Qed.
Lemma spec_ret {A} P (a : A) Q F : (∀ x, P x → Q a x) → spec P (mret a) Q F.
Proof. intros HPQ. apply triple_ret. intros s. by apply at_ui_mono. Qed.
Lemma spec_raise {A} P msg b (Q : A → ui → Prop) F : (∀ x, P x → F b x) → spec P (raise (RevealFailed msg b)) Q F.
Proof. intros HPF. apply triple_raise. intros s. cbn. by apply at_ui_mono. Qed.
Lemma spec_bind {A B} P R (m : M rstate A) (k : A → M rstate B) Q F :
  spec P m R F → (∀ a, spec (R a) (k a) Q F) → spec P (m ≫= k) Q F.
Proof. intros Hm Hk. eapply triple_bind; [|exact Hk]. eapply triple_conseq; [exact Hm|done|]. by intros [a|[]] s'. Qed.
Lemma spec_conseq {A} P P' (m : M rstate A) (Q Q' : A → ui → Prop) F F' :
  spec P' m Q' F' → (∀ x, P x → P' x) → (∀ a x, Q' a x → Q a x) → (∀ b x, F' b x → F b x) → spec P m Q F.
Proof.
  intros Hm HP HQ HF. eapply triple_conseq; [exact Hm|intros s; by apply at_ui_mono|].
  intros [a|[]] s'; cbn; try done; apply at_ui_mono; auto.
Qed.
Lemma spec_when P b m Q F : (b = true → spec P m (λ _, Q) F) → (b = false → ∀ x, P x → Q x) → spec P (when b m) (λ _, Q) F.
Proof. intros Ht Hf. destruct b; [by apply Ht|apply spec_ret; auto]. Qed.
(** A fact that does not depend on the state. *)
Lemma spec_pure {A} P (φ : Prop) (m : M rstate A) Q F : (φ → spec P m Q F) → spec (λ x, φ ∧ P x) m Q F.
Proof. intros Hm s (l & H1 & H2 & Hφ & H3). apply Hm; [done|]. by exists l. Qed.

Lemma spec_note P Q a F :
  (∀ x, P x → safe x → Q (ui_step x a) ∧ safe (ui_step x a)) → spec P (note a) (λ _, Q) F.
Proof.
  intros Ha s (l & H1 & H2 & H3). cbn. exists (l ++ [a]). cbn. rewrite H1, app_assoc. split; [done|].
  unfold ui_of. rewrite fold_left_app. cbn. destruct (Ha (ui_of l) H3) as [HQ Hs]; [by apply H2|]. split; [|done].
  intros l1 Hl1. apply prefix_snoc_inv in Hl1 as [Hl1|Hl1]; [by apply H2|]. subst. unfold ui_of. by rewrite fold_left_app.
Qed.
Lemma spec_step {A} P (m : box → A * box) (φ : A → Prop) F : (∀ b, φ (m b).1) → spec P (step m) (λ a x, φ a ∧ P x) F.
Proof. intros Hm s (l & H1 & H2 & H3). unfold step. specialize (Hm (bx s)). destruct (m (bx s)) as [a b]. cbn. exists l. by split_and!. Qed.
Lemma spec_lift {A} P (r : outcome A) Q F : foreign r → (∀ a x, r = Ret a → P x → Q a x) → spec P (lift r) Q F.
Proof.
  intros Hr HQ s Hs. destruct r as [a|e]; cbn.
  - eapply at_ui_mono; [|exact Hs]. intros x. by apply HQ.
  - destruct e; cbn in *; try done; (eapply at_ui_mono; [|exact Hs]); done.
Qed.

(** ** The steps of the script *)

(** [Q rc]: after the command ended with [rc]. *)
Lemma spec_run P (Q : option Z → ui → Prop) argv dir F :
  (∀ rc x, P x → safe x → Q rc (ui_step x (Ran argv dir rc)) ∧ safe (ui_step x (Ran argv dir rc))) →
  spec P (run argv dir) (λ p, Q (Some (returncode p))) F.
Proof using Type*.
  intros HQ. unfold run. eapply spec_bind; [apply (spec_step P _ foreign); apply run_foreign|]. intros r. apply spec_pure. intros Hr.
  eapply spec_bind; [apply (spec_note _ (Q match r with Ret p => Some (returncode p) | Raise _ => None end)); by apply HQ|].
  intros []. apply spec_lift; [done|]. by intros p x ->.
Qed.
Lemma spec_checked P Q argv dir what b F :
  (∀ rc x, P x → safe x → (if bool_decide (rc = Some 0%Z) then Q (ui_step x (Ran argv dir rc)) else F b (ui_step x (Ran argv dir rc)))
                          ∧ safe (ui_step x (Ran argv dir rc))) →
  spec P (_run_checked argv dir what b) (λ _, Q) F.
Proof using Type*.
  intros HQ. unfold _run_checked. eapply spec_bind.
  - apply (spec_run _ (λ rc x, if bool_decide (rc = Some 0%Z) then Q x else F b x)). exact HQ.
  - intros p. cbn beta. destruct (Z.eqb_spec (returncode p) 0) as [->|Hne]; [by apply spec_ret|].
    apply spec_raise. rewrite bool_decide_false by congruence. done.
Qed.
(** A command that does not matter to the interface. *)
Definition quiet (argv : list pystr) : Prop := is_restart argv = false ∧ is_commit argv = false ∧ is_build argv = false.
Lemma quiet_step argv dir rc x : quiet argv → ui_step x (Ran argv dir rc) = x.
Proof. intros (H1 & H2 & H3). cbn. by rewrite H1, H2, H3. Qed.
Lemma spec_check_run P argv dir F : quiet argv → spec P (check_run argv dir) (λ _, P) F.
Proof using Type*.
  intros Hq. unfold check_run. eapply spec_bind.
  - apply (spec_run _ (λ _, P)). intros rc x. by rewrite quiet_step.
  - intros p. destruct (returncode p =? 0)%Z; [by apply spec_ret|]. intros s Hs. cbn. eapply at_ui_mono; [|exact Hs]. done.
Qed.

Definition probed (ok : bool) (x : ui) : ui := ui_step x (Got [] (if ok then Some 200%Z else None)).
Lemma spec_probe P url F : spec P (get_status url) (λ st x, ∃ y, P y ∧ x = probed (is_ok st) y) F.
Proof using Type*.
  unfold get_status. eapply spec_bind; [apply (spec_step P _ (λ r, foreign (status_of r))); apply get_foreign|]. intros r.
  apply spec_pure. intros Hr.
  eapply spec_bind; [apply (spec_note _ (λ x, ∃ y, P y ∧ x = probed (is_ok match status_of r with Ret st => st | Raise _ => None end) y))|].
  - intros x Hx Hs. split.
    + exists x. split; [done|]. unfold probed, ui_step. by destruct (is_ok _).
    + unfold safe in *. cbn. destruct (trial x); cbn; [|done]. intros Hm. by rewrite (Hs Hm).
  - intros []. apply spec_lift; [done|]. by intros st x ->.
Qed.
Lemma spec_silent P (m : box → box) F : spec P (step (λ b, (tt, m b))) (λ _, P) F.
Proof.
  eapply spec_conseq with (Q' := λ _ x, True ∧ P x); [by apply (spec_step P _ (λ _, True))|auto|by intros ? ? []|exact (λ b x Hx, Hx)].
Qed.

(** A loop of probes, of the live service or of a throwaway one. *)
Lemma spec_wait_live P url n d F :
  (∀ x b, P x → trial x = false ∧ P (probed b x)) →
  spec P (wait_healthy url n d) (λ ok x, P x ∧ (ok = true → confirmed x = true)) F.
Proof using Type*.
  intros HP. induction n as [|n IH]; cbn [wait_healthy]; [by apply spec_ret|].
  eapply spec_bind; [apply (spec_probe P)|]. intros st. cbn beta. fold (is_ok st). destruct (is_ok st) eqn:Eok.
  - apply spec_ret. intros x (y & Hy & ->). destruct (HP y true Hy) as [Ht Hp]. split; [done|]. intros _. unfold probed, ui_step. by rewrite Ht.
  - apply spec_bind with (λ _, P); [|intros []; exact IH].
    apply spec_when; intros _; [|intros x (y & Hy & ->); by apply HP].
    eapply spec_conseq; [apply (spec_silent P)|intros x (y & Hy & ->); by apply HP|done|done].
Qed.
Lemma spec_wait_trial P url n d F :
  (∀ x b, P x → trial x = true ∧ P (probed b x)) →
  spec P (wait_healthy url n d) (λ ok x, P x ∧ (ok = true → vetted x = true)) F.
Proof using Type*.
  intros HP. induction n as [|n IH]; cbn [wait_healthy]; [by apply spec_ret|].
  eapply spec_bind; [apply (spec_probe P)|]. intros st. cbn beta. fold (is_ok st). destruct (is_ok st) eqn:Eok.
  - apply spec_ret. intros x (y & Hy & ->). destruct (HP y true Hy) as [Ht Hp]. split; [done|]. intros _. unfold probed, ui_step. rewrite Ht.
    apply orb_true_r.
  - apply spec_bind with (λ _, P); [|intros []; exact IH].
    apply spec_when; intros _; [|intros x (y & Hy & ->); by apply HP].
    eapply spec_conseq; [apply (spec_silent P)|intros x (y & Hy & ->); by apply HP|done|done].
Qed.

(** Steps that add nothing to the history, and the two statements. *)
Lemma spec_fallible {A} P (m : box → outcome A * box) F : (∀ b, foreign (m b).1) → spec P (r ← step m; lift r) (λ _, P) F.
Proof.
  intros Hm. eapply spec_bind; [apply (spec_step P _ foreign); exact Hm|]. intros r. apply spec_pure. intros Hr. by apply spec_lift.
Qed.
Lemma spec_finally {A} P (m : M rstate A) f Q F Q' F' :
  spec P m Q F → (∀ a, spec (Q a) f (λ _, Q' a) (λ _ _, False)) → (∀ b, spec (F b) f (λ _, F' b) (λ _ _, False)) →
  spec (λ _, True) f (λ _ _, True) (λ _ _, False) → spec P (try_finally m f) Q' F'.
Proof.
  intros Hm Hq Hf Ht. eapply triple_finally; [exact Hm|].
  assert (∀ e s, at_ui (λ _, False) s → ends Q' F' (Raise e) s) as Hno by (intros e s (l & _ & _ & []) ).
  intros [a|e].
  - eapply triple_conseq; [apply (Hq a)|done|]. by intros [[]|[]] s Hs; try (by apply Hno).
  - assert (∀ e', foreign (@Raise A e') → triple (at_ui (λ _, True)) f
      (λ r' s, match r' with Ret _ => ends Q' F' (Raise e') s | Raise e2 => ends Q' F' (Raise e2) s end)) as Hother.
    { intros e' He'. eapply triple_conseq; [apply Ht|done|]. intros [[]|[]] s Hs; try (by apply Hno); try done; by destruct e'. }
    destruct e; try (by apply Hother). eapply triple_conseq; [apply (Hf live_service_restarted)|done|]. by intros [[]|[]] s Hs; try (by apply Hno).
Qed.
Lemma spec_try {A} P (m : M rstate A) h k Q F Q' F' :
  spec P m Q F → (∀ a x, Q a x → Q' a x) → (∀ msg b, h (RevealFailed msg b) = Some (k msg b)) →
  (∀ e, foreign (@Raise A e) → h e = None) → (∀ msg b, spec (F b) (k msg b) Q' F') → spec P (try_except m h) Q' F'.
Proof.
  intros Hm Hq Hh Hn Hk. eapply triple_try; [exact Hm| | |].
  - intros a s. cbn. apply at_ui_mono, Hq.
  - intros e He s. destruct e; cbn; try done. by rewrite Hh in He.
  - intros e k' He. destruct e; try (by rewrite Hn in He). rewrite Hh in He. injection He as <-. apply Hk.
Qed.

Lemma spec_terminate P Q pid F : (∀ x, P x → Q (ui_step x (Terminated pid))) → spec P (terminate pid) (λ _, Q) F.
Proof using Type*.
  intros HQ. unfold terminate. apply spec_bind with (λ _, P); [apply (spec_silent P)|]. intros [].
  apply spec_bind with (λ _, Q); [apply spec_note; intros x Hx Hs; split; [by apply HQ|exact Hs]|]. intros [].
  intros s (l & H1 & H2 & H3). assert (∀ b, at_ui Q (with_box b s)) as Hb by (intros b; by exists l).
  unfold try_except, mbind, M_bind, step, lift. pose proof (wait_foreign pid (bx s)) as Hf.
  destruct (wait_10 pid (bx s)) as [[[]|e] b]; cbn in *; [by apply Hb|].
  destruct e; cbn; try done; try (by exists l); by apply Hb.
Qed.

(** ** The reveal and the recovery *)

(** Before the live service is touched, with the bundle as given; after a
    successful reveal; and where a failed one stops. *)
Definition untouched (bd : code) (x : ui) : Prop := served x = Merged ∧ running x = Good ∧ trial x = false ∧ bundle x = bd ∧ restarts x = 0.
Definition restarted (bd : code) (x : ui) : Prop := served x = Merged ∧ running x = Merged ∧ trial x = false ∧ bundle x = bd ∧ vetted x = true ∧ restarts x = 1.
Definition revealed (c : ChangeSet) (x : ui) : Prop :=
  served x = Merged ∧ bundle x = (if frontend c then Merged else Good) ∧
  if backend c then running x = Merged ∧ confirmed x = true ∧ restarts x = 1 else running x = Good ∧ restarts x = 0.
Definition failed (c : ChangeSet) (b : bool) (x : ui) : Prop :=
  served x = Merged ∧ trial x = false ∧ (if b then backend c = true ∧ restarts x = 1 else running x = Good ∧ restarts x = 0) ∧ (frontend c = false → bundle x = Good).
Definition rolled_back (c : ChangeSet) (b : bool) (x : ui) : Prop :=
  served x = Good ∧ trial x = false ∧ (if b then backend c = true ∧ restarts x = 1 else running x = Good ∧ restarts x = 0) ∧ (frontend c = false → bundle x = Good).
Definition recovered (x : ui) : Prop := served x = Good ∧ running x = Good ∧ bundle x = Good ∧ confirmed x = true ∧ (restarts x = 0 ∨ restarts x = 2).

Lemma spec_refresh c repo P F :
  (∀ x, P x → F false x) → spec P (_refresh_dependencies c repo) (λ _, P) F.
Proof using Type*.
  intros HF. unfold _refresh_dependencies.
  assert (∀ argv dir what, quiet argv → spec P (_run_checked argv dir what false) (λ _, P) F) as Hq.
  { intros argv dir what Hq. apply spec_checked. intros rc x HP Hs. rewrite quiet_step by done. split; [|done]. case_bool_decide; auto. }
  apply spec_bind with (λ _, P); [|intros []]; (apply spec_when; [intros _; by apply Hq|done]).
Qed.
Lemma spec_build c repo P Q F :
  (∀ x, P x → F false x) →
  (∀ x, P x → if frontend c then Q (ui_step x (Ran npm_build (child repo FRONTEND_DIR) (Some 0%Z))) else Q x) →
  spec P (when (frontend c) (_run_checked npm_build (child repo FRONTEND_DIR) "npm run build" false)) (λ _, Q) F.
Proof using Type*.
  intros HF HQ. apply spec_when; intros Hc; rewrite Hc in HQ; [|done]. apply spec_checked. intros rc x HP Hs.
  split; [|unfold safe in *; cbn; by case_bool_decide].
  case_bool_decide as Hrc; [subst; by apply HQ|]. cbn. rewrite bool_decide_false by done. by apply HF.
Qed.
Lemma spec_broadcast base P F : spec P (_broadcast_reload base) (λ _, P) F.
Proof using Type*.
  unfold _broadcast_reload, post_json. apply spec_bind with (λ _, P); [|intros ?; by apply spec_ret].
  eapply spec_bind; [apply (spec_step P _ (λ r, foreign (status_of r))); intros b; apply post_foreign|]. intros r. apply spec_pure. intros Hr.
  apply spec_bind with (λ _, P); [by apply spec_note|]. intros []. by apply spec_lift.
Qed.

Lemma spec_preflight repo bd F :
  spec (untouched bd) (_preflight_ok repo) (λ ok x, untouched bd x ∧ (ok = true → vetted x = true)) F.
Proof using Type*.
  unfold _preflight_ok. apply spec_bind with (λ _, untouched bd); [apply spec_fallible, port_foreign|]. intros port.
  set (tried x := served x = Merged ∧ running x = Good ∧ trial x = true ∧ bundle x = bd ∧ restarts x = 0).
  apply spec_bind with (λ _, tried).
  { unfold spawn. eapply spec_bind; [apply (spec_step _ _ foreign); intros b; apply popen_foreign|]. intros r. apply spec_pure. intros Hr.
    eapply spec_bind; [by apply (spec_lift _ r (λ _, untouched bd))|]. intros pid.
    apply spec_bind with (λ _, tried); [|intros ?; by apply spec_ret].
    apply spec_note. intros x (H1 & H2 & H3 & H4 & H5) Hs. by split; [split_and!|]. }
  intros pid. eapply spec_finally with (F := λ _ _, False).
  - apply spec_wait_trial. intros x b (H1 & H2 & H3 & H4 & H5). split; [done|]. unfold tried, probed, ui_step. rewrite H3. by split_and!.
  - intros ok. apply spec_terminate. by intros x [(H1 & H2 & H3 & H4 & H5) Hv].
  - intros b. by apply spec_terminate.
  - by apply spec_terminate.
Qed.

Definition built (c : ChangeSet) : code := if frontend c then Merged else Good.
Lemma untouched_failed c bd x : (frontend c = false → bd = Good) → untouched bd x → failed c false x.
Proof. intros Hbd (H1 & H2 & H3 & H4 & H5). split_and!; [done..|]. intros Hf. by rewrite H4, Hbd. Qed.

Lemma spec_apply c repo base : spec (untouched Good) (_apply_reveal c repo base) (λ _, revealed c) (failed c).
Proof using Type*.
  unfold _apply_reveal. assert (frontend c = false → built c = Good) as Hbd by (unfold built; by intros ->).
  apply spec_bind with (λ _, untouched Good); [apply spec_refresh; intros x; by apply untouched_failed|]. intros [].
  apply spec_bind with (λ _, untouched (built c)).
  { apply spec_build; [intros x; by apply untouched_failed|]. unfold built. destruct (frontend c); [|done].
    by intros x (H1 & H2 & H3 & H4 & H5). }
  intros []. apply spec_bind with (λ _, revealed c).
  2: { intros []. apply spec_when; [|done]. intros _. apply spec_broadcast. }
  apply spec_when; intros Hb.
  2: { intros x (H1 & H2 & H3 & H4 & H5). unfold revealed. by rewrite Hb. }
  eapply spec_bind; [apply (spec_preflight repo (built c))|]. intros [].
  2: { apply spec_raise. intros x [Hx _]. by eapply untouched_failed. }
  cbn [negb]. apply spec_bind with (λ _, restarted (built c)).
  { apply spec_checked. intros rc x [(H1 & H2 & H3 & H4 & H5) Hv] Hs. specialize (Hv eq_refl). split; [|by intros _].
    assert (restarts (ui_step x (Ran restart_argv repo rc)) = 1) as Hn by (cbn; by rewrite H5).
    case_bool_decide; [by split_and!|]. split_and!; [done|done|done|exact Hn|]. intros Hf. change (bundle x = Good). rewrite H4. by apply Hbd. }
  intros []. eapply spec_bind.
  { apply (spec_wait_live (restarted (built c))). intros x b (H1 & H2 & H3 & H4 & H5 & H6). split; [done|]. unfold probed, ui_step. rewrite H3. by split_and!. }
  intros []; cbn [negb].
  - apply spec_ret. intros x [(H1 & H2 & H3 & H4 & H5 & H6) Hc]. split; [done|]. split; [done|]. rewrite Hb. auto.
  - apply spec_raise. intros x [(H1 & H2 & H3 & H4 & H5 & H6) _]. split_and!; [done|done|done|done|]. intros Hf. rewrite H4. by apply Hbd.
Qed.

Lemma spec_restore P ns rollback_to repo F : spec P (_restore_tree ns rollback_to repo) (λ _, P) F.
Proof using Type*.
  unfold _restore_tree. induction ns as [|[st p] ns IH]; cbn [for_each]; [by apply spec_ret|].
  apply spec_bind with (λ _, P); [|intros []; exact IH]. unfold restore_one.
  apply spec_bind with (λ _, P); [|intros ?; by apply spec_ret].
  destruct (startswith (u "A") _); by apply spec_check_run.
Qed.

(** The steps of the recovery, with the flag [b] of the failure. *)
Lemma spec_commit c b repo rollback_to reason F :
  spec (failed c b) (_commit_rollback repo rollback_to reason) (λ _, rolled_back c b) F.
Proof using Type*.
  unfold _commit_rollback, check_run. apply spec_bind with (λ _, rolled_back c b); [|intros ?; by apply spec_ret].
  eapply spec_bind.
  - apply (spec_run _ (λ rc x, rc = Some 0%Z → rolled_back c b x)). intros rc x (H1 & H2 & H3 & H4) Hs.
    split; [intros ->; by split_and!|]. unfold safe in *. cbn. by case_bool_decide.
  - intros p. cbn beta. destruct (Z.eqb_spec (returncode p) 0) as [->|]; [apply spec_ret; auto|].
    intros s Hs. cbn. by eapply at_ui_mono.
Qed.

Definition kept (x : ui) : Prop := served x = Good.
Lemma spec_recover c b repo base F :
  spec (rolled_back c b) (_recover_running_state c repo base b) (λ ok x, kept x ∧ (ok = true → recovered x)) F.
Proof using Type*.
  unfold _recover_running_state. assert (∀ x, rolled_back c b x → kept x) as Hk by (by intros x (H1 & _)).
  apply spec_bind with (λ o x, kept x ∧ (o = Some true → recovered x)).
  2: { intros [ok|]; [|apply spec_ret; intros x [Hx _]; by split]. set (got x := kept x ∧ (ok = true → recovered x)).
       apply spec_bind with (λ _, got); [|intros []; by apply spec_ret].
       eapply (spec_conseq _ got _ _ (λ _, got) _ F); [|intros x [H1 H2]; split; [done|intros ->; auto]|done|done].
       apply spec_when; [intros _; apply spec_broadcast|done]. }
  set (back x := served x = Good ∧ trial x = false ∧ (if b then backend c = true ∧ restarts x = 1 else running x = Good ∧ restarts x = 0) ∧ bundle x = Good).
  set (up x := served x = Good ∧ trial x = false ∧ running x = Good ∧ bundle x = Good ∧ (restarts x = 0 ∨ restarts x = 2)).
  assert (∀ url, spec up (wait_healthy url _HEALTH_ATTEMPTS _HEALTH_INTERVAL_SECONDS) (λ ok x, kept x ∧ (ok = true → recovered x)) (λ _, kept)) as Hwait.
  { intros url. eapply spec_conseq; [apply (spec_wait_live up)|done| |].
    - intros x b' (H1 & H2 & H3 & H4 & H5). split; [done|]. unfold probed, ui_step. rewrite H2. by split_and!.
    - intros ok x [(H1 & H2 & H3 & H4 & H5) Hc]. split; [done|]. intros Hok. by split_and!; auto.
    - intros b' x Hx. exact Hx. }
  eapply (spec_try _ _ _ (λ _ _, mret None) (λ o x, kept x ∧ (o = Some true → recovered x)) (λ _, kept)); try done.
  2: { by intros []. }
  2: { intros _ _. apply spec_ret. intros x Hx. by split. }
  apply spec_bind with (λ _, rolled_back c b); [apply spec_refresh; exact Hk|]. intros [].
  apply spec_bind with (λ _, back).
  { apply spec_build; [exact Hk|]. intros x (H1 & H2 & H3 & H4). destruct (frontend c); by split_and!; auto. }
  intros []. eapply spec_bind with (λ ok x, kept x ∧ (ok = true → recovered x)).
  2: { intros ok. apply spec_ret. intros x [H1 H2]. split; [done|]. intros [= ->]. auto. }
  destruct (backend c) eqn:Hb.
  - apply spec_bind with (λ _, up); [|intros []; apply Hwait]. apply spec_when; intros Eb; subst b; [|intros x (H1 & H2 & [H3 H4] & H5); split_and!; auto].
    apply spec_checked. intros rc x (H1 & H2 & [_ H3] & H4) Hs.
    assert (restarts (ui_step x (Ran restart_argv repo rc)) = 2) as Hn by (cbn; by rewrite H3).
    split; [case_bool_decide; [split_and!; auto|done]|].
    unfold safe. change (served x = Merged → vetted x = true). by rewrite H1.
  - eapply spec_conseq; [apply Hwait| |done|done]. intros x (H1 & H2 & H3 & H4). destruct b; [by destruct H3|]. destruct H3. split_and!; auto.
Qed.

(** What the script looks at first. *)
Definition gather (repo : path) (rollback_to : pystr) : M rstate (list (pystr * pystr)) :=
  _assert_clean_tree repo;; _diff_name_status repo rollback_to.
Definition changed (ns : list (pystr * pystr)) : ChangeSet := classify_changes (map snd ns).
(** What the exit code [z] says of the interface. *)
Definition promised (c : ChangeSet) (z : Z) (x : ui) : Prop :=
  if any c then (z = 0%Z ∧ revealed c x) ∨ (z = 2%Z ∧ recovered x) ∨ (z = 3%Z ∧ served x = Good)
  else z = 0%Z ∧ x = merged_ui.

Definition after_gather (rollback_to : pystr) (repo : path) (base : pystr) (ns : list (pystr * pystr)) : M rstate Z :=
  if negb (any (changed ns)) then mret 0%Z
  else
    try_except (_apply_reveal (changed ns) repo base;; mret 0%Z)
      (λ e, match e with
            | RevealFailed msg b => Some (
                _restore_tree ns rollback_to repo;;
                _commit_rollback repo rollback_to (u "Reveal failed and was auto-reverted: " ++ msg);;
                ok ← _recover_running_state (changed ns) repo base b;
                mret (if ok : bool then 2%Z else 3%Z))
            | _ => None
            end).
Lemma reveal_parts rollback_to repo base_url s :
  reveal rollback_to repo base_url s = (ns ← gather repo rollback_to; after_gather rollback_to repo (resolve_base base_url) ns) s.
Proof.
  unfold reveal, gather, after_gather, changed. unfold mbind, M_bind. destruct (_assert_clean_tree repo s) as [[[]|e] s1]; [|done].
  by destruct (_diff_name_status repo rollback_to s1) as [[ns|e] s2].
Qed.

Lemma spec_gather P repo rollback_to F : spec P (gather repo rollback_to) (λ _, P) F.
Proof using Type*.
  unfold gather, _assert_clean_tree, _diff_name_status. apply spec_bind with (λ _, P).
  - apply spec_bind with (λ _, P); [by apply spec_check_run|]. intros p. destruct (strip _); [by apply spec_ret|].
    intros s Hs. cbn. by eapply at_ui_mono.
  - intros []. apply spec_bind with (λ _, P); [by apply spec_check_run|]. intros p. by apply spec_ret.
Qed.
Lemma spec_after_gather rollback_to repo base ns :
  spec (λ x, x = merged_ui) (after_gather rollback_to repo base ns) (promised (changed ns)) (λ _ _, True).
Proof using Type*.
  unfold after_gather, promised. set (c := changed ns). destruct (any c); cbn [negb]; [|apply spec_ret; auto].
  eapply (spec_try _ _ _ (λ msg b, _) (λ z x, z = 0%Z ∧ revealed c x) (failed c)); [|auto|done|by intros []|].
  - apply spec_bind with (λ _, revealed c); [|intros []; by apply spec_ret].
    eapply (spec_conseq _ (untouched Good)); [apply spec_apply|by intros x ->|done|done].
  - intros msg b. cbn beta. apply spec_bind with (λ _, failed c b); [apply spec_restore|]. intros [].
    apply spec_bind with (λ _, rolled_back c b); [apply spec_commit|]. intros [].
    eapply spec_bind; [apply spec_recover|]. intros ok. apply spec_ret. intros x [H1 H2]. right. destruct ok; [left|right]; auto.
Qed.
End facts.


(** ** What a rollback does to the repository *)

(** Trees as maps from paths to contents: the index with the files checked out
    from it, the last commit, and a revision. *)
Class Git `(HB : Box) := {
  blob : Type;
  blob_eq :: EqDecision blob;
  tree : box → gmap pystr blob;
  head : box → gmap pystr blob;
  at_rev : pystr → box → gmap pystr blob }.

Definition same_repo `{Git} (rev : pystr) (b b' : box) : Prop :=
  tree b' = tree b ∧ head b' = head b ∧ at_rev rev b' = at_rev rev b.
(** A path that git prints as it is and takes for itself only. *)
Definition plain_path (p : pystr) : Prop :=
  one_line p = true ∧ 9%N ∉ p ∧ p ≠ [] ∧ strip p = p ∧ Forall (λ c, (32 <= c < 127)%N ∧ c ∉ 34%N :: u "*?[\") p ∧ hd 0%N p ∉ u "-:".
Definition writes_repo (argv : list pystr) : bool :=
  take 2 argv ∈? [[u "git"; u "rm"]; [u "git"; u "checkout"]; [u "git"; u "commit"]].

(** What git documents, and that nothing else the script runs changes tracked
    files. *)
Class GitLaws `(HB : Box) `{G : !Git HB} (rev : pystr) (repo : path) := {
  run_same argv dir b : writes_repo argv = false → same_repo rev b (run_cmd argv dir b).2;
  get_same url b : same_repo rev b (urlopen_get url b).2;
  post_same url v headers b : same_repo rev b (urlopen_post url v headers b).2;
  popen_same argv dir env l d b : same_repo rev b (Popen argv dir env l d b).2;
  terminate_same pid b : same_repo rev b (send_terminate pid b);
  kill_same pid b : same_repo rev b (send_kill pid b);
  wait_same pid b : same_repo rev b (wait_10 pid b).2;
  port_same b : same_repo rev b (ephemeral_port b).2;
  sleep_same d b : same_repo rev b (sleep_ d b);
  git_status b p : (run_cmd status_argv repo b).1 = Ret p → returncode p = 0%Z → strip (stdout p) = [] → tree b = head b;
  git_diff b p : (run_cmd (diff_argv rev) repo b).1 = Ret p → returncode p = 0%Z →
    (∀ f, at_rev rev b !! f ≠ head b !! f → plain_path f) →
    ∃ entries, stdout p = entry_lines (map (λ e, e.1 :: 9%N :: e.2) entries) ∧
      Forall (λ e, e.1 ∈ u "AMDT" ∧ (e.1 = 65%N ↔ at_rev rev b !! e.2 = None)) entries ∧
      ∀ f, f ∈ map snd entries ↔ at_rev rev b !! f ≠ head b !! f;
  git_rm f b p b' : run_cmd (rm_argv f) repo b = (Ret p, b') → returncode p = 0%Z → plain_path f →
    tree b' = delete f (tree b) ∧ head b' = head b ∧ at_rev rev b' = at_rev rev b;
  git_checkout f b p b' : run_cmd (checkout_argv rev f) repo b = (Ret p, b') → returncode p = 0%Z → plain_path f →
    (∃ x, at_rev rev b !! f = Some x ∧ tree b' = <[f := x]> (tree b)) ∧ head b' = head b ∧ at_rev rev b' = at_rev rev b;
  git_commit m b p b' : run_cmd (commit_argv m) repo b = (Ret p, b') → returncode p = 0%Z →
    tree b' = tree b ∧ head b' = tree b ∧ at_rev rev b' = at_rev rev b }.

(** The lines of [git diff --name-status] are read back. *)
Lemma strip_nonempty c s : c ∈ s → is_space c = false → strip s ≠ [].
Proof.
  intros Hc Hs E. unfold strip in E. destruct (lstrip_suffix s) as (k & Ek & Hk).
  assert (c ∈ lstrip s) as Hl.
  { rewrite Ek, elem_of_app in Hc. destruct Hc as [Hc|Hc]; [|done]. rewrite Forall_forall in Hk. by rewrite (Hk c Hc) in Hs. }
  unfold rstrip in E. destruct (lstrip_suffix (reverse (lstrip s))) as (k2 & Ek2 & Hk2).
  assert (lstrip (reverse (lstrip s)) = []) as E2 by (rewrite <- (reverse_involutive (lstrip _)), E; done).
  rewrite E2, app_nil_r in Ek2. rewrite <- Ek2 in Hk2. rewrite Forall_forall in Hk2.
  rewrite (Hk2 c) in Hs by by apply elem_of_reverse. done.
Qed.
Lemma name_status_read c f : c ∈ u "AMDT" → plain_path f → name_status_line (c :: 9%N :: f) = Some ([c], f).
Proof.
  intros Hc (H1 & H2 & H3 & H4 & _). unfold name_status_line.
  assert (is_space c = false ∧ (c =? 9)%N = false ∧ strip [c] = [c]) as (Hs & Hn & Hsc).
  { change (u "AMDT") with [65; 77; 68; 84]%N in Hc. revert c Hc. apply Forall_forall. repeat (constructor; [vm_compute; done|]). constructor. }
  destruct (strip (c :: 9%N :: f)) eqn:E; [by apply (strip_nonempty c) in E; [|left|]|].
  change (c :: 9%N :: f) with ([c] ++ 9%N :: f). rewrite split_char_app by (intros Hi%list_elem_of_singleton; by subst).
  rewrite split_char_one by done. change (Some (strip [c], strip f) = Some ([c], f)). by rewrite Hsc, H4.
Qed.
Lemma name_status_lines entries :
  Forall (λ e, e.1 ∈ u "AMDT" ∧ plain_path e.2) entries →
  omap name_status_line (splitlines (entry_lines (map (λ e, e.1 :: 9%N :: e.2) entries))) = map (λ e, ([e.1], e.2)) entries.
Proof.
  intros He. rewrite <- (app_nil_r (entry_lines _)), splitlines_entries.
  - cbn [splitlines splitlines_go]. change (splitlines []) with (@nil pystr). rewrite app_nil_r.
    induction He as [|[c f] es [Hc Hf] _ IH]; [done|]. cbn [map omap list_omap fst snd]. rewrite name_status_read by done. by f_equal.
  - apply Forall_map. eapply Forall_impl; [exact He|]. intros [c f] [Hc Hf]. cbn [fst snd] in *. unfold one_line. cbn [forallb].
    destruct Hf as (H1 & _). unfold one_line in H1. rewrite H1. change (u "AMDT") with [65; 77; 68; 84]%N in Hc. revert c Hc. apply Forall_forall. repeat (constructor; [vm_compute; done|]). constructor.
Qed.

Section rollback.
Context `{HB : Box} `{GH : !Git HB} (rev : pystr) (repo : path) `{!GitLaws HB rev repo}.
Implicit Types s : rstate.

Definition same_tree s s' : Prop := same_repo rev (bx s) (bx s').
#[local] Instance same_tree_preorder : PreOrder same_tree.
Proof. split; [by intros s|]. intros s1 s2 s3 (H1 & H2 & H3) (H4 & H5 & H6). unfold same_tree, same_repo. split_and!; congruence. Qed.
Abbreviation still := (stepwise same_tree).

Lemma still_step {A} (m : box → A * box) : (∀ b, same_repo rev b (m b).2) → still (step m).
Proof. intros Hm s. unfold step. specialize (Hm (bx s)). by destruct (m (bx s)). Qed.
Lemma still_note a : still (note a). Proof. by intros s. Qed.

Local Ltac still_go := stepwise_go ltac:(idtac;
  lazymatch goal with
  | |- stepwise _ (note _) => apply still_note
  | |- stepwise _ (step _) => apply still_step; intros ?;
      first [by apply run_same|apply get_same|apply post_same|apply popen_same|apply terminate_same|apply kill_same|apply wait_same
            |apply port_same|apply sleep_same]
  end).

Lemma still_run argv dir : writes_repo argv = false → still (run argv dir).
Proof using All. intros Ha. unfold run. still_go. Qed.
Lemma still_check_run argv dir : writes_repo argv = false → still (check_run argv dir).
Proof using All. intros Ha. unfold check_run. still_go. by apply still_run. Qed.
Lemma still_checked argv dir what b : writes_repo argv = false → still (_run_checked argv dir what b).
Proof using All. intros Ha. unfold _run_checked. still_go. by apply still_run. Qed.
Lemma still_wait url n d : still (wait_healthy url n d).
Proof using All. induction n as [|n IH]; cbn [wait_healthy]; unfold get_status, sleeper; still_go. Qed.
Lemma still_preflight : still (_preflight_ok repo).
Proof using All. unfold _preflight_ok, find_free_port, spawn, terminate. pose proof still_wait. still_go. Qed.
Lemma still_broadcast base : still (_broadcast_reload base).
Proof using All. unfold _broadcast_reload, post_json. still_go. Qed.
Lemma still_refresh c : still (_refresh_dependencies c repo).
Proof using All. unfold _refresh_dependencies. still_go; by apply still_checked. Qed.
Lemma still_apply c base : still (_apply_reveal c repo base).
Proof using All.
  unfold _apply_reveal. pose proof still_wait. pose proof still_preflight. pose proof still_broadcast. pose proof still_refresh.
  still_go; by apply still_checked.
Qed.
Lemma still_recover c base b : still (_recover_running_state c repo base b).
Proof using All.
  unfold _recover_running_state. pose proof still_wait. pose proof still_broadcast. pose proof still_refresh.
  still_go; by apply still_checked.
Qed.
Lemma still_gather : still (gather repo rev).
Proof using All. unfold gather, _assert_clean_tree, _diff_name_status. still_go; by apply still_check_run. Qed.

(** [reveal] looks before it does anything: on a clean tree, at what differs. *)
Lemma check_run_Ret argv dir s p s' :
  check_run argv dir s = (Ret p, s') →
  returncode p = 0%Z ∧ run_cmd argv dir (bx s) = (Ret p, bx s').
Proof.
  unfold check_run, run. intros (q & s1 & E1 & E2)%M_bind_Ret. apply M_bind_Ret in E1 as (r & s2 & E1 & E3).
  apply M_bind_Ret in E3 as ([] & s3 & E3 & E4). unfold step in E1. destruct (run_cmd argv dir (bx s)) as [r' b] eqn:Er.
  injection E1 as <- <-. injection E3 as <-. injection E4 as -> <-. destruct (Z.eqb_spec (returncode q) 0); [|done].
  by injection E2 as <- <-.
Qed.
Lemma gather_Ret s ns s' :
  (∀ f, at_rev rev (bx s) !! f ≠ head (bx s) !! f → plain_path f) → gather repo rev s = (Ret ns, s') →
  tree (bx s) = head (bx s) ∧
  ∃ entries : list (N * pystr), ns = map (λ e, ([e.1], e.2)) entries ∧
    Forall (λ e, e.1 ∈ u "AMDT" ∧ (e.1 = 65%N ↔ at_rev rev (bx s) !! e.2 = None)) entries ∧
    ∀ f, f ∈ map snd entries ↔ at_rev rev (bx s) !! f ≠ head (bx s) !! f.
Proof using All.
  intros Hpl. unfold gather, _assert_clean_tree, _diff_name_status. intros ([] & s1 & E1 & E2)%M_bind_Ret.
  apply M_bind_Ret in E1 as (p & s2 & E1 & E3). apply M_bind_Ret in E2 as (q & s3 & E2 & E4).
  destruct (check_run_Ret _ _ _ _ _ E1) as [Hp Ep]. destruct (check_run_Ret _ _ _ _ _ E2) as [Hq Eq].
  destruct (strip (stdout p)) eqn:Es; [|done]. injection E3 as ->. injection E4 as <- <-.
  assert (same_repo rev (bx s) (bx s1)) as (Ht & Hh & Hr).
  { pose proof (run_same status_argv repo (bx s) eq_refl) as Hs. by rewrite Ep in Hs. }
  split; [by apply (git_status (bx s) p); [rewrite Ep|..]|].
  destruct (git_diff (bx s1) q) as (entries & Eo & He & Hin); [by rewrite Eq|done|by rewrite Hr, Hh|].
  rewrite Hr, Hh in Hin. rewrite Hr in He. exists entries. split_and!; [|done|done].
  rewrite Eo. apply name_status_lines. rewrite Forall_forall in He |- *. intros e Hein. split; [by apply He|].
  apply Hpl, Hin, list_elem_of_fmap. by exists e.
Qed.

(** After restoring [entries], their paths are as in the revision. *)
Lemma restore_tree entries : ∀ s s' (R : gmap pystr blob),
  at_rev rev (bx s) = R →
  Forall (λ e : N * pystr, (e.1 = 65%N ↔ R !! e.2 = None) ∧ plain_path e.2) entries →
  _restore_tree (map (λ e, ([e.1], e.2)) entries) rev repo s = (Ret tt, s') →
  at_rev rev (bx s') = R ∧ head (bx s') = head (bx s) ∧
  ∀ f, tree (bx s') !! f = if decide (f ∈ map snd entries) then R !! f else tree (bx s) !! f.
Proof using All.
  unfold _restore_tree. induction entries as [|[c p] entries IH]; intros s s' R HR He; cbn [map for_each fst snd].
  { by intros [= <-]. }
  intros ([] & s1 & E1 & E2)%M_bind_Ret. apply Forall_cons in He as [[Hc Hpl] He]. cbn [fst snd] in Hc, Hpl.
  assert (at_rev rev (bx s1) = R ∧ head (bx s1) = head (bx s) ∧ tree (bx s1) = partial_alter (λ _, R !! p) p (tree (bx s))) as (H1 & H2 & H3).
  { unfold restore_one in E1. cbn [fst snd] in E1. apply M_bind_Ret in E1 as (q & s2 & E1 & E3). injection E3 as ->.
    destruct (startswith (u "A") [c]) eqn:Ea; apply check_run_Ret in E1 as [Hq Eq].
    - assert (R !! p = None) as Hn by (apply Hc; apply andb_true_iff in Ea as [Ea%N.eqb_eq _]; by rewrite <- Ea).
      destruct (git_rm p _ _ _ Eq Hq Hpl) as (-> & -> & ->). rewrite Hn. by split_and!.
    - destruct (git_checkout p _ _ _ Eq Hq Hpl) as ((x & Hx & ->) & -> & ->). rewrite HR in Hx. rewrite Hx. by split_and!. }
  destruct (IH s1 s' R H1 He E2) as (H4 & H5 & H6). split_and!; [done|congruence|]. intros f. rewrite H6, H3.
  destruct (decide (f = p)) as [->|Hne].
  - rewrite lookup_partial_alter_eq. rewrite (decide_True (P := p ∈ p :: _)) by left. by destruct (decide _).
  - rewrite lookup_partial_alter_ne by done. destruct (decide (f ∈ map snd entries)).
    + by rewrite decide_True by by right.
    + rewrite decide_False; [done|]. rewrite elem_of_cons. by intros [|].
Qed.

(** C34: a rollback restores the known-good tree, when git quotes none of the
    names of the files changed since: a reveal that returns has either left the
    repository as it was (0) or has made the files, the index and a new commit
    equal to the tree of the known-good revision (2 and 3), whichever files were
    added, changed or deleted.  A file whose name git quotes may stay
    ([quoted_name_not_restored]). *)
Theorem rollback_restores_tree base_url s z s' :
  (∀ f, at_rev rev (bx s) !! f ≠ head (bx s) !! f → plain_path f) →
  reveal rev repo base_url s = (Ret z, s') →
  (z = 0%Z ∧ same_repo rev (bx s) (bx s')) ∨
  ((z = 2%Z ∨ z = 3%Z) ∧ tree (bx s') = at_rev rev (bx s) ∧ head (bx s') = at_rev rev (bx s)).
Proof using All.
  intros Hpl E. rewrite reveal_parts in E. apply M_bind_Ret in E as (ns & s1 & Eg & E).
  destruct (gather_Ret s ns s1 Hpl Eg) as (Hclean & entries & -> & He & Hin).
  pose proof (still_gather s) as Hs1. rewrite Eg in Hs1. cbn [snd] in Hs1. unfold after_gather in E.
  set (ns := map _ entries) in *. destruct (any (changed ns)); cbn [negb] in E; [|injection E as <- <-; by left].
  unfold try_except in E. destruct ((_apply_reveal (changed ns) repo (resolve_base base_url);; mret 0%Z) s1) as [r s2] eqn:Ea.
  assert (same_tree s s2) as Hs2.
  { etrans; [exact Hs1|]. pose proof (stepwise_bind same_tree _ (λ _, mret 0%Z) (still_apply (changed ns) (resolve_base base_url)) (λ _, stepwise_ret _ _) s1) as Hb.
    by rewrite Ea in Hb. }
  destruct r as [z'|[]]; try done.
  { left. injection E as <- <-. split; [|done]. apply M_bind_Ret in Ea as ([] & s3 & _ & Ea). by injection Ea. }
  apply M_bind_Ret in E as ([] & s3 & Er & E). apply M_bind_Ret in E as ([] & s4 & Ec & E). apply M_bind_Ret in E as (ok & s5 & Eo & E).
  right. split; [destruct ok; injection E as <- _; auto|]. assert (bx s' = bx s5) as -> by (by destruct ok; injection E as _ <-).
  destruct Hs2 as (Ht2 & Hh2 & Hr2).
  destruct (restore_tree entries s2 s3 (at_rev rev (bx s)) Hr2) as (H1 & H2 & H3); [|exact Er|].
  { rewrite Forall_forall in He |- *. intros e Hein. split; [by apply He|]. apply Hpl, Hin, list_elem_of_fmap. by exists e. }
  assert (tree (bx s3) = at_rev rev (bx s)) as H4.
  { apply map_eq. intros f. rewrite H3, Ht2, Hclean. destruct (decide _) as [|Hn]; [done|]. rewrite Hin in Hn. symmetry.
    destruct (decide (at_rev rev (bx s) !! f = head (bx s) !! f)); [done|by destruct Hn]. }
  unfold _commit_rollback in Ec. apply M_bind_Ret in Ec as (p & s6 & Ec & [= ->]). apply check_run_Ret in Ec as [Hp Ec].
  destruct (git_commit _ _ _ _ Ec Hp) as (H5 & H6 & H7).
  pose proof (still_recover (changed ns) (resolve_base base_url) live_service_restarted s4) as Hs5. rewrite Eo in Hs5. cbn [snd] in Hs5.
  destruct Hs5 as (H8 & H9 & _). split; congruence.
Qed.
End rollback.
