(* ===== verification/PreviewFacts.v ===== *)
(** * What a preview leaves behind

    The log of [preview] and [unpreview] read as the servers that are up and the
    routes that lead to them: a preview that fails takes down all it set up, and
    [unpreview] takes down what a preview that came up has recorded. *)

From Stdlib Require Import NArith ZArith QArith Lia.
From S2P Require Import Prelude PyStr PyJson PyDumps PyMonad PyBytes PyPath PyFs Reveal RevealFacts.
From stdpp Require Import options.
#[global] Open Scope nat_scope.
#[local] Open Scope py_scope.

(** What a log of commands has set up and not taken down: process groups, by their
    name on the command line of [kill], and services.  A server counts from when it
    is started, a route from when its command succeeded; both count until the
    command that takes them down is run, whatever it exits with. *)
Record held := { groups : gset pystr; routes : gset pystr }.
Definition group (pid : Z) : pystr := u "-" ++ str_of_Z pid.
Definition hold_step (h : held) (a : action) : held :=
  match a with
  | Detached _ pid => {| groups := {[ group pid ]} ∪ groups h; routes := routes h |}
  | Ran [kill; term; g] _ _ => if (kill =? u "kill") && (term =? u "-TERM") then {| groups := groups h ∖ {[ g ]}; routes := routes h |} else h
  | Ran [_; _; _; _; flag; _; service] _ _ =>
      if flag =? u "--remove" then {| groups := groups h; routes := routes h ∖ {[ service ]} |} else h
  | Ran [_; _; _; _; flag; service; url; _] _ rc =>
      if (flag =? u "--name") && (url =? u "--url") && bool_decide (rc = Some 0%Z)
      then {| groups := groups h; routes := {[ service ]} ∪ routes h |} else h
  | _ => h
  end.
Definition nothing : held := {| groups := ∅; routes := ∅ |}.
Definition hold_of (l : list action) : held := fold_left hold_step l nothing.
Definition of_lists (ps : list Z) (ss : list pystr) : held := {| groups := list_to_set (map group ps); routes := list_to_set ss |}.

Lemma held_eq h h' : groups h = groups h' → routes h = routes h' → h = h'.
Proof. destruct h, h'; cbn. by intros -> ->. Qed.
Lemma hold_kill `{JsonRepr} h v dir rc :
  hold_step h (Ran (kill_argv v) dir rc) = {| groups := groups h ∖ {[ u "-" ++ pid_str v ]}; routes := routes h |}.
Proof. reflexivity. Qed.
Lemma hold_remove h service dir rc :
  hold_step h (Ran (remove_argv service) dir rc) = {| groups := groups h; routes := routes h ∖ {[ service ]} |}.
Proof. reflexivity. Qed.
Lemma hold_register h service url dir rc :
  hold_step h (Ran (register_argv service url) dir rc) =
  if bool_decide (rc = Some 0%Z) then {| groups := groups h; routes := {[ service ]} ∪ routes h |} else h.
Proof. reflexivity. Qed.
Lemma nothing_minus g r : {| groups := groups nothing ∖ g; routes := routes nothing ∖ r |} = nothing.
Proof. apply held_eq; cbn; set_solver. Qed.

Section preview.
Context (cwd : loc) `{HB : Box} `{JsonRepr} `{PyRepr}.
Implicit Types s : rstate.

(** ** What the steps write *)

Abbreviation hold_from := (fold_left hold_step).
Lemma writes_run argv dir :
  writes log (run argv dir) (λ l r, ∃ rc, l = [Ran argv dir rc] ∧ ∀ p, r = Ret p → rc = Some (returncode p)).
Proof.
  intros s r s'. unfold run, mbind, M_bind, step. destruct (run_cmd argv dir (bx s)) as [o b]. cbn. intros E.
  exists [Ran argv dir match o with Ret p => Some (returncode p) | Raise _ => None end].
  injection E as <- <-. split; [done|]. eexists. split; [done|]. by intros p ->.
Qed.
Lemma writes_silent {A} (m : M rstate A) (P : list action → outcome A → Prop) :
  (∀ s, log (m s).2 = log s) → (∀ r, P [] r) → writes log m P.
Proof. intros Hm HP s r s' E. exists []. specialize (Hm s). rewrite E in Hm. by rewrite app_nil_r. Qed.

(** Taking down a list of servers and a list of routes. *)
Definition takes_down (ps : list pystr) (ss : list pystr) (l : list action) : Prop :=
  ∀ h, hold_from l h = {| groups := groups h ∖ list_to_set ps; routes := routes h ∖ list_to_set ss |}.
Lemma takes_down_nil : takes_down [] [] [].
Proof. intros h. apply held_eq; cbn; set_solver. Qed.
Lemma takes_down_app ps ss ps' ss' l l' : takes_down ps ss l → takes_down ps' ss' l' → takes_down (ps ++ ps') (ss ++ ss') (l ++ l').
Proof. intros H1 H2 h. rewrite fold_left_app, H1, H2. apply held_eq; cbn; set_solver. Qed.
(** [m] takes down some of them, and all if it does not raise. *)
Definition downs {A} (m : M rstate A) (ps ss : list pystr) : Prop :=
  writes log m (λ l r, ∃ ps' ss', takes_down ps' ss' l ∧ (is_Ret r = true → ps' = ps ∧ ss' = ss)).

Lemma downs_ret {A} (a : A) : downs (mret a) [] [].
Proof. apply writes_ret. exists [], []. split; [apply takes_down_nil|done]. Qed.
Lemma downs_bind {A B} (m : M rstate A) (k : A → M rstate B) ps ss ps' ss' :
  downs m ps ss → (∀ a, downs (k a) ps' ss') → downs (m ≫= k) (ps ++ ps') (ss ++ ss').
Proof.
  intros Hm Hk. eapply writes_bind; [exact Hm| |].
  - intros l e (p1 & s1 & H1 & _). exists p1, s1. split; [done|]. by intros [=].
  - intros l a (p1 & s1 & H1 & H2). destruct (H2 eq_refl) as [-> ->]. eapply writes_conseq; [apply Hk|].
    intros l' r (p2 & s2 & H3 & H4). exists (ps ++ p2), (ss ++ s2). split; [by apply takes_down_app|].
    intros Hr. by destruct (H4 Hr) as [-> ->].
Qed.
Lemma downs_for {X} (f : X → M rstate unit) (g : X → list pystr * list pystr) xs :
  (∀ x, downs (f x) (g x).1 (g x).2) → downs (for_each xs f) (concat (map (λ x, (g x).1) xs)) (concat (map (λ x, (g x).2) xs)).
Proof. intros Hf. induction xs as [|x xs IH]; [apply downs_ret|]. cbn [for_each map concat]. by apply downs_bind. Qed.
Lemma downs_silent {A} (m : M rstate A) : (∀ s, log (m s).2 = log s) → downs m [] [].
Proof. intros Hm. apply writes_silent; [done|]. intros r. exists [], []. split; [apply takes_down_nil|done]. Qed.
Lemma downs_kill v repo : downs (run (kill_argv v) repo;; mret tt) [u "-" ++ pid_str v] [].
Proof.
  apply (downs_bind _ _ [_] [] [] []); [|intros _; apply downs_ret]. eapply writes_conseq; [apply writes_run|].
  intros l r (rc & -> & _). exists [u "-" ++ pid_str v], []. split; [|done]. intros h. cbn [fold_left]. rewrite hold_kill.
  apply held_eq; cbn; set_solver.
Qed.
Lemma downs_remove service repo : downs (run (remove_argv service) repo;; mret tt) [] [service].
Proof.
  apply (downs_bind _ _ [] [service] [] []); [|intros _; apply downs_ret]. eapply writes_conseq; [apply writes_run|].
  intros l r (rc & -> & _). exists [], [service]. split; [|done]. intros h. cbn [fold_left]. rewrite hold_remove.
  apply held_eq; cbn; set_solver.
Qed.

(** [_teardown_preview] of the values read from a state file. *)
Definition group_of (v : json) : pystr := u "-" ++ pid_str v.
Definition name_of (v : json) : list pystr := match v with JStr t => [t] | _ => [] end.
Definition items (v : json) : list json := match iter_json v with Ret l => l | Raise _ => [] end.
Lemma concat_nil {X Y} (l : list X) : concat (map (λ _, @nil Y) l) = [].
Proof. by induction l. Qed.
Lemma concat_one {X Y} (f : X → Y) (l : list X) : concat (map (λ x, [f x]) l) = map f l.
Proof. induction l as [|x l IH]; [done|]. cbn. by rewrite IH. Qed.
Lemma downs_lift {A B} (r : outcome A) (k : A → M rstate B) ps ss :
  (∀ a, r = Ret a → downs (k a) ps ss) → downs (lift r ≫= k) ps ss.
Proof.
  intros Hk. destruct r as [a|e]; [by apply Hk|]. intros s r s' [= <- <-]. exists []. rewrite app_nil_r.
  split; [done|]. exists [], []. split; [apply takes_down_nil|done].
Qed.
Lemma downs_teardown repo ps ss :
  downs (_teardown_preview repo ps ss) (map group_of (items ps)) (concat (map name_of (items ss))).
Proof.
  unfold _teardown_preview. apply downs_lift. intros l1 E1. unfold items. rewrite E1.
  rewrite <- (app_nil_r (map group_of l1)). change (concat ?x) with ([] ++ concat x). apply downs_bind.
  - pose proof (downs_for (λ v, run (kill_argv v) repo;; mret tt) (λ v, ([group_of v], [])) l1) as Hd. cbn [fst snd] in Hd.
    rewrite concat_nil, concat_one in Hd. apply Hd. intros v. apply downs_kill.
  - intros []. apply downs_lift. intros l2 E2. rewrite E2.
    pose proof (downs_for (λ v, name ← lift (need_str v); run (remove_argv name) repo;; mret tt) (λ v, ([], name_of v)) l2) as Hd. cbn [fst snd] in Hd.
    rewrite concat_nil in Hd. apply Hd. intros v. apply downs_lift. intros t Et. destruct v; try done. injection Et as ->. apply downs_remove.
Qed.

(** From nothing, taking down leads nowhere. *)
Lemma takes_down_nothing ps ss l : takes_down ps ss l → hold_of l = nothing.
Proof. intros Ht. unfold hold_of. rewrite Ht. apply nothing_minus. Qed.
Lemma on_disk_log {A} (m : M fs A) s : log (on_disk m s).2 = log s.
Proof. unfold on_disk. by destruct (m (files s)). Qed.
Lemma unpreview_downs slug repo :
  writes log (unpreview cwd slug repo) (λ l _, hold_of l = nothing).
Proof.
  unfold unpreview. apply writes_gets_bind. intros []; cbn [negb]; [|by apply writes_ret].
  apply writes_gets_bind. intros text. destruct (t ← text; _) as [state|e].
  2: { destruct (is_OSError e); [by apply writes_ret|by apply writes_raise]. }
  intros s r s' E.
  assert (downs (pids ← lift (recorded "pids" "pid" state); services ← lift (recorded "services" "service" state);
                 _teardown_preview repo pids services;; on_disk (rmtree cwd (_preview_state_dir repo slug));; mret 0%Z)
    (map group_of (items match recorded "pids" "pid" state with Ret v => v | Raise _ => JNull end))
    (concat (map name_of (items match recorded "services" "service" state with Ret v => v | Raise _ => JNull end)))) as Hd.
  { apply downs_lift. intros ps ->. apply downs_lift. intros ss ->.
    rewrite <- (app_nil_r (map _ _)), <- (app_nil_r (concat _)). apply downs_bind; [apply downs_teardown|]. intros [].
    apply (downs_bind _ _ [] [] [] []); [apply downs_silent; intros; apply on_disk_log|]. intros []. apply downs_ret. }
  destruct (Hd _ _ _ E) as (l & H1 & ps & ss & H2 & _). exists l. split; [done|]. by eapply takes_down_nothing.
Qed.

(** ** Standing up *)

Context (start : list action).
(** Since [start], what is up is what the locals record, with [ps] and [ss]. *)
Definition holds (ps : list Z) (ss : list pystr) s : Prop :=
  ∃ l, log s = start ++ l ∧ hold_of l = of_lists (pids s ++ ps) (services s ++ ss).
Definition keeps {A} (m : M rstate A) : Prop := ∀ ps ss, triple (holds ps ss) m (λ _, holds ps ss).

Lemma keeps_bind {A B} (m : M rstate A) (k : A → M rstate B) : keeps m → (∀ a, keeps (k a)) → keeps (m ≫= k).
Proof.
  intros Hm Hk ps ss. eapply triple_bind; [|intros a; apply Hk]. eapply triple_conseq; [apply (Hm ps ss)|done|]. by intros [a|e] s.
Qed.
Lemma keeps_ret {A} (a : A) : keeps (mret a). Proof. intros ps ss. by apply triple_ret. Qed.
Lemma keeps_raise {A} e : keeps (raise e : M rstate A). Proof. intros ps ss. by apply triple_raise. Qed.
Lemma keeps_lift {A} (r : outcome A) : keeps (lift r). Proof. by intros ps ss s. Qed.
Lemma keeps_step {A} (m : box → A * box) : keeps (step m).
Proof. intros ps ss s Hs. unfold step. by destruct (m (bx s)). Qed.
Lemma keeps_on_disk {A} (m : M fs A) : keeps (on_disk m).
Proof. intros ps ss s Hs. unfold on_disk. by destruct (m (files s)). Qed.
Lemma note_holds a ps ss ps' ss' s :
  (∀ h, h = of_lists (pids s ++ ps) (services s ++ ss) → hold_step h a = of_lists (pids s ++ ps') (services s ++ ss')) →
  holds ps ss s → holds ps' ss' (note a s).2.
Proof. intros Ha (l & H1 & H2). exists (l ++ [a]). cbn. rewrite H1, app_assoc. split; [done|]. unfold hold_of. rewrite fold_left_app. by apply Ha. Qed.
Lemma keeps_wait url n d : keeps (wait_healthy url n d).
Proof.
  induction n as [|n IH]; cbn [wait_healthy]; [apply keeps_ret|]. apply keeps_bind.
  - apply keeps_bind; [apply keeps_step|]. intros r. apply keeps_bind; [|intros []; apply keeps_lift].
    intros ps ss s. by apply note_holds; intros h ->.
  - intros st. case_bool_decide; [apply keeps_ret|]. apply keeps_bind; [|intros []; exact IH].
    unfold when. destruct (0 <? n)%nat; [apply keeps_step|apply keeps_ret].
Qed.

Lemma of_lists_group pid ps ss : {| groups := {[ group pid ]} ∪ groups (of_lists ps ss); routes := routes (of_lists ps ss) |} = of_lists (ps ++ [pid]) ss.
Proof. apply held_eq; cbn; [|done]. rewrite map_app, list_to_set_app_L. cbn. set_solver. Qed.
Lemma of_lists_route service ps ss : {| groups := groups (of_lists ps ss); routes := {[ service ]} ∪ routes (of_lists ps ss) |} = of_lists ps (ss ++ [service]).
Proof. apply held_eq; cbn; [done|]. rewrite list_to_set_app_L. cbn. set_solver. Qed.

(** Sequences of steps after which an exception leaves nothing unrecorded. *)
Definition recording {A} (I : rstate → Prop) (m : M rstate A) (R : A → rstate → Prop) : Prop :=
  triple I m (λ r, match r with Ret a => R a | Raise _ => holds [] [] end).
Lemma recording_bind {A B} I (m : M rstate A) (k : A → M rstate B) R Q :
  recording I m R → (∀ a, recording (R a) (k a) Q) → recording I (m ≫= k) Q.
Proof. intros Hm Hk. eapply triple_bind; [|exact Hk]. eapply triple_conseq; [exact Hm|done|]. by intros [a|e] s. Qed.
Lemma recording_keeps {A} (m : M rstate A) : keeps m → recording (holds [] []) m (λ _, holds [] []).
Proof. intros Hm. eapply triple_conseq; [apply (Hm [] [])|done|]. by intros [a|e] s. Qed.
Lemma recording_ret {A} (a : A) I : recording I (mret a) (λ _, I).
Proof. by apply triple_ret. Qed.

Lemma spawn_holds argv dir env l : recording (holds [] []) (spawn_detached cwd argv dir env l) (λ pid, holds [pid] []).
Proof.
  unfold spawn_detached. eapply recording_bind; [apply recording_keeps, keeps_on_disk|]. intros [].
  eapply recording_bind; [apply recording_keeps, keeps_step|]. intros r.
  eapply recording_bind; [apply recording_keeps, keeps_lift|]. intros pid.
  apply recording_bind with (λ _, holds [pid] []); [|intros []; apply recording_ret].
  intros s Hs. cbn [note fst]. apply (note_holds (Detached argv pid) [] []); [|done]. intros h ->. rewrite !app_nil_r. apply of_lists_group.
Qed.
Lemma add_pid_holds pid : recording (holds [pid] []) (add_pid pid) (λ _, holds [] []).
Proof. intros s (l & H1 & H2). exists l. cbn. split; [done|]. by rewrite !app_nil_r in *. Qed.
Lemma add_service_holds service : recording (holds [] [service]) (add_service service) (λ _, holds [] []).
Proof. intros s (l & H1 & H2). exists l. cbn. split; [done|]. by rewrite !app_nil_r in *. Qed.
Lemma register_holds service url repo what b :
  recording (holds [] []) (_run_checked (register_argv service url) repo what b) (λ _, holds [] [service]).
Proof.
  unfold _run_checked, run. intros s Hs. unfold mbind, M_bind, step, note, modify, lift.
  destruct (run_cmd (register_argv service url) repo (bx s)) as [[p|e] bx']; cbn [fst snd].
  - cbn [bx log pids services with_box]. destruct (Z.eqb_spec (returncode p) 0) as [Hz|Hz]; cbn [fst snd mret M_ret raise].
    + apply (note_holds (Ran (register_argv service url) repo (Some (returncode p))) [] [] [] [service] (with_box bx' s)); [|exact Hs].
      intros h ->. rewrite hold_register, Hz, bool_decide_true, !app_nil_r by done. apply of_lists_route.
    + apply (note_holds (Ran (register_argv service url) repo (Some (returncode p))) [] [] [] [] (with_box bx' s)); [|exact Hs].
      intros h ->. rewrite hold_register, bool_decide_false by congruence. done.
  - by apply (note_holds (Ran (register_argv service url) repo None) [] [] [] [] (with_box bx' s)); [intros h ->; rewrite hold_register|exact Hs].
Qed.

Lemma serve_holds argv dir env l port probe service what failed repo :
  recording (holds [] []) (serve cwd argv dir env l port probe service what failed repo) (λ _, holds [] []).
Proof.
  unfold serve. eapply recording_bind; [apply spawn_holds|]. intros pid.
  eapply recording_bind; [apply add_pid_holds|]. intros [].
  eapply recording_bind; [apply recording_keeps, keeps_wait|]. intros []; cbn [negb]; [|by apply triple_raise].
  eapply recording_bind; [apply register_holds|]. intros []. apply add_service_holds.
Qed.
Lemma stand_up_holds slug work_dir dir state_dir repo :
  recording (holds [] []) (stand_up cwd slug work_dir dir state_dir repo) (λ _, holds [] []).
Proof.
  unfold stand_up. assert (keeps find_free_port) as Hport by (apply keeps_bind; [apply keeps_step|apply keeps_lift]).
  eapply recording_bind; [by apply recording_keeps|]. intros port.
  eapply recording_bind; [apply serve_holds|]. intros [].
  eapply recording_bind; [by apply recording_keeps|]. intros port2.
  eapply recording_bind; [apply serve_holds|]. intros [].
  eapply recording_bind; [apply recording_keeps; by intros ps ss s|]. intros d. apply recording_keeps, keeps_on_disk.
Qed.

(** ** What a preview that came up has recorded *)

Definition same_locals s s' : Prop := pids s' = pids s ∧ services s' = services s.
#[local] Instance same_locals_preorder : PreOrder same_locals.
Proof. split; [by intros s|]. intros s1 s2 s3 [H1 H2] [H3 H4]. split; congruence. Qed.
Lemma locals_step {A} (m : box → A * box) : stepwise same_locals (step m).
Proof. intros s. unfold step. by destruct (m (bx s)). Qed.
Lemma locals_on_disk {A} (m : M fs A) : stepwise same_locals (on_disk m).
Proof. intros s. unfold on_disk. by destruct (m (files s)). Qed.
Local Ltac locals_go := stepwise_go ltac:(idtac; first [apply locals_step|apply locals_on_disk|by intros ?]).
Lemma locals_spawn argv dir env l : stepwise same_locals (spawn_detached cwd argv dir env l).
Proof. unfold spawn_detached. locals_go. Qed.
Lemma locals_checked argv dir what b : stepwise same_locals (_run_checked argv dir what b).
Proof. unfold _run_checked, run. locals_go. Qed.
Lemma locals_wait url n d : stepwise same_locals (wait_healthy url n d).
Proof. induction n as [|n IH]; cbn [wait_healthy]; unfold get_status, sleeper; locals_go. Qed.
Lemma locals_port : stepwise same_locals find_free_port.
Proof. unfold find_free_port. locals_go. Qed.
(** What a step leaves of the locals. *)
Lemma stepwise_Ret {A} (R : rstate → rstate → Prop) (m : M rstate A) s a s' : stepwise R m → m s = (Ret a, s') → R s s'.
Proof. intros Hm E. specialize (Hm s). by rewrite E in Hm. Qed.

Lemma serve_Ret argv dir env l port probe service what failed repo s s' :
  serve cwd argv dir env l port probe service what failed repo s = (Ret tt, s') →
  ∃ pid, pids s' = pids s ++ [pid] ∧ services s' = services s ++ [service].
Proof.
  unfold serve. intros (pid & s1 & E1 & ([] & s2 & E2 & (ok & s3 & E3 & E)%M_bind_Ret)%M_bind_Ret)%M_bind_Ret. exists pid.
  apply (stepwise_Ret _ _ _ _ _ (locals_spawn _ _ _ _)) in E1 as [H1 H2]. injection E2 as <-.
  apply (stepwise_Ret _ _ _ _ _ (locals_wait _ _ _)) in E3 as [H3 H4]. cbn in H3, H4. destruct ok; [|done]. cbn [negb] in E.
  apply M_bind_Ret in E as ([] & s4 & E4 & E). apply (stepwise_Ret _ _ _ _ _ (locals_checked _ _ _ _)) in E4 as [H5 H6].
  injection E as <-. cbn. split; congruence.
Qed.
Lemma stand_up_Ret slug work_dir dir state_dir repo s s' :
  pids s = [] → services s = [] → stand_up cwd slug work_dir dir state_dir repo s = (Ret tt, s') →
  ∃ p1 p2 port1 port2 s0 f, pids s' = [p1; p2] ∧ services s' = [PREVIEW_INNER_SERVICE_NAME; PREVIEW_SERVICE_NAME] ∧
    pids s0 = pids s' ∧ services s0 = services s' ∧ bx s' = set_disk f (bx s0) ∧
    write_text_to cwd (_preview_state_path repo slug) (dumps_indent 0 (JObj (saved_state slug work_dir state_dir port1 port2 s0))) (files s0) = (Ret tt, f).
Proof.
  intros Hp Hs. unfold stand_up. intros (port1 & s1 & E1 & ([] & s2 & E2 & E)%M_bind_Ret)%M_bind_Ret.
  apply M_bind_Ret in E as (port2 & s3 & E3 & ([] & s4 & E4 & (d & s5 & E5 & E)%M_bind_Ret)%M_bind_Ret).
  apply (stepwise_Ret _ _ _ _ _ locals_port) in E1 as [H1 H2]. apply serve_Ret in E2 as (p1 & H3 & H4).
  apply (stepwise_Ret _ _ _ _ _ locals_port) in E3 as [H5 H6]. apply serve_Ret in E4 as (p2 & H7 & H8).
  injection E5 as <- <-. unfold on_disk in E. destruct (write_text_to cwd _ _ (files s4)) as [r f] eqn:Ew. injection E as -> <-.
  assert (pids s4 = [p1; p2]) as Hp4 by (by rewrite H7, H5, H3, H1, Hp).
  assert (services s4 = [PREVIEW_INNER_SERVICE_NAME; PREVIEW_SERVICE_NAME]) as Hs4 by (by rewrite H8, H6, H4, H2, Hs).
  by exists p1, p2, port1, port2, s4, f.
Qed.

Lemma saved_storable slug work_dir state_dir port1 port2 s p1 p2 :
  pids s = [p1; p2] → services s = [PREVIEW_INNER_SERVICE_NAME; PREVIEW_SERVICE_NAME] →
  storable slug = true → storable work_dir = true →
  storable (path_str (child state_dir PREVIEW_LOG_FILENAME)) = true → storable (path_str (child state_dir PREVIEW_WRAPPER_LOG_FILENAME)) = true →
  storable_json (JObj (saved_state slug work_dir state_dir port1 port2 s)).
Proof.
  intros Hp Hs H1 H2 H3 H4. unfold saved_state. rewrite Hp, Hs. split; [apply (bool_decide_unpack _); vm_compute; exact I|].
  cbn [foldr fst snd storable_json map]. by rewrite H1, H2, H3, H4.
Qed.

(** The state file is what the next [unpreview] reads. *)
Lemma unpreview_reads slug repo s state :
  exists_ cwd (_preview_state_path repo slug) (files s) = true →
  read_text_of cwd (_preview_state_path repo slug) (files s) = Ret (dumps_indent 0 (JObj state)) → storable_json (JObj state) →
  unpreview cwd slug repo s =
    (pids ← lift (recorded "pids" "pid" (JObj state)); services ← lift (recorded "services" "service" (JObj state));
     _teardown_preview repo pids services;; on_disk (rmtree cwd (_preview_state_dir repo slug));; mret 0%Z) s.
Proof.
  intros He Hr Hst. unfold unpreview. erewrite M_bind_ret by reflexivity. rewrite He. cbn [negb]. erewrite M_bind_ret by reflexivity.
  rewrite Hr. cbn [mbind outcome_bind]. by rewrite loads_dumps_indent.
Qed.
End preview.

Section theorems.
Context (cwd : loc) `{HB : Box} `{JsonRepr} `{PyRepr}.

(** The handler of [preview]: what the locals record is taken down. *)
Abbreviation handler s repo state_dir :=
  (_teardown_preview repo (JList (map JInt (pids s))) (JList (map JStr (services s)));; on_disk (rmtree cwd state_dir);; mret 1%Z).
Lemma handler_downs s repo state_dir : downs (handler s repo state_dir) (map group (pids s)) (services s).
Proof.
  pose proof (downs_teardown repo (JList (map JInt (pids s))) (JList (map JStr (services s)))) as Hd. unfold items in Hd. cbn [iter_json] in Hd.
  rewrite !map_map in Hd. cbn [name_of] in Hd. rewrite concat_one, map_id in Hd.
  assert (downs (on_disk (rmtree cwd state_dir);; mret 1%Z) [] []) as Ht.
  { apply (downs_bind _ _ [] [] [] []); [apply downs_silent; intros; apply on_disk_log|]. intros []. apply downs_ret. }
  pose proof (downs_bind _ (λ _, on_disk (rmtree cwd state_dir);; mret 1%Z) _ _ _ _ Hd (λ _, Ht)) as Hb. by rewrite !app_nil_r in Hb.
Qed.

(** [preview] once the work directory is there: what was stale is taken down, and
    the servers are stood up from nothing. *)
Lemma preview_cases slug work_dir repo s z s' :
  let state_dir := _preview_state_dir repo slug in
  let up := stand_up cwd slug work_dir (child (path_of work_dir) APP_DIR) state_dir repo in
  preview cwd slug work_dir repo s = (Ret z, s') →
  (z = 1%Z ∧ s' = s) ∨
  ∃ l t, log t = log s ++ l ∧ hold_of l = nothing ∧ pids t = [] ∧ services t = [] ∧
    ((z = 0%Z ∧ up t = (Ret tt, s')) ∨ ∃ e t', z = 1%Z ∧ up t = (Raise e, t') ∧ handler t' repo state_dir t' = (Ret z, s')).
Proof.
  intros state_dir up. unfold preview. fold state_dir. fold up. intros E. erewrite M_bind_ret in E by reflexivity.
  destruct (is_dir cwd _ (files s)); cbn [negb] in E; [|injection E as <- <-; by left].
  right. apply M_bind_Ret in E as (z0 & t1 & E1 & ([] & t2 & E2 & ([] & t3 & E3 & E)%M_bind_Ret)%M_bind_Ret).
  destruct (unpreview_downs cwd slug repo s _ _ E1) as (l & H1 & H2).
  pose proof (on_disk_log (mkdirs cwd state_dir) t1) as H3. rewrite E2 in H3. cbn [snd] in H3. injection E3 as <-.
  set (t3 := {| bx := bx t2; log := log t2; pids := []; services := [] |}) in *.
  exists l, t3. split; [by rewrite <- H1, <- H3|]. split_and!; [done..|]. unfold try_except in E.
  destruct (up t3) as [[[]|e] t4] eqn:Eu.
  - left. erewrite M_bind_ret in E by exact Eu. by injection E as <- <-.
  - right. exists e, t4. erewrite M_bind_raise in E by exact Eu. destruct (reveal_or_os e); [|done].
    erewrite M_bind_ret in E by reflexivity. erewrite M_bind_ret in E by reflexivity.
    split; [|done]. by apply M_bind_Ret in E as ([] & t5 & _ & ([] & t6 & _ & [= <- _])%M_bind_Ret).
Qed.

(** C29: a preview that returns is up entirely or taken down.  If it returns 1,
    nothing was touched, or the command that kills it was run for every server it
    started, after it was started, and the command that removes it for every route
    it registered, after it was registered; if it returns 0, it has started two
    servers and registered the two routes that it ran no such command for.  What
    those commands achieve is theirs.  A preview that ends by an exception it does
    not catch leaves up what it has started. *)
Theorem preview_all_or_nothing slug work_dir repo s z s' :
  preview cwd slug work_dir repo s = (Ret z, s') →
  (z = 1%Z ∧ s' = s) ∨
  ∃ l, log s' = log s ++ l ∧
    ((z = 1%Z ∧ hold_of l = nothing) ∨
     (z = 0%Z ∧ ∃ p1 p2, hold_of l = of_lists [p1; p2] [PREVIEW_INNER_SERVICE_NAME; PREVIEW_SERVICE_NAME])).
Proof.
  intros [?|(l & t & H1 & H2 & H3 & H4 & E)]%preview_cases; [by left|right].
  assert (holds (log s) [] [] t) as Hh by (exists l; by rewrite H1, H2, H3, H4).
  pose proof (stand_up_holds cwd (log s) slug work_dir (child (path_of work_dir) APP_DIR) (_preview_state_dir repo slug) repo t Hh) as Hup.
  destruct E as [[-> Eu]|(e & t' & -> & Eu & Eh)]; rewrite Eu in Hup; destruct Hup as (l' & H5 & H6); cbn [fst snd] in *; rewrite !app_nil_r in H6.
  - exists l'. split; [done|]. right. split; [done|].
    destruct (stand_up_Ret cwd _ _ _ _ _ t s' H3 H4 Eu) as (p1 & p2 & _ & _ & _ & _ & Hp & Hs & _).
    exists p1, p2. by rewrite H6, Hp, Hs.
  - destruct (handler_downs _ _ _ _ _ _ Eh) as (l2 & H7 & ps & ss & H8 & H9). destruct (H9 eq_refl) as [-> ->].
    exists (l' ++ l2). split; [by rewrite H7, H5, app_assoc|]. left. split; [done|].
    unfold hold_of. rewrite fold_left_app. fold (hold_of l'). rewrite H6, H8. apply held_eq; cbn; set_solver.
Qed.

(** C23: [unpreview] undoes [preview].  Run after a preview that came up, it finds
    the state file, kills the two servers and removes the two routes that the
    preview set up: from the start of the preview on, nothing is left over. *)
Theorem unpreview_undoes_preview slug work_dir repo s s1 z s2 :
  (∀ f b, disk (set_disk f b) = f) → storable slug = true → storable work_dir = true →
  storable (path_str (child (_preview_state_dir repo slug) PREVIEW_LOG_FILENAME)) = true →
  storable (path_str (child (_preview_state_dir repo slug) PREVIEW_WRAPPER_LOG_FILENAME)) = true →
  preview cwd slug work_dir repo s = (Ret 0%Z, s1) → unpreview cwd slug repo s1 = (Ret z, s2) →
  z = 0%Z ∧ ∃ p1 p2 l1 l2, log s1 = log s ++ l1 ∧ log s2 = log s1 ++ l2 ∧
    hold_of l1 = of_lists [p1; p2] [PREVIEW_INNER_SERVICE_NAME; PREVIEW_SERVICE_NAME] ∧
    takes_down [group p1; group p2] [PREVIEW_INNER_SERVICE_NAME; PREVIEW_SERVICE_NAME] l2 ∧ hold_of (l1 ++ l2) = nothing.
Proof.
  intros Hd S1 S2 S3 S4 [[[=] _]|(l & t & H1 & H2 & H3 & H4 & [[_ Eu]|(e & t' & [=] & _)])]%preview_cases E2.
  assert (holds (log s) [] [] t) as Hh by (exists l; by rewrite H1, H2, H3, H4).
  pose proof (stand_up_holds cwd (log s) slug work_dir (child (path_of work_dir) APP_DIR) (_preview_state_dir repo slug) repo t Hh) as Hup.
  rewrite Eu in Hup. destruct Hup as (l1 & H5 & H6). cbn [fst snd] in *. rewrite !app_nil_r in H6.
  destruct (stand_up_Ret cwd _ _ _ _ _ t s1 H3 H4 Eu) as (p1 & p2 & port1 & port2 & s0 & f & Hp & Hs & Hp0 & Hs0 & Hb & Hw).
  rewrite Hp, Hs in H6. rewrite Hp in Hp0. rewrite Hs in Hs0.
  pose proof (saved_storable slug work_dir (_preview_state_dir repo slug) port1 port2 s0 p1 p2 Hp0 Hs0 S1 S2 S3 S4) as Hst.
  destruct (write_text_read cwd _ _ _ _ (text_dumps_indent _ 0 Hst) Hw) as [Hr He].
  assert (files s1 = f) as Hf by (unfold files; by rewrite Hb, Hd). rewrite <- Hf in Hr, He.
  rewrite (unpreview_reads cwd slug repo s1 _ He Hr Hst) in E2.
  assert (downs (_teardown_preview repo (JList [JInt p1; JInt p2]) (JList [JStr PREVIEW_INNER_SERVICE_NAME; JStr PREVIEW_SERVICE_NAME]);;
                 on_disk (rmtree cwd (_preview_state_dir repo slug));; mret 0%Z) [group p1; group p2]
                [PREVIEW_INNER_SERVICE_NAME; PREVIEW_SERVICE_NAME]) as Hdn.
  { apply (downs_bind _ _ [_; _] [_; _] [] []); [exact (downs_teardown repo (JList [JInt p1; JInt p2]) (JList [JStr PREVIEW_INNER_SERVICE_NAME; JStr PREVIEW_SERVICE_NAME]))|].
    intros []. apply (downs_bind _ _ [] [] [] []); [apply downs_silent; intros; apply on_disk_log|]. intros []. apply downs_ret. }
  assert (recorded "pids" "pid" (JObj (saved_state slug work_dir (_preview_state_dir repo slug) port1 port2 s0)) = Ret (JList [JInt p1; JInt p2])) as R1
    by (unfold saved_state; rewrite Hp0; reflexivity).
  assert (recorded "services" "service" (JObj (saved_state slug work_dir (_preview_state_dir repo slug) port1 port2 s0))
          = Ret (JList [JStr PREVIEW_INNER_SERVICE_NAME; JStr PREVIEW_SERVICE_NAME])) as R2 by (unfold saved_state; rewrite Hs0; reflexivity).
  rewrite R1, R2 in E2. change ((_teardown_preview repo (JList [JInt p1; JInt p2]) (JList [JStr PREVIEW_INNER_SERVICE_NAME; JStr PREVIEW_SERVICE_NAME]);;
                 on_disk (rmtree cwd (_preview_state_dir repo slug));; mret 0%Z) s1 = (Ret z, s2)) in E2.
  destruct (Hdn _ _ _ E2) as (l2 & H7 & ps & ss & H8 & H9). destruct (H9 eq_refl) as [-> ->].
  split; [by apply M_bind_Ret in E2 as ([] & t5 & _ & ([] & t6 & _ & [= <- _])%M_bind_Ret)|].
  exists p1, p2, l1, l2. split_and!; [done..|]. unfold hold_of. rewrite fold_left_app. fold (hold_of l1). rewrite H6, H8.
  apply held_eq; cbn; set_solver.
Qed.
End theorems.
