(* ===== verification/RevealDemo.v ===== *)
(** * A machine to reveal changes on

    A concrete [Box] whose git keeps its trees in maps and prints names the way
    git does, with the theorems about reveals and previews applied to it, and what
    it shows of the script's failures. *)

From Stdlib Require Import NArith ZArith QArith Lia.
From S2P Require Import Prelude PyStr PyJson PyDumps PyMonad PyBytes PyPath PyFs Reveal RevealFacts PreviewFacts.
From stdpp Require Import options.
#[global] Open Scope nat_scope.
#[local] Open Scope py_scope.

Record faults := { npm_missing : bool; bad_status : bool; register_fails : bool }.
Record computer := { c_fs : fs; c_tree : gmap pystr N; c_head : gmap pystr N; c_good : gmap pystr N; c_live : bool; c_pid : Z; c_faults : faults }.
Definition with_tree (t : gmap pystr N) (b : computer) : computer :=
  {| c_fs := c_fs b; c_tree := t; c_head := c_head b; c_good := c_good b; c_live := c_live b; c_pid := c_pid b; c_faults := c_faults b |}.
Definition with_live (l : bool) (b : computer) : computer :=
  {| c_fs := c_fs b; c_tree := c_tree b; c_head := c_head b; c_good := c_good b; c_live := l; c_pid := c_pid b; c_faults := c_faults b |}.

Definition exits (rc : Z) (out : pystr) : outcome CompletedProcess := Ret {| returncode := rc; stdout := out; stderr := [] |}.
(** Bytes above 127 are printed in octal, and the name in quotes. *)
Definition octal (b : N) : pystr := if (b <? 128)%N then [b] else [92; 48 + b / 64; 48 + b / 8 mod 8; 48 + b mod 8]%N.
Definition printed (f : pystr) : pystr :=
  if forallb (λ c, c <? 128)%N f then f
  else [34%N] ++ concat (map octal (match encode_utf8 f with Ret b => b | Raise _ => [] end)) ++ [34%N].
Definition letter (g h : option N) : N := match g, h with None, _ => 65 | _, None => 68 | _, _ => 77 end.
Definition entry (b : computer) (f : pystr) : option (N * pystr) :=
  if decide (c_good b !! f = c_head b !! f) then None
  else Some (letter (c_good b !! f) (c_head b !! f), f).
Definition diff_entries (b : computer) : list (N * pystr) := omap (entry b) (elements (dom (c_good b) ∪ dom (c_head b))).
Definition diff_output (b : computer) : pystr := entry_lines (map (λ e, e.1 :: 9%N :: printed e.2) (diff_entries b)).

(** The commands that write to the repository. *)
Definition git_write (argv : list pystr) (b : computer) : outcome CompletedProcess * computer :=
  match argv with
  | [_; cmd; _; _; f] =>
      if cmd =? u "rm" then (exits 0 [], with_tree (delete f (c_tree b)) b)
      else if cmd =? u "checkout" then
        match c_good b !! f with Some x => (exits 0 [], with_tree (<[f := x]> (c_tree b)) b) | None => (exits 1 [], b) end
      else (exits 0 [], {| c_fs := c_fs b; c_tree := c_tree b; c_head := c_tree b; c_good := c_good b; c_live := c_live b; c_pid := c_pid b; c_faults := c_faults b |})
  | _ => (exits 1 [], b)
  end.
Definition command_of (argv : list pystr) (b : computer) : outcome CompletedProcess * computer :=
  if writes_repo argv then git_write argv b
  else if decide (argv = status_argv) then (exits 0 (if decide (c_tree b = c_head b) then [] else u " M"), b)
  else if decide (argv = diff_argv "good") then (exits 0 (diff_output b), b)
  else if (take 1 argv =? [u "npm"]) && npm_missing (c_faults b) then (Raise FileNotFoundError, b)
  else if decide (take 2 argv = [u "mngr"; u "start"]) then (exits 0 [], with_live (bool_decide (c_tree b = c_good b)) b)
  else if (take 5 argv =? FORWARD_PORT_CMD ++ [u "--name"]) && register_fails (c_faults b) then (exits 1 [], b)
  else (exits 0 [], b).

#[export] Instance computer_box : Box := {|
  box := computer; disk := c_fs;
  set_disk f b := {| c_fs := f; c_tree := c_tree b; c_head := c_head b; c_good := c_good b; c_live := c_live b; c_pid := c_pid b; c_faults := c_faults b |};
  run_cmd argv _ b := command_of argv b;
  (* the throwaway servers listen on port 9000 *)
  urlopen_get url b :=
    (if startswith (u "http://127.0.0.1:9000/") url || c_live b then Opened 200
     else if bad_status (c_faults b) then Failed (OtherError "BadStatusLine" []) else Failed (OSError (u "refused")), b);
  urlopen_post _ _ _ b := (Opened 200, b);
  Popen _ _ _ _ _ b := (Ret (c_pid b),
    {| c_fs := c_fs b; c_tree := c_tree b; c_head := c_head b; c_good := c_good b; c_live := c_live b; c_pid := c_pid b + 1; c_faults := c_faults b |});
  send_terminate _ b := b; send_kill _ b := b; wait_10 _ b := (Ret tt, b); ephemeral_port b := (Ret 9000%Z, b); sleep_ _ b := b;
  environ := []; executable := u "/usr/bin/python3"; script_dir := path_of "/skill/scripts" |}.
#[export] Instance jrepr : JsonRepr := {| json_repr _ := u "?"; bytes_repr _ := u "?" |}.
#[export] Instance prepr : PyRepr := {| str_repr s := s; float_repr _ := u "0.5" |}.

Lemma git_write_foreign argv b : foreign (git_write argv b).1.
Proof. unfold git_write. by repeat case_match. Qed.
#[export] Instance computer_laws : BoxLaws computer_box.
Proof.
  split.
  - intros argv dir b. cbn. unfold command_of. destruct (writes_repo argv); [apply git_write_foreign|]. by repeat case_match.
  - intros url b. cbn. by repeat case_match.
  - done.
  - done.
  - done.
  - done.
Qed.

(** ** The laws of its git *)

#[export] Instance computer_git : Git computer_box := {| blob := N; tree := c_tree; head := c_head; at_rev _ := c_good |}.
Lemma elem_diff b e : e ∈ diff_entries b ↔ entry b e.2 = Some e.
Proof.
  unfold diff_entries. rewrite list_elem_of_omap. split.
  - intros (f & _ & E). assert (e.2 = f) as -> by (unfold entry in E; case_decide; [done|by injection E as <-]). done.
  - intros E. exists e.2. split; [|done]. rewrite elem_of_elements, elem_of_union, !elem_of_dom. unfold entry in E.
    case_decide as Hd; [done|]. destruct (c_good b !! e.2), (c_head b !! e.2); eauto. done.
Qed.
#[export] Instance computer_git_laws repo : GitLaws computer_box (u "good") repo.
Proof.
  split; unfold same_repo.
  - intros argv dir b Hw. cbn. unfold command_of. rewrite Hw. by repeat case_match.
  - done.
  - done.
  - done.
  - done.
  - done.
  - done.
  - done.
  - done.
  - intros b p. cbn. change (command_of status_argv b) with (exits 0 (if decide (c_tree b = c_head b) then [] else u " M"), b).
    intros [= <-] _. cbn. by case_decide.
  - intros b p. change (run_cmd (diff_argv (u "good")) repo b) with (exits 0 (diff_output b), b). intros [= <-] _ Hpl.
    exists (diff_entries b). cbn [at_rev head computer_git] in *. split_and!.
    + cbn [stdout]. unfold diff_output. f_equal. apply map_ext_in. intros e He%list_elem_of_In%elem_diff. do 2 f_equal.
      unfold printed. assert (plain_path e.2) as (_ & _ & _ & _ & Hc & _).
      { apply Hpl. unfold entry in He. by case_decide. }
      rewrite (proj2 (forallb_forall _ _)); [done|]. intros c Hin%list_elem_of_In. rewrite Forall_forall in Hc.
      apply N.ltb_lt. destruct (Hc c Hin). lia.
    + apply Forall_forall. intros [c f] He%elem_diff. unfold entry in He. cbn [fst snd] in *. case_decide as Hd; [done|].
      injection He as <-. change (letter (c_good b !! f) (c_head b !! f) ∈ u "AMDT" ∧ (letter (c_good b !! f) (c_head b !! f) = 65%N ↔ c_good b !! f = None)).
      change (u "AMDT") with [65; 77; 68; 84]%N. destruct (c_good b !! f), (c_head b !! f); cbn [letter]; set_solver.
    + intros f. rewrite list_elem_of_fmap. split.
      * intros (e & -> & He%elem_diff). unfold entry in He. by case_decide.
      * intros Hd. destruct (entry b f) as [e|] eqn:E; [|unfold entry in E; by case_decide].
        assert (e.2 = f) as He by (unfold entry in E; case_decide; [done|by injection E as <-]). exists e. split; [done|].
        apply elem_diff. by rewrite He.
  - intros f b p b' E _ _. injection E as <- <-. done.
  - intros f b p b' E Hz _. cbn in E.
    change (command_of (checkout_argv (u "good") f) b) with
      (match c_good b !! f with Some x => (exits 0 [], with_tree (<[f := x]> (c_tree b)) b) | None => (exits 1 [], b) end) in E.
    cbn. destruct (c_good b !! f) as [x|]; injection E as <- <-; [|done]. split; [by exists x|done].
  - intros m b p b' E _. injection E as <- <-. done.
Qed.

(** ** Reveals *)
Module RevealDemo.
Definition repo : path := path_of "/repo".
Definition backend_file : pystr := u "apps/system_interface/imbue/system_interface/server.py".
Definition new_file : pystr := u "apps/system_interface/imbue/system_interface/new.py".
Definition frontend_file : pystr := u "apps/system_interface/frontend/src/main.ts".
Definition no_faults : faults := {| npm_missing := false; bad_status := false; register_fails := false |}.
(** The merged tree [m] is served, [g] is known good, the service is up. *)
Definition merged (m g : gmap pystr N) (x : faults) : rstate :=
  {| bx := {| c_fs := Fs {[ [] := NDir 0 ]} 0; c_tree := m; c_head := m; c_good := g; c_live := true; c_pid := 100; c_faults := x |};
     log := []; pids := []; services := [] |}.

(** The merged backend passes the pre-flight check and breaks the live service. *)
Definition broken : rstate :=
  merged {[ backend_file := 2; new_file := 3; u "README.md" := 9 ]}%N {[ backend_file := 1; u "README.md" := 9; u "old.py" := 4 ]}%N no_faults.
Definition broken_end := reveal (u "good") repo None broken.
Lemma broken_rolled_back : broken_end.1 = Ret 2%Z.
Proof. vm_compute. reflexivity. Qed.
Lemma broken_run : reveal (u "good") repo None broken = (Ret 2%Z, broken_end.2).
Proof. rewrite <- broken_rolled_back. apply surjective_pairing. Qed.


Lemma broken_plain : ∀ f, at_rev (u "good") (bx broken) !! f ≠ head (bx broken) !! f → plain_path f.
Proof.
  assert (Forall (λ e, plain_path e.2) (diff_entries (bx broken))) as Hall.
  { assert (map snd (diff_entries (bx broken)) ≡ₚ [backend_file; new_file; u "old.py"]) as Hp by (apply (bool_decide_unpack _); vm_compute; exact I).
    rewrite <- (Forall_map snd plain_path), Hp. repeat constructor; try (apply (bool_decide_unpack _); vm_compute; exact I). }
  intros f Hf. rewrite Forall_forall in Hall. specialize (Hall (letter (c_good (bx broken) !! f) (c_head (bx broken) !! f), f)). apply Hall, elem_diff.
  unfold entry. by case_decide.
Qed.
Lemma rollback_restores_tree_witness :
  (2%Z = 0%Z ∧ same_repo (u "good") (bx broken) (bx broken_end.2)) ∨
  ((2%Z = 2%Z ∨ 2%Z = 3%Z) ∧ tree (bx broken_end.2) = at_rev (u "good") (bx broken) ∧ head (bx broken_end.2) = at_rev (u "good") (bx broken)).
Proof. apply (rollback_restores_tree (u "good") repo None broken 2 broken_end.2 broken_plain broken_run). Defined.

(** A missing program raises where the reveal expects an exit code: nothing is
    rolled back, and the merged tree stays. *)
Definition no_npm : rstate := merged {[ frontend_file := 2 ]}%N {[ frontend_file := 1 ]}%N {| npm_missing := true; bad_status := false; register_fails := false |}.
Example missing_program_skips_rollback :
  let '(r, s) := main [] (CReveal "good") repo no_npm in
  r = Raise FileNotFoundError ∧ tree (bx s) = tree (bx no_npm) ∧ map (λ a, match a with Ran argv _ _ => take 2 argv | _ => [] end) (log s)
    = [[u "git"; u "status"]; [u "git"; u "diff"]; [u "npm"; u "run"]].
Proof. vm_compute. split_and!; reflexivity. Qed.
(** So does a reply that is no HTTP, from the service that was just restarted. *)
Definition babbling : rstate :=
  merged {[ backend_file := 2 ]}%N {[ backend_file := 1 ]}%N {| npm_missing := false; bad_status := true; register_fails := false |}.
Example bad_status_skips_rollback :
  let '(r, s) := main [] (CReveal "good") repo babbling in
  r = Raise (OtherError (u "BadStatusLine") []) ∧ tree (bx s) = tree (bx babbling) ∧ c_live (bx s) = false.
Proof. vm_compute. split_and!; reflexivity. Qed.
(** A name that git quotes is handed back in quotes: the rollback fails half way
    with the exit code of an unmet precondition. *)
Definition quoted_file : pystr := u "apps/caf" ++ [233%N] ++ u ".txt".
Definition quoting : rstate := merged {[ backend_file := 2; quoted_file := 2 ]}%N {[ backend_file := 1; quoted_file := 1 ]}%N no_faults.
Example quoted_name_not_restored :
  let '(r, s) := main [] (CReveal "good") repo quoting in
  r = Ret 1%Z ∧ c_tree (bx s) !! quoted_file = Some 2%N ∧ c_head (bx s) = c_head (bx quoting) ∧ c_live (bx s) = false.
Proof. vm_compute. split_and!; reflexivity. Qed.

(** ** Previews *)

Definition workshop (x : faults) : rstate :=
  {| bx := {| c_fs := Fs {[ [] := NDir 0; [u "repo"] := NDir 0; [u "w"] := NDir 0; [u "w"; u "apps"] := NDir 0; [u "w"; u "apps"; u "system_interface"] := NDir 0 ]} 0;
             c_tree := ∅; c_head := ∅; c_good := ∅; c_live := true; c_pid := 100; c_faults := x |};
     log := []; pids := []; services := [] |}.
Definition up := preview [] "demo" "/w" repo (workshop no_faults).
Lemma up_returns : up.1 = Ret 0%Z.
Proof. vm_compute. reflexivity. Qed.
Lemma up_run : preview [] "demo" "/w" repo (workshop no_faults) = (Ret 0%Z, up.2).
Proof. rewrite <- up_returns. apply surjective_pairing. Qed.
Definition down := unpreview [] "demo" repo up.2.
Lemma down_run : unpreview [] "demo" repo up.2 = (Ret 0%Z, down.2).
Proof. assert (down.1 = Ret 0%Z) as <- by (vm_compute; reflexivity). apply surjective_pairing. Qed.

(** A preview whose routes cannot be registered. *)
Definition unrouted := preview [] "demo" "/w" repo (workshop {| npm_missing := false; bad_status := false; register_fails := true |}).
Lemma unrouted_run : preview [] "demo" "/w" repo (workshop {| npm_missing := false; bad_status := false; register_fails := true |}) = (Ret 1%Z, unrouted.2).
Proof. assert (unrouted.1 = Ret 1%Z) as <- by (vm_compute; reflexivity). apply surjective_pairing. Qed.
Lemma preview_all_or_nothing_witness :
  (1%Z = 1%Z ∧ unrouted.2 = workshop {| npm_missing := false; bad_status := false; register_fails := true |}) ∨
  ∃ l, log unrouted.2 = [] ++ l ∧
    ((1%Z = 1%Z ∧ hold_of l = nothing) ∨
     (1%Z = 0%Z ∧ ∃ p1 p2, hold_of l = of_lists [p1; p2] [PREVIEW_INNER_SERVICE_NAME; PREVIEW_SERVICE_NAME])).
Proof. apply (preview_all_or_nothing [] "demo" "/w" repo _ 1 unrouted.2 unrouted_run). Defined.

Lemma unpreview_undoes_preview_witness :
  0%Z = 0%Z ∧ ∃ p1 p2 l1 l2, log up.2 = [] ++ l1 ∧ log down.2 = log up.2 ++ l2 ∧
    hold_of l1 = of_lists [p1; p2] [PREVIEW_INNER_SERVICE_NAME; PREVIEW_SERVICE_NAME] ∧
    takes_down [group p1; group p2] [PREVIEW_INNER_SERVICE_NAME; PREVIEW_SERVICE_NAME] l2 ∧ hold_of (l1 ++ l2) = nothing.
Proof.
  apply (unpreview_undoes_preview [] "demo" "/w" repo (workshop no_faults) up.2 0 down.2);
    [done|reflexivity|reflexivity|vm_compute; reflexivity|vm_compute; reflexivity|exact up_run|exact down_run].
Defined.
Example down_removes_state : exists_ [] (_preview_state_path repo "demo") (files up.2) = true ∧ exists_ [] (_preview_state_dir repo "demo") (files down.2) = false.
Proof. vm_compute. done. Qed.
End RevealDemo.
